(* ===== verification/_CoqProject ===== *)
-Q . S2P
Prelude.v
Utf8.v
Strings.v
TextCounter.v
Float64.v
Json.v
Fs.v
FsSpec.v
Atomic.v
ShelfUtil.v
BookMeta.v
Source.v
Frame.v
Relocate.v
ScanCache.v
FolderMeta.v
Book.v
BookSpec.v
NoFault.v
ShelfState.v
Trash.v
Folder.v
ShelfBook.v
ShelfFrame.v
FolderSpec.v
FolderMetaSpec.v
ShelfInv.v
Lookup.v
TrashSpec.v
BookMoveSpec.v
CopySpec.v
TrashRoundtrip.v
Listing.v
Visibility.v
Http.v
Security.v
ScanComplete.v
Sample.v
Documents.v
Fingerprint.v
CacheExport.v
CacheSnapshot.v
ShelfConfig.v
Manager.v
Offline.v
OfflineSpec.v
LockedFile.v
ReadingProgress.v
ReadHistory.v
ReadingStats.v
Preferences.v
ReaderStores.v
TaskQueue.v
TaskQueueSpec.v
ServerTasks.v
Server.v
ServerBooks.v
ServerFolders.v
ServerSources.v
ServerTransfers.v
Routes.v
ServerSpec.v
Heap.v
Sketch.v
SketchCodec.v
Similar.v
DavClient.v
DavExport.v
Witnesses.v
ShelfWitnesses.v
HandlerWitnesses.v
RemoteWitnesses.v
ServerWitnesses.v
StoreWitnesses.v
Findings.v
Logs.v
PCloud.v
EpubText.v
Epub.v
Imports.v
