(* ===== verification/Prelude.v ===== *)
(** * PlainShelf: a verification library for the Go core

    PlainShelf keeps a library of texts and comics as plain files: a shelf
    is a directory with [books/] (folders and packages [*.bookpkg]), [trash/],
    [app/] and [shelf.json]; a book is a package with [book.json], an
    optional cover and [sources/]. A server answers requests over shelves a
    manager keeps open, and a queue runs the long tasks. Nothing is kept in a
    database: what the program remembers is a cache of the files, and other
    programs may change the files at any time. So most of what can go wrong is
    a fault in the middle of a change, a cache that is older than the files,
    and a path or a name that leads where it should not.

    ** How the program is modelled

    A Go function is a Definition or Fixpoint of the same name, translated
    with its guards, early returns and error paths. Functions over files run in
    [M world] (Fs.v): a state monad with errors over the tree of a directory,
    where every operation of the interface [fsutil.FS] is one step and the
    environment ([fault]) may let any step fail before or after its effect.
    The theorems that say a change loses nothing quantify over all faults; the
    ones that say what is achieved assume none (NoFault.v). Functions of a
    shelf run in [M Shelf] (ShelfState.v), handlers of the server in a monad
    whose error is the response already written (Server.v), the task queue is
    a step relation over the critical sections of its callers and its worker
    (TaskQueue.v). Time, randomness, digests, case tables, the parsing of
    URLs and the text of timestamps are parameters ([Machine], [Digest],
    [UnicodeCase], [TimeText], ...), instantiated in Sample.v. Integers are
    [Z]; where they can overflow the width is written out (SketchCodec,
    ReadingStats, ServerTasks). Loops without a structural measure run with
    fuel and each has a lemma that the fuel suffices: the walk of a shelf has
    [walk_fuel], two more than the number of files ([scan_finds_every_book]);
    the search for a free source name the number of sources and one
    ([freeSourceID_terminates]); the loops of the heap, of a copy, of asset
    sizes and of the text counter the length of what they run over.

    ** The files and the code they model (below src/)

    - Foundations. Utf8, Strings, Float64, Json: what the program uses of Go's
      strings, floats and JSON. TextCounter: internal/util/count.go. Fs,
      FsSpec, FsWf, Frame, Relocate, NoFault: internal/fsutil and the logic
      over it. Atomic: internal/fsutil/atomic.go.
    - Books. BookMeta, Source, Book, BookSpec: shelf/bookpkg. ShelfUtil:
      names, ignore rules and content rules.
    - A shelf. ScanCache: shelf/scancache. ShelfState: the cache of books and
      the walk that fills it (shelf_cache.go). Trash, Folder, FolderMeta,
      ShelfBook: its operations (trash.go, shelf_folder*.go, shelf_book.go,
      shelf_cross_book.go). Listing, Rescan: what clients list and how often
      they may ask for a walk. Fingerprint: shelf/fingerprint and
      internal/appcache. CacheFile, CacheExport: the listing an installation
      leaves beside the shelf (shelf_cache_export.go). ShelfConfig: shelf.json
      and the start of a shelf (shelf_config.go, shelf.go).
    - Remote shelves. CacheSnapshot: listing from an exported cache
      (shelf_cache_snapshot.go). Offline, OfflineSpec, DownloadSpec,
      OfflineRestart: copies on this machine (shelf_offline.go). Manager:
      the table of open shelves (shelf_manager.go).
    - State of a reader. LockedFile: internal/lockedfile. ReadingProgress,
      ReadHistory, Dates, ReadingStats, Preferences, ReaderStores, Documents:
      the documents kept with it.
    - Tasks. TaskQueue, TaskQueueSpec: internal/taskutil. ServerTasks:
      server/task.
    - The server. Http, Security, Server, ServerBooks, ServerFolders,
      ServerSources, ServerTransfers, Visibility, Routes, ServerSpec,
      ServerHiding: src/server.
    - Text similarity. Heap, Sketch, SketchCodec: internal/container,
      internal/sketch.
    - Concrete runs. Sample, Witnesses, ShelfWitnesses and the other
      Witnesses files instantiate the parameters and apply the properties;
      Findings runs the program where it does something else than it means to.

    A handler calls the shelf, which changes files through Book and Source and
    then corrects its cache; the shelf's invariant ([ShelfInv.cache_ok]) holds
    at any point between two operations, whatever other programs did to the
    files ([reachable]). A remote shelf is a [Shelf] over its source and an
    offline store with a directory of its own ([Offline.RemoteShelf]).

    ** What the theorems show

    - Nothing is lost. Moving to the trash, restoring, moving, creating,
      copying and renaming keep every file of the library under every fault
      (TrashSpec, BookMoveSpec, CopySpec, FolderSpec, BookSpec, Atomic); the
      trash and back is the identity without faults (TrashRoundtrip); a
      download keeps the records and the copy that were there (DownloadSpec).
    - Caches tell the truth. Every entry of the book cache names a package
      (ShelfInv), a lookup finds a book that is in the library (Lookup), a
      scan finds all (ScanComplete), a listing the scan cache reuses is the
      current one (ScanCache), a fingerprint is that of the present content
      (Fingerprint), an offline copy is served only for the book listed at its
      path (OfflineSpec).
    - What is written reads back: metadata, sketches, folder.json, exports
      (CacheSnapshot.remote_lists_the_export), downloads after a restart
      (OfflineRestart), and reader documents, which are well formed whatever
      the file holds (ReaderStores).
    - Refinements: [LockedFile.Mutate_refines] is an atomic update of a value,
      [FolderMetaSpec.updateFolderMeta_refines] a compare-and-swap.
    - Access: changes need the token and an allowed origin, a read-only server
      changes nothing (ServerSpec); a hidden book answers as a missing one and
      nothing hidden is revealed unconfirmed (ServerHiding, Visibility).
    - The task queue: one active chain per key, bounded, in order, draining
      when closed, in every interleaving (TaskQueueSpec); tasks end and report
      every item once (ServerTasks).
    - The manager leaks and shares no open shelf (Manager).
    - Sketches are the k smallest hashes (Sketch.Build_reference).

    ** Not modelled

    EPUB and CBZ readers, zip archives, the Unicode normalisation tables:
    parsers over third-party libraries. WebDAV and pCloud: network protocols;
    a remote source is an [FS] like any other, which stands still during one
    operation. Desktop, mobile and reader applications: glue between windows,
    platform services and the server. Logging and the wording of messages.
    Conditional requests ([ETag]) and range requests, which only save traffic.
    Symbolic links, file modes and memory limits. JSON is modelled as trees,
    not bytes: the text of a document is a parameter with the law that it
    parses back. *)

From stdpp Require Export prelude gmap strings list sorting fin_maps fin_sets.
From Stdlib Require Export ZArith Lia.
From Stdlib Require Ascii String.
Export Stdlib.Strings.Ascii (ascii(..)).
Export (notations) Stdlib.Strings.Ascii.
Open Scope nat_scope.

(** ** Results of fallible Go functions

    A Go function returning [(T, error)] becomes a function returning
    [result E T]; [E] enumerates the errors its callers can tell apart. *)
Inductive result (E A : Type) : Type :=
  | Ok (a : A)
  | Err (e : E).
Arguments Ok {E A} a.
Arguments Err {E A} e.

Declare Scope go_scope.
Delimit Scope go_scope with go.
Open Scope go_scope.

Definition res_bind {E A B} (m : result E A) (k : A → result E B) : result E B :=
  match m with Ok a => k a | Err e => Err e end.

Notation "x ← m ;;! k" := (res_bind m (λ x, k))
  (at level 20, m at level 100, k at level 200, right associativity,
   only parsing) : go_scope.
Notation "' pat ← m ;;! k" := (res_bind m (λ x, match x with pat => k end))
  (at level 20, pat pattern, m at level 100, k at level 200,
   right associativity, only parsing) : go_scope.

Definition is_ok {E A} (r : result E A) : bool :=
  match r with Ok _ => true | Err _ => false end.

Lemma res_bind_ok {E A B} (m : result E A) (k : A → result E B) b :
  res_bind m k = Ok b ↔ ∃ a, m = Ok a ∧ k a = Ok b.
Proof. destruct m; simpl; naive_solver. Qed.

(** [inv_ok H] splits a successful chain of fallible calls into its calls. *)
Ltac inv_ok H :=
  lazymatch type of H with
  | res_bind _ _ = Ok _ =>
      let a := fresh "v" in let Ha := fresh "Hok" in
      apply res_bind_ok in H as (a & Ha & H); inv_ok H
  | _ => idtac
  end.

(** [split_guard] splits on the scrutinee of the outermost [if] or [match]
    left in the goal, keeping its equation. *)
Ltac split_guard :=
  match goal with
  | |- context [ if ?b then _ else _ ] => destruct b eqn:?
  | |- context [ match ?b with _ => _ end ] => destruct b eqn:?
  end; simplify_eq/=; try done.

(** A run named by its result. *)
Lemma pair_eta {A B : Type} (p : A * B) a : p.1 = a → p = (a, p.2).
Proof. intros <-. by destruct p. Qed.

(** ** Machine integers *)

(** Go's [int] on a 64-bit platform: two's complement wrap-around. *)
Definition wrap64 (z : Z) : Z := ((z + 2 ^ 63) mod 2 ^ 64 - 2 ^ 63)%Z.
Definition MaxInt : Z := (2 ^ 63 - 1)%Z.
Definition MaxUint64 : Z := (2 ^ 64 - 1)%Z.

Lemma wrap64_id z : (- 2 ^ 63 ≤ z ≤ MaxInt)%Z → wrap64 z = z.
Proof. unfold wrap64, MaxInt. intros. rewrite Z.mod_small; lia. Qed.

(** ** Lists *)
Section Lists.
Context {A : Type}.
Implicit Types (l : list A).

(** Go's [l[i], l[j] = l[j], l[i]]. Both indices are in range at every call
    of the program; out of range Go panics and the model leaves [l] alone. *)
Definition swap l (i j : nat) : list A :=
  match l !! i, l !! j with
  | Some x, Some y => <[j := x]> (<[i := y]> l)
  | _, _ => l
  end.

Lemma length_swap l i j : length (swap l i j) = length l.
Proof. unfold swap. repeat case_match; rewrite ?length_insert; done. Qed.

Lemma swap_lookup l i j k x y :
  l !! i = Some x → l !! j = Some y →
  swap l i j !! k =
    if decide (k = j) then Some x else if decide (k = i) then Some y else l !! k.
Proof.
  intros Hi Hj. unfold swap. rewrite Hi, Hj.
  apply lookup_lt_Some in Hi, Hj.
  repeat case_decide; subst;
    rewrite ?list_lookup_insert_eq, ?list_lookup_insert_ne
      by (rewrite ?length_insert; done); try done.
  by rewrite list_lookup_insert_eq.
Qed.

Lemma swap_perm l i j : swap l i j ≡ₚ l.
Proof.
  unfold swap. destruct (l !! i) as [x|] eqn:Hi; [|done].
  destruct (l !! j) as [y|] eqn:Hj; [|done].
  destruct (decide (i = j)) as [->|Hne].
  { simplify_eq. rewrite list_insert_insert_eq, list_insert_id; done. }
  apply Permutation_insert_swap; done.
Qed.
End Lists.

Lemma size_list_to_set_le `{Countable A} (l : list A) :
  size (list_to_set l : gset A) ≤ length l.
Proof.
  induction l as [|x l IH]; [done|]. rewrite list_to_set_cons.
  destruct (decide (x ∈ (list_to_set l : gset A))).
  - rewrite subseteq_union_1_L by set_solver. simpl. lia.
  - rewrite size_union by set_solver. rewrite size_singleton. simpl. lia.
Qed.

(** ** Filtered lists *)
Section filters.
Context {A : Type} (P : A → Prop) `{∀ x, Decision (P x)}.

Lemma filter_snoc l x : filter P (l ++ [x]) = filter P l ++ (if decide (P x) then [x] else []).
Proof. by rewrite filter_app. Qed.
Lemma filter_whole l : Forall P l → filter P l = l.
Proof. induction 1 as [|x l Hx Hl IH]; [done|]. by rewrite filter_cons_True, IH. Qed.
Lemma filter_nothing l : Forall (λ x, ¬ P x) l → filter P l = [].
Proof. induction 1 as [|x l Hx Hl IH]; [done|]. by rewrite filter_cons_False, IH. Qed.
Lemma filter_sorted (R : A → A → Prop) l : StronglySorted R l → StronglySorted R (filter P l).
Proof.
  induction 1 as [|x l Hl IH Hx]; [constructor|]. rewrite filter_cons. case_decide; [|done]. constructor; [done|].
  rewrite Forall_forall in Hx |- *. intros y [_ Hy]%list_elem_of_filter. by apply Hx.
Qed.
Lemma not_nil_elem (l : list A) : l ≠ [] → ∃ x, x ∈ l.
Proof. destruct l as [|x l]; [done|]. exists x. by left. Qed.
End filters.
Arguments not_nil_elem {A} l.
