(* ===== verification/Utf8.v ===== *)
(** * Go strings: bytes, runes and the string functions the program uses

    A Go string is a byte sequence. [bytes] is its list form and the Stdlib
    [string] its packed form; [to_bytes] and [of_bytes] convert. The decoder
    [decode_rune] is [utf8.DecodeRuneInString] of the Go standard library,
    which [range] over a string, [utf8.RuneCountInString] and
    [utf8.ValidString] share; [FullRune] and [RuneStart] are its companions.
    [runes_app_start] and [runes_app_full] say where a byte string can be cut
    without changing the runes a decoder sees. *)

From S2P Require Import Prelude.

Abbreviation bytes := (list ascii).
Definition to_bytes (s : string) : bytes := Stdlib.Strings.String.list_ascii_of_string s.
Definition of_bytes (b : bytes) : string := Stdlib.Strings.String.string_of_list_ascii b.

Lemma of_to_bytes s : of_bytes (to_bytes s) = s.
Proof. apply Stdlib.Strings.String.string_of_list_ascii_of_string. Qed.
Lemma to_of_bytes b : to_bytes (of_bytes b) = b.
Proof. apply Stdlib.Strings.String.list_ascii_of_string_of_list_ascii. Qed.

#[export] Instance to_bytes_inj : Inj (=) (=) to_bytes.
Proof. intros a b H. by rewrite <-(of_to_bytes a), H, of_to_bytes. Qed.

Lemma to_bytes_app s t : to_bytes (s +:+ t) = to_bytes s ++ to_bytes t.
Proof. induction s as [|c s IH]; [done|]. simpl. by rewrite <-IH. Qed.

(** The value of a byte. *)
Definition byte_val (a : ascii) : Z := Z.of_N (Stdlib.Strings.Ascii.N_of_ascii a).

Module Utf8.
Open Scope Z_scope.

Definition RuneError : Z := 65533.

Definition in_range (x lo hi : Z) : bool := (lo <=? x) && (x <=? hi).

(** The accepted range of the second byte and the length of a sequence, by
    its first byte; [None] when the byte starts no sequence. *)
Definition first_class (p0 : Z) : option (nat * Z * Z) :=
  if in_range p0 0xC2 0xDF then Some (2%nat, 0x80, 0xBF)
  else if p0 =? 0xE0 then Some (3%nat, 0xA0, 0xBF)
  else if p0 =? 0xED then Some (3%nat, 0x80, 0x9F)
  else if in_range p0 0xE1 0xEF then Some (3%nat, 0x80, 0xBF)
  else if p0 =? 0xF0 then Some (4%nat, 0x90, 0xBF)
  else if in_range p0 0xF1 0xF3 then Some (4%nat, 0x80, 0xBF)
  else if p0 =? 0xF4 then Some (4%nat, 0x80, 0x8F)
  else None.

Definition is_cont (x : Z) : bool := in_range x 0x80 0xBF.

(** [utf8.DecodeRuneInString] on a non-empty string: the rune and its width,
    [(RuneError, 1)] for an invalid encoding. *)
Definition decode_rune (s : bytes) : Z * nat :=
  match byte_val <$> s with
  | [] => (RuneError, 0%nat)
  | p0 :: rest =>
      if p0 <? 0x80 then (p0, 1%nat) else
      match first_class p0, rest with
      | Some (2%nat, lo, hi), s1 :: _ =>
          if in_range s1 lo hi
          then (Z.lor (Z.shiftl (Z.land p0 0x1F) 6) (Z.land s1 0x3F), 2%nat)
          else (RuneError, 1%nat)
      | Some (3%nat, lo, hi), s1 :: s2 :: _ =>
          if in_range s1 lo hi && is_cont s2
          then (Z.lor (Z.shiftl (Z.land p0 0x0F) 12)
                  (Z.lor (Z.shiftl (Z.land s1 0x3F) 6) (Z.land s2 0x3F)), 3%nat)
          else (RuneError, 1%nat)
      | Some (4%nat, lo, hi), s1 :: s2 :: s3 :: _ =>
          if in_range s1 lo hi && is_cont s2 && is_cont s3
          then (Z.lor (Z.shiftl (Z.land p0 0x07) 18)
                  (Z.lor (Z.shiftl (Z.land s1 0x3F) 12)
                    (Z.lor (Z.shiftl (Z.land s2 0x3F) 6) (Z.land s3 0x3F))), 4%nat)
          else (RuneError, 1%nat)
      | _, _ => (RuneError, 1%nat)
      end
  end.

Definition rune_width (s : bytes) : nat := (decode_rune s).2.

Lemma rune_width_bounds s :
  s ≠ [] → (1 ≤ rune_width s ≤ length s)%nat.
Proof.
  unfold rune_width, decode_rune. destruct s as [|a0 s]; [done|]. intros _.
  destruct s as [|a1 [|a2 [|a3 s]]]; simpl;
    repeat (case_match; simplify_eq; simpl; try lia).
Qed.

(** The byte strings of the runes of [s], in order: what [range s] visits. *)
Fixpoint runes_fuel (fuel : nat) (s : bytes) : list bytes :=
  match fuel, s with
  | S fuel, _ :: _ => take (rune_width s) s :: runes_fuel fuel (drop (rune_width s) s)
  | _, _ => []
  end.
Definition runes (s : bytes) : list bytes := runes_fuel (length s) s.

Lemma runes_fuel_agree f n s :
  (length s ≤ f)%nat → (length s ≤ n)%nat → runes_fuel f s = runes_fuel n s.
Proof.
  revert f s. induction n as [|n IH]; intros f s Hf Hn.
  - destruct s; [by destruct f|simpl in *; lia].
  - destruct s as [|a s]; [by destruct f|]. destruct f as [|f]; simpl in Hf; [lia|].
    cbn [runes_fuel]. f_equal.
    pose proof (rune_width_bounds (a :: s) ltac:(done)).
    apply IH; rewrite length_drop; simpl in *; lia.
Qed.

Lemma runes_fuel_enough f s : (length s ≤ f)%nat → runes_fuel f s = runes s.
Proof. intros. by apply runes_fuel_agree. Qed.

Lemma runes_nil : runes [] = [].
Proof. done. Qed.

Lemma runes_cons a s :
  runes (a :: s) =
  take (rune_width (a :: s)) (a :: s) :: runes (drop (rune_width (a :: s)) (a :: s)).
Proof.
  unfold runes at 1. cbn [runes_fuel length]. f_equal.
  apply runes_fuel_enough. rewrite length_drop.
  pose proof (rune_width_bounds (a :: s) ltac:(done)). simpl in *. lia.
Qed.

(** Induction over a string rune by rune. *)
Lemma rune_ind (P : bytes → Prop) :
  P [] → (∀ s, s ≠ [] → P (drop (rune_width s) s) → P s) → ∀ s, P s.
Proof.
  intros H0 H1 s. remember (length s) as n eqn:Hn. revert s Hn.
  induction n as [n IH] using lt_wf_ind. intros s Hn.
  destruct s as [|a s]; [done|]. apply H1; [done|].
  pose proof (rune_width_bounds (a :: s) ltac:(done)).
  eapply IH; [|done]. rewrite length_drop. lia.
Qed.

Lemma runes_concat s : concat (runes s) = s.
Proof.
  induction s as [|s Hs IH] using rune_ind; [done|].
  destruct s as [|a s]; [done|]. rewrite runes_cons. simpl concat.
  by rewrite IH, take_drop.
Qed.

Lemma runes_nonempty s : Forall (λ r, r ≠ []) (runes s).
Proof.
  induction s as [|s Hs IH] using rune_ind; [constructor|].
  destruct s as [|a s]; [done|]. rewrite runes_cons. constructor; [|done].
  pose proof (rune_width_bounds (a :: s) ltac:(done)).
  destruct (rune_width (a :: s)); [lia|done].
Qed.

(** [utf8.RuneCountInString] *)
Definition RuneCount (s : bytes) : nat := length (runes s).

(** The byte offsets [range s] yields. *)
Fixpoint offsets_from (o : nat) (rs : list bytes) : list nat :=
  match rs with [] => [] | r :: rs => o :: offsets_from (o + length r) rs end.
Definition rune_offsets (s : bytes) : list nat := offsets_from 0 (runes s).

(** [utf8.ValidString]: no rune decodes to an error of width one. *)
Definition valid_rune (r : bytes) : bool :=
  negb (((decode_rune r).1 =? RuneError) && Nat.eqb (length r) 1).
Definition ValidString (s : bytes) : bool := forallb valid_rune (runes s).

(** [utf8.RuneStart] *)
Definition RuneStart (c : ascii) : bool := negb (is_cont (byte_val c)).

(** [utf8.FullRune] *)
Definition FullRune (p : bytes) : bool :=
  match byte_val <$> p with
  | [] => false
  | p0 :: rest =>
      match first_class p0 with
      | None => true
      | Some (sz, lo, hi) =>
          Nat.leb sz (length p) ||
          match rest with
          | p1 :: rest' =>
              negb (in_range p1 lo hi) ||
              match rest' with p2 :: _ => negb (is_cont p2) | [] => false end
          | [] => false
          end
      end
  end.

(** The ranges of second bytes are ranges of continuation bytes. *)
Lemma first_class_cont p0 sz lo hi x :
  first_class p0 = Some (sz, lo, hi) → is_cont x = false → in_range x lo hi = false.
Proof.
  unfold first_class, is_cont, in_range. intros H Hx.
  repeat case_match; simplify_eq; lia.
Qed.

Lemma first_class_size p0 sz lo hi :
  first_class p0 = Some (sz, lo, hi) → (sz = 2 ∨ sz = 3 ∨ sz = 4)%nat.
Proof. unfold first_class. intros H. repeat case_match; simplify_eq; auto. Qed.

Lemma first_class_start p0 c : first_class p0 = Some c → is_cont p0 = false.
Proof. unfold first_class, is_cont, in_range. intros H. repeat case_match; simplify_eq; lia. Qed.

Lemma first_class_ascii p0 : (p0 <? 0x80) = true → first_class p0 = None.
Proof. unfold first_class, in_range. intros H. repeat case_match; try done; exfalso; lia. Qed.

(** A rune decodes the same whatever follows it, once it is full. *)
Lemma decode_rune_full p t : FullRune p = true → decode_rune (p ++ t) = decode_rune p.
Proof.
  unfold FullRune, decode_rune. rewrite fmap_app.
  destruct p as [|a0 p]; [done|]. simpl.
  destruct (byte_val a0 <? 128) eqn:Ha; [done|].
  destruct (first_class (byte_val a0)) as [[[sz lo] hi]|] eqn:Hc; [|done].
  pose proof (first_class_size _ _ _ _ Hc) as Hsz.
  destruct p as [|a1 [|a2 [|a3 p]]]; simpl; destruct Hsz as [->|[->| ->]]; simpl; try done;
    rewrite ?orb_false_r; intros Hf;
    destruct (byte_val <$> t) as [|t0 [|t1 t']]; simpl; try done;
    repeat match goal with |- context [in_range ?x ?l ?h] => destruct (in_range x l h) end;
    repeat match goal with |- context [is_cont ?x] => destruct (is_cont x) end;
    simpl in *; try done.
Qed.

(** A byte that starts a rune never belongs to the rune before it. *)
Lemma decode_rune_start u c t :
  u ≠ [] → RuneStart c = true → decode_rune (u ++ c :: t) = decode_rune u.
Proof.
  intros Hu Hc. unfold RuneStart in Hc. apply negb_true_iff in Hc.
  unfold decode_rune. rewrite fmap_app, fmap_cons.
  generalize (byte_val <$> t). intros bs. destruct u as [|a0 u]; [done|]. simpl.
  destruct (byte_val a0 <? 128) eqn:Ha; [done|].
  destruct (first_class (byte_val a0)) as [[[sz lo] hi]|] eqn:Hf; [|done].
  pose proof (first_class_cont _ _ _ _ _ Hf Hc) as Hr.
  destruct (first_class_size _ _ _ _ Hf) as [->|[->| ->]];
    destruct u as [|a1 [|a2 [|a3 u]]]; simpl; rewrite ?Hr, ?Hc, ?andb_false_r; try done;
    destruct bs as [|t0 [|t1 t']]; simpl; rewrite ?Hc, ?Hr, ?andb_false_r; try done;
    simpl; rewrite ?andb_false_r; done.
Qed.

(** What is not yet a full rune is at most three bytes, a start byte and
    continuation bytes. *)
Lemma not_full_shape p :
  FullRune p = false → p ≠ [] →
  (length p ≤ 3)%nat ∧ ∃ c q, p = c :: q ∧ RuneStart c = true ∧
    Forall (λ x, RuneStart x = false) q.
Proof.
  unfold FullRune. destruct p as [|a0 p]; [done|]. intros Hf _. simpl in Hf.
  destruct (first_class (byte_val a0)) as [[[sz lo] hi]|] eqn:Hc; [|done].
  pose proof (first_class_start _ _ Hc) as Hs.
  assert (∀ x, is_cont x = false → in_range x lo hi = false) as Hr
    by (intros; by eapply first_class_cont).
  assert (RuneStart a0 = true) as Hs0 by (unfold RuneStart; by rewrite Hs).
  assert (∀ x : ascii, is_cont (byte_val x) = true → RuneStart x = false) as Hx
    by (intros x H; unfold RuneStart; by rewrite H).
  destruct (first_class_size _ _ _ _ Hc) as [->|[->| ->]];
    destruct p as [|a1 [|a2 [|a3 p]]]; simpl in Hf; try done;
    (split; [simpl; lia|]); eexists _, _; (split; [done|]); (split; [done|]);
    repeat constructor; apply Hx.
  all: try (apply orb_false_iff in Hf as [Hf1 Hf2]; apply negb_false_iff in Hf2; exact Hf2).
  all: apply orb_false_iff in Hf as [Hf1 _]; apply negb_false_iff in Hf1;
    destruct (is_cont (byte_val a1)) eqn:E; [done|]; by rewrite (Hr _ E) in Hf1.
Qed.

Lemma runes_app_start u c t :
  RuneStart c = true → runes (u ++ c :: t) = runes u ++ runes (c :: t).
Proof.
  intros Hc. induction u as [|u Hu IH] using rune_ind; [done|].
  destruct u as [|a u]; [done|]. rewrite runes_cons.
  rewrite <-app_comm_cons, runes_cons, app_comm_cons. unfold rune_width.
  rewrite decode_rune_start by done. fold (rune_width (a :: u)).
  pose proof (rune_width_bounds (a :: u) Hu).
  rewrite take_app_le, drop_app_le by lia. by rewrite IH.
Qed.

(** Every suffix of [p] at a rune boundary is a full rune. *)
Definition all_full (p : bytes) : Prop :=
  ∀ q, q ≠ [] → (∃ n, concat (drop n (runes p)) = q) → FullRune q = true.

(** The first rune of a string that starts with a full one. *)
Lemma runes_full_step p t :
  FullRune p = true →
  runes (p ++ t) = take (rune_width p) p :: runes (drop (rune_width p) p ++ t).
Proof.
  intros Hf. destruct p as [|a u]; [done|].
  rewrite <-app_comm_cons, runes_cons, app_comm_cons. unfold rune_width.
  rewrite decode_rune_full by done. fold (rune_width (a :: u)).
  pose proof (rune_width_bounds (a :: u) ltac:(done)).
  by rewrite take_app_le, drop_app_le by lia.
Qed.

Lemma runes_app_full p t : all_full p → runes (p ++ t) = runes p ++ runes t.
Proof.
  induction p as [|u Hu IH] using rune_ind; [done|]. intros Hall.
  assert (FullRune u = true) as Hf.
  { apply Hall; [done|]. exists 0%nat. rewrite drop_0. apply runes_concat. }
  rewrite runes_full_step by done. rewrite IH.
  - destruct u as [|a u]; [done|]. by rewrite runes_cons.
  - intros q Hq [n Hn]. apply Hall; [done|]. exists (S n).
    destruct u as [|a u]; [done|]. by rewrite runes_cons.
Qed.

End Utf8.
