(* ===== verification/Strings.v ===== *)
(** * The functions of Go's [strings], [strconv] and [path] the program uses

    Go strings are byte lists. [str "..."] is a literal. [TrimSpace] works on
    the runes of a string, as the Go function does; [Split] is only called
    with a one-byte separator, so it takes a byte. [Compare] is the byte-wise
    order [strings.Compare], [cmp.Compare] and [slices.Sort] use. *)

From S2P Require Import Prelude Utf8.

Abbreviation str s := (to_bytes s%string).

(** ** Prefixes and suffixes *)
Definition HasPrefix (s p : bytes) : bool := bool_decide (p `prefix_of` s).
Definition HasSuffix (s p : bytes) : bool := bool_decide (p `suffix_of` s).

(** [strings.CutSuffix] *)
Definition CutSuffix (s p : bytes) : option bytes :=
  if HasSuffix s p then Some (take (length s - length p) s) else None.
Definition TrimSuffix (s p : bytes) : bytes := default s (CutSuffix s p).
Definition TrimPrefix (s p : bytes) : bytes :=
  if HasPrefix s p then drop (length p) s else s.

(** [strings.Contains] *)
Fixpoint Contains (s p : bytes) : bool :=
  HasPrefix s p || match s with [] => false | _ :: s => Contains s p end.

(** [strings.ContainsAny] with ASCII characters. *)
Definition ContainsAny (s chars : bytes) : bool := existsb (λ c, bool_decide (c ∈ chars)) s.

Lemma CutSuffix_Some s p r : CutSuffix s p = Some r ↔ s = r ++ p.
Proof.
  unfold CutSuffix, HasSuffix. case_bool_decide as H.
  - destruct H as [k ->]. rewrite length_app, Nat.add_sub, take_app_length.
    split; [naive_solver|]. intros E%app_inj_tail_iff || intros E. simplify_list_eq. done.
  - split; [done|]. intros ->. destruct H. by eexists.
Qed.

Lemma TrimSuffix_app s p : TrimSuffix (s ++ p) p = s.
Proof. unfold TrimSuffix. by rewrite (proj2 (CutSuffix_Some _ _ _) eq_refl). Qed.

Lemma HasSuffix_app s p : HasSuffix (s ++ p) p = true.
Proof. apply bool_decide_true. by eexists. Qed.

(** ** Splitting and joining *)
Fixpoint Split (s : bytes) (sep : ascii) : list bytes :=
  match s with
  | [] => [[]]
  | c :: s =>
      if decide (c = sep) then [] :: Split s sep
      else match Split s sep with [] => [[c]] | w :: ws => (c :: w) :: ws end
  end.

Fixpoint Join (l : list bytes) (sep : bytes) : bytes :=
  match l with
  | [] => []
  | [w] => w
  | w :: l => w ++ sep ++ Join l sep
  end.

Lemma Split_nonempty s sep : Split s sep ≠ [].
Proof. destruct s; simpl; [done|]. by repeat case_match. Qed.

Lemma Split_word w sep : sep ∉ w → Split w sep = [w].
Proof.
  induction w as [|c w IH]; [done|]. rewrite not_elem_of_cons. intros [? ?].
  simpl. rewrite decide_False by congruence. by rewrite IH.
Qed.

Lemma Split_app w s sep : sep ∉ w → Split (w ++ sep :: s) sep = w :: Split s sep.
Proof.
  induction w as [|c w IH]; simpl.
  - by rewrite decide_True.
  - rewrite not_elem_of_cons. intros [? ?]. rewrite decide_False by congruence.
    by rewrite IH.
Qed.

Lemma Split_Join l sep :
  l ≠ [] → Forall (λ w, sep ∉ w) l → Split (Join l [sep]) sep = l.
Proof.
  induction l as [|w l IH]; [done|]. intros _ [Hw Hl]%Forall_cons.
  destruct l as [|w' l]; [by apply Split_word|].
  change (Join (w :: w' :: l) [sep]) with (w ++ sep :: Join (w' :: l) [sep]).
  rewrite Split_app by done. by rewrite IH.
Qed.

Lemma Split_app_gen w s sep : Split (w ++ sep :: s) sep = Split w sep ++ Split s sep.
Proof.
  induction w as [|c w IH]; simpl; [by rewrite decide_True|]. rewrite IH. case_decide; [done|].
  pose proof (Split_nonempty w sep). by destruct (Split w sep).
Qed.
Lemma Split_Join_concat l sep : l ≠ [] → Split (Join l [sep]) sep = mjoin ((λ w, Split w sep) <$> l).
Proof.
  induction l as [|w l IH]; [done|]. intros _. destruct l as [|w' l]; [symmetry; apply app_nil_r|].
  change (Join (w :: w' :: l) [sep]) with (w ++ sep :: Join (w' :: l) [sep]).
  rewrite Split_app_gen, IH by done. done.
Qed.

Lemma Join_Split s sep : Join (Split s sep) [sep] = s.
Proof.
  induction s as [|c s IH]; [done|]. simpl. case_decide as Hc.
  - subst. pose proof (Split_nonempty s sep). destruct (Split s sep); [done|].
    rewrite <-IH. done.
  - destruct (Split s sep) as [|w ws] eqn:E; [by apply Split_nonempty in E|].
    rewrite <-IH. destruct ws; done.
Qed.

Lemma Split_no_sep s sep : Forall (λ w, sep ∉ w) (Split s sep).
Proof.
  induction s as [|c s IH]; simpl; [repeat constructor; set_solver|].
  case_decide; [constructor; [set_solver|done]|].
  destruct (Split s sep); [repeat constructor; set_solver|].
  apply Forall_cons in IH as [??]. constructor; [set_solver|done].
Qed.

(** ** [strings.TrimSpace] *)

(** The encodings of the runes [unicode.IsSpace] accepts. *)
Definition space_runes : list bytes :=
  (λ n, [Stdlib.Strings.Ascii.ascii_of_nat n]) <$> [9; 10; 11; 12; 13; 32].
Definition wide_space_runes : list bytes :=
  map (map Stdlib.Strings.Ascii.ascii_of_nat)
    ([[194; 133]; [194; 160]; [225; 154; 128]]
     ++ map (λ n, [226; 128; n]) (seq 128 11)
     ++ [[226; 128; 168]; [226; 128; 169]; [226; 128; 175]; [226; 129; 159];
         [227; 128; 128]]).
Definition is_space (r : bytes) : bool :=
  bool_decide (r ∈ space_runes) || bool_decide (r ∈ wide_space_runes).

Fixpoint drop_spaces (rs : list bytes) : list bytes :=
  match rs with
  | [] => []
  | r :: rs' => if is_space r then drop_spaces rs' else rs
  end.
Definition trim_runes (rs : list bytes) : list bytes :=
  reverse (drop_spaces (reverse (drop_spaces rs))).
Definition TrimSpace (s : bytes) : bytes := concat (trim_runes (Utf8.runes s)).

Lemma drop_spaces_suffix rs : ∃ k, drop_spaces rs = drop k rs.
Proof.
  induction rs as [|r rs [k IH]]; [by exists 0|]. simpl.
  destruct (is_space r); [by exists (S k)|by exists 0].
Qed.

Lemma drop_spaces_idem rs : drop_spaces (drop_spaces rs) = drop_spaces rs.
Proof. induction rs as [|r rs IH]; simpl; [done|]. destruct (is_space r) eqn:E; [done|]. simpl. by rewrite E. Qed.

Lemma drop_spaces_split rs : ∃ l, rs = l ++ drop_spaces rs ∧ Forall (λ r, is_space r = true) l.
Proof.
  induction rs as [|r rs (l & E & Hl)]; simpl; [by exists []|].
  destruct (is_space r) eqn:Hr; [|by exists []]. exists (r :: l). simpl. rewrite <-E. by constructor; [|constructor].
Qed.

(** What is left starts as a trimmed list does. *)
Lemma drop_spaces_prefix a b : drop_spaces (a ++ b) = a ++ b → a ≠ [] → drop_spaces a = a.
Proof. destruct a as [|r a]; [done|]. simpl. destruct (is_space r) eqn:Hr; [|done]. intros E _.
  destruct (drop_spaces_suffix (a ++ b)) as [k Hk]. rewrite Hk in E. apply (f_equal length) in E.
  rewrite length_drop in E. simpl in E. lia. Qed.

Lemma runes_drop s k : Utf8.runes (concat (drop k (Utf8.runes s))) = drop k (Utf8.runes s).
Proof.
  revert s. induction k as [|k IH]; intros s; [by rewrite drop_0, Utf8.runes_concat|].
  destruct s as [|a s]; [done|]. rewrite Utf8.runes_cons. simpl. apply IH.
Qed.

Lemma space_rune_start r : is_space r = true → ∃ c t, r = c :: t ∧ Utf8.RuneStart c = true.
Proof.
  intros Hr. assert (Forall (λ r, match r with c :: _ => Utf8.RuneStart c = true | [] => False end)
    (space_runes ++ wide_space_runes)) as Hall by (repeat constructor; vm_compute; reflexivity).
  rewrite Forall_forall in Hall. specialize (Hall r). unfold is_space in Hr.
  assert (r ∈ space_runes ++ wide_space_runes) as Hin.
  { apply elem_of_app. apply orb_prop in Hr as [Hr|Hr]; apply bool_decide_eq_true in Hr; auto. }
  specialize (Hall Hin). destruct r as [|c t]; [done|by exists c, t].
Qed.

(** The runes of a trimmed text are the trimmed runes. *)
Lemma runes_TrimSpace s : Utf8.runes (TrimSpace s) = trim_runes (Utf8.runes s).
Proof.
  unfold TrimSpace, trim_runes. destruct (drop_spaces_suffix (Utf8.runes s)) as [k Ek].
  set (B := drop_spaces (Utf8.runes s)) in *.
  assert (Utf8.runes (concat B) = B) as HB by (rewrite Ek; apply runes_drop).
  destruct (drop_spaces_split (reverse B)) as (l & El & Hl).
  set (C := reverse (drop_spaces (reverse B))). set (D := reverse l).
  assert (B = C ++ D) as EB.
  { unfold C, D. rewrite <-reverse_app, <-El. by rewrite reverse_involutive. }
  destruct (decide (D = [])) as [ED|ED]; [by rewrite ED, app_nil_r in EB; rewrite <-EB|].
  assert (Utf8.runes (concat D) = D) as HD.
  { assert (D = drop (k + length C) (Utf8.runes s)) as ->; [|apply runes_drop].
    rewrite <-drop_drop, <-Ek, EB. by rewrite drop_app_length. }
  assert (∃ c t, concat D = c :: t ∧ Utf8.RuneStart c = true) as (c & t & Ec & Hc).
  { destruct D as [|r D'] eqn:E; [done|]. destruct (space_rune_start r) as (c & t & -> & ?).
    - rewrite Forall_forall in Hl. apply Hl. apply elem_of_reverse. fold D. rewrite E. left.
    - exists c, (t ++ concat D'). by split. }
  rewrite EB, concat_app, Ec, (Utf8.runes_app_start _ _ _ Hc), <-Ec, HD in HB.
  by apply app_inv_tail in HB.
Qed.

Lemma trim_runes_idem rs : trim_runes (trim_runes rs) = trim_runes rs.
Proof.
  unfold trim_runes. set (B := drop_spaces rs).
  destruct (drop_spaces_split (reverse B)) as (l & El & _).
  set (C := reverse (drop_spaces (reverse B))).
  assert (B = C ++ reverse l) as EB.
  { unfold C. rewrite <-reverse_app, <-El. by rewrite reverse_involutive. }
  assert (drop_spaces C = C) as ->.
  { destruct (decide (C = [])) as [->|HC]; [done|]. apply (drop_spaces_prefix C (reverse l)); [|done].
    rewrite <-EB. apply drop_spaces_idem. }
  unfold C. by rewrite reverse_involutive, drop_spaces_idem.
Qed.

Lemma TrimSpace_idem s : TrimSpace (TrimSpace s) = TrimSpace s.
Proof. unfold TrimSpace at 1. by rewrite runes_TrimSpace, trim_runes_idem. Qed.

(** ** The byte-wise order *)
Fixpoint Compare (a b : bytes) : comparison :=
  match a, b with
  | [], [] => Eq
  | [], _ => Lt
  | _, [] => Gt
  | x :: a, y :: b =>
      match (byte_val x ?= byte_val y)%Z with Eq => Compare a b | c => c end
  end.
Definition str_le (a b : bytes) : Prop := Compare a b ≠ Gt.
Definition str_lt (a b : bytes) : Prop := Compare a b = Lt.
#[export] Instance str_le_dec : RelDecision str_le.
Proof. intros a b. unfold str_le. apply _. Defined.
#[export] Instance str_lt_dec : RelDecision str_lt.
Proof. intros a b. unfold str_lt. apply _. Defined.

Lemma byte_val_inj a b : byte_val a = byte_val b → a = b.
Proof.
  unfold byte_val. intros H%N2Z.inj.
  by rewrite <-(Stdlib.Strings.Ascii.ascii_N_embedding a), H,
    Stdlib.Strings.Ascii.ascii_N_embedding.
Qed.

Lemma Compare_eq a b : Compare a b = Eq ↔ a = b.
Proof.
  revert b. induction a as [|x a IH]; intros [|y b]; simpl; try done.
  destruct (Z.compare_spec (byte_val x) (byte_val y)) as [E|E|E].
  - apply byte_val_inj in E as ->. rewrite IH. naive_solver.
  - split; [done|]. intros ?; simplify_eq. lia.
  - split; [done|]. intros ?; simplify_eq. lia.
Qed.

Lemma Compare_antisym a b : Compare b a = CompOpp (Compare a b).
Proof.
  revert b. induction a as [|x a IH]; intros [|y b]; simpl; try done.
  rewrite Z.compare_antisym. destruct (byte_val x ?= byte_val y)%Z; simpl; done.
Qed.

Lemma Compare_lt_trans a b c : Compare a b = Lt → Compare b c = Lt → Compare a c = Lt.
Proof.
  revert b c. induction a as [|x a IH]; intros [|y b] [|z c]; simpl; try done.
  destruct (Z.compare_spec (byte_val x) (byte_val y)),
    (Z.compare_spec (byte_val y) (byte_val z)), (Z.compare_spec (byte_val x) (byte_val z));
    try done; try (exfalso; lia). apply IH.
Qed.

#[export] Instance str_le_total : Total str_le.
Proof.
  intros a b. unfold str_le. rewrite (Compare_antisym a b). destruct (Compare a b); naive_solver.
Qed.

#[export] Instance str_le_trans : Transitive str_le.
Proof.
  intros a b c. unfold str_le. intros Hab Hbc.
  destruct (Compare a b) eqn:E1; [apply Compare_eq in E1 as ->; done| |done].
  destruct (Compare b c) eqn:E2; [apply Compare_eq in E2 as ->; congruence| |done].
  by rewrite (Compare_lt_trans _ _ _ E1 E2).
Qed.

#[export] Instance str_le_antisym : AntiSymm (=) str_le.
Proof.
  intros a b. unfold str_le. rewrite (Compare_antisym a b).
  destruct (Compare a b) eqn:E; simpl; [by apply Compare_eq in E|done|done].
Qed.

(** [slices.Sort] on strings. *)
Definition sort_strings (l : list bytes) : list bytes := merge_sort str_le l.

(** Sorting by a key that no two elements share: strictly ascending, and
    the same whatever the order was. *)
Lemma str_lt_irrefl a : ¬ str_lt a a.
Proof. unfold str_lt. by rewrite (proj2 (Compare_eq a a) eq_refl). Qed.
Lemma str_lt_asymm a b : str_lt a b → ¬ str_lt b a.
Proof. unfold str_lt. intros Hab Hba. by rewrite Compare_antisym, Hba in Hab. Qed.
Section by_key.
Context {A : Type} (key : A → bytes) (R : A → A → Prop) `{∀ a b, Decision (R a b)} (HR : ∀ a b, R a b ↔ str_le (key a) (key b)).
Definition key_lt (a b : A) : Prop := str_lt (key a) (key b).
Lemma sorted_by_key l : NoDup (key <$> l) → StronglySorted key_lt (merge_sort R l).
Proof using HR.
  intros Hn. assert (Transitive R) as Htr by (intros x y z; rewrite !HR; apply str_le_trans).
  assert (Total R) as Hto by (intros x y; rewrite !HR; apply str_le_total).
  assert (NoDup (key <$> merge_sort R l)) as Hn' by (by rewrite merge_sort_Permutation).
  pose proof (StronglySorted_merge_sort R l) as Hs. induction Hs as [|a k Hs IH Ha]; [constructor|].
  inversion_clear Hn' as [|? ? Hni Hnk]. constructor; [by apply IH|]. rewrite Forall_forall in Ha |- *. intros b Hb.
  pose proof (proj1 (HR a b) (Ha b Hb)) as Hle. unfold key_lt, str_lt. unfold str_le in Hle.
  destruct (Compare (key a) (key b)) eqn:E; [|done|done]. apply Compare_eq in E. destruct Hni. rewrite E. by apply list_elem_of_fmap_2.
Qed.
Lemma key_sorted_unique l k : StronglySorted key_lt l → StronglySorted key_lt k → l ≡ₚ k → l = k.
Proof using.
  intros Hl Hk Hp. apply (StronglySorted_unique_strong key_lt); [|done..]. intros x y _ _ Hxy Hyx. by destruct (str_lt_asymm _ _ Hxy).
Qed.
End by_key.

(** ** [strconv.Itoa] *)
Fixpoint digits_fuel (fuel : nat) (n : N) (acc : bytes) : bytes :=
  match fuel with
  | 0 => acc
  | S fuel =>
      let acc := Stdlib.Strings.Ascii.ascii_of_N (48 + n mod 10) :: acc in
      if (n <? 10)%N then acc else digits_fuel fuel (n / 10)%N acc
  end.
(** A number of [k] bits has at most [k] decimal digits. *)
Definition Itoa_nat (n : N) : bytes := digits_fuel (S (N.size_nat n)) n [].
Definition Itoa (z : Z) : bytes :=
  if (z <? 0)%Z then "-"%char :: Itoa_nat (Z.to_N (- z)) else Itoa_nat (Z.to_N z).

Example Itoa_examples :
  (Itoa <$> [0; 7; -12; 10; 9999; 1048576]%Z) =
  [str "0"; str "7"; str "-12"; str "10"; str "9999"; str "1048576"].
Proof. by vm_compute. Qed.

(** The number a text of decimal digits denotes. *)
Definition digits_val (v : N) (b : bytes) : N :=
  foldl (λ v c, v * 10 + (Stdlib.Strings.Ascii.N_of_ascii c - 48))%N v b.

Lemma digits_fuel_val f n acc :
  (n < 10 ^ N.of_nat f)%N → digits_val 0 (digits_fuel f n acc) = digits_val n acc.
Proof.
  revert n acc. induction f as [|f IH]; intros n acc Hn.
  { simpl in Hn. assert (n = 0%N) as -> by lia. done. }
  assert (Stdlib.Strings.Ascii.N_of_ascii (Stdlib.Strings.Ascii.ascii_of_N (48 + n mod 10))
    = 48 + n mod 10)%N as Hd.
  { apply Stdlib.Strings.Ascii.N_ascii_embedding. pose proof (N.mod_lt n 10). lia. }
  simpl. destruct (N.ltb_spec n 10) as [Hlt|Hge].
  - unfold digits_val. simpl. rewrite Hd. rewrite N.mod_small by done. f_equal. lia.
  - rewrite IH.
    + unfold digits_val. simpl. rewrite Hd. f_equal. pose proof (N.Div0.div_mod n 10).
      revert H. generalize (n / 10)%N (n mod 10)%N. lia.
    + rewrite Nat2N.inj_succ, N.pow_succ_r' in Hn. apply N.Div0.div_lt_upper_bound. lia.
Qed.

Lemma size_nat_bound n : (n < 10 ^ N.of_nat (S (N.size_nat n)))%N.
Proof.
  assert (n < 2 ^ N.of_nat (N.size_nat n))%N as H2.
  { destruct n as [|p]; [done|]. cbn [N.size_nat].
    induction p as [p IH|p IH|]; cbn [Pos.size_nat]; [| |done];
      rewrite Nat2N.inj_succ, N.pow_succ_r'; lia. }
  eapply N.lt_le_trans; [exact H2|]. rewrite Nat2N.inj_succ, N.pow_succ_r'.
  pose proof (N.pow_le_mono_l 2 10 (N.of_nat (N.size_nat n)) ltac:(lia)). lia.
Qed.

Lemma Itoa_inj i j : (0 ≤ i)%Z → (0 ≤ j)%Z → Itoa i = Itoa j → i = j.
Proof.
  intros Hi Hj. unfold Itoa. destruct (Z.ltb_spec i 0), (Z.ltb_spec j 0); try lia.
  unfold Itoa_nat. intros E%(f_equal (digits_val 0)).
  rewrite !digits_fuel_val in E by apply size_nat_bound. unfold digits_val in E. simpl in E. lia.
Qed.

(** [Itoa] writes digits and a sign. *)
Lemma digits_no_slash f n acc : "/"%char ∉ acc → "/"%char ∉ digits_fuel f n acc.
Proof.
  revert n acc. induction f as [|f IH]; intros n acc Ha; cbn [digits_fuel]; [done|].
  assert ("/"%char ∉ Stdlib.Strings.Ascii.ascii_of_N (48 + n mod 10) :: acc) as Hc.
  { rewrite not_elem_of_cons. split; [|done]. intros E%(f_equal Stdlib.Strings.Ascii.N_of_ascii).
    pose proof (N.mod_lt n 10 ltac:(done)) as Hm. rewrite Stdlib.Strings.Ascii.N_ascii_embedding in E by lia.
    assert (Stdlib.Strings.Ascii.N_of_ascii "/"%char = 47%N) as E47 by done.
    rewrite E47 in E. clear -E. revert E. generalize (n mod 10)%N. lia. }
  destruct (n <? 10)%N; [done|]. by apply IH.
Qed.
Lemma Itoa_no_slash z : "/"%char ∉ Itoa z.
Proof.
  unfold Itoa. case_match; [rewrite not_elem_of_cons; split; [done|]|];
    apply digits_no_slash, not_elem_of_nil.
Qed.

(** ** [strings.Fields] and [strconv.ParseInt] in base 10 at 64 bits *)
Fixpoint fields_of (rs : list bytes) (word : bytes) : list bytes :=
  match rs with
  | [] => if decide (word = []) then [] else [word]
  | r :: rs =>
      if is_space r then (if decide (word = []) then [] else [word]) ++ fields_of rs []
      else fields_of rs (word ++ r)
  end.
Definition Fields (s : bytes) : list bytes := fields_of (Utf8.runes s) [].
Fixpoint parse_digits (v : Z) (s : bytes) : option Z :=
  match s with
  | [] => Some v
  | c :: s => let d := (byte_val c - 48)%Z in
      if ((0 <=? d) && (d <=? 9))%Z then parse_digits (v * 10 + d)%Z s else None
  end.
Definition ParseInt (s : bytes) : option Z :=
  let '(sign, digits) :=
    match s with
    | c :: rest => if decide (c = "-"%char) then ((-1)%Z, rest) else if decide (c = "+"%char) then (1%Z, rest) else (1%Z, s)
    | [] => (1%Z, [])
    end in
  if decide (digits = []) then None else
  match parse_digits 0 digits with
  | Some v => if decide (- 2 ^ 63 ≤ sign * v < 2 ^ 63)%Z then Some (sign * v)%Z else None
  | None => None
  end.
Example Fields_examples : Fields (str " HTTP/1.1  200 OK") = [str "HTTP/1.1"; str "200"; str "OK"] ∧
  (ParseInt <$> [str "17"; str "-3"; str "+0"; str ""; str "1x"; str "9223372036854775808"]) =
  [Some 17; Some (-3); Some 0; None; None; None]%Z.
Proof. split; by vm_compute. Qed.
