(* ===== verification/TextCounter.v ===== *)
(** * The streaming text counter: [src/internal/util/count.go]

    [TextCounter] counts the lines and runes of a text it is fed in pieces of
    any size, keeping at most three bytes of a rune cut at the end of a
    piece. [Chars_stream] and [Lines_stream] show that the cuts do not
    matter. *)

From S2P Require Import Prelude Utf8 Strings.

Module TextCounter.

Record TextCounter := mkTextCounter {
  lines : nat; chars : nat; lineOpen : bool; partial : bytes }.
Definition zero : TextCounter := mkTextCounter 0 0 false [].

Definition newline : ascii := Stdlib.Strings.Ascii.ascii_of_nat 10.
Definition count_newlines (p : bytes) : nat := length (filter (λ c, c = newline) p).
Definition UTFMax : nat := 4.

(** The loop over the bytes kept from earlier writes: [head] is them followed
    by the first bytes of [p]. [inl] is the early return with the new
    [partial], [inr] the rune count and the offset reached. *)
Fixpoint head_loop (fuel : nat) (head : bytes) (plen i chars : nat) :
    (bytes * nat) + (nat * nat) :=
  match fuel with
  | 0 => inr (chars, i)
  | S fuel =>
      if decide (i < plen) then
        if negb (Utf8.FullRune (drop i head)) then inl (drop i head, chars)
        else head_loop fuel head plen (i + Utf8.rune_width (drop i head)) (S chars)
      else inr (chars, i)
  end.

(** The loop looking for the last rune start in the last three bytes. *)
Fixpoint tail_loop (n k : nat) (p : bytes) : bytes * bytes :=
  match n with
  | 0 => (p, [])
  | S n =>
      let tail := drop (length p - k) p in
      match tail with
      | c :: _ =>
          if Utf8.RuneStart c then
            if negb (Utf8.FullRune tail) then (take (length p - k) p, tail) else (p, [])
          else tail_loop n (S k) p
      | [] => (p, [])
      end
  end.

(** [func (c *TextCounter) Write(p []byte)] *)
Definition Write (c : TextCounter) (p : bytes) : TextCounter :=
  match last p with
  | None => c
  | Some lastc =>
      let lines := lines c + count_newlines p in
      let lineOpen := negb (bool_decide (lastc = newline)) in
      let plen := length (partial c) in
      let head := partial c ++ take (length p `min` UTFMax) p in
      match head_loop (S plen) head plen 0 (chars c) with
      | inl (rest, chars) => mkTextCounter lines chars lineOpen rest
      | inr (chars, i) =>
          let p := drop (i - plen) p in
          let '(p, rest) := tail_loop (length p `min` (UTFMax - 1)) 1 p in
          mkTextCounter lines (chars + Utf8.RuneCount p) lineOpen rest
      end
  end.

(** [func (c *TextCounter) Lines() int] and [Chars() int] *)
Definition Lines (c : TextCounter) : nat := if lineOpen c then lines c + 1 else lines c.
Definition Chars (c : TextCounter) : nat := chars c + Utf8.RuneCount (partial c).

Definition write_all (ps : list bytes) : TextCounter := foldl Write zero ps.

(** ** The invariant: [done] is counted, [partial] is an unfinished rune *)
Record counted (s : bytes) (c : TextCounter) : Prop := {
  cnt_partial : partial c = [] ∨ Utf8.FullRune (partial c) = false;
  cnt_chars t : length (Utf8.runes (s ++ t)) =
    chars c + length (Utf8.runes (partial c ++ t));
}.

Lemma counted_zero : counted [] zero.
Proof. split; [by left|done]. Qed.

(** The head loop consumes whole runes of [drop i (partial ++ p)]. *)
Lemma head_loop_spec fuel p0 p i n :
  length p0 < fuel + i → length p0 ≤ 3 →
  i ≤ length p0 + length p →
  let head := p0 ++ take (length p `min` UTFMax) p in
  match head_loop fuel head (length p0) i n with
  | inl (rest, n') =>
      Utf8.FullRune rest = false ∧
      ∀ t, n + length (Utf8.runes (drop i (p0 ++ p) ++ t)) = n' + length (Utf8.runes (rest ++ t))
  | inr (n', j) =>
      length p0 ≤ j ∧
      ∀ t, n + length (Utf8.runes (drop i (p0 ++ p) ++ t)) =
           n' + length (Utf8.runes (drop j (p0 ++ p) ++ t))
  end.
Proof.
  intros Hf H3. revert i n Hf. induction fuel as [|fuel IH]; intros i n Hf Hi head; simpl.
  { split; [lia|done]. }
  case_decide as Hlt; [|split; [lia|done]].
  assert (drop i head ≠ []) as Hne.
  { intros E. apply (f_equal length) in E. unfold head in E.
    rewrite length_drop, length_app in E. simpl in E. lia. }
  assert (drop i (p0 ++ p) = drop i head ++ drop (length p `min` UTFMax) p) as Hsplit.
  { unfold head. rewrite !drop_app_le by lia. by rewrite <-app_assoc, take_drop. }
  destruct (Utf8.FullRune (drop i head)) eqn:Hfull; simpl.
  - pose proof (Utf8.rune_width_bounds _ Hne) as Hw.
    assert (length (drop i head) ≤ length p0 + length p - i) as Hl.
    { unfold head. rewrite length_drop, length_app, length_take. lia. }
    assert (∀ t, length (Utf8.runes (drop i (p0 ++ p) ++ t)) =
      S (length (Utf8.runes (drop (i + Utf8.rune_width (drop i head)) (p0 ++ p) ++ t)))) as Hstep.
    { intros t. rewrite Hsplit, <-app_assoc, Utf8.runes_full_step by done.
      simpl length. do 2 f_equal.
      rewrite <-(drop_drop (p0 ++ p)), Hsplit, (drop_app_le (drop i head)) by lia.
      by rewrite app_assoc. }
    specialize (IH (i + Utf8.rune_width (drop i head)) (S n) ltac:(lia) ltac:(lia)).
    cbv zeta in IH. fold head in IH.
    destruct (head_loop fuel head _ _ _) as [[rest n']|[n' j]];
      destruct IH as [H1 H2]; (split; [done|]); intros t; rewrite Hstep, <-H2; lia.
  - split; [done|]. intros t. do 2 f_equal. rewrite Hsplit.
    assert (length p ≤ UTFMax) as Hp.
    { destruct (Utf8.not_full_shape _ Hfull Hne) as [Hl _]. unfold head in Hl.
      rewrite length_drop, length_app, length_take in Hl. unfold UTFMax in *. lia. }
    rewrite Nat.min_l by done. by rewrite drop_all, app_nil_r.
Qed.

(** A cut-off rune at the end is found by the tail loop. *)
Lemma tail_loop_spec n k p :
  n + k = S (length p `min` 3) → 0 < k →
  Forall (λ c, Utf8.RuneStart c = false) (drop (length p - (k - 1)) p) →
  let '(q, rest) := tail_loop n k p in
  p = q ++ rest ∧
  (rest = [] ∧ Utf8.all_full p ∨
   ∃ c r, rest = c :: r ∧ Utf8.RuneStart c = true ∧ Utf8.FullRune rest = false).
Proof.
  intros Hn Hk Hcont.
  assert (∀ q, q ≠ [] → (∃ m, concat (drop m (Utf8.runes p)) = q) → Utf8.FullRune q = false →
    ∃ j, 0 < j ≤ length p `min` 3 ∧ q = drop (length p - j) p ∧
    ∃ c r, q = c :: r ∧ Utf8.RuneStart c = true ∧ Forall (λ x, Utf8.RuneStart x = false) r)
    as Hshape.
  { intros q Hq [m Hm] Hf. destruct (Utf8.not_full_shape q Hf Hq) as (Hl & c & r & Hq' & Hc & Hr).
    assert (p = concat (take m (Utf8.runes p)) ++ q) as Hp.
    { rewrite <-Hm, <-concat_app, take_drop. symmetry. apply Utf8.runes_concat. }
    exists (length q). assert (0 < length q) by (destruct q; simpl; [done|lia]).
    assert (length p = length (concat (take m (Utf8.runes p))) + length q) as Hlp
      by (rewrite Hp at 1; by rewrite length_app).
    split; [lia|]. split; [|by eauto].
    rewrite Hp at 2. rewrite Hlp, Nat.add_sub. by rewrite drop_app_length. }
  revert k Hn Hk Hcont. induction n as [|n IH]; intros k Hn Hk Hcont; simpl.
  - split; [by rewrite app_nil_r|]. left. split; [done|]. intros q Hq Hm.
    destruct (Utf8.FullRune q) eqn:Hf; [done|]. exfalso.
    destruct (Hshape q Hq Hm Hf) as (j & Hj & -> & c & r & E & Hc & _).
    assert (c ∈ drop (length p - (k - 1)) p) as Hin.
    { replace (drop (length p - (k - 1)) p)
        with (drop (length p - (k - 1)) p) by done.
      replace (length p - j) with (length p - (k - 1) + (k - 1 - j)) in E by lia.
      rewrite <-drop_drop in E. rewrite <-(take_drop (k - 1 - j) (drop _ p)), E. set_solver. }
    rewrite Forall_forall in Hcont. specialize (Hcont c Hin). congruence.
  - destruct (drop (length p - k) p) as [|c tl] eqn:Etl.
    { apply (f_equal length) in Etl. rewrite length_drop in Etl. simpl in Etl. lia. }
    destruct (Utf8.RuneStart c) eqn:Hc.
    + destruct (Utf8.FullRune (c :: tl)) eqn:Hfull; simpl.
      * split; [by rewrite app_nil_r|]. left. split; [done|]. intros q Hq Hm.
        destruct (Utf8.FullRune q) eqn:Hf; [done|]. exfalso.
        destruct (Hshape q Hq Hm Hf) as (j & Hj & -> & c' & r & E & Hc' & Hr).
        destruct (decide (j = k)) as [->|Hne]; [congruence|].
        destruct (decide (j < k)) as [Hlt|Hge].
        -- assert (c' ∈ drop (length p - (k - 1)) p) as Hin.
           { replace (length p - j) with (length p - (k - 1) + (k - 1 - j)) in E by lia.
             rewrite <-drop_drop in E. rewrite <-(take_drop (k - 1 - j) (drop _ p)), E. set_solver. }
           rewrite Forall_forall in Hcont. specialize (Hcont c' Hin). congruence.
        -- assert (c ∈ r) as Hin.
           { replace (length p - k) with (length p - j + (j - k)) in Etl by lia.
             rewrite <-drop_drop, E in Etl. destruct (j - k) as [|d] eqn:Ed; [lia|].
             simpl in Etl. rewrite <-(take_drop d r), Etl. set_solver. }
           rewrite Forall_forall in Hr. specialize (Hr c Hin). congruence.
      * split; [by rewrite <-Etl, take_drop|]. right. eauto.
    + apply IH; [lia|lia|]. replace (S k - 1) with k by lia. rewrite Etl.
      constructor; [done|]. replace (length p - (k - 1)) with (length p - k + 1) in Hcont by lia.
      by rewrite <-drop_drop, Etl in Hcont.
Qed.

Lemma tail_loop_runes p t :
  let '(q, rest) := tail_loop (length p `min` (UTFMax - 1)) 1 p in
  (rest = [] ∨ Utf8.FullRune rest = false) ∧
  length (Utf8.runes (p ++ t)) = Utf8.RuneCount q + length (Utf8.runes (rest ++ t)).
Proof.
  pose proof (tail_loop_spec (length p `min` 3) 1 p ltac:(lia) ltac:(lia)) as H.
  rewrite Nat.sub_diag, Nat.sub_0_r, drop_all in H. specialize (H (Forall_nil_2 _)).
  change (UTFMax - 1) with 3. destruct (tail_loop _ 1 p) as [q rest].
  destruct H as [Hp [[-> Hall]|(c & r & -> & Hc & Hf)]].
  - rewrite app_nil_r in Hp. subst q. split; [by left|].
    by rewrite Utf8.runes_app_full, length_app.
  - split; [by right|]. rewrite Hp, <-app_assoc. simpl.
    by rewrite Utf8.runes_app_start, length_app.
Qed.

Lemma counted_write s c p : counted s c → counted (s ++ p) (Write c p).
Proof.
  intros [Hp Hc]. unfold Write. destruct (last p) as [lc|] eqn:Hl.
  2: { apply last_None in Hl as ->. rewrite app_nil_r. by split. }
  assert (length (partial c) ≤ 3) as H3.
  { destruct Hp as [->|Hf]; [simpl; lia|].
    destruct (decide (partial c = [])) as [->|Hne]; [simpl; lia|].
    by apply Utf8.not_full_shape. }
  pose proof (head_loop_spec (S (length (partial c))) (partial c) p 0 (chars c)
    ltac:(lia) H3 ltac:(lia)) as Hh. cbv zeta in Hh.
  assert (∀ t, length (Utf8.runes ((s ++ p) ++ t)) =
    chars c + length (Utf8.runes (drop 0 (partial c ++ p) ++ t))) as Hc'.
  { intros t. rewrite drop_0, <-!app_assoc. apply Hc. }
  destruct (head_loop _ _ _ _ _) as [[rest n]|[n i]]; destruct Hh as [Hh1 Hh2].
  - split; simpl; [by right|]. intros t. by rewrite Hc', Hh2.
  - pose proof (tail_loop_runes (drop (i - length (partial c)) p)) as Ht.
    destruct (tail_loop _ 1 _) as [q rest].
    split; simpl; [by apply (Ht [])|]. intros t.
    rewrite Hc', Hh2, drop_app_ge by done. destruct (Ht t) as [_ ->]. lia.
Qed.

Lemma counted_all ps : counted (concat ps) (write_all ps).
Proof.
  induction ps as [|p ps IH] using rev_ind; [apply counted_zero|].
  unfold write_all. rewrite foldl_app, concat_app. simpl. rewrite app_nil_r.
  by apply counted_write.
Qed.

Lemma counted_Chars s c : counted s c → Chars c = Utf8.RuneCount s.
Proof. intros [_ H]. specialize (H []). rewrite !app_nil_r in H. symmetry. apply H. Qed.

(** however the text is cut into pieces, the counter ends with the
    number of runes of the whole text, invalid bytes counting one each. *)
Theorem Chars_stream ps : Chars (write_all ps) = Utf8.RuneCount (concat ps).
Proof. apply counted_Chars, counted_all. Qed.

(** The lines of a text: its pieces between newlines, an empty last piece
    not counted. *)
Definition line_count (s : bytes) : nat :=
  let ws := Split s newline in
  if bool_decide (last ws = Some []) then length ws - 1 else length ws.

Lemma Split_length s : length (Split s newline) = S (count_newlines s).
Proof.
  induction s as [|c s IH]; [done|]. simpl. unfold count_newlines in *.
  rewrite filter_cons. repeat case_decide; simpl; [lia|].
  destruct (Split s newline) eqn:E; simpl in *; [done|lia].
Qed.

Lemma Split_last_nil s :
  last (Split s newline) = Some [] ↔ s = [] ∨ last s = Some newline.
Proof.
  induction s as [|c s IH]; [naive_solver|]. simpl Split.
  pose proof (Split_nonempty s newline) as Hne. rewrite last_cons.
  destruct (decide (c = newline)) as [->|Hc].
  - rewrite last_cons. destruct (last (Split s newline)) eqn:E.
    + rewrite IH. destruct (last s) eqn:El; [|apply last_None in El as ->]; naive_solver.
    + by apply last_None in E.
  - destruct (Split s newline) as [|w [|w' ws]] eqn:E; [done| |].
    + assert (s = w) as -> by (by rewrite <-(Join_Split s newline), E).
      simpl in *. split; [done|]. destruct (last w) eqn:El; [|naive_solver].
      intros [?|?]; [done|]. assert (Some w = Some []) as Hw by (apply IH; auto).
      simplify_eq.
    + rewrite last_cons_cons in *. change (last ((c :: w) :: w' :: ws)) with (last (w' :: ws)).
      rewrite IH. destruct (last s) eqn:El; [naive_solver|]. apply last_None in El as ->. done.
Qed.

Lemma count_newlines_app s p : count_newlines (s ++ p) = count_newlines s + count_newlines p.
Proof. unfold count_newlines. by rewrite filter_app, length_app. Qed.

(** What the counter knows of the lines of the text fed so far. *)
Lemma lines_write s c p :
  lines c = count_newlines s ∧ lineOpen c = negb (bool_decide (s = [] ∨ last s = Some newline)) →
  lines (Write c p) = count_newlines (s ++ p) ∧
  lineOpen (Write c p) = negb (bool_decide (s ++ p = [] ∨ last (s ++ p) = Some newline)).
Proof.
  intros [Hn Ho]. unfold Write. destruct (last p) as [lc|] eqn:Hl.
  - assert (s ++ p ≠ [] ∧ last (s ++ p) = Some lc) as [Hne Hlast].
    { rewrite last_app, Hl. split; [|done]. intros [_ ->]%app_nil. done. }
    assert (bool_decide (lc = newline) =
      bool_decide (s ++ p = [] ∨ last (s ++ p) = Some newline)) as E.
    { apply bool_decide_ext. rewrite Hlast. naive_solver. }
    rewrite count_newlines_app, <-E, <-Hn. by repeat case_match.
  - apply last_None in Hl as ->. by rewrite app_nil_r.
Qed.

Lemma lines_all ps :
  lines (write_all ps) = count_newlines (concat ps) ∧
  lineOpen (write_all ps) =
    negb (bool_decide (concat ps = [] ∨ last (concat ps) = Some newline)).
Proof.
  induction ps as [|p ps IH] using rev_ind; [done|].
  unfold write_all. rewrite foldl_app, concat_app. simpl. rewrite app_nil_r.
  by apply lines_write.
Qed.

Lemma Lines_count s c :
  lines c = count_newlines s →
  lineOpen c = negb (bool_decide (s = [] ∨ last s = Some newline)) →
  Lines c = line_count s.
Proof.
  intros Hn Ho. unfold Lines, line_count. rewrite Ho, Hn, Split_length.
  rewrite (bool_decide_ext _ _ (Split_last_nil s)). case_bool_decide; simpl; lia.
Qed.

(** however the text is cut into pieces, the counter ends with the
    number of its lines, an unterminated last line included. *)
Theorem Lines_stream ps : Lines (write_all ps) = line_count (concat ps).
Proof. destruct (lines_all ps). by apply Lines_count. Qed.

End TextCounter.
