(* ===== verification/Float64.v ===== *)
(** * IEEE 754 binary64, as Go's [float64]

    The operations are those of the Standard Library's [SpecFloat] at
    precision 53 and maximal exponent 1024, rounding to nearest even, so
    they compute and rest on no axiom. *)

From S2P Require Import Prelude.
From Stdlib Require Import Floats.SpecFloat.

Module F64.
Open Scope Z_scope.

Definition float64 : Type := spec_float.
Definition prec : Z := 53.
Definition emax : Z := 1024.

(** [float64(z)] of an integer. *)
Definition of_int (z : Z) : float64 := binary_normalize prec emax z 0 false.
Definition zero : float64 := S754_zero false.
Definition one : float64 := of_int 1.

Definition add (x y : float64) : float64 := SFadd prec emax x y.
Definition sub (x y : float64) : float64 := SFsub prec emax x y.
Definition mul (x y : float64) : float64 := SFmul prec emax x y.
Definition div (x y : float64) : float64 := SFdiv prec emax x y.
Definition ltb (x y : float64) : bool := SFltb x y.
Definition leb (x y : float64) : bool := SFleb x y.
Definition eqb (x y : float64) : bool := SFeqb x y.
Definition is_nan (x : float64) : bool :=
  match x with S754_nan => true | _ => false end.
Definition is_inf (x : float64) : bool :=
  match x with S754_infinity _ => true | _ => false end.

(** Go's built-in [min] and [max]: NaN if either argument is, and a negative
    zero sorts before a positive one. *)
Definition fmin (x y : float64) : float64 :=
  match x, y with
  | S754_nan, _ | _, S754_nan => S754_nan
  | S754_zero s, S754_zero t => S754_zero (s || t)
  | _, _ => if ltb y x then y else x
  end.
Definition fmax (x y : float64) : float64 :=
  match x, y with
  | S754_nan, _ | _, S754_nan => S754_nan
  | S754_zero s, S754_zero t => S754_zero (s && t)
  | _, _ => if ltb x y then y else x
  end.

(** The integer value of a finite float when it has one, by truncation. *)
Definition trunc (x : float64) : option Z :=
  match x with
  | S754_zero _ => Some 0
  | S754_finite s m e =>
      let a := if 0 <=? e then Z.shiftl (Zpos m) e else Z.shiftr (Zpos m) (- e) in
      Some (if s then - a else a)
  | _ => None
  end.

(** [math.Round], half away from zero, of a finite float: its integer. *)
Definition round (x : float64) : option Z :=
  match x with
  | S754_zero _ => Some 0
  | S754_finite s m e =>
      let a := if 0 <=? e then Z.shiftl (Zpos m) e
               else Z.shiftr (Zpos m + Z.shiftl 1 (- e - 1)) (- e) in
      Some (if s then - a else a)
  | _ => None
  end.

(** ** Integers are represented exactly

    Up to [2^53] a conversion from an integer loses nothing, and its value is
    read back by truncation. *)
Lemma digits2_bounds p : 2 ^ (Zpos (digits2_pos p) - 1) ≤ Zpos p < 2 ^ Zpos (digits2_pos p).
Proof.
  induction p as [p IH|p IH|]; cbn [digits2_pos]; [| |done].
  all: rewrite Pos2Z.inj_succ; replace (Z.succ (Zpos (digits2_pos p)) - 1)
    with (Z.succ (Zpos (digits2_pos p) - 1)) by lia; rewrite !Z.pow_succ_r by lia; lia.
Qed.

Lemma digits2_shift p d : digits2_pos (Pos.iter xO p d) = (digits2_pos p + d)%positive.
Proof.
  induction d as [|d IH] using Pos.peano_ind; [simpl; lia|].
  rewrite Pos.iter_succ. cbn [digits2_pos]. rewrite IH. lia.
Qed.
Lemma value_shift p d : Zpos (Pos.iter xO p d) = Z.shiftl (Zpos p) (Zpos d).
Proof.
  rewrite Z.shiftl_mul_pow2 by lia. induction d as [|d IH] using Pos.peano_ind; [simpl; lia|].
  rewrite Pos.iter_succ, Pos2Z.inj_xO, IH, Pos2Z.inj_succ, Z.pow_succ_r by lia. lia.
Qed.

(** A mantissa of 53 bits is not rounded. *)
Lemma round_exact (s : bool) m e : digits2_pos m = 53%positive → -1074 ≤ e ≤ 971 →
  binary_round_aux prec emax s (Zpos m) e loc_Exact = S754_finite s m e.
Proof.
  intros Hm He. assert (fexp prec emax (53 + e) - e = 0) as Hf
    by (unfold fexp, emin, prec, emax; lia).
  unfold binary_round_aux, shr_fexp. cbn [Zdigits2]. rewrite Hm, Hf.
  cbn [shr shr_record_of_loc shr_m loc_of_shr_record round_nearest_even Zdigits2].
  rewrite Hm, Hf. cbn [shr shr_record_of_loc shr_m].
  destruct (Z.leb_spec e (emax - prec)); [done|]. unfold emax, prec in *. lia.
Qed.

Definition scale (p : positive) : Z := Zpos (digits2_pos p) - 53.
Definition mantissa (p : positive) : positive :=
  match scale p with Zneg d => Pos.iter xO p d | _ => p end.

Lemma digits_small p : Zpos p < 2 ^ 53 → Zpos (digits2_pos p) ≤ 53.
Proof.
  intros Hp. destruct (digits2_bounds p) as [Hlo _].
  destruct (Z.le_gt_cases (Zpos (digits2_pos p)) 53) as [|Hd]; [done|].
  assert (2 ^ 53 ≤ 2 ^ (Zpos (digits2_pos p) - 1)) by (apply Z.pow_le_mono_r; lia). lia.
Qed.

Lemma of_int_finite (p : positive) : Zpos p < 2 ^ 53 →
  of_int (Zpos p) = S754_finite false (mantissa p) (scale p) ∧
  digits2_pos (mantissa p) = 53%positive ∧ scale p ≤ 0 ∧
  Zpos (mantissa p) = Z.shiftl (Zpos p) (- scale p).
Proof.
  intros Hp%digits_small. assert (-53 < scale p ≤ 0) as Hs by (unfold scale; lia).
  assert (digits2_pos (mantissa p) = 53%positive ∧ Zpos (mantissa p) = Z.shiftl (Zpos p) (- scale p)) as [Hd Hv].
  { unfold mantissa. destruct (scale p) as [|d|d] eqn:E; [|lia|].
    - split; [|by rewrite Z.shiftl_0_r]. unfold scale in E. lia.
    - rewrite digits2_shift. split; [|by rewrite value_shift]. unfold scale in E. lia. }
  split; [|split; [done|split; [lia|done]]]. unfold of_int, binary_normalize, binary_round.
  assert (fexp prec emax (Zpos (digits2_pos p) + 0) = scale p) as ->
    by (unfold fexp, emin, prec, emax, scale in *; lia).
  assert (shl_align p 0 (scale p) = (mantissa p, scale p)) as ->.
  { unfold shl_align, mantissa. rewrite Z.sub_0_r. destruct (scale p) eqn:E; [done|lia|done]. }
  apply round_exact; [done|lia].
Qed.

Lemma trunc_of_int z : 0 ≤ z < 2 ^ 53 → trunc (of_int z) = Some z.
Proof.
  intros Hz. destruct z as [|p|]; [done| |lia].
  destruct (of_int_finite p) as (-> & _ & Hs & Hv); [lia|]. unfold trunc.
  rewrite Hv. destruct (0 <=? scale p) eqn:El; f_equal.
  - apply Z.leb_le in El. assert (scale p = 0) as -> by lia. simpl. by rewrite !Z.shiftl_0_r.
  - rewrite Z.shiftr_shiftl_l by lia. by rewrite Z.sub_diag.
Qed.

(** Comparisons of such floats are those of the integers. *)
Lemma compare_scaled p q : Zpos p < 2 ^ 53 → Zpos q < 2 ^ 53 → scale p < scale q → Zpos p < Zpos q.
Proof.
  unfold scale. intros Hp Hq Hs. destruct (digits2_bounds p) as [_ Hp2], (digits2_bounds q) as [Hq1 _].
  assert (2 ^ Zpos (digits2_pos p) ≤ 2 ^ (Zpos (digits2_pos q) - 1)) by (apply Z.pow_le_mono_r; lia). lia.
Qed.

Lemma ltb_of_int x y : 0 ≤ x < 2 ^ 53 → 0 ≤ y < 2 ^ 53 → ltb (of_int x) (of_int y) = (x <? y).
Proof.
  intros Hx Hy. destruct x as [|p|]; [| |lia].
  - destruct y as [|q|]; [done| |lia]. destruct (of_int_finite q) as (-> & _); [lia|]. done.
  - destruct y as [|q|]; [| |lia].
    { destruct (of_int_finite p) as (-> & _); [lia|]. done. }
    destruct (of_int_finite p) as (-> & _ & _ & Hp); [lia|].
    destruct (of_int_finite q) as (-> & _ & _ & Hq); [lia|].
    unfold ltb, SFltb, SFcompare. destruct (Z.compare_spec (scale p) (scale q)) as [E|E|E].
    + assert (Pos.compare_cont Eq (mantissa p) (mantissa q) = Z.compare (Zpos p) (Zpos q)) as ->; [|done].
      change (Z.compare (Zpos (mantissa p)) (Zpos (mantissa q)) = Z.compare (Zpos p) (Zpos q)).
      rewrite Hp, Hq, E. rewrite !Z.shiftl_mul_pow2 by (unfold scale in *; pose proof (digits_small q); lia).
      rewrite !(Z.mul_comm _ (2 ^ _)). symmetry. apply Zmult_compare_compat_l.
      apply Z.lt_gt, Z.pow_pos_nonneg; [lia|]. unfold scale in *. pose proof (digits_small q). lia.
    + symmetry. apply Z.ltb_lt. apply compare_scaled; lia.
    + symmetry. apply Z.ltb_ge. pose proof (compare_scaled q p). lia.
Qed.

Lemma eqb_refl x : is_nan x = false → eqb x x = true.
Proof.
  destruct x as [[]|[]| |[] m e]; try done; intros _; unfold eqb, SFeqb, SFcompare;
    rewrite Z.compare_refl; change (Pos.compare_cont Eq m m) with (Pos.compare m m);
    by rewrite Pos.compare_refl.
Qed.
Lemma of_int_not_nan z : 0 ≤ z < 2 ^ 53 → is_nan (of_int z) = false.
Proof. intros Hz. destruct z as [|p|]; [done| |lia]. by destruct (of_int_finite p) as (-> & _); [lia|]. Qed.

Lemma shr_exponent mrs e n : e ≤ (shr mrs e n).2.
Proof. destruct n; simpl; lia. Qed.

(** From [2^53] on the float of an integer has a positive exponent. *)
Lemma of_int_big p s m e : 2 ^ 53 ≤ Zpos p → of_int (Zpos p) = S754_finite s m e → 1 ≤ e.
Proof.
  intros Hp. unfold of_int, binary_normalize, binary_round.
  assert (54 ≤ Zpos (digits2_pos p)) as Hd.
  { destruct (digits2_bounds p) as [_ Hhi]. destruct (Z.le_gt_cases 54 (Zpos (digits2_pos p))); [done|].
    assert (2 ^ Zpos (digits2_pos p) ≤ 2 ^ 53) by (apply Z.pow_le_mono_r; lia). lia. }
  set (n := fexp prec emax (Zpos (digits2_pos p) + 0)).
  assert (1 ≤ n) as Hn by (unfold n, fexp, emin, prec, emax; lia).
  assert (shl_align p 0 n = (p, 0)) as -> by (unfold shl_align; rewrite Z.sub_0_r; by destruct n).
  unfold binary_round_aux, shr_fexp. cbn [Zdigits2]. fold n. rewrite Z.sub_0_r.
  destruct n as [|d|d]; [lia| |lia]. cbn [shr]. rewrite Z.add_0_l.
  match goal with |- context [shr ?a ?b ?c] => pose proof (shr_exponent a b c) as He; destruct (shr a b c) as [mrs2 e2] end.
  simpl in He. destruct (shr_m mrs2); try done. destruct (_ <=? _); [|done]. intros [= <- <- <-]. lia.
Qed.

Lemma finite_eqb s m e s' m' e' : eqb (S754_finite s m e) (S754_finite s' m' e') = true →
  s = s' ∧ m = m' ∧ e = e'.
Proof.
  unfold eqb, SFeqb, SFcompare.
  destruct s, s'; try done; destruct (Z.compare_spec e e') as [->| |]; try done;
    change (Pos.compare_cont Eq m m') with (Pos.compare m m');
    destruct (Pos.compare_spec m m') as [->| |]; done.
Qed.

(** A float that is an integer by the float's own comparisons, not negative
    and not above the float of [b], is one from zero to [b]. *)
Lemma trunc_bound b v z : 0 ≤ b < 2 ^ 53 →
  ltb v zero = false → ltb (of_int b) v = false → trunc v = Some z → eqb v (of_int z) = true →
  0 ≤ z ≤ b.
Proof.
  intros Hb. destruct v as [s|s| |s m e]; try done; [intros _ _ [= <-] _; lia|].
  intros Hneg Hmax Ht Heq. destruct s; [done|].
  assert (e ≤ 0) as He.
  { destruct b as [|p|]; [done| |lia]. destruct (of_int_finite p) as (Ep & _ & Hs & _); [lia|].
    rewrite Ep in Hmax. unfold ltb, SFltb, SFcompare in Hmax.
    destruct (Z.compare_spec (scale p) e); try done; lia. }
  injection Ht as Hz. assert (0 ≤ z) as Hz0.
  { rewrite <-Hz. destruct (0 <=? e); [apply Z.shiftl_nonneg; lia|apply Z.shiftr_nonneg; lia]. }
  split; [done|]. destruct z as [|q|]; [lia| |lia].
  destruct (Z.le_gt_cases (2 ^ 53) (Zpos q)) as [Hbig|Hsmall].
  - destruct (of_int (Zpos q)) as [[]|[]| |s' m' e'] eqn:Eq; try done.
    apply finite_eqb in Heq as (<- & <- & <-). apply of_int_big in Eq; lia.
  - destruct (of_int_finite q) as (Eq & _); [done|]. rewrite Eq in Heq.
    apply finite_eqb in Heq as (_ & -> & ->). rewrite <-Eq, ltb_of_int in Hmax by lia.
    apply Z.ltb_ge in Hmax. lia.
Qed.

(** Go's [min] of two such floats. *)
Lemma fmin_of_int x y : 0 ≤ x < 2 ^ 53 → 0 ≤ y < 2 ^ 53 → fmin (of_int x) (of_int y) = of_int (Z.min x y).
Proof.
  intros Hx Hy. destruct (decide (x = 0 ∧ y = 0)) as [[-> ->]|Hn]; [done|].
  assert (fmin (of_int x) (of_int y) = if ltb (of_int y) (of_int x) then of_int y else of_int x) as ->.
  { destruct x as [|p|], y as [|q|]; try lia.
    - by destruct (of_int_finite q) as (-> & _); [lia|].
    - by destruct (of_int_finite p) as (-> & _); [lia|].
    - destruct (of_int_finite p) as (-> & _); [lia|]. by destruct (of_int_finite q) as (-> & _); [lia|]. }
  rewrite ltb_of_int by done. destruct (Z.ltb_spec y x); f_equal; lia.
Qed.

Lemma fmin_int x b : is_nan x = false → 0 < b < 2 ^ 53 →
  fmin x (of_int b) = if ltb (of_int b) x then of_int b else x.
Proof.
  intros Hx Hb. destruct b as [|p|]; [lia| |lia]. destruct (of_int_finite p) as (-> & _); [lia|].
  by destruct x.
Qed.
Lemma of_int_positive b : 0 < b < 2 ^ 53 → leb (of_int b) zero = false.
Proof. intros Hb. destruct b as [|p|]; [lia| |lia]. by destruct (of_int_finite p) as (-> & _); [lia|]. Qed.

Lemma round_nonneg f : leb f zero = false → 0 ≤ default 0 (round f).
Proof.
  destruct f as [[]|[]| |[] m e]; try done; intros _; cbn [round default]; [lia..|].
  destruct (0 <=? e); [apply Z.shiftl_nonneg; lia|]. apply Z.shiftr_nonneg.
  assert (0 ≤ Z.shiftl 1 (- e - 1)) by (apply Z.shiftl_nonneg; lia). lia.
Qed.
(** Integers round to themselves. *)
Lemma round_of_int z : 0 ≤ z < 2 ^ 53 → round (of_int z) = Some z.
Proof.
  intros Hz. destruct z as [|p|]; [done| |lia].
  destruct (of_int_finite p) as (-> & _ & Hs & Hv); [lia|]. cbn [round]. rewrite Hv.
  destruct (Z.leb_spec 0 (scale p)).
  - assert (scale p = 0) as -> by lia. by rewrite !Z.shiftl_0_r.
  - f_equal. rewrite Z.shiftr_div_pow2, !Z.shiftl_mul_pow2 by lia. rewrite Z.mul_1_l.
    rewrite Z.div_add_l by (apply Z.pow_nonzero; lia).
    rewrite Z.div_small; [lia|]. split; [apply Z.pow_nonneg; lia|]. apply Z.pow_lt_mono_r; lia.
Qed.

End F64.
