(* ===== verification/Json.v ===== *)
(** * JSON documents

    The program reads and writes JSON files through [encoding/json/v2]. A
    document is modelled by its tree, numbers by their kind of literal:
    [JInt] for an integer literal, [JNum] for any other, as its float64. The
    decoders follow the rules of the package: [null] gives the zero value, a
    missing member too, an unknown member is ignored, a member of another
    kind is an error, and so is a repeated member name anywhere. *)

From S2P Require Import Prelude Utf8 Strings Float64.

Inductive json : Type :=
  | JNull
  | JBool (b : bool)
  | JInt (z : Z)
  | JNum (f : F64.float64)
  | JStr (s : bytes)
  | JArr (l : list json)
  | JObj (l : list (bytes * json)).

Module Json.

(** No object of the tree repeats a member name. *)
Fixpoint unique_names (j : json) : bool :=
  match j with
  | JArr l => forallb unique_names l
  | JObj l => bool_decide (NoDup l.*1) && forallb (λ m, unique_names m.2) l
  | _ => true
  end.

Fixpoint find_member (k : bytes) (l : list (bytes * json)) : option json :=
  match l with
  | [] => None
  | (k', v) :: l => if decide (k' = k) then Some v else find_member k l
  end.
Definition member (k : bytes) (l : list (bytes * json)) : json :=
  default JNull (find_member k l).

(** [json.Unmarshal] into an object type: the members, or an error. *)
Definition dec_object (j : json) : option (list (bytes * json)) :=
  match j with
  | JNull => Some []
  | JObj l => Some l
  | _ => None
  end.

Definition dec_string (j : json) : option bytes :=
  match j with JNull => Some [] | JStr s => Some s | _ => None end.
Definition dec_bool (j : json) : option bool :=
  match j with JNull => Some false | JBool b => Some b | _ => None end.
Definition dec_int (j : json) : option Z :=
  match j with
  | JNull => Some 0%Z
  | JInt z => if decide (- 2 ^ 63 ≤ z ≤ MaxInt)%Z then Some z else None
  | _ => None
  end.
Definition dec_float (j : json) : option F64.float64 :=
  match j with
  | JNull => Some F64.zero
  | JInt z => if F64.is_inf (F64.of_int z) then None else Some (F64.of_int z)
  | JNum f => Some f
  | _ => None
  end.
Lemma dec_float_int z : (0 ≤ z < 2 ^ 53)%Z → dec_float (JInt z) = Some (F64.of_int z).
Proof.
  intros Hz. unfold dec_float. destruct z as [|p|]; [done| |lia].
  by destruct (F64.of_int_finite p) as (-> & _); [lia|].
Qed.
Definition dec_list {A} (f : json → option A) (j : json) : option (list A) :=
  match j with JNull => Some [] | JArr l => mapM f l | _ => None end.
Definition dec_map {A} (f : json → option A) (j : json) : option (gmap bytes A) :=
  match j with
  | JNull => Some ∅
  | JObj l => list_to_map <$> mapM (λ m, pair m.1 <$> f m.2) l
  | _ => None
  end.

(** The members a struct is written with: name, whether the member is written
    ([omitempty] and [omitzero] leave it out), value. *)
Abbreviation field := (string * bool * json)%type.
Definition fields_of (fs : list field) : list (bytes * json) :=
  omap (λ '(k, c, v), if (c : bool) then Some (to_bytes k, v) else None) fs.
Definition written (fs : list field) : json := JObj (fields_of fs).

Fixpoint find_field (k : string) (fs : list field) : option json :=
  match fs with
  | [] => None
  | (k', c, v) :: fs =>
      if Stdlib.Strings.String.eqb k' k then (if (c : bool) then Some v else None)
      else find_field k fs
  end.
Fixpoint names_distinct (names : list string) : bool :=
  match names with
  | [] => true
  | k :: names => negb (existsb (Stdlib.Strings.String.eqb k) names) && names_distinct names
  end.

Definition enc_strings (l : list bytes) : json := JArr (JStr <$> l).

(** A [map[string]string], members in the order of their names
    ([json.Deterministic]). *)
Definition enc_string_map (m : gmap bytes bytes) : json :=
  JObj ((λ k, (k, JStr (default [] (m !! k)))) <$> sort_strings (elements (dom m))).

(** ** Looking up the members of a written document *)
Lemma find_member_not_in k fs :
  existsb (Stdlib.Strings.String.eqb k) (fs.*1.*1) = false →
  find_member (to_bytes k) (fields_of fs) = None ∧ to_bytes k ∉ (fields_of fs).*1.
Proof.
  induction fs as [|[[k' c] v] fs IH]; simpl; [split; [done|set_solver]|].
  intros [Hk Hfs]%orb_false_iff. destruct (IH Hfs) as [IH1 IH2].
  apply Stdlib.Strings.String.eqb_neq in Hk. unfold fields_of in *. simpl.
  destruct c; simpl; [|done]. rewrite decide_False by (intros ?%(inj to_bytes); done).
  split; [done|]. rewrite not_elem_of_cons. split; [|done]. by intros ?%(inj to_bytes).
Qed.

Lemma find_member_written k fs :
  names_distinct (fs.*1.*1) = true →
  find_member (to_bytes k) (fields_of fs) = find_field k fs.
Proof.
  induction fs as [|[[k' c] v] fs IH]; [done|]. simpl.
  intros [Hn Hd]%andb_prop. apply negb_true_iff in Hn.
  destruct (Stdlib.Strings.String.eqb_spec k' k) as [->|Hk].
  - unfold fields_of. simpl. destruct c; simpl; [by rewrite decide_True|].
    by apply find_member_not_in.
  - unfold fields_of in *. simpl. destruct c; simpl; [|by apply IH].
    rewrite decide_False by (intros ?%(inj to_bytes); done). by apply IH.
Qed.

Lemma member_written k fs :
  names_distinct (fs.*1.*1) = true →
  member (to_bytes k) (fields_of fs) = default JNull (find_field k fs).
Proof. intros. unfold member. by rewrite find_member_written. Qed.

Lemma unique_written fs :
  names_distinct (fs.*1.*1) = true → Forall (λ f, unique_names f.2 = true) fs →
  unique_names (written fs) = true.
Proof.
  intros Hd Hv. simpl. apply andb_true_intro. split.
  - apply bool_decide_true. clear Hv. induction fs as [|[[k c] v] fs IH]; [constructor|].
    simpl in Hd. apply andb_prop in Hd as [Hn Hd]. apply negb_true_iff in Hn.
    unfold fields_of in *. simpl. destruct c; simpl; [|auto].
    constructor; [|auto]. by apply find_member_not_in.
  - apply forallb_forall. intros m Hm. apply list_elem_of_In in Hm.
    apply list_elem_of_omap in Hm as ([[k c] v] & Hin & E).
    destruct c; simplify_eq. rewrite Forall_forall in Hv. by apply Hv in Hin.
Qed.

Lemma dec_enc_strings l : dec_list dec_string (enc_strings l) = Some l.
Proof.
  unfold dec_list, enc_strings. induction l as [|s l IH]; [done|].
  rewrite fmap_cons. cbn [mapM dec_string]. simpl. by rewrite IH.
Qed.

Lemma mapM_members (f : bytes → bytes) l :
  mapM (λ m : bytes * json, pair m.1 <$> dec_string m.2) ((λ k, (k, JStr (f k))) <$> l) =
  Some ((λ k, (k, f k)) <$> l).
Proof.
  induction l as [|k l IH]; [done|]. rewrite !fmap_cons. cbn [mapM]. simpl. by rewrite IH.
Qed.

Lemma dec_enc_string_map m : dec_map dec_string (enc_string_map m) = Some m.
Proof.
  unfold dec_map, enc_string_map. rewrite mapM_members. simpl. f_equal.
  apply map_eq. intros k. apply option_eq. intros v.
  rewrite <-elem_of_list_to_map; unfold sort_strings.
  - rewrite list_elem_of_fmap. setoid_rewrite merge_sort_Permutation.
    setoid_rewrite elem_of_elements. setoid_rewrite elem_of_dom. split.
    + intros (k' & E & [x Hx]). simplify_eq. by rewrite Hx.
    + intros Hv. exists k. rewrite Hv. split; [done|]. by eexists.
  - rewrite <-list_fmap_compose. simpl. rewrite list_fmap_id.
    rewrite merge_sort_Permutation. apply NoDup_elements.
Qed.

Lemma dec_int_ok z : (- 2 ^ 63 ≤ z ≤ MaxInt)%Z → dec_int (JInt z) = Some z.
Proof. intros. simpl. by rewrite decide_True. Qed.

Lemma unique_enc_strings l : unique_names (enc_strings l) = true.
Proof. simpl. apply forallb_forall. intros j Hj. apply in_map_iff in Hj as (? & <- & _). done. Qed.

Lemma unique_enc_string_map m : unique_names (enc_string_map m) = true.
Proof.
  unfold enc_string_map. simpl. apply andb_true_intro. split.
  - apply bool_decide_true. rewrite <-list_fmap_compose. simpl. rewrite list_fmap_id.
    unfold sort_strings. rewrite merge_sort_Permutation. apply NoDup_elements.
  - apply forallb_forall. intros j Hj. apply in_map_iff in Hj as (? & <- & _). done.
Qed.

(** A member left out when it is the zero value reads back as it. *)
Lemma dec_omitted {A} (dec : json → option A) (z a : A) (c : bool) v :
  dec JNull = Some z → (c = false → a = z) → (c = true → dec v = Some a) →
  dec (default JNull (if c then Some v else None)) = Some a.
Proof. destruct c; simpl; intros Hz Hf Ht; [auto|]. by rewrite Hz, Hf. Qed.

Lemma dec_omitted_string s :
  dec_string (default JNull (if negb (bool_decide (s = [])) then Some (JStr s) else None)) = Some s.
Proof. apply (dec_omitted dec_string []); [done| |done]. by case_bool_decide. Qed.

Lemma dec_omitted_strings l :
  dec_list dec_string
    (default JNull (if negb (bool_decide (l = [])) then Some (enc_strings l) else None)) = Some l.
Proof.
  apply (dec_omitted (dec_list dec_string) []); [done| |intros; apply dec_enc_strings].
  by case_bool_decide.
Qed.

Lemma dec_omitted_string_map m :
  dec_map dec_string
    (default JNull (if negb (bool_decide (m = ∅)) then Some (enc_string_map m) else None)) = Some m.
Proof.
  apply (dec_omitted (dec_map dec_string) ∅); [done| |intros; apply dec_enc_string_map].
  by case_bool_decide.
Qed.

Lemma dec_omitted_bool (b : bool) :
  dec_bool (default JNull (if b then Some (JBool b) else None)) = Some b.
Proof. by destruct b. Qed.

(** [fields] evaluates the lookups of literal names in a written document. *)
Ltac fields :=
  rewrite ?find_member_written, ?member_written by reflexivity.
Ltac eval_fields :=
  cbn [find_field Stdlib.Strings.String.eqb Stdlib.Strings.Ascii.eqb Bool.eqb default].

End Json.

(** ** Timestamps

    A Go [time.Time] is modelled by its nanoseconds since 1970. The texts of
    package [time] (RFC 3339, the date, the compact stamp of directory names)
    are abstract; [parse_format] is what the program relies on: a time written
    with RFC 3339 reads back to its whole second. *)
Definition second : Z := 1000000000.
Definition zero_time : Z := (- 62135596800 * second)%Z.
Definition whole_second (t : Z) : Z := (t - t mod second)%Z.

Class TimeText := {
  format_rfc3339 : Z → bytes;
  parse_rfc3339 : bytes → option Z;
  (** the midnight, in UTC, of the date a timestamp shows in its own offset *)
  parse_rfc3339_date : bytes → option Z;
  format_date : Z → bytes;
  parse_date : bytes → option Z;
  format_stamp : Z → bytes;
}.

Class TimeTextLaws `{TimeText} : Prop := {
  parse_format t : parse_rfc3339 (format_rfc3339 t) = Some (whole_second t);
  parse_format_date t : parse_date (format_date t) = Some (t - t mod (86400 * second))%Z;
  format_stamp_segment t :
    format_stamp t ≠ [] ∧ Forall (λ c, c ≠ "/"%char ∧ c ≠ "."%char) (format_stamp t);
}.

Module JSONTime.
Section codec.
Context `{TimeText}.

(** [func (t JSONTime) IsZero() bool] *)
Definition IsZero (t : Z) : bool := (t =? zero_time)%Z.

(** [func (t JSONTime) MarshalJSON() ([]byte, error)] and its inverse; [null]
    is passed to [UnmarshalJSON] as it stands and is no timestamp. *)
Definition MarshalJSON (t : Z) : json := JStr (format_rfc3339 t).
Definition UnmarshalJSON (j : json) : option Z :=
  match j with JStr s => parse_rfc3339 s | _ => None end.

(** A member of type [JSONTime]: absent it keeps the zero time. *)
Definition dec_member (k : bytes) (l : list (bytes * json)) : option Z :=
  match Json.find_member k l with Some j => UnmarshalJSON j | None => Some zero_time end.
Definition read_back (o : option json) : option Z :=
  match o with Some j => UnmarshalJSON j | None => Some zero_time end.
End codec.

Lemma time_read_back_omitted `{TimeTextLaws} t :
  whole_second t = t →
  read_back (if negb (IsZero t) then Some (MarshalJSON t) else None) = Some t.
Proof.
  intros Ht. unfold IsZero. destruct (Z.eqb_spec t zero_time) as [->|]; [done|].
  simpl. by rewrite parse_format, Ht.
Qed.
Lemma time_dec_member_read_back `{TimeText} (k : bytes) (l : list (bytes * json)) :
   dec_member k l = read_back (Json.find_member k l).
Proof. done. Qed.
End JSONTime.

Module JSONDate.
Section codec.
Context `{TimeText}.

(** [func (d JSONDate) IsZero() bool] *)
Definition IsZero (t : Z) : bool := (t =? zero_time)%Z.
Definition MarshalJSON (t : Z) : json := JStr (format_date t).

(** [func (d *JSONDate) UnmarshalJSON]: a date, or a legacy timestamp of which
    the date is kept. [strings.Trim] takes the quotes off a string; any other
    literal has no date syntax. *)
Definition UnmarshalJSON (j : json) : option Z :=
  match j with
  | JStr s =>
      match parse_date s with
      | Some t => Some t
      | None => parse_rfc3339_date s
      end
  | _ => None
  end.

Definition dec_member (k : bytes) (l : list (bytes * json)) : option Z :=
  match Json.find_member k l with Some j => UnmarshalJSON j | None => Some zero_time end.
Definition read_back (o : option json) : option Z :=
  match o with Some j => UnmarshalJSON j | None => Some zero_time end.
End codec.

Lemma date_read_back_omitted `{TimeTextLaws} t :
  (t mod (86400 * second) = 0)%Z →
  read_back (if negb (IsZero t) then Some (MarshalJSON t) else None) = Some t.
Proof.
  intros Ht. unfold IsZero. destruct (Z.eqb_spec t zero_time) as [->|]; [done|].
  simpl. rewrite parse_format_date, Ht. f_equal. lia.
Qed.
Lemma date_dec_member_read_back `{TimeText} (k : bytes) (l : list (bytes * json)) :
   dec_member k l = read_back (Json.find_member k l).
Proof. done. Qed.
End JSONDate.
