(* ===== verification/Fs.v ===== *)
(** * The file system: [src/internal/fsutil/fs.go] and [root.go]

    A shelf lives in a directory opened as an [os.Root]. [tree] maps the
    paths below it (lists of segments) to directories and files. Every
    operation of the interface [FS] is one step of a state monad over
    [world]; before each step the environment may let it fail: [fault] says,
    for every step, whether nothing happened, the step took effect and an
    error was reported all the same (a failing close), or the step stopped
    midway ([WriteFile] after some bytes, [MkdirAll] after some directories,
    [RemoveAll] after some entries; [Rename] has no middle). The clock and the
    random numbers are read from the environment too, so a theorem for every
    environment holds for every fault, clock and draw.

    Directory modification times belong to the scan cache and are not part of
    this tree; file modification times are. *)

From S2P Require Import Prelude Utf8 Strings Json.

(** ** Errors

    The sentinel errors callers test for with [errors.Is]; [util.Errorf] with
    [%w] keeps them. [Msg] is an error nobody tests for. *)
Inductive error : Type :=
  | ENotExist | EExist | ENotDir | EIsDir | ENotEmpty | EInval | EEscape | EIO
  | ErrReadOnly
  | ErrBookNotFound | ErrTrashedBookNotFound | ErrSourceNotFound | ErrAssetNotFound
  | ErrMalformedMetadata
  | ErrUnsupportedBookSchemaVersion | ErrUnsupportedSourceSchemaVersion
  | ErrUnsupportedTrashSchemaVersion | ErrShelfInitializing | ErrFolderNotFound
  | ErrInvalidFolder | ErrIgnoredFolderName | ErrInvalidBookFormat | ErrInvalidStar
  | ErrInvalidLanguageTag | ErrInvalidIdentifierKey | ErrInvalidAssetName
  | ErrInvalidPageList | ErrPageListConflict | ErrNotImageSource
  | ErrInvalidPagePosition | ErrInvalidPageDirection
  | ErrBookIDConflict | ErrSameShelfTransfer | ErrShelfLockTimeout
  | ErrInvalidSegment
  | ErrReservedFolderName | ErrInvalidFolderIcon
  | ErrFolderMetaNotWritable | ErrFolderMetaConflict
  | ErrRescanInProgress | ErrRescanRateLimited
  | ErrSourceUnavailable | ErrSourceUnauthorized | ErrNotAShelf
  | ErrBookNotDownloaded | ErrDownloadUnsupported
  | Msg (m : string).

#[export] Instance error_eq_dec : EqDecision error.
Proof. solve_decision. Defined.

(** [errors.Is(err, target)]: wrapping errors first ([ErrIgnoredFolderName]
    and [ErrReservedFolderName] wrap [ErrInvalidFolder]). *)
Definition errors_Is (e target : error) : bool :=
  bool_decide (e = target) ||
  bool_decide ((e = ErrIgnoredFolderName ∨ e = ErrReservedFolderName) ∧ target = ErrInvalidFolder).

(** ** Paths *)
Abbreviation path := (list bytes).

(** [path.Join(p, s)] for a segment or a slash-separated name: [path.Clean]
    drops empty and dot segments and resolves [..]. *)
Definition push_segment (p : path) (s : bytes) : path :=
  if decide (s = [] ∨ s = str ".") then p else
  if decide (s = str "..") then
    match last p with
    | None => p ++ [s]
    | Some l => if decide (l = str "..") then p ++ [s] else take (length p - 1) p
    end
  else p ++ [s].
Definition pjoin (p : path) (s : bytes) : path := foldl push_segment p (Split s "/"%char).

(** A name [pjoin] appends as it stands. *)
Definition segment (s : bytes) : Prop :=
  s ≠ [] ∧ s ≠ str "." ∧ s ≠ str ".." ∧ "/"%char ∉ s.
#[export] Instance segment_dec s : Decision (segment s).
Proof. unfold segment. apply _. Defined.

Lemma pjoin_segment p s : segment s → pjoin p s = p ++ [s].
Proof.
  intros (Hne & Hd & Hdd & Hs). unfold pjoin. rewrite Split_word by done. simpl.
  unfold push_segment. rewrite decide_False by naive_solver. by rewrite decide_False.
Qed.

(** [path.Base] and [path.Dir] of a clean path. *)
Definition base (p : path) : bytes := default (str ".") (last p).
Definition dirname (p : path) : path := take (length p - 1) p.

(** ** Trees *)
Inductive content : Type :=
  | Raw (b : bytes)
  | Doc (j : json).

Inductive node : Type :=
  | Dir
  | File (c : content) (mtime : Z).

Abbreviation tree := (gmap path node).

Definition is_dir (n : node) : bool := match n with Dir => true | File _ _ => false end.

(** [q] is [p] or lies below it. *)
Definition under (p q : path) : Prop := p `prefix_of` q.

(** Resolving the directories on the way to a path, as [os.Root] does. *)
Fixpoint walk (t : tree) (pre rest : path) : option error :=
  match rest with
  | [] | [_] => None
  | x :: rest =>
      match t !! (pre ++ [x]) with
      | None => Some ENotExist
      | Some (File _ _) => Some ENotDir
      | Some Dir => walk t (pre ++ [x]) rest
      end
  end.
Definition resolve (t : tree) (p : path) : option error :=
  if decide (head p = Some (str "..")) then Some EEscape else walk t [] p.

(** [lstat] *)
Definition find_node (t : tree) (p : path) : result error node :=
  match resolve t p with
  | Some e => Err e
  | None => match t !! p with Some n => Ok n | None => Err ENotExist end
  end.

(** The names of the entries of a directory, in byte order; the name of an
    entry holds no separator. *)
Definition child_of (p q : path) : option bytes :=
  match last q with
  | Some s => if decide (q = p ++ [s] ∧ "/"%char ∉ s) then Some s else None
  | None => None
  end.
Definition entries (t : tree) (p : path) : list (bytes * node) :=
  (λ s, (s, default Dir (t !! (p ++ [s])))) <$>
    sort_strings (omap (child_of p) (elements (dom t))).

(** ** The pure effect of each operation *)
Definition fs_write (t : tree) (p : path) (c : content) (now : Z) : result error unit * tree :=
  match resolve t p with
  | Some e => (Err e, t)
  | None =>
      match t !! p with
      | Some Dir => (Err EIsDir, t)
      | _ => if decide (p = []) then (Err EIsDir, t) else (Ok tt, <[p := File c now]> t)
      end
  end.

Definition fs_mkdir (t : tree) (p : path) : result error unit * tree :=
  match resolve t p with
  | Some e => (Err e, t)
  | None =>
      match t !! p with
      | Some _ => (Err EExist, t)
      | None => (Ok tt, <[p := Dir]> t)
      end
  end.

(** [MkdirAll]: the directories missing on the way, at most [n] of them. *)
Fixpoint fs_mkdirs (n : nat) (t : tree) (pre rest : path) : result error unit * tree :=
  match rest with
  | [] => (Ok tt, t)
  | x :: rest =>
      let p := pre ++ [x] in
      match t !! p with
      | Some (File _ _) => (Err ENotDir, t)
      | Some Dir => fs_mkdirs n t p rest
      | None =>
          match n with
          | 0 => (Err EIO, t)
          | S n => fs_mkdirs n (<[p := Dir]> t) p rest
          end
      end
  end.
Definition fs_mkdir_all (n : nat) (t : tree) (p : path) : result error unit * tree :=
  if decide (head p = Some (str "..")) then (Err EEscape, t) else fs_mkdirs n t [] p.

(** Moving the subtree [o] to [n], replacing what is at [n]. *)
Definition moved (o n : path) (t : tree) : list (path * node) :=
  (λ kv, (n ++ drop (length o) kv.1, kv.2)) <$>
    filter (λ kv, under o kv.1) (map_to_list t).
Definition move (t : tree) (o n : path) : tree :=
  list_to_map (moved o n t) ∪ filter (λ kv, ¬ under o kv.1 ∧ ¬ under n kv.1) t.

Definition empty_dir (t : tree) (p : path) : bool :=
  forallb (λ q, negb (bool_decide (under p q)) || bool_decide (q = p)) (elements (dom t)).

(** [renameat] *)
Definition fs_rename (t : tree) (o n : path) : result error unit * tree :=
  match find_node t o, resolve t n with
  | Err e, _ | _, Some e => (Err e, t)
  | Ok from, None =>
      if decide (o = n) then (Ok tt, t) else
      if decide (under o n) then (Err EInval, t) else
      match from, t !! n with
      | Dir, Some (File _ _) => (Err ENotDir, t)
      | Dir, Some Dir => if empty_dir t n then (Ok tt, move t o n) else (Err ENotEmpty, t)
      | File _ _, Some Dir => (Err EIsDir, t)
      | _, _ => (Ok tt, move t o n)
      end
  end.

Definition fs_remove (t : tree) (p : path) : result error unit * tree :=
  match find_node t p with
  | Err e => (Err e, t)
  | Ok Dir =>
      if decide (p = []) then (Err EInval, t) else
      if empty_dir t p then (Ok tt, delete p t) else (Err ENotEmpty, t)
  | Ok (File _ _) => (Ok tt, delete p t)
  end.

(** [RemoveAll], keeping the entries [keep] selects and the directories that
    hold them: the state of an interrupted removal. *)
Definition prune (keep : path → bool) (t : tree) (p : path) : tree :=
  filter (λ kv, ¬ under p kv.1 ∨
    Exists (under kv.1) (filter (λ q, under p q ∧ keep q = true) (elements (dom t)))) t.
Definition fs_remove_all (t : tree) (p : path) : result error unit * tree :=
  match resolve t p with
  | Some ENotExist => (Ok tt, t)
  | Some e => (Err e, t)
  | None => if decide (p = []) then (Err EInval, t) else (Ok tt, prune (λ _, false) t p)
  end.

(** ** The world and the monad *)
Record world := mkWorld { wtree : tree; tick : nat }.

Inductive fault_kind : Type :=
  | NoFault
  | FailBefore
  | FailAfter
  | FailMidway (n : nat) (keep : path → bool).

(** The environment: faults, the clock and random numbers, by step. *)
Class Machine := {
  fault : nat → fault_kind;
  clock : nat → Z;
  Intn : nat → nat → nat;
  Intn_range i n : 0 < n → Intn i n < n;
  (** the text [json.Marshal] gives a document *)
  doc_text : json → bytes;
  (** [FileInfo.ModTime] and [Size] a directory shows at a step *)
  dir_info : nat → list bytes → Z * Z;
}.

(** State and error monad over any state. *)
Definition M (S A : Type) : Type := S → result error A * S.
#[export] Instance M_ret S : MRet (M S) := λ A a s, (Ok a, s).
#[export] Instance M_bind S : MBind (M S) := λ A B k m s,
  let '(r, s') := m s in match r with Ok a => k a s' | Err e => (Err e, s') end.

Definition throw {S A} (e : error) : M S A := λ s, (Err e, s).
Definition of_result {S A} (r : result error A) : M S A := λ s, (r, s).
(** [if err := m; err != nil ...]: the outcome as a value. *)
Definition try {S A} (m : M S A) : M S (result error A) := λ s,
  let '(r, s') := m s in (Ok r, s').
(** [_ = m] and [defer m] *)
Definition ignore {S A} (m : M S A) : M S unit := λ s, (Ok tt, (m s).2).
Definition deferred {S A B} (m : M S A) (cleanup : M S B) : M S A := λ s,
  let '(r, s') := m s in (r, (cleanup s').2).
Definition guard_err {S} (b : bool) (e : error) : M S unit := if b then throw e else mret tt.
Definition gets {S A} (f : S → A) : M S A := λ s, (Ok (f s), s).
Definition modify {S} (f : S → S) : M S unit := λ s, (Ok tt, f s).

Notation "m ;; k" := (mbind (λ _, k) m) (at level 100, k at level 200, right associativity,
  only parsing) : go_scope.

Section ops.
Context `{Machine}.

Definition now : M world Z := λ w, (Ok (clock (tick w)), mkWorld (wtree w) (S (tick w))).
Definition rand (n : nat) : M world nat := λ w,
  (Ok (Intn (tick w) n), mkWorld (wtree w) (S (tick w))).

(** A step that only reads. *)
Definition read_step {A} (act : tree → result error A) : M world A := λ w,
  let w' := mkWorld (wtree w) (S (tick w)) in
  match fault (tick w) with
  | NoFault => (act (wtree w), w')
  | _ => (Err EIO, w')
  end.

(** A step that changes the tree; [mid] is what a fault in the middle of it
    leaves. *)
Definition write_step (act : tree → result error unit * tree)
    (mid : nat → (path → bool) → tree → tree) : M world unit := λ w,
  let t := wtree w in
  let done r t' := (r, mkWorld t' (S (tick w))) in
  match fault (tick w) with
  | NoFault => let '(r, t') := act t in done r t'
  | FailBefore => done (Err EIO) t
  | FailAfter =>
      let '(r, t') := act t in done (match r with Ok _ => Err EIO | Err e => Err e end) t'
  | FailMidway n keep =>
      let '(r, _) := act t in
      match r with Ok _ => done (Err EIO) (mid n keep t) | Err e => done (Err e) t end
  end.

(** [FS.Stat]; [FileInfo.Size] and [ModTime] of a file. *)
Definition Stat (p : path) : M world node := read_step (λ t, find_node t p).
Definition content_bytes (c : content) : bytes :=
  match c with Raw b => b | Doc j => doc_text j end.
Definition content_size (c : content) : Z := Z.of_nat (length (content_bytes c)).

(** [FileInfo.ModTime] and [Size] of what [Stat] finds at step [k] *)
Definition file_info (k : nat) (p : path) (n : node) : Z * Z :=
  match n with File c z => (z, content_size c) | Dir => dir_info k p end.
Definition StatInfo (p : path) : M world (node * (Z * Z)) :=
  k ← gets tick;
  n ← Stat p;
  mret (n, file_info k p n).

(** [FS.ReadDir] *)
Definition ReadDir (p : path) : M world (list (bytes * node)) :=
  read_step (λ t,
    match find_node t p with
    | Err e => Err e
    | Ok (File _ _) => Err ENotDir
    | Ok Dir => Ok (entries t p)
    end).

(** [FS.Open] and reading to the end. *)
Definition Open (p : path) : M world content :=
  read_step (λ t,
    match find_node t p with
    | Err e => Err e
    | Ok Dir => Err EIsDir
    | Ok (File c _) => Ok c
    end).

(** [FS.WriteFile] (and [OpenWriter] with its writes and its [Close]). *)
Definition cut_content (n : nat) (c : content) : content :=
  match c with Raw b => Raw (take n b) | Doc _ => Raw [] end.
Definition WriteFile (p : path) (c : content) : M world unit := λ w,
  write_step (λ t, fs_write t p c (clock (tick w)))
    (λ n _ t, (fs_write t p (cut_content n c) (clock (tick w))).2) w.

Definition Mkdir (p : path) : M world unit := write_step (λ t, fs_mkdir t p) (λ _ _ t, t).
Definition MkdirAll (p : path) : M world unit :=
  write_step (λ t, fs_mkdir_all (length p) t p) (λ n _ t, (fs_mkdir_all n t p).2).
Definition Rename (o n : path) : M world unit :=
  write_step (λ t, fs_rename t o n) (λ _ _ t, t).
Definition Remove (p : path) : M world unit := write_step (λ t, fs_remove t p) (λ _ _ t, t).
Definition RemoveAll (p : path) : M world unit :=
  write_step (λ t, fs_remove_all t p) (λ _ keep t, prune keep t p).

End ops.
