(* ===== verification/FsSpec.v ===== *)
(** * Reasoning about the file system

    [wp m Q s] says that running [m] from [s] ends in a result and a state
    satisfying [Q]; the rules below take a program apart step by step. The
    rules of the operations cover every fault of the environment: a rule has
    one case in which the tree is untouched and one in which the pure effect
    took place, whatever the reported result. *)

From S2P Require Import Prelude Utf8 Strings Json Fs.

(** ** The lookup equation of a move *)
Lemma under_app p q : under p (p ++ q).
Proof. by exists q. Qed.
Lemma under_refl p : under p p.
Proof. exists []. by rewrite app_nil_r. Qed.
Lemma under_trans p q r : under p q → under q r → under p r.
Proof. unfold under. intros. by etrans. Qed.
Lemma under_length p q : under p q → length p ≤ length q.
Proof. intros [k ->]. rewrite length_app. lia. Qed.
#[export] Hint Resolve under_refl under_app : core.

Lemma under_snoc p q s : under p (q ++ [s]) → under p q ∨ p = q ++ [s].
Proof.
  intros [k Hk]. destruct k as [|x k _] using rev_ind.
  - right. by rewrite app_nil_r in Hk.
  - left. rewrite app_assoc in Hk. apply app_inj_tail in Hk as [-> _]. auto.
Qed.

Lemma elem_of_moved o n t q v :
  (q, v) ∈ moved o n t ↔ under n q ∧ t !! (o ++ drop (length n) q) = Some v.
Proof.
  unfold moved. rewrite list_elem_of_fmap. split.
  - intros ([k x] & E & Hk). apply list_elem_of_filter in Hk as [[k' Hk'] Hin].
    simpl in *. simplify_eq. apply elem_of_map_to_list in Hin.
    rewrite drop_app_length. split; [auto|].
    rewrite drop_app_length. done.
  - intros [[k ->] Hl]. rewrite drop_app_length in Hl. exists (o ++ k, v). simpl.
    rewrite drop_app_length. split; [done|]. apply list_elem_of_filter.
    split; [simpl; auto|]. by apply elem_of_map_to_list.
Qed.

Lemma lookup_list_to_map_functional {K A} `{Countable K} (l : list (K * A)) k v :
  (∀ x y, (k, x) ∈ l → (k, y) ∈ l → x = y) →
  (k, v) ∈ l → (list_to_map l : gmap K A) !! k = Some v.
Proof.
  induction l as [|[k' v'] l IH]; intros Hf Hin; [by apply elem_of_nil in Hin|].
  simpl. destruct (decide (k' = k)) as [->|Hne].
  - rewrite lookup_insert_eq. f_equal. apply (Hf v' v); [left|done].
  - rewrite lookup_insert_ne by done. apply IH.
    + intros x y Hx Hy. by apply Hf; right.
    + apply elem_of_cons in Hin as [?|?]; [congruence|done].
Qed.

Lemma lookup_move t o n q :
  move t o n !! q =
  if decide (under n q) then t !! (o ++ drop (length n) q)
  else if decide (under o q) then None else t !! q.
Proof.
  unfold move. rewrite lookup_union.
  assert (∀ v, (q, v) ∈ moved o n t → (list_to_map (moved o n t) : tree) !! q = Some v) as Hin.
  { intros v. apply lookup_list_to_map_functional. intros x y Hx Hy.
    apply elem_of_moved in Hx as [_ Hx], Hy as [_ Hy]. congruence. }
  assert ((∀ v, (q, v) ∉ moved o n t) → (list_to_map (moved o n t) : tree) !! q = None) as Hnot.
  { intros Hv. apply not_elem_of_list_to_map. rewrite list_elem_of_fmap.
    intros ([k v] & -> & Hk). by apply (Hv v). }
  destruct (decide (under n q)) as [Hn|Hn].
  - assert (filter (λ kv : path * node, ¬ under o kv.1 ∧ ¬ under n kv.1) t !! q = None) as ->.
    { apply map_lookup_filter_None. right. intros v _ [_ H]. by apply H. }
    rewrite option_union_right_id. destruct (t !! (o ++ drop (length n) q)) as [v|] eqn:E.
    + apply Hin. by apply elem_of_moved.
    + apply Hnot. intros v [_ Hv]%elem_of_moved. congruence.
  - rewrite Hnot by (intros v [? _]%elem_of_moved; done). rewrite option_union_left_id.
    rewrite map_lookup_filter. destruct (t !! q) as [v|] eqn:E; simpl.
    + destruct (decide (under o q)) as [Ho|Ho].
      * rewrite option_guard_False; [done|]. naive_solver.
      * rewrite option_guard_True; [done|]. naive_solver.
    + by destruct (decide (under o q)).
Qed.

Lemma lookup_prune_none t p q :
  prune (λ _, false) t p !! q = if decide (under p q) then None else t !! q.
Proof.
  unfold prune. rewrite map_lookup_filter. destruct (t !! q) as [v|]; simpl.
  - case_decide as Hu.
    + rewrite option_guard_False; [done|]. intros [?|He]; [done|].
      apply Exists_exists in He as (x & [[_ ?] _]%list_elem_of_filter & _). done.
    + rewrite option_guard_True; [done|]. by left.
  - by case_decide.
Qed.

(** An interrupted removal only removes, and only below its target. *)
Lemma lookup_prune keep t p q :
  prune keep t p !! q = t !! q ∨ under p q ∧ prune keep t p !! q = None.
Proof.
  unfold prune. rewrite map_lookup_filter. destruct (t !! q) as [v|]; simpl; [|by left].
  match goal with |- context [guard ?P] => destruct (decide P) as [HP|HP] end.
  - left. by rewrite option_guard_True.
  - right. rewrite option_guard_False by done. split; [|done].
    destruct (decide (under p q)); [done|]. destruct HP. by left.
Qed.

(** ** Weakest preconditions *)
Definition wp {S A} (m : M S A) (Q : result error A → S → Prop) (s : S) : Prop :=
  Q (m s).1 (m s).2.

Lemma wp_mono {S A} (m : M S A) (Q Q' : result error A → S → Prop) s :
  wp m Q s → (∀ r s', Q r s' → Q' r s') → wp m Q' s.
Proof. unfold wp. auto. Qed.

Lemma wp_ret {S A} (a : A) (Q : result error A → S → Prop) s : Q (Ok a) s → wp (mret a) Q s.
Proof. done. Qed.

Lemma wp_throw {S A} e (Q : result error A → S → Prop) s : Q (Err e) s → wp (throw e) Q s.
Proof. done. Qed.

Lemma wp_bind {S A B} (m : M S A) (k : A → M S B) Q s :
  wp m (λ r s', match r with Ok a => wp (k a) Q s' | Err e => Q (Err e) s' end) s →
  wp (mbind k m) Q s.
Proof.
  unfold wp, mbind, M_bind. destruct (m s) as [[a|e] s'] eqn:E; simpl; done.
Qed.

Lemma wp_try {S A} (m : M S A) (Q : result error (result error A) → S → Prop) s :
  wp m (λ r s', Q (Ok r) s') s → wp (try m) Q s.
Proof. unfold wp, try. by destruct (m s). Qed.

Lemma wp_ignore {S A} (m : M S A) (Q : result error unit → S → Prop) s :
  wp m (λ _ s', Q (Ok tt) s') s → wp (ignore m) Q s.
Proof. done. Qed.

Lemma wp_deferred {S A B} (m : M S A) (c : M S B) Q s :
  wp m (λ r s', wp c (λ _ s'', Q r s'') s') s → wp (deferred m c) Q s.
Proof. unfold wp, deferred. by destruct (m s). Qed.

Lemma wp_guard {S} b e (Q : result error unit → S → Prop) s :
  (b = true → Q (Err e) s) → (b = false → Q (Ok tt) s) → wp (guard_err b e) Q s.
Proof. destruct b; simpl; unfold wp; simpl; auto. Qed.

Lemma wp_gets {S A} (f : S → A) Q (s : S) : Q (Ok (f s)) s → wp (gets f) Q s.
Proof. done. Qed.
Lemma wp_modify {S} (f : S → S) Q (s : S) : Q (Ok tt) (f s) → wp (modify f) Q s.
Proof. done. Qed.
Lemma wp_of_result {S A} (r : result error A) Q (s : S) : Q r s → wp (of_result r) Q s.
Proof. done. Qed.

(** ** The operations under every fault *)
Section specs.
Context `{Machine}.

Lemma wp_now (Q : result error Z → world → Prop) w :
  (∀ z n, Q (Ok z) (mkWorld (wtree w) n)) → wp now Q w.
Proof. intros HQ. apply HQ. Qed.

Lemma wp_rand k (Q : result error nat → world → Prop) w :
  (∀ z n, (0 < k → z < k) → Q (Ok z) (mkWorld (wtree w) n)) → wp (rand k) Q w.
Proof. intros HQ. apply HQ. apply Intn_range. Qed.

Lemma wp_read {A} (act : tree → result error A) Q w :
  (∀ r n, r = act (wtree w) ∨ r = Err EIO → Q r (mkWorld (wtree w) n)) →
  wp (read_step act) Q w.
Proof.
  intros HQ. unfold wp, read_step. destruct (fault (tick w)); simpl; apply HQ; auto.
Qed.

(** What a changing step may do: nothing, with an error; all of it; or the
    part [mid] describes, with an error. *)
Inductive step_outcome (act : tree → result error unit * tree)
    (mid : nat → (path → bool) → tree → tree) (t : tree) :
    result error unit → tree → Prop :=
  | outcome_none e : (e = EIO ∨ (act t).1 = Err e) → step_outcome act mid t (Err e) t
  | outcome_done t' : act t = (Ok tt, t') → step_outcome act mid t (Ok tt) t'
  | outcome_reported t' : act t = (Ok tt, t') → step_outcome act mid t (Err EIO) t'
  | outcome_mid n keep : (act t).1 = Ok tt →
      step_outcome act mid t (Err EIO) (mid n keep t).

(** A failed pure effect leaves the tree as it was. *)
Definition atomic_act (act : tree → result error unit * tree) : Prop :=
  ∀ t e t', act t = (Err e, t') → t' = t.

Lemma wp_write act mid Q w :
  atomic_act act →
  (∀ r t' n, step_outcome act mid (wtree w) r t' → Q r (mkWorld t' n)) →
  wp (write_step act mid) Q w.
Proof.
  intros Hat HQ. unfold wp, write_step.
  destruct (act (wtree w)) as [[[]|e] t'] eqn:E; destruct (fault (tick w)) eqn:F; simpl;
    try (apply Hat in E as Et; subst t'); apply HQ.
  all: first [by econstructor; rewrite E | constructor; right; by rewrite E | by constructor; left].
Qed.

Lemma fs_write_atomic p c z : atomic_act (λ t, fs_write t p c z).
Proof. intros t e t'. unfold fs_write. intros E. by repeat case_match; simplify_eq. Qed.
Lemma fs_mkdir_atomic p : atomic_act (λ t, fs_mkdir t p).
Proof. intros t e t'. unfold fs_mkdir. intros E. by repeat case_match; simplify_eq. Qed.
Lemma fs_rename_atomic o n : atomic_act (λ t, fs_rename t o n).
Proof. intros t e t'. unfold fs_rename. intros E. by repeat case_match; simplify_eq. Qed.
Lemma fs_remove_atomic p : atomic_act (λ t, fs_remove t p).
Proof. intros t e t'. unfold fs_remove. intros E. by repeat case_match; simplify_eq. Qed.
Lemma fs_remove_all_atomic p : atomic_act (λ t, fs_remove_all t p).
Proof. intros t e t'. unfold fs_remove_all. intros E. by repeat case_match; simplify_eq. Qed.

(** ** The successful pure effects *)
Lemma fs_write_ok t p c z t' :
  fs_write t p c z = (Ok tt, t') →
  t' = <[p := File c z]> t ∧ t !! p ≠ Some Dir ∧ p ≠ [] ∧ resolve t p = None.
Proof. unfold fs_write. intros E. repeat case_match; simplify_eq; done. Qed.

Lemma fs_mkdir_ok t p t' :
  fs_mkdir t p = (Ok tt, t') → t' = <[p := Dir]> t ∧ t !! p = None ∧ resolve t p = None.
Proof. unfold fs_mkdir. intros E. repeat case_match; simplify_eq; done. Qed.

Lemma find_node_ok t p n : find_node t p = Ok n → t !! p = Some n ∧ resolve t p = None.
Proof. unfold find_node. intros E. repeat case_match; simplify_eq; done. Qed.

Lemma fs_rename_ok t o n t' :
  fs_rename t o n = (Ok tt, t') →
  is_Some (t !! o) ∧ resolve t n = None ∧
  (o = n ∧ t' = t ∨
   ¬ under o n ∧ t' = move t o n ∧
   (t !! n = None ∨ (t !! n = Some Dir ∧ empty_dir t n = true) ∧ t !! o = Some Dir ∨
    (∃ c z, t !! n = Some (File c z)) ∧ t !! o ≠ Some Dir)).
Proof.
  unfold fs_rename. intros E.
  destruct (find_node t o) as [from|] eqn:Ho; [|by destruct (resolve t n)].
  apply find_node_ok in Ho as [Ho _]. destruct (resolve t n); [done|].
  split; [by eexists|]. split; [done|].
  destruct (decide (o = n)); [simplify_eq; by left|]. right.
  destruct (decide (under o n)); [done|].
  destruct from as [|c z], (t !! n) as [[|c' z']|] eqn:Hn; try destruct (empty_dir t n) eqn:?;
    simplify_eq; (split; [done|]); (split; [done|]); auto 6.
  all: right; right; split; [by eauto|congruence].
Qed.

Lemma fs_remove_ok t p t' :
  fs_remove t p = (Ok tt, t') →
  t' = delete p t ∧
  (t !! p = Some Dir ∧ empty_dir t p = true ∧ p ≠ [] ∨ ∃ c z, t !! p = Some (File c z)).
Proof.
  unfold fs_remove. intros E. destruct (find_node t p) as [[|c z]|] eqn:Hp; simplify_eq;
    apply find_node_ok in Hp as [? _]; [|by eauto 6].
  repeat case_match; simplify_eq. auto 6.
Qed.

Lemma fs_remove_all_ok t p t' :
  fs_remove_all t p = (Ok tt, t') →
  (t' = t ∧ resolve t p = Some ENotExist) ∨ p ≠ [] ∧ t' = prune (λ _, false) t p.
Proof. unfold fs_remove_all. intros E. repeat case_match; simplify_eq; auto. Qed.

Lemma empty_dir_spec t p :
  empty_dir t p = true ↔ ∀ q, under p q → is_Some (t !! q) → q = p.
Proof.
  unfold empty_dir. rewrite forallb_forall. setoid_rewrite <-list_elem_of_In.
  setoid_rewrite elem_of_elements. setoid_rewrite elem_of_dom.
  setoid_rewrite orb_true_iff. setoid_rewrite negb_true_iff.
  setoid_rewrite bool_decide_eq_false. setoid_rewrite bool_decide_eq_true.
  split; [|intros Hq q Hs; destruct (decide (under p q)); auto].
  intros Hq q Hu Hs. by destruct (Hq q Hs).
Qed.

(** Making directories only adds directories on the way. *)
Definition dirs_added (p : path) (t t' : tree) : Prop :=
  ∀ q, t' !! q = t !! q ∨ t !! q = None ∧ t' !! q = Some Dir ∧ under q p.

Lemma dirs_added_refl p t : dirs_added p t t.
Proof. intros q. by left. Qed.

Lemma dirs_added_trans p t1 t2 t3 :
  dirs_added p t1 t2 → dirs_added p t2 t3 → dirs_added p t1 t3.
Proof.
  intros H1 H2 q. specialize (H1 q). specialize (H2 q). naive_solver congruence.
Qed.

Lemma fs_mkdirs_added n t pre rest :
  dirs_added (pre ++ rest) t (fs_mkdirs n t pre rest).2.
Proof.
  revert n t pre. induction rest as [|x rest IH]; intros n t pre; simpl; [apply dirs_added_refl|].
  assert (∀ m t', dirs_added (pre ++ x :: rest) t' (fs_mkdirs m t' (pre ++ [x]) rest).2) as IH'.
  { intros m t'. specialize (IH m t' (pre ++ [x])). by rewrite <-app_assoc in IH. }
  destruct (t !! (pre ++ [x])) as [[|c z]|] eqn:E; [apply IH'|apply dirs_added_refl|].
  destruct n as [|n]; [apply dirs_added_refl|].
  eapply dirs_added_trans; [|apply IH'].
  intros q. destruct (decide (q = pre ++ [x])) as [->|].
  - right. rewrite lookup_insert_eq. split; [done|]. split; [done|].
    exists rest. by rewrite <-app_assoc.
  - left. by rewrite lookup_insert_ne.
Qed.

(** A directory [MkdirAll] reports is there. *)
Lemma fs_mkdirs_ok n t pre rest t' :
  fs_mkdirs n t pre rest = (Ok tt, t') →
  ∀ k, 0 < k ≤ length rest → t' !! (pre ++ take k rest) = Some Dir.
Proof.
  revert n t pre. induction rest as [|x rest IH]; intros n t pre; simpl; [intros; lia|].
  assert (∀ m t0, t0 !! (pre ++ [x]) = Some Dir →
    fs_mkdirs m t0 (pre ++ [x]) rest = (Ok tt, t') →
    ∀ k, 0 < k ≤ S (length rest) → t' !! (pre ++ take k (x :: rest)) = Some Dir) as Hgo.
  { intros m t0 Hx E k Hk. destruct k as [|k]; [lia|]. simpl.
    destruct (decide (k = 0)) as [->|].
    - rewrite take_0. pose proof (fs_mkdirs_added m t0 (pre ++ [x]) rest (pre ++ [x])) as Ha.
      rewrite E in Ha. simpl in Ha. destruct Ha as [->|[? _]]; [done|congruence].
    - specialize (IH m t0 (pre ++ [x]) E k ltac:(lia)).
      by rewrite <-app_assoc in IH. }
  destruct (t !! (pre ++ [x])) as [[|c z]|] eqn:E; [by eapply Hgo|done|].
  destruct n as [|n]; [done|]. apply Hgo. by rewrite lookup_insert_eq.
Qed.

(** What one [MkdirAll] does, under every fault. *)
Lemma wp_MkdirAll p (Q : result error unit → world → Prop) w :
  (∀ r t' n, dirs_added p (wtree w) t' →
    (r = Ok tt → ∀ k, 0 < k ≤ length p → t' !! take k p = Some Dir) →
    (r = Ok tt ∨ ∃ e, r = Err e) →
    Q r (mkWorld t' n)) →
  wp (MkdirAll p) Q w.
Proof.
  intros HQ. assert (∀ n, dirs_added p (wtree w) (fs_mkdir_all n (wtree w) p).2) as Ha.
  { intros n. unfold fs_mkdir_all. case_decide; [apply dirs_added_refl|].
    apply (fs_mkdirs_added n (wtree w) [] p). }
  assert (∀ n t', fs_mkdir_all n (wtree w) p = (Ok tt, t') →
    ∀ k, 0 < k ≤ length p → t' !! take k p = Some Dir) as Hd.
  { intros n t'. unfold fs_mkdir_all. case_decide; [done|]. apply fs_mkdirs_ok. }
  unfold wp, MkdirAll, write_step. pose proof (Ha (length p)) as Ha'. pose proof (Hd (length p)) as Hd'.
  destruct (fs_mkdir_all (length p) (wtree w) p) as [[[]|e] t'] eqn:E;
    destruct (fault (tick w)); simpl in *; apply HQ; eauto using dirs_added_refl; done.
Qed.

Lemma wp_Stat p (Q : result error node → world → Prop) w :
  (∀ r n, r = find_node (wtree w) p ∨ r = Err EIO → Q r (mkWorld (wtree w) n)) →
  wp (Stat p) Q w.
Proof. intros HQ. unfold Stat. by apply wp_read. Qed.

Lemma wp_StatInfo p (Q : result error (node * (Z * Z)) → world → Prop) w :
  (∀ r n, (∀ i, r = Ok i → find_node (wtree w) p = Ok i.1 ∧ i.2 = file_info (tick w) p i.1) →
    (∀ e, r = Err e → e = EIO ∨ find_node (wtree w) p = Err e) →
    Q r (mkWorld (wtree w) n)) →
  wp (StatInfo p) Q w.
Proof.
  intros HQ. apply wp_bind, wp_gets, wp_bind, wp_Stat. intros [n|e] k Hr.
  - apply wp_ret, HQ; [|done]. intros i [= <-]. by destruct Hr as [E|].
  - apply HQ; [done|]. intros e' [= <-]. destruct Hr as [E|[= ->]]; auto.
Qed.

Lemma wp_Open p (Q : result error content → world → Prop) w :
  (∀ r n, (∀ c, r = Ok c → ∃ z, wtree w !! p = Some (File c z)) →
    (r = Err ENotExist → wtree w !! p = None ∨ resolve (wtree w) p = Some ENotExist) →
    Q r (mkWorld (wtree w) n)) →
  wp (Open p) Q w.
Proof.
  intros HQ. unfold Open. apply wp_read. intros r n [-> | ->]; apply HQ; try done.
  - intros c. unfold find_node. intros E. repeat case_match; simplify_eq. by eexists.
  - unfold find_node. intros E. repeat case_match; simplify_eq; auto.
Qed.

Lemma wp_WriteFile p c (Q : result error unit → world → Prop) w :
  (∀ e n, Q (Err e) (mkWorld (wtree w) n)) →
  (∀ r c' z n, wtree w !! p ≠ Some Dir → p ≠ [] → resolve (wtree w) p = None →
    (r = Ok tt ∧ c' = c ∨ r = Err EIO) →
    Q r (mkWorld (<[p := File c' z]> (wtree w)) n)) →
  wp (WriteFile p c) Q w.
Proof.
  intros H0 H1. unfold WriteFile. apply wp_write; [apply fs_write_atomic|].
  intros r t' n [e He|t'' E|t'' E|m keep E]; [apply H0| | |].
  1,2: apply fs_write_ok in E as (-> & ? & ? & ?); apply H1; auto.
  destruct (fs_write (wtree w) p c (clock (tick w))) as [[[]|] t''] eqn:E'; [|done].
  pose proof E' as E2. apply fs_write_ok in E' as (-> & ? & ? & Hr).
  unfold fs_write. rewrite Hr. destruct (wtree w !! p) as [[|]|] eqn:El; [done| |];
    (rewrite decide_False by done); apply H1; auto; by rewrite El.
Qed.

Lemma wp_Rename o d (Q : result error unit → world → Prop) w :
  (∀ e n, e = EIO ∨ (fs_rename (wtree w) o d).1 = Err e → Q (Err e) (mkWorld (wtree w) n)) →
  (∀ r t' n, fs_rename (wtree w) o d = (Ok tt, t') → r = Ok tt ∨ r = Err EIO →
    Q r (mkWorld t' n)) →
  wp (Rename o d) Q w.
Proof.
  intros H0 H1. unfold Rename. apply wp_write; [apply fs_rename_atomic|].
  intros r t' n [e He|t'' E|t'' E|m keep E]; auto.
Qed.

Lemma wp_Remove p (Q : result error unit → world → Prop) w :
  (∀ e n, e = EIO ∨ (fs_remove (wtree w) p).1 = Err e → Q (Err e) (mkWorld (wtree w) n)) →
  (∀ r t' n, fs_remove (wtree w) p = (Ok tt, t') → r = Ok tt ∨ r = Err EIO →
    Q r (mkWorld t' n)) →
  wp (Remove p) Q w.
Proof.
  intros H0 H1. unfold Remove. apply wp_write; [apply fs_remove_atomic|].
  intros r t' n [e He|t'' E|t'' E|m keep E]; auto.
Qed.

Lemma wp_Mkdir p (Q : result error unit → world → Prop) w :
  (∀ e n, e = EIO ∨ (fs_mkdir (wtree w) p).1 = Err e → Q (Err e) (mkWorld (wtree w) n)) →
  (∀ r n, wtree w !! p = None → resolve (wtree w) p = None → r = Ok tt ∨ r = Err EIO →
    Q r (mkWorld (<[p := Dir]> (wtree w)) n)) →
  wp (Mkdir p) Q w.
Proof.
  intros H0 H1. unfold Mkdir. apply wp_write; [apply fs_mkdir_atomic|].
  intros r t' n [e He|t'' E|t'' E|m keep E]; auto;
    apply fs_mkdir_ok in E as (-> & ? & ?); auto.
Qed.

(** Removing a subtree only removes, and only below its root. *)
Definition only_removed (p : path) (t t' : tree) : Prop :=
  ∀ q, t' !! q = t !! q ∨ under p q ∧ t' !! q = None.

Lemma wp_RemoveAll p (Q : result error unit → world → Prop) w :
  (∀ r t' n, only_removed p (wtree w) t' →
    (r = Ok tt → fs_remove_all (wtree w) p = (Ok tt, t')) → Q r (mkWorld t' n)) →
  wp (RemoveAll p) Q w.
Proof.
  intros HQ. unfold RemoveAll. apply wp_write; [apply fs_remove_all_atomic|].
  assert (∀ t', fs_remove_all (wtree w) p = (Ok tt, t') → only_removed p (wtree w) t') as Hr.
  { intros t' [[-> _]|[_ ->]]%fs_remove_all_ok q; [by left|apply lookup_prune]. }
  intros r t' n [e He|t'' E|t'' E|m keep E]; apply HQ; auto; try done.
  - intros q. by left.
  - intros q. apply lookup_prune.
Qed.

End specs.

(** * Well-formed trees

    In a well-formed tree the root is a directory and what holds an entry is
    a directory. Every operation of the file system keeps a tree well formed,
    under every fault; [preserves] lifts this to the programs built from them
    and the hint database [wf] proves it by search. *)

Record wf_tree (t : tree) : Prop := {
  wf_root : t !! [] = Some Dir;
  wf_parent p s : is_Some (t !! (p ++ [s])) → t !! p = Some Dir;
}.

Lemma wf_ancestor t p q :
  wf_tree t → is_Some (t !! (p ++ q)) → q ≠ [] → t !! p = Some Dir.
Proof.
  intros Hwf. induction q as [|x q IH] using rev_ind; [done|]. rewrite app_assoc. intros Hs _.
  apply wf_parent in Hs; [|done]. destruct q as [|y q]; [by rewrite app_nil_r in Hs|].
  apply IH; [|done]. by eexists.
Qed.

(** Nothing lies below a file or below a free path. *)
Lemma wf_no_child t p q :
  wf_tree t → t !! p ≠ Some Dir → q ≠ [] → t !! (p ++ q) = None.
Proof.
  intros Hwf Hp Hq. destruct (t !! (p ++ q)) eqn:E; [|done].
  destruct Hp. eapply wf_ancestor; [done| |done]. by eexists.
Qed.

Lemma walk_parent t pre rest s :
  wf_tree t → (pre = [] ∨ t !! pre = Some Dir) →
  walk t pre (rest ++ [s]) = None → t !! (pre ++ rest) = Some Dir.
Proof.
  intros Hwf. revert pre. induction rest as [|x rest IH]; intros pre Hpre.
  - rewrite app_nil_r. destruct Hpre as [->|]; [|done]. intros _. apply Hwf.
  - simpl. destruct (rest ++ [s]) as [|y l] eqn:E; [by destruct rest|].
    destruct (t !! (pre ++ [x])) as [[|c z]|] eqn:Ex; [|done|done].
    intros Hw. specialize (IH (pre ++ [x])). rewrite <-app_assoc in IH.
    apply IH; auto.
Qed.

Lemma resolve_parent t p s :
  wf_tree t → resolve t (p ++ [s]) = None → t !! p = Some Dir.
Proof.
  intros Hwf. unfold resolve. case_decide; [done|]. intros Hw.
  by apply (walk_parent t [] p s) in Hw; auto.
Qed.

(** A path that has no [..] in front resolves when its parent is there. *)
Definition rooted (p : path) : Prop := head p ≠ Some (str "..").

Lemma walk_ok t pre rest :
  wf_tree t → (∀ s r, rest = r ++ [s] → t !! (pre ++ r) = Some Dir) →
  walk t pre rest = None.
Proof.
  intros Hwf. revert pre. induction rest as [|x rest IH]; intros pre Hr; [done|].
  simpl. destruct rest as [|y l]; [done|].
  assert (t !! (pre ++ [x]) = Some Dir) as ->.
  { destruct l as [|z l' _] using rev_ind.
    - apply (Hr y [x]). done.
    - specialize (Hr z (x :: y :: l') eq_refl).
      apply (wf_ancestor t (pre ++ [x]) (y :: l')); [done| |done].
      rewrite <-app_assoc. simpl. by eexists. }
  apply IH. intros s r E. rewrite <-app_assoc. apply (Hr s (x :: r)). by rewrite E.
Qed.

Lemma resolve_ok t p s :
  wf_tree t → rooted (p ++ [s]) → t !! p = Some Dir → resolve t (p ++ [s]) = None.
Proof.
  intros Hwf Hr Hp. unfold resolve. rewrite decide_False by done.
  apply walk_ok; [done|]. intros s' r [-> ->]%app_inj_tail. done.
Qed.

Lemma resolve_some t p : wf_tree t → rooted p → is_Some (t !! p) → resolve t p = None.
Proof.
  intros Hwf Hr Hs. destruct p as [|s p _] using rev_ind.
  - unfold resolve. by rewrite decide_False.
  - apply resolve_ok; [done..|]. by apply (wf_parent _ Hwf) in Hs.
Qed.

Lemma find_node_some t p n :
  wf_tree t → rooted p → find_node t p = Ok n ↔ t !! p = Some n.
Proof.
  intros Hwf Hr. split; [by intros [? _]%find_node_ok|]. intros E.
  unfold find_node. rewrite resolve_some by (done || by eexists). by rewrite E.
Qed.

Lemma find_node_missing t p : wf_tree t → find_node t p = Err ENotExist → t !! p = None.
Proof.
  intros Hwf. unfold find_node. destruct (resolve t p) as [e|] eqn:Hr.
  - intros [= ->]. destruct (t !! p) eqn:E; [|done].
    rewrite resolve_some in Hr; [done|done| |by eexists].
    unfold resolve in Hr. by case_decide.
  - by destruct (t !! p).
Qed.

Lemma errors_Is_ENotExist e : errors_Is e ENotExist = true ↔ e = ENotExist.
Proof. unfold errors_Is. repeat case_bool_decide; naive_solver. Qed.

(** ** The effects keep trees well formed *)
Lemma wf_insert_file t p c z :
  wf_tree t → p ≠ [] → t !! p ≠ Some Dir → resolve t p = None →
  wf_tree (<[p := File c z]> t).
Proof.
  intros Hwf Hne Hd Hr. split.
  - rewrite lookup_insert_ne by done. apply Hwf.
  - intros q s Hs. destruct (decide (p = q ++ [s])) as [->|Hq].
    + rewrite lookup_insert_ne by (intros E; apply (f_equal length) in E; rewrite length_app in E; simpl in E; lia).
      by eapply resolve_parent.
    + rewrite lookup_insert_ne in Hs by done. apply (wf_parent _ Hwf) in Hs.
      rewrite lookup_insert_ne; [done|]. congruence.
Qed.

Lemma wf_insert_dir t p :
  wf_tree t → t !! p = None → (p = [] ∨ ∃ q s, p = q ++ [s] ∧ t !! q = Some Dir) →
  wf_tree (<[p := Dir]> t).
Proof.
  intros Hwf Hn Hp. pose proof (wf_root _ Hwf) as Hroot.
  destruct Hp as [->|(q0 & s0 & -> & Hq)]; [congruence|]. split.
  - rewrite lookup_insert_ne by (by destruct q0). done.
  - intros q s Hs. destruct (decide (q0 ++ [s0] = q ++ [s])) as [E|Hne].
    + apply app_inj_tail in E as [-> ->]. rewrite lookup_insert_ne; [done|].
      intros E. apply (f_equal length) in E. rewrite length_app in E. simpl in E. lia.
    + rewrite lookup_insert_ne in Hs by done. apply (wf_parent _ Hwf) in Hs.
      rewrite lookup_insert_ne; [done|]. congruence.
Qed.

Lemma wf_delete t p :
  wf_tree t → p ≠ [] → (∀ q, under p q → is_Some (t !! q) → q = p) → wf_tree (delete p t).
Proof.
  intros Hwf Hne He. split; [rewrite lookup_delete_ne by done; apply Hwf|].
  intros q s Hs. assert (p ≠ q ++ [s]) as Hp by (intros ->; by rewrite lookup_delete_eq in Hs; destruct Hs).
  rewrite lookup_delete_ne in Hs by done. rewrite lookup_delete_ne; [by apply (wf_parent _ Hwf) in Hs|].
  intros ->. apply Hp. symmetry. apply He; [auto|done].
Qed.

Lemma wf_prune keep t p : wf_tree t → p ≠ [] → wf_tree (prune keep t p).
Proof.
  intros Hwf Hne. unfold prune. split.
  - apply map_lookup_filter_Some. split; [apply Hwf|]. left. simpl. by intros ?%prefix_nil_inv.
  - intros q s Hs. rewrite map_lookup_filter in Hs.
    destruct (t !! (q ++ [s])) as [v|] eqn:E; [|by destruct Hs]. simpl in Hs.
    apply map_lookup_filter_Some. split; [apply (wf_parent _ Hwf) with s; by eexists|]. simpl.
    match type of Hs with context [guard ?P] => destruct (decide P) as [HP|HP] end.
    2: { rewrite option_guard_False in Hs by done. by destruct Hs. }
    destruct (decide (under p q)) as [Hu|Hu]; [|by left].
    right. destruct HP as [Hnu|Hex].
    { destruct Hnu. eapply under_trans; [done|]. auto. }
    apply Exists_exists in Hex as (x & Hx & Hxu). apply Exists_exists. exists x.
    split; [done|]. eapply under_trans; [|done]. auto.
Qed.

Lemma wf_move t o n :
  wf_tree t → o ≠ [] → ¬ under o n → resolve t n = None → is_Some (t !! o) →
  (t !! n = None ∨ (t !! n = Some Dir ∧ empty_dir t n = true) ∧ t !! o = Some Dir ∨
    (∃ c z, t !! n = Some (File c z)) ∧ t !! o ≠ Some Dir) →
  n ≠ [] → wf_tree (move t o n).
Proof.
  intros Hwf Ho Hnu Hr Hso Hn Hnn. split.
  - rewrite lookup_move. rewrite decide_False by (by intros ?%prefix_nil_inv).
    rewrite decide_False by (by intros ?%prefix_nil_inv). apply Hwf.
  - intros q s. rewrite !lookup_move. intros Hs.
    destruct (decide (under n (q ++ [s]))) as [Hu|Hu].
    + apply under_snoc in Hu as [Hu|Hu].
      * rewrite decide_True by done. destruct Hu as [k ->].
        rewrite <-app_assoc, !drop_app_length in *. rewrite app_assoc in Hs.
        by apply (wf_parent _ Hwf) in Hs.
      * subst n. rewrite decide_False.
        2: { intros Hu%under_length. rewrite length_app in Hu. simpl in Hu. lia. }
        rewrite decide_False; [by eapply resolve_parent|].
        intros Hoq. apply Hnu. eapply under_trans; [done|]. auto.
    + destruct (decide (under o (q ++ [s]))) as [Ho'|Ho']; [by destruct Hs|].
      rewrite decide_False by (intros ?; apply Hu; eapply under_trans; [done|]; auto).
      rewrite decide_False by (intros ?; apply Ho'; eapply under_trans; [done|]; auto).
      by apply (wf_parent _ Hwf) in Hs.
Qed.

Lemma wf_mkdirs n t pre rest :
  wf_tree t → t !! pre = Some Dir → wf_tree (fs_mkdirs n t pre rest).2.
Proof.
  revert n t pre. induction rest as [|x rest IH]; intros n t pre Hwf Hp; simpl; [done|].
  destruct (t !! (pre ++ [x])) as [[|c z]|] eqn:E; [by apply IH|done|].
  destruct n as [|n]; [done|]. apply IH; [|by rewrite lookup_insert_eq].
  apply wf_insert_dir; [done|done|]. right. eauto.
Qed.

(** ** Programs that keep the tree well formed *)
Definition preserves {A} (m : M world A) : Prop :=
  ∀ w, wf_tree (wtree w) → wf_tree (wtree (m w).2).

Section preserves.
Context `{Machine}.

Lemma preserves_ret {A} (a : A) : preserves (mret a).
Proof. by intros w. Qed.
Lemma preserves_throw {A} e : preserves (@throw world A e).
Proof. by intros w. Qed.
Lemma preserves_of_result {A} (r : result error A) : preserves (of_result r).
Proof. by intros w. Qed.
Lemma preserves_bind {A B} (m : M world A) (k : A → M world B) :
  preserves m → (∀ a, preserves (k a)) → preserves (mbind k m).
Proof.
  intros Hm Hk w Hw. specialize (Hm w Hw). unfold mbind, M_bind.
  destruct (m w) as [[a|e] w']; [by apply Hk|done].
Qed.
Lemma preserves_try {A} (m : M world A) : preserves m → preserves (try m).
Proof. intros Hm w Hw. specialize (Hm w Hw). unfold try. by destruct (m w). Qed.
Lemma preserves_ignore {A} (m : M world A) : preserves m → preserves (ignore m).
Proof. intros Hm w Hw. exact (Hm w Hw). Qed.
Lemma preserves_deferred {A B} (m : M world A) (c : M world B) :
  preserves m → preserves c → preserves (deferred m c).
Proof.
  intros Hm Hc w Hw. specialize (Hm w Hw). unfold deferred.
  destruct (m w) as [r w']. by apply Hc.
Qed.
Lemma preserves_guard b e : preserves (guard_err b e).
Proof. by destruct b; intros w. Qed.
Lemma preserves_now : preserves now.
Proof. by intros w. Qed.
Lemma preserves_rand k : preserves (rand k).
Proof. by intros w. Qed.

Lemma preserves_read {A} (act : tree → result error A) : preserves (read_step act).
Proof. intros w Hw. unfold read_step. by destruct (fault (tick w)). Qed.
Lemma preserves_Stat p : preserves (Stat p).
Proof. apply preserves_read. Qed.
Lemma preserves_StatInfo p : preserves (StatInfo p).
Proof.
  apply preserves_bind; [by intros w|]. intros k. apply preserves_bind; [apply preserves_Stat|].
  intros n. apply preserves_ret.
Qed.
Lemma preserves_Open p : preserves (Open p).
Proof. apply preserves_read. Qed.
Lemma preserves_ReadDir p : preserves (ReadDir p).
Proof. apply preserves_read. Qed.

Lemma preserves_WriteFile p c : preserves (WriteFile p c).
Proof.
  intros w Hw. change (wp (WriteFile p c) (λ _ w', wf_tree (wtree w')) w).
  apply wp_WriteFile; [done|]. intros. by apply wf_insert_file.
Qed.

Lemma preserves_Mkdir p : preserves (Mkdir p).
Proof.
  intros w Hw. change (wp (Mkdir p) (λ _ w', wf_tree (wtree w')) w).
  apply wp_Mkdir; [done|]. intros r n Hn Hr _. apply wf_insert_dir; [done|done|].
  destruct p as [|s p _] using rev_ind; [by left|]. right. exists p, s.
  split; [done|]. by eapply resolve_parent.
Qed.

Lemma preserves_MkdirAll p : preserves (MkdirAll p).
Proof.
  intros w Hw. unfold MkdirAll, write_step.
  assert (∀ n, wf_tree (fs_mkdir_all n (wtree w) p).2) as Hm.
  { intros n. unfold fs_mkdir_all. case_decide; [done|]. apply wf_mkdirs, Hw. done. }
  pose proof (Hm (length p)) as Hm'.
  destruct (fs_mkdir_all (length p) (wtree w) p) as [[[]|e] t'], (fault (tick w)); simpl; auto.
Qed.

Lemma preserves_Rename o d : preserves (Rename o d).
Proof.
  intros w Hw. change (wp (Rename o d) (λ _ w', wf_tree (wtree w')) w).
  apply wp_Rename; [done|]. intros r t' n E _. simpl.
  apply fs_rename_ok in E as (Hs & Hr & [[_ ->]|(Hu & -> & Hd)]); [done|].
  assert (o ≠ []) as Ho by (intros ->; apply Hu; by exists d).
  destruct (decide (d = [])) as [->|]; [|by apply wf_move].
  exfalso. destruct Hd as [Hd|[[[_ He] _]|[(c & z & Hd) _]]];
    [rewrite (wf_root _ Hw) in Hd; done| |rewrite (wf_root _ Hw) in Hd; done].
  rewrite empty_dir_spec in He. apply Ho, He; [|done]. by exists o.
Qed.

Lemma preserves_Remove p : preserves (Remove p).
Proof.
  intros w Hw. change (wp (Remove p) (λ _ w', wf_tree (wtree w')) w).
  apply wp_Remove; [done|]. intros r t' n E _. simpl.
  apply fs_remove_ok in E as [-> [(Hd & He & Hne)|(c & z & Hf)]].
  - apply wf_delete; [done|done|]. by apply empty_dir_spec.
  - apply wf_delete; [done| |].
    + intros ->. rewrite (wf_root _ Hw) in Hf. done.
    + intros q [k ->] Hs. destruct k as [|x k]; [by rewrite app_nil_r|].
      rewrite (wf_no_child _ p) in Hs by (congruence || done). by destruct Hs.
Qed.

Lemma preserves_RemoveAll p : preserves (RemoveAll p).
Proof.
  intros w Hw. unfold RemoveAll, write_step.
  destruct (decide (p = [])) as [->|Hne].
  - unfold fs_remove_all. simpl. destruct (fault (tick w)); done.
  - assert (wf_tree (fs_remove_all (wtree w) p).2) as Hm.
    { unfold fs_remove_all. repeat case_match; simpl; auto using wf_prune. }
    destruct (fs_remove_all (wtree w) p) as [[[]|e] t'], (fault (tick w)); simpl;
      auto using wf_prune.
Qed.
End preserves.

Create HintDb wf.
#[export] Hint Resolve preserves_ret preserves_throw preserves_of_result preserves_bind
  preserves_try preserves_ignore preserves_deferred preserves_guard preserves_now
  preserves_rand preserves_Stat preserves_StatInfo preserves_Open preserves_ReadDir preserves_WriteFile
  preserves_Mkdir preserves_MkdirAll preserves_Rename preserves_Remove
  preserves_RemoveAll : wf.

Lemma wp_wf {A} (m : M world A) Q w :
  preserves m → wf_tree (wtree w) → wp m (λ r w', wf_tree (wtree w') → Q r w') w → wp m Q w.
Proof. intros Hm Hw HQ. apply HQ. by apply Hm. Qed.

(** ** Listings *)
Lemma elem_of_entries t p s n :
  (s, n) ∈ entries t p ↔ t !! (p ++ [s]) = Some n ∧ "/"%char ∉ s.
Proof.
  unfold entries, sort_strings. rewrite list_elem_of_fmap. setoid_rewrite (merge_sort_Permutation str_le).
  setoid_rewrite list_elem_of_omap. setoid_rewrite elem_of_elements. setoid_rewrite elem_of_dom. split.
  - intros (s' & [= -> ->] & q & [x Hq] & Hc). unfold child_of in Hc.
    destruct (last q) as [l|]; [|done]. case_decide as Hd; [|done]. destruct Hd as [-> Hs].
    injection Hc as ->. by rewrite Hq.
  - intros [Hn Hs]. exists s. rewrite Hn. split; [done|]. exists (p ++ [s]). split; [by eexists|].
    unfold child_of. rewrite last_snoc. by rewrite decide_True.
Qed.

(** ** Checking a given tree *)
Definition parent_ok (t : tree) (p : path) : bool :=
  match p with
  | [] => true
  | _ => match t !! take (length p - 1) p with Some Dir => true | _ => false end
  end.
Definition wf_treeb (t : tree) : bool :=
  match t !! [] with Some Dir => true | _ => false end && forallb (parent_ok t) (map_to_list t).*1.

Lemma wf_treeb_ok t : wf_treeb t = true → wf_tree t.
Proof.
  unfold wf_treeb. intros [Hr Hp]%andb_prop. split.
  - by destruct (t !! []) as [[|]|].
  - intros p s [n Hn]. rewrite forallb_forall in Hp.
    specialize (Hp (p ++ [s])). unfold parent_ok in Hp.
    rewrite length_app in Hp. simpl in Hp. rewrite Nat.add_sub, take_app_length in Hp.
    assert (In (p ++ [s]) (map_to_list t).*1) as Hin.
    { apply list_elem_of_In, list_elem_of_fmap. exists (p ++ [s], n).
      split; [done|]. by apply elem_of_map_to_list. }
    specialize (Hp Hin). destruct (p ++ [s]) eqn:E; [by destruct p|].
    by destruct (t !! p) as [[|]|].
Qed.
