(* ===== verification/Atomic.v ===== *)
(** * Atomic writes: [src/internal/fsutil/atomic.go]

    A file is replaced by writing a temporary sibling and renaming it over
    the target. The names of temporary siblings and of staging directories
    and the functions that recognise them are modelled too. *)

From S2P Require Import Prelude Utf8 Strings Json Fs FsSpec.

Module Atomic.

Definition tempExtension : bytes := str ".tmp".
Definition tempSuffixLength : nat := 8.
Definition tempDirSuffixLength : nat := 6.
Definition randomAlphabet : bytes :=
  str "abcdefghijklmnopqrstuvwxyzABCDEFGHIJKLMNOPQRSTUVWXYZ0123456789".

Definition isRandomString (s : bytes) : bool :=
  forallb (λ c, bool_decide (c ∈ randomAlphabet)) s.

(** [stem[i]] where Go has checked the index. *)
Definition byte_at (s : bytes) (i : Z) : option ascii :=
  if decide (0 ≤ i)%Z then s !! Z.to_nat i else None.

Definition isTempFileName (name : bytes) : bool :=
  match CutSuffix name tempExtension with
  | None => false
  | Some stem =>
      let i := (Z.of_nat (length stem) - Z.of_nat tempSuffixLength - 1)%Z in
      (0 <? i)%Z && bool_decide (byte_at stem i = Some "."%char) &&
      isRandomString (drop (Z.to_nat (i + 1)) stem)
  end.

Definition isStagingDirName (name : bytes) : bool :=
  match CutSuffix name tempExtension with
  | None => false
  | Some stem =>
      let i := (Z.of_nat (length stem) - Z.of_nat tempDirSuffixLength - 1)%Z in
      (1 <? i)%Z && bool_decide (byte_at stem 0 = Some "."%char) &&
      bool_decide (byte_at stem i = Some "-"%char) &&
      isRandomString (drop (Z.to_nat (i + 1)) stem)
  end.

Definition IsTempName (name : bytes) : bool := isTempFileName name || isStagingDirName name.

(** The names [tempPath] and [TempDirName] make of a random suffix. *)
Definition temp_name (name suffix : bytes) : bytes :=
  name ++ str "." ++ suffix ++ tempExtension.
Definition temp_dir_name (b suffix : bytes) : bytes :=
  str "." ++ b ++ str "-" ++ suffix ++ tempExtension.

Section ops.
Context `{Machine}.

(** [func RandomString(n int) string] *)
Fixpoint RandomString (n : nat) : M world bytes :=
  match n with
  | 0 => mret []
  | S n =>
      i ← rand (length randomAlphabet);
      rest ← RandomString n;
      mret (default "a"%char (randomAlphabet !! i) :: rest)
  end.

(** [func tempPath(name string) string], on the last segment of a path. *)
Definition tempPath (name : path) : M world path :=
  suffix ← RandomString tempSuffixLength;
  mret (dirname name ++ [temp_name (base name) suffix]).

Definition TempDirName (b : bytes) : M world bytes :=
  suffix ← RandomString tempDirSuffixLength;
  mret (temp_dir_name b suffix).

(** [func WriteFileAtomic] *)
Definition WriteFileAtomic (name : path) (data : content) : M world unit :=
  tmpName ← tempPath name;
  r ← try (WriteFile tmpName data);
  match r with
  | Err e => ignore (Remove tmpName);; throw e
  | Ok _ =>
      r ← try (Rename tmpName name);
      match r with
      | Err e => ignore (Remove tmpName);; throw e
      | Ok _ => mret tt
      end
  end.

(** An [io.Reader]: the bytes it yields and the error it may end with. *)
Record reader := mkReader { rdata : bytes; rerr : option error }.

(** [io.Copy] into the open temporary file, and [Close]. *)
Definition copy_into (p : path) (r : reader) : M world unit :=
  WriteFile p (Raw (rdata r));;
  match rerr r with Some e => throw e | None => mret tt end.
Definition Close : M world unit := write_step (λ t, (Ok tt, t)) (λ _ _ t, t).

(** [func WriteAtomic] *)
Definition WriteAtomic (name : path) (r : reader) : M world unit :=
  tmpName ← tempPath name;
  opened ← try (WriteFile tmpName (Raw []));
  match opened with
  | Err e => ignore (Remove tmpName);; throw e
  | Ok _ =>
      copyErr ← try (copy_into tmpName r);
      closeErr ← try Close;
      match copyErr, closeErr with
      | Err e, _ => ignore (Remove tmpName);; throw e
      | Ok _, Err e => ignore (Remove tmpName);; throw e
      | Ok _, Ok _ =>
          renamed ← try (Rename tmpName name);
          match renamed with
          | Err e => ignore (Remove tmpName);; throw e
          | Ok _ => mret tt
          end
      end
  end.
End ops.

(** ** Temporary names *)
Lemma CutSuffix_app s : CutSuffix (s ++ tempExtension) tempExtension = Some s.
Proof. by apply CutSuffix_Some. Qed.

Lemma isRandomString_spec s : isRandomString s = true ↔ Forall (λ c, c ∈ randomAlphabet) s.
Proof.
  unfold isRandomString. rewrite forallb_forall, Forall_forall.
  setoid_rewrite <-list_elem_of_In. by setoid_rewrite bool_decide_eq_true.
Qed.

Lemma isTempFileName_temp_name name suffix :
  name ≠ [] → length suffix = tempSuffixLength → isRandomString suffix = true →
  isTempFileName (temp_name name suffix) = true.
Proof.
  intros Hne Hl Hr. unfold isTempFileName, temp_name. rewrite !app_assoc, CutSuffix_app.
  rewrite <-app_assoc, length_app. simpl length. rewrite Hl. unfold tempSuffixLength.
  assert (0 < length name) by (destruct name; simpl; [done|lia]).
  replace (Z.of_nat (length name + 9) - Z.of_nat 8 - 1)%Z with (Z.of_nat (length name)) by lia.
  apply andb_true_intro; split; [apply andb_true_intro; split|].
  - apply Z.ltb_lt. lia.
  - apply bool_decide_true. unfold byte_at. rewrite decide_True by lia. rewrite Nat2Z.id.
    by apply list_lookup_middle.
  - replace (Z.to_nat (Z.of_nat (length name) + 1)) with (length (name ++ ["."%char]))
      by (rewrite length_app; simpl; lia).
    change (to_bytes "." ++ suffix) with (["."%char] ++ suffix).
    by rewrite app_assoc, drop_app_length.
Qed.

(** Every name the predicate accepts is a temporary name of the shape
    [tempPath] makes: the recogniser takes no other file. *)
Lemma isTempFileName_inv n :
  isTempFileName n = true →
  ∃ name suffix, n = temp_name name suffix ∧ name ≠ [] ∧
    length suffix = tempSuffixLength ∧ isRandomString suffix = true.
Proof.
  unfold isTempFileName. destruct (CutSuffix n tempExtension) as [stem|] eqn:E; [|done].
  apply CutSuffix_Some in E as ->. unfold tempSuffixLength.
  intros [[Hi%Z.ltb_lt Hd%bool_decide_eq_true]%andb_prop Hr]%andb_prop.
  set (k := (length stem - 9)).
  replace (Z.of_nat (length stem) - Z.of_nat 8 - 1)%Z with (Z.of_nat k) in * by lia.
  unfold byte_at in Hd. rewrite decide_True, Nat2Z.id in Hd by lia.
  replace (Z.to_nat (Z.of_nat k + 1)) with (S k) in Hr by lia.
  exists (take k stem), (drop (S k) stem). split; [|split].
  - unfold temp_name. rewrite <-(take_drop_middle stem k "."%char) at 1 by done.
    change (to_bytes ".") with ["."%char]. by rewrite <-app_assoc.
  - intros E%(f_equal length). rewrite length_take in E. simpl in E. lia.
  - split; [rewrite length_drop; lia|done].
Qed.

(** ** The file is the old one or the new one *)

(** The siblings of [name] a write may leave behind. *)
Definition temp_of (name q : path) : Prop :=
  ∃ n, q = dirname name ++ [n] ∧ isTempFileName n = true.

Lemma dirname_base p : p ≠ [] → p = dirname p ++ [base p].
Proof.
  intros Hne. destruct p as [|s p _] using rev_ind; [done|].
  unfold dirname, base. rewrite last_snoc, length_app. simpl.
  by rewrite Nat.add_sub, take_app_length.
Qed.

Section atomic.
Context `{Machine}.

Lemma wp_RandomString n (Q : result error bytes → world → Prop) w :
  (∀ s k, length s = n → isRandomString s = true → Q (Ok s) (mkWorld (wtree w) k)) →
  wp (RandomString n) Q w.
Proof.
  revert Q w. induction n as [|n IH]; intros Q w HQ.
  { destruct w as [t k]. apply wp_ret. by apply (HQ [] k). }
  apply wp_bind, wp_rand. intros i k Hi. apply wp_bind, IH. intros s k' Hl Hr.
  apply wp_ret. apply HQ; [simpl; lia|]. simpl. apply andb_true_intro. split; [|done].
  apply bool_decide_true.
  destruct (lookup_lt_is_Some_2 randomAlphabet i) as [c Hc]; [apply Hi; simpl; lia|].
  rewrite Hc. simpl. by eapply list_elem_of_lookup_2.
Qed.

Lemma wp_tempPath name (Q : result error path → world → Prop) w :
  name ≠ [] → base name ≠ [] →
  (∀ tmp k, temp_of name tmp → tmp ≠ name → tmp ≠ [] → Q (Ok tmp) (mkWorld (wtree w) k)) →
  wp (tempPath name) Q w.
Proof.
  intros Hne Hb HQ. apply wp_bind, wp_RandomString. intros s k Hl Hr. apply wp_ret, HQ.
  - eexists. split; [done|]. by apply isTempFileName_temp_name.
  - intros E. apply (f_equal base) in E. unfold base at 1 in E.
    rewrite last_snoc in E. simpl in E. apply (f_equal length) in E. unfold temp_name in E. rewrite length_app in E.
    simpl in E. lia.
  - by destruct (dirname name).
Qed.

(** What a write of [name] may have done: the target holds what it held, or
    the new data; nothing else changed except temporary siblings. *)
Record replaced (name : path) (data : content → Prop) (t t' : tree) : Prop := {
  rep_target : t' !! name = t !! name ∨ ∃ c z, data c ∧ t' !! name = Some (File c z);
  rep_other q : q ≠ name → ¬ temp_of name q → t' !! q = t !! q;
}.

(** One more temporary file written, removed, or renamed over the target. *)
Lemma replaced_refl name data t : replaced name data t t.
Proof. split; auto. Qed.

Lemma replaced_temp name data t t' tmp n :
  replaced name data t t' → temp_of name tmp → tmp ≠ name →
  replaced name data t (<[tmp := n]> t').
Proof.
  intros [Ht Ho] Htmp Hne. split.
  - by rewrite lookup_insert_ne.
  - intros q Hq Hnt. rewrite lookup_insert_ne by (intros ->; done). by apply Ho.
Qed.

Lemma replaced_delete name data t t' tmp :
  replaced name data t t' → temp_of name tmp → tmp ≠ name →
  replaced name data t (delete tmp t').
Proof.
  intros [Ht Ho] Htmp Hne. split.
  - by rewrite lookup_delete_ne.
  - intros q Hq Hnt. rewrite lookup_delete_ne by (intros ->; done). by apply Ho.
Qed.

Lemma temp_sibling_under name tmp : temp_of name tmp → name ≠ [] → tmp ≠ name → ¬ under tmp name.
Proof.
  intros (n & -> & _) Hne Hneq [k Hk]. apply Hneq.
  rewrite (dirname_base name Hne) in Hk at 1. rewrite <-app_assoc in Hk.
  apply app_inv_head in Hk. destruct k; [|done]. simpl in Hk. simplify_eq.
  symmetry. rewrite (dirname_base name Hne) at 1. congruence.
Qed.

(** A move of the temporary file over the target is an insertion. *)
Lemma move_temp t tmp name c z q :
  wf_tree t → t !! tmp = Some (File c z) → t !! name ≠ Some Dir →
  move t tmp name !! q =
  if decide (q = name) then Some (File c z) else if decide (q = tmp) then None else t !! q.
Proof.
  intros Hwf Htmp Hname. rewrite lookup_move.
  destruct (decide (under name q)) as [[k ->]|Hn].
  - rewrite drop_app_length. destruct k as [|x k].
    + rewrite !app_nil_r. by rewrite decide_True.
    + rewrite decide_False by (intros E%(f_equal length); rewrite length_app in E; simpl in E; lia).
      rewrite (wf_no_child t tmp) by (done || congruence).
      case_decide; [done|]. by rewrite (wf_no_child t name).
  - rewrite (decide_False (P := q = name)) by (intros ->; auto).
    destruct (decide (under tmp q)) as [[k ->]|Ht].
    + case_decide as Hk; [done|]. rewrite (wf_no_child t tmp); [done..|congruence|].
      intros ->. by rewrite app_nil_r in Hk.
    + rewrite (decide_False (P := q = tmp)) by (intros ->; auto). done.
Qed.

(** Renaming the finished temporary file over the target. *)
Lemma wp_rename_over name tmp c z data (Q : result error unit → world → Prop) t0 w :
  wf_tree (wtree w) → temp_of name tmp → tmp ≠ name → name ≠ [] →
  wtree w !! tmp = Some (File c z) → data c →
  replaced name data t0 (wtree w) →
  (∀ e w', replaced name data t0 (wtree w') → Q (Err e) w') →
  (∀ w', replaced name data t0 (wtree w') → wtree w' !! name = Some (File c z) →
    wtree w' !! tmp = None → Q (Ok tt) w') →
  wp (renamed ← try (Rename tmp name);
      match renamed with
      | Err e => ignore (Remove tmp);; throw e
      | Ok _ => mret tt
      end) Q w.
Proof.
  intros Hwf Htmp Hne Hnn Hc Hdata Hrep HE HO.
  assert (∀ w' e, replaced name data t0 (wtree w') →
    wp (ignore (Remove tmp);; throw e) Q w') as Hcleanup.
  { intros w' e Hr. apply wp_bind, wp_ignore, wp_Remove.
    - intros e' n _. by apply wp_throw, HE.
    - intros r t' n [-> _]%fs_remove_ok _. apply wp_throw, HE. by apply replaced_delete. }
  apply wp_bind, wp_try, wp_Rename; [intros e n _; by apply Hcleanup|].
  intros r t' n E Hr. apply fs_rename_ok in E as (_ & _ & [[? _]|(Hnu & -> & Hd)]); [done|].
  assert (wtree w !! name ≠ Some Dir) as Hnd.
  { intros Hdir. destruct Hd as [?|[[_ ?]|[(? & ? & ?) _]]]; congruence. }
  assert (replaced name data t0 (move (wtree w) tmp name)) as Hrep'.
  { destruct Hrep as [_ Ho]. split.
    - right. exists c, z. split; [done|]. by rewrite (move_temp _ _ _ c z), decide_True.
    - intros q Hq Hnt. rewrite (move_temp _ _ _ c z), !decide_False by (done || intros ->; done).
      by apply Ho. }
  destruct Hr as [-> | ->]; [|by apply Hcleanup].
  apply wp_ret, HO; simpl; [done|..]; rewrite (move_temp _ _ _ c z) by done.
  - by rewrite decide_True.
  - by rewrite decide_False, decide_True.
Qed.

(** The rule of the whole write. *)
Lemma wp_WriteFileAtomic name data (Q : result error unit → world → Prop) w :
  wf_tree (wtree w) → name ≠ [] → base name ≠ [] →
  (∀ e w', replaced name (eq data) (wtree w) (wtree w') → Q (Err e) w') →
  (∀ z w', replaced name (eq data) (wtree w) (wtree w') →
    wtree w' !! name = Some (File data z) → Q (Ok tt) w') →
  wp (WriteFileAtomic name data) Q w.
Proof.
  intros Hwf Hne Hb HE HO. unfold WriteFileAtomic.
  apply wp_bind, wp_tempPath; [done..|]. intros tmp k Htmp Hnt Htn.
  assert (∀ w' e, replaced name (eq data) (wtree w) (wtree w') →
    wp (ignore (Remove tmp);; throw e) Q w') as Hcleanup.
  { intros w' e Hr. apply wp_bind, wp_ignore, wp_Remove.
    - intros e' n _. by apply wp_throw, HE.
    - intros r t' n [-> _]%fs_remove_ok _. apply wp_throw, HE. by apply replaced_delete. }
  apply wp_bind, wp_try, wp_WriteFile.
  - intros e n. apply Hcleanup, replaced_refl.
  - intros r c' z n Hd _ Hres Hr. simpl in *.
    assert (replaced name (eq data) (wtree w) (<[tmp:=File c' z]> (wtree w))) as Hrep
      by (apply replaced_temp; [apply replaced_refl|done..]).
    destruct Hr as [[-> ->]| ->]; [|by apply Hcleanup].
    eapply (wp_rename_over name tmp data z (eq data)); simpl; try done.
    + by apply wf_insert_file.
    + by rewrite lookup_insert_eq.
    + intros w' Hr' Hl _. by eapply HO.
Qed.

(** Claim C38: replacing a file is all or nothing. Whatever fails and
    wherever, the target afterwards holds its old content or all of the new
    one, a reported success means the new one, and no other file changes but
    temporary siblings, whose names [IsTempName] recognises. *)
Theorem WriteFileAtomic_old_or_new name data w :
  wf_tree (wtree w) → name ≠ [] → base name ≠ [] →
  let '(r, w') := WriteFileAtomic name data w in
  (wtree w' !! name = wtree w !! name ∨ ∃ z, wtree w' !! name = Some (File data z)) ∧
  (r = Ok tt → ∃ z, wtree w' !! name = Some (File data z)) ∧
  (∀ q, q ≠ name → ¬ temp_of name q → wtree w' !! q = wtree w !! q).
Proof.
  intros Hwf Hne Hb. assert (wp (WriteFileAtomic name data) (λ r w',
    replaced name (eq data) (wtree w) (wtree w') ∧
    (r = Ok tt → ∃ z, wtree w' !! name = Some (File data z))) w) as Hwp.
  { apply wp_WriteFileAtomic; [done..| |]; intros; (split; [done|]); [done|eauto]. }
  unfold wp in Hwp. destruct (WriteFileAtomic name data w) as [r w'].
  destruct Hwp as [[Ht Ho] Hok]. split; [|by split]. destruct Ht as [?|(c & z & <- & ?)]; eauto.
Qed.


(** [WriteAtomic], which streams the data, has the same contract. *)
Lemma wp_WriteAtomic name rd (Q : result error unit → world → Prop) w :
  wf_tree (wtree w) → name ≠ [] → base name ≠ [] →
  (∀ e w', replaced name (eq (Raw (rdata rd))) (wtree w) (wtree w') → Q (Err e) w') →
  (∀ z w', replaced name (eq (Raw (rdata rd))) (wtree w) (wtree w') → rerr rd = None →
    wtree w' !! name = Some (File (Raw (rdata rd)) z) → Q (Ok tt) w') →
  wp (WriteAtomic name rd) Q w.
Proof.
  intros Hwf Hne Hb HE HO. unfold WriteAtomic.
  apply wp_bind, wp_tempPath; [done..|]. intros tmp k Htmp Hnt Htn.
  set (rep := replaced name (eq (Raw (rdata rd))) (wtree w)).
  assert (∀ w' e, rep (wtree w') → wp (ignore (Remove tmp);; throw e) Q w') as Hcleanup.
  { intros w' e Hr. apply wp_bind, wp_ignore, wp_Remove.
    - intros e' n _. by apply wp_throw, HE.
    - intros r t' n [-> _]%fs_remove_ok _. apply wp_throw, HE. by apply replaced_delete. }
  assert (∀ t' c z, rep t' → rep (<[tmp := File c z]> t')) as Htmpw
    by (intros; by apply replaced_temp).
  apply wp_bind, wp_try, wp_WriteFile; [intros; apply Hcleanup, replaced_refl|].
  intros r c z n Hnd _ Hres Hr. simpl in *.
  assert (rep (<[tmp:=File c z]> (wtree w))) as Hrep by apply Htmpw, replaced_refl.
  assert (wf_tree (<[tmp:=File c z]> (wtree w))) as Hwf1 by (by apply wf_insert_file).
  destruct r as [[]|e]; [|by apply Hcleanup].
  apply wp_bind, wp_try.
  apply (wp_mono _ (λ r w', rep (wtree w') ∧ wf_tree (wtree w') ∧
    (r = Ok tt → rerr rd = None ∧ ∃ z, wtree w' !! tmp = Some (File (Raw (rdata rd)) z)))).
  { apply wp_bind, wp_WriteFile; [done|]. intros r c' z' n' Hnd' _ Hres' Hr'. simpl in *.
    assert (wf_tree (<[tmp:=File c' z']> (<[tmp:=File c z]> (wtree w))))
      by (by apply wf_insert_file).
    destruct Hr' as [[-> ->]| ->]; [|split_and!; [by apply Htmpw|done|done]].
    destruct (rerr rd); (split; [by apply Htmpw|]); (split; [done|]); [done|].
    intros _. split; [done|]. exists z'. simpl. by rewrite lookup_insert_eq. }
  intros copyErr w1 (Hrep1 & Hwf2 & Hcopy). apply wp_bind, wp_try. unfold Close.
  apply wp_write; [by intros ? ? ? ?; simplify_eq|].
  intros closeErr t' n' Hclose.
  assert (t' = wtree w1) as -> by (inversion Hclose; by simplify_eq).
  destruct copyErr as [[]|e]; [|by apply Hcleanup].
  destruct Hcopy as [Hre [z' Hz]]; [done|].
  destruct closeErr as [[]|e]; [|by apply Hcleanup].
  eapply (wp_rename_over name tmp _ z' (eq (Raw (rdata rd)))); simpl; try done.
  intros w' Hr' Hl _. by eapply HO.
Qed.

Lemma preserves_RandomString n : preserves (RandomString n).
Proof. induction n; simpl; eauto with wf. Qed.
Lemma preserves_tempPath p : preserves (tempPath p).
Proof. unfold tempPath. eauto using preserves_RandomString with wf. Qed.
Lemma preserves_TempDirName b : preserves (TempDirName b).
Proof. unfold TempDirName. eauto using preserves_RandomString with wf. Qed.
Lemma preserves_Close : preserves Close.
Proof. intros w Hw. unfold Close, write_step. by destruct (fault (tick w)). Qed.

Lemma preserves_WriteFileAtomic p c : preserves (WriteFileAtomic p c).
Proof.
  unfold WriteFileAtomic. apply preserves_bind; [apply preserves_tempPath|]. intros tmp.
  apply preserves_bind; [auto with wf|]. intros [[]|e]; [|auto with wf].
  apply preserves_bind; [auto with wf|]. intros [[]|e]; auto with wf.
Qed.

Lemma preserves_WriteAtomic p r : preserves (WriteAtomic p r).
Proof.
  unfold WriteAtomic. apply preserves_bind; [apply preserves_tempPath|]. intros tmp.
  apply preserves_bind; [auto with wf|]. intros [[]|e]; [|auto with wf].
  apply preserves_bind; [|intros copyErr].
  { apply preserves_try. unfold copy_into. apply preserves_bind; [auto with wf|].
    intros _. destruct (rerr r); auto with wf. }
  apply preserves_bind; [apply preserves_try, preserves_Close|]. intros closeErr.
  destruct copyErr, closeErr; auto with wf.
  apply preserves_bind; [auto with wf|]. intros [[]|e]; auto with wf.
Qed.

End atomic.

#[export] Hint Resolve preserves_RandomString preserves_tempPath preserves_TempDirName
  preserves_WriteFileAtomic preserves_WriteAtomic : wf.

End Atomic.
