(* ===== verification/ShelfUtil.v ===== *)
(** * Path segments, ignore rules and content rules:
    [src/shelf/internal/shelfutil/shelfutil.go] and [src/shelf/folderpath.go]

    Names from users and from files pass these checks before they reach the
    file system. The case tables of package [unicode] are abstract
    ([ToLower], [SimpleFold]); [SimpleFold_orbit] is the documented property
    of [unicode.SimpleFold] the loop of [minFold] relies on. *)

From S2P Require Import Prelude Utf8 Strings Fs.

Class UnicodeCase := {
  ToLower : Z → Z;
  SimpleFold : Z → Z;
}.

(** "SimpleFold iterates over Unicode code points equivalent under simple
    case folding": it comes back to its start. *)
Class UnicodeCaseLaws `{UnicodeCase} : Prop := {
  SimpleFold_orbit r : ∃ k, k < 4 ∧ Nat.iter (S k) SimpleFold r = r;
}.

Module ShelfUtil.

Definition BookFormatText : bytes := str "txt".
Definition BookFormatMarkdown : bytes := str "md".
Definition BookFormatImages : bytes := str "images".
Definition maxPathSegmentLength : nat := 255.

(** [func ValidateBookFormat] *)
Definition ValidateBookFormat (format : bytes) : bool :=
  bool_decide (format ∈ [[]; BookFormatText; BookFormatMarkdown; BookFormatImages]).

(** [func ValidateFolderSegment] *)
Definition ValidateFolderSegment (segment : bytes) : result error unit :=
  if decide (segment = []) then Err ErrInvalidSegment else
  if decide (segment = str "." ∨ segment = str "..") then Err ErrInvalidSegment else
  if ContainsAny segment (str "/\") then Err ErrInvalidSegment else
  if negb (Utf8.ValidString segment) then Err ErrInvalidSegment else
  if decide (maxPathSegmentLength < length segment) then Err ErrInvalidSegment else
  Ok tt.

(** [func ValidatePathSegment] and [func ValidateSourceID] *)
Definition ValidatePathSegment (segment : bytes) : result error unit :=
  _ ← ValidateFolderSegment segment ;;!
  if HasPrefix segment (str ".") then Err ErrInvalidSegment else Ok tt.
Definition ValidateSourceID (sourceID : bytes) : result error unit :=
  ValidatePathSegment sourceID.

(** [bcp47Regex]: a language of two or three letters and subtags of two to
    eight letters or digits. *)
Definition is_letter (c : ascii) : bool :=
  let v := byte_val c in
  ((65 <=? v) && (v <=? 90) || (97 <=? v) && (v <=? 122))%Z.
Definition is_digit (c : ascii) : bool :=
  let v := byte_val c in ((48 <=? v) && (v <=? 57))%Z.
Definition subtag (s : bytes) : bool :=
  Nat.leb 2 (length s) && Nat.leb (length s) 8 && forallb (λ c, is_letter c || is_digit c) s.
Definition bcp47 (s : bytes) : bool :=
  match Split s "-"%char with
  | lang :: subs =>
      Nat.leb 2 (length lang) && Nat.leb (length lang) 3 && forallb is_letter lang
      && forallb subtag subs
  | [] => false
  end.

(** [func ValidateBCP47] *)
Definition ValidateBCP47 (lang : bytes) : bool :=
  let lang := TrimSpace lang in
  bool_decide (lang = []) || bcp47 lang.

(** ** Case folding *)
Definition encode_rune (r : Z) : bytes :=
  let b z := Stdlib.Strings.Ascii.ascii_of_N (Z.to_N z) in
  let r := if ((r <? 0) || (1114111 <? r) || ((55296 <=? r) && (r <=? 57343)))%Z
           then Utf8.RuneError else r in
  if (r <=? 127)%Z then [b r]
  else if (r <=? 2047)%Z then [b (192 + r / 64)%Z; b (128 + r mod 64)%Z]
  else if (r <=? 65535)%Z then
    [b (224 + r / 4096)%Z; b (128 + r / 64 mod 64)%Z; b (128 + r mod 64)%Z]
  else
    [b (240 + r / 262144)%Z; b (128 + r / 4096 mod 64)%Z; b (128 + r / 64 mod 64)%Z;
     b (128 + r mod 64)%Z].

(** [strings.Map] *)
Definition map_runes (f : Z → Z) (s : bytes) : bytes :=
  concat ((λ r, let m := f (Utf8.decode_rune r).1 in
                if (m <? 0)%Z then [] else encode_rune m) <$> Utf8.runes s).

Section rules.
Context `{UnicodeCase}.

(** [strings.ToLower] *)
Definition lower (s : bytes) : bytes := map_runes ToLower s.

(** [func minFold]: the loop around the folding orbit; orbits have at most
    four runes. *)
Fixpoint minFold_loop (fuel : nat) (r smallest folded : Z) : Z :=
  match fuel with
  | 0 => smallest
  | S fuel =>
      if (folded =? r)%Z then smallest
      else minFold_loop fuel r (Z.min smallest folded) (SimpleFold folded)
  end.
Definition minFold (r : Z) : Z := minFold_loop 4 r r (SimpleFold r).

(** [func foldSegment] *)
Definition foldSegment (segment : bytes) : bytes := map_runes (λ r, minFold (ToLower r)) segment.

(** *** Ignored directories *)
Record IgnoredDir := mkIgnoredDir { Name : bytes; Reason : bytes }.
Definition DirIgnoreReasonHidden : bytes := str "hidden directories are never folders".
Definition DefaultIgnoredDirs : list IgnoredDir :=
  [mkIgnoredDir (str "@eaDir") (str "Synology index and thumbnail sidecar");
   mkIgnoredDir (str "#recycle") (str "Synology network recycle bin");
   mkIgnoredDir (str "$RECYCLE.BIN") (str "Windows recycle bin, visible over SMB");
   mkIgnoredDir (str "lost+found") (str "ext filesystem recovery directory")].

(** [IgnoreRules] is its map [byName]. *)
Definition NewIgnoreRules (dirs : list IgnoredDir) : gmap bytes IgnoredDir :=
  foldl (λ m dir, if decide (Name dir = []) then m else <[lower (Name dir) := dir]> m) ∅ dirs.
Definition MatchIgnoredDir (r : gmap bytes IgnoredDir) (name : bytes) : option bytes :=
  if HasPrefix name (str ".") then Some DirIgnoreReasonHidden
  else Reason <$> r !! lower name.
Definition IsIgnoredDir (r : gmap bytes IgnoredDir) (name : bytes) : bool :=
  bool_decide (is_Some (MatchIgnoredDir r name)).
Definition Names (r : gmap bytes IgnoredDir) : list bytes :=
  sort_strings (Name <$> (map_to_list r).*2).

(** *** Folders marked as adult content *)
Record NSFWFolder := mkNSFWFolder { Path : bytes; NReason : bytes }.

(** [func normalizeFolderPath] *)
Definition normalizeFolderPath (folderPath : bytes) : result error bytes :=
  let segments := filter (λ s, s ≠ []) (Split folderPath "/"%char) in
  if existsb (λ s, negb (is_ok (ValidateFolderSegment s))) segments
  then Err ErrInvalidSegment else
  if decide (segments = []) then Err (Msg "names no folder")
  else Ok (Join (foldSegment <$> segments) (str "/")).

Definition ValidateNSFWFolderPath (folderPath : bytes) : result error unit :=
  _ ← normalizeFolderPath folderPath ;;! Ok tt.

(** [NSFWRules] is its map [byPath]. *)
Definition NewNSFWRules (folders : list NSFWFolder) : gmap bytes NSFWFolder :=
  foldl (λ m folder,
    match normalizeFolderPath (Path folder) with
    | Err _ => m
    | Ok key => <[key := folder]> m
    end) ∅ folders.

(** [func (r NSFWRules) Match]: [key] is the builder's content. *)
Fixpoint Match_loop (r : gmap bytes NSFWFolder) (key : bytes) (folders : list bytes) :
    option NSFWFolder :=
  match folders with
  | [] => None
  | segment :: folders =>
      let key := (if decide (0 < length key) then key ++ str "/" else key) ++ foldSegment segment in
      match r !! key with
      | Some folder => Some folder
      | None => Match_loop r key folders
      end
  end.
Definition Match (r : gmap bytes NSFWFolder) (folders : list bytes) : option NSFWFolder :=
  if decide (size r = 0) then None else Match_loop r [] folders.
Definition IsNSFWFolder (r : gmap bytes NSFWFolder) (folders : list bytes) : bool :=
  bool_decide (is_Some (Match r folders)).
Definition HasFolders (r : gmap bytes NSFWFolder) : bool := bool_decide (0 < size r).
Definition Paths (r : gmap bytes NSFWFolder) : list bytes :=
  sort_strings (Path <$> (map_to_list r).*2).
End rules.

(** ** Folder paths ([folderpath.go]) *)
Abbreviation FolderPath := (list bytes).
Definition String (l : FolderPath) : bytes := Join l (str "/").
Definition Equal (l other : FolderPath) : bool := bool_decide (l = other).
Definition FPHasPrefix (l prefix : FolderPath) : bool :=
  Nat.leb (length prefix) (length l) && bool_decide (take (length prefix) l = prefix).

(** ** What the checks guarantee *)

Lemma ValidateFolderSegment_ok s :
  ValidateFolderSegment s = Ok tt →
  segment s ∧ ("\"%char ∉ s) ∧ Utf8.ValidString s = true ∧ length s ≤ 255.
Proof.
  unfold ValidateFolderSegment, segment, maxPathSegmentLength. intros H.
  destruct (decide (s = [])); [done|].
  destruct (decide (s = str "." ∨ s = str "..")); [done|].
  destruct (ContainsAny s _) eqn:Hc; [done|].
  destruct (Utf8.ValidString s) eqn:Hv; [|done].
  destruct (decide (255 < length s)); [done|].
  unfold ContainsAny in Hc.
  assert (∀ c, c ∈ str "/\" → c ∉ s) as Hn.
  { intros c Hin Hs. apply not_true_iff_false in Hc. apply Hc, existsb_exists.
    exists c. split; [by apply list_elem_of_In|]. by apply bool_decide_true. }
  assert ("/"%char ∈ str "/\" ∧ "\"%char ∈ str "/\") as [Hs Hb] by (simpl; set_solver).
  split_and!; first [naive_solver|by apply Hn|lia].
Qed.

Lemma ValidatePathSegment_ok s :
  ValidatePathSegment s = Ok tt →
  ValidateFolderSegment s = Ok tt ∧ ¬ (str "." `prefix_of` s).
Proof.
  unfold ValidatePathSegment, HasPrefix. destruct (ValidateFolderSegment s) as [[]|]; [|done].
  simpl. case_bool_decide; done.
Qed.

(** a name the checks accept is one segment: joined to a path it
    adds exactly itself below that path, so it cannot climb out of it with
    dots or separators. *)
Theorem ValidateFolderSegment_contained p s :
  ValidateFolderSegment s = Ok tt → pjoin p s = p ++ [s].
Proof. intros [Hs _]%ValidateFolderSegment_ok. by apply pjoin_segment. Qed.

Lemma ValidateFolderSegment_contained_witness :
  pjoin [str "books"] (str "..a b") = [str "books"; str "..a b"].
Proof. apply ValidateFolderSegment_contained. vm_compute. reflexivity. Defined.

Section nsfw.
Context `{UnicodeCase}.

(** The keys a path is looked up by: one for each of its prefixes. *)
Definition prefix_key (folders : list bytes) (n : nat) : bytes :=
  Join (foldSegment <$> take n folders) (str "/").

Lemma Join_snoc (l : list bytes) w sep :
  Join (l ++ [w]) sep = if decide (l = []) then w else Join l sep ++ sep ++ w.
Proof.
  induction l as [|x l IH]; [done|]. simpl in *. destruct l as [|y l]; [done|].
  simpl in *. rewrite IH. simpl. by rewrite <-!app_assoc.
Qed.

Lemma Match_loop_spec r pre rest :
  Forall (λ s, foldSegment s ≠ []) (pre ++ rest) →
  is_Some (Match_loop r (prefix_key (pre ++ rest) (length pre)) rest) ↔
  ∃ n, length pre < n ≤ length (pre ++ rest) ∧ is_Some (r !! prefix_key (pre ++ rest) n).
Proof.
  revert pre. induction rest as [|s rest IH]; intros pre Hne; cbn [Match_loop].
  { rewrite app_nil_r. split; [by intros []|]. intros (n & ? & _). lia. }
  assert (prefix_key (pre ++ s :: rest) (S (length pre)) =
    (if decide (0 < length (prefix_key (pre ++ s :: rest) (length pre)))
     then prefix_key (pre ++ s :: rest) (length pre) ++ str "/"
     else prefix_key (pre ++ s :: rest) (length pre)) ++ foldSegment s) as <-.
  { unfold prefix_key. rewrite (take_S_r _ _ s) by (by apply list_lookup_middle).
    rewrite take_app_length, fmap_app. simpl. rewrite Join_snoc.
    destruct pre as [|s0 pre]; [done|]. simpl fmap. rewrite decide_False by done.
    rewrite decide_True; [by rewrite <-app_assoc|].
    apply Forall_cons in Hne as [Hs0 _].
    assert (0 < length (foldSegment s0)) by (destruct (foldSegment s0); simpl; [done|lia]).
    simpl. destruct (list_fmap _ _ _ pre); simpl; rewrite ?length_app; simpl; lia. }
  assert (∀ (x : option NSFWFolder), is_Some (match r !! prefix_key (pre ++ s :: rest) (S (length pre)) with
      | Some folder => Some folder | None => x end) ↔
    is_Some (r !! prefix_key (pre ++ s :: rest) (S (length pre))) ∨ is_Some x) as ->.
  { intros x. destruct (r !! _); [|naive_solver]. split; [by left; eexists|by eexists]. }
  specialize (IH (pre ++ [s])). rewrite <-app_assoc in IH. simpl in IH.
  rewrite length_app, Nat.add_1_r in IH. rewrite IH by done. rewrite !length_app. simpl.
  split.
  - intros [?|(n & ? & ?)]; [exists (S (length pre))|exists n]; (split; [lia|done]).
  - intros (n & ? & ?). destruct (decide (n = S (length pre))) as [->|]; [by left|].
    right. exists n. split; [lia|done].
Qed.

Lemma NewNSFWRules_lookup rules k :
  is_Some (NewNSFWRules rules !! k) ↔
  ∃ rule, rule ∈ rules ∧ normalizeFolderPath (Path rule) = Ok k.
Proof.
  unfold NewNSFWRules. induction rules as [|rule rules IH] using rev_ind; simpl.
  { rewrite lookup_empty. split; [by intros []|]. intros (? & ?%elem_of_nil & _). done. }
  rewrite foldl_app. simpl. setoid_rewrite elem_of_app. setoid_rewrite list_elem_of_singleton.
  destruct (normalizeFolderPath (Path rule)) as [k'|e] eqn:E.
  - destruct (decide (k' = k)) as [->|Hne].
    + rewrite lookup_insert_eq. split; [intros _|by eexists]. exists rule. auto.
    + rewrite lookup_insert_ne, IH by done. naive_solver congruence.
  - rewrite IH. naive_solver congruence.
Qed.

(** a folder is adult content exactly when one of its non-empty
    prefixes, case folded segment by segment, is the folder of a usable rule
    of the configuration: a rule marks its folder and everything below it. *)
Theorem IsNSFWFolder_rules rules folders :
  Forall (λ s, foldSegment s ≠ []) folders →
  IsNSFWFolder (NewNSFWRules rules) folders = true ↔
  ∃ n rule, 0 < n ≤ length folders ∧ rule ∈ rules ∧
    normalizeFolderPath (Path rule) = Ok (Join (foldSegment <$> take n folders) (str "/")).
Proof.
  intros Hne. unfold IsNSFWFolder. rewrite bool_decide_eq_true. unfold Match.
  destruct (decide (size (NewNSFWRules rules) = 0)) as [Hs|Hs].
  - apply map_size_empty_inv in Hs as He. split; [intros Hx; by destruct Hx|].
    intros (n & rule & _ & Hin & Hk).
    assert (is_Some (NewNSFWRules rules !! Join (foldSegment <$> take n folders) (str "/")))
      as Hl by (apply NewNSFWRules_lookup; eauto).
    rewrite He, lookup_empty in Hl. by destruct Hl.
  - etrans; [apply (Match_loop_spec _ [] folders Hne)|].
    setoid_rewrite NewNSFWRules_lookup. unfold prefix_key. simpl. naive_solver.
Qed.
End nsfw.

(** ASCII case tables, for the witnesses. *)
Definition ascii_lower (r : Z) : Z := if ((65 <=? r) && (r <=? 90))%Z then (r + 32)%Z else r.
Definition ascii_fold (r : Z) : Z :=
  if ((65 <=? r) && (r <=? 90))%Z then (r + 32)%Z
  else if ((97 <=? r) && (r <=? 122))%Z then (r - 32)%Z else r.
Definition AsciiCase : UnicodeCase := Build_UnicodeCase ascii_lower ascii_fold.

Lemma IsNSFWFolder_rules_witness :
  IsNSFWFolder (H := AsciiCase) (NewNSFWRules (H := AsciiCase) [mkNSFWFolder (str "Art/Nudes") []])
    [str "art"; str "NUDES"; str "1920"] = true.
Proof.
  apply (IsNSFWFolder_rules (H := AsciiCase)).
  - apply (bool_decide_unpack _). vm_compute. exact I.
  - exists 2, (mkNSFWFolder (str "Art/Nudes") []).
    split; [simpl; lia|]. split; [left|vm_compute; reflexivity].
Defined.

End ShelfUtil.
