(* ===== verification/BookMeta.v ===== *)
(** * Metadata documents: [BookMeta] of [src/shelf/bookpkg/book.go] and
    [SourceMeta] of [source.go]

    The records with their JSON members, as the struct tags declare them, and
    [FileStat] ([filestate.go]). [book_decode_encode] and [source_decode_encode] theorems say that what is
    written reads back. *)

From S2P Require Import Prelude Utf8 Strings Json Fs FsSpec.

(** [json.UnmarshalRead] of a whole file; what is not a document of the
    wanted shape is [ErrMalformedMetadata] ([metaerror.go]). *)
Definition unmarshal {A} (dec : json → option A) (c : content) : option A :=
  match c with
  | Doc j => if Json.unique_names j then dec j else None
  | Raw _ => None
  end.

Module FileStat.
Record FileStat := mkFileStat { ModTime : Z; Size : Z }.

(** [func (f *FileStat) Equal] *)
Definition Equal (f other : FileStat) : bool :=
  (ModTime f =? ModTime other)%Z && (Size f =? Size other)%Z.

(** [func getFileStat] *)
Definition getFileStat `{Machine} (p : path) : M world FileStat :=
  info ← StatInfo p;
  mret (mkFileStat info.2.1 info.2.2).
End FileStat.

Module BookMeta.
Import Json.

Definition BookMetaSchemaVersion : Z := 1.

Record BookMeta := mkBookMeta {
  SchemaVersion : Z;
  ID : bytes;
  Title : bytes;
  Format : bytes;
  Tags : list bytes;
  Identifiers : gmap bytes bytes;
  Cover : bytes;
  Authors : list bytes;
  Language : bytes;
  Comments : bytes;
  Star : Z;
  NSFW : bool;
  CreatedAt : Z;
  UpdatedAt : Z;
  PublishedAt : Z;
  CurrentSource : bytes;
}.

#[export] Instance BookMeta_eq_dec : EqDecision BookMeta.
Proof. solve_decision. Defined.

Definition set_SchemaVersion (v : Z) (m : BookMeta) : BookMeta :=
  mkBookMeta v (ID m) (Title m) (Format m) (Tags m) (Identifiers m) (Cover m) (Authors m)
    (Language m) (Comments m) (Star m) (NSFW m) (CreatedAt m) (UpdatedAt m) (PublishedAt m)
    (CurrentSource m).
Definition set_ID (v : bytes) (m : BookMeta) : BookMeta :=
  mkBookMeta (SchemaVersion m) v (Title m) (Format m) (Tags m) (Identifiers m) (Cover m)
    (Authors m) (Language m) (Comments m) (Star m) (NSFW m) (CreatedAt m) (UpdatedAt m)
    (PublishedAt m) (CurrentSource m).
Definition set_Format (v : bytes) (m : BookMeta) : BookMeta :=
  mkBookMeta (SchemaVersion m) (ID m) (Title m) v (Tags m) (Identifiers m) (Cover m)
    (Authors m) (Language m) (Comments m) (Star m) (NSFW m) (CreatedAt m) (UpdatedAt m)
    (PublishedAt m) (CurrentSource m).
Definition set_Cover (v : bytes) (m : BookMeta) : BookMeta :=
  mkBookMeta (SchemaVersion m) (ID m) (Title m) (Format m) (Tags m) (Identifiers m) v
    (Authors m) (Language m) (Comments m) (Star m) (NSFW m) (CreatedAt m) (UpdatedAt m)
    (PublishedAt m) (CurrentSource m).
Definition set_CurrentSource (v : bytes) (m : BookMeta) : BookMeta :=
  mkBookMeta (SchemaVersion m) (ID m) (Title m) (Format m) (Tags m) (Identifiers m) (Cover m)
    (Authors m) (Language m) (Comments m) (Star m) (NSFW m) (CreatedAt m) (UpdatedAt m)
    (PublishedAt m) v.

Section codec.
Context `{TimeText}.

(** The members [json.Marshal] writes, in the order of the fields. *)
Definition members (m : BookMeta) : list field :=
  [("schema_version", true, JInt (SchemaVersion m));
   ("id", true, JStr (ID m));
   ("title", true, JStr (Title m));
   ("format", negb (bool_decide (Format m = [])), JStr (Format m));
   ("tags", negb (bool_decide (Tags m = [])), enc_strings (Tags m));
   ("identifiers", negb (bool_decide (Identifiers m = ∅)), enc_string_map (Identifiers m));
   ("cover", true, JStr (Cover m));
   ("authors", true, enc_strings (Authors m));
   ("language", true, JStr (Language m));
   ("comments", true, JStr (Comments m));
   ("star", true, JInt (Star m));
   ("nsfw", NSFW m, JBool (NSFW m));
   ("created_at", negb (JSONTime.IsZero (CreatedAt m)), JSONTime.MarshalJSON (CreatedAt m));
   ("updated_at", negb (JSONTime.IsZero (UpdatedAt m)), JSONTime.MarshalJSON (UpdatedAt m));
   ("published_at", negb (JSONDate.IsZero (PublishedAt m)), JSONDate.MarshalJSON (PublishedAt m));
   ("current_source", true, JStr (CurrentSource m))]%string.
Definition encode (m : BookMeta) : json := written (members m).

(** [json.Unmarshal] into a zero [BookMeta]. *)
Definition decode (j : json) : option BookMeta :=
  o ← dec_object j;
  let get k := member (str k) o in
  schema ← dec_int (get "schema_version");
  id ← dec_string (get "id");
  title ← dec_string (get "title");
  format ← dec_string (get "format");
  tags ← dec_list dec_string (get "tags");
  identifiers ← dec_map dec_string (get "identifiers");
  cover ← dec_string (get "cover");
  authors ← dec_list dec_string (get "authors");
  language ← dec_string (get "language");
  comments ← dec_string (get "comments");
  star ← dec_int (get "star");
  nsfw ← dec_bool (get "nsfw");
  created ← JSONTime.dec_member (str "created_at") o;
  updated ← JSONTime.dec_member (str "updated_at") o;
  published ← JSONDate.dec_member (str "published_at") o;
  current ← dec_string (get "current_source");
  Some (mkBookMeta schema id title format tags identifiers cover authors language comments
          star nsfw created updated published current).

(** The records the document can hold: [int]s and timestamps of whole
    seconds (dates of whole days). *)
Record storable (m : BookMeta) : Prop := {
  st_schema : (- 2 ^ 63 ≤ SchemaVersion m ≤ MaxInt)%Z;
  st_star : (- 2 ^ 63 ≤ Star m ≤ MaxInt)%Z;
  st_created : whole_second (CreatedAt m) = CreatedAt m;
  st_updated : whole_second (UpdatedAt m) = UpdatedAt m;
  st_published : (PublishedAt m mod (86400 * second) = 0)%Z;
}.
End codec.

Section roundtrip.
Context `{TimeTextLaws}.

Lemma members_distinct m : names_distinct ((members m).*1.*1) = true.
Proof. done. Qed.

Lemma book_unique_encode m : unique_names (encode m) = true.
Proof.
  apply unique_written; [done|]. unfold members.
  repeat constructor; first [apply unique_enc_strings|apply unique_enc_string_map].
Qed.

(** What is written reads back. *)
Lemma book_decode_encode m : storable m → decode (encode m) = Some m.
Proof.
  intros [Hs Hst Hc Hu Hp]. destruct m as [sv id ti fo ta ide co au la cm st ns cr up pu cu].
  unfold decode, encode, written. cbn [dec_object mbind option_bind].
  rewrite !JSONTime.time_dec_member_read_back, JSONDate.date_dec_member_read_back. fields.
  simpl in *. unfold members. eval_fields. simpl.
  rewrite !decide_True by done. pose proof (dec_enc_strings au) as Ha. simpl in Ha.
  rewrite Ha. cbn [mbind option_bind].
  repeat first [rewrite dec_omitted_string|rewrite dec_omitted_strings
    |rewrite dec_omitted_string_map|rewrite dec_omitted_bool
    |rewrite JSONTime.time_read_back_omitted by done|rewrite JSONDate.date_read_back_omitted by done
    |progress cbn [mbind option_bind]]. done.
Qed.

Lemma book_unmarshal_encode m : storable m → unmarshal decode (Doc (encode m)) = Some m.
Proof. intros. unfold unmarshal. by rewrite book_unique_encode, book_decode_encode. Qed.
End roundtrip.
End BookMeta.

(** ** Source metadata *)
Module SourceMeta.
Import Json.

Definition SourceMetaSchemaVersion : Z := 1.

Record SourceMeta := mkSourceMeta {
  SchemaVersion : Z;
  ID : bytes;
  CreatedAt : Z;
  Comment : bytes;
  Format : bytes;
  PageDirection : bytes;
  MD5Hash : bytes;
  LineCount : Z;
  CharCount : Z;
}.

#[export] Instance SourceMeta_eq_dec : EqDecision SourceMeta.
Proof. solve_decision. Defined.

Definition set_Comment (v : bytes) (m : SourceMeta) : SourceMeta :=
  mkSourceMeta (SchemaVersion m) (ID m) (CreatedAt m) v (Format m) (PageDirection m)
    (MD5Hash m) (LineCount m) (CharCount m).
Definition set_PageDirection (v : bytes) (m : SourceMeta) : SourceMeta :=
  mkSourceMeta (SchemaVersion m) (ID m) (CreatedAt m) (Comment m) (Format m) v
    (MD5Hash m) (LineCount m) (CharCount m).
Definition set_MD5Hash (v : bytes) (m : SourceMeta) : SourceMeta :=
  mkSourceMeta (SchemaVersion m) (ID m) (CreatedAt m) (Comment m) (Format m) (PageDirection m)
    v (LineCount m) (CharCount m).
Definition set_counts (md5 : bytes) (lines chars : Z) (m : SourceMeta) : SourceMeta :=
  mkSourceMeta (SchemaVersion m) (ID m) (CreatedAt m) (Comment m) (Format m) (PageDirection m)
    md5 lines chars.

Section codec.
Context `{TimeText}.

Definition members (m : SourceMeta) : list field :=
  [("schema_version", negb (SchemaVersion m =? 0)%Z, JInt (SchemaVersion m));
   ("id", true, JStr (ID m));
   ("created_at", true, JSONTime.MarshalJSON (CreatedAt m));
   ("comment", true, JStr (Comment m));
   ("format", negb (bool_decide (Format m = [])), JStr (Format m));
   ("page_direction", negb (bool_decide (PageDirection m = [])), JStr (PageDirection m));
   ("md5_hash", negb (bool_decide (MD5Hash m = [])), JStr (MD5Hash m));
   ("line_count", negb (LineCount m =? 0)%Z, JInt (LineCount m));
   ("char_count", negb (CharCount m =? 0)%Z, JInt (CharCount m))]%string.
Definition encode (m : SourceMeta) : json := written (members m).

Definition decode (j : json) : option SourceMeta :=
  o ← dec_object j;
  let get k := member (str k) o in
  schema ← dec_int (get "schema_version");
  id ← dec_string (get "id");
  created ← JSONTime.dec_member (str "created_at") o;
  comment ← dec_string (get "comment");
  format ← dec_string (get "format");
  dir ← dec_string (get "page_direction");
  md5 ← dec_string (get "md5_hash");
  lines ← dec_int (get "line_count");
  chars ← dec_int (get "char_count");
  Some (mkSourceMeta schema id created comment format dir md5 lines chars).

Definition in_int (z : Z) : Prop := (- 2 ^ 63 ≤ z ≤ MaxInt)%Z.
Record storable (m : SourceMeta) : Prop := {
  st_schema : in_int (SchemaVersion m);
  st_created : whole_second (CreatedAt m) = CreatedAt m;
  st_lines : in_int (LineCount m);
  st_chars : in_int (CharCount m);
}.
End codec.

Section roundtrip.
Context `{TimeTextLaws}.

Lemma source_unique_encode m : unique_names (encode m) = true.
Proof. apply unique_written; [done|]. repeat constructor. Qed.

Lemma dec_omitted_int z :
  in_int z → dec_int (default JNull (if negb (z =? 0)%Z then Some (JInt z) else None)) = Some z.
Proof.
  intros Hz. apply (dec_omitted dec_int 0%Z); [done| |].
  - intros E%negb_false_iff. by apply Z.eqb_eq.
  - intros _. by apply dec_int_ok.
Qed.

Lemma source_decode_encode m : storable m → decode (encode m) = Some m.
Proof.
  intros [Hs Hc Hl Hch]. destruct m as [sv id cr co fo pd md lc cc].
  unfold decode, encode, written. cbn [dec_object mbind option_bind].
  rewrite JSONTime.time_dec_member_read_back. fields. simpl in *. unfold members. eval_fields.
  repeat first [rewrite dec_omitted_string|rewrite dec_omitted_int by done
    |rewrite parse_format, Hc|progress cbn [mbind option_bind dec_string default]].
  done.
Qed.

Lemma source_unmarshal_encode m : storable m → unmarshal decode (Doc (encode m)) = Some m.
Proof. intros. unfold unmarshal. by rewrite source_unique_encode, source_decode_encode. Qed.
End roundtrip.
End SourceMeta.
