(* ===== verification/Source.v ===== *)
(** * A source of a book: [src/shelf/bookpkg/source.go], [asset.go],
    [pages.go] and [source_size.go]

    A source is a directory with [meta.json], the text (or page list)
    [source.txt] and, for an images source, an [assets] directory. A [Source]
    value is the Go struct: the directory, whether the file system below it
    is writable, and the metadata in memory, which an operation replaces only
    after the file was written. [md5_hex] is the hex MD5 of a byte string. *)

From S2P Require Import Prelude Utf8 Strings TextCounter Json Fs FsSpec Atomic ShelfUtil BookMeta.

Class Digest := { md5_hex : bytes → bytes; sha256_hex : bytes → bytes }.

Module Source.
Import SourceMeta Atomic ShelfUtil.

Definition SourceMetaFile : bytes := str "meta.json".
Definition SourceFile : bytes := str "source.txt".
Definition SourceAssetsFolder : bytes := str "assets".
Definition PageDirectionLTR : bytes := str "ltr".
Definition PageDirectionRTL : bytes := str "rtl".
Definition maxPageListBytes : nat := Z.to_nat (2 ^ 20).

Record Source := mkSource { writable : bool; folderPath : path; meta : SourceMeta }.
Definition with_meta (m : SourceMeta) (r : Source) : Source :=
  mkSource (writable r) (folderPath r) m.
Definition source_path (r : Source) : path := folderPath r ++ [SourceFile].
Definition meta_path (r : Source) : path := folderPath r ++ [SourceMetaFile].

(** ** Page lists ([pages.go]) *)
Definition bom : bytes := Stdlib.Strings.Ascii.ascii_of_nat <$> [239; 187; 191].
Definition newline : ascii := TextCounter.newline.

(** [func parsePageNames] *)
Definition parsePageNames (content : bytes) : list bytes :=
  filter (λ name, name ≠ []) (TrimSpace <$> Split (TrimPrefix content bom) newline).

(** [path.Ext] of a name without separators. *)
Fixpoint Ext (name : bytes) : bytes :=
  match name with
  | [] => []
  | c :: name' =>
      if decide (c = "."%char ∧ "."%char ∉ name') then name else Ext name'
  end.

(** [func normalizePageDirection] *)
Definition normalizePageDirection (format direction : bytes) : result error bytes :=
  if decide (direction = [] ∨ direction = PageDirectionLTR) then Ok [] else
  if decide (direction = PageDirectionRTL ∧ format = BookFormatImages) then Ok PageDirectionRTL
  else Err ErrInvalidPageDirection.

Section names.
Context `{UnicodeCase}.

Definition imageExtensions : list bytes :=
  [str ".jpg"; str ".jpeg"; str ".png"; str ".webp"; str ".gif"].
Definition IsSupportedImageExt (ext : bytes) : bool := bool_decide (lower ext ∈ imageExtensions).

(** [func validateAssetName] *)
Definition validateAssetName (name : bytes) : result error unit :=
  if HasPrefix name (str ".") then Err ErrInvalidAssetName else
  if negb (is_ok (ValidatePathSegment name)) then Err ErrInvalidAssetName else
  if negb (IsSupportedImageExt (Ext name)) then Err ErrInvalidAssetName else Ok tt.

(** [func validatePageList] *)
Definition validatePageList (content : bytes) : result error unit :=
  if forallb (λ name, is_ok (validateAssetName name)) (parsePageNames content)
  then Ok tt else Err ErrInvalidPageList.

(** [func checkedContent]: the reader to write, checked when it lists pages. *)
Definition checkedContent (format : bytes) (content : reader) : result error reader :=
  if decide (format ≠ BookFormatImages) then Ok content else
  let data := take (S maxPageListBytes) (rdata content) in
  match (if decide (length (rdata content) ≤ maxPageListBytes) then rerr content else None) with
  | Some e => Err e
  | None =>
      if decide (maxPageListBytes < length data) then Err ErrInvalidPageList else
      _ ← validatePageList data ;;! Ok (mkReader data None)
  end.
End names.

(** ** The content measure *)
Section ops.
Context `{UnicodeCase, TimeText, Machine, Digest}.

Record contentStats := mkContentStats { md5Hash : bytes; lineCount : Z; charCount : Z }.

(** [func measureContent], on the pieces the file is read in. *)
Definition measure_pieces (ps : list bytes) (format : bytes) : contentStats :=
  let text := TextCounter.write_all ps in
  mkContentStats (md5_hex (concat ps)) (Z.of_nat (TextCounter.Lines text))
    (if decide (format = BookFormatImages) then 0 else Z.of_nat (TextCounter.Chars text)).
Definition measureContent (content : bytes) (format : bytes) : contentStats :=
  measure_pieces [content] format.

Definition writeRoot (r : Source) : M world unit := guard_err (negb (writable r)) ErrReadOnly.

(** [func (r *Source) EnsureWritable() error] *)
Definition EnsureWritable {S} (r : Source) : M S unit :=
  guard_err (SourceMetaSchemaVersion <? SchemaVersion (meta r))%Z ErrUnsupportedSourceSchemaVersion.

(** [func openSource] *)
Definition openSource (rw : bool) (sourcePath : path) : M world Source :=
  c ← Open (sourcePath ++ [SourceMetaFile]);
  match unmarshal decode c with
  | None => throw ErrMalformedMetadata
  | Some m => mret (mkSource rw sourcePath m)
  end.

(** [func (r *Source) writebackMeta]: the file first, then the value. *)
Definition writebackMeta (r : Source) (m : SourceMeta) : M world Source :=
  WriteFileAtomic (meta_path r) (Doc (encode m));;
  mret (with_meta m r).

Definition ReadContent (r : Source) : M world bytes :=
  c ← Open (source_path r); mret (content_bytes c).

(** [func (r *Source) ContentStat] *)
Definition ContentStat (r : Source) : M world FileStat.FileStat :=
  FileStat.getFileStat (source_path r).

(** [func (r *Source) refreshContentMetadata] *)
Definition refreshContentMetadata (r : Source) : M world Source :=
  EnsureWritable r;;
  writeRoot r;;
  data ← ReadContent r;
  let stats := measureContent data (Format (meta r)) in
  writebackMeta r (set_counts (md5Hash stats) (lineCount stats) (charCount stats) (meta r)).

(** [func (r *Source) UpdateContent] *)
Definition UpdateContent (r : Source) (newContent : reader) : M world Source :=
  EnsureWritable r;;
  writeRoot r;;
  newContent ← of_result (checkedContent (Format (meta r)) newContent);
  WriteAtomic (source_path r) newContent;;
  refreshContentMetadata r.

(** [func (r *Source) RepairContentHash] *)
Definition RepairContentHash (r : Source) (hash : bytes) : M world (bool * Source) :=
  if decide (hash = [] ∨ MD5Hash (meta r) = [] ∨ MD5Hash (meta r) = hash)
  then mret (false, r) else
  EnsureWritable r;;
  writeRoot r;;
  r' ← writebackMeta r (set_MD5Hash hash (meta r));
  mret (true, r').

(** [func (r *Source) UpdateComment] *)
Definition UpdateComment (r : Source) (comment : bytes) : M world Source :=
  EnsureWritable r;;
  writeRoot r;;
  writebackMeta r (set_Comment comment (meta r)).

(** [func (r *Source) SetPageDirection] *)
Definition SetPageDirection (r : Source) (direction : bytes) : M world Source :=
  normalized ← of_result (normalizePageDirection (Format (meta r)) direction);
  EnsureWritable r;;
  writeRoot r;;
  writebackMeta r (set_PageDirection normalized (meta r)).

Record NewSourceOptions := mkNewSourceOptions {
  oFormat : bytes; oComment : bytes; oPageDirection : bytes }.

(** [func createSource] *)
Definition createSource (sourcePath : path) (id : bytes) (source : reader)
    (options : NewSourceOptions) : M world Source :=
  let format := oFormat options in
  guard_err (negb (ValidateBookFormat format) || bool_decide (format = [])) ErrInvalidBookFormat;;
  pageDirection ← of_result (normalizePageDirection format (oPageDirection options));
  source ← of_result (checkedContent format source);
  MkdirAll sourcePath;;
  WriteAtomic (sourcePath ++ [SourceFile]) source;;
  data ← Open (sourcePath ++ [SourceFile]);
  let stats := measureContent (content_bytes data) format in
  created ← now;
  let m := mkSourceMeta SourceMetaSchemaVersion id created (oComment options) format
             pageDirection (md5Hash stats) (lineCount stats) (charCount stats) in
  WriteFileAtomic (sourcePath ++ [SourceMetaFile]) (Doc (encode m));;
  mret (mkSource true sourcePath m).

(** ** Assets ([asset.go]) *)
Definition assets_path (r : Source) : path := folderPath r ++ [SourceAssetsFolder].

Definition AssetPath (r : Source) (name : bytes) : result error path :=
  _ ← validateAssetName name ;;! Ok (pjoin (assets_path r) name).

Definition WriteAsset (r : Source) (name : bytes) (data : bytes) : M world unit :=
  EnsureWritable r;;
  writeRoot r;;
  assetPath ← of_result (AssetPath r name);
  MkdirAll (assets_path r);;
  WriteFileAtomic assetPath (Raw data).

Definition DeleteAsset (r : Source) (name : bytes) : M world unit :=
  EnsureWritable r;;
  writeRoot r;;
  assetPath ← of_result (AssetPath r name);
  removed ← try (Remove assetPath);
  match removed with
  | Ok _ => mret tt
  | Err e => throw (if errors_Is e ENotExist then ErrAssetNotFound else e)
  end.

(** [func (r *Source) OpenAsset], the data read. *)
Definition OpenAsset (r : Source) (name : bytes) : M world content :=
  assetPath ← of_result (AssetPath r name);
  opened ← try (Open assetPath);
  match opened with
  | Ok c => mret c
  | Err e => throw (if errors_Is e ENotExist || errors_Is e EIsDir then ErrAssetNotFound else e)
  end.

(** [func (r *Source) ListAssets] *)
Definition ListAssets (r : Source) : M world (list bytes) :=
  listed ← try (ReadDir (assets_path r));
  match listed with
  | Err e => if errors_Is e ENotExist then mret [] else throw e
  | Ok es =>
      mret (sort_strings (filter (λ name, is_ok (validateAssetName name) = true)
        (filter (λ e, is_dir e.2 = false) es).*1))
  end.

(** [func (r *Source) SizeBytes] and [assetSize]; a directory is descended
    with fuel for every level of the tree. *)
Fixpoint assetSize (fuel : nat) (dir : path) : M world Z :=
  match fuel with
  | 0 => throw (Msg "fuel")
  | S fuel =>
      listed ← try (ReadDir dir);
      match listed with
      | Err e => if errors_Is e ENotExist then mret 0%Z else throw e
      | Ok es =>
          foldl (λ acc e,
            size ← acc;
            match e.2 with
            | Dir => nested ← assetSize fuel (dir ++ [e.1]); mret (size + nested)%Z
            | File c _ => mret (size + content_size c)%Z
            end) (mret 0%Z) es
      end
  end.

(** ** Page lists *)
Record Page := mkPage { pname : bytes; missing : bool }.
Record PageList := mkPageList { pages : list Page; unlisted : list bytes; plMD5 : bytes }.

(** [func (r *Source) readPageList] *)
Definition readPageList (r : Source) : M world bytes :=
  read ← try (ReadContent r);
  match read with
  | Ok data => mret data
  | Err e => if errors_Is e ENotExist then mret [] else throw e
  end.

Definition Pages (r : Source) : M world PageList :=
  guard_err (negb (bool_decide (Format (meta r) = BookFormatImages))) ErrNotImageSource;;
  content ← readPageList r;
  assets ← ListAssets r;
  let names := parsePageNames content in
  mret (mkPageList ((λ name, mkPage name (negb (bool_decide (name ∈ assets)))) <$> names)
          (filter (λ name, name ∉ names) assets) (md5_hex content)).

(** [func (r *Source) editablePageNames] *)
Definition editablePageNames (r : Source) (baseMD5 : bytes) : M world (list bytes) :=
  guard_err (negb (bool_decide (Format (meta r) = BookFormatImages))) ErrNotImageSource;;
  EnsureWritable r;;
  content ← readPageList r;
  guard_err (negb (bool_decide (md5_hex content = baseMD5))) ErrPageListConflict;;
  mret (parsePageNames content).

(** The text [writePageNames] writes. *)
Definition page_text (names : list bytes) : bytes :=
  if decide (names = []) then [] else Join names [newline] ++ [newline].
Definition writePageNames (r : Source) (names : list bytes) : M world (PageList * Source) :=
  r' ← UpdateContent r (mkReader (page_text names) None);
  l ← Pages r';
  mret (l, r').

(** The check of [ReplacePages] on each name. *)
Definition one_line (name : bytes) : bool :=
  bool_decide (TrimSpace name = name) &&
  negb (ContainsAny name (Stdlib.Strings.Ascii.ascii_of_nat <$> [13; 10])).
Definition ReplacePages (r : Source) (baseMD5 : bytes) (names : list bytes) :
    M world (PageList * Source) :=
  _ ← editablePageNames r baseMD5;
  guard_err (negb (forallb (λ name, is_ok (validateAssetName name) && one_line name) names))
    ErrInvalidPageList;;
  writePageNames r names.

(** [func (r *Source) removeUnlistedAsset] *)
Definition removeUnlistedAsset (r : Source) (name : bytes) : M world unit :=
  content ← readPageList r;
  if decide (name ∈ parsePageNames content) then mret tt else DeleteAsset r name.

(** [func (r *Source) InsertPage]; [text] is [rand.Text()]. *)
Definition InsertPage (r : Source) (baseMD5 : bytes) (position : Z) (data ext text : bytes) :
    M world (PageList * Source) :=
  names ← editablePageNames r baseMD5;
  guard_err ((position <? 0) || (Z.of_nat (length names) <? position))%Z ErrInvalidPagePosition;;
  let name := text ++ lower ext in
  WriteAsset r name data;;
  let n := Z.to_nat position in
  list ← try (writePageNames r (take n names ++ name :: drop n names));
  match list with
  | Ok l => mret l
  | Err e => ignore (removeUnlistedAsset r name);; throw e
  end.

(** [func (r *Source) DeletePage] *)
Definition DeletePage (r : Source) (baseMD5 name : bytes) : M world (PageList * Source) :=
  names ← editablePageNames r baseMD5;
  of_result (validateAssetName name);;
  let kept := filter (λ listed, listed ≠ name) names in
  r ← (if decide (length kept = length names) then mret r
       else '(_, r') ← writePageNames r kept; mret r');
  removed ← try (DeleteAsset r name);
  (match removed with
   | Ok _ => mret tt
   | Err e => if errors_Is e ErrAssetNotFound && negb (bool_decide (length kept = length names))
              then mret tt else throw e
   end);;
  l ← Pages r;
  mret (l, r).
End ops.

(** ** Page lists read back *)
Lemma TrimSpace_nil : TrimSpace [] = [].
Proof. done. Qed.

Lemma page_text_Join names :
  names ≠ [] → page_text names = Join (names ++ [[]]) [newline].
Proof.
  intros Hne. unfold page_text. rewrite decide_False by done. rewrite Join_snoc.
  rewrite decide_False by done. by rewrite app_nil_r.
Qed.

Lemma one_line_spec name :
  one_line name = true → TrimSpace name = name ∧ (newline ∉ name).
Proof.
  unfold one_line. intros [Ht%bool_decide_eq_true Hc]%andb_prop. split; [done|].
  intros Hin. apply negb_true_iff in Hc. unfold ContainsAny in Hc.
  apply not_true_iff_false in Hc. apply Hc, existsb_exists. exists newline.
  split; [by apply list_elem_of_In|]. apply bool_decide_true. right. left.
Qed.

Lemma parse_page_names names :
  Forall (λ name, TrimSpace name = name ∧ (newline ∉ name) ∧ name ≠ []) names →
  filter (λ name, name ≠ []) (TrimSpace <$> Split (page_text names) newline) = names.
Proof.
  intros Hall. destruct (decide (names = [])) as [->|Hne]; [done|].
  rewrite page_text_Join by done. rewrite Split_Join.
  - rewrite fmap_app, filter_app. simpl. rewrite TrimSpace_nil. rewrite app_nil_r.
    clear Hne. induction Hall as [|name names (Ht & _ & Hn) Hall IH]; [done|].
    rewrite fmap_cons, filter_cons, Ht, decide_True by done. by rewrite IH.
  - by destruct names.
  - apply Forall_app. split; [|repeat constructor; set_solver].
    eapply Forall_impl; [done|]. naive_solver.
Qed.

Section readback.
Context `{UnicodeCase}.

(** the page names an edit may write read back as they were given,
    in order, whatever they are, provided the first one does not start with
    a byte order mark. *)
Theorem parsePageNames_page_text names :
  forallb (λ name, is_ok (validateAssetName name) && one_line name) names = true →
  match head names with Some name => HasPrefix name bom = false | None => True end →
  parsePageNames (page_text names) = names.
Proof.
  intros Hall Hbom.
  assert (Forall (λ name, TrimSpace name = name ∧ (newline ∉ name) ∧ name ≠ []) names) as HF.
  { apply Forall_forall. intros name Hin. rewrite forallb_forall in Hall.
    specialize (Hall name (proj1 (list_elem_of_In _ _) Hin)).
    apply andb_prop in Hall as [Hv [? ?]%one_line_spec]. split_and!; [done..|].
    intros ->. done. }
  unfold parsePageNames. assert (TrimPrefix (page_text names) bom = page_text names) as ->.
  2: by apply parse_page_names.
  unfold TrimPrefix. destruct names as [|name names]; [done|]. simpl in Hbom.
  unfold HasPrefix in *. apply bool_decide_eq_false in Hbom.
  rewrite bool_decide_false; [done|]. intros Hp. apply Hbom.
  assert (bom `prefix_of` Join (name :: names) [newline] ++ [newline]) as Hp' by done.
  apply Forall_cons in HF as [(_ & Hnl & _) _].
  assert (∃ rest, Join (name :: names) [newline] ++ [newline] = name ++ newline :: rest) as [rest E].
  { destruct names; [by exists []|]. simpl. eexists. by rewrite <-app_assoc. }
  rewrite E in Hp'. destruct Hp' as [k Hk].
  assert (newline ∉ bom) as Hnb by (vm_compute; set_solver).
  apply app_eq_inv in Hk as [(l & -> & Hk)|(l & Hb & Hk)]; [by exists l|].
  destruct l as [|c l]; [exists []; by rewrite app_nil_r in *|].
  simpl in Hk. simplify_eq. destruct Hnb. rewrite Hb. set_solver.
Qed.
End readback.

Lemma parsePageNames_page_text_witness :
  parsePageNames (page_text [str "b.PNG"; str "a 1.jpg"]) = [str "b.PNG"; str "a 1.jpg"].
Proof.
  apply (parsePageNames_page_text (H := AsciiCase)); vm_compute; reflexivity.
Defined.

(** the proviso is needed. A page whose name starts with the byte
    order mark passes every check of [ReplacePages], yet as the first page it
    reads back under another name: the reader strips the mark. *)
Theorem page_list_loses_bom :
  let name := bom ++ str "a.jpg" in
  is_ok (validateAssetName (H := AsciiCase) name) && one_line name = true ∧
  parsePageNames (page_text [name]) = [str "a.jpg"].
Proof. vm_compute. split; reflexivity. Qed.

(** ** Updating a source *)
Section update.
Context `{UnicodeCase, TimeTextLaws, Machine, Digest}.

(** Only [p] and its temporary siblings differ. *)
Definition changed_at (ps : list path) (t t' : tree) : Prop :=
  ∀ q, q ∉ ps → (∀ p, p ∈ ps → ¬ temp_of p q) → t' !! q = t !! q.

Lemma changed_at_refl ps t : changed_at ps t t.
Proof. by intros q. Qed.
Lemma changed_at_trans ps t1 t2 t3 :
  changed_at ps t1 t2 → changed_at ps t2 t3 → changed_at ps t1 t3.
Proof. intros H12 H23 q Hq Hp. by rewrite H23, H12. Qed.
Lemma replaced_changed ps p data t t' : p ∈ ps → replaced p data t t' → changed_at ps t t'.
Proof. intros Hin [_ Ho] q Hq Hp. apply Ho; [by intros ->|auto]. Qed.

Lemma file_path_ok dir f :
  f ≠ [] → dir ++ [f] ≠ [] ∧ base (dir ++ [f]) ≠ [].
Proof. intros Hf. split; [by destruct dir|]. unfold base. by rewrite last_snoc. Qed.

Lemma temp_of_sibling dir f g : temp_of (dir ++ [f]) (dir ++ [g]) → isTempFileName g = true.
Proof.
  intros (n & E & Hn). unfold dirname in E. rewrite length_app in E. simpl in E.
  rewrite Nat.add_sub, take_app_length in E. by apply app_inj_tail in E as [_ ->].
Qed.

Lemma wp_Open_content p (Q : result error content → world → Prop) w :
  (∀ e n, Q (Err e) (mkWorld (wtree w) n)) →
  (∀ c z n, wtree w !! p = Some (File c z) → Q (Ok c) (mkWorld (wtree w) n)) →
  wp (Open p) Q w.
Proof.
  intros He Ho. apply wp_Open. intros [c|e] n Hc _; [|apply He].
  destruct (Hc c eq_refl) as [z Hz]. by eapply Ho.
Qed.

Lemma wp_writebackMeta r m (Q : result error Source → world → Prop) w :
  wf_tree (wtree w) →
  (∀ e w', replaced (meta_path r) (eq (Doc (encode m))) (wtree w) (wtree w') → Q (Err e) w') →
  (∀ z w', replaced (meta_path r) (eq (Doc (encode m))) (wtree w) (wtree w') →
    wtree w' !! meta_path r = Some (File (Doc (encode m)) z) → Q (Ok (with_meta m r)) w') →
  wp (writebackMeta r m) Q w.
Proof.
  intros Hwf HE HO. destruct (file_path_ok (folderPath r) SourceMetaFile) as [? ?]; [done|].
  apply wp_bind, wp_WriteFileAtomic; [done..|exact HE|].
  intros z w' Hr Hl. apply wp_ret. by eapply HO.
Qed.

(** The files of a source a content update may touch. *)
Definition update_paths (r : Source) : list path := [source_path r; meta_path r].

Lemma source_in r : source_path r ∈ update_paths r.
Proof. left. Qed.
Lemma meta_in r : meta_path r ∈ update_paths r.
Proof. right. left. Qed.
Lemma source_not_temp_of_meta r : ¬ temp_of (meta_path r) (source_path r).
Proof. by intros ?%temp_of_sibling. Qed.
Lemma meta_not_temp_of_source r : ¬ temp_of (source_path r) (meta_path r).
Proof. by intros ?%temp_of_sibling. Qed.
Lemma source_ne_meta r : source_path r ≠ meta_path r.
Proof. by intros [_ ?]%app_inj_tail. Qed.

Lemma wp_refreshContentMetadata r (Q : result error Source → world → Prop) w :
  wf_tree (wtree w) →
  (∀ e w', changed_at (update_paths r) (wtree w) (wtree w') →
    wtree w' !! source_path r = wtree w !! source_path r → Q (Err e) w') →
  (∀ c z z' w',
    let stats := measureContent (content_bytes c) (Format (meta r)) in
    let m := set_counts (md5Hash stats) (lineCount stats) (charCount stats) (meta r) in
    changed_at (update_paths r) (wtree w) (wtree w') →
    wtree w !! source_path r = Some (File c z) →
    wtree w' !! source_path r = Some (File c z) →
    wtree w' !! meta_path r = Some (File (Doc (encode m)) z') →
    Q (Ok (with_meta m r)) w') →
  wp (refreshContentMetadata r) Q w.
Proof.
  intros Hwf HE HO. apply wp_bind, wp_guard; intros _; [by apply HE|].
  apply wp_bind, wp_guard; intros _; [by apply HE|].
  apply wp_bind. unfold ReadContent. apply wp_bind, wp_Open_content; [by intros; apply HE|].
  intros c z n Hc. apply wp_ret. simpl.
  assert (∀ m w', replaced (meta_path r) (eq (Doc (encode m))) (wtree w) (wtree w') →
    changed_at (update_paths r) (wtree w) (wtree w') ∧
    wtree w' !! source_path r = wtree w !! source_path r) as Hrep.
  { intros m w' Hr. split; [eapply replaced_changed, Hr; apply meta_in|].
    destruct Hr as [_ Ho]. apply Ho; [apply source_ne_meta|apply source_not_temp_of_meta]. }
  apply wp_writebackMeta; simpl; [done| |].
  - intros e w' Hr. apply HE; by eapply Hrep.
  - intros z' w' Hr Hl. apply Hrep in Hr as [Hch Hs]. eapply (HO c z z'); simpl; try done.
    by rewrite Hs.
Qed.

Lemma measureContent_spec data format :
  measureContent data format =
  mkContentStats (md5_hex data) (Z.of_nat (TextCounter.line_count data))
    (if decide (format = BookFormatImages) then 0 else Z.of_nat (Utf8.RuneCount data)).
Proof.
  unfold measureContent, measure_pieces. pose proof (TextCounter.counted_all [data]) as Hc.
  pose proof (TextCounter.lines_all [data]) as [Hn Ho]. simpl concat in *.
  rewrite app_nil_r in *. rewrite (TextCounter.counted_Chars _ _ Hc).
  by rewrite (TextCounter.Lines_count _ _ Hn Ho).
Qed.

Lemma checkedContent_ok format rd rd' :
  checkedContent format rd = Ok rd' → rdata rd' = rdata rd.
Proof.
  unfold checkedContent. case_decide; [by intros [= ->]|].
  destruct (if decide (length (rdata rd) ≤ maxPageListBytes) then rerr rd else None); [done|].
  case_decide as Hl; [done|]. destruct (validatePageList _); [|done].
  intros [= <-]. simpl. apply take_ge. rewrite length_take in Hl. lia.
Qed.

(** The outcome of an update, error or not. *)
Record update_outcome (r : Source) (rd : reader) (w : world)
    (res : result error Source) (w' : world) : Prop := {
  upd_content : wtree w' !! source_path r = wtree w !! source_path r ∨
    ∃ z, wtree w' !! source_path r = Some (File (Raw (rdata rd)) z);
  upd_others : changed_at (update_paths r) (wtree w) (wtree w');
  upd_refused : (SourceMetaSchemaVersion < SchemaVersion (meta r))%Z →
    res = Err ErrUnsupportedSourceSchemaVersion ∧ wtree w' = wtree w;
  upd_done r' : res = Ok r' → ∃ z z',
    wtree w' !! source_path r = Some (File (Raw (rdata rd)) z) ∧
    wtree w' !! meta_path r = Some (File (Doc (encode (meta r'))) z') ∧
    MD5Hash (meta r') = md5_hex (rdata rd) ∧
    LineCount (meta r') = Z.of_nat (TextCounter.line_count (rdata rd)) ∧
    CharCount (meta r') = (if decide (Format (meta r) = BookFormatImages) then 0%Z
                           else Z.of_nat (Utf8.RuneCount (rdata rd)));
}.

(** updating the content of a source. A success means the file
    holds exactly the new bytes, the metadata records their hash, line and
    character counts (no characters for a page list), and [meta.json] holds
    that metadata. A failure leaves the old content or the new one, never a
    mixture. No other file is touched but temporary siblings, and a source
    of a newer schema is refused before anything is written. *)
Theorem UpdateContent_spec r rd w :
  wf_tree (wtree w) → wp (UpdateContent r rd) (update_outcome r rd w) w.
Proof.
  intros Hwf.
  apply wp_bind, wp_guard; intros Hv.
  { split; [by left|done|done|done]. }
  apply Z.ltb_ge in Hv.
  assert (∀ e w', (wtree w' !! source_path r = wtree w !! source_path r ∨
     ∃ z, wtree w' !! source_path r = Some (File (Raw (rdata rd)) z)) →
     changed_at (update_paths r) (wtree w) (wtree w') →
     update_outcome r rd w (Err e) w') as HErr.
  { intros e w' Hs Hc. split; [done|done|lia|done]. }
  apply wp_bind, wp_guard; intros _; [apply HErr; [by left|done]|].
  apply wp_bind, wp_of_result. destruct (checkedContent _ rd) as [rd'|e] eqn:Hrd;
    [|apply HErr; [by left|done]].
  apply checkedContent_ok in Hrd.
  destruct (file_path_ok (folderPath r) SourceFile) as [Hne Hb]; [done|].
  apply wp_bind, wp_wf; [apply preserves_WriteAtomic|done|].
  assert (∀ w', replaced (source_path r) (eq (Raw (rdata rd'))) (wtree w) (wtree w') →
    (wtree w' !! source_path r = wtree w !! source_path r ∨
     ∃ z, wtree w' !! source_path r = Some (File (Raw (rdata rd)) z)) ∧
    changed_at (update_paths r) (wtree w) (wtree w')) as Hrep.
  { intros w' Hr. split; [|eapply replaced_changed, Hr; apply source_in].
    destruct Hr as [[?|(c & z & <- & ?)] _]; [by left|]. right. rewrite <-Hrd. eauto. }
  apply wp_WriteAtomic; [done..| |].
  - intros e w' Hr _. by apply HErr; eapply Hrep.
  - intros z w1 Hr _ Hs Hwf1. apply Hrep in Hr as [_ Hc1]. rewrite Hrd in Hs.
    apply wp_refreshContentMetadata; [done| |].
    + intros e w' Hc Hs'. apply HErr; [right; exists z; congruence|].
      by eapply changed_at_trans.
    + intros c z0 z' w' stats m Hc Hs0 Hs' Hm.
      rewrite Hs in Hs0. simplify_eq. unfold m, stats. rewrite measureContent_spec. simpl.
      split; [eauto|by eapply changed_at_trans|lia|]. intros r' [= <-].
      exists z0, z'. simpl. split_and!; try done. unfold m, stats in Hm.
      by rewrite measureContent_spec in Hm.
Qed.
End update.
End Source.
