(* ===== verification/Frame.v ===== *)
(** * What a program may touch

    [keeps P D m] says that [m], under every fault, leaves every path outside
    [P] as it was, except that it may create missing directories at paths in
    [D], and keeps the tree well formed. The rules follow the structure of a
    program; the hint database [frame] applies them. *)

From S2P Require Import Prelude Utf8 Strings Json Fs FsSpec Atomic.

Definition touched (P D : path → Prop) (t t' : tree) : Prop :=
  ∀ q, P q ∨ t' !! q = t !! q ∨ t !! q = None ∧ t' !! q = Some Dir ∧ D q.

Lemma touched_refl P D t : touched P D t t.
Proof. intros q. auto. Qed.

Lemma touched_trans P D t1 t2 t3 :
  touched P D t1 t2 → touched P D t2 t3 → touched P D t1 t3.
Proof.
  intros H12 H23 q. specialize (H12 q). specialize (H23 q). naive_solver congruence.
Qed.

Lemma touched_mono (P P' D D' : path → Prop) t t' :
  (∀ q, P q → P' q) → (∀ q, D q → D' q) → touched P D t t' → touched P' D' t t'.
Proof. intros HP HD H q. specialize (H q). naive_solver. Qed.

(** An existing entry outside [P] is still there. *)
Lemma touched_some P D t t' q n : touched P D t t' → ¬ P q → t !! q = Some n → t' !! q = Some n.
Proof. intros H HP Hq. destruct (H q) as [?|[->|[? _]]]; [done|done|congruence]. Qed.

(** A path outside [P] and [D] is as it was. *)
Lemma touched_same P D t t' q : touched P D t t' → ¬ P q → ¬ D q → t' !! q = t !! q.
Proof. intros H HP HD. destruct (H q) as [?|[->|(_ & _ & ?)]]; done. Qed.

(** States that hold a tree: a world, and later a shelf. *)
Class HasTree (S : Type) := tree_of : S → tree.
#[export] Instance world_tree : HasTree world := wtree.

Definition keeps {S} `{HasTree S} {A} (P D : path → Prop) (m : M S A) : Prop :=
  ∀ s, wf_tree (tree_of s) →
    wf_tree (tree_of (m s).2) ∧ touched P D (tree_of s) (tree_of (m s).2).

(** [returns R m]: a successful run returns a value in [R]. *)
Definition returns {S A} (R : A → Prop) (m : M S A) : Prop :=
  ∀ s a, (m s).1 = Ok a → R a.

(** The rules that do not depend on what the state is. *)
Section structure.
Context {S : Type} `{!HasTree S}.
Implicit Types P D : path → Prop.

Lemma keeps_wp {A} P D (m : M S A) s :
  keeps P D m → wf_tree (tree_of s) →
  wp m (λ _ s', wf_tree (tree_of s') ∧ touched P D (tree_of s) (tree_of s')) s.
Proof. intros Hm Hw. by apply Hm. Qed.

Lemma keeps_mono {A} P P' D D' (m : M S A) :
  (∀ q, P q → P' q) → (∀ q, D q → D' q) → keeps P D m → keeps P' D' m.
Proof. intros HP HD Hm w Hw. destruct (Hm w Hw). eauto using touched_mono. Qed.

Lemma keeps_same {A} P D (m : M S A) :
  (∀ s, tree_of (m s).2 = tree_of s) → keeps P D m.
Proof. intros Hs w Hw. rewrite Hs. auto using touched_refl. Qed.

Lemma keeps_ret {A} P D (a : A) : keeps P D (mret (M:=M S) a).
Proof. by apply keeps_same. Qed.
Lemma keeps_throw {A} P D e : keeps P D (@throw S A e).
Proof. by apply keeps_same. Qed.
Lemma keeps_of_result {A} P D (r : result error A) : keeps P D (of_result (S:=S) r).
Proof. by apply keeps_same. Qed.
Lemma keeps_guard P D b e : keeps P D (guard_err (S:=S) b e).
Proof. apply keeps_same. by destruct b. Qed.
Lemma keeps_gets {A} P D (f : S → A) : keeps P D (gets f).
Proof. by apply keeps_same. Qed.
Lemma keeps_modify P D (f : S → S) : (∀ s, tree_of (f s) = tree_of s) → keeps P D (modify f).
Proof. intros Hf. by apply keeps_same. Qed.

Lemma keeps_bind_returns {A B} P D (R : A → Prop) (m : M S A) (k : A → M S B) :
  keeps P D m → returns R m → (∀ a, R a → keeps P D (k a)) → keeps P D (mbind k m).
Proof.
  intros Hm HR Hk w Hw. destruct (Hm w Hw) as [Hw' Ht]. specialize (HR w).
  unfold mbind, M_bind. destruct (m w) as [[a|e] w']; simpl in *; [|done].
  destruct (Hk a (HR a eq_refl) w' Hw'). eauto using touched_trans.
Qed.

Lemma keeps_bind {A B} P D (m : M S A) (k : A → M S B) :
  keeps P D m → (∀ a, keeps P D (k a)) → keeps P D (mbind k m).
Proof. intros Hm Hk. by apply (keeps_bind_returns _ _ (λ _, True)). Qed.

Lemma keeps_try {A} P D (m : M S A) : keeps P D m → keeps P D (try m).
Proof. intros Hm w Hw. specialize (Hm w Hw). unfold try. by destruct (m w). Qed.
Lemma keeps_ignore {A} P D (m : M S A) : keeps P D m → keeps P D (ignore m).
Proof. intros Hm w Hw. exact (Hm w Hw). Qed.
Lemma keeps_deferred {A B} P D (m : M S A) (c : M S B) :
  keeps P D m → keeps P D c → keeps P D (deferred m c).
Proof.
  intros Hm Hc w Hw. destruct (Hm w Hw) as [Hw' Ht]. unfold deferred.
  destruct (m w) as [r w']. simpl in *. destruct (Hc w' Hw'). eauto using touched_trans.
Qed.
End structure.

Section rules.
Context `{Machine}.
Implicit Types P D : path → Prop.

Lemma keeps_intro {A} P D (m : M world A) :
  preserves m →
  (∀ w, wf_tree (wtree w) → wp m (λ _ w', touched P D (wtree w) (wtree w')) w) →
  keeps P D m.
Proof. intros Hp Ht w Hw. split; [by apply Hp|by apply Ht]. Qed.

Lemma keeps_now P D : keeps P D now.
Proof. by apply keeps_same. Qed.
Lemma keeps_rand P D k : keeps P D (rand k).
Proof. by apply keeps_same. Qed.
Lemma keeps_read {A} P D (act : tree → result error A) : keeps P D (read_step act).
Proof. apply keeps_same. intros w. unfold read_step. by destruct (fault (tick w)). Qed.
Lemma keeps_Stat P D p : keeps P D (Stat p).
Proof. apply keeps_read. Qed.
Lemma keeps_Open P D p : keeps P D (Open p).
Proof. apply keeps_read. Qed.
Lemma keeps_ReadDir P D p : keeps P D (ReadDir p).
Proof. apply keeps_read. Qed.

Lemma keeps_StatInfo P D p : keeps P D (StatInfo p).
Proof.
  apply keeps_bind; [apply keeps_gets|]. intros k. apply keeps_bind; [apply keeps_Stat|].
  intros n. apply keeps_ret.
Qed.

Lemma touched_insert P D t p n : P p → touched P D t (<[p := n]> t).
Proof.
  intros Hp q. destruct (decide (q = p)) as [->|]; [by left|].
  right. left. by rewrite lookup_insert_ne.
Qed.

Lemma keeps_WriteFile P D p c : P p → keeps P D (WriteFile p c).
Proof.
  intros Hp. apply keeps_intro; [apply preserves_WriteFile|]. intros w Hw.
  apply wp_WriteFile; intros; [apply touched_refl|by apply touched_insert].
Qed.

Lemma keeps_Mkdir P D p : P p → keeps P D (Mkdir p).
Proof.
  intros Hp. apply keeps_intro; [apply preserves_Mkdir|]. intros w Hw.
  apply wp_Mkdir; intros; [apply touched_refl|by apply touched_insert].
Qed.

Lemma keeps_MkdirAll P D p : (∀ q, under q p → D q) → keeps P D (MkdirAll p).
Proof.
  intros Hp. apply keeps_intro; [apply preserves_MkdirAll|]. intros w Hw.
  apply wp_MkdirAll. intros r t' n Ha _ _ q. destruct (Ha q) as [?|(? & ? & ?)]; auto 6.
Qed.

Lemma keeps_Rename P D o n :
  (∀ q, under o q → P q) → (∀ q, under n q → P q) → keeps P D (Rename o n).
Proof.
  intros Ho Hn. apply keeps_intro; [apply preserves_Rename|]. intros w Hw.
  apply wp_Rename; [intros; apply touched_refl|].
  intros r t' k (_ & _ & [[_ ->]|(_ & -> & _)])%fs_rename_ok _ q; [by auto|].
  simpl. rewrite lookup_move. repeat case_decide; auto.
Qed.

Lemma touched_delete P D t p : P p → touched P D t (delete p t).
Proof.
  intros Hp q. destruct (decide (q = p)) as [->|]; [by left|].
  right. left. by rewrite lookup_delete_ne.
Qed.

Lemma keeps_Remove P D p : P p → keeps P D (Remove p).
Proof.
  intros Hp. apply keeps_intro; [apply preserves_Remove|]. intros w Hw.
  apply wp_Remove; [intros; apply touched_refl|].
  intros r t' k [-> _]%fs_remove_ok _. by apply touched_delete.
Qed.

Lemma keeps_RemoveAll P D p : (∀ q, under p q → P q) → keeps P D (RemoveAll p).
Proof.
  intros Hp. apply keeps_intro; [apply preserves_RemoveAll|]. intros w Hw.
  apply wp_RemoveAll. intros r t' n Hr _ q. destruct (Hr q) as [?|[? _]]; auto.
Qed.

#[export] Instance temp_of_dec name q : Decision (Atomic.temp_of name q).
Proof.
  destruct (decide (q = dirname name ++ [base q] ∧ Atomic.isTempFileName (base q) = true))
    as [[E Ht]|Hn].
  - left. by exists (base q).
  - right. intros (n & -> & Hn'). apply Hn. unfold base. by rewrite last_snoc.
Defined.

Lemma replaced_touched P D name data t t' :
  P name → (∀ q, Atomic.temp_of name q → P q) → Atomic.replaced name data t t' → touched P D t t'.
Proof.
  intros Hn Ht [_ Ho] q. destruct (decide (q = name)) as [->|]; [by left|].
  destruct (decide (Atomic.temp_of name q)); [by auto|]. right. left. by apply Ho.
Qed.

Lemma keeps_WriteFileAtomic P D name data :
  name ≠ [] → base name ≠ [] → P name → (∀ q, Atomic.temp_of name q → P q) →
  keeps P D (Atomic.WriteFileAtomic name data).
Proof.
  intros Hne Hb Hn Ht. apply keeps_intro; [apply Atomic.preserves_WriteFileAtomic|]. intros w Hw.
  apply Atomic.wp_WriteFileAtomic; [done..| |]; intros; by eapply replaced_touched.
Qed.

Lemma keeps_WriteAtomic P D name rd :
  name ≠ [] → base name ≠ [] → P name → (∀ q, Atomic.temp_of name q → P q) →
  keeps P D (Atomic.WriteAtomic name rd).
Proof.
  intros Hne Hb Hn Ht. apply keeps_intro; [apply Atomic.preserves_WriteAtomic|]. intros w Hw.
  apply Atomic.wp_WriteAtomic; [done..| |]; intros; by eapply replaced_touched.
Qed.

Lemma keeps_RandomString P D n : keeps P D (Atomic.RandomString n).
Proof.
  induction n as [|n IH]; simpl; [apply keeps_ret|].
  apply keeps_bind; [apply keeps_rand|]. intros i. apply keeps_bind; [done|].
  intros s. apply keeps_ret.
Qed.
Lemma keeps_TempDirName P D b : keeps P D (Atomic.TempDirName b).
Proof. apply keeps_bind; [apply keeps_RandomString|]. intros s. apply keeps_ret. Qed.

(** ** The values a program returns *)
Lemma returns_bind {S A B} (R : A → Prop) (R' : B → Prop) (m : M S A) (k : A → M S B) :
  returns R m → (∀ a, R a → returns R' (k a)) → returns R' (mbind k m).
Proof.
  intros Hm Hk s b. specialize (Hm s). unfold mbind, M_bind.
  destruct (m s) as [[a|e] s']; simpl in *; [|done]. by apply Hk, Hm.
Qed.
Lemma returns_ret {S A} (R : A → Prop) (a : A) : R a → returns (S:=S) R (mret a).
Proof. by intros Ha s ? [= <-]. Qed.
Lemma returns_throw {S A} (R : A → Prop) e : returns R (@throw S A e).
Proof. by intros s a. Qed.
Lemma returns_any {S A} (m : M S A) : returns (λ _, True) m.
Proof. by intros s a. Qed.
Lemma returns_deferred {S A B} (R : A → Prop) (m : M S A) (c : M S B) :
  returns R m → returns R (deferred m c).
Proof. intros Hm s a. specialize (Hm s a). unfold deferred. by destruct (m s). Qed.
Lemma returns_of_result {S A} (R : A → Prop) (r : result error A) :
  (∀ a, r = Ok a → R a) → returns (S:=S) R (of_result r).
Proof. intros Hr s a. apply Hr. Qed.

(** The name [TempDirName] draws. *)
Lemma returns_TempDirName b :
  returns (λ n, ∃ s, n = Atomic.temp_dir_name b s) (Atomic.TempDirName b).
Proof.
  eapply returns_bind; [apply returns_any|]. intros s _. apply returns_ret. eauto.
Qed.
End rules.

Create HintDb frame.
#[export] Hint Resolve keeps_ret keeps_throw keeps_of_result keeps_guard keeps_gets keeps_now
  keeps_rand keeps_Stat keeps_StatInfo keeps_Open keeps_ReadDir keeps_bind keeps_try keeps_ignore
  keeps_deferred keeps_RandomString keeps_TempDirName : frame.

(** [frame] takes a program apart as far as the rules go without looking at
    paths. *)
Ltac frame_step :=
  match goal with
  | |- keeps _ _ (mbind _ _) => apply keeps_bind; [|intros ?]
  | |- keeps _ _ (match ?x with _ => _ end) => destruct x
  | |- keeps _ _ (let _ := _ in _) => cbv zeta
  | |- keeps _ _ (try _) => apply keeps_try
  | |- keeps _ _ (ignore _) => apply keeps_ignore
  | |- keeps _ _ (deferred _ _) => apply keeps_deferred
  | |- _ => solve [auto with frame]
  end.
Ltac frame := repeat frame_step.

Lemma touched_none_eq t t' : touched (λ _, False) (λ _, False) t t' → t' = t.
Proof. intros H. apply map_eq. intros q. destruct (H q) as [?|[?|(_ & _ & ?)]]; done. Qed.

(** A program that only reads. *)
Lemma wp_reads `{Machine} {A} (m : M world A) Q w :
  keeps (λ _, False) (λ _, False) m → wf_tree (wtree w) →
  (∀ r n, (m w).1 = r → Q r (mkWorld (wtree w) n)) → wp m Q w.
Proof.
  intros Hm Hw HQ. destruct (Hm w Hw) as [_ Ht%touched_none_eq]. unfold wp.
  cbv [tree_of world_tree] in Ht. destruct (m w) as [r [t n]]. simpl in *. subst t. by apply HQ.
Qed.

(** Two postconditions at once. *)
Lemma wp_conj {S A} (m : M S A) (Q1 Q2 : result error A → S → Prop) s :
  wp m Q1 s → wp m Q2 s → wp m (λ r s', Q1 r s' ∧ Q2 r s') s.
Proof. by split. Qed.

(** A path below one entry of a directory is not below another. *)
Lemma under_sibling p a b q : under (p ++ [a]) q → under (p ++ [b]) q → a = b.
Proof.
  intros [k ->] [l E]. rewrite <-!app_assoc in E. apply app_inv_head in E. by simplify_eq/=.
Qed.

Lemma under_child_ne p a b : a ≠ b → ¬ under (p ++ [a]) (p ++ [b]).
Proof. intros Hne Hu. apply Hne. eapply under_sibling; [done|]. auto. Qed.

Lemma temp_of_under dir f q : Atomic.temp_of (dir ++ [f]) q → under dir q ∧ q ≠ dir.
Proof.
  intros (n & -> & _). unfold dirname. rewrite length_app. simpl.
  rewrite Nat.add_sub, take_app_length. split; [auto|].
  intros E%(f_equal length). rewrite length_app in E. simpl in E. lia.
Qed.
