(* ===== verification/Relocate.v ===== *)
(** * Moving a whole subtree

    A book package or a folder moves by one [Rename] to a path nothing has.
    [carried ex p p'] says that what lay at [p], except the relative paths in
    [ex], now lies at [p']. *)

From S2P Require Import Prelude Utf8 Strings Json Fs FsSpec Atomic Frame.

Definition carried (ex : path → Prop) (p p' : path) (t t' : tree) : Prop :=
  ∀ k, ¬ ex k → t' !! (p' ++ k) = t !! (p ++ k).

(** Nothing outside the two places changed. *)
Definition elsewhere (p p' : path) (t t' : tree) : Prop :=
  ∀ q, ¬ under p q → ¬ under p' q → t' !! q = t !! q.

Lemma carried_refl ex p t : carried ex p p t t.
Proof. by intros k _. Qed.
Lemma carried_mono (ex ex' : path → Prop) p p' t t' :
  (∀ k, ex k → ex' k) → carried ex p p' t t' → carried ex' p p' t t'.
Proof. intros Hex Hc k Hk. apply Hc. auto. Qed.
Lemma carried_trans ex p1 p2 p3 t1 t2 t3 :
  carried ex p1 p2 t1 t2 → carried ex p2 p3 t2 t3 → carried ex p1 p3 t1 t3.
Proof. intros H12 H23 k Hk. by rewrite (H23 k Hk), (H12 k Hk). Qed.
Lemma elsewhere_refl p p' t : elsewhere p p' t t.
Proof. by intros q. Qed.
Lemma elsewhere_trans p p' t1 t2 t3 :
  elsewhere p p' t1 t2 → elsewhere p p' t2 t3 → elsewhere p p' t1 t3.
Proof. intros H12 H23 q Ho Hn. by rewrite (H23 q Ho Hn), (H12 q Ho Hn). Qed.

Lemma carried_move ex o d t : carried ex o d t (move t o d).
Proof. intros k _. rewrite lookup_move, decide_True by auto. by rewrite drop_app_length. Qed.

Lemma elsewhere_move o d t : elsewhere o d t (move t o d).
Proof. intros q Ho Hd. rewrite lookup_move. by rewrite !decide_False. Qed.

(** A move to a free path empties the old one. *)
Lemma move_gone o d t q :
  ¬ under o d → ¬ under d o → under o q → move t o d !! q = None.
Proof.
  intros Hod Hdo Hq. rewrite lookup_move. destruct (decide (under d q)) as [Hd|]; [|by rewrite decide_True].
  destruct Hq as [k ->], Hd as [l E]. exfalso.
  apply app_eq_inv in E as [(m & -> & _)|(m & -> & _)]; [apply Hdo|apply Hod]; auto.
Qed.

(** What lies outside the paths a run touches is still there. *)
Lemma touched_carried P D (ex : path → Prop) p t t' :
  touched P D t t' → (∀ k, P (p ++ k) → ex k) → (∀ k, D (p ++ k) → ex k) → carried ex p p t t'.
Proof.
  intros Ht HP HD k Hk. eapply touched_same; [done|..]; auto.
Qed.

Section rename.
Context `{Machine}.

(** A rename to a path [Stat] has found missing: nothing happens, or the
    whole subtree moves. *)
Lemma wp_Rename_free o d (Q : result error unit → world → Prop) w :
  wf_tree (wtree w) → wtree w !! d = None →
  (∀ e n, Q (Err e) (mkWorld (wtree w) n)) →
  (∀ r n, is_Some (wtree w !! o) → ¬ under o d → ¬ under d o → wf_tree (move (wtree w) o d) →
    r = Ok tt ∨ r = Err EIO → Q r (mkWorld (move (wtree w) o d) n)) →
  wp (Rename o d) Q w.
Proof.
  intros Hwf Hd HE HO. apply wp_wf; [apply preserves_Rename|done|].
  apply wp_Rename; [intros; apply HE|].
  intros r t' n (Ho & _ & [[-> ->]|(Hu & -> & _)])%fs_rename_ok Hr Hwf'; simpl in *.
  { rewrite Hd in Ho. by destruct Ho. }
  apply HO; try done. intros [k ->]. destruct Ho as [x Ho].
  destruct k as [|s k]; [rewrite app_nil_r in Ho; congruence|].
  rewrite (wf_no_child _ d) in Ho; [done|done|congruence|done].
Qed.

Lemma wp_Stat_missing p (Q : result error node → world → Prop) w :
  wf_tree (wtree w) →
  (∀ r n, (r = Err ENotExist → wtree w !! p = None) →
    (∀ x, r = Ok x → wtree w !! p = Some x) → Q r (mkWorld (wtree w) n)) →
  wp (Stat p) Q w.
Proof.
  intros Hwf HQ. apply wp_Stat. intros r n [-> | ->]; apply HQ; try done.
  - by apply find_node_missing.
  - by intros x [? _]%find_node_ok.
Qed.
End rename.

(** ** Files that move

    [kept_files from t t']: every file of [t] is in [t'], no two at the same
    path, and only files below [from] are elsewhere. *)
Definition file_at (t : tree) (q : path) : Prop := ∃ c z, t !! q = Some (File c z).
Record moves_files (from : path) (t t' : tree) (f : path → path) : Prop := {
  mf_inj q1 q2 : file_at t q1 → file_at t q2 → f q1 = f q2 → q1 = q2;
  mf_file q c z : t !! q = Some (File c z) → t' !! f q = Some (File c z);
  mf_from q : f q ≠ q → under from q;
}.
Definition kept_files (from : path) (t t' : tree) : Prop := ∃ f, moves_files from t t' f.

Lemma kept_files_same (from : path) (t t' : tree) :
  (∀ q c z, t !! q = Some (File c z) → t' !! q = Some (File c z)) → kept_files from t t'.
Proof. intros Hs. exists id. by split. Qed.

Lemma kept_files_trans from t1 t2 t3 :
  kept_files from t1 t2 → kept_files from t2 t3 → kept_files from t1 t3.
Proof.
  intros [f [Hif Hf Hff]] [g [Hig Hg Hgf]]. exists (g ∘ f). split; simpl.
  - intros q1 q2 (c1 & z1 & H1) (c2 & z2 & H2) E. apply Hif; [by eexists _, _..|].
    apply Hig; [by eexists _, _; apply Hf..|done].
  - intros q c z Hq. by apply Hg, Hf.
  - intros q Hq. destruct (decide (f q = q)) as [E|]; [|by apply Hff].
    apply Hgf. congruence.
Qed.

(** A subtree below [from] moved to where no file is. *)
Lemma kept_files_move_over (from o d : path) (t : tree) :
  under from o → (∀ q, file_at t q → ¬ under d q) → kept_files from t (move t o d).
Proof.
  intros Hfo Hnd.
  exists (λ q, if decide (under o q) then d ++ drop (length o) q else q). split.
  - intros q1 q2 Hf1%Hnd Hf2%Hnd.
    destruct (decide (under o q1)) as [Hu1|Hu1], (decide (under o q2)) as [Hu2|Hu2]; try done.
    + intros E%app_inv_head. destruct Hu1 as [k1 ->], Hu2 as [k2 ->].
      rewrite !drop_app_length in E. by subst.
    + intros <-. by destruct Hf2; auto.
    + intros ->. by destruct Hf1; auto.
  - intros q c z Hq. case_decide as Hu.
    + destruct Hu as [k ->]. rewrite drop_app_length.
      rewrite (carried_move (λ _, False)); [done|by intros []].
    + rewrite lookup_move, decide_False by (apply Hnd; by eexists _, _). by rewrite decide_False.
  - intros q. case_decide as Hu; [|done]. intros _. by eapply under_trans.
Qed.

(** A subtree below [from] moved to a free path. *)
Lemma kept_files_move (from o d : path) (t : tree) :
  wf_tree t → under from o → t !! d = None → kept_files from t (move t o d).
Proof.
  intros Hwf Hfo Hd. apply kept_files_move_over; [done|].
  intros q (c & z & Hq) [k ->]. destruct k as [|x k]; [rewrite app_nil_r in Hq; congruence|].
  rewrite wf_no_child in Hq; [done|done|congruence|done].
Qed.

(** A directory that is renamed overwrites no file. *)
Lemma kept_files_rename_dir (o d : path) (t t' : tree) :
  wf_tree t → t !! o = Some Dir → fs_rename t o d = (Ok tt, t') → kept_files o t t'.
Proof.
  intros Hwf Ho. unfold fs_rename. destruct (find_node t o) as [n|] eqn:Hn; [|by repeat case_match].
  apply find_node_ok in Hn as [Hn _]. assert (n = Dir) as -> by congruence.
  destruct (resolve t d); [done|]. case_decide; [intros [= <-]; by apply kept_files_same|].
  case_decide; [done|]. destruct (t !! d) as [[|c z]|] eqn:Hd; [|done|].
  - destruct (empty_dir t d) eqn:He; [|done]. intros [= <-]. apply kept_files_move_over; [auto|].
    intros q (c & z & Hq) Hu. rewrite empty_dir_spec in He.
    assert (q = d) as -> by (apply He; [done|by eexists]). congruence.
  - intros [= <-]. by apply kept_files_move.
Qed.

Lemma kept_files_dirs (p from : path) (t t' : tree) : dirs_added p t t' → kept_files from t t'.
Proof. intros Ha. apply kept_files_same. intros q c z Hq. destruct (Ha q) as [->|[? _]]; congruence. Qed.

Lemma kept_files_delete_dir (from p : path) (t : tree) : t !! p = Some Dir → kept_files from t (delete p t).
Proof.
  intros Hp. apply kept_files_same. intros q c z Hq. rewrite lookup_delete_ne by congruence. done.
Qed.
