(* ===== verification/ScanCache.v ===== *)
(** * The directory scan cache: [src/shelf/scancache]

    A walk of the shelf asks the cache for the children of each directory and
    reuses the listing of the last walk while the modification time of the
    directory stands ([cache.go]: [NewWalk], [ReadDir], [Install],
    [Abandon]). Paths are keys as lists of segments. [coherent] is what the
    walk relies on, [read_coherent] that a reused listing is then the one the
    directory has. The cache file ([load], [Save]) is not modelled: a cache
    starts with any listings. Duration is left out of [Stats]. *)

From S2P Require Import Prelude Utf8 Strings Json Fs FsSpec Atomic Frame.

Module ScanCache.

(** [type DirChild]; the trees of the model hold no symbolic links, so
    [Symlink] is false in every listing read. *)
Record DirChild := mkDirChild { Name : bytes; IsFile : bool; Symlink : bool }.
Record dirSnapshot := mkSnapshot { ModTime : Z; Children : list DirChild }.
Record Stats := mkStats { Dirs : nat; ReadDirs : nat; ReusedDirs : nat }.

(** [type Cache]; [dirs] is what [Install] leaves. *)
Record Cache := mkCache {
  enabled : bool;
  keepFiles : list bytes;
  dirs : gmap path dirSnapshot;
  lastStats : Stats;
}.

(** [type Walk], with what it reads of its cache. *)
Record Walk := mkWalk {
  wenabled : bool;
  wkeep : list bytes;
  prev : gmap path dirSnapshot;
  next : gmap path dirSnapshot;
  stats : Stats;
}.

(** [func dirChildren] *)
Definition dirChildren (es : list (bytes * node)) (keep : list bytes) : list DirChild :=
  omap (λ e, match e.2 with
             | File _ _ => if decide (e.1 ∈ keep) then Some (mkDirChild e.1 true false) else None
             | Dir => Some (mkDirChild e.1 false false)
             end) es.

(** [fsutil.Settled] *)
Definition RacyWindow : Z := 2 * second.
Definition Settled (modTime readAt : Z) : bool := (modTime <? readAt - RacyWindow)%Z.

(** [func (c *Cache) NewWalk] *)
Definition NewWalk (c : Cache) : Walk :=
  mkWalk (enabled c) (keepFiles c) (if enabled c then dirs c else ∅) ∅ (mkStats 0 0 0).

(** [func (w *Walk) Install] and [Abandon] *)
Definition finish (w : Walk) (complete : bool) (c : Cache) : Cache :=
  mkCache (enabled c) (keepFiles c) (if wenabled w && complete then next w else dirs c) (stats w).
Definition Install (w : Walk) (c : Cache) : Cache := finish w true c.
Definition Abandon (w : Walk) (c : Cache) : Cache := finish w false c.

Definition count_dir (w : Walk) : Walk :=
  mkWalk (wenabled w) (wkeep w) (prev w) (next w)
    (mkStats (Dirs (stats w) + 1) (ReadDirs (stats w)) (ReusedDirs (stats w))).
Definition count_read (w : Walk) : Walk :=
  mkWalk (wenabled w) (wkeep w) (prev w) (next w)
    (mkStats (Dirs (stats w)) (ReadDirs (stats w) + 1) (ReusedDirs (stats w))).
Definition count_reused (w : Walk) : Walk :=
  mkWalk (wenabled w) (wkeep w) (prev w) (next w)
    (mkStats (Dirs (stats w)) (ReadDirs (stats w)) (ReusedDirs (stats w) + 1)).
Definition record (p : path) (s : dirSnapshot) (w : Walk) : Walk :=
  mkWalk (wenabled w) (wkeep w) (prev w) (<[p := s]> (next w)) (stats w).

Section ops.
Context `{Machine}.

(** The listing [ReadDir] reads itself. *)
Definition read_listing (w : Walk) (modTime : Z) (p : path) :
    M world (result error (list DirChild * bool) * Walk) :=
  readAt ← now;
  listed ← try (ReadDir p);
  match listed with
  | Err e => mret (Err e, w)
  | Ok es =>
      let w := count_read w in
      let children := dirChildren es (wkeep w) in
      mret (Ok (children, false),
        if negb (modTime =? zero_time)%Z && Settled modTime readAt
        then record p (mkSnapshot modTime children) w else w)
  end.

(** [func (w *Walk) ReadDir]: the children, whether they are a reused
    listing, and the walk, error or not. *)
Definition WReadDir (w : Walk) (p : path) (parentListingReused : bool) :
    M world (result error (list DirChild * bool) * Walk) :=
  let w := count_dir w in
  if negb (wenabled w) then
    listed ← try (ReadDir p);
    match listed with
    | Err e => mret (Err e, w)
    | Ok es => let w := count_read w in mret (Ok (dirChildren es (wkeep w), false), w)
    end
  else
    info ← try (StatInfo p);
    match info with
    | Err _ => read_listing w zero_time p
    | Ok i =>
        let modTime := i.2.1 in
        match prev w !! p with
        | Some s =>
            if parentListingReused && (ModTime s =? modTime)%Z
            then mret (Ok (Children s, true), count_reused (record p s w))
            else read_listing w modTime p
        | None => read_listing w modTime p
        end
    end.

(** [func ChildIsDir] *)
Definition ChildIsDir (p : path) (child : option DirChild) : M world bool :=
  match child with
  | Some c => if IsFile c then mret false
              else if negb (Symlink c) then mret true
              else n ← Stat p; mret (is_dir n)
  | None => n ← Stat p; mret (is_dir n)
  end.

End ops.

(** ** Coherence *)
Section coherence.
Context `{Machine}.

(** The listings of [m] are those the directories of [t] have, as far as a
    directory that still shows the recorded modification time goes. This is
    what the file system owes the cache: adding, removing or renaming a child
    moves the time, once the racy window has passed. *)
Definition coherent (keep : list bytes) (t : tree) (m : gmap path dirSnapshot) : Prop :=
  ∀ p s k n, m !! p = Some s → t !! p = Some n → (file_info k p n).1 = ModTime s →
    n = Dir ∧ Children s = dirChildren (entries t p) keep.

Lemma ReadDir_entries p w es w' :
  ReadDir p w = (Ok es, w') → wtree w !! p = Some Dir ∧ es = entries (wtree w) p.
Proof.
  unfold ReadDir, read_step. destruct (fault (tick w)); [|done..]. intros [= E _].
  destruct (find_node (wtree w) p) as [[|c z]|] eqn:F; simplify_eq.
  by apply find_node_ok in F as [? _].
Qed.

Lemma wp_ReadDir p (Q : result error (list (bytes * node)) → world → Prop) w :
  (∀ r n, (∀ es, r = Ok es → wtree w !! p = Some Dir ∧ es = entries (wtree w) p) →
    Q r (mkWorld (wtree w) n)) →
  wp (ReadDir p) Q w.
Proof.
  intros HQ. unfold wp. destruct (ReadDir p w) as [r w'] eqn:E. simpl.
  assert (wtree w' = wtree w) as Hw.
  { change w' with (r, w').2. rewrite <-E. unfold ReadDir, read_step.
    by destruct (fault (tick w)). }
  destruct w' as [t' n]. simpl in Hw. subst t'. apply HQ.
  intros es ->. by eapply ReadDir_entries.
Qed.

(** What a walk over the tree [t] has learnt so far. *)
Record sound_walk (t : tree) (w : Walk) : Prop := {
  sw_prev : coherent (wkeep w) t (prev w);
  sw_next : coherent (wkeep w) t (next w);
}.

Definition listing_of (t : tree) (keep : list bytes) (p : path) (r : result error (list DirChild * bool)) : Prop :=
  ∀ children trusted, r = Ok (children, trusted) →
    t !! p = Some Dir ∧ children = dirChildren (entries t p) keep.

Definition read_outcome (t : tree) (w : Walk) (p : path)
    (r : result error (result error (list DirChild * bool) * Walk)) (s' : world) : Prop :=
  ∃ res w', r = Ok (res, w') ∧ wtree s' = t ∧ sound_walk t w' ∧
    wkeep w' = wkeep w ∧ wenabled w' = wenabled w ∧ listing_of t (wkeep w) p res.

Lemma coherent_record keep t m p s :
  coherent keep t m → t !! p = Some Dir → Children s = dirChildren (entries t p) keep →
  coherent keep t (<[p := s]> m).
Proof.
  intros Hm Hp Hc q s' k n. destruct (decide (q = p)) as [->|Hne].
  - rewrite lookup_insert_eq. intros [= <-]. rewrite Hp. by intros [= <-] _.
  - rewrite lookup_insert_ne by done. by apply Hm.
Qed.

Lemma wp_read_listing w z p s :
  sound_walk (wtree s) w → wp (read_listing w z p) (read_outcome (wtree s) w p) s.
Proof.
  intros [Hp Hn]. apply wp_bind, wp_now. intros readAt k.
  apply wp_bind, wp_try, wp_ReadDir. simpl. intros [es|e] j Hes; apply wp_ret.
  - destruct (Hes es eq_refl) as [Hd ->]. eexists _, _. split; [done|]. split; [done|].
    split; [|split; [by case_match|split; [by case_match|by intros ? ? [= <- <-]]]].
    case_match; split; simpl; try done. by apply coherent_record.
  - eexists _, _. split; [done|]. split; [done|]. by split.
Qed.

Lemma wp_WReadDir w p reused s :
  sound_walk (wtree s) w → wp (WReadDir w p reused) (read_outcome (wtree s) w p) s.
Proof.
  intros [Hp Hn]. unfold WReadDir. cbv zeta.
  assert (sound_walk (wtree s) (count_dir w)) as Hw by done.
  assert (∀ z k, wp (read_listing (count_dir w) z p) (read_outcome (wtree s) w p)
    (mkWorld (wtree s) k)) as Hread.
  { intros z k. exact (wp_read_listing (count_dir w) z p (mkWorld (wtree s) k) Hw). }
  destruct (negb (wenabled (count_dir w))).
  { apply wp_bind, wp_try, wp_ReadDir. intros [es|e] j Hes; apply wp_ret; eexists _, _.
    - destruct (Hes es eq_refl) as [Hd ->]. do 5 (split; [done|]). by intros ? ? [= <- <-].
    - do 5 (split; [done|]). done. }
  apply wp_bind, wp_try, wp_StatInfo. intros [i|e] k Hi _; [|by apply Hread].
  destruct (Hi i eq_refl) as [Hf Hz]. apply find_node_ok in Hf as [Hf _].
  destruct (prev (count_dir w) !! p) as [sn|] eqn:Hsn; [|by apply Hread].
  destruct (reused && _) eqn:Hr; [|by apply Hread].
  apply andb_prop in Hr as [_ Hm%Z.eqb_eq]. apply wp_ret.
  destruct (Hp p sn (tick s) i.1 Hsn Hf) as [Hd Hc]; [by rewrite <-Hz|].
  rewrite Hd in Hf. eexists _, _. split; [done|]. split; [done|].
  split; [|split; [done|split; [done|by intros ? ? [= <- <-]]]].
  split; [done|]. by apply coherent_record.
Qed.

(** a listing the scan cache hands out is the one the directory
    has. Provided the listings of the last walk are coherent with the tree,
    whatever fails, [ReadDir] returns either an error or exactly the children
    an uncached read would, reused or not, and what the walk keeps for the
    next one is coherent again. *)
Theorem ReadDir_sound w p reused s :
  coherent (wkeep w) (wtree s) (prev w) → coherent (wkeep w) (wtree s) (next w) →
  wp (WReadDir w p reused) (λ r s', ∃ res w', r = Ok (res, w') ∧ wtree s' = wtree s ∧
    (∀ children trusted, res = Ok (children, trusted) →
      wtree s !! p = Some Dir ∧ children = dirChildren (entries (wtree s) p) (wkeep w)) ∧
    coherent (wkeep w) (wtree s) (next w')) s.
Proof.
  intros Hp Hn. eapply wp_mono; [by apply wp_WReadDir|].
  intros r s' (res & w' & -> & Ht & [_ Hn'] & Hk & _ & Hl). rewrite Hk in Hn'. eauto 10.
Qed.

Lemma keeps_WReadDir P D w p reused : keeps P D (WReadDir w p reused).
Proof.
  unfold WReadDir, read_listing. frame.
Qed.

Lemma keeps_ChildIsDir P D p child : keeps P D (ChildIsDir p child).
Proof. unfold ChildIsDir. frame. Qed.

End coherence.
#[export] Hint Resolve keeps_WReadDir keeps_ChildIsDir : frame.
End ScanCache.
