(* ===== verification/FolderMeta.v ===== *)
(** * Folder metadata: [folder.json] of [src/shelf/shelf_folder_meta.go]

    The document as [jsonopt.Object] ([src/internal/jsonopt/object.go]): its
    members by name, kept as they are unless the program sets them. What the
    program reads of it ([FolderMeta]), how it refuses what it cannot read,
    and the icon table. *)

From S2P Require Import Prelude Utf8 Strings Float64 Json Fs FsSpec Atomic ShelfUtil BookMeta Source Frame.
From Stdlib Require Import Floats.SpecFloat.

#[export] Instance spec_float_eq_dec : EqDecision spec_float.
Proof. solve_decision. Defined.

(** ** [jsonopt.Object] *)
Module Object.

(** [type Object map[string]jsontext.Value] *)
Abbreviation Object := (gmap bytes json).

(** [func ParseObject] *)
Definition ParseObject (c : content) : option Object :=
  unmarshal (λ j, match j with JObj l => Some (list_to_map l) | _ => None end) c.

(** [func (o Object) Lookup]: [Ok None] when the member is missing. *)
Definition Lookup {A : Type} (o : Object) (name : string) (dec : json → option A) :
    result error (option A) :=
  match o !! to_bytes name with
  | None => Ok None
  | Some raw => match dec raw with Some a => Ok (Some a) | None => Err (Msg "member") end
  end.

Definition SetMember (o : Object) (name : string) (v : json) : Object := <[to_bytes name := v]> o.
Definition Delete (o : Object) (name : string) : Object := delete (to_bytes name) o.

(** [func (o Object) MarshalDisk]: members in the order of their names. *)
Definition MarshalDisk (o : Object) : content :=
  Doc (JObj ((λ k, (k, default JNull (o !! k))) <$> sort_strings (elements (dom o)))).

(** A [float64] as [encoding/json/v2] writes it: an integral value below
    [10^21] as an integer literal. *)
Definition enc_float (f : F64.float64) : json :=
  match F64.trunc f with
  | Some z => if decide (F64.of_int z = f ∧ (Z.abs z < 10 ^ 21)%Z) then JInt z else JNum f
  | None => JNum f
  end.

(** ** Reading back *)
Lemma fst_members (o : Object) :
  ((λ k, (k, default JNull (o !! k))) <$> sort_strings (elements (dom o))).*1
  = sort_strings (elements (dom o)).
Proof. rewrite <-list_fmap_compose. apply list_fmap_id. Qed.

Lemma NoDup_names (o : Object) : NoDup (sort_strings (elements (dom o))).
Proof. unfold sort_strings. rewrite merge_sort_Permutation. apply NoDup_elements. Qed.

Lemma elem_of_names (o : Object) k : k ∈ sort_strings (elements (dom o)) ↔ is_Some (o !! k).
Proof.
  unfold sort_strings. rewrite merge_sort_Permutation, elem_of_elements. apply elem_of_dom.
Qed.

(** An object whose values are well-formed documents. *)
Definition plain (o : Object) : Prop := map_Forall (λ _ v, Json.unique_names v = true) o.

Lemma unique_MarshalDisk o :
  plain o → Json.unique_names
    (JObj ((λ k, (k, default JNull (o !! k))) <$> sort_strings (elements (dom o)))) = true.
Proof.
  intros Hp. simpl. apply andb_true_intro. rewrite fst_members. split.
  - apply bool_decide_true, NoDup_names.
  - apply forallb_forall. intros m. rewrite <-list_elem_of_In, list_elem_of_fmap.
    intros (k & -> & [v Hv]%elem_of_names). simpl. rewrite Hv. by apply Hp in Hv.
Qed.

Lemma ParseObject_MarshalDisk o : plain o → ParseObject (MarshalDisk o) = Some o.
Proof.
  intros Hp. unfold ParseObject, MarshalDisk, unmarshal. rewrite unique_MarshalDisk by done.
  f_equal. apply map_eq. intros k. apply option_eq. intros v.
  rewrite <-elem_of_list_to_map by (rewrite fst_members; apply NoDup_names).
  rewrite list_elem_of_fmap. setoid_rewrite elem_of_names. split.
  - intros (k' & [= -> ->] & [v' Hv]). by rewrite Hv.
  - intros Hv. exists k. rewrite Hv. split; [done|]. by eexists.
Qed.

Lemma dec_enc_float f : Json.dec_float (enc_float f) = Some f.
Proof.
  unfold enc_float. destruct (F64.trunc f) as [z|] eqn:Et; [|done]. case_decide as Hd; [|done].
  simpl. destruct Hd as [-> _]. by destruct f.
Qed.

Lemma enc_float_not_null f : enc_float f ≠ JNull.
Proof. unfold enc_float. by repeat case_match. Qed.

Lemma unique_enc_float f : Json.unique_names (enc_float f) = true.
Proof. unfold enc_float. by repeat case_match. Qed.
End Object.

Module FolderMeta.
Import Object.

Definition FolderMetaFile : bytes := str "folder.json".
Definition FolderMetaSchemaVersion : Z := 1.
Definition maxFolderMetaBytes : Z := 64 * 1024.
Definition folderMetaSchemaVersionKey : string := "schema_version"%string.
Definition folderMetaIconKey : string := "icon"%string.
Definition folderMetaSortKeyKey : string := "sort_key"%string.

Definition folderIcons : list bytes := to_bytes <$>
  ["alien"; "atom"; "bolt"; "book"; "bookmark"; "books"; "briefcase"; "camera";
   "code"; "coffee"; "compass"; "crown"; "device-gamepad-2"; "diamond"; "flame";
   "flask"; "flower"; "folder"; "ghost"; "heart"; "leaf"; "map"; "mood-smile";
   "moon"; "movie"; "music"; "notebook"; "palette"; "paw"; "planet"; "puzzle";
   "robot"; "rocket"; "school"; "shield"; "skull"; "star"; "sun"; "sword"; "world"]%string.

(** [slices.BinarySearch]: the search narrows [i, j) to the first element
    not below the target. *)
Fixpoint search_loop (fuel : nat) (l : list bytes) (target : bytes) (i j : nat) : nat :=
  match fuel with
  | 0 => i
  | S fuel =>
      if i <? j then
        let h := (i + j) / 2 in
        match l !! h with
        | Some x => if decide (str_lt x target) then search_loop fuel l target (h + 1) j
                    else search_loop fuel l target i h
        | None => i
        end
      else i
  end.
Definition BinarySearch (l : list bytes) (target : bytes) : bool :=
  let i := search_loop (length l) l target 0 (length l) in
  bool_decide (l !! i = Some target).

(** [func IsFolderIcon] *)
Definition IsFolderIcon (name : bytes) : bool := BinarySearch folderIcons name.

(** [type FolderMeta] *)
Record FolderMeta := mkFolderMeta {
  SortKey : F64.float64;
  HasSortKey : bool;
  Icon : bytes;
  ReadOnly : bool;
  Version : bytes;
}.
#[export] Instance FolderMeta_eq_dec : EqDecision FolderMeta.
Proof. solve_decision. Defined.
Definition emptyMeta : FolderMeta := mkFolderMeta F64.zero false [] false [].

(** [func (m FolderMeta) DisplayIcon] *)
Definition DisplayIcon (m : FolderMeta) : bytes := if IsFolderIcon (Icon m) then Icon m else [].

(** [func parseFolderMeta] *)
Definition parseFolderMeta (data : content) : result error Object :=
  match ParseObject data with
  | None => Err (Msg "not an object")
  | Some obj =>
      version ← Lookup obj folderMetaSchemaVersionKey Json.dec_int ;;!
      match version with
      | Some v => if decide (v ≠ FolderMetaSchemaVersion) then Err (Msg "schema_version") else Ok obj
      | None => Ok obj
      end
  end.

(** [func iconIgnoringWrongType] *)
Definition iconIgnoringWrongType (obj : Object) : bytes :=
  match Lookup obj folderMetaIconKey Json.dec_string with
  | Ok (Some icon) => icon
  | _ => []
  end.

Definition is_inf (f : F64.float64) : bool :=
  match f with S754_infinity _ => true | _ => false end.
Definition finite (f : F64.float64) : bool := negb (F64.is_nan f) && negb (is_inf f).

(** The sort key [folderMetaFromData] takes over. *)
Definition sortKeyOf (obj : Object) : option F64.float64 :=
  match obj !! to_bytes folderMetaSortKeyKey with
  | None | Some JNull => None
  | Some _ =>
      match Lookup obj folderMetaSortKeyKey Json.dec_float with
      | Ok (Some key) => if finite key then Some key else None
      | _ => None
      end
  end.

Section ops.
Context `{Machine, Digest}.

(** [func folderMetaVersion]; [None] is nil. *)
Definition folderMetaVersion (data : option content) : bytes :=
  match data with None => [] | Some c => sha256_hex (content_bytes c) end.

(** [func folderMetaFromData]: the metadata, and the error beside it. *)
Definition folderMetaFromData (data : option content) : FolderMeta * option error :=
  match data with
  | None => (emptyMeta, None)
  | Some c =>
      let version := folderMetaVersion (Some c) in
      match parseFolderMeta c with
      | Err e => (mkFolderMeta F64.zero false [] true version, Some e)
      | Ok obj =>
          let icon := iconIgnoringWrongType obj in
          (match sortKeyOf obj with
           | Some key => mkFolderMeta key true icon false version
           | None => mkFolderMeta F64.zero false icon false version
           end, None)
      end
  end.

(** [func readFolderMetaFile]; [None] is nil. *)
Definition readFolderMetaFile (metaPath : path) : M world (option content) :=
  opened ← try (Open metaPath);
  match opened with
  | Err e => if errors_Is e ENotExist then mret None else throw e
  | Ok c =>
      guard_err (maxFolderMetaBytes <? content_size c)%Z (Msg "folder.json is larger");;
      mret (Some c)
  end.

End ops.

(** [strings.EqualFold]: two runes fold to each other when their orbits have
    the same smallest rune; and [func validateNewFolderName]. *)
Section names.
Context `{UnicodeCase}.
Definition EqualFold (s t : bytes) : bool := bool_decide (ShelfUtil.map_runes ShelfUtil.minFold s = ShelfUtil.map_runes ShelfUtil.minFold t).
Definition validateNewFolderName (name : bytes) : result error unit :=
  if EqualFold name FolderMetaFile then Err ErrReservedFolderName else Ok tt.
End names.

(** ** The icon table *)
Fixpoint orderedb (l : list bytes) : bool :=
  match l with
  | x :: l => forallb (λ y, bool_decide (str_lt x y)) l && orderedb l
  | [] => true
  end.

Lemma orderedb_lookup l i j x y :
  orderedb l = true → l !! i = Some x → l !! j = Some y → i < j → str_lt x y.
Proof.
  revert i j. induction l as [|z l IH]; intros [|i] [|j]; simpl; try done; try lia.
  - intros [Hz _]%andb_prop [= ->] Hy _. rewrite forallb_forall in Hz.
    apply list_elem_of_lookup_2, list_elem_of_In, Hz in Hy. by apply bool_decide_eq_true in Hy.
  - intros [_ Hl]%andb_prop Hx Hy Hij. eapply (IH i j); [done..|lia].
Qed.

(** The search ends at the first element not below the target. *)
Lemma search_loop_spec fuel l target i j :
  orderedb l = true → j ≤ length l → j - i ≤ fuel →
  (∀ k x, k < i → l !! k = Some x → str_lt x target) →
  (∀ k x, j ≤ k → l !! k = Some x → ¬ str_lt x target) → i ≤ j →
  let n := search_loop fuel l target i j in
  (∀ k x, k < n → l !! k = Some x → str_lt x target) ∧
  (∀ k x, n ≤ k → l !! k = Some x → ¬ str_lt x target).
Proof.
  intros Ho. revert i j. induction fuel as [|fuel IH]; intros i j Hj Hf Hlo Hhi Hij;
    cbn [search_loop].
  - split; [done|]. intros k x Hk. apply Hhi. lia.
  - destruct (i <? j) eqn:E.
    2: { apply Nat.ltb_ge in E. split; [done|]. intros k x Hk. apply Hhi. lia. }
    apply Nat.ltb_lt in E. assert (i ≤ (i + j) / 2 < j) as [Hh1 Hh2].
    { split; [apply Nat.div_le_lower_bound; lia|apply Nat.Div0.div_lt_upper_bound; lia]. }
    remember ((i + j) / 2) as h eqn:Hh. clear Hh.
    destruct (l !! h) as [x|] eqn:Hx; [|apply lookup_ge_None in Hx; lia].
    destruct (decide (str_lt x target)) as [Hlt|Hlt]; apply IH; try lia; try done.
    + intros k y Hk Hy. destruct (decide (k = h)) as [->|]; [by simplify_eq|].
      eapply Compare_lt_trans, Hlt. by eapply (orderedb_lookup l k h); [..|lia].
    + intros k y Hk Hy Hyt. destruct (decide (k = h)) as [->|]; [by simplify_eq|].
      apply Hlt. eapply Compare_lt_trans, Hyt. by eapply (orderedb_lookup l h k); [..|lia].
Qed.

Lemma BinarySearch_spec l target :
  orderedb l = true → BinarySearch l target = true ↔ target ∈ l.
Proof.
  intros Ho. unfold BinarySearch. rewrite bool_decide_eq_true.
  split; [by intros ?%list_elem_of_lookup_2|]. intros [k Hk]%list_elem_of_lookup.
  destruct (search_loop_spec (length l) l target 0 (length l)) as [Hlo Hhi]; try done; try lia.
  { intros k' x Hle Hx. apply lookup_lt_Some in Hx. lia. }
  remember (search_loop _ _ _ _ _) as n eqn:Hn. clear Hn.
  assert (¬ str_lt target target) as Hirr.
  { unfold str_lt. by rewrite (proj2 (Compare_eq target target) eq_refl). }
  destruct (decide (k < n)) as [Hkn|Hkn]; [by apply Hlo in Hk|].
  destruct (decide (k = n)) as [->|Hne]; [done|].
  destruct (l !! n) as [x|] eqn:Hx; [|apply lookup_ge_None in Hx; apply lookup_lt_Some in Hk; lia].
  exfalso. apply (Hhi n x); [lia|done|]. eapply (orderedb_lookup l n k); [done..|lia].
Qed.

(** an icon is accepted exactly when the table offers it: the
    binary search finds every entry of the table and nothing else. *)
Theorem IsFolderIcon_table name : IsFolderIcon name = true ↔ name ∈ folderIcons.
Proof. apply BinarySearch_spec. vm_compute. reflexivity. Qed.

(** ** Setting a member *)
Lemma plain_set o name v : plain o → Json.unique_names v = true → plain (SetMember o name v).
Proof. intros Hp Hv. by apply map_Forall_insert_2. Qed.

Lemma plain_delete o name : plain o → plain (Delete o name).
Proof. apply map_Forall_delete. Qed.

Lemma ParseObject_plain c o : ParseObject c = Some o → plain o.
Proof.
  unfold ParseObject, unmarshal. destruct c as [|j]; [done|].
  destruct (Json.unique_names j) eqn:Hu; [|done]. destruct j; try done. intros [= <-].
  simpl in Hu. apply andb_prop in Hu as [Hd Hu]. rewrite forallb_forall in Hu.
  intros k v Hv%elem_of_list_to_map_2. apply (Hu (k, v)). by apply list_elem_of_In.
Qed.

Lemma parseFolderMeta_plain c o : parseFolderMeta c = Ok o → plain o.
Proof.
  unfold parseFolderMeta. destruct (ParseObject c) as [o'|] eqn:E; [|done].
  intros (v & _ & Hv)%res_bind_ok. assert (o' = o) as -> by (repeat case_match; by simplify_eq).
  by eapply ParseObject_plain.
Qed.

(** What the program stamps and writes, it reads back. *)
Lemma parse_stamped o :
  plain o → parseFolderMeta (MarshalDisk
      (SetMember o folderMetaSchemaVersionKey (JInt FolderMetaSchemaVersion)))
    = Ok (SetMember o folderMetaSchemaVersionKey (JInt FolderMetaSchemaVersion)).
Proof.
  intros Hp. unfold parseFolderMeta. rewrite ParseObject_MarshalDisk by by apply plain_set.
  unfold Lookup, SetMember. by rewrite lookup_insert_eq.
Qed.

Lemma sortKeyOf_set o key :
  finite key = true → sortKeyOf (SetMember o folderMetaSortKeyKey (enc_float key)) = Some key.
Proof.
  intros Hf. unfold sortKeyOf, Lookup, SetMember. rewrite lookup_insert_eq, dec_enc_float, Hf.
  pose proof (enc_float_not_null key). by destruct (enc_float key).
Qed.

End FolderMeta.
