(* ===== verification/Book.v ===== *)
(** * A book package: [src/shelf/bookpkg/book.go]

    A book is a directory with [book.json], an optional cover and a [sources]
    directory. A [Book] value is the Go struct: the directory, whether the
    file system is writable, the metadata in memory and the [FileStat] of
    [book.json] it was read at ([None] for a book built from a snapshot).
    Methods that change the book return the changed value; the Go code
    changes the struct only after the file was written, so a failing method
    leaves it as it was. Log messages are left out. *)

From S2P Require Import Prelude Utf8 Strings Json Fs FsSpec Atomic ShelfUtil BookMeta Source.

Module Book.
Import BookMeta Atomic ShelfUtil.

Definition SourcesFolder : bytes := str "sources".
Definition BookMetaFile : bytes := str "book.json".
Definition CurrentSourceHintFile : bytes := str "CURRENT_SOURCE.txt".
Definition LegacyCurrentSourceHintFile : bytes := str "CURRENT_VERSION_LOCATION.txt".
Definition MinStar : Z := 0.
Definition MaxStar : Z := 5.

(** [CurrentSourceHintTemplate] before and after its [%s]. *)
Definition nl : bytes := [TextCounter.TextCounter.newline].
Definition hint_head : bytes :=
  str "[PlainShelf hint]" ++ nl ++ str "This book currently reads from:" ++ nl.
Definition hint_tail : bytes :=
  nl ++ nl
  ++ str "This file is a hint written by PlainShelf, not the source of truth: nothing" ++ nl
  ++ str "reads it back, and current_source in book.json is what the app follows. You" ++ nl
  ++ str "can safely delete it; it is rewritten the next time the current source changes." ++ nl.

Record Book := mkBook {
  writable : bool;
  folderPath : path;
  meta : BookMeta;
  metaStat : option FileStat.FileStat;
}.

Definition meta_path (p : path) : path := p ++ [BookMetaFile].
Definition sources_path (p : path) : path := p ++ [SourcesFolder].

(** [func normalizeMetaVersion] *)
Definition normalizeMetaVersion (m : BookMeta) : BookMeta :=
  if (SchemaVersion m <? BookMetaSchemaVersion)%Z
  then set_SchemaVersion BookMetaSchemaVersion m else m.

(** [func FromSnapshot] *)
Definition FromSnapshot (rw : bool) (bookPath : path) (m : BookMeta) : Book :=
  mkBook rw bookPath (normalizeMetaVersion m) None.

(** [func mirrorSourceFormatIntoBookMeta] *)
Definition mirrorSourceFormatIntoBookMeta (m : BookMeta) (s : Source.Source) : BookMeta :=
  let f := SourceMeta.Format (Source.meta s) in
  if decide (f ≠ []) then set_Format f m else m.

Section ops.
Context `{UnicodeCase, TimeText, Machine, Digest}.

(** [func readBookMeta] *)
Definition readBookMeta (bookPath : path) : M world BookMeta :=
  c ← Open (meta_path bookPath);
  match unmarshal decode c with
  | Some m => mret m
  | None => throw ErrMalformedMetadata
  end.

(** [func Open] *)
Definition OpenBook (rw : bool) (bookPath : path) : M world Book :=
  bookFolder ← Stat bookPath;
  guard_err (negb (is_dir bookFolder)) (Msg "not a book directory");;
  m ← readBookMeta bookPath;
  stat ← FileStat.getFileStat (meta_path bookPath);
  mret (mkBook rw bookPath (normalizeMetaVersion m) (Some stat)).

(** The [FileStat] taken after a write of [book.json]; a failing [Stat] falls
    back on the clock and the length written. *)
Definition stat_written (p : path) (c : content) : M world FileStat.FileStat :=
  r ← try (FileStat.getFileStat p);
  match r with
  | Ok stat => mret stat
  | Err _ => t ← now; mret (FileStat.mkFileStat t (content_size c))
  end.

(** [func Create] *)
Definition Create (bookPath : path) (bookID title : bytes) : M world Book :=
  MkdirAll bookPath;;
  created ← now;
  let m := mkBookMeta BookMetaSchemaVersion bookID title [] [] ∅ [] [] [] [] 0 false
             created zero_time zero_time [] in
  WriteFileAtomic (meta_path bookPath) (Doc (encode m));;
  stat ← stat_written (meta_path bookPath) (Doc (encode m));
  mret (mkBook true bookPath m (Some stat)).

(** [func (b *Book) IsStale() bool] *)
Definition IsStale (b : Book) : M world bool :=
  match metaStat b with
  | None => mret false
  | Some stat =>
      r ← try (FileStat.getFileStat (meta_path (folderPath b)));
      match r with
      | Err _ => mret true
      | Ok current => mret (negb (FileStat.Equal current stat))
      end
  end.

Definition writeRoot (b : Book) : M world unit := guard_err (negb (writable b)) ErrReadOnly.

(** [func (b *Book) EnsureWritable() error] *)
Definition EnsureWritable {S} (b : Book) : M S unit :=
  guard_err (BookMetaSchemaVersion <? SchemaVersion (meta b))%Z ErrUnsupportedBookSchemaVersion.

(** [func (b *Book) setMeta] *)
Definition setMeta (b : Book) (m : BookMeta) : M world Book :=
  EnsureWritable b;;
  writeRoot b;;
  guard_err (negb (ValidateBCP47 (Language m))) ErrInvalidLanguageTag;;
  guard_err ((Star m <? MinStar) || (MaxStar <? Star m))%Z ErrInvalidStar;;
  guard_err (negb (ValidateBookFormat (Format m))) ErrInvalidBookFormat;;
  guard_err (existsb (λ key, bool_decide (TrimSpace key = [])) (map_to_list (Identifiers m)).*1)
    ErrInvalidIdentifierKey;;
  let m := set_SchemaVersion BookMetaSchemaVersion m in
  WriteFileAtomic (meta_path (folderPath b)) (Doc (encode m));;
  stat ← stat_written (meta_path (folderPath b)) (Doc (encode m));
  mret (mkBook (writable b) (folderPath b) m
          (match metaStat b with Some _ => Some stat | None => None end)).

(** [func (b *Book) SetMeta] *)
Definition SetMeta (b : Book) (m : BookMeta) : M world Book :=
  guard_err (negb (bool_decide (CurrentSource m = CurrentSource (meta b))))
    (Msg "cannot modify CurrentSource field directly");;
  setMeta b m.

(** [func (b *Book) removeCoverIfUnreferenced] *)
Definition removeCoverIfUnreferenced (b : Book) (previousCover : bytes) : M world unit :=
  persisted ← try (readBookMeta (folderPath b));
  match persisted with
  | Err _ => mret tt
  | Ok m =>
      if decide (Cover m = previousCover) then mret tt
      else ignore (Remove (pjoin (folderPath b) previousCover))
  end.

(** [func (b *Book) SetCover] *)
Definition SetCover (b : Book) (imageData ext : bytes) : M world Book :=
  EnsureWritable b;;
  writeRoot b;;
  let coverFilename := str "cover" ++ ext in
  let previousCover := Cover (meta b) in
  WriteFileAtomic (pjoin (folderPath b) coverFilename) (Raw imageData);;
  b' ← SetMeta b (set_Cover coverFilename (meta b));
  (if decide (previousCover ≠ [] ∧ previousCover ≠ coverFilename)
   then removeCoverIfUnreferenced b' previousCover else mret tt);;
  mret b'.

(** [func (b *Book) DeleteCover] *)
Definition DeleteCover (b : Book) : M world Book :=
  let cover := Cover (meta b) in
  if decide (cover = []) then mret b else
  EnsureWritable b;;
  writeRoot b;;
  Remove (pjoin (folderPath b) cover);;
  setMeta b (set_Cover [] (meta b)).

(** [func (b *Book) OpenCover] *)
Definition OpenCover (b : Book) : M world (option content) :=
  let cover := Cover (meta b) in
  if decide (cover = []) then mret None
  else c ← Open (pjoin (folderPath b) cover); mret (Some c).

(** [func (b *Book) GetSource] *)
Definition GetSource (b : Book) (sourceID : bytes) : M world Source.Source :=
  of_result (ValidateSourceID sourceID);;
  let sourcePath := sources_path (folderPath b) ++ [sourceID] in
  r ← try (Stat sourcePath);
  match r with
  | Err e => throw (if errors_Is e ENotExist then ErrSourceNotFound else e)
  | Ok _ => Source.openSource (writable b) sourcePath
  end.

(** [func (b *Book) writeCurrentSourceHint] *)
Definition writeCurrentSourceHint (b : Book) (sourceID : bytes) : M world unit :=
  writeRoot b;;
  let sourcePath := Join [SourcesFolder; sourceID; Source.SourceFile] (str "/") in
  WriteFileAtomic (folderPath b ++ [CurrentSourceHintFile])
    (Raw (hint_head ++ sourcePath ++ hint_tail));;
  r ← try (Remove (folderPath b ++ [LegacyCurrentSourceHintFile]));
  match r with
  | Ok _ => mret tt
  | Err e => if errors_Is e ENotExist then mret tt else throw e
  end.

(** [func (b *Book) SetCurrentSource] *)
Definition SetCurrentSource (b : Book) (sourceID : bytes) : M world Book :=
  EnsureWritable b;;
  source ← GetSource b sourceID;
  let m := mirrorSourceFormatIntoBookMeta (set_CurrentSource sourceID (meta b)) source in
  b' ← setMeta b m;
  ignore (writeCurrentSourceHint b' sourceID);;
  mret b'.

(** [func (b *Book) freeSourceID]: every turn but the last finds another
    entry of the tree, so one turn more than it has entries is enough. *)
Fixpoint freeSourceID_loop (fuel : nat) (dir : path) (b sourceID : bytes) (i : Z) :
    M world bytes :=
  match fuel with
  | 0 => throw (Msg "fuel")
  | S fuel =>
      r ← try (Stat (dir ++ [sourceID]));
      match r with
      | Err e => if errors_Is e ENotExist then mret sourceID else throw e
      | Ok _ => freeSourceID_loop fuel dir b (b ++ str "-" ++ Itoa i) (i + 1)
      end
  end.
Definition freeSourceID (b : Book) (base : bytes) : M world bytes :=
  n ← gets (λ w, size (wtree w));
  freeSourceID_loop (S n) (sources_path (folderPath b)) base base 1.

(** [func (b *Book) NewSourceWithOptions]; a nil reader is an empty one. *)
Definition NewSourceWithOptions (b : Book) (source : option reader)
    (options : Source.NewSourceOptions) : M world Source.Source :=
  EnsureWritable b;;
  writeRoot b;;
  let source := default (mkReader [] None) source in
  let options :=
    if decide (Source.oFormat options = [])
    then Source.mkNewSourceOptions BookFormatText (Source.oComment options)
           (Source.oPageDirection options)
    else options in
  guard_err (negb (ValidateBookFormat (Source.oFormat options))) ErrInvalidBookFormat;;
  t ← now;
  sourceID ← freeSourceID b (format_stamp t);
  let sourcePath := sources_path (folderPath b) ++ [sourceID] in
  tempName ← TempDirName sourceID;
  let tempSourcePath := sources_path (folderPath b) ++ [tempName] in
  deferred
    (src ← Source.createSource tempSourcePath sourceID source options;
     Rename tempSourcePath sourcePath;;
     mret (Source.mkSource (Source.writable src) sourcePath (Source.meta src)))
    (RemoveAll tempSourcePath).

Definition NewSource (b : Book) (source : option reader) : M world Source.Source :=
  NewSourceWithOptions b source (Source.mkNewSourceOptions BookFormatText [] []).

(** [func (b *Book) CurrentSourceStat] *)
Definition CurrentSourceStat (b : Book) : M world (Z * bytes * bytes) :=
  let none := (0%Z, [], []) in
  let sourceID := CurrentSource (meta b) in
  if negb (is_ok (ValidateSourceID sourceID)) then mret none else
  r ← try (Source.openSource (writable b) (sources_path (folderPath b) ++ [sourceID]));
  match r with
  | Err _ => mret none
  | Ok s => let m := Source.meta s in
            mret (SourceMeta.CharCount m, SourceMeta.MD5Hash m, SourceMeta.Format m)
  end.

(** [func (b *Book) ListSource]: entries that do not open are skipped. *)
Definition is_temp_entry (name : bytes) : bool :=
  HasPrefix name (str ".") && HasSuffix name (str ".tmp").
Definition source_id (s : Source.Source) : bytes := SourceMeta.ID (Source.meta s).
Definition source_le (a b : Source.Source) : Prop := str_le (source_id a) (source_id b).
#[global] Instance source_le_dec : RelDecision source_le.
Proof. intros a b. unfold source_le. apply _. Defined.

Fixpoint open_sources (rw : bool) (dir : path) (names : list bytes) : M world (list Source.Source) :=
  match names with
  | [] => mret []
  | name :: names =>
      r ← try (Source.openSource rw (dir ++ [name]));
      rest ← open_sources rw dir names;
      mret (match r with Ok s => s :: rest | Err _ => rest end)
  end.
Definition ListSource (b : Book) : M world (list Source.Source) :=
  let dir := sources_path (folderPath b) in
  es ← ReadDir dir;
  let names := filter (λ name, is_temp_entry name = false)
                 (filter (λ e, is_dir e.2 = true) es).*1 in
  sources ← open_sources (writable b) dir names;
  mret (merge_sort source_le sources).

(** [func (b *Book) ResolveCurrentSource] *)
Definition ResolveCurrentSource (b : Book) : M world Source.Source :=
  let currentID := CurrentSource (meta b) in
  r ← (if decide (currentID = []) then mret (Err ErrSourceNotFound)
       else try (GetSource b currentID));
  match r with
  | Ok s => mret s
  | Err _ =>
      l ← try (ListSource b);
      match l with
      | Err e => throw (if errors_Is e ENotExist then ErrSourceNotFound else e)
      | Ok sources =>
          match last sources with Some s => mret s | None => throw ErrSourceNotFound end
      end
  end.

(** [func (b *Book) latestSourceExcluding] *)
Definition latest_of (excludeID : bytes) (sources : list Source.Source) : option Source.Source :=
  foldl (λ latest source,
    if decide (source_id source = excludeID) then latest else
    match latest with
    | None => Some source
    | Some l => if decide (str_lt (source_id l) (source_id source)) then Some source else latest
    end) None sources.
Definition latestSourceExcluding (b : Book) (excludeID : bytes) : M world (option Source.Source) :=
  l ← try (ListSource b);
  match l with
  | Err e => if errors_Is e ENotExist then mret None else throw e
  | Ok sources => mret (latest_of excludeID sources)
  end.

(** [func (b *Book) handOverCurrentSource] *)
Definition handOverCurrentSource (b : Book) (leavingID : bytes) : M world Book :=
  successor ← latestSourceExcluding b leavingID;
  successorID ← (match successor with
                 | Some s => mret (source_id s)
                 | None => replacement ← NewSource b None; mret (source_id replacement)
                 end);
  SetCurrentSource b successorID.

(** [func (b *Book) DeleteSource] *)
Definition DeleteSource (b : Book) (sourceID : bytes) : M world Book :=
  of_result (ValidateSourceID sourceID);;
  writeRoot b;;
  let deletingCurrent := bool_decide (sourceID = CurrentSource (meta b)) in
  (if deletingCurrent then EnsureWritable b else mret tt);;
  let sourcePath := sources_path (folderPath b) ++ [sourceID] in
  st ← try (Stat sourcePath);
  match st with
  | Err e => throw (if errors_Is e ENotExist then ErrSourceNotFound else e)
  | Ok _ =>
      source ← Source.openSource (writable b) sourcePath;
      Source.EnsureWritable source;;
      b' ← (if deletingCurrent then handOverCurrentSource b sourceID else mret b);
      RemoveAll sourcePath;;
      mret b'
  end.
End ops.
End Book.
