(* ===== verification/BookSpec.v ===== *)
(** * What the operations of a book guarantee

    [setMeta_spec]: metadata is checked, then replaced as a whole.
    [DeleteSource_spec]: a book is never left pointing at a source that was
    removed. [freeSourceID] always finds a name. *)

From S2P Require Import Prelude Utf8 Strings Json Fs FsSpec Atomic ShelfUtil BookMeta Source Frame Book.

Module BookSpec.
Import BookMeta Atomic ShelfUtil Book.

Section spec.
Context `{UnicodeCase, TimeText, Machine, Digest}.

(** ** Replacing the metadata *)

(** What [setMeta] accepts. *)
Record acceptable (m : BookMeta) : Prop := {
  acc_language : ValidateBCP47 (Language m) = true;
  acc_star : (MinStar ≤ Star m ≤ MaxStar)%Z;
  acc_format : ValidateBookFormat (Format m) = true;
  acc_identifiers k v : Identifiers m !! k = Some v → TrimSpace k ≠ [];
}.

Definition stamped (m : BookMeta) : BookMeta := set_SchemaVersion BookMetaSchemaVersion m.

Record setMeta_outcome (b : Book) (m : BookMeta) (w : world)
    (r : result error Book) (w' : world) : Prop := {
  sm_replaced : replaced (meta_path (folderPath b)) (eq (Doc (encode (stamped m))))
    (wtree w) (wtree w');
  sm_unchanged : wtree w' = wtree w ∨ acceptable m;
  sm_refused : (BookMetaSchemaVersion < SchemaVersion (meta b))%Z →
    r = Err ErrUnsupportedBookSchemaVersion ∧ wtree w' = wtree w;
  sm_readonly : writable b = false → wtree w' = wtree w ∧ is_ok r = false;
  sm_done b' : r = Ok b' →
    meta b' = stamped m ∧ folderPath b' = folderPath b ∧ writable b' = writable b ∧
    ∃ z, wtree w' !! meta_path (folderPath b) = Some (File (Doc (encode (stamped m))) z);
}.

Lemma meta_path_ok p : meta_path p ≠ [] ∧ base (meta_path p) ≠ [].
Proof. apply Source.file_path_ok. done. Qed.

Lemma wp_stat_written p c (Q : result error FileStat.FileStat → world → Prop) w :
  (∀ s n, Q (Ok s) (mkWorld (wtree w) n)) → wp (stat_written p c) Q w.
Proof.
  intros HQ. apply wp_bind, wp_try, wp_bind, wp_StatInfo. intros [n|e] k _ _.
  - apply wp_ret. simpl. apply wp_ret. apply HQ.
  - simpl. apply wp_bind, wp_now. intros z j. apply wp_ret. apply HQ.
Qed.

Lemma existsb_blank m :
  existsb (λ key, bool_decide (TrimSpace key = [])) (map_to_list (Identifiers m)).*1 = false →
  ∀ k v, Identifiers m !! k = Some v → TrimSpace k ≠ [].
Proof.
  intros Hf k v Hk Ht. apply not_true_iff_false in Hf. apply Hf, existsb_exists.
  exists k. split; [|by apply bool_decide_true].
  apply list_elem_of_In, list_elem_of_fmap. exists (k, v). split; [done|].
  by apply elem_of_map_to_list.
Qed.

Lemma wp_setMeta b m w :
  wf_tree (wtree w) → wp (setMeta b m) (setMeta_outcome b m w) w.
Proof.
  intros Hwf. assert (∀ e,
    ((BookMetaSchemaVersion < SchemaVersion (meta b))%Z → e = ErrUnsupportedBookSchemaVersion) →
    setMeta_outcome b m w (Err e) w) as Hsame.
  { intros e He. split; [apply replaced_refl|by left| |done|done].
    intros Hv. by rewrite He. }
  apply wp_bind, wp_guard; intros Hv; [by apply Hsame|]. apply Z.ltb_ge in Hv.
  assert (∀ e, setMeta_outcome b m w (Err e) w) as Hsame' by (intros; apply Hsame; lia).
  clear Hsame.
  apply wp_bind, wp_guard; intros Hrw; [done|]. apply negb_false_iff in Hrw.
  apply wp_bind, wp_guard; intros Hlang; [done|]. apply negb_false_iff in Hlang.
  apply wp_bind, wp_guard; intros Hstar; [done|].
  apply wp_bind, wp_guard; intros Hfmt; [done|]. apply negb_false_iff in Hfmt.
  apply wp_bind, wp_guard; intros Hids; [done|].
  assert (acceptable m) as Hacc.
  { split; [done|lia|done|by apply existsb_blank]. }
  destruct (meta_path_ok (folderPath b)). cbv zeta.
  apply wp_bind, wp_WriteFileAtomic; [done..| |].
  - intros e w' Hr. split; [done|by right|lia|congruence|done].
  - intros z w' Hr Hl. apply wp_bind, wp_stat_written. intros s n. apply wp_ret.
    split; [done|by right|lia|congruence|]. intros b' [= <-]. simpl. eauto.
Qed.

(** replacing the metadata of a book. A success means the values
    passed every check (a BCP 47 language, zero to five stars, a known
    format, no blank identifier) and [book.json] holds exactly them, stamped
    with this build's schema version, as does the book in memory. Whatever
    fails, [book.json] holds the old metadata or the new one, and no other
    file changes but temporary siblings. A book of a newer schema and a
    read-only file system are refused before anything is written. *)
Theorem setMeta_spec b m w :
  wf_tree (wtree w) → wp (setMeta b m) (setMeta_outcome b m w) w.
Proof. apply wp_setMeta. Qed.

(** ** The frame of the source operations *)
Lemma keeps_createSource sp id src opts :
  keeps (under sp) (λ q, under q sp) (Source.createSource sp id src opts).
Proof.
  assert (∀ f q, temp_of (sp ++ [f]) q → under sp q) as Ht by (intros f q Hq; by eapply temp_of_under).
  unfold Source.createSource. frame.
  - by apply keeps_MkdirAll.
  - destruct (Source.file_path_ok sp Source.SourceFile) as [? ?]; [done|].
    apply keeps_WriteAtomic; eauto.
  - destruct (Source.file_path_ok sp Source.SourceMetaFile) as [? ?]; [done|].
    apply keeps_WriteFileAtomic; eauto.
Qed.

Lemma wp_freeSourceID_loop fuel dir b0 sid i (Q : result error bytes → world → Prop) w :
  wf_tree (wtree w) →
  (∀ e n, Q (Err e) (mkWorld (wtree w) n)) →
  (∀ s n, wtree w !! (dir ++ [s]) = None → Q (Ok s) (mkWorld (wtree w) n)) →
  wp (freeSourceID_loop fuel dir b0 sid i) Q w.
Proof.
  intros Hwf HE HO. destruct w as [t k]. simpl in *. revert sid i k. induction fuel as [|fuel IH]; intros sid i k.
  { apply wp_throw, HE. }
  apply wp_bind, wp_try, wp_Stat. intros r n Hr. simpl in *. destruct r as [nd|e]; [apply IH|].
  destruct (errors_Is e ENotExist) eqn:He; [|apply wp_throw, HE].
  apply errors_Is_ENotExist in He as ->. apply wp_ret, HO.
  destruct Hr as [Hr|[=]]. by apply find_node_missing.
Qed.

(** An entry of the [sources] directory that a new source may use: one that
    was free, or a staging directory. *)
Definition fresh_entry (t : tree) (dir : path) (q : path) : Prop :=
  ∃ n, under (dir ++ [n]) q ∧ (t !! (dir ++ [n]) = None ∨ ∃ b s, n = temp_dir_name b s).

Lemma fresh_entry_other t dir id q :
  is_Some (t !! (dir ++ [id])) → ¬ (str "." `prefix_of` id) →
  under (dir ++ [id]) q → ¬ fresh_entry t dir q.
Proof.
  intros [x Hx] Hdot Hq (n & Hn & Hfree).
  pose proof (under_sibling _ _ _ _ Hq Hn) as <-.
  destruct Hfree as [?|(b & s & ->)]; [congruence|]. apply Hdot. by eexists.
Qed.

Lemma wp_NewSource b src opts (Q : result error Source.Source → world → Prop) w :
  wf_tree (wtree w) →
  (∀ r w', wf_tree (wtree w') →
    touched (fresh_entry (wtree w) (sources_path (folderPath b)))
      (λ q, under q (sources_path (folderPath b))) (wtree w) (wtree w') →
    (∀ s, r = Ok s → wtree w !! (sources_path (folderPath b) ++ [source_id s]) = None) →
    Q r w') →
  wp (NewSourceWithOptions b src opts) Q w.
Proof.
  intros Hwf HQ. set (dir := sources_path (folderPath b)).
  assert (∀ e n, Q (Err e) (mkWorld (wtree w) n)) as HE.
  { intros e n. apply HQ; [done|apply touched_refl|done]. }
  destruct w as [t k]. simpl in *.
  apply wp_bind, wp_guard; intros _; [apply HE|].
  apply wp_bind, wp_guard; intros _; [apply HE|]. cbv zeta.
  apply wp_bind, wp_guard; intros _; [apply HE|].
  apply wp_bind, wp_now. intros z n. apply wp_bind. unfold freeSourceID. apply wp_bind, wp_gets.
  apply wp_freeSourceID_loop; simpl; [done|apply HE|]. intros sid n' Hfree.
  apply wp_bind. unfold TempDirName. apply wp_bind, wp_RandomString. intros s n'' _ _.
  apply wp_ret. simpl. fold dir in Hfree |- *.
  set (opts' := if decide (Source.oFormat opts = []) then _ else opts).
  assert (∀ q, under (dir ++ [temp_dir_name sid s]) q → fresh_entry t dir q) as Htmp.
  { intros q Hq. exists (temp_dir_name sid s). split; [done|]. right. eauto. }
  assert (∀ q, under (dir ++ [sid]) q → fresh_entry t dir q) as Hnew.
  { intros q Hq. exists sid. auto. }
  set (body := mbind _ _).
  assert (keeps (fresh_entry t dir) (λ q, under q dir) (deferred body
    (RemoveAll (dir ++ [temp_dir_name sid s])))) as Hk.
  { apply keeps_deferred; [|by apply keeps_RemoveAll]. apply keeps_bind.
    - intros w Hw. destruct (keeps_createSource (dir ++ [temp_dir_name sid s]) sid
        (default (mkReader [] None) src) opts' w Hw) as [Hw' Ht]. split; [done|].
      intros q. destruct (Ht q) as [?|[?|(? & ? & Hu)]]; [auto..|].
      apply under_snoc in Hu as [Hu|Hu]; [by auto|]. left. apply Htmp. by rewrite Hu.
    - intros src'. apply keeps_bind; [by apply keeps_Rename|]. intros _. apply keeps_ret. }
  assert (returns (λ x, source_id x = sid) (deferred body
    (RemoveAll (dir ++ [temp_dir_name sid s])))) as Hr.
  { apply returns_deferred. eapply (returns_bind (λ x, source_id x = sid)).
    - unfold Source.createSource. repeat (eapply returns_bind; [apply returns_any|intros ? _]).
      by apply returns_ret.
    - intros x Hx. eapply returns_bind; [apply returns_any|]. intros _ _. by apply returns_ret. }
  unfold wp. apply HQ; simpl in *.
  - by apply (Hk (mkWorld t n'')).
  - by apply (Hk (mkWorld t n'')).
  - intros s' Hs'. apply Hr in Hs' as ->. done.
Qed.

(** ** Moving the current source *)

(** Opening a source shows that its directory is there. *)
Lemma wp_GetSource b sid (Q : result error Source.Source → world → Prop) w :
  wf_tree (wtree w) →
  (∀ e n, Q (Err e) (mkWorld (wtree w) n)) →
  (∀ s n, ValidateSourceID sid = Ok tt →
    wtree w !! (sources_path (folderPath b) ++ [sid]) = Some Dir →
    Q (Ok s) (mkWorld (wtree w) n)) →
  wp (GetSource b sid) Q w.
Proof.
  intros Hwf HE HO. destruct w as [t k]. simpl in *. apply wp_bind, wp_of_result.
  destruct (ValidateSourceID sid) as [[]|e] eqn:Hv; [|apply HE].
  apply wp_bind, wp_try, wp_Stat. intros r n _. destruct r as [nd|e]; simpl.
  2: { apply wp_throw, HE. }
  apply wp_bind, Source.wp_Open_content; [intros; apply HE|].
  intros c z n' Hc. simpl in *.
  assert (t !! (sources_path (folderPath b) ++ [sid]) = Some Dir) as Hd.
  { eapply (wf_parent _ Hwf). rewrite Hc. by eexists. }
  destruct (unmarshal SourceMeta.decode c); [apply wp_ret|apply wp_throw]; auto.
Qed.

(** The files next to [sources] that belong to the book itself. *)
Definition book_file (p : path) (q : path) : Prop := ∃ f, q = p ++ [f] ∧ f ≠ SourcesFolder.

(** The book file names [cur], an existing source, as the current one. *)
Definition points_to (p : path) (t : tree) (cur : bytes) : Prop :=
  ∃ m z, t !! meta_path p = Some (File (Doc (encode m)) z) ∧ CurrentSource m = cur ∧
    t !! (sources_path p ++ [cur]) = Some Dir.

Lemma book_file_other p q :
  under (p ++ [SourcesFolder]) q → ¬ book_file p q.
Proof.
  intros Hu (g & -> & Hg). apply Hg. eapply under_sibling; [|exact Hu]. auto.
Qed.

Lemma book_file_temp p f q :
  temp_of (p ++ [f]) q → book_file p q.
Proof.
  intros (n & -> & Hn). unfold dirname. rewrite length_app. simpl.
  rewrite Nat.add_sub, take_app_length. exists n. split; [done|]. by intros ->.
Qed.

Lemma keeps_hint b sid :
  keeps (λ q, ∃ f, q = folderPath b ++ [f] ∧ f ≠ SourcesFolder ∧ f ≠ BookMetaFile)
    (λ _, False) (writeCurrentSourceHint b sid).
Proof.
  unfold writeCurrentSourceHint, writeRoot. frame.
  - destruct (Source.file_path_ok (folderPath b) CurrentSourceHintFile); [done|].
    apply keeps_WriteFileAtomic; [done..|by exists CurrentSourceHintFile|].
    intros q (n & -> & Hn). unfold dirname. rewrite length_app. simpl.
    rewrite Nat.add_sub, take_app_length. exists n. split; [done|]. by split; intros ->.
  - apply keeps_Remove. by exists LegacyCurrentSourceHintFile.
Qed.

Lemma keeps_setMeta b m : keeps (book_file (folderPath b)) (λ _, False) (setMeta b m).
Proof.
  unfold setMeta, EnsureWritable, writeRoot, stat_written, FileStat.getFileStat.
  destruct (meta_path_ok (folderPath b)). frame.
  apply keeps_WriteFileAtomic; [done..|by exists BookMetaFile|]. apply book_file_temp.
Qed.

Record current_outcome (b : Book) (sid : bytes) (w : world)
    (r : result error Book) (w' : world) : Prop := {
  cur_wf : wf_tree (wtree w');
  cur_touched : touched (book_file (folderPath b)) (λ _, False) (wtree w) (wtree w');
  cur_written : wtree w' !! meta_path (folderPath b) = wtree w !! meta_path (folderPath b) ∨
    points_to (folderPath b) (wtree w') sid;
  cur_done b' : r = Ok b' → points_to (folderPath b) (wtree w') sid ∧
    CurrentSource (meta b') = sid ∧ folderPath b' = folderPath b;
}.

Lemma mirror_current m s : CurrentSource (mirrorSourceFormatIntoBookMeta m s) = CurrentSource m.
Proof. unfold mirrorSourceFormatIntoBookMeta. by case_decide. Qed.

Lemma wp_SetCurrentSource b sid w :
  wf_tree (wtree w) → wp (SetCurrentSource b sid) (current_outcome b sid w) w.
Proof.
  intros Hwf. set (p := folderPath b).
  assert (∀ e n, current_outcome b sid w (Err e) (mkWorld (wtree w) n)) as HE.
  { intros e n. split; [done|apply touched_refl|by left|done]. }
  destruct w as [t k]. simpl in *.
  apply wp_bind, wp_guard; intros _; [apply HE|].
  apply wp_bind, wp_GetSource; [done|exact HE|]. intros s n Hv Hsrc. simpl in *.
  set (m := mirrorSourceFormatIntoBookMeta _ s).
  assert (CurrentSource m = sid) as Hm by apply mirror_current.
  assert (p ++ [BookMetaFile] = meta_path p) as Hmp by done.
  assert (∀ t', wf_tree t' → touched (book_file p) (λ _, False) t t' →
    t' !! (sources_path p ++ [sid]) = Some Dir) as Hkeep.
  { intros t' Hwf' Ht. eapply touched_some; [done| |done]. apply book_file_other.
    exists [sid]. unfold sources_path. by rewrite <-app_assoc. }
  apply wp_bind. eapply wp_mono; [apply wp_conj; [apply keeps_wp, Hwf; apply keeps_setMeta
    |by apply wp_setMeta]|]. simpl.
  intros [b'|e] w1 [[Hwf1 Ht1] Hout].
  - destruct (sm_done _ _ _ _ _ Hout b' eq_refl) as (Hmb & Hfp & _ & z & Hz).
    fold p in Hz, Ht1. apply wp_bind, wp_ignore.
    eapply wp_mono; [apply keeps_wp, Hwf1; apply (keeps_hint b')|]. simpl.
    intros _ w2 [Hwf2 Ht2]. rewrite Hfp in Ht2. fold p in Ht2. apply wp_ret.
    assert (touched (book_file p) (λ _, False) t (wtree w2)) as Ht.
    { eapply touched_trans; [done|]. eapply touched_mono; [| |done]; [|done].
      intros q (f & -> & ? & _). by exists f. }
    assert (points_to p (wtree w2) sid) as Hpt.
    { exists (stamped m), z. split; [|split; [done|by apply Hkeep]].
      eapply touched_some; [exact Ht2| |exact Hz].
      intros (f & E & _ & Hf). rewrite <-Hmp in E. by apply app_inj_tail in E as [_ <-]. }
    split; [done|done|by right|]. intros b'' [= <-]. rewrite Hmb. auto.
  - split; [done|done| |done]. destruct (sm_replaced _ _ _ _ _ Hout) as [[Ho|(c & z & <- & Hz)] _];
      [by left|]. right. exists (stamped m), z. split; [done|]. split; [done|]. by apply Hkeep.
Qed.

(** ** Deleting a source *)

(** What [DeleteSource] guarantees, error or not. *)
Record delete_outcome (b : Book) (sid : bytes) (w : world)
    (r : result error Book) (w' : world) : Prop := {
  (** the source is whole, or nothing points to it any more *)
  del_safe : (∀ q, under (sources_path (folderPath b) ++ [sid]) q → wtree w' !! q = wtree w !! q) ∨
    sid ≠ CurrentSource (meta b) ∨
    ∃ cur, cur ≠ sid ∧ points_to (folderPath b) (wtree w') cur;
  (** [book.json] is untouched or names an existing, other source *)
  del_meta : wtree w' !! meta_path (folderPath b) = wtree w !! meta_path (folderPath b) ∨
    ∃ cur, cur ≠ sid ∧ points_to (folderPath b) (wtree w') cur;
  (** every other source is whole *)
  del_others id q : id ≠ sid → ¬ (str "." `prefix_of` id) →
    is_Some (wtree w !! (sources_path (folderPath b) ++ [id])) →
    under (sources_path (folderPath b) ++ [id]) q → wtree w' !! q = wtree w !! q;
  (** success removed it, and a book it was current in reads elsewhere *)
  del_done b' : r = Ok b' →
    wtree w' !! (sources_path (folderPath b) ++ [sid]) = None ∧
    (sid = CurrentSource (meta b) → CurrentSource (meta b') ≠ sid ∧
      points_to (folderPath b) (wtree w') (CurrentSource (meta b')));
}.

Lemma latest_of_ne ex sources s : latest_of ex sources = Some s → source_id s ≠ ex.
Proof.
  unfold latest_of. revert s. induction sources as [|x l IH] using rev_ind; intros s; [done|].
  rewrite foldl_app. simpl. case_decide; [by apply IH|].
  destruct (foldl _ None l) as [y|]; [|by intros [= <-]].
  case_decide; [by intros [= <-]|]. by apply IH.
Qed.

Lemma reads_open_sources rw dir names :
  keeps (λ _, False) (λ _, False) (open_sources rw dir names).
Proof.
  induction names as [|n names IH]; simpl; [apply keeps_ret|].
  unfold Source.openSource. frame.
Qed.

Lemma reads_latestSourceExcluding b ex :
  keeps (λ _, False) (λ _, False) (latestSourceExcluding b ex).
Proof.
  unfold latestSourceExcluding, ListSource. frame. apply reads_open_sources.
Qed.

Lemma returns_latestSourceExcluding b ex :
  returns (λ o, ∀ s, o = Some s → source_id s ≠ ex) (latestSourceExcluding b ex).
Proof.
  unfold latestSourceExcluding. eapply returns_bind; [apply returns_any|]. intros [l|e] _.
  - apply returns_ret. intros s. apply latest_of_ne.
  - destruct (errors_Is e ENotExist); [by apply returns_ret|apply returns_throw].
Qed.

(** Before the source is removed: everything but the book's own files and
    fresh entries of [sources] is as it was. *)
Record handed_over (b : Book) (sid : bytes) (t : tree)
    (r : result error Book) (w' : world) : Prop := {
  ho_wf : wf_tree (wtree w');
  ho_touched : touched
    (λ q, fresh_entry t (sources_path (folderPath b)) q ∨ book_file (folderPath b) q)
    (λ q, under q (sources_path (folderPath b))) t (wtree w');
  ho_meta : wtree w' !! meta_path (folderPath b) = t !! meta_path (folderPath b) ∨
    ∃ cur, cur ≠ sid ∧ points_to (folderPath b) (wtree w') cur;
  ho_done b' : r = Ok b' → folderPath b' = folderPath b ∧ CurrentSource (meta b') ≠ sid ∧
    points_to (folderPath b) (wtree w') (CurrentSource (meta b'));
}.

Lemma meta_not_under_sources p : ¬ under (sources_path p) (meta_path p).
Proof. by apply under_child_ne. Qed.

Lemma fresh_entry_under t dir q : fresh_entry t dir q → under dir q ∧ q ≠ dir.
Proof.
  intros (n & Hn & _). split; [eapply under_trans; [|done]; auto|].
  intros ->. apply under_length in Hn. rewrite length_app in Hn. simpl in Hn. lia.
Qed.

Lemma wp_handOver b sid w :
  wf_tree (wtree w) → is_Some (wtree w !! (sources_path (folderPath b) ++ [sid])) →
  wp (handOverCurrentSource b sid) (handed_over b sid (wtree w)) w.
Proof.
  intros Hwf Hsid. set (p := folderPath b). set (dir := sources_path p).
  assert (∀ succ w1, succ ≠ sid → wf_tree (wtree w1) →
    touched (fresh_entry (wtree w) dir) (λ q, under q dir) (wtree w) (wtree w1) →
    wp (SetCurrentSource b succ) (handed_over b sid (wtree w)) w1) as Hset.
  { intros succ w1 Hne Hwf1 Ht1. eapply wp_mono; [by apply wp_SetCurrentSource|].
    intros r w2 [Hwf2 Ht2 Hw2 Hd2]. fold p in Ht2, Hw2, Hd2. split; [done| | |].
    - eapply touched_trans; eapply touched_mono; try done; simpl; auto; done.
    - destruct Hw2 as [E|Hpt]; [|eauto]. left. fold p. rewrite E.
      eapply touched_same; [done| |].
      + intros [Hu _]%fresh_entry_under. by apply (meta_not_under_sources p).
      + by apply under_child_ne.
    - intros b' E. destruct (Hd2 b' E) as (Hpt & -> & ?). auto. }
  assert (∀ e w1, wf_tree (wtree w1) →
    touched (fresh_entry (wtree w) dir) (λ q, under q dir) (wtree w) (wtree w1) →
    handed_over b sid (wtree w) (Err e) w1) as HE.
  { intros e w1 Hwf1 Ht1. split; [done| | |done].
    - eapply touched_mono; [| |done]; simpl; auto.
    - left. eapply touched_same; [done| |by apply under_child_ne].
      intros [Hu _]%fresh_entry_under. by apply (meta_not_under_sources p). }
  apply wp_bind, wp_reads; [apply reads_latestSourceExcluding|done|].
  intros r n Hr. destruct r as [[s|]|e]; [| |apply HE; [done|apply touched_refl]].
  - apply wp_bind, wp_ret. apply Hset; [|done|apply touched_refl].
    by apply (returns_latestSourceExcluding b sid w _ Hr).
  - apply wp_bind, wp_bind. unfold NewSource. apply wp_NewSource; [done|].
    intros [s|e] w1 Hwf1 Ht1 Hs; [|by apply HE]. apply wp_ret. apply Hset; [|done..].
    intros E. specialize (Hs s eq_refl). rewrite E in Hs. simpl in Hs.
    destruct Hsid as [x Hx]. unfold dir, p in *. congruence.
Qed.

Lemma no_dot sid : ValidateSourceID sid = Ok tt → ¬ (str "." `prefix_of` sid).
Proof. by intros [_ ?]%ValidatePathSegment_ok. Qed.

Lemma points_to_touched p sid cur t t' :
  touched (under (sources_path p ++ [sid])) (λ _, False) t t' → cur ≠ sid →
  points_to p t cur → points_to p t' cur.
Proof.
  intros Ht Hne (m & z & Hm & Hc & Hd). exists m, z. split_and!; [|done|].
  - eapply touched_some; [done| |done]. intros Hu. apply (meta_not_under_sources p).
    eapply under_trans; [|done]. auto.
  - eapply touched_some; [done| |done]. by apply under_child_ne.
Qed.

(** Claim C36: deleting a source never leaves the book pointing at nothing.
    Whatever fails and wherever, the source is removed only after [book.json]
    names another source that exists; until then it is whole. [book.json] is
    replaced only by one that names an existing source other than the deleted
    one; every other source stays byte for byte as it was; and on success the
    source is gone. *)
Theorem DeleteSource_spec b sid w :
  wf_tree (wtree w) → wp (DeleteSource b sid) (delete_outcome b sid w) w.
Proof.
  intros Hwf. set (p := folderPath b). set (dir := sources_path p).
  assert (∀ e n, delete_outcome b sid w (Err e) (mkWorld (wtree w) n)) as HE0.
  { intros e n. split; [by left|by left|done|done]. }
  destruct w as [t k]. simpl in *. apply wp_bind, wp_of_result.
  destruct (ValidateSourceID sid) as [[]|e] eqn:Hv; [|apply HE0]. apply no_dot in Hv.
  apply wp_bind, wp_guard; intros _; [apply HE0|].
  cbv zeta. fold p dir. set (del := bool_decide (sid = CurrentSource (meta b))).
  apply wp_bind. eapply (wp_mono _ (λ r w', w' = mkWorld t k)).
  { destruct del; [|by apply wp_ret]. by apply wp_guard. }
  intros [[]|e] ? ->; [|apply HE0].
  apply wp_bind, wp_try, wp_Stat. intros r n Hr. simpl in *. destruct r as [nd|e]; [|apply wp_throw, HE0].
  assert (is_Some (t !! (dir ++ [sid]))) as Hsid.
  { destruct Hr as [Hr|[=]]. symmetry in Hr. apply find_node_ok in Hr as [-> _]. by eexists. }
  apply wp_bind. unfold Source.openSource. apply wp_bind, Source.wp_Open_content;
    [intros; apply HE0|]. intros c z n' Hc. simpl in *.
  destruct (unmarshal SourceMeta.decode c) as [sm|]; [|apply wp_throw, HE0].
  apply wp_ret. apply wp_bind, wp_guard; intros _; [apply HE0|].
  set (P := λ q, fresh_entry t dir q ∨ book_file p q). set (D := λ q, under q dir).
  assert (∀ id q t', is_Some (t !! (dir ++ [id])) → ¬ (str "." `prefix_of` id) →
    under (dir ++ [id]) q → touched P D t t' → t' !! q = t !! q) as Hwhole.
  { intros id q t' Hid Hdot Hu Ht. eapply touched_same; [done| |].
    - intros [Hf|Hf]; [by eapply fresh_entry_other|].
      eapply book_file_other; [|done]. eapply under_trans; [|done]. auto.
    - intros Hq. eapply under_trans in Hq; [|done]. apply under_length in Hq.
      rewrite length_app in Hq. simpl in Hq. lia. }
  (* the removal, from a state where nothing but [P] changed *)
  assert (∀ b' w1, wf_tree (wtree w1) → touched P D t (wtree w1) →
    (wtree w1 !! meta_path p = t !! meta_path p ∧ sid ≠ CurrentSource (meta b) ∨
     sid = CurrentSource (meta b) ∧ CurrentSource (meta b') ≠ sid ∧
       points_to p (wtree w1) (CurrentSource (meta b'))) →
    wp (RemoveAll (dir ++ [sid]);; mret b') (delete_outcome b sid (mkWorld t k)) w1) as Hremove.
  { intros b' w1 Hwf1 Ht1 Hptr. apply wp_bind.
    eapply wp_mono; [apply wp_conj; [apply (keeps_wp (under (dir ++ [sid])) (λ _, False)), Hwf1;
      by apply keeps_RemoveAll|]|].
    { apply (wp_RemoveAll _ (λ r w2, r = Ok tt → fs_remove_all (wtree w1) (dir ++ [sid]) = (Ok tt, wtree w2))).
      by intros r t' j _ Hok. }
    simpl. intros r w2 [[Hwf2 Ht2] Hok].
    assert (∀ id q, id ≠ sid → ¬ (str "." `prefix_of` id) → is_Some (t !! (dir ++ [id])) →
      under (dir ++ [id]) q → wtree w2 !! q = t !! q) as Hothers.
    { intros id q Hne Hdot Hid Hu. rewrite <-(Hwhole id q (wtree w1)) by done.
      eapply touched_same; [exact Ht2| |by intros []].
      intros Hq. apply Hne. by eapply under_sibling. }
    assert (wtree w2 !! meta_path p = wtree w1 !! meta_path p) as Hmeta.
    { eapply touched_same; [exact Ht2| |by intros []]. intros Hu.
      apply (meta_not_under_sources p). eapply under_trans; [|done]. unfold dir. auto. }
    assert (sid ≠ CurrentSource (meta b) ∨ CurrentSource (meta b') ≠ sid ∧
       points_to p (wtree w2) (CurrentSource (meta b'))) as Hptr2.
    { destruct Hptr as [[_ ?]|(_ & ? & ?)]; [by left|]. right. split; [done|].
      by eapply points_to_touched. }
    destruct r as [[]|e].
    - apply wp_ret. split.
      + right. destruct Hptr2 as [?|[??]]; [by left|]. right. eauto.
      + fold p. rewrite Hmeta. destruct Hptr as [[? _]|(_ & ? & ?)]; [by left|].
        right. exists (CurrentSource (meta b')). split; [done|]. by eapply points_to_touched.
      + done.
      + intros ? [= <-]. split; [|naive_solver].
        apply fs_remove_all_ok in Hok as [[-> Hr']|[_ ->]]; [| |done].
        * destruct (wtree w1 !! (dir ++ [sid])) eqn:E; [|by unfold dir, p in E].
          rewrite resolve_some in Hr'; [done|done| |by eexists].
          unfold resolve in Hr'. by case_decide.
        * rewrite lookup_prune_none. by rewrite decide_True.
    - split; [| |done|done].
      + right. destruct Hptr2 as [?|[??]]; [by left|]. right. eauto.
      + fold p. rewrite Hmeta. destruct Hptr as [[? _]|(_ & ? & ?)]; [by left|].
        right. exists (CurrentSource (meta b')). split; [done|]. by eapply points_to_touched. }
  apply wp_bind. unfold del. case_bool_decide as Hcur.
  - eapply wp_mono; [by apply wp_handOver|]. intros r w1 [Hwf1 Ht1 Hm1 Hd1]. simpl in *.
    destruct r as [b'|e].
    + apply Hremove; [done|done|]. right. destruct (Hd1 b' eq_refl) as (_ & ? & ?). auto.
    + split; [left|done| |done].
      * intros q Hu. by eapply Hwhole.
      * intros id q _ Hdot Hid Hu. by eapply Hwhole.
  - apply wp_ret. apply Hremove; [done|apply touched_refl|]. by left.
Qed.

(** ** [freeSourceID] finds a name *)

(** The name tried in turn [i]. *)
Definition candidate (b0 : bytes) (i : nat) : bytes :=
  match i with 0 => b0 | S _ => b0 ++ str "-" ++ Itoa (Z.of_nat i) end.

Lemma candidate_inj b0 i j : candidate b0 i = candidate b0 j → i = j.
Proof.
  assert (∀ i, b0 ≠ b0 ++ str "-" ++ Itoa i) as Hne.
  { intros k E. apply (f_equal length) in E. rewrite length_app in E. simpl in E. lia. }
  destruct i as [|i], j as [|j]; unfold candidate; intros E; try done.
  - by apply Hne in E.
  - symmetry in E. by apply Hne in E.
  - apply app_inv_head in E. apply app_inv_head in E. apply Itoa_inj in E; lia.
Qed.

(** Distinct taken names are no more than the tree has entries. *)
Lemma taken_names_bound (t : tree) dir b0 n :
  (∀ i, i < n → is_Some (t !! (dir ++ [candidate b0 i]))) → n ≤ size t.
Proof.
  intros Hall. set (X := list_to_set ((λ i, dir ++ [candidate b0 i]) <$> seq 0 n) : gset path).
  assert (size X = n) as HX.
  { unfold X. rewrite size_list_to_set.
    - by rewrite length_fmap, length_seq.
    - apply NoDup_fmap_2; [|apply NoDup_seq]. intros i j E.
      apply app_inj_tail in E as [_ E]. by eapply candidate_inj. }
  assert (size X ≤ size (dom t)); [|rewrite size_dom in *; lia].
  apply subseteq_size. intros q Hq.
  apply elem_of_list_to_set, list_elem_of_fmap in Hq as (i & -> & Hi%elem_of_seq).
  apply elem_of_dom, Hall. lia.
Qed.

Lemma freeSourceID_loop_total fuel dir b0 i t k :
  (∀ n, fault n = NoFault) → wf_tree t → rooted dir → dir ≠ [] → t !! dir = Some Dir →
  size t < fuel + i → (∀ j, j < i → is_Some (t !! (dir ++ [candidate b0 j]))) →
  ∃ j n, freeSourceID_loop fuel dir b0 (candidate b0 i) (Z.of_nat (S i)) (mkWorld t k) =
    (Ok (candidate b0 j), mkWorld t n) ∧ t !! (dir ++ [candidate b0 j]) = None.
Proof.
  intros Hnf Hwf Hr Hne Hdir. revert i k. induction fuel as [|fuel IH]; intros i k Hf Htaken.
  { apply taken_names_bound in Htaken. lia. }
  assert (resolve t (dir ++ [candidate b0 i]) = None) as Hres.
  { apply resolve_ok; [done| |done]. unfold rooted in *. by destruct dir. }
  cbn [freeSourceID_loop]. unfold mbind, M_bind, try, Stat, read_step. rewrite Hnf. cbn [tick wtree].
  unfold find_node. rewrite Hres. destruct (t !! (dir ++ [candidate b0 i])) eqn:E.
  - replace (Z.of_nat (S i) + 1)%Z with (Z.of_nat (S (S i))) by lia.
    apply (IH (S i)); [lia|]. intros j Hj. destruct (decide (j = i)) as [->|]; [by eexists|].
    apply Htaken. lia.
  - eauto.
Qed.

(** when nothing fails, the search for a free source name ends:
    it returns the wanted name or that name with a number, one nothing in
    [sources] has. The bound on its turns is never reached. *)
Theorem freeSourceID_terminates b base t k :
  (∀ n, fault n = NoFault) → wf_tree t → rooted (folderPath b) →
  t !! sources_path (folderPath b) = Some Dir →
  ∃ j n, freeSourceID b base (mkWorld t k) = (Ok (candidate base j), mkWorld t n) ∧
    t !! (sources_path (folderPath b) ++ [candidate base j]) = None.
Proof.
  intros Hnf Hwf Hr Hdir. unfold freeSourceID. unfold mbind, M_bind, gets.
  apply (freeSourceID_loop_total _ _ base 0); try done; simpl; [|by destruct (folderPath b)|lia|lia].
  unfold rooted, sources_path in *. by destruct (folderPath b).
Qed.
End spec.
End BookSpec.
