(* ===== verification/NoFault.v ===== *)
(** * Runs without faults

    When no step fails by itself, every operation of the file system does
    exactly its pure effect; the rules below compute with it. They serve the
    theorems that say what the program achieves, not only what it spares. *)

From S2P Require Import Prelude Utf8 Strings Json Fs FsSpec Atomic BookMeta Frame Relocate.

(** The environment never fails. *)
Class NoFaults `{Machine} : Prop := no_fault : ∀ n, fault n = NoFault.

Section rules.
Context `{NoFaults}.

Lemma nf_read {A} (act : tree → result error A) Q w :
  Q (act (wtree w)) (mkWorld (wtree w) (S (tick w))) → wp (read_step act) Q w.
Proof. unfold wp, read_step. by rewrite no_fault. Qed.

Lemma nf_write act mid Q w :
  Q (act (wtree w)).1 (mkWorld (act (wtree w)).2 (S (tick w))) → wp (write_step act mid) Q w.
Proof. unfold wp, write_step. rewrite no_fault. by destruct (act (wtree w)). Qed.

Lemma find_node_at t p n : wf_tree t → rooted p → t !! p = Some n → find_node t p = Ok n.
Proof. intros. by apply find_node_some. Qed.

Lemma find_node_free t d s :
  wf_tree t → rooted (d ++ [s]) → t !! d = Some Dir → t !! (d ++ [s]) = None →
  find_node t (d ++ [s]) = Err ENotExist.
Proof. intros Hwf Hr Hd Hn. unfold find_node. by rewrite resolve_ok, Hn. Qed.

Lemma nf_Stat p Q w :
  Q (find_node (wtree w) p) (mkWorld (wtree w) (S (tick w))) → wp (Stat p) Q w.
Proof. intros HQ. by apply nf_read. Qed.

Lemma nf_Stat_at p n Q w :
  wf_tree (wtree w) → rooted p → wtree w !! p = Some n →
  Q (Ok n) (mkWorld (wtree w) (S (tick w))) → wp (Stat p) Q w.
Proof. intros Hwf Hr Hp HQ. apply nf_Stat. by rewrite (find_node_at _ _ n). Qed.

Lemma nf_Stat_free d s Q w :
  wf_tree (wtree w) → rooted (d ++ [s]) → wtree w !! d = Some Dir → wtree w !! (d ++ [s]) = None →
  Q (Err ENotExist) (mkWorld (wtree w) (S (tick w))) → wp (Stat (d ++ [s])) Q w.
Proof. intros. apply nf_Stat. by rewrite find_node_free. Qed.

Lemma nf_StatInfo_at p n Q w :
  wf_tree (wtree w) → rooted p → wtree w !! p = Some n →
  (∀ k, Q (Ok (n, file_info (tick w) p n)) (mkWorld (wtree w) k)) → wp (StatInfo p) Q w.
Proof.
  intros Hwf Hr Hp HQ. apply wp_bind, wp_gets, wp_bind, (nf_Stat_at _ n); [done..|].
  apply wp_ret, HQ.
Qed.

Lemma nf_Open_at p c z Q w :
  wf_tree (wtree w) → rooted p → wtree w !! p = Some (File c z) →
  Q (Ok c) (mkWorld (wtree w) (S (tick w))) → wp (Open p) Q w.
Proof. intros Hwf Hr Hp HQ. apply nf_read. by rewrite (find_node_at _ _ (File c z)). Qed.

Lemma nf_ReadDir_at p Q w :
  wf_tree (wtree w) → rooted p → wtree w !! p = Some Dir →
  Q (Ok (entries (wtree w) p)) (mkWorld (wtree w) (S (tick w))) → wp (ReadDir p) Q w.
Proof. intros Hwf Hr Hp HQ. apply nf_read. by rewrite (find_node_at _ _ Dir). Qed.

(** A rename of what is there to a path that is free in a directory. *)
Lemma nf_Rename_free o d s Q w :
  wf_tree (wtree w) → rooted o → rooted (d ++ [s]) → is_Some (wtree w !! o) →
  wtree w !! d = Some Dir → wtree w !! (d ++ [s]) = None → ¬ under o (d ++ [s]) →
  Q (Ok tt) (mkWorld (move (wtree w) o (d ++ [s])) (S (tick w))) → wp (Rename o (d ++ [s])) Q w.
Proof.
  intros Hwf Ho Hds [n Hn] Hd Hfree Hu HQ. apply nf_write.
  assert (fs_rename (wtree w) o (d ++ [s]) = (Ok tt, move (wtree w) o (d ++ [s]))) as ->; [|done].
  unfold fs_rename. rewrite (find_node_at _ _ n), resolve_ok, Hfree by done.
  rewrite decide_False by congruence. rewrite decide_False by done. by destruct n.
Qed.

Lemma nf_Remove_file p c z Q w :
  wf_tree (wtree w) → rooted p → wtree w !! p = Some (File c z) →
  Q (Ok tt) (mkWorld (delete p (wtree w)) (S (tick w))) → wp (Remove p) Q w.
Proof.
  intros Hwf Hr Hp HQ. apply nf_write. unfold fs_remove. by rewrite (find_node_at _ _ (File c z)).
Qed.

Lemma fs_mkdirs_there n t pre rest :
  wf_tree t → t !! (pre ++ rest) = Some Dir → fs_mkdirs n t pre rest = (Ok tt, t).
Proof.
  intros Hwf. revert pre. induction rest as [|x rest IH]; intros pre Hp; simpl; [done|].
  assert (t !! (pre ++ [x]) = Some Dir) as ->.
  { destruct (decide (rest = [])) as [->|]; [done|].
    apply (wf_ancestor t (pre ++ [x]) rest); [done| |done]. rewrite <-app_assoc. by eexists. }
  apply IH. by rewrite <-app_assoc.
Qed.

Lemma nf_MkdirAll_there p Q w :
  wf_tree (wtree w) → rooted p → wtree w !! p = Some Dir →
  Q (Ok tt) (mkWorld (wtree w) (S (tick w))) → wp (MkdirAll p) Q w.
Proof.
  intros Hwf Hr Hp HQ. apply nf_write. unfold fs_mkdir_all.
  rewrite decide_False by done. by rewrite fs_mkdirs_there.
Qed.
End rules.
