(* ===== verification/ShelfState.v ===== *)
(** * A shelf and its book cache: [src/shelf/shelf_cache.go]

    The state of a local shelf opened by [NewShelf] ([shelf.go]: its
    directory, its rules, its caches), folder paths ([util.go],
    [shelf_config.go]), the walk over [books/] ([shelf_book.go]:
    [iterateShelfTree]) and the operations of the book cache. Here
    [remote] is false and [walkRoot] is [dbRoot]; a remote shelf is built on
    these operations in CacheSnapshot and Offline. Handlers are sequential, so the cache's own mutex
    leaves no trace; the shelf lock is [Lock], [RLock] and [Unlock]. *)

From S2P Require Import Prelude Utf8 Strings Float64 Json Fs FsSpec Atomic ShelfUtil BookMeta Source Frame ScanCache FolderMeta Book.

(** What the shelf takes from elsewhere: the file lock (which may time out at
    a step), [uuid.NewV4], [slugify.Slugify] and [strings.ReplaceAll] are
    the environment's. *)
Class ShelfEnv := {
  lock_times_out : nat → bool;
  newUUID : nat → bytes;
  Slugify : bytes → bytes;
}.

Module Shelf.
Import ShelfUtil BookMeta Book FolderMeta.

Definition booksFolder : bytes := str "books".
Definition trashFolder : bytes := str "trash".
Definition trashBooksFolder : path := [trashFolder; booksFolder].
Definition legacyTrashFolder : bytes := str ".trash".
Definition legacyTrashBooksFolder : path := [legacyTrashFolder; booksFolder].
Definition bookExtension : bytes := str ".bookpkg".
Definition appFolder : bytes := str "app".
Definition appTmpFolder : bytes := str "tmp".

(** ** State

    The cache carries the claim and the tokens of rescans
    ([shelf_rescan.go]), the last export ([shelf_cache_export.go]) and the
    digest of the export a remote shelf applied
    ([shelf_cache_snapshot.go]). *)
Definition rescanBurst : Z := 5.
Definition rescanRefill : Z := (10 * second)%Z.

Record bookIDCacheEntry := mkEntry {
  folders : FolderPath;
  epath : path;
  book : Book;
  charCount : Z;
  sourceMD5 : bytes;
  sourceFormat : bytes;
  charCountAt : Z;
}.

Record bookCache := mkBookCache {
  cache : gmap bytes bookIDCacheEntry;
  cfolders : list FolderPath;
  folderMeta : gmap bytes FolderMeta;
  treeDirty : bool;
  lastFullScan : Z;
  lastScanStart : Z;
  scanInterval : Z;
  lastBookCheck : Z;
  bookCheckInterval : Z;
  rescanID : bytes;
  rescanTokens : F64.float64;
  rescanTokensAt : Z;
  lastExport : Z;
  lastExportDigest : bytes;
  remoteDigest : bytes;
}.

Inductive LockState := Unlocked | Shared | Exclusive.

Record Shelf := mkShelf {
  sworld : world;
  readOnly : bool;
  ready : bool;
  ignoreRules : gmap bytes IgnoredDir;
  nsfw : gmap bytes NSFWFolder;
  bcache : bookCache;
  scanCache : ScanCache.Cache;
  shelfLock : LockState;
}.

Definition set_world (w : world) (s : Shelf) : Shelf :=
  mkShelf w (readOnly s) (ready s) (ignoreRules s) (nsfw s) (bcache s) (scanCache s) (shelfLock s).
Definition set_cache (c : bookCache) (s : Shelf) : Shelf :=
  mkShelf (sworld s) (readOnly s) (ready s) (ignoreRules s) (nsfw s) c (scanCache s) (shelfLock s).
Definition set_scanCache (c : ScanCache.Cache) (s : Shelf) : Shelf :=
  mkShelf (sworld s) (readOnly s) (ready s) (ignoreRules s) (nsfw s) (bcache s) c (shelfLock s).
Definition set_lock (l : LockState) (s : Shelf) : Shelf :=
  mkShelf (sworld s) (readOnly s) (ready s) (ignoreRules s) (nsfw s) (bcache s) (scanCache s) l.
Definition stree (s : Shelf) : tree := wtree (sworld s).

Definition with_entries (m : gmap bytes bookIDCacheEntry) (c : bookCache) : bookCache :=
  mkBookCache m (cfolders c) (folderMeta c) (treeDirty c) (lastFullScan c) (lastScanStart c)
    (scanInterval c) (lastBookCheck c) (bookCheckInterval c) (rescanID c)
    (rescanTokens c) (rescanTokensAt c) (lastExport c) (lastExportDigest c) (remoteDigest c).
Definition with_folders (l : list FolderPath) (c : bookCache) : bookCache :=
  mkBookCache (cache c) l (folderMeta c) (treeDirty c) (lastFullScan c) (lastScanStart c)
    (scanInterval c) (lastBookCheck c) (bookCheckInterval c) (rescanID c)
    (rescanTokens c) (rescanTokensAt c) (lastExport c) (lastExportDigest c) (remoteDigest c).
Definition with_folderMeta (m : gmap bytes FolderMeta) (c : bookCache) : bookCache :=
  mkBookCache (cache c) (cfolders c) m (treeDirty c) (lastFullScan c) (lastScanStart c)
    (scanInterval c) (lastBookCheck c) (bookCheckInterval c) (rescanID c)
    (rescanTokens c) (rescanTokensAt c) (lastExport c) (lastExportDigest c) (remoteDigest c).
Definition with_treeDirty (b : bool) (c : bookCache) : bookCache :=
  mkBookCache (cache c) (cfolders c) (folderMeta c) b (lastFullScan c) (lastScanStart c)
    (scanInterval c) (lastBookCheck c) (bookCheckInterval c) (rescanID c)
    (rescanTokens c) (rescanTokensAt c) (lastExport c) (lastExportDigest c) (remoteDigest c).
Definition with_lastBookCheck (t : Z) (c : bookCache) : bookCache :=
  mkBookCache (cache c) (cfolders c) (folderMeta c) (treeDirty c) (lastFullScan c)
    (lastScanStart c) (scanInterval c) t (bookCheckInterval c) (rescanID c)
    (rescanTokens c) (rescanTokensAt c) (lastExport c) (lastExportDigest c) (remoteDigest c).

(** A step on the shelf's directory, and one on its book cache. *)
Definition lift {A : Type} (m : M world A) : M Shelf A := λ s,
  let '(r, w) := m (sworld s) in (r, set_world w s).
Definition update_cache (f : bookCache → bookCache) : M Shelf unit :=
  modify (λ s, set_cache (f (bcache s)) s).

(** [func newBookCache] *)
Definition newBookCache (scanInterval bookCheckInterval : Z) : bookCache :=
  mkBookCache ∅ [] ∅ false zero_time zero_time scanInterval zero_time bookCheckInterval
    [] (F64.of_int rescanBurst) zero_time zero_time [] [].

(** ** Folder paths *)

(** [path.Join(booksFolder, path.Join(folders...))] *)
Definition folderDir (folders : FolderPath) : path := foldl pjoin [booksFolder] folders.

(** [func validateFolderPath] *)
Fixpoint validateFolderPath (folders : FolderPath) : result error unit :=
  match folders with
  | [] => Ok tt
  | folder :: rest =>
      match ValidateFolderSegment folder with
      | Err _ => Err ErrInvalidFolder
      | Ok _ => if Contains folder bookExtension then Err ErrInvalidFolder
                else validateFolderPath rest
      end
  end.

(** [func bookFolderPath] *)
Definition bookFolderPath (folderPath : path) : FolderPath := drop 1 (dirname folderPath).

Section rules.
Context `{UnicodeCase}.

(** [func (s *Shelf) ValidateFolderPath] *)
Definition ValidateFolderPath (s : Shelf) (folders : FolderPath) : result error unit :=
  _ ← validateFolderPath folders ;;!
  if existsb (IsIgnoredDir (ignoreRules s)) folders then Err ErrIgnoredFolderName else Ok tt.

(** [shelf_nsfw.go] *)
Definition ShelfIsNSFWFolder (s : Shelf) (folders : FolderPath) : bool :=
  IsNSFWFolder (nsfw s) folders.
Definition IsBookNSFW (s : Shelf) (folders : FolderPath) (m : option BookMeta) : bool :=
  match m with Some m => if NSFW m then true else ShelfIsNSFWFolder s folders
             | None => ShelfIsNSFWFolder s folders end.
End rules.

(** [func sortFolders] *)
Definition folder_le (a b : FolderPath) : Prop := str_le (String a) (String b).
#[global] Instance folder_le_dec : RelDecision folder_le.
Proof. intros a b. unfold folder_le. apply _. Defined.
Definition sortFolders (l : list FolderPath) : list FolderPath := merge_sort folder_le l.

(** [func keepNewerCharCount] *)
Definition keepNewerCharCount (entry : bookIDCacheEntry) (published : option bookIDCacheEntry) :
    bookIDCacheEntry :=
  match published with
  | None => entry
  | Some p =>
      if negb (charCountAt entry <? charCountAt p)%Z then entry
      else mkEntry (folders entry) (epath entry) (book entry)
             (charCount p) (sourceMD5 p) (sourceFormat p) (charCountAt p)
  end.

(** ** The walk: [iterateShelfTree]

    The callbacks thread an accumulator and say whether to go on; nil is
    [None]. A directory is descended with fuel for every level of the
    tree. *)
Record Visitor (A : Type) := mkVisitor {
  onFolder : option (FolderPath → A → A * bool);
  onFolderMeta : option (FolderPath → A → A);
  onBook : option (Book → A → M world (A * bool));
}.
Arguments onFolder {A}. Arguments onFolderMeta {A}. Arguments onBook {A}.

Record walkState (A : Type) := mkWalkState { acc : A; walk : ScanCache.Walk; skipAll : bool }.
Arguments mkWalkState {A}. Arguments acc {A}. Arguments walk {A}. Arguments skipAll {A}.

Section ops.
Context `{UnicodeCase, TimeText, Machine, Digest, ShelfEnv}.

(** ** The lock and the write root *)
Definition acquire (l : LockState) : M Shelf unit :=
  k ← gets (λ s, tick (sworld s));
  lift now;;
  guard_err (lock_times_out k) ErrShelfLockTimeout;;
  modify (set_lock l).
Definition Lock : M Shelf unit := acquire Exclusive.
Definition RLock : M Shelf unit := acquire Shared.
Definition Unlock : M Shelf unit := modify (set_lock Unlocked).

(** A handler's body between [Lock] and the deferred [Unlock]. *)
Definition locked {A : Type} (m : M Shelf A) : M Shelf A := Lock;; deferred m Unlock.
Definition rlocked {A : Type} (m : M Shelf A) : M Shelf A := RLock;; deferred m Unlock.

(** [func (s *Shelf) writeRoot] *)
Definition writeRoot : M Shelf unit :=
  ro ← gets readOnly; guard_err ro ErrReadOnly.
Definition IsReady : M Shelf bool := gets ready.
Definition openBook (p : path) : M Shelf Book :=
  ro ← gets readOnly; lift (OpenBook (negb ro) p).

(** ** Entries *)
Definition readBookIDCacheEntry (folders : FolderPath) (p : path) (b : Book) :
    M world bookIDCacheEntry :=
  readAt ← now;
  stat ← CurrentSourceStat b;
  let '(charCount, md5, format) := stat in
  mret (mkEntry folders p b charCount md5 format readAt).

(** The visit of a [folder.json]. *)
Definition visit_meta {A : Type} (v : Visitor A) (pth : path) (a : A) : A :=
  match onFolderMeta v with
  | Some f =>
      if decide (base pth = FolderMetaFile) then
        let parent := dirname pth in
        if decide (parent ≠ [booksFolder]) then f (drop 1 parent) a else a
      else a
  | None => a
  end.

Definition visit_book {A : Type} (rw : bool) (v : Visitor A) (pth : path) (st : walkState A) :
    M world (walkState A) :=
  match onBook v with
  | None => mret st
  | Some f =>
      opened ← try (OpenBook rw pth);
      match opened with
      | Err _ => mret st
      | Ok b =>
          '(a, go) ← f b (acc st);
          mret (mkWalkState a (walk st) (negb go))
      end
  end.

Fixpoint dfs {A : Type} (rw : bool) (ign : gmap bytes IgnoredDir) (v : Visitor A) (fuel : nat)
    (pth : path) (child : option ScanCache.DirChild) (parentListingReused : bool)
    (st : walkState A) : M world (walkState A) :=
  match fuel with
  | 0 => throw (Msg "fuel")
  | S fuel =>
      if skipAll st then mret st else
      found ← try (ScanCache.ChildIsDir pth child);
      match found with
      | Err _ => mret st
      | Ok isDir =>
          let st := mkWalkState (visit_meta v pth (acc st)) (walk st) (skipAll st) in
          if negb isDir then mret st else
          let folderName := base pth in
          if IsIgnoredDir ign folderName then mret st else
          if HasSuffix folderName bookExtension then visit_book rw v pth st else
          let '(a, go) := match onFolder v with
                          | Some f => f (drop 1 pth) (acc st)
                          | None => (acc st, true)
                          end in
          if negb go then mret (mkWalkState a (walk st) true) else
          '(listed, w) ← ScanCache.WReadDir (walk st) pth parentListingReused;
          let st := mkWalkState a w (skipAll st) in
          match listed with
          | Err _ => mret st
          | Ok (children, trusted) =>
              foldl (λ m c,
                st ← m;
                dfs rw ign v fuel (pth ++ [ScanCache.Name c]) (Some c) trusted st)
                (mret st) children
          end
      end
  end.

(** Fuel: no path of the tree is longer than it has entries. *)
Definition walk_fuel (t : tree) : nat := S (S (size t)).

Definition iterateShelfTree {A : Type} (v : Visitor A) (a : A) : M Shelf A :=
  s ← gets id;
  let w := ScanCache.NewWalk (scanCache s) in
  st ← lift (dfs (negb (readOnly s)) (ignoreRules s) v (walk_fuel (stree s)) [booksFolder] None true
               (mkWalkState a w false));
  modify (λ s, set_scanCache
    (if skipAll st then ScanCache.Abandon (walk st) (scanCache s)
     else ScanCache.Install (walk st) (scanCache s)) s);;
  mret (acc st).

(** ** A full scan *)
Record scanAcc := mkScanAcc {
  sfolders : list FolderPath;
  smetaFolders : list FolderPath;
  scache : gmap bytes bookIDCacheEntry;
}.

Definition scan_visitor : Visitor scanAcc := {|
  onFolder := Some (λ ls a, (mkScanAcc (sfolders a ++ [ls]) (smetaFolders a) (scache a), true));
  onFolderMeta := Some (λ f a, mkScanAcc (sfolders a) (smetaFolders a ++ [f]) (scache a));
  onBook := Some (λ b a,
    entry ← readBookIDCacheEntry (bookFolderPath (folderPath b)) (folderPath b) b;
    mret (mkScanAcc (sfolders a) (smetaFolders a) (<[ID (meta b) := entry]> (scache a)), true));
|}.

(** [func (s *Shelf) loadFolderMeta] *)
Definition folderMetaPath (folder : FolderPath) : path := pjoin (folderDir folder) FolderMetaFile.
Definition loadFolderMeta (folder : FolderPath) : M world FolderMeta :=
  read ← try (readFolderMetaFile (folderMetaPath folder));
  match read with
  | Err _ => mret (mkFolderMeta F64.zero false [] true [])
  | Ok data => mret (folderMetaFromData data).1
  end.

(** [func (s *Shelf) readFolderMetaForScan] *)
Fixpoint readFolderMetaForScan (folders : list FolderPath) (metas : gmap bytes FolderMeta) :
    M world (gmap bytes FolderMeta) :=
  match folders with
  | [] => mret metas
  | folder :: rest =>
      m ← loadFolderMeta folder;
      readFolderMetaForScan rest
        (if decide (m = emptyMeta) then metas else <[String folder := m]> metas)
  end.

(** [func (s *Shelf) scanToBookCache] *)
Definition keep_counts (new old : gmap bytes bookIDCacheEntry) : gmap bytes bookIDCacheEntry :=
  map_imap (λ bookID entry, Some (keepNewerCharCount entry (old !! bookID))) new.
Definition scanToBookCache : M Shelf unit :=
  scanStart ← lift now;
  a ← iterateShelfTree scan_visitor (mkScanAcc [] [] ∅);
  metas ← lift (readFolderMetaForScan (smetaFolders a) ∅);
  scanned ← lift now;
  update_cache (λ c, mkBookCache (keep_counts (scache a) (cache c)) (sortFolders (sfolders a))
    metas false scanned scanStart (scanInterval c) (lastBookCheck c) (bookCheckInterval c) (rescanID c)
    (rescanTokens c) (rescanTokensAt c) (lastExport c) (lastExportDigest c) (remoteDigest c)).

(** ** Keeping the cache current *)

(** [func (s *Shelf) onlyRefreshBooksInCache]: the loop over the snapshot of
    the cache; Go visits it in any order. *)
Fixpoint refresh_entries (rw : bool) (snapshot : list (bytes * bookIDCacheEntry))
    (refreshed : gmap bytes bookIDCacheEntry) (removed : list bytes) :
    M world (gmap bytes bookIDCacheEntry * list bytes) :=
  match snapshot with
  | [] => mret (refreshed, removed)
  | (bookID, e) :: rest =>
      stale ← IsStale (book e);
      if negb stale then refresh_entries rw rest refreshed removed else
      opened ← try (OpenBook rw (epath e));
      match opened with
      | Err _ => refresh_entries rw rest refreshed (removed ++ [bookID])
      | Ok b =>
          if decide (ID (meta b) ≠ ID (meta (book e)))
          then refresh_entries rw rest refreshed (removed ++ [bookID])
          else
            entry ← readBookIDCacheEntry (folders e) (epath e) b;
            refresh_entries rw rest (<[bookID := entry]> refreshed) removed
      end
  end.
Definition publish (refreshed old : gmap bytes bookIDCacheEntry) : gmap bytes bookIDCacheEntry :=
  keep_counts refreshed old ∪ old.
Definition onlyRefreshBooksInCache : M Shelf unit :=
  s ← gets id;
  '(refreshed, removed) ← lift (refresh_entries (negb (readOnly s)) (map_to_list (cache (bcache s))) ∅ []);
  checked ← lift now;
  update_cache (λ c, with_lastBookCheck checked
    (with_entries (foldr delete (publish refreshed (cache c)) removed) c)).

(** [func (s *Shelf) refreshBookCacheIfNeeded] *)
Definition refreshBookCacheIfNeeded (force : bool) : M Shelf unit :=
  c ← gets bcache;
  t ← lift now;
  if negb force && negb (treeDirty c) && (t - lastFullScan c <? scanInterval c)%Z
  then onlyRefreshBooksInCache
  else scanToBookCache.

Definition markBookCacheTreeDirty : M Shelf unit := update_cache (with_treeDirty true).

(** [func (s *Shelf) addFolderToBookCache] *)
Definition add_prefixes (folder : FolderPath) (l : list FolderPath) : list FolderPath :=
  foldl (λ l i, let prefix := take i folder in
                if existsb (Equal prefix) l then l else l ++ [prefix])
    l (seq 0 (S (length folder))).
Definition addFolderToBookCache (folder : FolderPath) : M Shelf unit :=
  update_cache (λ c,
    let l := add_prefixes folder (cfolders c) in
    if decide (length l = length (cfolders c)) then c else with_folders (sortFolders l) c).

(** [func (s *Shelf) removeFolderFromBookCache] *)
Definition removeFolderFromBookCache (folder : FolderPath) : M Shelf unit :=
  update_cache (λ c, with_folderMeta (delete (String folder) (folderMeta c))
    (with_folders (filter (λ f, f ≠ folder) (cfolders c)) c)).

(** [func (s *Shelf) updateBookCacheEntry] and [deleteBookCacheEntry] *)
Definition put_entry (bookID : bytes) (entry : bookIDCacheEntry) : M Shelf unit :=
  update_cache (λ c, with_entries
    (<[bookID := keepNewerCharCount entry (cache c !! bookID)]> (cache c)) c).
Definition updateBookCacheEntry (folders : FolderPath) (p : path) (b : Book) : M Shelf unit :=
  entry ← lift (readBookIDCacheEntry folders p b);
  put_entry (ID (meta b)) entry.
Definition deleteBookCacheEntry (bookID : bytes) : M Shelf unit :=
  update_cache (λ c, with_entries (delete bookID (cache c)) c).

(** The end of [getUpdatedBookFromBookID]: a refresh, then the cache. *)
Definition book_after_refresh (bookID : bytes) : M Shelf (Book * FolderPath) :=
  refreshBookCacheIfNeeded false;;
  found ← gets (λ s, cache (bcache s) !! bookID);
  match found with
  | Some e => mret (book e, folders e)
  | None => throw ErrBookNotFound
  end.

(** [func (s *Shelf) getUpdatedBookFromBookID] *)
Definition getUpdatedBookFromBookID (bookID : bytes) : M Shelf (Book * FolderPath) :=
  cached ← gets (λ s, cache (bcache s) !! bookID);
  match cached with
  | None => book_after_refresh bookID
  | Some e =>
      stale ← lift (IsStale (book e));
      if negb stale then mret (book e, folders e) else
      deleteBookCacheEntry bookID;;
      opened ← try (openBook (epath e));
      match opened with
      | Err _ => book_after_refresh bookID
      | Ok b =>
          entry ← lift (readBookIDCacheEntry (folders e) (epath e) b);
          put_entry bookID entry;;
          mret (b, folders e)
      end
  end.

(** [func (s *Shelf) RefreshBookCharCount] *)
Definition RefreshBookCharCount (bookID : bytes) : M Shelf unit :=
  cached ← gets (λ s, cache (bcache s) !! bookID);
  match cached with
  | None => mret tt
  | Some e =>
      stat ← lift (readBookIDCacheEntry (folders e) (epath e) (book e));
      update_cache (λ c,
        match cache c !! bookID with
        | Some p =>
            if (charCountAt stat <? charCountAt p)%Z then c
            else with_entries (<[bookID := mkEntry (folders p) (epath p) (book p) (charCount stat)
                   (sourceMD5 stat) (sourceFormat stat) (charCountAt stat)]> (cache c)) c
        | None => c
        end)
  end.

(** [type BookListing] and [listBookListingsFromCache]; [SortFunc] by ID. *)
Record BookListing := mkListing {
  LBook : Book;
  LFolders : FolderPath;
  LCharCount : Z;
  LSourceFormat : bytes;
}.
Definition listing_le (a b : BookListing) : Prop := str_le (ID (meta (LBook a))) (ID (meta (LBook b))).
#[global] Instance listing_le_dec : RelDecision listing_le.
Proof. intros a b. unfold listing_le. apply _. Defined.
Definition listBookListingsFromCache (c : bookCache) : list BookListing :=
  merge_sort listing_le
    ((λ e, mkListing (book e) (folders e) (charCount e) (sourceFormat e)) <$>
       (map_to_list (cache c)).*2).
End ops.
End Shelf.
