(* ===== verification/Trash.v ===== *)
(** * The trash: [src/shelf/trash.go]

    [trash.json] and every operation of the trash: moving a book there,
    listing, restoring, deleting, and taking over the trash of an older
    layout ([migrateLegacyTrash], run by [makeStructure] of [shelf.go]). *)

From S2P Require Import Prelude Utf8 Strings Json Fs FsSpec Atomic ShelfUtil BookMeta Source Frame ScanCache FolderMeta Book ShelfState.

Module TrashMeta.
Import Json.

Definition TrashMetaSchemaVersion : Z := 2.

(** [type trashMeta] *)
Record trashMeta := mkTrashMeta {
  SchemaVersion : Z;
  DeletedAt : Z;
  OriginalPath : bytes;
  OriginalFolder : list bytes;
  DeleteReason : bytes;
}.

Section codec.
Context `{TimeText}.
Definition members (m : trashMeta) : list field :=
  [("schema_version", true, JInt (SchemaVersion m));
   ("deleted_at", negb (JSONTime.IsZero (DeletedAt m)), JSONTime.MarshalJSON (DeletedAt m));
   ("original_path", negb (bool_decide (OriginalPath m = [])), JStr (OriginalPath m));
   ("original_folder", negb (bool_decide (OriginalFolder m = [])), enc_strings (OriginalFolder m));
   ("delete_reason", negb (bool_decide (DeleteReason m = [])), JStr (DeleteReason m))]%string.
Definition encode (m : trashMeta) : json := written (members m).
Definition decode (j : json) : option trashMeta :=
  o ← dec_object j;
  let get k := member (str k) o in
  schema ← dec_int (get "schema_version");
  deleted ← JSONTime.dec_member (str "deleted_at") o;
  opath ← dec_string (get "original_path");
  ofolder ← dec_list dec_string (get "original_folder");
  reason ← dec_string (get "delete_reason");
  Some (mkTrashMeta schema deleted opath ofolder reason).
End codec.

(** A timestamp is written to the second. *)
Definition in_seconds (m : trashMeta) : trashMeta :=
  mkTrashMeta (SchemaVersion m) (whole_second (DeletedAt m)) (OriginalPath m) (OriginalFolder m)
    (DeleteReason m).

Lemma trash_unique_encode `{TimeText} m : unique_names (encode m) = true.
Proof. apply unique_written; [done|]. repeat constructor. apply unique_enc_strings. Qed.

Lemma trash_decode_encode `{TimeTextLaws} m :
  (- 2 ^ 63 ≤ SchemaVersion m ≤ MaxInt)%Z → decode (encode m) = Some (in_seconds m).
Proof.
  intros Hs. destruct m as [sv de op fo re].
  unfold decode, encode, written. cbn [dec_object mbind option_bind].
  rewrite JSONTime.time_dec_member_read_back. fields. simpl in Hs. unfold members. eval_fields.
  cbn [SchemaVersion DeletedAt OriginalPath OriginalFolder DeleteReason].
  assert (JSONTime.read_back (if negb (JSONTime.IsZero de) then Some (JSONTime.MarshalJSON de)
    else None) = Some (whole_second de)) as Hde.
  { unfold JSONTime.IsZero. destruct (Z.eqb_spec de zero_time) as [->|]; [done|].
    simpl. by rewrite parse_format. }
  repeat first [rewrite Hde|rewrite dec_int_ok by done|rewrite dec_omitted_string
    |rewrite dec_omitted_strings|progress cbn [mbind option_bind default]].
  change (id (JInt sv)) with (JInt sv). by rewrite dec_int_ok.
Qed.

Lemma trash_unmarshal_encode `{TimeTextLaws} m :
  (- 2 ^ 63 ≤ SchemaVersion m ≤ MaxInt)%Z →
  unmarshal decode (Doc (encode m)) = Some (in_seconds m).
Proof. intros. unfold unmarshal. by rewrite trash_unique_encode, trash_decode_encode. Qed.
End TrashMeta.

Module Trash.
Import Atomic ShelfUtil BookMeta Book Shelf TrashMeta.

Definition trashMetaFile : bytes := str "trash.json".
Definition maxBookPathCollisionAttempts : nat := Z.to_nat 10000.

(** [path.Base] of a string. *)
Fixpoint strip_slashes (s : bytes) : bytes :=
  match s with
  | [] => []
  | c :: s' => match strip_slashes s' with
               | [] => if decide (c = "/"%char) then [] else [c]
               | r => c :: r
               end
  end.
Definition path_Base (s : bytes) : bytes :=
  if decide (s = []) then str "." else
  let r := strip_slashes s in
  if decide (r = []) then str "/" else default [] (last (Split r "/"%char)).

(** A path as the string it is. *)
Definition path_string (p : path) : bytes := Join p (str "/").

(** [type TrashedBook] *)
Record TrashedBook := mkTrashedBook {
  TID : bytes;
  TTitle : bytes;
  TAuthors : list bytes;
  TOriginalPath : bytes;
  TOriginalFolder : FolderPath;
  TDeletedAt : Z;
  TNSFW : bool;
}.

Section ops.
Context `{UnicodeCase, TimeText, Machine, Digest, ShelfEnv}.

(** [func validateBookID] *)
Definition validateBookID (bookID : bytes) : result error unit := ValidatePathSegment bookID.

Definition trashPathOf (bookID : bytes) : path := pjoin trashBooksFolder (bookID ++ bookExtension).

(** [func (s *Shelf) readTrashMeta] *)
Definition readTrashMeta (bookPath : path) : M world trashMeta :=
  c ← Open (bookPath ++ [trashMetaFile]);
  match unmarshal decode c with
  | Some m => mret m
  | None => throw ErrMalformedMetadata
  end.

(** [func (s *Shelf) readTrashMetaTolerant] *)
Definition readTrashMetaTolerant (bookPath : path) : M world (option trashMeta) :=
  read ← try (readTrashMeta bookPath);
  match read with
  | Err _ => mret None
  | Ok m =>
      mret (Some (if (TrashMetaSchemaVersion <? SchemaVersion m)%Z then m
                  else mkTrashMeta TrashMetaSchemaVersion (DeletedAt m) (OriginalPath m)
                         (OriginalFolder m) (DeleteReason m)))
  end.

(** [func trashMetaWritable] *)
Definition trashMetaWritable (m : option trashMeta) : result error unit :=
  match m with
  | None => Ok tt
  | Some m => if (SchemaVersion m <=? TrashMetaSchemaVersion)%Z then Ok tt
              else Err ErrUnsupportedTrashSchemaVersion
  end.

(** [func (s *Shelf) refuseIfTrashMetaTooNew] *)
Definition refuseIfTrashMetaTooNew (bookPath : path) : M world unit :=
  m ← readTrashMetaTolerant bookPath; of_result (trashMetaWritable m).

(** [func (s *Shelf) writeTrashMeta] *)
Definition writeTrashMeta (bookPath : path) (m : trashMeta) : M world unit :=
  WriteFileAtomic (bookPath ++ [trashMetaFile])
    (Doc (encode (mkTrashMeta TrashMetaSchemaVersion (DeletedAt m) (OriginalPath m)
       (OriginalFolder m) (DeleteReason m)))).

(** A [Stat] that must find nothing: any other outcome is an error. *)
Definition ensure_missing (p : path) (taken : error) : M world unit :=
  there ← try (Stat p);
  match there with
  | Ok _ => throw taken
  | Err e => guard_err (negb (errors_Is e ENotExist)) e
  end.

(** [func (s *Shelf) MoveBookToTrash]; [move_package] is its end, from the
    rename on. *)
Definition move_package (bookID : bytes) (activePath trashPath : path)
    (originalFolder : FolderPath) : M Shelf unit :=
  lift (Rename activePath trashPath);;
  deletedAt ← lift now;
  let m := mkTrashMeta 0 deletedAt (path_string activePath) originalFolder (str "user") in
  written ← try (lift (writeTrashMeta trashPath m));
  match written with
  | Err e => ignore (lift (Rename trashPath activePath));; throw e
  | Ok _ => deleteBookCacheEntry bookID
  end.
Definition MoveBookToTrash (bookID : bytes) : M Shelf unit :=
  writeRoot;;
  locked (
    '(b, originalFolder) ← getUpdatedBookFromBookID bookID;
    let activePath := folderPath b in
    let trashPath := trashPathOf bookID in
    lift (refuseIfTrashMetaTooNew activePath);;
    lift (ensure_missing trashPath (Msg "already exists in trash"));;
    move_package bookID activePath trashPath originalFolder).

(** [func (s *Shelf) newTrashedBook] *)
Definition newTrashedBook (s : Shelf) (b : Book) (m : option trashMeta) : TrashedBook :=
  let originalFolder := match m with Some m => OriginalFolder m | None => [] end in
  mkTrashedBook (ID (meta b)) (Title (meta b)) (Authors (meta b))
    (match m with Some m => OriginalPath m | None => [] end) originalFolder
    (match m with Some m => DeletedAt m | None => zero_time end)
    (IsBookNSFW s originalFolder (Some (meta b))).

(** [func (s *Shelf) ListTrashedBooks]; newest first, then by ID. *)
Definition trashed_le (a b : TrashedBook) : Prop :=
  (TDeletedAt b < TDeletedAt a)%Z ∨ TDeletedAt b = TDeletedAt a ∧ str_le (TID a) (TID b).
#[global] Instance trashed_le_dec : RelDecision trashed_le.
Proof. intros a b. unfold trashed_le. apply _. Defined.

Definition is_package (e : bytes * node) : bool := is_dir e.2 && HasSuffix e.1 bookExtension.

Fixpoint open_trashed (es : list (bytes * node)) : M Shelf (list TrashedBook) :=
  match es with
  | [] => mret []
  | e :: es =>
      if negb (is_package e) then open_trashed es else
      let bookPath := trashBooksFolder ++ [e.1] in
      opened ← try (openBook bookPath);
      match opened with
      | Err _ => open_trashed es
      | Ok b =>
          m ← lift (readTrashMetaTolerant bookPath);
          s ← gets id;
          items ← open_trashed es;
          mret (newTrashedBook s b m :: items)
      end
  end.

Definition ListTrashedBooks : M Shelf (list TrashedBook) :=
  rlocked (
    listed ← try (lift (ReadDir trashBooksFolder));
    match listed with
    | Err e => if errors_Is e ENotExist then mret [] else throw e
    | Ok es => items ← open_trashed es; mret (merge_sort trashed_le items)
    end).

(** [func (s *Shelf) ListTrashedBookIDs] *)
Definition ListTrashedBookIDs : M Shelf (list bytes) :=
  rlocked (
    listed ← try (lift (ReadDir trashBooksFolder));
    match listed with
    | Err e => if errors_Is e ENotExist then mret [] else throw e
    | Ok es =>
        mret (sort_strings ((λ e, TrimSuffix e.1 bookExtension) <$>
          filter (λ e, is_package e = true) es))
    end).

(** [func (s *Shelf) findTrashedBook] *)
Definition findTrashedBook (bookID : bytes) : M Shelf (path * Book * option trashMeta) :=
  of_result (validateBookID bookID);;
  let trashPath := trashPathOf bookID in
  opened ← try (openBook trashPath);
  match opened with
  | Err e => throw (if errors_Is e ENotExist then ErrTrashedBookNotFound else e)
  | Ok b => m ← lift (readTrashMetaTolerant trashPath); mret (trashPath, b, m)
  end.

(** [func (s *Shelf) GetTrashedBook] *)
Definition GetTrashedBook (bookID : bytes) : M Shelf TrashedBook :=
  rlocked (
    '(_, b, m) ← findTrashedBook bookID;
    s ← gets id;
    mret (newTrashedBook s b m)).

(** [func (s *Shelf) isBookIDInTrash] *)
Definition isBookIDInTrash (bookID : bytes) : M world bool :=
  there ← try (Stat (trashPathOf bookID));
  match there with
  | Ok _ => mret true
  | Err e => if errors_Is e ENotExist then mret false else throw e
  end.

(** [func (s *Shelf) resolveBookPathCollision] *)
Definition collision_name (baseName folderName : bytes) (i : Z) : bytes :=
  if decide (0 < i)%Z then baseName ++ str "-" ++ Itoa i ++ bookExtension else folderName.
Fixpoint collision_loop (n : nat) (folderPath : path) (baseName folderName : bytes) (i : Z) :
    M world path :=
  match n with
  | 0 => throw (Msg "failed to resolve unique book path")
  | S n =>
      let candidatePath := pjoin folderPath (collision_name baseName folderName i) in
      there ← try (Stat candidatePath);
      match there with
      | Err e => if errors_Is e ENotExist then mret candidatePath else throw e
      | Ok _ => collision_loop n folderPath baseName folderName (i + 1)
      end
  end.
Definition resolveBookPathCollision (folderPath : path) (folderName : bytes) : M world path :=
  let trimmed := TrimSuffix folderName bookExtension in
  let baseName := if decide (trimmed = []) then folderName else trimmed in
  collision_loop maxBookPathCollisionAttempts folderPath baseName folderName 0.

(** Where a book goes back to: its folder and its name there. *)
Definition restore_folders (s : Shelf) (m : option trashMeta) : FolderPath :=
  let targetFolders := match m with Some m => OriginalFolder m | None => [] end in
  if is_ok (ValidateFolderPath s targetFolders) then targetFolders else [].
Definition restore_name (trashPath : path) (m : option trashMeta) : bytes :=
  match m with
  | Some m => let b := path_Base (OriginalPath m) in
              if HasSuffix b bookExtension then b else base trashPath
  | None => base trashPath
  end.

(** [func (s *Shelf) RestoreTrashedBook] *)
Definition RestoreTrashedBook (bookID : bytes) : M Shelf unit :=
  writeRoot;;
  locked (
    '(trashPath, b, m) ← findTrashedBook bookID;
    of_result (trashMetaWritable m);;
    s ← gets id;
    let targetFolders := restore_folders s m in
    let targetFolder := restore_name trashPath m in
    let targetFolderPath := folderDir targetFolders in
    lift (MkdirAll targetFolderPath);;
    addFolderToBookCache targetFolders;;
    targetPath ← lift (resolveBookPathCollision targetFolderPath targetFolder);
    lift (Rename trashPath targetPath);;
    ignore (lift (Remove (targetPath ++ [trashMetaFile])));;
    restoredBook ← openBook targetPath;
    updateBookCacheEntry targetFolders targetPath restoredBook;;
    guard_err (negb (bool_decide (ID (meta restoredBook) = ID (meta b))))
      (Msg "restored book id mismatch")).

(** [func (s *Shelf) DeleteTrashedBook] *)
Definition DeleteTrashedBook (bookID : bytes) : M Shelf unit :=
  of_result (validateBookID bookID);;
  writeRoot;;
  locked (
    let trashPath := trashPathOf bookID in
    there ← try (lift (Stat trashPath));
    match there with
    | Err e => throw (if errors_Is e ENotExist then ErrTrashedBookNotFound else e)
    | Ok _ =>
        lift (refuseIfTrashMetaTooNew trashPath);;
        lift (RemoveAll trashPath)
    end).

(** ** The trash of an older layout *)

(** The loop of [mergeLegacyTrashBooks]. *)
Fixpoint merge_entries (es : list (bytes * node)) : M world unit :=
  match es with
  | [] => mret tt
  | e :: es =>
      if negb (is_package e) then merge_entries es else
      let src := legacyTrashBooksFolder ++ [e.1] in
      dst ← resolveBookPathCollision trashBooksFolder e.1;
      Rename src dst;;
      merge_entries es
  end.

(** [func (s *Shelf) mergeLegacyTrashBooks] *)
Definition mergeLegacyTrashBooks : M world unit :=
  listed ← try (ReadDir legacyTrashBooksFolder);
  es ← match listed with
       | Ok es => mret es
       | Err e => if errors_Is e ENotExist then mret [] else throw e
       end;
  (if decide (es = []) then mret tt else MkdirAll trashBooksFolder);;
  merge_entries es;;
  removed ← try (Remove legacyTrashBooksFolder);
  if match removed with Err e => negb (errors_Is e ENotExist) | Ok _ => false end
  then mret tt
  else ignore (Remove [legacyTrashFolder]).

(** [func (s *Shelf) migrateLegacyTrash] *)
Definition migrateLegacyTrash : M world unit :=
  legacyInfo ← try (Stat [legacyTrashFolder]);
  match legacyInfo with
  | Err e => if errors_Is e ENotExist then mret tt else throw e
  | Ok n =>
      if negb (is_dir n) then mret tt else
      there ← try (Stat [trashFolder]);
      match there with
      | Err e => if errors_Is e ENotExist then Rename [legacyTrashFolder] [trashFolder] else throw e
      | Ok _ => mergeLegacyTrashBooks
      end
  end.

(** [func (s *Shelf) ensureTrashFolder] and [makeStructure] ([shelf.go]) *)
Definition ensureTrashFolder : M world unit :=
  migrateLegacyTrash;; MkdirAll trashBooksFolder.
Definition makeStructure : M Shelf unit :=
  ro ← gets readOnly;
  if (ro : bool) then mret tt else
  lift (MkdirAll [booksFolder];;
        RemoveAll [appFolder; appTmpFolder];;
        MkdirAll [appFolder; appTmpFolder];;
        ensureTrashFolder).

End ops.
End Trash.
