(* ===== verification/Folder.v ===== *)
(** * Folders of a shelf: [src/shelf/shelf_folder.go], [shelf_folder_meta.go]

    Creating, deleting, pruning, renaming and moving folders, and the
    operations on their [folder.json]: the sort key, the icon, the copy from
    another shelf. *)

From S2P Require Import Prelude Utf8 Strings Float64 Json Fs FsSpec Atomic ShelfUtil BookMeta Source Frame ScanCache FolderMeta Book ShelfState Trash.

Module Folder.
Import Atomic ShelfUtil FolderMeta Shelf.

Section ops.
Context `{UnicodeCase, TimeText, Machine, Digest, ShelfEnv}.

(** A validation that needs the shelf's rules. *)
Definition validated (folders : FolderPath) : M Shelf unit :=
  s ← gets id; of_result (ValidateFolderPath s folders).

(** [func (s *Shelf) NewFolder] *)
Definition NewFolder (parent : FolderPath) (name : bytes) : M Shelf unit :=
  let folder := parent ++ [name] in
  validated folder;;
  of_result (validateNewFolderName name);;
  writeRoot;;
  locked (
    lift (MkdirAll (folderDir folder));;
    addFolderToBookCache folder).

(** [func holdsOnlyFolderMeta] *)
Definition holdsOnlyFolderMeta (es : list (bytes * node)) : bool :=
  forallb (λ e, bool_decide (e.1 = FolderMetaFile) && negb (is_dir e.2)) es.

(** [func removeFolderNonRecursively] *)
Definition removeFolderNonRecursively (folderPath : path) (hasMeta : bool) : M world unit :=
  (if hasMeta then Remove (folderPath ++ [FolderMetaFile]) else mret tt);;
  Remove folderPath.

(** [func (s *Shelf) deleteFolder]; [dropMeta] is nil or a test of the
    content of [folder.json]. *)
Definition deleteFolder (folder : FolderPath) (dropMeta : option (option content → bool)) :
    M Shelf unit :=
  validated folder;;
  writeRoot;;
  locked (
    let folderPath := folderDir folder in
    es ← lift (ReadDir folderPath);
    guard_err (negb (holdsOnlyFolderMeta es)) (Msg "cannot delete non-empty folder");;
    (match dropMeta with
     | Some drop =>
         if bool_decide (es ≠ []) then
           read ← try (lift (readFolderMetaFile (folderPath ++ [FolderMetaFile])));
           match read with
           | Ok data => guard_err (negb (drop data)) (Msg "folder.json was not carried")
           | Err _ => throw (Msg "folder.json was not carried")
           end
         else mret tt
     | None => mret tt
     end);;
    lift (removeFolderNonRecursively folderPath (bool_decide (es ≠ [])));;
    removeFolderFromBookCache folder).
Definition DeleteFolder (folder : FolderPath) : M Shelf unit := deleteFolder folder None.

(** [func (s *Shelf) PruneFolder] *)
Definition PruneFolder (folder : FolderPath) (carriedMeta : bytes) : M Shelf unit :=
  deleteFolder folder (Some (λ data,
    negb (bool_decide (carriedMeta = [])) && bool_decide (folderMetaVersion data = carriedMeta))).

(** A [Stat] that must find something. *)
Definition ensure_there (p : path) (missing : error) : M world unit :=
  there ← try (Stat p);
  match there with
  | Ok _ => mret tt
  | Err e => throw (if errors_Is e ENotExist then missing else e)
  end.

(** [func (s *Shelf) RenameFolder] *)
Definition RenameFolder (folder : FolderPath) (newName : bytes) : M Shelf unit :=
  guard_err (bool_decide (folder = [])) (Msg "cannot rename root folder");;
  let newFolder := take (length folder - 1) folder ++ [newName] in
  validated folder;;
  validated newFolder;;
  of_result (validateNewFolderName newName);;
  writeRoot;;
  locked (
    let oldFolderPath := folderDir folder in
    let newFolderPath := folderDir newFolder in
    lift (ensure_there oldFolderPath (Msg "old folder does not exist"));;
    lift (Trash.ensure_missing newFolderPath (Msg "new folder already exists"));;
    lift (MkdirAll (dirname newFolderPath));;
    lift (Rename oldFolderPath newFolderPath);;
    markBookCacheTreeDirty).

(** The check of [MoveFolder] against moving a folder under itself. *)
Definition under_itself (folder targetParent : FolderPath) : bool :=
  existsb (λ i, Equal targetParent (take (i + 1) folder)) (seq 0 (length folder)).

(** [func (s *Shelf) MoveFolder] *)
Definition MoveFolder (folder targetParent : FolderPath) : M Shelf unit :=
  validated folder;;
  validated targetParent;;
  match last folder with
  | None => throw (Msg "cannot move root folder")
  | Some name =>
      of_result (validateNewFolderName name);;
      writeRoot;;
      locked (
        let oldFolderPath := folderDir folder in
        lift (ensure_there oldFolderPath (Msg "folder does not exist"));;
        lift (ensure_there (folderDir targetParent) (Msg "target folder does not exist"));;
        guard_err (under_itself folder targetParent) (Msg "cannot move folder under itself");;
        let newFolderPath := folderDir (targetParent ++ [name]) in
        lift (Trash.ensure_missing newFolderPath (Msg "target child folder already exists"));;
        lift (Rename oldFolderPath newFolderPath);;
        markBookCacheTreeDirty)
  end.

(** ** [folder.json] *)

(** [func (s *Shelf) cacheFolderMeta] *)
Definition cacheFolderMeta (folder : FolderPath) (m : FolderMeta) : M Shelf unit :=
  update_cache (λ c, with_folderMeta
    (if decide (m = emptyMeta) then delete (String folder) (Shelf.folderMeta c)
     else <[String folder := m]> (Shelf.folderMeta c)) c).

(** [func (s *Shelf) refreshCachedFolderMeta] *)
Definition refreshCachedFolderMeta (folder : FolderPath) (data : option content) : M Shelf unit :=
  cacheFolderMeta folder (folderMetaFromData data).1.

(** [func (s *Shelf) ReadFolderMeta] *)
Definition ReadFolderMeta (folder : FolderPath) : M Shelf FolderMeta :=
  if decide (folder = []) then mret emptyMeta else
  validated folder;;
  rlocked (lift (loadFolderMeta folder)).

(** The directory [folder.json] goes to must be there. *)
Definition ensure_folder (dirPath : path) : M world unit :=
  info ← try (Stat dirPath);
  match info with
  | Ok n => guard_err (negb (is_dir n)) ErrInvalidFolder
  | Err e => throw (if errors_Is e ENotExist then ErrFolderNotFound else e)
  end.

(** Nothing is left to write: no member, or only the schema version. *)
Definition bare (obj : Object.Object) : bool :=
  bool_decide (size obj = 0) ||
  (bool_decide (size obj = 1) && bool_decide (is_Some (obj !! to_bytes folderMetaSchemaVersionKey))).

(** [func (s *Shelf) updateFolderMeta]; [mutate] cannot fail on the values
    the program passes. *)
Definition updateFolderMeta (folder : FolderPath) (version : bytes)
    (mutate : Object.Object → Object.Object) : M Shelf unit :=
  guard_err (bool_decide (folder = [])) ErrInvalidFolder;;
  validated folder;;
  writeRoot;;
  locked (
    let dirPath := folderDir folder in
    lift (ensure_folder dirPath);;
    let metaPath := dirPath ++ [FolderMetaFile] in
    read ← try (lift (readFolderMetaFile metaPath));
    match read with
    | Err _ => throw ErrFolderMetaNotWritable
    | Ok data =>
        if decide (folderMetaVersion data ≠ version) then
          refreshCachedFolderMeta folder data;;
          throw ErrFolderMetaConflict
        else
          match (match data with None => Ok ∅ | Some c => parseFolderMeta c end) with
          | Err _ => throw ErrFolderMetaNotWritable
          | Ok obj =>
              let obj := mutate obj in
              if bare obj then
                match data with
                | None => mret tt
                | Some _ => lift (Remove metaPath);; cacheFolderMeta folder emptyMeta
                end
              else
                let payload := Object.MarshalDisk (Object.SetMember obj
                  folderMetaSchemaVersionKey (JInt FolderMetaSchemaVersion)) in
                lift (WriteFileAtomic metaPath payload);;
                refreshCachedFolderMeta folder (Some payload)
          end
    end).

(** [func (s *Shelf) SetFolderSortKey] *)
Definition SetFolderSortKey (folder : FolderPath) (key : F64.float64) (version : bytes) :
    M Shelf unit :=
  guard_err (negb (finite key)) (Msg "sort_key must be finite");;
  updateFolderMeta folder version
    (λ obj, Object.SetMember obj folderMetaSortKeyKey (Object.enc_float key)).

(** [func (s *Shelf) SetFolderIcon] *)
Definition SetFolderIcon (folder : FolderPath) (icon : bytes) (version : bytes) : M Shelf unit :=
  guard_err (negb (bool_decide (icon = [])) && negb (IsFolderIcon icon)) ErrInvalidFolderIcon;;
  updateFolderMeta folder version
    (λ obj, if decide (icon = []) then Object.Delete obj folderMetaIconKey
            else Object.SetMember obj folderMetaIconKey (JStr icon)).

(** [func (s *Shelf) readFolderMetaLocked] *)
Definition readFolderMetaLocked (folder : FolderPath) : M Shelf (option content) :=
  rlocked (lift (readFolderMetaFile (folderMetaPath folder))).

(** The target's half of [func (target *Shelf) CopyFolderMetaFrom]: [data] is
    what the source holds. *)
Definition paste_folder_meta (to : FolderPath) (data : content) : M Shelf bytes :=
  writeRoot;;
  locked (
    let dirPath := folderDir to in
    lift (ensure_folder dirPath);;
    let metaPath := dirPath ++ [FolderMetaFile] in
    lift (Trash.ensure_missing metaPath ErrFolderMetaConflict);;
    lift (WriteFileAtomic metaPath data);;
    let m := (folderMetaFromData (Some data)).1 in
    cacheFolderMeta to m;;
    mret (Version m)).

(** ** Two shelves *)
Definition on_source {A : Type} (m : M Shelf A) : M (Shelf * Shelf) A := λ s,
  let '(r, s') := m s.1 in (r, (s', s.2)).
Definition on_target {A : Type} (m : M Shelf A) : M (Shelf * Shelf) A := λ s,
  let '(r, s') := m s.2 in (r, (s.1, s')).

(** [func (target *Shelf) CopyFolderMetaFrom]; the shelves are different. *)
Definition CopyFolderMetaFrom (from to : FolderPath) : M (Shelf * Shelf) bytes :=
  guard_err (bool_decide (from = []) || bool_decide (to = [])) ErrInvalidFolder;;
  on_source (validated from);;
  on_target (validated to);;
  data ← on_source (readFolderMetaLocked from);
  match data with
  | None => mret []
  | Some c => on_target (paste_folder_meta to c)
  end.

End ops.
End Folder.
