(* ===== verification/ShelfBook.v ===== *)
(** * Books of a shelf: [src/shelf/shelf_book.go], [shelf_cross_book.go]

    Creating, moving and copying books, on one shelf and between two. *)

From S2P Require Import Prelude Utf8 Strings Json Fs FsSpec Atomic ShelfUtil BookMeta Source Frame ScanCache FolderMeta Book ShelfState Trash Folder.

Module ShelfBook.
Import Atomic ShelfUtil BookMeta Book Shelf Trash Folder.

Definition MaxTempDirCreationAttempts : nat := 10.
Definition MaxBookIDCreationAttempts : nat := 10.
Definition booksTmp : path := [appFolder; appTmpFolder].

Section ops.
Context `{UnicodeCase, TimeText, Machine, Digest, ShelfEnv}.

(** [func createTempDir] of [util.go], with the prefix [app/tmp/book]. *)
Fixpoint createTempDir (n : nat) (prefix : bytes) : M world path :=
  match n with
  | 0 => throw (Msg "failed to create temp directory after multiple attempts")
  | S n =>
      t ← now;
      s ← RandomString 6;
      let tmpDirName := booksTmp ++ [prefix ++ str "-" ++ format_stamp t ++ str "-" ++ s] in
      made ← try (Mkdir tmpDirName);
      match made with
      | Ok _ => mret tmpDirName
      | Err _ => createTempDir n prefix
      end
  end.
Definition createBookDir : M world path := createTempDir MaxTempDirCreationAttempts (str "book").

(** [func titleToFolderName]; [strings.ReplaceAll(title, " ", "-")] *)
Definition titleToFolderName (title : bytes) : bytes :=
  Slugify ((λ c, if decide (c = " "%char) then "-"%char else c) <$> title) ++ bookExtension.

(** The loop of [NewBookWith] and [publishBookCopy] that looks for a free
    package name: the title, then the title with a number. Go's loop has no
    bound; the model stops after [fuel] turns. *)
Fixpoint free_name_loop (fuel : nat) (folderPath : path) (title folderName : bytes) (i : Z) :
    M world bytes :=
  match fuel with
  | 0 => throw (Msg "fuel")
  | S fuel =>
      there ← try (Stat (pjoin folderPath folderName));
      match there with
      | Ok _ => free_name_loop fuel folderPath title
                  (titleToFolderName (title ++ str "-" ++ Itoa i)) (i + 1)
      | Err e => if errors_Is e ENotExist then mret folderName else throw e
      end
  end.
Definition freePackageName (folderPath : path) (title : bytes) : M world bytes :=
  t ← gets wtree;
  free_name_loop (size t + 2) folderPath title (titleToFolderName title) 1.

(** [newBookID]: [uuid.NewV4] *)
Definition newBookID : M Shelf bytes :=
  k ← gets (λ s, tick (sworld s)); lift now;; mret (newUUID k).

(** [func (s writeLockedShelf) drawUnusedBookID] *)
Fixpoint draw_loop (n : nat) : M Shelf bytes :=
  match n with
  | 0 => throw (Msg "failed to draw an unused book ID")
  | S n =>
      candidate ← newBookID;
      got ← try (getUpdatedBookFromBookID candidate);
      match got with
      | Err e =>
          if errors_Is e ErrBookNotFound then
            inTrash ← lift (isBookIDInTrash candidate);
            if (inTrash : bool) then draw_loop n else mret candidate
          else throw e
      | Ok _ => draw_loop n
      end
  end.
Definition drawUnusedBookID : M Shelf bytes := draw_loop MaxBookIDCreationAttempts.

(** The end of [NewBookWith] and [publishBookCopy]: the staged package goes
    to its folder under a free name. *)
Definition publish_staged (bookPath : path) (folders : FolderPath) (title : bytes) :
    M Shelf Book :=
  let folderPath := folderDir folders in
  lift (MkdirAll folderPath);;
  addFolderToBookCache folders;;
  folderName ← lift (freePackageName folderPath title);
  let finalBookPath := pjoin folderPath folderName in
  lift (Rename bookPath finalBookPath);;
  newBook ← openBook finalBookPath;
  updateBookCacheEntry folders finalBookPath newBook;;
  mret newBook.

(** [func (s *Shelf) NewBookWith]; [init] is nil or works on the staged
    book. *)
Definition NewBookWith (folders : FolderPath) (title : bytes) (init : option (Book → M world Book)) :
    M Shelf Book :=
  validated folders;;
  writeRoot;;
  locked (
    bookPath ← lift createBookDir;
    deferred (
      bookID ← drawUnusedBookID;
      stagedBook ← lift (Create bookPath bookID title);
      (match init with
       | Some f => lift (f stagedBook);; mret tt
       | None => mret tt
       end);;
      publish_staged bookPath folders title)
    (lift (RemoveAll bookPath))).
Definition NewBook (folders : FolderPath) (title : bytes) : M Shelf Book :=
  NewBookWith folders title None.

(** [func (s *Shelf) MoveBook] *)
Definition MoveBook (bookID : bytes) (newFolders : FolderPath) : M Shelf Book :=
  validated newFolders;;
  writeRoot;;
  locked (
    '(b, _) ← getUpdatedBookFromBookID bookID;
    let newFolderPath := folderDir newFolders in
    lift (MkdirAll newFolderPath);;
    addFolderToBookCache newFolders;;
    let newBookPath := pjoin newFolderPath (base (folderPath b)) in
    lift (Rename (folderPath b) newBookPath);;
    movedBook ← openBook newBookPath;
    updateBookCacheEntry newFolders newBookPath movedBook;;
    mret movedBook).

(** [func copyTreeAcross] and [copyFileAcross] of [util.go], within one
    shelf or from [src]'s tree. A directory is descended with fuel for every
    level. *)
Definition copy_tree (rd : ∀ A, M world A → M Shelf A) : nat → path → path → M Shelf unit :=
  fix copy fuel src dst :=
    match fuel with
    | 0 => throw (Msg "fuel")
    | S fuel =>
        info ← rd _ (Stat src);
        if negb (is_dir info) then
          data ← rd _ (Open src);
          lift (WriteFile dst data)
        else
          lift (MkdirAll dst);;
          es ← rd _ (ReadDir src);
          foldl (λ m e, m;; copy fuel (src ++ [e.1]) (dst ++ [e.1])) (mret tt) es
    end.

(** Reading from the shelf itself, or from the tree of another. *)
Definition own_read (A : Type) (m : M world A) : M Shelf A := lift m.

(** [func (target writeLockedShelf) publishBookCopy]; [rd] reads the source
    shelf. *)
Definition publishBookCopy (rd : ∀ A, M world A → M Shelf A) (fuel : nat) (sourceBook : Book)
    (targetFolder : FolderPath) (preserveID : bool) : M Shelf Book :=
  writeRoot;;
  bookPath ← lift createBookDir;
  deferred (
    copy_tree rd fuel (folderPath sourceBook) bookPath;;
    stagedBook ← openBook bookPath;
    staged ← (if preserveID then mret stagedBook
              else newID ← drawUnusedBookID;
                   lift (SetMeta stagedBook (set_ID newID (meta stagedBook))));
    publish_staged bookPath targetFolder (Title (meta staged)))
  (lift (RemoveAll bookPath)).

(** [func (s *Shelf) CopyBook] *)
Definition CopyBook (bookID : bytes) (targetFolder : FolderPath) : M Shelf Book :=
  validated targetFolder;;
  writeRoot;;
  locked (
    '(sourceBook, _) ← getUpdatedBookFromBookID bookID;
    EnsureWritable sourceBook;;
    t ← gets stree;
    publishBookCopy own_read (walk_fuel t) sourceBook targetFolder false).

(** [func (s *Shelf) ensureBookIDFreeAfterRescan] *)
Definition ensureBookIDFreeAfterRescan (bookID : bytes) : M Shelf unit :=
  refreshBookCacheIfNeeded true;;
  got ← try (getUpdatedBookFromBookID bookID);
  match got with
  | Ok _ => throw ErrBookIDConflict
  | Err e =>
      guard_err (negb (errors_Is e ErrBookNotFound)) e;;
      inTrash ← lift (isBookIDInTrash bookID);
      guard_err inTrash ErrBookIDConflict
  end.

(** ** Between two shelves *)

(** Reading the source shelf, whose tree stands while its lock is held, on
    the target's clock. *)
Definition cross_read (src : tree) (A : Type) (m : M world A) : M Shelf A := λ s,
  let '(r, w) := m (mkWorld src (tick (sworld s))) in
  (r, set_world (mkWorld (stree s) (tick w)) s).

(** [lockForTransfer] ([lock.go]) around a body. *)
Definition unlockBoth : M (Shelf * Shelf) unit := on_target Unlock;; on_source Unlock.
Definition transfer_locked {A : Type} (m : M (Shelf * Shelf) A) : M (Shelf * Shelf) A :=
  on_source RLock;;
  got ← try (on_target Lock);
  match got with
  | Err e => on_source Unlock;; throw e
  | Ok _ => deferred m unlockBoth
  end.

(** [func (target *Shelf) CopyBookFrom]; the shelves are different. *)
Definition CopyBookFrom (bookID : bytes) (targetFolder : FolderPath) (preserveID : bool) :
    M (Shelf * Shelf) Book :=
  on_target (validated targetFolder);;
  on_target writeRoot;;
  transfer_locked (
    '(sourceBook, _) ← on_source (getUpdatedBookFromBookID bookID);
    (if preserveID then on_target (ensureBookIDFreeAfterRescan bookID)
     else EnsureWritable sourceBook);;
    src ← gets (λ s, stree s.1);
    on_target (publishBookCopy (cross_read src) (walk_fuel src) sourceBook targetFolder preserveID)).

(** [func (target *Shelf) MoveBookFrom] and [DeleteBook] *)
Definition DeleteBook (bookID : bytes) : M Shelf unit := MoveBookToTrash bookID.
Definition MoveBookFrom (bookID : bytes) (targetFolder : FolderPath) : M (Shelf * Shelf) Book :=
  on_source writeRoot;;
  moved ← CopyBookFrom bookID targetFolder true;
  on_source (DeleteBook bookID);;
  mret moved.

End ops.
End ShelfBook.
