(* ===== verification/ShelfFrame.v ===== *)
(** * What the shelf's own bookkeeping touches: nothing

    The frame rules of Frame.v for steps on a shelf. Listing, scanning and
    looking books up only read the library; the book cache changes, the tree
    does not. *)

From S2P Require Import Prelude Utf8 Strings Json Fs FsSpec Atomic ShelfUtil BookMeta Source Frame ScanCache FolderMeta Book ShelfState Trash.

Module ShelfFrame.
Import ShelfUtil BookMeta Book FolderMeta Shelf.

(** ** Where validated names lead *)
Lemma validateFolderPath_ok fs :
  validateFolderPath fs = Ok tt → Forall (λ f, segment f ∧ Contains f bookExtension = false) fs.
Proof.
  induction fs as [|f fs IH]; simpl; [constructor|].
  destruct (ValidateFolderSegment f) as [[]|] eqn:Hf; [|done].
  destruct (Contains f bookExtension) eqn:Hc; [done|]. intros Hfs.
  constructor; [|by apply IH]. by apply ValidateFolderSegment_ok in Hf as [? _].
Qed.

Lemma folderDir_segments p fs : Forall segment fs → foldl pjoin p fs = p ++ fs.
Proof.
  revert p. induction fs as [|f fs IH]; intros p Hfs; simpl; [by rewrite app_nil_r|].
  inversion Hfs; subst. by rewrite pjoin_segment, IH, <-app_assoc.
Qed.

Lemma folderDir_valid fs : validateFolderPath fs = Ok tt → folderDir fs = booksFolder :: fs.
Proof.
  intros Hv%validateFolderPath_ok. unfold folderDir. rewrite folderDir_segments; [done|].
  eapply Forall_impl; [done|]. by intros f [? _].
Qed.

Lemma ValidateFolderPath_ok `{UnicodeCase} s fs :
  ValidateFolderPath s fs = Ok tt →
  validateFolderPath fs = Ok tt ∧ Forall (λ f, IsIgnoredDir (ignoreRules s) f = false) fs.
Proof.
  unfold ValidateFolderPath. intros ([] & Hv & Hi)%res_bind_ok. split; [done|].
  destruct (existsb _ fs) eqn:He; [done|]. apply Forall_forall. intros f Hf.
  apply not_true_iff_false. intros Ht. apply not_true_iff_false in He. apply He, existsb_exists.
  exists f. split; [by apply list_elem_of_In|done].
Qed.

Lemma segment_package x : "/"%char ∉ x → segment (x ++ bookExtension).
Proof.
  intros Hs. assert (8 ≤ length (x ++ bookExtension)) as Hl.
  { rewrite length_app. change (length bookExtension) with 8. lia. }
  split; [by destruct x|]. split; [intros E; by rewrite E in Hl; simpl in Hl; lia|].
  split; [intros E; by rewrite E in Hl; simpl in Hl; lia|].
  rewrite elem_of_app. intros [?|Hin]; [done|]. unfold bookExtension in Hin.
  simpl in Hin. repeat (apply elem_of_cons in Hin as [?|Hin]; [done|]). by apply elem_of_nil in Hin.
Qed.

Lemma validateBookID_segment bookID : Trash.validateBookID bookID = Ok tt → segment bookID.
Proof. by intros [(? & _)%ValidateFolderSegment_ok _]%ValidatePathSegment_ok. Qed.

Lemma trashPathOf_valid bookID :
  Trash.validateBookID bookID = Ok tt →
  Trash.trashPathOf bookID = trashBooksFolder ++ [bookID ++ bookExtension].
Proof. intros (_ & _ & _ & Hs)%validateBookID_segment. by apply pjoin_segment, segment_package. Qed.

#[export] Instance shelf_tree : HasTree Shelf := stree.

(** Two states of a shelf with the same tree. *)
Ltac tree_eq := unfold stree in *; simpl in *; congruence.

(** Names the state a precondition is about, and forgets how it came about. *)
Ltac name_state s E :=
  match goal with
  | |- wp _ _ ?x => let H := fresh in assert (∃ y, y = x) as [s E] by eauto; rewrite <-E
  end.

Section rules.
Context `{Machine}.

Lemma keeps_lift {A : Type} P D (m : M world A) : keeps P D m → keeps P D (lift m).
Proof. intros Hm s Hs. unfold lift. specialize (Hm (sworld s) Hs). by destruct (m (sworld s)). Qed.

Lemma wp_lift {A : Type} (m : M world A) Q s :
  wp m (λ r w, Q r (set_world w s)) (sworld s) → wp (lift m) Q s.
Proof. unfold wp, lift. by destruct (m (sworld s)). Qed.

Lemma keeps_update_cache P D f : keeps P D (update_cache f).
Proof. by apply keeps_modify. Qed.

Lemma wp_update_cache f (Q : result error unit → Shelf → Prop) s :
  Q (Ok tt) (set_cache (f (bcache s)) s) → wp (update_cache f) Q s.
Proof. done. Qed.

Lemma keeps_set_lock P D l : keeps P D (modify (set_lock l)).
Proof. by apply keeps_modify. Qed.

Lemma keeps_acquire `{ShelfEnv} P D l : keeps P D (acquire l).
Proof.
  unfold acquire. repeat (apply keeps_bind; [|intros ?]);
    auto using keeps_gets, keeps_lift, keeps_now, keeps_guard, keeps_set_lock.
Qed.

Lemma keeps_locked `{ShelfEnv} {A : Type} P D (m : M Shelf A) : keeps P D m → keeps P D (locked m).
Proof.
  intros Hm. apply keeps_bind; [apply keeps_acquire|]. intros _.
  apply keeps_deferred; [done|apply keeps_set_lock].
Qed.
Lemma keeps_rlocked `{ShelfEnv} {A : Type} P D (m : M Shelf A) : keeps P D m → keeps P D (rlocked m).
Proof.
  intros Hm. apply keeps_bind; [apply keeps_acquire|]. intros _.
  apply keeps_deferred; [done|apply keeps_set_lock].
Qed.

(** A handler takes the lock, or fails without doing anything; either way it
    lets it go. *)
Definition after_lock (l : LockState) (s : Shelf) : Shelf :=
  set_lock l (set_world (mkWorld (stree s) (S (tick (sworld s)))) s).

Lemma wp_locked `{ShelfEnv} {A : Type} (m : M Shelf A) Q s :
  (∀ n, Q (Err ErrShelfLockTimeout) (set_world (mkWorld (stree s) n) s)) →
  wp m (λ r s', Q r (set_lock Unlocked s')) (after_lock Exclusive s) →
  wp (locked m) Q s.
Proof.
  intros Ht Hm. apply wp_bind, wp_bind, wp_gets, wp_bind, wp_lift.
  unfold wp at 1. simpl. apply wp_bind, wp_guard; intros _; [apply Ht|].
  apply wp_modify, wp_deferred. eapply wp_mono; [apply Hm|]. intros r s' HQ. by apply wp_modify.
Qed.
End rules.

#[export] Hint Resolve keeps_lift keeps_update_cache keeps_set_lock keeps_acquire keeps_locked
  keeps_rlocked : frame.

(** ** What a shelf is set up with *)
Definition conf (s : Shelf) : bool * bool * gmap bytes IgnoredDir * gmap bytes NSFWFolder :=
  (readOnly s, ready s, ignoreRules s, nsfw s).
Definition keeps_conf {A : Type} (m : M Shelf A) : Prop := ∀ s, conf (m s).2 = conf s.

Section conf.
Context `{UnicodeCase, TimeText, Machine, Digest, ShelfEnv}.

Lemma conf_ret {A : Type} (a : A) : keeps_conf (mret a).
Proof. done. Qed.
Lemma conf_throw {A : Type} e : keeps_conf (@throw Shelf A e).
Proof. done. Qed.
Lemma conf_of_result {A : Type} (r : result error A) : keeps_conf (of_result r).
Proof. done. Qed.
Lemma conf_guard b e : keeps_conf (guard_err b e).
Proof. by destruct b. Qed.
Lemma conf_gets {A : Type} (f : Shelf → A) : keeps_conf (gets f).
Proof. done. Qed.
Lemma conf_lift {A : Type} (m : M world A) : keeps_conf (lift m).
Proof. intros s. unfold lift. by destruct (m (sworld s)). Qed.
Lemma conf_update f : keeps_conf (update_cache f).
Proof. done. Qed.
Lemma conf_bind {A B : Type} (m : M Shelf A) (k : A → M Shelf B) :
  keeps_conf m → (∀ a, keeps_conf (k a)) → keeps_conf (mbind k m).
Proof.
  intros Hm Hk s. specialize (Hm s). unfold mbind, M_bind.
  destruct (m s) as [[a|e] s']; simpl in *; [|done]. by rewrite Hk.
Qed.
Lemma conf_try {A : Type} (m : M Shelf A) : keeps_conf m → keeps_conf (try m).
Proof. intros Hm s. specialize (Hm s). unfold try. by destruct (m s). Qed.
Lemma conf_ignore {A : Type} (m : M Shelf A) : keeps_conf m → keeps_conf (ignore m).
Proof. intros Hm s. exact (Hm s). Qed.
Lemma conf_locked {A : Type} (m : M Shelf A) : keeps_conf m → keeps_conf (locked m).
Proof.
  intros Hm. unfold locked, Lock, acquire.
  apply conf_bind; [repeat (apply conf_bind; [|intros ?]);
    auto using conf_gets, conf_lift, conf_guard; done|].
  intros _ s. specialize (Hm s). unfold deferred. by destruct (m s).
Qed.
End conf.
Create HintDb conf.
#[export] Hint Resolve conf_ret conf_throw conf_of_result conf_guard conf_gets conf_lift
  conf_update conf_try conf_ignore conf_locked : conf.
Ltac conf_step :=
  match goal with
  | |- keeps_conf (mbind _ _) => apply conf_bind; [|intros ?]
  | |- keeps_conf (match ?x with _ => _ end) => destruct x
  | |- keeps_conf (let _ := _ in _) => cbv zeta
  | |- keeps_conf (try _) => apply conf_try
  | |- keeps_conf (ignore _) => apply conf_ignore
  | |- keeps_conf (locked _) => apply conf_locked
  | |- _ => solve [auto with conf]
  end.
Ltac conf := repeat conf_step.

Section reads.
Context `{UnicodeCase, TimeText, Machine, Digest, ShelfEnv}.
Implicit Types P D : path → Prop.

Lemma keeps_OpenBook P D rw p : keeps P D (OpenBook rw p).
Proof. unfold OpenBook, readBookMeta, FileStat.getFileStat. frame. Qed.

Lemma keeps_IsStale P D b : keeps P D (IsStale b).
Proof. unfold IsStale, FileStat.getFileStat. frame. Qed.

Lemma keeps_CurrentSourceStat P D b : keeps P D (CurrentSourceStat b).
Proof. unfold CurrentSourceStat, Source.openSource. cbv zeta. frame. Qed.

Lemma keeps_readEntry P D fs p b : keeps P D (readBookIDCacheEntry fs p b).
Proof.
  unfold readBookIDCacheEntry. apply keeps_bind; [apply keeps_now|]. intros z.
  apply keeps_bind; [apply keeps_CurrentSourceStat|]. intros [[? ?] ?]. apply keeps_ret.
Qed.
#[local] Hint Resolve keeps_OpenBook keeps_IsStale keeps_readEntry : frame.

Lemma keeps_openBook P D p : keeps P D (openBook p).
Proof. unfold openBook. frame. Qed.

(** Visitors that only read. *)
Definition reading {A : Type} (v : Visitor A) : Prop :=
  ∀ f, onBook v = Some f → ∀ P D b a, keeps P D (f b a).

Lemma keeps_foldl {S B C : Type} `{HasTree S} P D (f : C → B → M S B) (l : list C) (m : M S B) :
  keeps P D m → (∀ c b, keeps P D (f c b)) →
  keeps P D (foldl (λ m c, b ← m; f c b) m l).
Proof.
  revert m. induction l as [|c l IH]; intros m Hm Hf; simpl; [done|].
  apply IH; [|done]. apply keeps_bind; auto.
Qed.

Lemma keeps_dfs {A : Type} P D rw ign (v : Visitor A) fuel pth child reused st :
  reading v → keeps P D (dfs rw ign v fuel pth child reused st).
Proof.
  intros Hv. revert pth child reused st. induction fuel as [|fuel IH]; intros; simpl; [frame|].
  destruct (skipAll st); [frame|].
  apply keeps_bind; [apply keeps_try, ScanCache.keeps_ChildIsDir|]. intros [isDir|e]; [|frame].
  destruct (negb isDir); [frame|]. destruct (IsIgnoredDir ign (base pth)); [frame|].
  destruct (HasSuffix (base pth) bookExtension).
  - unfold visit_book. destruct (onBook v) as [f|] eqn:Hf; [|frame].
    apply keeps_bind; [frame|]. intros [b|e]; [|frame].
    apply keeps_bind; [by apply (Hv _ Hf)|]. intros [a go]. frame.
  - destruct (match onFolder v with Some f => _ | None => _ end) as [a []]; simpl; [|frame].
    apply keeps_bind; [apply ScanCache.keeps_WReadDir|].
    intros [[[children trusted]|e] w]; [|frame].
    apply (keeps_foldl P D (λ c st, dfs rw ign v fuel (pth ++ [ScanCache.Name c]) (Some c) trusted st));
      [frame|]. intros c st'. apply IH.
Qed.

Lemma reading_scan : reading scan_visitor.
Proof.
  intros f [= <-] P D b a. apply keeps_bind; [apply keeps_readEntry|]. intros e. frame.
Qed.

Lemma keeps_iterate {A : Type} P D (v : Visitor A) a : reading v → keeps P D (iterateShelfTree v a).
Proof.
  intros Hv. unfold iterateShelfTree. frame_step; [frame|]. cbv zeta.
  frame_step; [by apply keeps_lift, keeps_dfs|]. frame_step; [by apply keeps_modify|]. frame.
Qed.

Lemma keeps_loadFolderMeta P D f : keeps P D (loadFolderMeta f).
Proof. unfold loadFolderMeta, readFolderMetaFile. frame. Qed.

Lemma keeps_readFolderMetaForScan P D fs ms : keeps P D (readFolderMetaForScan fs ms).
Proof.
  revert ms. induction fs as [|f fs IH]; intros ms; simpl; [frame|].
  frame_step; [apply keeps_loadFolderMeta|]. apply IH.
Qed.

Lemma keeps_scan P D : keeps P D scanToBookCache.
Proof.
  unfold scanToBookCache. frame; auto using keeps_iterate, reading_scan, keeps_lift,
    keeps_readFolderMetaForScan, keeps_now.
Qed.

Lemma keeps_refresh_entries P D rw l m r : keeps P D (refresh_entries rw l m r).
Proof.
  revert m r. induction l as [|[id e] l IH]; intros m r; simpl; [frame|].
  frame_step; [frame|]. frame_step; [apply IH|]. frame_step; [frame|].
  destruct a0 as [b|er]; [|apply IH]. case_decide; [apply IH|].
  frame_step; [frame|]. apply IH.
Qed.

Lemma keeps_refresh P D force : keeps P D (refreshBookCacheIfNeeded force).
Proof.
  unfold refreshBookCacheIfNeeded. apply keeps_bind; [frame|]. intros c.
  apply keeps_bind; [frame|]. intros z. case_match; [|apply keeps_scan].
  apply keeps_bind; [frame|]. intros s.
  apply keeps_bind; [apply keeps_lift, keeps_refresh_entries|]. intros [refreshed removed]. frame.
Qed.

Lemma keeps_after_refresh P D id : keeps P D (book_after_refresh id).
Proof. unfold book_after_refresh. frame_step; [apply keeps_refresh|]. frame. Qed.

Lemma keeps_getUpdated P D id : keeps P D (getUpdatedBookFromBookID id).
Proof.
  unfold getUpdatedBookFromBookID, deleteBookCacheEntry, put_entry.
  apply keeps_bind; [frame|]. intros [e|]; [|apply keeps_after_refresh].
  apply keeps_bind; [frame|]. intros [|]; simpl; [|frame].
  apply keeps_bind; [frame|]. intros _. apply keeps_bind; [apply keeps_try, keeps_openBook|].
  intros [b|er]; [frame|apply keeps_after_refresh].
Qed.

Lemma keeps_updateEntry P D fs p b : keeps P D (updateBookCacheEntry fs p b).
Proof. unfold updateBookCacheEntry, put_entry. frame. Qed.

Lemma keeps_addFolder P D f : keeps P D (addFolderToBookCache f).
Proof. apply keeps_update_cache. Qed.

Lemma conf_iterate {A : Type} (v : Visitor A) a : keeps_conf (iterateShelfTree v a).
Proof. unfold iterateShelfTree. conf. done. Qed.
Lemma conf_refresh force : keeps_conf (refreshBookCacheIfNeeded force).
Proof.
  unfold refreshBookCacheIfNeeded, onlyRefreshBooksInCache, scanToBookCache.
  do 2 (conf_step; [conf|]). case_match; [conf|].
  conf_step; [conf|]. conf_step; [apply conf_iterate|]. conf.
Qed.
Lemma conf_getUpdated id : keeps_conf (getUpdatedBookFromBookID id).
Proof.
  unfold getUpdatedBookFromBookID, book_after_refresh, deleteBookCacheEntry, put_entry, openBook.
  conf; apply conf_refresh.
Qed.

(** What a restore works with. *)
Lemma restore_folders_valid s m : validateFolderPath (Trash.restore_folders s m) = Ok tt.
Proof.
  unfold Trash.restore_folders. case_match eqn:Hv; [|done]. cbv zeta in *.
  destruct (ValidateFolderPath s _) as [[]|] eqn:E; [|done]. by apply ValidateFolderPath_ok in E as [? _].
Qed.

Lemma returns_findTrashedBook id :
  returns (λ r, r.1.1 = Trash.trashPathOf id ∧ Trash.validateBookID id = Ok tt) (Trash.findTrashedBook id).
Proof.
  eapply (returns_bind (λ _, Trash.validateBookID id = Ok tt));
    [apply returns_of_result; by intros []|]. intros _ Hv.
  eapply returns_bind; [apply returns_any|]. intros [b|e] _; [|apply returns_throw].
  eapply returns_bind; [apply returns_any|]. intros m _. by apply returns_ret.
Qed.

(** A step on the shelf that only reads the library. *)
Lemma wp_shelf_reads {A : Type} (m : M Shelf A) Q s :
  keeps (λ _, False) (λ _, False) m → wf_tree (stree s) →
  (∀ r s', (m s).1 = r → stree s' = stree s → Q r s') → wp m Q s.
Proof.
  intros Hm Hw HQ. destruct (Hm s Hw) as [_ Ht%touched_none_eq].
  unfold wp. apply HQ; [done|]. exact Ht.
Qed.
End reads.

#[export] Hint Resolve keeps_OpenBook keeps_IsStale keeps_CurrentSourceStat keeps_readEntry
  keeps_openBook keeps_loadFolderMeta keeps_scan keeps_refresh keeps_getUpdated
  keeps_updateEntry keeps_addFolder : frame.
#[export] Hint Resolve conf_refresh conf_getUpdated : conf.
End ShelfFrame.
