(* ===== verification/FolderSpec.v ===== *)
(** * What the folder operations do to the library

    Renaming and moving a folder move its whole subtree to a free path or do
    nothing; deleting one removes at most its [folder.json] and the emptied
    directory; creating one only makes directories. *)

From S2P Require Import Prelude Utf8 Strings Float64 Json Fs FsSpec Atomic ShelfUtil BookMeta Source Frame Relocate ScanCache FolderMeta Book ShelfState Trash Folder ShelfFrame.

Module FolderSpec.
Import Atomic ShelfUtil FolderMeta Shelf Folder ShelfFrame.

(** The subtree at [o], which was there, is now at [d], which was free;
    nothing else changed. *)
Record moved_whole (o d : path) (t t' : tree) : Prop := {
  mw_from : is_Some (t !! o);
  mw_free : t !! d = None;
  mw_carried : carried (λ _, False) o d t t';
  mw_gone q : under o q → t' !! q = None;
  mw_elsewhere : elsewhere o d t t';
}.

Lemma moved_whole_move o d t :
  is_Some (t !! o) → t !! d = None → ¬ under o d → ¬ under d o → moved_whole o d t (move t o d).
Proof.
  intros Ho Hd Hod Hdo. split; [done|done|apply carried_move| |apply elsewhere_move].
  intros q. by apply move_gone.
Qed.

Lemma moved_whole_files o d t t' : wf_tree t → moved_whole o d t t' → kept_files o t t'.
Proof.
  intros Hwf [Ho Hd Hc Hg He]. assert (t' = move t o d) as ->; [|by apply kept_files_move].
  assert (∀ q, under d q → t !! q = None) as Hnd.
  { intros q [[|x k] ->]; [by rewrite app_nil_r|]. by apply wf_no_child; [|congruence|]. }
  apply map_eq. intros q. rewrite lookup_move. case_decide as Hdq.
  { destruct Hdq as [k ->]. rewrite (Hc k), drop_app_length by (by intros []). done. }
  case_decide as Hoq; [by apply Hg|by apply He].
Qed.

Lemma dirname_snoc (p : path) (x : bytes) : dirname (p ++ [x]) = p.
Proof. unfold dirname. by rewrite length_app, Nat.add_sub, take_app_length. Qed.

Section spec.
Context `{UnicodeCase, TimeText, Machine, Digest, ShelfEnv}.

Lemma wp_validated fs (Q : result error unit → Shelf → Prop) s :
  (∀ e, Q (Err e) s) → (ValidateFolderPath s fs = Ok tt → Q (Ok tt) s) → wp (validated fs) Q s.
Proof.
  intros HE HO. apply wp_bind, wp_gets, wp_of_result. simpl.
  destruct (ValidateFolderPath s fs) as [[]|e]; auto.
Qed.

Lemma wp_writeRoot (Q : result error unit → Shelf → Prop) s :
  (∀ e, readOnly s = true → Q (Err e) s) → (readOnly s = false → Q (Ok tt) s) → wp writeRoot Q s.
Proof. intros HE HO. apply wp_bind, wp_gets, wp_guard; auto. Qed.

Lemma wp_ensure_there p e (Q : result error unit → world → Prop) w :
  (∀ e n, Q (Err e) (mkWorld (wtree w) n)) →
  (∀ n, is_Some (wtree w !! p) → Q (Ok tt) (mkWorld (wtree w) n)) →
  wp (ensure_there p e) Q w.
Proof.
  intros HE HO. apply wp_bind, wp_try, wp_Stat. intros [x|e'] n Hr; [|by apply wp_throw].
  apply wp_ret, HO. destruct Hr as [Hr|]; [|done]. symmetry in Hr.
  apply find_node_ok in Hr as [-> _]. by eexists.
Qed.

(** What renaming and moving a folder do. *)
Definition relocated (old new : path) (r : result error unit) (s s' : Shelf) : Prop :=
  stree s' = stree s ∧ is_ok r = false ∨
  moved_whole old new (stree s) (stree s') ∧ (r = Ok tt → treeDirty (bcache s') = true).

Lemma wp_ensure_missing_lift p e Q s :
  wf_tree (stree s) →
  (∀ e n, Q (Err e) (set_world (mkWorld (stree s) n) s)) →
  (∀ n, stree s !! p = None → Q (Ok tt) (set_world (mkWorld (stree s) n) s)) →
  wp (lift (Trash.ensure_missing p e)) Q s.
Proof.
  intros Hwf HE HO. apply wp_lift, wp_bind, wp_try, wp_Stat_missing; [done|].
  intros [x|e'] n Hm _; [apply wp_throw, HE|].
  apply wp_guard; intros Hg; [apply HE|]. apply negb_false_iff, errors_Is_ENotExist in Hg as ->.
  by apply HO, Hm.
Qed.

Lemma wp_rename_dirty old new Q s :
  wf_tree (stree s) → stree s !! new = None →
  (∀ r s', relocated old new r s s' → Q r s') →
  wp (lift (Rename old new);; markBookCacheTreeDirty) Q s.
Proof.
  intros Hwf Hn HQ. apply wp_bind, wp_lift, wp_Rename_free; [done|done| |].
  { intros e n. apply HQ. by left. }
  intros r n Ho Hod Hdo _ Hr.
  assert (moved_whole old new (stree s) (move (stree s) old new)) as Hm by by apply moved_whole_move.
  destruct Hr as [-> | ->]; apply HQ; right; by split.
Qed.

Lemma relocated_after (old new : path) r s s1 s' :
  stree s1 = stree s → relocated old new r s1 s' → relocated old new r s s'.
Proof. intros E. unfold relocated. by rewrite E. Qed.

(** Nothing is made where a directory is. *)
Lemma wp_MkdirAll_there p (Q : result error unit → world → Prop) w :
  wf_tree (wtree w) → wtree w !! p = Some Dir →
  (∀ r n, Q r (mkWorld (wtree w) n)) → wp (MkdirAll p) Q w.
Proof.
  intros Hwf Hp HQ. apply wp_MkdirAll. intros r t' n Ha _ _.
  assert (t' = wtree w) as ->; [|done].
  apply map_eq. intros q. destruct (Ha q) as [|(Hq & _ & [k ->])]; [done|].
  destruct (decide (k = [])) as [->|]; [rewrite app_nil_r in Hp; congruence|].
  rewrite (wf_ancestor _ q k) in Hq; [done|done|by eexists|done].
Qed.

Lemma folderDir_snoc fs f :
  validateFolderPath (fs ++ [f]) = Ok tt → folderDir (fs ++ [f]) = (booksFolder :: fs) ++ [f].
Proof. intros Hv. by rewrite folderDir_valid. Qed.

(** The last steps happen under the lock. *)
Lemma relocated_unlock (old new : path) r s s' :
  relocated old new r s s' → relocated old new r s (set_lock Unlocked s').
Proof. done. Qed.

Lemma relocated_none (old new : path) e s s' : stree s' = stree s → relocated old new (Err e) s s'.
Proof. by left. Qed.
Ltac none := intros; try (split; [|done]); apply relocated_none; tree_eq.

(** renaming a folder moves it whole or not at all. Whatever fails
    and wherever, either nothing happened and an error says so, or everything
    that lay below the folder lies below its new name, which was free, and
    nothing else in the library changed. A success means the folder was there,
    both paths are valid on this shelf, the new name is not reserved, and the
    next lookup rescans the library. *)
Theorem RenameFolder_moves_whole folder name s :
  let new := take (length folder - 1) folder ++ [name] in
  wf_tree (stree s) →
  wp (RenameFolder folder name) (λ r s',
    relocated (folderDir folder) (folderDir new) r s s' ∧
    (r = Ok tt → folder ≠ [] ∧ ValidateFolderPath s folder = Ok tt ∧ ValidateFolderPath s new = Ok tt ∧
      validateNewFolderName name = Ok tt ∧ readOnly s = false)) s.
Proof.
  intros new Hwf. unfold RenameFolder. apply wp_bind, wp_guard; intros Hne; [none|].
  apply wp_bind, wp_validated; [none|]. intros Hv. apply wp_bind, wp_validated; [none|]. intros Hv'.
  apply wp_bind, wp_of_result. fold new in Hv' |- *.
  destruct (validateNewFolderName name) as [[]|e] eqn:Hn; [|none].
  apply wp_bind, wp_writeRoot; [none|]. intros Hro. apply bool_decide_eq_false in Hne.
  eapply wp_mono; [|intros r s' Hr; split; [exact Hr|done]].
  apply wp_locked; [none|]. cbv zeta.
  set (s0 := after_lock Exclusive s). assert (stree s0 = stree s) as Hs0 by done.
  apply wp_bind, wp_lift, wp_ensure_there; [none|]. intros n Hold.
  apply wp_bind, wp_ensure_missing_lift; [done|none|]. intros n' Hnew.
  apply ValidateFolderPath_ok in Hv as [Hv _]. apply ValidateFolderPath_ok in Hv' as [Hv' _].
  assert (∃ l, folder = take (length folder - 1) folder ++ [l]) as [l Hl].
  { destruct folder as [|l folder _] using rev_ind; [done|]. exists l.
    by rewrite length_app, Nat.add_sub, take_app_length. }
  assert (dirname (folderDir new) = booksFolder :: take (length folder - 1) folder) as ->.
  { unfold new. rewrite folderDir_valid by done. by rewrite app_comm_cons, dirname_snoc. }
  apply wp_bind, wp_lift, wp_MkdirAll_there; [done| |].
  { rewrite Hl in Hv, Hold. rewrite folderDir_valid, app_comm_cons in Hold by done.
    by apply (wf_parent _ Hwf _ l). }
  intros [[]|e] k; [|none]. apply wp_rename_dirty; [done|done|]. by intros r s'.
Qed.

(** moving a folder moves it whole or not at all. Whatever fails and
    wherever, either nothing happened and an error says so, or everything that
    lay below the folder lies below the target folder under the same name,
    which was free, and nothing else in the library changed. A success means
    both folders are valid on this shelf, the target is there and lies not
    inside the folder. *)
Theorem MoveFolder_moves_whole folder parent s :
  let new := parent ++ [default [] (last folder)] in
  wf_tree (stree s) →
  wp (MoveFolder folder parent) (λ r s',
    relocated (folderDir folder) (folderDir new) r s s' ∧
    (r = Ok tt → folder ≠ [] ∧ ValidateFolderPath s folder = Ok tt ∧
      ValidateFolderPath s parent = Ok tt ∧ is_Some (stree s !! folderDir parent) ∧
      readOnly s = false)) s.
Proof.
  intros new Hwf. unfold MoveFolder. apply wp_bind, wp_validated; [none|]. intros Hv.
  apply wp_bind, wp_validated; [none|]. intros Hv'.
  destruct (last folder) as [name|] eqn:Hl; [|apply wp_throw; none].
  apply wp_bind, wp_of_result. destruct (validateNewFolderName name) as [[]|e] eqn:Hn; [|none].
  apply wp_bind, wp_writeRoot; [none|]. intros Hro.
  apply wp_locked; [none|]. cbv zeta.
  set (s0 := after_lock Exclusive s). assert (stree s0 = stree s) as Hs0 by done.
  apply wp_bind, wp_lift, wp_ensure_there; [none|]. intros n Hold.
  apply wp_bind, wp_lift, wp_ensure_there; [none|]. intros n' Hpar.
  apply wp_bind, wp_guard; intros _; [none|].
  apply wp_bind, wp_ensure_missing_lift; [done|none|]. intros k Hnew.
  apply wp_rename_dirty; [done|done|]. intros r s' Hr. split; [exact Hr|]. intros _.
  split; [intros ->; done|done].
Qed.

(** What the check of [MoveFolder] refuses: the folder itself and every
    folder above it, save the top. *)
Lemma Equal_eq (a b : FolderPath) : Equal a b = true ↔ a = b.
Proof. unfold Equal. apply bool_decide_eq_true. Qed.

Lemma under_itself_spec folder parent :
  under_itself folder parent = true ↔ parent ≠ [] ∧ parent `prefix_of` folder.
Proof.
  unfold under_itself. rewrite existsb_exists. setoid_rewrite in_seq. setoid_rewrite Equal_eq. split.
  - intros (i & Hi & ->). split; [by destruct folder; simpl in *; [lia|]; rewrite Nat.add_comm|].
    exists (drop (i + 1) folder). by rewrite take_drop.
  - intros [Hne [l ->]]. exists (length parent - 1). rewrite length_app.
    assert (length parent ≠ 0) by by destruct parent.
    split; [lia|]. replace (length parent - 1 + 1) with (length parent) by lia.
    by rewrite take_app_length.
Qed.


(** ** Deleting *)

(** What a deletion may take: the directory and its [folder.json]. *)
Definition taken (p : path) (t t' : tree) : Prop := ∀ q,
  t' !! q = t !! q ∨
  t' !! q = None ∧ (q = p ∨ q = p ++ [FolderMetaFile] ∧ file_at t q).

Lemma taken_refl p t : taken p t t.
Proof. by left. Qed.

Lemma wp_Remove_at p (Q : result error unit → world → Prop) w :
  (∀ e n, Q (Err e) (mkWorld (wtree w) n)) →
  (∀ r n, (wtree w !! p = Some Dir → ∀ q, under p q → is_Some (wtree w !! q) → q = p) →
    Q r (mkWorld (delete p (wtree w)) n)) →
  wp (Remove p) Q w.
Proof.
  intros HE HO. apply wp_Remove; [intros; apply HE|].
  intros r t' n [-> [(_ & He & _)|(c & z & Hf)]]%fs_remove_ok _; apply HO; [|congruence].
  intros _. by apply empty_dir_spec.
Qed.

(** The metadata file, when the listing shows it as a file, then the directory. *)
Lemma wp_removeFolder p has w (Q : result error unit → world → Prop) :
  wtree w !! p = Some Dir → (has = true → file_at (wtree w) (p ++ [FolderMetaFile])) →
  (∀ r w', taken p (wtree w) (wtree w') →
    (r = Ok tt → ∀ q, under p q → wtree w' !! q = None) → Q r w') →
  wp (removeFolderNonRecursively p has) Q w.
Proof.
  intros Hp Hf HQ. set (mp := p ++ [FolderMetaFile]) in *.
  assert (p ≠ mp) as Hpm by (intros E%(f_equal length); unfold mp in E; rewrite length_app in E; simpl in E; lia).
  apply wp_bind, (wp_mono _ (λ r w', taken p (wtree w) (wtree w') ∧ wtree w' !! p = Some Dir ∧
    (wtree w' = wtree w ∨ wtree w' = delete mp (wtree w)))).
  { destruct has; [|apply wp_ret; split; [apply taken_refl|by auto]].
    apply wp_Remove_at; [intros; split; [apply taken_refl|by auto]|]. intros r n _. simpl.
    rewrite lookup_delete_ne by done. split; [|auto]. intros q.
    destruct (decide (q = mp)) as [->|]; [|by rewrite lookup_delete_ne; auto].
    right. rewrite lookup_delete_eq. split; [done|]. right. split; [done|]. by apply Hf. }
  intros [[]|e] w1 (Ht & Hd & Ho); [|by apply HQ].
  apply wp_Remove_at; [intros e n; by apply HQ|]. intros r n He. specialize (He Hd). apply HQ; simpl.
  - intros q. destruct (decide (q = p)) as [->|]; [rewrite lookup_delete_eq; by auto|].
    rewrite lookup_delete_ne by done. apply Ht.
  - intros _ q Hu. destruct (decide (q = p)) as [->|]; [by rewrite lookup_delete_eq|].
    rewrite lookup_delete_ne by done. destruct (wtree w1 !! q) eqn:E; [|done].
    by destruct (He q Hu (mk_is_Some _ _ E)).
Qed.

Definition delete_outcome (p : path) (r : result error unit) (s s' : Shelf) : Prop :=
  taken p (stree s) (stree s') ∧
  (r = Ok tt → stree s !! p = Some Dir ∧ ∀ q, under p q → stree s' !! q = None) ∧
  (∀ x, "/"%char ∉ x → x ≠ FolderMetaFile → is_Some (stree s !! (p ++ [x])) →
    is_ok r = false ∧ stree s' = stree s).

Lemma delete_none p e s s' : stree s' = stree s → delete_outcome p (Err e) s s'.
Proof. intros E. unfold delete_outcome. rewrite E. split; [apply taken_refl|]. by split. Qed.

Lemma keeps_readFolderMetaFile P D p : keeps P D (readFolderMetaFile p).
Proof. unfold readFolderMetaFile. frame. Qed.
#[local] Hint Resolve keeps_readFolderMetaFile : frame.

Lemma keeps_dropMeta P D p (drop : option (option content → bool)) (b : bool) :
  keeps P D (match drop with
    | Some drop =>
        if b then
          read ← try (lift (readFolderMetaFile p));
          match read with
          | Ok data => guard_err (negb (drop data)) (Msg "folder.json was not carried")
          | Err _ => throw (Msg "folder.json was not carried")
          end
        else mret tt
    | None => mret tt
    end).
Proof. frame. Qed.

(** deleting or pruning a folder loses nothing else. Whatever fails
    and wherever, at most the folder's [folder.json], if that is a file, and
    the directory itself are gone. A success means the directory was there and
    nothing is left at or below its path. A folder that holds anything else
    besides [folder.json] is refused and nothing changes. *)
Theorem deleteFolder_only_empty folder drop s :
  wf_tree (stree s) →
  wp (deleteFolder folder drop) (λ r s', delete_outcome (folderDir folder) r s s') s.
Proof.
  intros Hwf. unfold deleteFolder. set (p := folderDir folder).
  apply wp_bind, wp_validated; [intros; by apply delete_none|]. intros _.
  apply wp_bind, wp_writeRoot; [intros; by apply delete_none|]. intros _.
  apply wp_locked; [intros; by apply delete_none|]. fold p.
  set (s0 := after_lock Exclusive s). assert (stree s0 = stree s) as Hs0 by done.
  apply wp_bind, wp_lift, ScanCache.wp_ReadDir. intros [es|e] n Hes; [|by apply delete_none].
  destruct (Hes es eq_refl) as [Hp ->]. clear Hes. change (wtree (sworld s0)) with (stree s) in *.
  apply wp_bind, wp_guard; intros Hg; [by apply delete_none|]. apply negb_false_iff in Hg.
  unfold holdsOnlyFolderMeta in Hg. rewrite forallb_forall in Hg.
  assert (∀ x y, (x, y) ∈ entries (stree s) p → x = FolderMetaFile ∧ is_dir y = false) as Honly.
  { intros x y Hin%list_elem_of_In%Hg. simpl in Hin.
    by apply andb_true_iff in Hin as [->%bool_decide_eq_true ->%negb_true_iff]. }
  apply wp_bind, wp_shelf_reads; [apply keeps_dropMeta|done|]. intros [[]|e] s1 _ Hs1; [|apply delete_none; tree_eq].
  assert (wtree (sworld s1) = stree s) as Es by tree_eq.
  apply wp_bind, wp_lift, wp_removeFolder; [by rewrite Es|rewrite Es|rewrite Es].
  - intros Hne%bool_decide_eq_true. destruct (entries (stree s) p) as [|[x y] es] eqn:E; [done|].
    destruct (Honly x y) as [-> Hy]; [left|].
    assert ((FolderMetaFile, y) ∈ entries (stree s) p) as Hin by (rewrite E; left).
    apply elem_of_entries in Hin as [Hy' _]. destruct y as [|c z]; [done|]. by exists c, z.
  - intros r w' Ht Hgone. assert (delete_outcome p r s (set_world w' s1)) as Hout.
    { split; [done|]. split; [intros E; split; [done|by apply Hgone]|]. intros x Hx Hne [y Hy]. exfalso. apply Hne.
      apply (Honly x y). by apply elem_of_entries. }
    destruct r as [[]|e]; exact Hout.
Qed.
End spec.

End FolderSpec.
