(* ===== verification/FolderMetaSpec.v ===== *)
(** * Updating [folder.json]

    [member_update] says what an update of a folder's metadata means: a
    compare-and-swap on the content of one file. The handler refines it under
    every fault; members the program does not know survive. *)

From S2P Require Import Prelude Utf8 Strings Float64 Json Fs FsSpec Atomic ShelfUtil BookMeta Source Frame Relocate ScanCache FolderMeta Book ShelfState Trash Folder ShelfFrame FolderSpec.

Module FolderMetaSpec.
Import Atomic ShelfUtil FolderMeta Shelf Folder ShelfFrame FolderSpec.

(** What a reader of the file at [p] gets; [None] when there is none. *)
Definition data_at (t : tree) (p : path) : option content :=
  match t !! p with Some (File c _) => Some c | _ => None end.

Definition stamp (obj : Object.Object) : content :=
  Object.MarshalDisk (Object.SetMember obj folderMetaSchemaVersionKey (JInt FolderMetaSchemaVersion)).

Section spec.
Context `{UnicodeCase, TimeText, Machine, Digest, ShelfEnv}.

(** The members a file holds, and its new content. *)
Definition members_of (data : option content) : result error Object.Object :=
  match data with None => Ok ∅ | Some c => parseFolderMeta c end.
Definition member_update (version : bytes) (mutate : Object.Object → Object.Object)
    (data : option content) : result error (option content) :=
  if decide (folderMetaVersion data ≠ version) then Err ErrFolderMetaConflict
  else match members_of data with
       | Err _ => Err ErrFolderMetaNotWritable
       | Ok obj => Ok (if bare (mutate obj) then None else Some (stamp (mutate obj)))
       end.

(** Only [folder.json] and temporary files beside it. *)
Definition beside (mp : path) (t t' : tree) : Prop :=
  ∀ q, q ≠ mp → ¬ temp_of mp q → t' !! q = t !! q.

Record update_outcome (mp : path) (next : result error (option content))
    (r : result error unit) (t t' : tree) : Prop := {
  uo_beside : beside mp t t';
  uo_old_or_new : data_at t' mp = data_at t mp ∨ next = Ok (data_at t' mp);
  uo_ok : r = Ok tt → next = Ok (data_at t' mp);
  uo_refused e : next = Err e → t' = t ∧ is_ok r = false;
}.

Lemma update_none mp next e t : update_outcome mp next (Err e) t t.
Proof. split; [done|by left|done|done]. Qed.

Lemma wp_readFolderMetaFile p (Q : result error (option content) → world → Prop) w :
  wf_tree (wtree w) →
  (∀ e n, Q (Err e) (mkWorld (wtree w) n)) →
  (∀ n, Q (Ok (data_at (wtree w) p)) (mkWorld (wtree w) n)) →
  wp (readFolderMetaFile p) Q w.
Proof.
  intros Hwf HE HO. apply wp_bind, wp_try, wp_Open. intros [c|e] n Hc Hm.
  - destruct (Hc c eq_refl) as [z Hz]. apply wp_bind, wp_guard; intros _; [apply HE|].
    apply wp_ret. specialize (HO n). unfold data_at in HO. by rewrite Hz in HO.
  - destruct (errors_Is e ENotExist) eqn:He; [|apply HE].
    apply errors_Is_ENotExist in He as ->. apply wp_ret. specialize (HO n). unfold data_at in HO.
    assert (wtree w !! p = None) as Hn; [|by rewrite Hn in HO].
    destruct (Hm eq_refl) as [|Hr]; [done|]. apply find_node_missing; [done|].
    unfold find_node. by rewrite Hr.
Qed.

Lemma wp_ensure_folder p (Q : result error unit → world → Prop) w :
  (∀ e n, Q (Err e) (mkWorld (wtree w) n)) →
  (∀ n, wtree w !! p = Some Dir → Q (Ok tt) (mkWorld (wtree w) n)) →
  wp (ensure_folder p) Q w.
Proof.
  intros HE HO. apply wp_bind, wp_try, wp_Stat. intros [x|e'] n Hr; [|by apply wp_throw].
  destruct Hr as [Hr|]; [|done]. symmetry in Hr. apply find_node_ok in Hr as [Hr _].
  destruct x as [|c z]; [by apply wp_ret, HO|apply wp_throw, HE].
Qed.

Lemma folder_meta_path_ok p : p ++ [FolderMetaFile] ≠ [] ∧ base (p ++ [FolderMetaFile]) ≠ [].
Proof. by apply Source.file_path_ok. Qed.

(** Writing the new content, whole or not at all. *)
Lemma wp_write_meta mp c w (Q : result error unit → world → Prop) :
  wf_tree (wtree w) → mp ≠ [] → base mp ≠ [] →
  (∀ r w', update_outcome mp (Ok (Some c)) r (wtree w) (wtree w') → Q r w') →
  wp (WriteFileAtomic mp c) Q w.
Proof.
  intros Hwf Hne Hb HQ. apply wp_WriteFileAtomic; [done..| |].
  - intros e w' [Hr Ho]. apply HQ. split; [done| |done|done].
    destruct Hr as [Hr|(c' & z & <- & Hr)]; [left|right]; unfold data_at; by rewrite Hr.
  - intros z w' [_ Ho] Hr. assert (data_at (wtree w') mp = Some c) as Hd by (unfold data_at; by rewrite Hr).
    apply HQ. split; [done|right|intros _|done]; by rewrite Hd.
Qed.

Lemma wp_remove_meta mp w (Q : result error unit → world → Prop) :
  (∀ r w', update_outcome mp (Ok None) r (wtree w) (wtree w') → Q r w') →
  wp (Remove mp) Q w.
Proof.
  intros HQ. apply wp_Remove_at; [intros; by apply HQ, update_none|]. intros r n _. apply HQ.
  assert (data_at (delete mp (wtree w)) mp = None) as Hd by (unfold data_at; by rewrite lookup_delete_eq).
  split; simpl; [|right; by rewrite Hd|intros _; by rewrite Hd|done].
  intros q Hq _. by rewrite lookup_delete_ne.
Qed.

Lemma outcome_cached {mp next r t} s s' :
  update_outcome mp next r t (stree s) → stree s' = stree s → update_outcome mp next r t (stree s').
Proof. by intros ? ->. Qed.

Lemma wp_updateFolderMeta folder version mutate s :
  let mp := folderDir folder ++ [FolderMetaFile] in
  wf_tree (stree s) →
  wp (updateFolderMeta folder version mutate) (λ r s',
    update_outcome mp (member_update version mutate (data_at (stree s) mp)) r (stree s) (stree s')) s.
Proof.
  intros mp Hwf. set (next := member_update version mutate (data_at (stree s) mp)).
  assert (∀ e s', stree s' = stree s → update_outcome mp next (Err e) (stree s) (stree s')) as HE.
  { intros e s' ->. apply update_none. }
  unfold updateFolderMeta. apply wp_bind, wp_guard; intros _; [by apply HE|].
  apply wp_bind, wp_validated; [intros; by apply HE|]. intros _.
  apply wp_bind, wp_writeRoot; [intros; by apply HE|]. intros _.
  apply wp_locked; [intros; by apply HE|]. fold mp.
  set (s0 := after_lock Exclusive s). assert (stree s0 = stree s) as Hs0 by done.
  apply wp_bind, wp_lift, wp_ensure_folder; [intros; by apply HE|]. intros n _.
  apply wp_bind, wp_try, wp_lift, wp_readFolderMetaFile; [done|intros; by apply HE|]. intros k.
  change (wtree (sworld _)) with (stree s). set (d := data_at (stree s) mp) in *.
  assert (next = member_update version mutate d) as Hnext by done. clearbody next.
  unfold member_update in Hnext. destruct (decide (folderMetaVersion d ≠ version)).
  { apply wp_bind, wp_update_cache. by apply HE. }
  fold (members_of d). destruct (members_of d) as [obj|e] eqn:Ho; [|by apply HE].
  cbv zeta. destruct (bare (mutate obj)) eqn:Hb; subst next.
  - destruct d as [c|] eqn:Hd.
    + apply wp_bind, wp_lift, wp_remove_meta. intros [[]|e] w' Hw; [by apply wp_update_cache|by apply Hw].
    + apply wp_ret. split; simpl; [done|by left|intros _; by rewrite <-Hd|done].
  - destruct (folder_meta_path_ok (folderDir folder)) as [Hne Hbase].
    apply wp_bind, wp_lift, wp_write_meta; [done..|]. intros [[]|e] w' Hw; [by apply wp_update_cache|by apply Hw].
Qed.
(** Claim C22: updating a folder's metadata refines a compare-and-swap.
    Whatever fails and wherever, [folder.json] holds its old content or
    exactly what [member_update] gives for it, nothing else changes save
    temporary files beside it, and a success means the latter. A version other
    than the file's, a schema this build does not know and a document that is
    no object change nothing at all. *)
Theorem updateFolderMeta_refines folder version mutate s :
  let mp := folderDir folder ++ [FolderMetaFile] in
  wf_tree (stree s) →
  wp (updateFolderMeta folder version mutate) (λ r s',
    update_outcome mp (member_update version mutate (data_at (stree s) mp)) r (stree s) (stree s')) s.
Proof. apply wp_updateFolderMeta. Qed.

(** ** Reading back *)
Lemma members_plain d obj : members_of d = Ok obj → Object.plain obj.
Proof.
  destruct d as [c|]; simpl; [apply parseFolderMeta_plain|]. intros [= <-]. apply map_Forall_empty.
Qed.

(** An object with the sort key has something to write. *)
Lemma bare_sort_key obj v : bare (Object.SetMember obj folderMetaSortKeyKey v) = false.
Proof.
  unfold bare, Object.SetMember. set (m := <[_ := v]> obj).
  assert (m !! to_bytes folderMetaSortKeyKey = Some v) as Hm by apply lookup_insert_eq.
  apply orb_false_iff. split; [apply bool_decide_eq_false; intros E; apply map_size_empty_iff in E;
    rewrite E in Hm; by rewrite lookup_empty in Hm|].
  apply andb_false_iff. destruct (decide (size m = 1)) as [E|]; [right|left; by apply bool_decide_eq_false].
  apply bool_decide_eq_false. intros Hs.
  assert ({[to_bytes folderMetaSortKeyKey; to_bytes folderMetaSchemaVersionKey]} ⊆@{gset bytes} dom m) as Hsub.
  { intros k [->%elem_of_singleton| ->%elem_of_singleton]%elem_of_union; apply elem_of_dom; [by eexists|done]. }
  apply subseteq_size in Hsub. rewrite size_dom, E in Hsub. vm_compute in Hsub. lia.
Qed.

(** What the file reads as after a sort key went in. *)
Definition sort_key_written (key : F64.float64) (obj : Object.Object) (c : content) : Prop :=
  folderMetaFromData (Some c) =
    (mkFolderMeta key true (iconIgnoringWrongType obj) false (folderMetaVersion (Some c)), None) ∧
  ∃ obj', parseFolderMeta c = Ok obj' ∧
    ∀ k, k ≠ to_bytes folderMetaSchemaVersionKey → k ≠ to_bytes folderMetaSortKeyKey →
      obj' !! k = obj !! k.

Lemma stamp_sort_key obj key :
  Object.plain obj → finite key = true →
  sort_key_written key obj
    (stamp (Object.SetMember obj folderMetaSortKeyKey (Object.enc_float key))).
Proof.
  intros Hp Hf. set (o := Object.SetMember obj _ _).
  assert (Object.plain o) as Ho by (apply plain_set; [done|apply Object.unique_enc_float]).
  assert (parseFolderMeta (stamp o) = Ok (Object.SetMember o folderMetaSchemaVersionKey
    (JInt FolderMetaSchemaVersion))) as Hs by by apply parse_stamped.
  split.
  - unfold folderMetaFromData. rewrite Hs. unfold sortKeyOf, iconIgnoringWrongType.
    assert (∀ n v, n ≠ to_bytes folderMetaSchemaVersionKey →
      Object.SetMember o folderMetaSchemaVersionKey v !! n = o !! n) as Hl
      by (intros n v Hn; unfold Object.SetMember; by rewrite lookup_insert_ne).
    unfold Object.Lookup. rewrite !Hl by done.
    pose proof (sortKeyOf_set obj key Hf) as Hk. fold o in Hk. unfold sortKeyOf, Object.Lookup in Hk.
    rewrite Hk. f_equal. f_equal. unfold o, Object.SetMember. by rewrite lookup_insert_ne.
  - eexists. split; [exact Hs|]. intros k Hk1 Hk2. unfold o, Object.SetMember. by rewrite !lookup_insert_ne.
Qed.

(** a sort key that was set reads back. After a success the file
    reads as that key, writable, with the icon it had, and every member this
    build does not know has the value it had. *)
Theorem SetFolderSortKey_reads_back folder key version s :
  let mp := folderDir folder ++ [FolderMetaFile] in
  wf_tree (stree s) →
  wp (SetFolderSortKey folder key version) (λ r s', r = Ok tt →
    finite key = true ∧ folderMetaVersion (data_at (stree s) mp) = version ∧
    ∃ obj c, members_of (data_at (stree s) mp) = Ok obj ∧ data_at (stree s') mp = Some c ∧
      sort_key_written key obj c) s.
Proof.
  intros mp Hwf. apply wp_bind, wp_guard; intros Hf; [done|]. apply negb_false_iff in Hf.
  eapply wp_mono; [by apply wp_updateFolderMeta|]. fold mp. intros r s' [_ _ Hok _] Hr.
  specialize (Hok Hr). unfold member_update in Hok. case_decide as Hv; [done|].
  destruct (members_of (data_at (stree s) mp)) as [obj|e] eqn:Ho; [|done].
  rewrite bare_sort_key in Hok. injection Hok as Hc.
  split; [done|]. split; [done|]. eexists obj, _. split; [done|]. split; [by symmetry|].
  apply stamp_sort_key; [by eapply members_plain|done].
Qed.
End spec.
End FolderMetaSpec.
