(* ===== verification/ShelfInv.v ===== *)
(** * What the book cache may hold

    [cache_ok]: every entry of the book cache names a package below
    [books/], its folder is the one the path says, and its book is opened
    there. Every operation keeps it; [reachable] states, through any sequence
    of operations and of changes other programs make to the files, have it. *)

From S2P Require Import Prelude Utf8 Strings Json Fs FsSpec Atomic ShelfUtil BookMeta Source Frame Relocate ScanCache FolderMeta Book ShelfState Trash Folder ShelfBook ShelfFrame.

Module ShelfInv.
Import Atomic ShelfUtil BookMeta Book FolderMeta Shelf Trash Folder ShelfBook ShelfFrame.

(** A package path and the folder that holds it. *)
Definition package_at (p : path) (fs : FolderPath) : Prop :=
  ∃ name, p = (booksFolder :: fs) ++ [name] ∧ HasSuffix name bookExtension = true ∧ "/"%char ∉ name.

Record entry_ok (e : bookIDCacheEntry) : Prop := {
  eo_path : package_at (epath e) (folders e);
  eo_book : folderPath (book e) = epath e;
  eo_stat : is_Some (metaStat (book e));
}.
Definition entries_ok (m : gmap bytes bookIDCacheEntry) : Prop := map_Forall (λ _ e, entry_ok e) m.
Definition cache_ok (c : bookCache) : Prop := entries_ok (cache c).

(** The listings a walk reuses name children as a directory does. *)
Definition plain_children (l : list ScanCache.DirChild) : Prop :=
  Forall (λ c, "/"%char ∉ ScanCache.Name c) l.
Definition listings_ok (m : gmap path ScanCache.dirSnapshot) : Prop :=
  map_Forall (λ _ s, plain_children (ScanCache.Children s)) m.
Definition shelf_ok (s : Shelf) : Prop :=
  cache_ok (bcache s) ∧ listings_ok (ScanCache.dirs (scanCache s)).

(** The third-party slugs hold no separator: [slugify] writes letters, digits
    and dashes. *)
Definition slug_plain `{ShelfEnv} : Prop := ∀ s, "/"%char ∉ Slugify s.

(** [invr R m]: [m] keeps the invariant and returns values in [R]. *)
Definition invr {A : Type} (R : A → Prop) (m : M Shelf A) : Prop :=
  ∀ s, shelf_ok s → shelf_ok (m s).2 ∧ ∀ a, (m s).1 = Ok a → R a.
Abbreviation inv := (invr (λ _, True)).

Section rules.
Lemma invr_ret {A : Type} (R : A → Prop) a : R a → invr R (mret a).
Proof. intros Ha s Hs. split; [done|]. by intros ? [= <-]. Qed.
Lemma invr_throw {A : Type} (R : A → Prop) e : invr R (throw e).
Proof. by intros s Hs. Qed.
Lemma invr_of_result {A : Type} (R : A → Prop) r : (∀ a, r = Ok a → R a) → invr R (of_result r).
Proof. by intros Hr s Hs. Qed.
Lemma invr_gets {A : Type} (f : Shelf → A) : inv (gets f).
Proof. by intros s Hs. Qed.
Lemma invr_guard b e : inv (guard_err b e).
Proof. destruct b; by intros s Hs. Qed.
Lemma invr_bind {A B : Type} (R : A → Prop) (R' : B → Prop) (m : M Shelf A) (k : A → M Shelf B) :
  invr R m → (∀ a, R a → invr R' (k a)) → invr R' (mbind k m).
Proof.
  intros Hm Hk s Hs. destruct (Hm s Hs) as [Hs' HR]. unfold mbind, M_bind.
  destruct (m s) as [[a|e] s']; simpl in *; [|done]. by apply Hk; [apply HR|].
Qed.
Lemma inv_bind {A B : Type} (R' : B → Prop) (m : M Shelf A) (k : A → M Shelf B) :
  inv m → (∀ a, invr R' (k a)) → invr R' (mbind k m).
Proof. intros Hm Hk. by apply (invr_bind (λ _, True)). Qed.
Lemma inv_try {A : Type} (m : M Shelf A) : inv m → inv (try m).
Proof. intros Hm s Hs. destruct (Hm s Hs) as [Hs' _]. unfold try. by destruct (m s). Qed.
Lemma invr_try {A : Type} (R : A → Prop) (m : M Shelf A) :
  invr R m → invr (λ r, ∀ a, r = Ok a → R a) (try m).
Proof.
  intros Hm s Hs. destruct (Hm s Hs) as [Hs' HR]. unfold try. destruct (m s) as [r s']. simpl in *.
  split; [done|]. by intros ? [= <-].
Qed.
Lemma inv_ignore {A : Type} (m : M Shelf A) : inv m → inv (ignore m).
Proof. intros Hm s Hs. by destruct (Hm s Hs). Qed.
Lemma invr_deferred {A B : Type} (R : A → Prop) (m : M Shelf A) (c : M Shelf B) :
  invr R m → inv c → invr R (deferred m c).
Proof.
  intros Hm Hc s Hs. destruct (Hm s Hs) as [Hs' HR]. unfold deferred.
  destruct (m s) as [r s']. simpl in *. split; [by apply Hc|done].
Qed.
Lemma invr_lift {A : Type} (R : A → Prop) (m : M world A) : returns R m → invr R (lift m).
Proof.
  intros Hm s Hs. unfold lift. specialize (Hm (sworld s)). destruct (m (sworld s)) as [r w].
  simpl in *. split; [done|]. apply Hm.
Qed.
Lemma inv_lift {A : Type} (m : M world A) : inv (lift m).
Proof. apply invr_lift, returns_any. Qed.
Lemma inv_update f : (∀ c, cache_ok c → cache_ok (f c)) → inv (update_cache f).
Proof. intros Hf s [Hs Hl]. split; [|done]. split; [by apply Hf|done]. Qed.
Lemma inv_same f : (∀ c, cache (f c) = cache c) → inv (update_cache f).
Proof. intros Hf. apply inv_update. intros c. unfold cache_ok. by rewrite Hf. Qed.
Lemma invr_locked `{Machine, ShelfEnv} {A : Type} (R : A → Prop) (m : M Shelf A) :
  invr R m → invr R (locked m).
Proof.
  intros Hm. unfold locked, Lock, acquire. apply inv_bind.
  - repeat (apply inv_bind; [|intros ?]); auto using invr_gets, inv_lift, invr_guard. by intros s Hs.
  - intros _. apply invr_deferred; [done|]. by intros s Hs.
Qed.
End rules.
Create HintDb inv.
#[export] Hint Resolve invr_throw invr_gets invr_guard inv_lift inv_try inv_ignore : inv.
#[export] Hint Extern 1 (invr _ (mret _)) => apply invr_ret; done : inv.
#[export] Hint Extern 1 (invr _ (of_result _)) => apply invr_of_result; done : inv.

Section ops.
Context `{UnicodeCase, TimeText, Machine, Digest, ShelfEnv}.

(** A book as [OpenBook] returns it. *)
Definition opened_at (p : path) (b : Book) : Prop := folderPath b = p ∧ is_Some (metaStat b).

Lemma returns_OpenBook rw p : returns (opened_at p) (OpenBook rw p).
Proof.
  unfold OpenBook. do 4 (eapply returns_bind; [apply returns_any|]; intros ? _).
  by apply returns_ret.
Qed.

Lemma returns_readEntry fs p b :
  returns (λ e, folders e = fs ∧ epath e = p ∧ book e = b) (readBookIDCacheEntry fs p b).
Proof.
  unfold readBookIDCacheEntry. do 2 (eapply returns_bind; [apply returns_any|]; intros ? _).
  destruct a0 as [[? ?] ?]. by apply returns_ret.
Qed.

Lemma keepNewer_ok e o : entry_ok e → entry_ok (keepNewerCharCount e o).
Proof. intros [Hp Hb Hs]. unfold keepNewerCharCount. repeat case_match; by split. Qed.

Lemma keep_counts_ok new old : entries_ok new → entries_ok (keep_counts new old).
Proof.
  intros Hn k e. unfold keep_counts. rewrite map_lookup_imap.
  destruct (new !! k) as [e'|] eqn:E; [|done]. intros [= <-]. by eapply keepNewer_ok, Hn.
Qed.

(** ** The walk *)
Definition acc_ok (a : scanAcc) : Prop := entries_ok (scache a).
Definition walk_ok (w : ScanCache.Walk) : Prop :=
  listings_ok (ScanCache.prev w) ∧ listings_ok (ScanCache.next w).
Definition state_ok (st : walkState scanAcc) : Prop := acc_ok (acc st) ∧ walk_ok (walk st).

Lemma entries_plain t p : Forall (λ e, "/"%char ∉ e.1) (entries t p).
Proof. apply Forall_forall. by intros [s n] [_ ?]%elem_of_entries. Qed.

Lemma dirChildren_plain es keep :
  Forall (λ e, "/"%char ∉ e.1) es → plain_children (ScanCache.dirChildren es keep).
Proof.
  intros Hes. apply Forall_forall. intros c ([s n] & Hin & Hc)%list_elem_of_omap.
  rewrite Forall_forall in Hes. specialize (Hes _ Hin). simpl in *.
  destruct n; [|case_decide; [|done]]; by injection Hc as <-.
Qed.

Lemma returns_ReadDir p : returns (λ es, Forall (λ e, "/"%char ∉ e.1) es) (ReadDir p).
Proof.
  intros w es He. assert (ReadDir p w = (Ok es, (ReadDir p w).2)) as E
    by (destruct (ReadDir p w); simpl in *; congruence).
  apply ScanCache.ReadDir_entries in E as [_ ->]. apply entries_plain.
Qed.

Lemma returns_try {A : Type} (R : A → Prop) (m : M world A) :
  returns R m → returns (λ r, ∀ a, r = Ok a → R a) (try m).
Proof.
  intros Hm w r. specialize (Hm w). unfold try. destruct (m w) as [r' w']. simpl in *.
  by intros [= <-].
Qed.

(** What a listing hands to the walk. *)
Definition listed_ok (r : result error (list ScanCache.DirChild * bool) * ScanCache.Walk) : Prop :=
  (∀ l, r.1 = Ok l → plain_children l.1) ∧ walk_ok r.2.

Lemma returns_read_listing w z p : walk_ok w → returns listed_ok (ScanCache.read_listing w z p).
Proof.
  intros [Hp Hn]. unfold ScanCache.read_listing. eapply returns_bind; [apply returns_any|]. intros t _.
  eapply returns_bind; [apply returns_try, returns_ReadDir|]. intros [es|e] Hes.
  2:{ apply returns_ret. by split. }
  cbv zeta. apply returns_ret. pose proof (dirChildren_plain es (ScanCache.wkeep w) (Hes _ eq_refl)) as Hc.
  split; simpl; [by intros ? [= <-]|]. case_match; [|by split].
  split; [done|]. by apply map_Forall_insert_2.
Qed.

Lemma returns_WReadDir w p reused : walk_ok w → returns listed_ok (ScanCache.WReadDir w p reused).
Proof.
  intros [Hp Hn]. assert (walk_ok (ScanCache.count_dir w)) as Hw by done.
  unfold ScanCache.WReadDir. cbv zeta. destruct (negb _).
  - eapply returns_bind; [apply returns_try, returns_ReadDir|]. intros [es|e] Hes; apply returns_ret.
    + split; [|done]. intros l [= <-]. by apply dirChildren_plain, Hes.
    + by split.
  - eapply returns_bind; [apply returns_any|]. intros [i|e] _; [|by apply returns_read_listing].
    simpl. destruct (ScanCache.prev w !! p) as [s|] eqn:E; [|by apply returns_read_listing].
    destruct (_ && _); [|by apply returns_read_listing]. apply returns_ret.
    pose proof (Hp _ _ E) as Hs. split; simpl; [by intros ? [= <-]|].
    split; [done|]. by apply map_Forall_insert_2.
Qed.

Lemma books_package rest :
  HasSuffix (base (booksFolder :: rest)) bookExtension = true →
  ∃ fs name, rest = fs ++ [name] ∧ base (booksFolder :: rest) = name ∧
    HasSuffix name bookExtension = true ∧ bookFolderPath (booksFolder :: rest) = fs.
Proof.
  destruct rest as [|name fs _] using rev_ind; [by vm_compute|]. intros Hs.
  assert (base (booksFolder :: fs ++ [name]) = name) as Hb.
  { unfold base. by rewrite app_comm_cons, last_snoc. }
  rewrite Hb in Hs. exists fs, name. split; [done|]. split; [done|]. split; [done|].
  unfold bookFolderPath, dirname. rewrite app_comm_cons.
  replace (length ((booksFolder :: fs) ++ [name]) - 1) with (length (booksFolder :: fs))
    by (rewrite length_app; simpl; lia).
  by rewrite take_app_length.
Qed.

Lemma visit_meta_ok pth a : acc_ok a → acc_ok (visit_meta scan_visitor pth a).
Proof. unfold visit_meta. simpl. by repeat case_decide. Qed.

Lemma returns_visit_book rw rest st :
  state_ok st → HasSuffix (base (booksFolder :: rest)) bookExtension = true →
  "/"%char ∉ base (booksFolder :: rest) →
  returns state_ok (visit_book rw scan_visitor (booksFolder :: rest) st).
Proof.
  intros [Ha Hw] Hs Hx. apply books_package in Hs as (fs & name & -> & Hb0 & Hs & Hfs).
  rewrite Hb0 in Hx. unfold visit_book. simpl.
  eapply (returns_bind (λ r, ∀ b, r = Ok b → opened_at (booksFolder :: fs ++ [name]) b)).
  { intros w r. unfold try. pose proof (returns_OpenBook rw (booksFolder :: fs ++ [name]) w) as Hr.
    destruct (OpenBook _ _ w) as [r' w']. simpl in *. intros [= <-]. apply Hr. }
  intros [b|e] Hb; [|by apply returns_ret]. destruct (Hb b eq_refl) as [Hbp Hbs].
  eapply (returns_bind (λ r, acc_ok r.1)).
  - eapply returns_bind; [apply returns_readEntry|]. intros e (He1 & He2 & He3). apply returns_ret.
    unfold acc_ok. simpl. apply map_Forall_insert_2; [|done]. split.
    + rewrite He1, He2, Hbp, Hfs. by exists name.
    + by rewrite He3, He2.
    + by rewrite He3.
  - intros [a go] Hr. by apply returns_ret.
Qed.

Lemma returns_foldl_in {S B C : Type} (R : B → Prop) (f : C → B → M S B) (l : list C) (m : M S B) :
  returns R m → (∀ c b, c ∈ l → R b → returns R (f c b)) →
  returns R (foldl (λ m c, b ← m; f c b) m l).
Proof.
  revert m. induction l as [|c l IH]; intros m Hm Hf; simpl; [done|].
  apply IH; [eapply returns_bind; [done|]|]; intros; apply Hf; auto using list_elem_of_here, list_elem_of_further.
Qed.

Lemma returns_dfs rw ign fuel rest child reused st :
  state_ok st → "/"%char ∉ base (booksFolder :: rest) →
  returns state_ok
    (dfs rw ign scan_visitor fuel (booksFolder :: rest) child reused st).
Proof.
  revert rest child reused st. induction fuel as [|fuel IH]; intros rest child reused st Ha Hx; simpl;
    [apply returns_throw|].
  destruct (skipAll st); [by apply returns_ret|].
  eapply returns_bind; [apply returns_any|]. intros [isDir|e] _; [|by apply returns_ret].
  destruct Ha as [Ha Hw]. pose proof (visit_meta_ok (booksFolder :: rest) _ Ha) as Hm.
  destruct (negb isDir); [by apply returns_ret|].
  destruct (IsIgnoredDir ign _); [by apply returns_ret|].
  destruct (HasSuffix (base (booksFolder :: rest)) bookExtension) eqn:Hs;
    [by apply returns_visit_book|].
  simpl. eapply returns_bind; [by apply returns_WReadDir|]. intros [[[children trusted]|e] w] [Hc Hw'];
    [|by apply returns_ret].
  specialize (Hc _ eq_refl). simpl in Hc, Hw'.
  apply (returns_foldl_in _ (λ c st, dfs rw ign scan_visitor fuel
    (booksFolder :: rest ++ [ScanCache.Name c]) (Some c) trusted st)).
  - by apply returns_ret.
  - intros c st' Hin Hst'. apply IH; [done|]. rewrite app_comm_cons. unfold base. rewrite last_snoc.
    unfold plain_children in Hc. rewrite Forall_forall in Hc. by apply Hc.
Qed.

Lemma invr_iterate : invr acc_ok (iterateShelfTree scan_visitor (mkScanAcc [] [] ∅)).
Proof.
  intros s Hs. unfold iterateShelfTree, lift, gets, modify, mbind, M_bind. cbn -[dfs walk_fuel booksFolder stree].
  pose proof (returns_dfs (negb (readOnly s)) (ignoreRules s) (walk_fuel (stree s)) [] None true
    (mkWalkState (mkScanAcc [] [] ∅) (ScanCache.NewWalk (scanCache s)) false)) as Hd.
  destruct (dfs _ _ _ _ _ _ _ _ (sworld s)) as [[st|e] w] eqn:E; [|done].
  assert (state_ok st) as [Ha [_ Hn]].
  { eapply (Hd _ _ (sworld s)); [by rewrite E]. Unshelve.
    - split; [apply map_Forall_empty|]. destruct Hs as [_ Hl]. split; simpl; [|apply map_Forall_empty].
      by case_match; [|apply map_Forall_empty].
    - by apply (bool_decide_unpack _). }
  simpl. split; [|by intros ? [= <-]]. destruct Hs as [Hc Hl]. split; [done|]. simpl.
  unfold ScanCache.Install, ScanCache.Abandon, ScanCache.finish. by repeat case_match.
Qed.

Lemma inv_scan : inv scanToBookCache.
Proof.
  unfold scanToBookCache. apply inv_bind; [auto with inv|]. intros z.
  eapply invr_bind; [apply invr_iterate|]. intros a Ha.
  apply inv_bind; [auto with inv|]. intros metas. apply inv_bind; [auto with inv|]. intros z'.
  apply inv_update. intros c Hc. by apply keep_counts_ok.
Qed.

(** ** Refreshing *)
Lemma returns_refresh_entries rw l refreshed removed :
  Forall (λ ie, entry_ok ie.2) l → entries_ok refreshed →
  returns (λ r, entries_ok r.1) (refresh_entries rw l refreshed removed).
Proof.
  revert refreshed removed. induction l as [|[id e] l IH]; intros refreshed removed Hl Hr; simpl.
  { by apply returns_ret. }
  inversion Hl as [|? ? [Hep Heb Hes] Hl']; subst. simpl in *.
  eapply returns_bind; [apply returns_any|]. intros stale _. destruct (negb stale); [by apply IH|].
  eapply (returns_bind (λ r, ∀ b, r = Ok b → opened_at (epath e) b)).
  { intros w r. unfold try. pose proof (returns_OpenBook rw (epath e) w) as Ho.
    destruct (OpenBook _ _ w) as [r' w']. simpl in *. intros [= <-]. apply Ho. }
  intros [b|er] Hb; [|by apply IH]. case_decide; [by apply IH|].
  eapply returns_bind; [apply returns_readEntry|]. intros e' (E1 & E2 & E3).
  apply IH; [done|]. apply map_Forall_insert_2; [|done]. split.
  - by rewrite E1, E2.
  - rewrite E3, E2. by apply Hb.
  - rewrite E3. by apply Hb.
Qed.

Lemma entries_ok_list m : entries_ok m → Forall (λ ie : bytes * bookIDCacheEntry, entry_ok ie.2) (map_to_list m).
Proof. intros Hm. apply Forall_forall. intros [k e] Hin%elem_of_map_to_list. by apply Hm in Hin. Qed.

Lemma entries_ok_delete m l : entries_ok m → entries_ok (foldr delete m l).
Proof. intros Hm. induction l as [|k l IH]; simpl; [done|]. by apply map_Forall_delete. Qed.

Lemma inv_onlyRefresh : inv onlyRefreshBooksInCache.
Proof.
  intros s [Hs Hl]. split; [|done].
  unfold onlyRefreshBooksInCache, mbind, M_bind, gets, lift. simpl.
  pose proof (returns_refresh_entries (negb (readOnly s)) (map_to_list (cache (bcache s))) ∅ []
    (entries_ok_list _ Hs) (map_Forall_empty _) (sworld s)) as Hr.
  destruct (refresh_entries _ _ _ _ (sworld s)) as [[[refreshed removed]|e] w]; [|done].
  specialize (Hr _ eq_refl). split; [|done]. simpl in *. apply entries_ok_delete.
  apply map_Forall_union_2; [by apply keep_counts_ok|done].
Qed.

Lemma inv_refresh force : inv (refreshBookCacheIfNeeded force).
Proof.
  unfold refreshBookCacheIfNeeded. do 2 (apply inv_bind; [auto with inv|]; intros ?).
  case_match; [apply inv_onlyRefresh|apply inv_scan].
Qed.

(** What a lookup returns. *)
Definition found_ok (r : Book * FolderPath) : Prop := package_at (folderPath r.1) r.2.

Lemma invr_cached id : invr (λ o, ∀ e, o = Some e → entry_ok e) (gets (λ s, cache (bcache s) !! id)).
Proof. intros s Hs. split; [done|]. intros o [= <-] e He. by apply Hs in He. Qed.

Lemma entry_found e : entry_ok e → found_ok (book e, folders e).
Proof. intros [Hp Hb _]. unfold found_ok. simpl. by rewrite Hb. Qed.

Lemma invr_after_refresh id : invr found_ok (book_after_refresh id).
Proof.
  unfold book_after_refresh. apply inv_bind; [apply inv_refresh|]. intros _.
  eapply invr_bind; [apply invr_cached|]. intros [e|] He; [|auto with inv].
  by apply invr_ret, entry_found, He.
Qed.

Lemma inv_put_entry id e : entry_ok e → inv (put_entry id e).
Proof.
  intros He. apply inv_update. intros c Hc. apply map_Forall_insert_2; [|done].
  by apply keepNewer_ok.
Qed.

Lemma inv_deleteEntry id : inv (deleteBookCacheEntry id).
Proof. apply inv_update. intros c Hc. by apply map_Forall_delete. Qed.

Lemma invr_openBook p : invr (opened_at p) (openBook p).
Proof.
  unfold openBook. apply inv_bind; [auto with inv|]. intros ro. apply invr_lift, returns_OpenBook.
Qed.

Lemma invr_getUpdated id : invr found_ok (getUpdatedBookFromBookID id).
Proof.
  unfold getUpdatedBookFromBookID. eapply invr_bind; [apply invr_cached|].
  intros [e|] He; [|apply invr_after_refresh]. specialize (He e eq_refl).
  apply inv_bind; [auto with inv|]. intros stale.
  destruct (negb stale); [by apply invr_ret, entry_found|].
  apply inv_bind; [apply inv_deleteEntry|]. intros _.
  eapply invr_bind; [apply invr_try, invr_openBook|]. intros [b|er] Hb; [|apply invr_after_refresh].
  destruct (Hb b eq_refl) as [Hbp Hbs]. destruct He as [Hp Hbk _].
  eapply invr_bind; [apply invr_lift, returns_readEntry|]. intros e' (E1 & E2 & E3).
  apply inv_bind; [apply inv_put_entry; split; [by rewrite E1, E2|by rewrite E3, E2|by rewrite E3]|].
  intros _. apply invr_ret. unfold found_ok. simpl. by rewrite Hbp.
Qed.

Lemma inv_updateEntry fs p b :
  package_at p fs → opened_at p b → inv (updateBookCacheEntry fs p b).
Proof.
  intros Hp [Hb Hs]. unfold updateBookCacheEntry.
  eapply invr_bind; [apply invr_lift, returns_readEntry|]. intros e (E1 & E2 & E3).
  apply inv_put_entry. split; [by rewrite E1, E2|by rewrite E3, E2|by rewrite E3].
Qed.

(** ** Where the handlers put packages *)
Lemma package_pjoin fs x :
  validateFolderPath fs = Ok tt → "/"%char ∉ x →
  package_at (pjoin (folderDir fs) (x ++ bookExtension)) fs.
Proof.
  intros Hv Hx. rewrite pjoin_segment by by apply segment_package.
  rewrite folderDir_valid by done. eexists. split; [done|]. split; [apply HasSuffix_app|].
  by destruct (segment_package x Hx) as (_ & _ & _ & ?).
Qed.

Lemma HasSuffix_inv s p : HasSuffix s p = true → ∃ x, s = x ++ p.
Proof. unfold HasSuffix. rewrite bool_decide_eq_true. by intros [x ->]; exists x. Qed.

Lemma Split_last_no_sep s sep w : last (Split s sep) = Some w → sep ∉ w.
Proof.
  revert w. induction s as [|c s IH]; simpl; intros w; [intros [= <-]; apply not_elem_of_nil|].
  case_decide as Hc.
  - subst. pose proof (Split_nonempty s sep). destruct (Split s sep); [done|]. apply IH.
  - pose proof (Split_nonempty s sep). destruct (Split s sep) as [|v vs] eqn:E; [done|].
    destruct vs as [|v' vs]; [|apply IH]. simpl. intros [= <-]. rewrite not_elem_of_cons.
    split; [congruence|]. by apply IH.
Qed.

Lemma path_Base_no_slash s : HasSuffix (path_Base s) bookExtension = true → "/"%char ∉ path_Base s.
Proof.
  unfold path_Base. case_decide; [by vm_compute|]. cbv zeta. case_decide; [by vm_compute|].
  intros _. destruct (last _) as [w|] eqn:E; simpl; [by eapply Split_last_no_sep|].
  apply not_elem_of_nil.
Qed.

Lemma collision_package fs name i :
  validateFolderPath fs = Ok tt → "/"%char ∉ name → HasSuffix name bookExtension = true →
  let b := if decide (TrimSuffix name bookExtension = []) then name
           else TrimSuffix name bookExtension in
  package_at (pjoin (folderDir fs) (collision_name b name i)) fs.
Proof.
  intros Hv Hn [x ->]%HasSuffix_inv. cbv zeta. rewrite TrimSuffix_app.
  assert ("/"%char ∉ x) as Hx by (intros ?; apply Hn; rewrite elem_of_app; auto).
  unfold collision_name. case_decide as Hi; [|by apply package_pjoin].
  rewrite !app_assoc. apply package_pjoin; [done|]. rewrite !elem_of_app.
  intros [[Hb|Hb]|Hb]; [by case_decide| |by apply Itoa_no_slash in Hb].
  simpl in Hb. apply elem_of_cons in Hb as [?|Hb]; [done|]. by apply elem_of_nil in Hb.
Qed.

Lemma returns_collision fs name :
  validateFolderPath fs = Ok tt → "/"%char ∉ name → HasSuffix name bookExtension = true →
  returns (λ p, package_at p fs) (resolveBookPathCollision (folderDir fs) name).
Proof.
  intros Hv Hn Hs. unfold resolveBookPathCollision. cbv zeta.
  generalize 0%Z. induction maxBookPathCollisionAttempts as [|n IH]; intros i; simpl;
    [apply returns_throw|].
  eapply returns_bind; [apply returns_any|]. intros [x|e] _; [apply IH|].
  destruct (errors_Is e ENotExist); [|apply returns_throw]. apply returns_ret. by apply collision_package.
Qed.

(** ** The handlers *)
Lemma inv_addFolder f : inv (addFolderToBookCache f).
Proof. apply inv_same. intros c. cbv zeta. by case_decide. Qed.
Lemma inv_validated fs : invr (λ _, validateFolderPath fs = Ok tt) (validated fs).
Proof.
  unfold validated. apply inv_bind; [auto with inv|]. intros s. apply invr_of_result.
  intros [] Hv. by apply ValidateFolderPath_ok in Hv as [? _].
Qed.
Lemma inv_writeRoot : inv writeRoot.
Proof. unfold writeRoot. apply inv_bind; auto with inv. Qed.

Lemma inv_MoveBookToTrash id : inv (MoveBookToTrash id).
Proof.
  unfold MoveBookToTrash. apply inv_bind; [apply inv_writeRoot|]. intros _. apply invr_locked.
  eapply invr_bind; [apply invr_getUpdated|]. intros [b fs] _. cbv zeta.
  do 2 (apply inv_bind; [auto with inv|]; intros _). unfold move_package. cbv zeta.
  do 2 (apply inv_bind; [auto with inv|]; intros ?). apply inv_bind; [auto with inv|].
  intros [[]|e]; [apply inv_deleteEntry|]. apply inv_bind; auto with inv.
Qed.

Lemma invr_find_trashed id : inv (findTrashedBook id).
Proof.
  unfold findTrashedBook. apply inv_bind; [auto with inv|]. intros _.
  apply inv_bind; [apply inv_try; eapply invr_bind; [apply invr_gets|]; intros; apply inv_lift|].
  intros [b|e]; [|auto with inv]. apply inv_bind; auto with inv.
Qed.

Lemma restore_name_ok id m :
  validateBookID id = Ok tt →
  ("/"%char ∉ restore_name (trashPathOf id) m) ∧
  HasSuffix (restore_name (trashPathOf id) m) bookExtension = true.
Proof.
  intros Hv. assert (("/"%char ∉ base (trashPathOf id)) ∧
    HasSuffix (base (trashPathOf id)) bookExtension = true) as Hb.
  { rewrite trashPathOf_valid by done. unfold base. rewrite last_snoc. simpl.
    apply validateBookID_segment in Hv as (_ & _ & _ & Hs).
    destruct (segment_package id Hs) as (_ & _ & _ & ?). split; [done|]. apply HasSuffix_app. }
  unfold restore_name. destruct m as [m|]; [|done]. cbv zeta.
  destruct (HasSuffix (path_Base _) bookExtension) eqn:E; [|done].
  split; [by apply path_Base_no_slash|done].
Qed.

Lemma invr_of {A : Type} (R : A → Prop) (m : M Shelf A) : inv m → returns R m → invr R m.
Proof. intros Hm HR s Hs. split; [by apply Hm|]. apply HR. Qed.

Lemma inv_RestoreTrashedBook id : inv (RestoreTrashedBook id).
Proof.
  unfold RestoreTrashedBook. apply inv_bind; [apply inv_writeRoot|]. intros _. apply invr_locked.
  eapply invr_bind; [apply invr_of; [apply invr_find_trashed|apply returns_findTrashedBook]|].
  intros [[tp b] m] [Htp Hv]. simpl in Htp. subst tp.
  apply inv_bind; [auto with inv|]. intros _. apply inv_bind; [auto with inv|]. intros s. cbv zeta.
  set (fs := restore_folders s m). assert (validateFolderPath fs = Ok tt) as Hfs by apply restore_folders_valid.
  apply inv_bind; [auto with inv|]. intros _. apply inv_bind; [apply inv_addFolder|]. intros _.
  destruct (restore_name_ok id m Hv) as [Hn Hs].
  eapply invr_bind; [by apply invr_lift, returns_collision|]. intros p Hp.
  do 2 (apply inv_bind; [auto with inv|]; intros _).
  eapply invr_bind; [apply invr_openBook|]. intros rb Hrb.
  apply inv_bind; [by apply inv_updateEntry|]. auto with inv.
Qed.

Lemma inv_DeleteTrashedBook id : inv (DeleteTrashedBook id).
Proof.
  unfold DeleteTrashedBook. apply inv_bind; [auto with inv|]. intros _.
  apply inv_bind; [apply inv_writeRoot|]. intros _. apply invr_locked. cbv zeta.
  apply inv_bind; [auto with inv|]. intros [n|e]; [|auto with inv]. apply inv_bind; auto with inv.
Qed.

(** A package keeps its name in another folder. *)
Lemma package_moved p fs fs' :
  package_at p fs → validateFolderPath fs' = Ok tt → package_at (pjoin (folderDir fs') (base p)) fs'.
Proof.
  intros (name & -> & [x ->]%HasSuffix_inv & Hn) Hv. unfold base. rewrite last_snoc. simpl.
  apply package_pjoin; [done|]. intros Hx. apply Hn. rewrite elem_of_app. auto.
Qed.

Lemma inv_MoveBook id fs : inv (MoveBook id fs).
Proof.
  unfold MoveBook. eapply invr_bind; [apply inv_validated|]. intros ? Hv.
  apply inv_bind; [apply inv_writeRoot|]. intros _. apply invr_locked.
  eapply invr_bind; [apply invr_getUpdated|]. intros [b fs0] Hb. cbv zeta.
  apply inv_bind; [auto with inv|]. intros _. apply inv_bind; [apply inv_addFolder|]. intros _.
  apply inv_bind; [auto with inv|]. intros _.
  eapply invr_bind; [apply invr_openBook|]. intros mb Hmb.
  apply inv_bind; [|auto with inv]. apply inv_updateEntry; [|done].
  by eapply package_moved.
Qed.

(** *** Folders *)
Lemma inv_markDirty : inv markBookCacheTreeDirty.
Proof. by apply inv_same. Qed.
Lemma inv_removeFolder f : inv (removeFolderFromBookCache f).
Proof. by apply inv_same. Qed.
Lemma inv_cacheFolderMeta f m : inv (cacheFolderMeta f m).
Proof. by apply inv_same. Qed.
#[local] Hint Resolve inv_validated inv_writeRoot inv_markDirty inv_removeFolder inv_addFolder
  inv_cacheFolderMeta inv_deleteEntry inv_refresh : inv.

Lemma inv_of_invr {A : Type} (R : A → Prop) (m : M Shelf A) : invr R m → inv m.
Proof. intros Hm s Hs. by destruct (Hm s Hs). Qed.
Lemma inv_validated' fs : inv (validated fs).
Proof. eapply inv_of_invr, inv_validated. Qed.
Lemma inv_getUpdated id : inv (getUpdatedBookFromBookID id).
Proof. eapply inv_of_invr, invr_getUpdated. Qed.
#[local] Hint Resolve inv_validated' inv_getUpdated : inv.

(** Handlers that leave the entries alone. *)
Ltac inv_step :=
  match goal with
  | |- invr _ (mbind _ _) => apply inv_bind; [|intros ?]
  | |- invr _ (locked _) => apply invr_locked
  | |- invr _ (let _ := _ in _) => cbv zeta
  | |- invr _ (match ?x with _ => _ end) => destruct x
  | |- invr _ (modify _) => by intros ? ?
  | |- _ => solve [auto with inv]
  end.
Ltac keep_entries := repeat inv_step.

Lemma inv_NewFolder parent name : inv (NewFolder parent name).
Proof. unfold NewFolder. keep_entries. Qed.
Lemma inv_deleteFolder folder drop : inv (deleteFolder folder drop).
Proof. unfold deleteFolder. keep_entries. Qed.
Lemma inv_RenameFolder folder name : inv (RenameFolder folder name).
Proof. unfold RenameFolder. keep_entries. Qed.
Lemma inv_MoveFolder folder parent : inv (MoveFolder folder parent).
Proof. unfold MoveFolder. keep_entries. Qed.
Lemma inv_updateFolderMeta folder version mutate : inv (updateFolderMeta folder version mutate).
Proof. unfold updateFolderMeta, refreshCachedFolderMeta. keep_entries. Qed.
Lemma inv_paste to data : inv (paste_folder_meta to data).
Proof. unfold paste_folder_meta. keep_entries. Qed.
Lemma inv_makeStructure : inv makeStructure.
Proof. unfold makeStructure. keep_entries. Qed.

Lemma inv_RefreshBookCharCount id : inv (RefreshBookCharCount id).
Proof.
  unfold RefreshBookCharCount. eapply invr_bind; [apply invr_cached|].
  intros [e|] He; [|auto with inv]. apply inv_bind; [auto with inv|]. intros st. apply inv_update. intros c Hc.
  destruct (cache c !! id) as [p|] eqn:E; [|done]. case_match; [done|].
  apply map_Forall_insert_2; [|done]. destruct (Hc _ _ E). by split.
Qed.

(** *** Staged books *)
Lemma inv_draw n : inv (draw_loop n).
Proof. induction n; simpl; unfold newBookID; keep_entries. Qed.
Lemma inv_drawUnused : inv drawUnusedBookID.
Proof. apply inv_draw. Qed.
#[local] Hint Resolve inv_drawUnused : inv.

Lemma returns_free_name fuel p title x i :
  slug_plain → "/"%char ∉ x →
  returns (λ n, ∃ x, n = x ++ bookExtension ∧ "/"%char ∉ x)
    (free_name_loop fuel p title (x ++ bookExtension) i).
Proof.
  intros Hslug. revert x i. induction fuel as [|fuel IH]; intros x i Hx; simpl; [apply returns_throw|].
  eapply returns_bind; [apply returns_any|]. intros [n|e] _.
  - unfold titleToFolderName. apply IH, Hslug.
  - case_match; [|apply returns_throw]. apply returns_ret. eauto.
Qed.

Lemma inv_publish bp fs title :
  slug_plain → validateFolderPath fs = Ok tt → inv (publish_staged bp fs title).
Proof.
  intros Hslug Hv. unfold publish_staged. cbv zeta. inv_step; [keep_entries|].
  inv_step; [apply inv_addFolder|].
  eapply invr_bind; [apply invr_lift; eapply returns_bind; [apply returns_any|];
    intros t _; apply returns_free_name; [done|apply Hslug]|].
  intros name (x & -> & Hx). inv_step; [keep_entries|].
  eapply invr_bind; [apply invr_openBook|]. intros b Hb.
  apply inv_bind; [|auto with inv]. apply inv_updateEntry; [by apply package_pjoin|done].
Qed.

Lemma inv_NewBookWith fs title init : slug_plain → inv (NewBookWith fs title init).
Proof.
  intros Hslug. unfold NewBookWith. eapply invr_bind; [apply inv_validated|]. intros ? Hv.
  inv_step; [keep_entries|]. apply invr_locked. inv_step; [keep_entries|]. apply invr_deferred; [|keep_entries].
  do 2 (inv_step; [keep_entries|]). inv_step; [keep_entries|]. by apply inv_publish.
Qed.

Lemma inv_copy_tree rd fuel src dst :
  (∀ A (m : M world A), inv (rd A m)) → inv (copy_tree rd fuel src dst).
Proof.
  intros Hrd. revert src dst. induction fuel as [|fuel IH]; intros src dst; simpl; [keep_entries|].
  inv_step; [apply Hrd|]. case_match.
  - inv_step; [apply Hrd|]. keep_entries.
  - inv_step; [keep_entries|]. inv_step; [apply Hrd|].
    assert (inv (mret () : M Shelf ())) as Hz by keep_entries. revert Hz. generalize (mret () : M Shelf ()).
    induction a1 as [|e es IHes]; intros m Hm; simpl; [done|]. apply IHes. inv_step; [done|]. apply IH.
Qed.

Lemma inv_publishBookCopy rd fuel b fs keep :
  slug_plain → validateFolderPath fs = Ok tt → (∀ A (m : M world A), inv (rd A m)) →
  inv (publishBookCopy rd fuel b fs keep).
Proof.
  intros Hslug Hv Hrd. unfold publishBookCopy. do 2 (inv_step; [keep_entries|]).
  apply invr_deferred; [|keep_entries]. inv_step; [by apply inv_copy_tree|].
  inv_step; [eapply inv_of_invr, invr_openBook|]. inv_step; [keep_entries|]. by apply inv_publish.
Qed.

Lemma inv_CopyBook id fs : slug_plain → inv (CopyBook id fs).
Proof.
  intros Hslug. unfold CopyBook. eapply invr_bind; [apply inv_validated|]. intros ? Hv.
  inv_step; [keep_entries|]. apply invr_locked. inv_step; [keep_entries|]. destruct a1 as [b fs'].
  inv_step; [apply invr_guard|]. inv_step; [keep_entries|]. apply inv_publishBookCopy; [done..|]. intros A m. apply inv_lift.
Qed.

Lemma inv_cross_read src A (m : M world A) : inv (cross_read src A m).
Proof. intros s Hs. unfold cross_read. by destruct (m _). Qed.

Lemma inv_ensureFree id : inv (ensureBookIDFreeAfterRescan id).
Proof. unfold ensureBookIDFreeAfterRescan. keep_entries. Qed.

(** ** Histories of a shelf

    What the program does to one shelf, and what others do to its files. *)
Inductive step : Shelf → Shelf → Prop :=
  | step_new_folder s parent name : step s (NewFolder parent name s).2
  | step_delete_folder s folder drop : step s (deleteFolder folder drop s).2
  | step_rename_folder s folder name : step s (RenameFolder folder name s).2
  | step_move_folder s folder parent : step s (MoveFolder folder parent s).2
  | step_folder_meta s folder version mutate : step s (updateFolderMeta folder version mutate s).2
  | step_paste_meta s folder data : step s (paste_folder_meta folder data s).2
  | step_new_book s folders title init : step s (NewBookWith folders title init s).2
  | step_move_book s id folders : step s (MoveBook id folders s).2
  | step_copy_book s id folders : step s (CopyBook id folders s).2
  | step_receive s src id folders b keep : (** the target's half of a copy *)
      step s ((validated folders;;
        locked ((if (keep : bool) then ensureBookIDFreeAfterRescan id else mret tt);;
                publishBookCopy (cross_read src) (walk_fuel src) b folders keep)) s).2
  | step_trash s id : step s (MoveBookToTrash id s).2
  | step_restore s id : step s (RestoreTrashedBook id s).2
  | step_purge s id : step s (DeleteTrashedBook id s).2
  | step_lookup s id : step s (getUpdatedBookFromBookID id s).2
  | step_count s id : step s (RefreshBookCharCount id s).2
  | step_refresh s force : step s (refreshBookCacheIfNeeded force s).2
  | step_structure s : step s (makeStructure s).2
  | step_outside s w : step s (set_world w s).

Lemma inv_receive src id fs b (keep : bool) :
  slug_plain →
  inv (validated fs;;
       locked ((if keep then ensureBookIDFreeAfterRescan id else mret tt);;
               publishBookCopy (cross_read src) (walk_fuel src) b fs keep)).
Proof.
  intros Hslug. eapply invr_bind; [apply inv_validated|]. intros ? Hv. apply invr_locked.
  inv_step; [destruct keep; [apply inv_ensureFree|keep_entries]|].
  apply inv_publishBookCopy; [done..|]. intros A m. apply inv_cross_read.
Qed.

Lemma step_ok s s' : slug_plain → step s s' → shelf_ok s → shelf_ok s'.
Proof.
  intros Hslug [] Hs; [by apply inv_NewFolder|by apply inv_deleteFolder|by apply inv_RenameFolder
    |by apply inv_MoveFolder|by apply inv_updateFolderMeta|by apply inv_paste|by apply inv_NewBookWith
    |by apply inv_MoveBook|by apply inv_CopyBook|by apply inv_receive|by apply inv_MoveBookToTrash
    |by apply inv_RestoreTrashedBook|by apply inv_DeleteTrashedBook|by apply inv_getUpdated
    |by apply inv_RefreshBookCharCount|by apply inv_refresh|by apply inv_makeStructure|done].
Qed.

Lemma steps_ok s s' : slug_plain → rtc step s s' → shelf_ok s → shelf_ok s'.
Proof. intros Hslug. induction 1; [done|]. intros Hs. by apply IHrtc, (step_ok x). Qed.

Lemma empty_ok s : cache (bcache s) = ∅ → ScanCache.dirs (scanCache s) = ∅ → shelf_ok s.
Proof.
  intros Hc Hd. split; [unfold cache_ok; rewrite Hc; apply map_Forall_empty|].
  rewrite Hd. apply map_Forall_empty.
Qed.

(** Claim C4: After any history of a shelf that starts with empty caches
    (every handler, in any order, whatever fails, and anything other programs
    do to the files in between), each entry of the book cache names a package
    [books/<folders>/<name>.bookpkg] whose name holds no separator, filed
    under exactly its own folders, with a book opened at that package. *)
Theorem book_cache_invariant s s' id e :
  slug_plain → cache (bcache s) = ∅ → ScanCache.dirs (scanCache s) = ∅ → rtc step s s' →
  cache (bcache s') !! id = Some e →
  package_at (epath e) (folders e) ∧ folderPath (book e) = epath e.
Proof.
  intros Hslug Hc Hd Hst He. destruct (steps_ok s s') as [Hs' _]; [done..|by apply empty_ok|].
  by destruct (Hs' _ _ He).
Qed.
End ops.
End ShelfInv.
