(* ===== verification/Lookup.v ===== *)
(** * What a lookup finds is in the library

    The book cache may be older than the disk. These lemmas follow a lookup
    through the stale check, the refresh and the scan over a fixed tree: every
    book that comes out was opened in it, or its [book.json] stands as the
    cache saw it. *)

From S2P Require Import Prelude Utf8 Strings Json Fs FsSpec Atomic ShelfUtil BookMeta Source Frame Relocate ScanCache FolderMeta Book ShelfState Trash Folder ShelfBook ShelfFrame ShelfInv.

Module Lookup.
Import ShelfUtil BookMeta Book Shelf ShelfFrame ShelfInv.

(** The package of a book is in the tree. *)
Record in_tree (t : tree) (b : Book) : Prop := {
  it_dir : t !! folderPath b = Some Dir;
  it_meta : is_Some (t !! meta_path (folderPath b));
}.
Definition all_in (t : tree) (m : gmap bytes bookIDCacheEntry) : Prop :=
  map_Forall (λ _ e, in_tree t (book e)) m.
Definition stats_known (m : gmap bytes bookIDCacheEntry) : Prop :=
  map_Forall (λ _ e, is_Some (metaStat (book e))) m.

Section lookup.
Context `{UnicodeCase, TimeText, Machine, Digest, ShelfEnv}.
Context (t : tree) (Hwf : wf_tree t).

(** [finds R m]: on [t], [m] changes no file and returns values in [R]. *)
Definition finds {A : Type} (R : A → Prop) (m : M world A) : Prop :=
  ∀ w, wtree w = t → wtree (m w).2 = t ∧ ∀ a, (m w).1 = Ok a → R a.

Lemma finds_ret {A : Type} (R : A → Prop) a : R a → finds R (mret a).
Proof. intros Ha w Hw. split; [done|]. by intros ? [= <-]. Qed.
Lemma finds_throw {A : Type} (R : A → Prop) e : finds R (throw e).
Proof. by intros w Hw. Qed.
Lemma finds_bind {A B : Type} (R : A → Prop) (R' : B → Prop) (m : M world A) (k : A → M world B) :
  finds R m → (∀ a, R a → finds R' (k a)) → finds R' (mbind k m).
Proof.
  intros Hm Hk w Hw. destruct (Hm w Hw) as [Hw' HR]. unfold mbind, M_bind.
  destruct (m w) as [[a|e] w']; simpl in *; [|done]. by apply Hk; [apply HR|].
Qed.
Lemma finds_try {A : Type} (R : A → Prop) (m : M world A) :
  finds R m → finds (λ r, ∀ a, r = Ok a → R a) (try m).
Proof.
  intros Hm w Hw. destruct (Hm w Hw) as [Hw' HR]. unfold try. destruct (m w) as [r w']. simpl in *.
  split; [done|]. by intros ? [= <-].
Qed.
Lemma finds_reads {A : Type} (m : M world A) :
  keeps (λ _, False) (λ _, False) m → finds (λ _, True) m.
Proof.
  intros Hm w <-. destruct (Hm w Hwf) as [_ Ht%touched_none_eq]. by split.
Qed.
Lemma finds_wp {A : Type} (R : A → Prop) (m : M world A) :
  (∀ w, wtree w = t → wp m (λ r w', wtree w' = t ∧ ∀ a, r = Ok a → R a) w) → finds R m.
Proof. done. Qed.
Lemma finds_foldl {B C : Type} (R : B → Prop) (f : C → B → M world B) (l : list C) (m : M world B) :
  finds R m → (∀ c b, R b → finds R (f c b)) → finds R (foldl (λ m c, b ← m; f c b) m l).
Proof.
  revert m. induction l as [|c l IH]; intros m Hm Hf; simpl; [done|].
  apply IH; [|done]. eapply finds_bind; [done|]. auto.
Qed.

Lemma finds_getFileStat p : finds (λ _, is_Some (t !! p)) (FileStat.getFileStat p).
Proof.
  apply finds_wp. intros w <-. apply wp_bind, wp_StatInfo. intros [[n i]|e] k Hi _; [|done].
  apply wp_ret. split; [done|]. intros _ _. destruct (Hi _ eq_refl) as [Hn _].
  apply find_node_ok in Hn as [Hn _]. by eexists.
Qed.

Lemma meta_there p b : folderPath b = p → is_Some (t !! meta_path p) → in_tree t b.
Proof.
  intros <- Hm. split; [|done]. destruct Hm as [n Hm]. unfold meta_path in Hm.
  apply (wf_parent _ Hwf _ BookMetaFile). by eexists.
Qed.

Lemma finds_OpenBook rw p : finds (λ b, in_tree t b ∧ opened_at p b) (OpenBook rw p).
Proof.
  unfold OpenBook. eapply finds_bind; [apply finds_reads; frame|]. intros x _.
  eapply finds_bind; [apply finds_reads; frame|]. intros _ _.
  eapply finds_bind; [apply finds_reads; unfold readBookMeta; frame|]. intros m _.
  eapply finds_bind; [apply finds_getFileStat|]. intros st Hst. apply finds_ret.
  split; [by apply (meta_there p)|by split].
Qed.

Lemma finds_IsStale b :
  is_Some (metaStat b) → finds (λ stale : bool, stale = false → in_tree t b) (IsStale b).
Proof.
  intros [st Hst]. unfold IsStale. rewrite Hst.
  eapply finds_bind; [apply finds_try, finds_getFileStat|]. intros [cur|e] Hc.
  - apply finds_ret. intros _. by apply (meta_there (folderPath b)), (Hc cur).
  - by apply finds_ret.
Qed.

Lemma finds_readEntry fs p b :
  finds (λ e, book e = b ∧ epath e = p ∧ folders e = fs) (readBookIDCacheEntry fs p b).
Proof.
  intros w Hw. split; [by apply (finds_reads _ (keeps_readEntry _ _ fs p b))|].
  intros e He. apply returns_readEntry in He. tauto.
Qed.

(** ** The scan *)
Lemma finds_visit_book rw p st :
  all_in t (scache (acc st)) → finds (λ st', all_in t (scache (acc st'))) (visit_book rw scan_visitor p st).
Proof.
  intros Ha. unfold visit_book. simpl.
  eapply finds_bind; [apply finds_try, finds_OpenBook|]. intros [b|e] Hb; [|by apply finds_ret].
  eapply (finds_bind (λ r, all_in t (scache r.1))).
  - eapply finds_bind; [apply finds_readEntry|]. intros e (He & _). apply finds_ret. simpl.
    apply map_Forall_insert_2; [|done]. rewrite He. by apply Hb.
  - intros [a go] Hr. by apply finds_ret.
Qed.

Lemma finds_dfs rw ign fuel p child reused st :
  all_in t (scache (acc st)) →
  finds (λ st', all_in t (scache (acc st'))) (dfs rw ign scan_visitor fuel p child reused st).
Proof.
  revert p child reused st. induction fuel as [|fuel IH]; intros p child reused st Ha; simpl;
    [apply finds_throw|].
  destruct (skipAll st); [by apply finds_ret|].
  eapply finds_bind; [apply finds_reads, keeps_try, ScanCache.keeps_ChildIsDir|].
  intros [isDir|e] _; [|by apply finds_ret].
  assert (all_in t (scache (visit_meta scan_visitor p (acc st)))) as Hm.
  { unfold visit_meta. simpl. by repeat case_decide. }
  destruct (negb isDir); [by apply finds_ret|]. destruct (IsIgnoredDir ign _); [by apply finds_ret|].
  destruct (HasSuffix (base p) bookExtension); [by apply finds_visit_book|]. simpl.
  eapply finds_bind; [apply finds_reads, ScanCache.keeps_WReadDir|].
  intros [[[children trusted]|e] w] _; [|by apply finds_ret].
  apply (finds_foldl _ (λ c st, dfs rw ign scan_visitor fuel (p ++ [ScanCache.Name c]) (Some c) trusted st)).
  - by apply finds_ret.
  - intros c st' Hst'. by apply IH.
Qed.

(** ** The refresh *)
Lemma in_tree_keepNewer e o : in_tree t (book (keepNewerCharCount e o)) ↔ in_tree t (book e).
Proof. unfold keepNewerCharCount. by repeat case_match. Qed.

Lemma all_in_keep_counts new old : all_in t new → all_in t (keep_counts new old).
Proof.
  intros Hn k e. unfold keep_counts. rewrite map_lookup_imap.
  destruct (new !! k) as [e'|] eqn:E; [|done]. intros [= <-]. apply in_tree_keepNewer. by eapply Hn.
Qed.

(** Each entry of the snapshot is opened anew, removed, or stands. *)
Definition settled (r : gmap bytes bookIDCacheEntry * list bytes) (ie : bytes * bookIDCacheEntry) : Prop :=
  is_Some (r.1 !! ie.1) ∨ ie.1 ∈ r.2 ∨ in_tree t (book ie.2).

Lemma finds_refresh_entries rw l refreshed removed :
  Forall (λ ie, is_Some (metaStat (book ie.2))) l → all_in t refreshed →
  finds (λ r, all_in t r.1 ∧ (∀ k, is_Some (refreshed !! k) → is_Some (r.1 !! k)) ∧
    removed ⊆ r.2 ∧ Forall (settled r) l) (refresh_entries rw l refreshed removed).
Proof.
  revert refreshed removed. induction l as [|[id e] l IH]; intros refreshed removed Hl Hr; simpl.
  { by apply finds_ret. }
  inversion Hl as [|? ? Hs Hl']; subst. simpl in Hs.
  assert (∀ refreshed' removed', all_in t refreshed' →
    (∀ k, is_Some (refreshed !! k) → is_Some (refreshed' !! k)) → removed ⊆ removed' →
    (is_Some (refreshed' !! id) ∨ id ∈ removed' ∨ in_tree t (book e)) →
    finds (λ r, all_in t r.1 ∧ (∀ k, is_Some (refreshed !! k) → is_Some (r.1 !! k)) ∧
      removed ⊆ r.2 ∧ Forall (settled r) ((id, e) :: l)) (refresh_entries rw l refreshed' removed')) as Hgo.
  { intros refreshed' removed' Ha Hk Hrm Hid w Hw.
    destruct (IH refreshed' removed' Hl' Ha w Hw) as [Hw' HQ]. split; [done|].
    intros r Hres. destruct (HQ r Hres) as (? & Hk' & Hrm' & Hall). split; [done|].
    split; [by auto|]. split; [set_solver|]. constructor; [|done]. unfold settled. simpl.
    destruct Hid as [?|[?|?]]; [left; auto|right; left; set_solver|by right; right]. }
  eapply finds_bind; [by apply finds_IsStale|]. intros [|] Hst; simpl; [|by apply Hgo; auto].
  eapply finds_bind; [apply finds_try, finds_OpenBook|]. intros [b|er] Hb; [|apply Hgo; set_solver].
  case_decide; [apply Hgo; set_solver|].
  eapply finds_bind; [apply finds_readEntry|]. intros e' (E & _). apply Hgo; [..|done|].
  - apply map_Forall_insert_2; [|done]. rewrite E. by apply Hb.
  - intros k Hk. destruct (decide (k = id)) as [->|]; [by rewrite lookup_insert_eq|by rewrite lookup_insert_ne].
  - left. by rewrite lookup_insert_eq.
Qed.

Lemma lookup_deletes {A : Type} (m : gmap bytes A) l k x :
  foldr delete m l !! k = Some x → m !! k = Some x ∧ k ∉ l.
Proof.
  induction l as [|y l IH]; simpl; [intros ->; split; [done|apply not_elem_of_nil]|].
  intros [Hne Hk]%lookup_delete_Some. apply IH in Hk as [Hk Hl]. by rewrite not_elem_of_cons.
Qed.

Lemma published_in refreshed removed old :
  all_in t refreshed → Forall (settled (refreshed, removed)) (map_to_list old) →
  all_in t (foldr delete (publish refreshed old) removed).
Proof.
  intros Ha Hs k e [Hk Hr]%lookup_deletes. unfold publish in Hk.
  apply lookup_union_Some_raw in Hk as [Hk|[Hn Hk]]; [by eapply all_in_keep_counts|].
  rewrite Forall_forall in Hs. specialize (Hs (k, e)). rewrite elem_of_map_to_list in Hs.
  destruct (Hs Hk) as [[e' He]|[?|?]]; simpl in *; [|done|done].
  unfold keep_counts in Hn. rewrite map_lookup_imap, He in Hn. done.
Qed.

(** A step of the shelf that runs [m] on its directory. *)
Lemma wp_finds {A : Type} (R : A → Prop) (m : M world A) (Q : result error A → Shelf → Prop) s :
  finds R m → stree s = t →
  (∀ r w, wtree w = t → (∀ a, r = Ok a → R a) → Q r (set_world w s)) → wp (lift m) Q s.
Proof.
  intros Hm Hs HQ. apply wp_lift. destruct (Hm (sworld s) Hs) as [Hw HR]. by apply HQ.
Qed.

Lemma wp_refresh force s :
  stree s = t → stats_known (cache (bcache s)) →
  wp (refreshBookCacheIfNeeded force) (λ r s', stree s' = t ∧
    (r = Ok tt → all_in t (cache (bcache s')))) s.
Proof.
  intros Hs Hk. unfold refreshBookCacheIfNeeded. apply wp_bind, wp_gets.
  apply wp_bind, (wp_finds (λ _, True)); [by apply finds_reads, keeps_now|done|].
  intros [z|e] w Hw _; [|done]. case_match.
  - unfold onlyRefreshBooksInCache. apply wp_bind, wp_gets, wp_bind.
    eapply wp_finds; [apply finds_refresh_entries|done|].
    + apply Forall_forall. intros [k e] Hin%elem_of_map_to_list. by apply (Hk k e).
    + apply map_Forall_empty.
    + intros [[refreshed removed]|e] w' Hw' HR; [|done]. destruct (HR _ eq_refl) as (Ha & _ & _ & Hall).
      apply wp_bind, (wp_finds (λ _, True)); [by apply finds_reads, keeps_now|done|].
      intros [z'|e] w'' Hw'' _; [|done]. apply wp_update_cache. split; [done|]. intros _. simpl.
      by apply published_in.
  - unfold scanToBookCache. apply wp_bind, (wp_finds (λ _, True)); [by apply finds_reads, keeps_now|done|].
    intros [z'|e] w' Hw' _; [|done]. apply wp_bind, wp_bind, wp_gets. cbv zeta. apply wp_bind.
    eapply wp_finds; [apply finds_dfs, map_Forall_empty|done|]. intros [st|e] w2 Hw2 Hst; [|done].
    apply wp_bind, wp_modify, wp_ret, wp_bind.
    apply (wp_finds (λ _, True)); [by apply finds_reads, keeps_readFolderMetaForScan|done|].
    intros [ms|e] w3 Hw3 _; [|done].
    apply wp_bind, (wp_finds (λ _, True)); [by apply finds_reads, keeps_now|done|].
    intros [z3|e] w4 Hw4 _; [|done]. apply wp_update_cache. split; [done|]. intros _. simpl.
    apply all_in_keep_counts. by apply Hst.
Qed.

Lemma wp_getUpdated id s :
  stree s = t → stats_known (cache (bcache s)) →
  wp (getUpdatedBookFromBookID id) (λ r s', stree s' = t ∧
    ∀ b fs, r = Ok (b, fs) → in_tree t b) s.
Proof.
  intros Hs Hk. assert (∀ s, stree s = t → stats_known (cache (bcache s)) →
    wp (book_after_refresh id) (λ r s', stree s' = t ∧ ∀ b fs, r = Ok (b, fs) → in_tree t b) s) as Hafter.
  { intros s1 Hs1 Hk1. unfold book_after_refresh.
    apply wp_bind. eapply wp_mono; [by apply wp_refresh|]. intros [[]|e] s2 [Hs2 Ha]; [|done].
    apply wp_bind, wp_gets. destruct (cache (bcache s2) !! id) as [e|] eqn:E; [|done].
    apply wp_ret. split; [done|]. intros b fs [= <- <-]. by eapply (Ha eq_refl). }
  unfold getUpdatedBookFromBookID. apply wp_bind, wp_gets.
  destruct (cache (bcache s) !! id) as [e|] eqn:E; [|by apply Hafter].
  apply wp_bind. eapply wp_finds; [apply finds_IsStale; by apply (Hk id)|done|].
  intros [[|]|e0] w Hw Hst; simpl; [|apply wp_ret; split; [done|]; intros b fs [= <- <-]; by apply (Hst false)|done].
  apply wp_bind, wp_update_cache.
  assert (stats_known (delete id (cache (bcache s)))) as Hk' by by apply map_Forall_delete.
  apply wp_bind, wp_try, wp_bind, wp_gets. eapply wp_finds; [apply finds_OpenBook|done|].
  intros [b|er] w' Hw' Hb; [|by apply Hafter].
  apply wp_bind. eapply wp_finds; [apply finds_readEntry|done|].
  intros [e'|er] w'' Hw'' _; [|done]. apply wp_bind, wp_update_cache, wp_ret. split; [done|].
  intros b' fs' [= <- <-]. by apply (Hb b).
Qed.
End lookup.

Lemma shelf_ok_stats s : shelf_ok s → stats_known (cache (bcache s)).
Proof. intros [Hc _] k e He. by destruct (Hc k e He). Qed.

Section claims.
Context `{UnicodeCase, TimeText, Machine, Digest, ShelfEnv}.

(** A lookup on a shelf that keeps its invariant. *)
Lemma wp_lookup id s (Q : result error (Book * FolderPath) → Shelf → Prop) :
  wf_tree (stree s) → shelf_ok s →
  (∀ r s', stree s' = stree s → shelf_ok s' → (getUpdatedBookFromBookID id s).1 = r →
    (∀ b fs, r = Ok (b, fs) → in_tree (stree s) b ∧ package_at (folderPath b) fs) → Q r s') →
  wp (getUpdatedBookFromBookID id) Q s.
Proof.
  intros Hwf Hok HQ.
  destruct (wp_getUpdated (stree s) Hwf id s eq_refl (shelf_ok_stats s Hok)) as [Ht Hin].
  destruct (invr_getUpdated id s Hok) as [Hok' Hat].
  apply HQ; [done..|]. intros b fs Hr. split; [by eapply Hin|]. by apply (Hat (b, fs)).
Qed.

(** Claim C5: a lookup only finds books that are in the library. After any
    history of a shelf that starts with empty caches, a lookup that succeeds,
    however old the cache is and whatever fails, returns a book whose package
    [books/<folders>/<name>.bookpkg] is a directory of the library with a
    [book.json] in it at that moment, under the folders it reports. *)
Theorem lookup_is_in_library s0 s id b fs :
  slug_plain → cache (bcache s0) = ∅ → ScanCache.dirs (scanCache s0) = ∅ → rtc step s0 s →
  wf_tree (stree s) → (getUpdatedBookFromBookID id s).1 = Ok (b, fs) →
  package_at (folderPath b) fs ∧ stree s !! folderPath b = Some Dir ∧
  is_Some (stree s !! meta_path (folderPath b)).
Proof.
  intros Hslug Hc Hd Hst Hwf Hr. assert (shelf_ok s) as Hok.
  { eapply steps_ok; [done..|]. by apply empty_ok. }
  apply (wp_lookup id s (λ r _, r = Ok (b, fs) → package_at (folderPath b) fs ∧
    stree s !! folderPath b = Some Dir ∧ is_Some (stree s !! meta_path (folderPath b)))); [done..| |done].
  intros r s' _ _ _ Hin ->. by destruct (Hin b fs eq_refl) as [[? ?] ?].
Qed.
End claims.
End Lookup.
