(* ===== verification/TrashSpec.v ===== *)
(** * The trash loses nothing

    Under every fault: moving a book to the trash and restoring it keep every
    byte of it, at the old place or at the new one; deleting removes nothing
    but the book; the trash of the older layout is taken over whole. Without
    faults the two moves undo each other. *)

From S2P Require Import Prelude Utf8 Strings Json Fs FsSpec Atomic ShelfUtil BookMeta Source Frame Relocate ScanCache FolderMeta Book ShelfState Trash ShelfFrame.

Module TrashSpec.
Import Atomic ShelfUtil BookMeta Book Shelf TrashMeta Trash ShelfFrame.

(** The files of a package a move to the trash and back may change:
    [trash.json] and temporary files beside it. *)
Definition aside (k : path) : Prop :=
  k = [trashMetaFile] ∨ ∃ n, k = [n] ∧ isTempFileName n = true.

Lemma replaced_aside p data t t' :
  replaced (p ++ [trashMetaFile]) data t t' → carried aside p p t t' ∧ elsewhere p p t t'.
Proof.
  intros [_ Ho].
  assert (∀ q, temp_of (p ++ [trashMetaFile]) q → ∃ n, q = p ++ [n] ∧ isTempFileName n = true) as Ht.
  { intros q (n & -> & Hn). exists n. split; [|done]. unfold dirname.
    rewrite length_app. simpl. by rewrite Nat.add_sub, take_app_length. }
  split.
  - intros k Hk. apply Ho.
    + intros [= ->]%app_inv_head. apply Hk. by left.
    + intros (n & ->%app_inv_head & Hn)%Ht. apply Hk. right. eauto.
  - intros q Hq _. apply Ho; [intros ->; apply Hq; auto|].
    intros (n & -> & _)%Ht. apply Hq; auto.
Qed.

Section spec.
Context `{UnicodeCase, TimeText, Machine, Digest, ShelfEnv}.

Definition stamped (m : trashMeta) : trashMeta :=
  mkTrashMeta TrashMetaSchemaVersion (DeletedAt m) (OriginalPath m) (OriginalFolder m)
    (DeleteReason m).

Lemma wp_writeTrashMeta p m (Q : result error unit → world → Prop) w :
  wf_tree (wtree w) →
  (∀ r w', carried aside p p (wtree w) (wtree w') → elsewhere p p (wtree w) (wtree w') →
    wf_tree (wtree w') →
    (r = Ok tt → ∃ z, wtree w' !! (p ++ [trashMetaFile]) = Some (File (Doc (encode (stamped m))) z)) →
    Q r w') →
  wp (writeTrashMeta p m) Q w.
Proof.
  intros Hwf HQ. destruct (Source.file_path_ok p trashMetaFile) as [Hne Hb]; [done|].
  apply wp_wf; [apply preserves_WriteFileAtomic|done|].
  apply wp_WriteFileAtomic; [done..| |].
  - intros e w' [Hc He]%replaced_aside Hwf'. by apply HQ.
  - intros z w' [Hc He]%replaced_aside Hl Hwf'. apply HQ; eauto.
Qed.

Lemma wp_ensure_missing p e (Q : result error unit → world → Prop) w :
  wf_tree (wtree w) →
  (∀ e n, Q (Err e) (mkWorld (wtree w) n)) →
  (∀ n, wtree w !! p = None → Q (Ok tt) (mkWorld (wtree w) n)) →
  wp (ensure_missing p e) Q w.
Proof.
  intros Hwf HE HO. apply wp_bind, wp_try, wp_Stat_missing; [done|]. intros [x|e'] n Hm _.
  - apply wp_throw, HE.
  - apply wp_guard; intros Hg; [apply HE|]. apply negb_false_iff, errors_Is_ENotExist in Hg as ->.
    by apply HO, Hm.
Qed.

Lemma keeps_ensure_missing P D p e : keeps P D (ensure_missing p e).
Proof. unfold ensure_missing. frame. Qed.
Lemma keeps_readTrashMetaTolerant P D p : keeps P D (readTrashMetaTolerant p).
Proof. unfold readTrashMetaTolerant, readTrashMeta. frame. Qed.
Lemma keeps_refuseIfTrashMetaTooNew P D p : keeps P D (refuseIfTrashMetaTooNew p).
Proof. apply keeps_bind; [apply keeps_readTrashMetaTolerant|]. intros m. frame. Qed.

(** What [getUpdatedBookFromBookID] finds for a handler that has just taken
    the lock. *)
Definition found (l : LockState) (bookID : bytes) (s : Shelf) (b : Book) (fs : FolderPath) : Prop :=
  (getUpdatedBookFromBookID bookID (after_lock l s)).1 = Ok (b, fs).

(** ** Moving a book to the trash *)

(** Where the package at [p] is after the move. *)
Inductive trashed (p tp : path) (fs : FolderPath) (t : tree) (r : result error unit) (t' : tree) : Prop :=
  | trash_kept : is_ok r = false → carried aside p p t t' → trashed p tp fs t r t'
  | trash_moved : t !! tp = None → carried aside p tp t t' → (∀ q, under p q → t' !! q = None) →
      (r = Ok tt → ∃ z m, t' !! (tp ++ [trashMetaFile]) = Some (File (Doc (encode m)) z) ∧
        SchemaVersion m = TrashMetaSchemaVersion ∧
        OriginalPath m = path_string p ∧ OriginalFolder m = fs) →
      trashed p tp fs t r t'.

Lemma gone_elsewhere (p tp : path) (t1 t2 : tree) :
  ¬ under p tp → ¬ under tp p → (∀ q, under p q → t1 !! q = None) →
  elsewhere tp tp t1 t2 → ∀ q, under p q → t2 !! q = None.
Proof.
  intros Hptp Htpp Hg He q Hq. rewrite He; [by apply Hg|..].
  all: intros Hq'; destruct Hq as [k ->], Hq' as [l E];
    apply app_eq_inv in E as [(m & -> & _)|(m & -> & _)]; [apply Htpp|apply Hptp]; auto.
Qed.

Definition move_outcome (bookID : bytes) (p tp : path) (fs : FolderPath) (t : tree)
    (r : result error unit) (s' : Shelf) : Prop :=
  elsewhere p tp t (stree s') ∧ trashed p tp fs t r (stree s') ∧
  (r = Ok tt → cache (bcache s') !! bookID = None).

Lemma wp_move_package bookID p tp fs s :
  wf_tree (stree s) → stree s !! tp = None →
  wp (move_package bookID p tp fs) (move_outcome bookID p tp fs (stree s)) s.
Proof.
  intros Hwf Htp. destruct s as [[t k] ro rd ig ns bc sc lk]. unfold stree in *. simpl in *.
  apply wp_bind, wp_lift, wp_Rename_free; simpl; [done|done| |].
  { intros e n. split; [apply elsewhere_refl|]. split; [|done]. by apply trash_kept, carried_refl. }
  intros r n Hp Hptp Htpp Hwf' Hr.
  assert (∀ q, under p q → move t p tp !! q = None) as Hgone by (intros; by apply move_gone).
  destruct Hr as [-> | ->].
  2: { split; [apply elsewhere_move|]. split; [|done].
       by apply trash_moved; [|apply carried_move| |]. }
  apply wp_bind, wp_lift, wp_now. intros z j.
  apply wp_bind, wp_try, wp_lift, wp_writeTrashMeta; [done|]. simpl.
  intros r [t2 j2] Hc He Hwf'' Hd. simpl in *.
  assert (elsewhere p tp t t2) as Hel.
  { eapply elsewhere_trans; [apply elsewhere_move|]. intros q Hq1 Hq2. by apply He. }
  assert (carried aside p tp t t2) as Hca by (eapply carried_trans; [apply carried_move|done]).
  assert (∀ q, under p q → t2 !! q = None) as Hgone2 by (by eapply gone_elsewhere).
  destruct r as [[]|e].
  - apply wp_update_cache. split; [done|]. split; [|intros _; simpl; by rewrite lookup_delete_eq].
    apply trash_moved; [done..|]. intros _. destruct (Hd eq_refl) as [z' Hz]. eauto 10.
  - apply wp_bind, wp_ignore, wp_lift, wp_Rename_free; [done|by apply Hgone2| |].
    + intros e' k'. split; [done|]. split; [|done]. by apply trash_moved.
    + intros r k' _ _ _ _ _. apply wp_throw. split; [|split; [|done]].
      * intros q Hq1 Hq2. simpl. unfold stree. simpl.
        rewrite lookup_move, !decide_False by done. by apply Hel.
      * apply trash_kept; [done|]. eapply carried_trans; [done|apply carried_move].
Qed.

Lemma wp_MoveBookToTrash bookID s :
  wf_tree (stree s) →
  wp (MoveBookToTrash bookID) (λ r s',
    stree s' = stree s ∧ is_ok r = false ∨
    ∃ b fs, found Exclusive bookID s b fs ∧
      move_outcome bookID (folderPath b) (trashPathOf bookID) fs (stree s) r s') s.
Proof.
  intros Hwf. apply wp_bind, wp_bind, wp_gets, wp_guard; intros _; [by left|].
  apply wp_locked; [intros n; by left|]. set (s0 := after_lock Exclusive s). assert (stree s0 = stree s) as Hs0 by done.
  apply wp_bind, wp_shelf_reads; [apply keeps_getUpdated|done|].
  intros [[b fs]|e] s1 Hb Hs1; [|left; split; [|done]; tree_eq].
  assert (found Exclusive bookID s b fs) as Hf by done.
  apply wp_bind, wp_shelf_reads; [apply keeps_lift, keeps_refuseIfTrashMetaTooNew|by rewrite Hs1|].
  intros [[]|e] s2 _ Hs2; [|left; split; [|done]; tree_eq].
  assert (stree s2 = stree s) as Hs by congruence.
  apply wp_bind, wp_lift, wp_ensure_missing; [by rewrite <-Hs in Hwf| |].
  { intros e k. by left. }
  intros k Htp. eapply wp_mono; [apply wp_move_package|]; simpl in *.
  - by rewrite <-Hs in Hwf.
  - done.
  - intros r s' Hout. right. exists b, fs. split; [done|]. by rewrite <-Hs.
Qed.

(** Claim C1: moving a book to the trash loses nothing. Whatever fails and
    wherever, either nothing happened, or the package of the book the shelf
    found under the ID lies whole at its place (only after an error) or whole
    under [trash/books/ID.bookpkg], apart from [trash.json] and temporary
    files beside it; nothing else in the library changed. A success means it
    is in the trash, gone from its old place, its [trash.json] records where
    it came from, and the book cache has forgotten it. *)
Theorem MoveBookToTrash_keeps_the_book bookID s :
  wf_tree (stree s) →
  wp (MoveBookToTrash bookID) (λ r s',
    stree s' = stree s ∧ is_ok r = false ∨
    ∃ b fs, found Exclusive bookID s b fs ∧
      move_outcome bookID (folderPath b) (trashPathOf bookID) fs (stree s) r s') s.
Proof. apply wp_MoveBookToTrash. Qed.

(** ** Restoring a book *)

(** The search ends at a path nothing has. *)
Lemma wp_collision_loop n dir b0 f i (Q : result error path → world → Prop) w :
  wf_tree (wtree w) →
  (∀ e k, Q (Err e) (mkWorld (wtree w) k)) →
  (∀ j k, wtree w !! pjoin dir (collision_name b0 f j) = None →
    Q (Ok (pjoin dir (collision_name b0 f j))) (mkWorld (wtree w) k)) →
  wp (collision_loop n dir b0 f i) Q w.
Proof.
  intros Hwf HE HO. destruct w as [t k]. simpl in *. revert i k.
  induction n as [|n IH]; intros i k; [apply wp_throw, HE|].
  apply wp_bind, wp_try, wp_Stat_missing; [done|]. intros [x|e] k' Hm _; simpl; [apply IH|].
  destruct (errors_Is e ENotExist) eqn:He; [|apply wp_throw, HE].
  apply errors_Is_ENotExist in He as ->. apply wp_ret, HO. by apply Hm.
Qed.

Lemma wp_resolveBookPathCollision dir f (Q : result error path → world → Prop) w :
  wf_tree (wtree w) →
  (∀ e k, Q (Err e) (mkWorld (wtree w) k)) →
  (∀ p k, wtree w !! p = None → Q (Ok p) (mkWorld (wtree w) k)) →
  wp (resolveBookPathCollision dir f) Q w.
Proof. intros Hwf HE HO. apply wp_collision_loop; auto. Qed.

Lemma keeps_findTrashedBook P D id : keeps P D (findTrashedBook id).
Proof.
  unfold findTrashedBook. frame. apply keeps_lift, keeps_readTrashMetaTolerant.
Qed.

(** Where the package at [tp] is after the restore; [dst] was free. *)
Inductive restored (tp dst : path) (t : tree) (r : result error unit) (t' : tree) : Prop :=
  | restore_kept : is_ok r = false → carried (λ _, False) tp tp t t' → restored tp dst t r t'
  | restore_moved : t !! dst = None → carried (eq [trashMetaFile]) tp dst t t' →
      (∀ q, under tp q → t' !! q = None) → restored tp dst t r t'.

(** Elsewhere, only missing directories on the way to [d] were made. *)
Definition elsewhere_or_made (tp dst d : path) (t t' : tree) : Prop :=
  ∀ q, ¬ under tp q → ¬ under dst q →
    t' !! q = t !! q ∨ t !! q = None ∧ t' !! q = Some Dir ∧ under q d.

(** The folders of a restore lie outside the trash. *)
Lemma restore_folders_out bookID s m q :
  validateBookID bookID = Ok tt → under (trashPathOf bookID) q →
  ¬ under q (folderDir (restore_folders s m)).
Proof.
  intros Hv [k ->] [l E]. rewrite trashPathOf_valid in E by done.
  by rewrite folderDir_valid in E by apply restore_folders_valid.
Qed.

(** The end of a restore, once the target folder is there. *)
Definition restore_tail (trashPath targetPath : path) (fs : FolderPath) (b : Book) : M Shelf unit :=
  lift (Rename trashPath targetPath);;
  ignore (lift (Remove (targetPath ++ [trashMetaFile])));;
  restoredBook ← openBook targetPath;
  updateBookCacheEntry fs targetPath restoredBook;;
  guard_err (negb (bool_decide (ID (meta restoredBook) = ID (meta b))))
    (Msg "restored book id mismatch").

Lemma wp_restore_tail tp dst fs b s :
  wf_tree (stree s) → stree s !! dst = None →
  wp (restore_tail tp dst fs b) (λ r s', elsewhere tp dst (stree s) (stree s') ∧
    restored tp dst (stree s) r (stree s')) s.
Proof.
  intros Hwf Hd. destruct s as [[t k] ro rd ig ns bc sc lk]. unfold stree in *. simpl in *.
  apply wp_bind, wp_lift, wp_Rename_free; simpl; [done|done| |].
  { intros e n. split; [apply elsewhere_refl|]. by apply restore_kept, carried_refl. }
  intros r n Hp Hod Hdo Hwf' Hr.
  assert (∀ q, under tp q → move t tp dst !! q = None) as Hgone by (intros; by apply move_gone).
  destruct Hr as [-> | ->].
  2: { split; [apply elsewhere_move|]. by apply restore_moved; [|apply carried_move|]. }
  set (tr := dst ++ [trashMetaFile]).
  apply wp_bind, wp_ignore, wp_lift, (wp_mono _ (λ _ w', wf_tree (wtree w') ∧
    carried (eq [trashMetaFile]) tp dst t (wtree w') ∧ elsewhere tp dst t (wtree w') ∧
    ∀ q, under tp q → wtree w' !! q = None)).
  { apply wp_wf; [apply preserves_Remove|done|]. apply wp_Remove; simpl.
    - intros e j _ _. split; [done|]. by split; [apply carried_move|split; [apply elsewhere_move|]].
    - intros r' t' j [-> _]%fs_remove_ok _ Hwf2. simpl in *. split; [done|].
      split; [|split].
      + intros q Hq. rewrite lookup_delete_ne by (by intros ?%app_inv_head).
        apply (carried_move (λ _, False) tp dst t q). by intros [].
      + intros q Hq1 Hq2. rewrite lookup_delete_ne by (intros <-; apply Hq2; unfold tr; auto).
        by apply elsewhere_move.
      + intros q Hq. destruct (decide (tr = q)) as [->|]; [by rewrite lookup_delete_eq|].
        rewrite lookup_delete_ne by done. by apply Hgone. }
  intros _ [t2 j2] (Hwf2 & Hc & He & Hg). simpl in *.
  eapply wp_shelf_reads; [frame|done|]. intros r s' _ Hs'.
  unfold stree in *. simpl in *. rewrite Hs'. split; [done|]. by apply restore_moved.
Qed.


(** ** Deleting a trashed book *)

(** deleting a trashed book removes nothing else. Whatever fails
    and wherever, no path outside [trash/books/ID.bookpkg] changes, an ID
    that is no plain name is refused, and a success means nothing is left
    there. *)
Theorem DeleteTrashedBook_only_it bookID s :
  wf_tree (stree s) →
  wp (DeleteTrashedBook bookID) (λ r s',
    (∀ q, ¬ under (trashBooksFolder ++ [bookID ++ bookExtension]) q → stree s' !! q = stree s !! q) ∧
    (validateBookID bookID ≠ Ok tt → is_ok r = false ∧ stree s' = stree s) ∧
    (r = Ok tt → ∀ q, under (trashBooksFolder ++ [bookID ++ bookExtension]) q →
      stree s' !! q = None)) s.
Proof.
  intros Hwf. set (Post := λ (r : result error unit) (s' : Shelf), _ ∧ _).
  assert (∀ e s', stree s' = stree s → Post (Err e) s') as HE.
  { intros e s' Hs'. unfold Post. rewrite Hs'. done. }
  apply wp_bind, wp_of_result. destruct (validateBookID bookID) as [[]|e] eqn:Hv; [|by apply HE].
  pose proof (trashPathOf_valid bookID Hv) as Etp.
  apply wp_bind, wp_bind, wp_gets, wp_guard; intros _; [by apply HE|].
  apply wp_locked; [intros n; by apply HE|]. rewrite Etp. set (tp := trashBooksFolder ++ _) in *.
  apply wp_bind, wp_try, wp_lift, wp_Stat. intros r n _. simpl.
  destruct r as [nd|e]; [|by apply HE].
  apply wp_bind, wp_shelf_reads; [apply keeps_lift, keeps_refuseIfTrashMetaTooNew|done|].
  intros [[]|e] s1 _ Hs1; [|by apply HE; tree_eq].
  apply wp_lift, wp_RemoveAll. intros r t' k Ho Hr. unfold Post.
  assert (wtree (sworld s1) = stree s) as Et by tree_eq. rewrite Et in *. split; [|split; [done|]].
  - intros q Hq. destruct (Ho q) as [?|[? _]]; done.
  - intros -> q Hq. specialize (Hr eq_refl). unfold stree. simpl.
    apply fs_remove_all_ok in Hr as [[-> Hn]|[_ ->]]; [|by rewrite lookup_prune_none, decide_True].
    destruct (stree s !! q) as [x|] eqn:Hx; [|done]. exfalso. destruct Hq as [l ->].
    assert (is_Some (stree s !! tp)) as Hs.
    { destruct (decide (l = [])) as [->|]; [rewrite app_nil_r in Hx; by eexists|].
      exists Dir. eapply wf_ancestor; [done|by eexists|done]. }
    by rewrite resolve_some in Hn.
Qed.

(** ** The trash of the older layout *)

(** What a step of the migration may do. *)
Record migrated (t t' : tree) : Prop := {
  mg_wf : wf_tree t';
  mg_files : kept_files [legacyTrashFolder] t t';
  mg_dirs p : under p legacyTrashBooksFolder → t !! p = Some Dir → t' !! p = Some Dir;
}.

Lemma migrated_refl t : wf_tree t → migrated t t.
Proof. split; [done|by apply kept_files_same|done]. Qed.
Lemma migrated_trans t1 t2 t3 : migrated t1 t2 → migrated t2 t3 → migrated t1 t3.
Proof. intros [_ Ha Hb] [? Hc Hd]. split; [done|by eapply kept_files_trans|auto]. Qed.

Lemma migrated_move t s dst :
  wf_tree t → t !! dst = None → wf_tree (move t (legacyTrashBooksFolder ++ [s]) dst) →
  migrated t (move t (legacyTrashBooksFolder ++ [s]) dst).
Proof.
  intros Hwf Hd Hwf'. split; [done| |].
  - apply kept_files_move; [done| |done]. by exists [booksFolder; s].
  - intros p Hp Hpd. rewrite lookup_move, decide_False, decide_False; [done|..].
    + intros Hu%under_length. apply under_length in Hp. rewrite length_app in Hu. simpl in *. lia.
    + intros [k ->]. rewrite wf_no_child in Hpd; [done|done|by rewrite Hd|].
      intros ->. by rewrite app_nil_r, Hd in Hpd.
Qed.

Lemma wp_merge_entries es (Q : result error unit → world → Prop) w :
  wf_tree (wtree w) → (∀ r w', migrated (wtree w) (wtree w') → Q r w') →
  wp (merge_entries es) Q w.
Proof.
  revert w. induction es as [|e es IH]; intros w Hwf HQ; simpl.
  { by apply wp_ret, HQ, migrated_refl. }
  destruct (negb (is_package e)); [by apply IH|].
  apply wp_bind, wp_resolveBookPathCollision; [done|intros er k; by apply HQ, migrated_refl|].
  intros dst k Hd. apply wp_bind, wp_Rename_free; [done|done| |].
  { intros er j. by apply HQ, migrated_refl. }
  intros r j _ _ _ Hwf' Hr. simpl in *.
  pose proof (migrated_move _ _ _ Hwf Hd Hwf') as Hm.
  destruct Hr as [-> | ->]; [|by apply HQ].
  apply IH; [done|]. intros r w' Hm'. apply HQ. by eapply migrated_trans.
Qed.

(** Removing a directory that must be empty. *)
Lemma wp_Remove_dir from p (Q : result error unit → world → Prop) w :
  wf_tree (wtree w) → ¬ file_at (wtree w) p →
  (∀ r w', wf_tree (wtree w') → kept_files from (wtree w) (wtree w') → Q r w') →
  wp (Remove p) Q w.
Proof.
  intros Hwf Hp HQ. apply wp_wf; [apply preserves_Remove|done|]. apply wp_Remove.
  - intros e n _ Hwf'. apply HQ; [done|by apply kept_files_same].
  - intros r t' n [-> [(Hd & _)|Hf]]%fs_remove_ok _ Hwf'; [|by destruct Hp].
    apply HQ; [done|by apply kept_files_delete_dir].
Qed.

Lemma wp_MkdirAll_migrated p (Q : result error unit → world → Prop) w :
  wf_tree (wtree w) → (∀ r w', migrated (wtree w) (wtree w') → Q r w') → wp (MkdirAll p) Q w.
Proof.
  intros Hwf HQ. apply wp_wf; [apply preserves_MkdirAll|done|]. apply wp_MkdirAll.
  intros r t' n Ha _ _ Hwf'. apply HQ. split; [done|by eapply kept_files_dirs|].
  intros q _ Hq. simpl. destruct (Ha q) as [->|[? _]]; congruence.
Qed.

(** The end of the merge: the emptied directories go. *)
Lemma wp_remove_legacy (Q : result error unit → world → Prop) w :
  wf_tree (wtree w) → ¬ file_at (wtree w) legacyTrashBooksFolder →
  wtree w !! [legacyTrashFolder] = Some Dir →
  (∀ r w', wf_tree (wtree w') → kept_files [legacyTrashFolder] (wtree w) (wtree w') → Q r w') →
  wp (removed ← try (Remove legacyTrashBooksFolder);
      if match removed with Err e => negb (errors_Is e ENotExist) | Ok _ => false end
      then mret tt else ignore (Remove [legacyTrashFolder])) Q w.
Proof.
  intros Hwf Hb Hl HQ. apply wp_bind, wp_try.
  apply wp_wf; [apply preserves_Remove|done|]. apply wp_Remove.
  - intros e n _ Hwf'. simpl. destruct (negb _); [apply wp_ret, HQ; [done|by apply kept_files_same]|].
    apply wp_ignore, wp_Remove_dir with (from := [legacyTrashFolder]); simpl; [done| |intros ? ? ? ?; by apply HQ].
    intros (c & z & ?). simplify_eq.
  - intros r t' n [-> [(Hd & _)|Hf]]%fs_remove_ok _ Hwf'; [|by destruct Hb]. simpl in *.
    destruct (match r with Err e => _ | Ok _ => _ end);
      [apply wp_ret, HQ; [done|by apply kept_files_delete_dir]|].
    apply wp_ignore, wp_Remove_dir with (from := [legacyTrashFolder]); simpl; [done| |].
    + intros (c & z & Hc). rewrite lookup_delete_ne in Hc by done. congruence.
    + intros r' w' Hwf'' Hk. apply HQ; [done|].
      eapply kept_files_trans; [by apply kept_files_delete_dir|done].
Qed.

Lemma wp_mergeLegacyTrashBooks (Q : result error unit → world → Prop) w :
  wf_tree (wtree w) → wtree w !! [legacyTrashFolder] = Some Dir →
  (∀ r w', wf_tree (wtree w') → kept_files [legacyTrashFolder] (wtree w) (wtree w') → Q r w') →
  wp mergeLegacyTrashBooks Q w.
Proof.
  intros Hwf Hl HQ.
  assert (∀ r w', migrated (wtree w) (wtree w') → Q r w') as HQ' by (intros r w' [? ? ?]; by apply HQ).
  apply wp_bind, wp_try. unfold ReadDir. apply wp_read. intros r n Hr. simpl.
  set (t := wtree w) in *.
  assert (∀ es, (es ≠ [] → t !! legacyTrashBooksFolder = Some Dir) →
    ¬ file_at t legacyTrashBooksFolder →
    wp ((if decide (es = []) then mret tt else MkdirAll trashBooksFolder);;
        merge_entries es;;
        removed ← try (Remove legacyTrashBooksFolder);
        if match removed with Err e => negb (errors_Is e ENotExist) | Ok _ => false end
        then mret tt else ignore (Remove [legacyTrashFolder])) Q (mkWorld t n)) as Hgo.
  { intros es Hes Hnf.
    assert (∀ w', migrated t (wtree w') → (es = [] → wtree w' = t) → wp (
      removed ← try (Remove legacyTrashBooksFolder);
      if match removed with Err e => negb (errors_Is e ENotExist) | Ok _ => false end
      then mret tt else ignore (Remove [legacyTrashFolder])) Q w') as Hend.
    { intros w' [Hwf' Hk Hd] He. apply wp_remove_legacy; [done| | |].
      - destruct (decide (es = [])) as [E|E]; [by rewrite He|].
        intros (c & z & Hc). rewrite Hd in Hc; auto. done.
      - apply Hd; [by exists [booksFolder]|done].
      - intros r' w'' Hwf'' Hk'. apply HQ; [done|]. by eapply kept_files_trans. }
    apply wp_bind. destruct (decide (es = [])) as [->|Hne].
    { apply wp_ret, wp_bind, wp_ret, Hend; [by apply migrated_refl|done]. }
    apply wp_MkdirAll_migrated; [done|]. simpl. intros r' w1 Hm1. destruct r'; [|by apply HQ'].
    apply wp_bind, wp_merge_entries; [apply Hm1|]. intros r' w2 Hm2.
    assert (migrated t (wtree w2)) as Hm by by eapply migrated_trans.
    destruct r'; [by apply Hend|by apply HQ']. }
  assert (∀ e, Q (Err e) (mkWorld t n)) as HE by (intros; by apply HQ', migrated_refl).
  destruct r as [es|e].
  - apply wp_bind, wp_ret. destruct Hr as [Hr|[=]].
    destruct (find_node t legacyTrashBooksFolder) as [[|c z]|] eqn:F; simplify_eq.
    apply find_node_ok in F as [F _]. apply Hgo; [done|]. intros (c & z & ?). congruence.
  - apply wp_bind. destruct (errors_Is e ENotExist) eqn:He; [|apply wp_throw, HE].
    apply wp_ret. apply errors_Is_ENotExist in He as ->. apply Hgo; [done|].
    destruct Hr as [Hr|[=]]. destruct (find_node t legacyTrashBooksFolder) as [[|c z]|] eqn:F; simplify_eq.
    apply find_node_missing in F; [|done]. intros (c & z & ?). congruence.
Qed.

Lemma wp_ensureTrashFolder w :
  wf_tree (wtree w) →
  wp ensureTrashFolder (λ _ w', wf_tree (wtree w') ∧ kept_files [legacyTrashFolder] (wtree w) (wtree w')) w.
Proof.
  intros Hwf.
  assert (∀ t n, t = wtree w → wf_tree (wtree (mkWorld t n)) ∧
    kept_files [legacyTrashFolder] (wtree w) (wtree (mkWorld t n))) as Hid.
  { intros t n ->. split; [done|by apply kept_files_same]. }
  assert (∀ w1, wf_tree (wtree w1) → kept_files [legacyTrashFolder] (wtree w) (wtree w1) →
    wp (MkdirAll trashBooksFolder) (λ _ w', wf_tree (wtree w') ∧
      kept_files [legacyTrashFolder] (wtree w) (wtree w')) w1) as Hmk.
  { intros w1 Hwf1 Hk. apply wp_MkdirAll_migrated; [done|]. intros r w2 [? ? _].
    split; [done|by eapply kept_files_trans]. }
  apply wp_bind, wp_bind, wp_try, wp_Stat_missing; [done|]. intros [n|e] k Hn Hs; simpl.
  2: { destruct (errors_Is e ENotExist); [apply wp_ret|apply wp_throw]; [|by apply Hid].
       apply Hmk; apply Hid; done. }
  destruct (negb (is_dir n)) eqn:Hdir; [apply wp_ret, Hmk; apply Hid; done|].
  destruct n as [|]; [|done]. specialize (Hs _ eq_refl).
  apply wp_bind, wp_try, wp_Stat_missing; [done|]. intros [n|e] j Hn' _; simpl.
  - apply wp_mergeLegacyTrashBooks; [done|done|]. intros [[]|e] w' Hwf' Hk'; [by apply Hmk|done].
  - destruct (errors_Is e ENotExist) eqn:He; [|apply wp_throw, Hid; done].
    apply errors_Is_ENotExist in He as ->.
    apply wp_Rename_free; [done|by apply Hn'|intros; by apply Hid|].
    intros r i _ _ _ Hwf' Hr. simpl in *.
    assert (kept_files [legacyTrashFolder] (wtree w)
      (move (wtree w) [legacyTrashFolder] [trashFolder])) as Hk.
    { apply kept_files_move; [done|apply under_refl|by apply Hn']. }
    destruct Hr as [-> | ->]; [by apply Hmk|done].
Qed.

(** taking over the trash of the older layout loses nothing.
    Whatever fails and wherever, every file of the library is still there
    with its content: where it was, or, if it lay under [.trash], at another
    path; no two files end up at the same path, so nothing is overwritten. *)
Theorem ensureTrashFolder_keeps_files w :
  wf_tree (wtree w) →
  wp ensureTrashFolder (λ _ w', wf_tree (wtree w') ∧ ∃ f,
    (∀ q1 q2, file_at (wtree w) q1 → file_at (wtree w) q2 → f q1 = f q2 → q1 = q2) ∧
    (∀ q c z, wtree w !! q = Some (File c z) → wtree w' !! f q = Some (File c z)) ∧
    (∀ q, f q ≠ q → under [legacyTrashFolder] q)) w.
Proof.
  intros Hwf. eapply wp_mono; [by apply wp_ensureTrashFolder|]. intros r w' [? [f [? ? ?]]]. eauto 10.
Qed.

End spec.
End TrashSpec.
