(* ===== verification/BookMoveSpec.v ===== *)
(** * Moving a book between folders, creating and copying one

    A move renames the package; a new or copied book is staged below
    [app/tmp] and published by one rename to a path nothing has. Under every
    fault no file of the library is lost or overwritten. *)

From S2P Require Import Prelude Utf8 Strings Json Fs FsSpec Atomic ShelfUtil BookMeta Source Frame Relocate ScanCache FolderMeta Book BookSpec ShelfState Trash Folder ShelfBook ShelfFrame FolderSpec ShelfInv Lookup TrashSpec.

Module BookMoveSpec.
Import Atomic ShelfUtil BookMeta Book Shelf Folder ShelfBook ShelfFrame FolderSpec ShelfInv Lookup TrashSpec.

Section spec.
Context `{UnicodeCase, TimeText, Machine, Digest, ShelfEnv}.

(** The package at [p] went to [d], or nothing happened but the directories
    made for it. *)
Definition rename_of (p d : path) (t t' : tree) : Prop :=
  kept_files p t t' ∧
  (dirs_added (dirname d) t t' ∨
   ∃ t1, dirs_added (dirname d) t t1 ∧ fs_rename t1 p d = (Ok tt, t')).

Lemma dirs_added_some p t t' q n : dirs_added p t t' → t !! q = Some n → t' !! q = Some n.
Proof. intros Ha Hq. destruct (Ha q) as [->|[? _]]; [done|congruence]. Qed.

Definition book_moved (id : bytes) (fs : FolderPath) (s : Shelf) (r : result error Book) (s' : Shelf) : Prop :=
  stree s' = stree s ∧ is_ok r = false ∨
  ∃ b fs0, found Exclusive id s b fs0 ∧ ValidateFolderPath s fs = Ok tt ∧
    let dst := (booksFolder :: fs) ++ [base (folderPath b)] in
    rename_of (folderPath b) dst (stree s) (stree s') ∧
    ∀ mb, r = Ok mb → folderPath mb = dst ∧ stree s' !! dst = Some Dir.

(** moving a book to another folder loses and overwrites nothing.
    On a shelf that keeps its invariant, whatever fails and wherever, every
    file of the library is still there with its content, none lies where
    another went, and only files of the package found under the ID are
    elsewhere; a success means the package was renamed to the target folder
    under its own name and the book returned was opened there. *)
Theorem MoveBook_keeps_files id fs s :
  wf_tree (stree s) → shelf_ok s → wp (MoveBook id fs) (book_moved id fs s) s.
Proof.
  intros Hwf Hok. apply wp_bind, wp_validated; [by left|]. intros Hv.
  apply wp_bind, wp_writeRoot; [by left|]. intros _. apply wp_locked; [by left|].
  set (s0 := after_lock Exclusive s). assert (stree s0 = stree s) as Hs0 by done.
  apply wp_bind, wp_lookup; [done|exact Hok|]. intros r s1 Hs1 _ Hr Hb.
  destruct r as [[b fs0]|e]; [|left; split; [tree_eq|done]].
  assert (found Exclusive id s b fs0) as Hf by done.
  destruct (Hb _ _ eq_refl) as [[Hdir _] (name & Hp & Hsuf & Hname)]. cbv zeta.
  pose proof (ValidateFolderPath_ok _ _ Hv) as [Hv' _].
  assert (base (folderPath b) = name) as Hbase by (rewrite Hp; unfold base; by rewrite last_snoc).
  assert (pjoin (folderDir fs) (base (folderPath b)) = (booksFolder :: fs) ++ [base (folderPath b)]) as Hd.
  { destruct (HasSuffix_inv _ _ Hsuf) as [x ->]. rewrite Hbase, folderDir_valid by done.
    apply pjoin_segment, segment_package. intros Hx. apply Hname. rewrite elem_of_app. auto. }
  rewrite Hd. set (dst := (booksFolder :: fs) ++ [base (folderPath b)]) in *.
  assert (dirname dst = folderDir fs) as Hdd by (unfold dst; by rewrite folderDir_valid, dirname_snoc).
  apply wp_bind, wp_lift, wp_wf; [apply preserves_MkdirAll|tree_eq|].
  apply wp_MkdirAll. intros r t1 n Hadd _ _ Hwf1.
  assert (wtree (sworld s1) = stree s) as E1 by tree_eq. rewrite E1, <-Hdd in Hadd.
  assert (rename_of (folderPath b) dst (stree s) t1) as Hmade.
  { split; [by eapply kept_files_dirs|by left]. }
  assert (∀ e s', stree s' = t1 → book_moved id fs s (Err e) s') as HE.
  { intros e s' E. right. exists b, fs0. by rewrite E. }
  destruct r as [[]|e]; [|by apply HE].
  apply wp_bind, wp_update_cache, wp_bind, wp_lift, wp_wf; [apply preserves_Rename|done|].
  apply wp_Rename; [intros; by apply HE|]. simpl. intros r t2 k Hren Hrr Hwf2. simpl in *.
  assert (t1 !! folderPath b = Some Dir) as Hdir1.
  { eapply dirs_added_some; [done|exact Hdir]. }
  assert (rename_of (folderPath b) dst (stree s) t2) as Hmoved.
  { split; [|right; by exists t1]. eapply kept_files_trans; [by destruct Hmade|].
    by eapply kept_files_rename_dir. }
  assert (∀ (r : result error Book) s', stree s' = t2 →
    (∀ mb, r = Ok mb → folderPath mb = dst ∧ t2 !! dst = Some Dir) →
    book_moved id fs s r s') as HE2.
  { intros r' s' E Hmb. right. exists b, fs0. by rewrite E. }
  destruct Hrr as [-> | ->]; [|by apply HE2].
  name_state s2 Es2. assert (stree s2 = t2) as Ht2 by (by rewrite Es2). clear Es2.
  apply wp_bind, wp_bind, wp_gets. eapply (wp_finds t2); [by apply finds_OpenBook|done|].
  intros [mb|e] w Hw Hmb; [|by apply HE2].
  destruct (Hmb mb eq_refl) as [[Hin _] [Hpath _]].
  apply wp_bind, wp_shelf_reads; [apply keeps_updateEntry|tree_eq|]. intros [[]|e] s3 _ Hs3; apply HE2; [tree_eq| |tree_eq|done].
  intros ? [= <-]. split; [done|]. by rewrite <-Hpath.
Qed.

(** ** Publishing a staged package *)

(** Whatever is not below [app/tmp] stands. *)
Definition outside (t t' : tree) : Prop :=
  ∀ q n, ¬ under booksTmp q → t !! q = Some n → t' !! q = Some n.

Lemma outside_refl t : outside t t.
Proof. by intros q n. Qed.
Lemma outside_trans t1 t2 t3 : outside t1 t2 → outside t2 t3 → outside t1 t3.
Proof. intros H12 H23 q n Hq Hn. auto. Qed.
Lemma outside_touched (P D : path → Prop) t t' :
  touched P D t t' → (∀ q, P q → under booksTmp q) → outside t t'.
Proof. intros Ht HP q n Hq. eapply touched_some; [done|]. intros ?%HP. done. Qed.
Lemma outside_elsewhere o d t t' :
  wf_tree t → t !! d = None → under booksTmp o → elsewhere o d t t' → outside t t'.
Proof.
  intros Hwf Hd Ho He q n Hq Hn. rewrite He; [done| |].
  - intros Hu. apply Hq. by eapply under_trans.
  - intros [[|x k] ->]; [rewrite app_nil_r in Hn; congruence|].
    rewrite wf_no_child in Hn; [done|done|congruence|done].
Qed.

Lemma package_outside p fs : package_at p fs → ¬ under booksTmp p.
Proof. intros (name & -> & _) [k E]. done. Qed.

(** A new package of the folder [fs], and nothing lost. *)
Record published (fs : FolderPath) (t : tree) (r : result error Book) (t' : tree) : Prop := {
  pub_wf : wf_tree t';
  pub_outside : outside t t';
  pub_book b : r = Ok b → in_tree t' b ∧ package_at (folderPath b) fs ∧ t !! folderPath b = None;
}.

Lemma published_err fs t e t' : wf_tree t' → outside t t' → published fs t (Err e) t'.
Proof. by split. Qed.

Lemma published_after fs t0 t r t' : outside t0 t → published fs t r t' → published fs t0 r t'.
Proof.
  intros Ho [Hwf Hout Hb]. split; [done|by eapply outside_trans|].
  intros b Hr. destruct (Hb b Hr) as (? & Hp & Hn). split; [done|]. split; [done|].
  destruct (t0 !! folderPath b) eqn:E; [|done]. apply Ho in E; [congruence|by eapply package_outside].
Qed.

(** Cleaning up below [app/tmp]. *)
Lemma published_cleanup fs t r t1 t2 :
  published fs t r t1 → wf_tree t2 → outside t1 t2 → published fs t r t2.
Proof.
  intros [_ Hout Hb] Hwf Ho. split; [done|by eapply outside_trans|].
  intros b Hr. destruct (Hb b Hr) as ([Hd [n Hm]] & Hp & Hn). split; [|done].
  pose proof (package_outside _ _ Hp) as Hu. split; [by apply Ho|].
  exists n. apply Ho; [|done]. intros [k E]. destruct Hp as (name & Hp & _). rewrite Hp in E. done.
Qed.

Lemma wp_free_name fuel p title x i (Q : result error bytes → world → Prop) w :
  slug_plain → wf_tree (wtree w) → "/"%char ∉ x →
  (∀ e n, Q (Err e) (mkWorld (wtree w) n)) →
  (∀ x n, "/"%char ∉ x → wtree w !! pjoin p (x ++ bookExtension) = None →
    Q (Ok (x ++ bookExtension)) (mkWorld (wtree w) n)) →
  wp (free_name_loop fuel p title (x ++ bookExtension) i) Q w.
Proof.
  intros Hslug Hwf Hx HE HO. revert x Hx i w Hwf HE HO.
  induction fuel as [|fuel IH]; intros x Hx i w Hwf HE HO; simpl.
  { destruct w. apply HE. }
  apply wp_bind, wp_try, wp_Stat_missing; [done|]. intros [n|e] k Hm _.
  - apply IH; [apply Hslug|done|intros; by apply HE|intros; by apply HO].
  - destruct (errors_Is e ENotExist) eqn:He; [|apply HE].
    apply errors_Is_ENotExist in He as ->. apply wp_ret, HO; [done|]. by apply Hm.
Qed.

Ltac none := intros; split; [by apply published_err|done].
Lemma wp_publish_staged bp fs title s :
  slug_plain → validateFolderPath fs = Ok tt → wf_tree (stree s) → under booksTmp bp →
  wp (publish_staged bp fs title) (λ r s', published fs (stree s) r (stree s') ∧
    ∀ b, r = Ok b → ∀ k n, stree s !! (bp ++ k) = Some n → stree s' !! (folderPath b ++ k) = Some n) s.
Proof.
  intros Hslug Hv Hwf Hbp. unfold publish_staged. cbv zeta.
  apply wp_bind, wp_lift, wp_wf; [apply preserves_MkdirAll|done|].
  apply wp_MkdirAll. intros r t1 n Hadd _ _ Hwf1. simpl in Hwf1.
  assert (outside (stree s) t1) as Ho1 by (intros q x _ Hq; by eapply dirs_added_some).
  destruct r as [[]|e]; [|none].
  apply wp_bind, wp_update_cache, wp_bind, wp_lift, wp_bind, wp_gets.
  apply wp_free_name; [done|done|apply Hslug|none|]. simpl.
  intros x k Hx Hfree. apply wp_bind, wp_lift, wp_Rename_free; [done|done|none|].
  simpl. intros r j Hb Hod Hdo Hwf2 Hr. set (d := pjoin (folderDir fs) (x ++ bookExtension)) in *.
  assert (outside (stree s) (move t1 bp d)) as Ho2.
  { eapply outside_trans; [done|]. eapply outside_elsewhere; [done..|apply elsewhere_move]. }
  destruct Hr as [-> | ->]; [|none].
  name_state s2 Es2. assert (stree s2 = move t1 bp d) as Ht2 by (by rewrite Es2). clear Es2.
  apply wp_bind, wp_bind, wp_gets. eapply (wp_finds (move t1 bp d)); [by apply finds_OpenBook|done|].
  intros [b|e] w Hw Hbk; [|split; [apply published_err; unfold stree; simpl; by rewrite Hw|done]].
  destruct (Hbk b eq_refl) as [Hin [Hpath _]].
  apply wp_bind, wp_shelf_reads; [apply keeps_updateEntry|unfold stree; simpl; by rewrite Hw|].
  intros [[]|e] s3 _ Hs3; assert (stree s3 = move t1 bp d) as Ht3 by tree_eq; [|split; [apply published_err; by rewrite Ht3|done]].
  apply wp_ret. split.
  2: { intros ? [= <-] j' m Hm. rewrite Ht3, Hpath. rewrite (carried_move (λ _, False)) by (by intros []).
       by eapply dirs_added_some. }
  split; rewrite ?Ht3; [done|done|]. intros ? [= <-].
  split; [done|]. split; [rewrite Hpath; by apply package_pjoin|].
  rewrite Hpath. destruct (stree s !! d) eqn:E; [|done].
  by rewrite (dirs_added_some _ _ _ _ _ Hadd E) in Hfree.
Qed.

(** ** Staging *)

(** A step that works below [app/tmp]. *)
Lemma wp_staging {A : Type} (m : M Shelf A) (Q : result error A → Shelf → Prop) s :
  keeps (under booksTmp) (λ _, True) m → wf_tree (stree s) →
  (∀ r s', wf_tree (stree s') → outside (stree s) (stree s') → (m s).1 = r → Q r s') → wp m Q s.
Proof.
  intros Hm Hwf HQ. destruct (Hm s Hwf) as [Hwf' Ht]. apply HQ; [done| |done].
  by eapply outside_touched.
Qed.

Lemma keeps_createTempDir D n prefix : keeps (under booksTmp) D (createTempDir n prefix).
Proof.
  induction n as [|n IH]; cbn [createTempDir]; [frame|].
  frame_step; [apply keeps_now|]. frame_step; [apply keeps_RandomString|].
  frame_step; [apply keeps_try, keeps_Mkdir; eexists; reflexivity|]. destruct a1; [frame|apply IH].
Qed.

Lemma returns_createTempDir n prefix : returns (under booksTmp) (createTempDir n prefix).
Proof.
  induction n as [|n IH]; cbn [createTempDir]; [apply returns_throw|].
  do 2 (eapply returns_bind; [apply returns_any|]; intros ? _).
  eapply returns_bind; [apply returns_any|]. intros [[]|e] _; [|done].
  apply returns_ret. by eexists.
Qed.

(** The staged package is made, used and cleaned up. *)
Lemma wp_staged fs (m : path → M Shelf Book) s :
  wf_tree (stree s) →
  (∀ bp s1, under booksTmp bp → wf_tree (stree s1) →
    wp (m bp) (λ r s', published fs (stree s1) r (stree s')) s1) →
  wp (bp ← lift createBookDir; deferred (m bp) (lift (RemoveAll bp)))
    (λ r s', published fs (stree s) r (stree s')) s.
Proof.
  intros Hwf Hm. apply wp_bind, wp_staging; [apply keeps_lift, keeps_createTempDir|done|].
  intros [bp|e] s1 Hwf1 Ho Hr; [|by apply published_err].
  assert (under booksTmp bp) as Hbp.
  { apply (returns_createTempDir MaxTempDirCreationAttempts (str "book") (sworld s)).
    unfold lift in Hr. fold createBookDir. by destruct (createBookDir (sworld s)). }
  apply wp_deferred. eapply wp_mono; [by apply Hm|]. intros r s2 Hp.
  apply wp_staging; [|by destruct Hp|].
  { apply keeps_lift, keeps_RemoveAll. intros q Hq. by eapply under_trans. }
  intros r' s3 Hwf3 Ho3 _. eapply published_after; [done|].
  by eapply published_cleanup; [exact Hp|..].
Qed.

(** [init] works inside the package it is given, which has no cover yet. *)
Definition init_inside (init : option (Book → M world Book)) : Prop :=
  ∀ f b, init = Some f → Cover (meta b) = [] → keeps (under (folderPath b)) (λ _, True) (f b).

Lemma keeps_below {A : Type} bp (m : M world A) :
  under booksTmp bp → keeps (under bp) (λ _, True) m → keeps (under booksTmp) (λ _, True) (lift m).
Proof.
  intros Hbp Hm. apply keeps_lift. eapply keeps_mono; [|done|exact Hm].
  intros q Hq. by eapply under_trans.
Qed.

Lemma keeps_draw P D n : keeps P D (draw_loop n).
Proof.
  induction n as [|n IH]; simpl; [frame|].
  frame_step; [unfold newBookID; frame; apply keeps_lift, keeps_now|].
  frame_step; [apply keeps_try, keeps_getUpdated|]. destruct a0; [apply IH|].
  destruct (errors_Is _ _); [|frame]. frame_step; [apply keeps_lift; unfold Trash.isBookIDInTrash; frame|].
  destruct a0; [apply IH|frame].
Qed.

Lemma keeps_Create bp id title : keeps (under bp) (λ _, True) (Create bp id title).
Proof.
  unfold Create, stat_written, FileStat.getFileStat. destruct (BookSpec.BookSpec.meta_path_ok bp).
  frame; [by apply keeps_MkdirAll|]. apply keeps_WriteFileAtomic; [done..| |].
  - by exists [BookMetaFile].
  - intros q Hq. by apply temp_of_under in Hq as [? _].
Qed.

Lemma returns_Create bp id title : returns (λ b, folderPath b = bp ∧ Cover (meta b) = []) (Create bp id title).
Proof.
  unfold Create. do 4 (eapply returns_bind; [apply returns_any|]; intros ? _). by apply returns_ret.
Qed.

Lemma wp_NewBookWith fs title init s :
  slug_plain → init_inside init → wf_tree (stree s) →
  wp (NewBookWith fs title init) (λ r s', published fs (stree s) r (stree s')) s.
Proof.
  intros Hslug Hinit Hwf. assert (∀ e s', stree s' = stree s → published fs (stree s) (Err e) (stree s')) as HE.
  { intros e s' ->. by apply published_err; [|apply outside_refl]. }
  apply wp_bind, wp_validated; [intros; by apply HE|]. intros [Hv _]%ValidateFolderPath_ok.
  apply wp_bind, wp_writeRoot; [intros; by apply HE|]. intros _. apply wp_locked; [intros; by apply HE|].
  apply (wp_staged fs _ (after_lock Exclusive s)); [done|]. intros bp s1 Hbp Hwf1.
  apply wp_bind, wp_staging; [apply keeps_draw|done|]. intros [id|e] s2 Hwf2 Ho2 _; [|by apply published_err].
  apply wp_bind, wp_staging; [by apply (keeps_below bp), keeps_Create|done|].
  intros [b|e] s3 Hwf3 Ho3 Hb; [|apply published_err; [done|by eapply outside_trans]].
  assert (folderPath b = bp ∧ Cover (meta b) = []) as [Hbb Hcov].
  { apply (returns_Create bp id title (sworld s2)). unfold lift in Hb.
    by destruct (Create bp id title (sworld s2)). }
  apply wp_bind, wp_staging; [|done|].
  { destruct init as [f|]; [|frame]. apply keeps_bind; [|frame].
    apply (keeps_below bp); [done|]. rewrite <-Hbb. by apply Hinit. }
  intros [[]|e] s4 Hwf4 Ho4 _; [|apply published_err; [done|eauto using outside_trans]].
  eapply wp_mono; [by apply wp_publish_staged|]. intros r s5 [Hp _].
  eapply published_after; [|exact Hp]. eauto using outside_trans.
Qed.

(** creating a book loses and overwrites nothing. Whatever fails and
    wherever, everything outside [app/tmp] is still there as it was; a success
    returns a book of the target folder whose package was published, with its
    [book.json], at a path that was free. *)
Theorem NewBookWith_adds_a_book fs title init s :
  slug_plain → init_inside init → wf_tree (stree s) →
  wp (NewBookWith fs title init) (λ r s', published fs (stree s) r (stree s')) s.
Proof. apply wp_NewBookWith. Qed.

(** ** Copying *)

(** [rd] reads a tree, the shelf's or another's, and changes nothing. *)
Definition reader (rd : ∀ A, M world A → M Shelf A) : Prop :=
  ∀ A (m : M world A), (∀ P D, keeps P D m) → ∀ P D, keeps P D (rd A m).

Lemma reader_own : reader own_read.
Proof. intros A m Hm P D. apply keeps_lift, Hm. Qed.
Lemma reader_cross src : reader (cross_read src).
Proof.
  intros A m Hm P D s Hs. unfold cross_read. destruct (m _) as [r w]. split; [done|]. apply touched_refl.
Qed.

(** Below [dst], or on the way to it. *)
Definition near (dst q : path) : Prop := under dst q ∨ under q dst.

Lemma near_child dst x q : near (dst ++ [x]) q → near dst q.
Proof.
  intros [Hu|Hu]; [left; by eapply under_trans; [apply under_app|]|].
  apply under_snoc in Hu as [?| ->]; [by right|left; apply under_app].
Qed.

Lemma keeps_copy_tree rd fuel src dst :
  reader rd → keeps (under dst) (near dst) (copy_tree rd fuel src dst).
Proof.
  intros Hrd. revert src dst. induction fuel as [|fuel IH]; intros src dst; simpl; [frame|].
  apply keeps_bind; [apply Hrd; intros; apply keeps_Stat|]. intros info. destruct (negb (is_dir info)).
  - apply keeps_bind; [apply Hrd; intros; apply keeps_Open|]. intros c.
    by apply keeps_lift, keeps_WriteFile.
  - apply keeps_bind; [apply keeps_lift, keeps_MkdirAll; by right|]. intros _.
    apply keeps_bind; [apply Hrd; intros; apply keeps_ReadDir|]. intros es.
    assert (keeps (under dst) (near dst) (mret tt : M Shelf unit)) as Hm by frame. revert Hm.
    generalize (mret tt : M Shelf unit). induction es as [|e es IHes]; intros m Hm; simpl; [done|].
    apply IHes. apply keeps_bind; [done|]. intros _. eapply keeps_mono; [| |apply IH].
    + intros q Hq. by eapply under_trans; [apply under_app|].
    + intros q. apply near_child.
Qed.

Lemma returns_openBook p : returns (λ b, folderPath b = p) (openBook p).
Proof.
  intros s b Hb. unfold openBook, mbind, M_bind, gets, lift in Hb. simpl in Hb.
  destruct (OpenBook (negb (readOnly s)) p (sworld s)) as [[b'|e] w] eqn:E; [|done].
  simpl in Hb. injection Hb as <-. eapply returns_OpenBook. by rewrite E.
Qed.

Lemma keeps_SetMeta_below b m : keeps (under (folderPath b)) (λ _, True) (SetMeta b m).
Proof.
  unfold SetMeta. apply keeps_bind; [frame|]. intros _.
  eapply keeps_mono; [|done|apply BookSpec.BookSpec.keeps_setMeta].
  intros q (n & -> & _). by eexists.
Qed.

Lemma wp_publishBookCopy rd fuel b fs keep s :
  slug_plain → reader rd → validateFolderPath fs = Ok tt → wf_tree (stree s) →
  wp (publishBookCopy rd fuel b fs keep) (λ r s', published fs (stree s) r (stree s')) s.
Proof.
  intros Hslug Hrd Hv Hwf. apply wp_bind, wp_writeRoot; [intros; by apply published_err; [|apply outside_refl]|].
  intros _. apply wp_staged; [done|]. intros bp s1 Hbp Hwf1.
  apply wp_bind, wp_staging; [|done|].
  { eapply keeps_mono; [|done|by apply keeps_copy_tree]. intros q Hq. by eapply under_trans. }
  intros [[]|e] s2 Hwf2 Ho2 _; [|by apply published_err].
  apply wp_bind, wp_staging; [apply keeps_openBook|done|].
  intros [sb|e] s3 Hwf3 Ho3 Hsb; [|apply published_err; [done|by eapply outside_trans]].
  apply returns_openBook in Hsb. apply wp_bind, wp_staging; [|done|].
  { destruct keep; [frame|]. apply keeps_bind; [apply keeps_draw|]. intros id.
    apply (keeps_below bp); [done|]. rewrite <-Hsb. apply keeps_SetMeta_below. }
  intros [st|e] s4 Hwf4 Ho4 _; [|apply published_err; [done|eauto using outside_trans]].
  eapply wp_mono; [by apply wp_publish_staged|]. intros r s5 [Hp _].
  eapply published_after; [|exact Hp]. eauto using outside_trans.
Qed.

(** copying a book within a shelf loses and overwrites nothing.
    Whatever fails and wherever, everything outside [app/tmp] is still there
    as it was, the original included; a success returns a book of the target
    folder whose package was published, with its [book.json], at a path that
    was free. *)
Theorem CopyBook_adds_a_book id fs s :
  slug_plain → wf_tree (stree s) →
  wp (CopyBook id fs) (λ r s', published fs (stree s) r (stree s')) s.
Proof.
  intros Hslug Hwf. assert (∀ e s', stree s' = stree s → published fs (stree s) (Err e) (stree s')) as HE.
  { intros e s' ->. by apply published_err; [|apply outside_refl]. }
  apply wp_bind, wp_validated; [intros; by apply HE|]. intros [Hv _]%ValidateFolderPath_ok.
  apply wp_bind, wp_writeRoot; [intros; by apply HE|]. intros _. apply wp_locked; [intros; by apply HE|].
  apply wp_bind, wp_shelf_reads; [apply keeps_getUpdated|done|].
  change (stree (after_lock _ _)) with (stree s). intros [[b fs0]|e] s1 _ Hs1; [|by apply HE].
  apply wp_bind, wp_guard; intros _; [by apply HE|]. apply wp_bind, wp_gets.
  rewrite <-Hs1.
  apply wp_publishBookCopy; [done|apply reader_own|done|by rewrite Hs1].
Qed.
End spec.
End BookMoveSpec.
