(* ===== verification/CopySpec.v ===== *)
(** * What a copy holds

    A copy that succeeds holds every file of the original with its content,
    whichever tree it was read from. *)

From S2P Require Import Prelude Utf8 Strings Json Fs FsSpec Atomic ShelfUtil BookMeta Source Frame Relocate ScanCache FolderMeta Book BookSpec ShelfState Trash Folder ShelfBook ShelfFrame FolderSpec ShelfInv Lookup TrashSpec BookMoveSpec.

Module CopySpec.
Import Atomic ShelfUtil BookMeta Book Shelf Folder ShelfBook ShelfFrame FolderSpec ShelfInv Lookup TrashSpec BookMoveSpec.

(** A relative path a listing can show. *)
Definition plain_path (k : path) : Prop := Forall (λ x, "/"%char ∉ x) k.

(** Every file below [p] in [t] is below [p'] in [t'] with its content. *)
Definition copied (p p' : path) (t t' : tree) : Prop := ∀ k c z,
  plain_path k → t !! (p ++ k) = Some (File c z) → ∃ z', t' !! (p' ++ k) = Some (File c z').

(** A sequence of steps, one per element. *)
Lemma wp_foldl_seq {S C : Type} (I : list C → S → Prop) (f : C → M S unit) (l : list C) s :
  I [] s →
  (∀ before c s, I before s → wp (f c) (λ r s', r = Ok tt → I (before ++ [c]) s') s) →
  wp (foldl (λ m c, m;; f c) (mret tt) l) (λ r s', r = Ok tt → I l s') s.
Proof.
  intros H0 Hf. assert (∀ l before m, wp m (λ r s', r = Ok tt → I before s') s →
    wp (foldl (λ m c, m;; f c) m l) (λ r s', r = Ok tt → I (before ++ l) s') s) as Hgo.
  { clear l. induction l as [|c l IH]; intros before m Hm; simpl; [by rewrite app_nil_r|].
    rewrite (cons_middle c before l), app_assoc. apply IH.
    apply wp_bind. eapply wp_mono; [exact Hm|]. intros [[]|e] s' HI; [|done]. by apply Hf, HI. }
  apply (Hgo l [] (mret tt)). by apply wp_ret.
Qed.

Section copy.
Context `{UnicodeCase, TimeText, Machine, Digest, ShelfEnv}.
Context (rd : ∀ A, M world A → M Shelf A) (rdt : Shelf → tree) (p0 d0 : path).

(** [rd] runs a reading step on the tree [rdt]; what is below [p0] there does
    not change while only places near [d0] do. *)
Record reads_from : Prop := {
  rf_run A (m : M world A) Q s : (∀ P D, keeps P D m) → wf_tree (rdt s) →
    (∀ n, wp m (λ r _, ∀ s', stree s' = stree s → rdt s' = rdt s → Q r s') (mkWorld (rdt s) n)) →
    wp (rd A m) Q s;
  rf_stable s s' q : touched (under d0) (near d0) (stree s) (stree s') → under p0 q →
    rdt s' !! q = rdt s !! q;
  rf_wf s s' : wf_tree (stree s') → wf_tree (rdt s) → wf_tree (rdt s');
}.
Context (Hrd : reader rd) (Hrf : reads_from).

Lemma wp_rd_Stat p (Q : result error node → Shelf → Prop) s :
  wf_tree (rdt s) → (∀ e s', stree s' = stree s → rdt s' = rdt s → Q (Err e) s') →
  (∀ n s', rdt s !! p = Some n → stree s' = stree s → rdt s' = rdt s → Q (Ok n) s') →
  wp (rd _ (Stat p)) Q s.
Proof.
  intros Hwf HE HO. apply (rf_run Hrf); [intros; apply keeps_Stat|done|]. intros n.
  apply wp_Stat. intros [x|e] k Hr s' Hs Ht; [|by apply HE]. apply HO; [|done..].
  destruct Hr as [Hr|]; [|done]. symmetry in Hr. by apply find_node_ok in Hr as [? _].
Qed.

Lemma wp_rd_Open p (Q : result error content → Shelf → Prop) s :
  wf_tree (rdt s) → (∀ e s', stree s' = stree s → rdt s' = rdt s → Q (Err e) s') →
  (∀ c z s', rdt s !! p = Some (File c z) → stree s' = stree s → rdt s' = rdt s → Q (Ok c) s') →
  wp (rd _ (Open p)) Q s.
Proof.
  intros Hwf HE HO. apply (rf_run Hrf); [intros; apply keeps_Open|done|]. intros n.
  apply wp_Open. intros [c|e] k Hr _ s' Hs Ht; [|by apply HE].
  destruct (Hr c eq_refl) as [z Hz]. by eapply HO.
Qed.

Lemma wp_rd_ReadDir p (Q : result error (list (bytes * node)) → Shelf → Prop) s :
  wf_tree (rdt s) → (∀ e s', stree s' = stree s → rdt s' = rdt s → Q (Err e) s') →
  (∀ s', stree s' = stree s → rdt s' = rdt s → Q (Ok (entries (rdt s) p)) s') →
  wp (rd _ (ReadDir p)) Q s.
Proof.
  intros Hwf HE HO. apply (rf_run Hrf); [intros; apply keeps_ReadDir|done|]. intros n.
  apply ScanCache.wp_ReadDir. intros [es|e] k Hr s' Hs Ht; [|by apply HE].
  destruct (Hr es eq_refl) as [_ ->]. by apply HO.
Qed.

(** The original, as it was at first, is still what is read. *)
Definition same_below (t0 : tree) (s : Shelf) : Prop :=
  wf_tree (stree s) ∧ wf_tree (rdt s) ∧ ∀ q, under p0 q → rdt s !! q = t0 !! q.

Lemma same_below_step t0 s s' :
  same_below t0 s → wf_tree (stree s') → touched (under d0) (near d0) (stree s) (stree s') →
  same_below t0 s'.
Proof.
  intros (Hwf & Hwr & Hs) Hwf' Ht. split; [done|]. split; [by eapply (rf_wf Hrf)|].
  intros q Hq. rewrite (rf_stable Hrf s) by done. by apply Hs.
Qed.
Lemma same_below_read t0 s s' :
  same_below t0 s → stree s' = stree s → rdt s' = rdt s → same_below t0 s'.
Proof. unfold same_below. by intros ? -> ->. Qed.

Lemma near_trans d d' q : under d d' → near d' q → near d q.
Proof.
  intros Hd [Hu|Hu]; [left; by eapply under_trans|].
  destruct Hd as [k ->], Hu as [l E]. apply app_eq_inv in E as [(m & -> & ->)|(m & -> & ->)].
  - right. by eexists.
  - left. apply under_app.
Qed.

(** A step below [dst] leaves what a sibling holds. *)
Lemma copied_kept {dst : path} {t t' : tree} {k : path} {c : content} {x} {D : path → Prop} :
  touched (under (dst ++ [x])) D t t' → head k ≠ Some x →
  (∃ z, t !! (dst ++ k) = Some (File c z)) → ∃ z, t' !! (dst ++ k) = Some (File c z).
Proof.
  intros Ht Hx [z Hz]. exists z. eapply touched_some; [done| |done].
  intros [l E]. rewrite <-app_assoc in E. apply app_inv_head in E. destruct k; by simplify_eq/=.
Qed.

Lemma wp_copy_tree t0 fuel src dst s :
  same_below t0 s → under p0 src → under d0 dst →
  wp (copy_tree rd fuel src dst) (λ r s', r = Ok tt → copied src dst t0 (stree s')) s.
Proof.
  revert src dst s. induction fuel as [|fuel IH]; intros src dst s Hs Hsrc Hdst; simpl; [done|].
  pose proof Hs as (Hwf & Hwr & Hsame).
  apply wp_bind, wp_rd_Stat; [done|done|]. intros info s1 Hinfo Es1 Er1.
  assert (same_below t0 s1) as Hs1 by by eapply same_below_read.
  destruct info as [|c z]; simpl.
  - apply wp_bind. eapply wp_mono; [apply (keeps_wp (under dst) (near dst)); [|apply Hs1]|].
    { apply keeps_lift, keeps_MkdirAll. by right. }
    intros [[]|e] s2 [Hwf2 Ht2]; [|done].
    assert (same_below t0 s2) as Hs2.
    { eapply same_below_step; [done..|]. eapply touched_mono; [| |exact Ht2].
      - intros q Hq. by eapply under_trans.
      - intros q. by apply near_trans. }
    apply wp_bind, wp_rd_ReadDir; [apply Hs2|done|]. intros s3 Es3 Er3.
    assert (same_below t0 s3) as Hs3 by by eapply same_below_read.
    eapply wp_mono; [apply (wp_foldl_seq (λ l s, same_below t0 s ∧ ∀ k c z, plain_path k →
      (∃ x, head k = Some x ∧ x ∈ l.*1) → t0 !! (src ++ k) = Some (File c z) →
      ∃ z', stree s !! (dst ++ k) = Some (File c z')))|].
    + split; [done|]. intros k c z _ (x & _ & Hx). by apply elem_of_nil in Hx.
    + intros l e s4 [Hs4 Hl].
      assert (under p0 (src ++ [e.1]) ∧ under d0 (dst ++ [e.1])) as [Hu1 Hu2]
        by (split; by eapply under_trans; [|apply under_app]).
      eapply wp_mono; [apply wp_conj; [apply keeps_wp; [by apply keeps_copy_tree|apply Hs4]|by apply IH]|].
      intros r s5 [[Hwf5 Ht5] Hc5] Hr. specialize (Hc5 Hr). split.
      { eapply same_below_step; [done..|]. eapply touched_mono; [| |exact Ht5].
        - intros q Hq. by eapply under_trans.
        - intros q. by apply near_trans. }
      intros k c z Hk (x & Hx & Hin) Hf. destruct (decide (x = e.1)) as [->|Hne].
      * destruct k as [|y k]; [done|]. injection Hx as ->. inversion Hk; subst.
        specialize (Hc5 k c z). rewrite <-!app_assoc in Hc5. by apply Hc5.
      * apply (copied_kept Ht5); [congruence|]. eapply Hl; [done| |done].
        exists x. split; [done|]. rewrite fmap_app, elem_of_app in Hin.
        destruct Hin as [|Hin%list_elem_of_singleton]; done.
    + intros r s5 Hr Ht k c z Hk Hf. destruct (Hr Ht) as [_ Hall].
      destruct k as [|x k].
      { rewrite app_nil_r in Hf. rewrite <-Hsame in Hf by done. congruence. }
      eapply Hall; [done| |done]. exists x. split; [done|]. inversion Hk; subst.
      destruct Hs2 as (_ & Hwr2 & Hsame2). rewrite <-Hsame2 in Hf by by eapply under_trans; [|apply under_app].
      assert (∃ n, rdt s2 !! (src ++ [x]) = Some n) as [n Hn].
      { destruct k as [|y k]; [by eexists|]. exists Dir. apply (wf_ancestor _ _ (y :: k) Hwr2); [|done].
        rewrite <-app_assoc. by eexists. }
      apply list_elem_of_fmap. exists (x, n). split; [done|]. by apply elem_of_entries.
  - apply wp_bind, wp_rd_Open; [apply Hs1|done|]. intros c' z' s2 Hc Es2 Er2.
    rewrite Er1, Hinfo in Hc. injection Hc as <- <-.
    apply wp_lift, wp_WriteFile; [done|]. intros r c' z' n _ _ _ Hr Ht k c0 z0 Hk Hf.
    destruct k as [|x k].
    + rewrite app_nil_r in *. rewrite <-Hsame, Hinfo in Hf by done. injection Hf as <- <-.
      destruct Hr as [[_ ->]|Hr]; [|congruence]. exists z'. apply lookup_insert_eq.
    + rewrite <-Hsame in Hf by by eapply under_trans; [|apply under_app].
      rewrite (wf_no_child _ src) in Hf; [done|done|congruence|done].
Qed.

Lemma wp_keeps_returns {A : Type} P D (R : A → Prop) (m : M Shelf A) (Q : result error A → Shelf → Prop) s :
  keeps P D m → returns R m → wf_tree (stree s) →
  (∀ r s', wf_tree (stree s') → touched P D (stree s) (stree s') → (∀ a, r = Ok a → R a) → Q r s') →
  wp m Q s.
Proof. intros Hm HR Hwf HQ. destruct (Hm s Hwf) as [Hwf' Ht]. apply HQ; [done|done|apply HR]. Qed.

Lemma returns_lift {A : Type} (R : A → Prop) (m : M world A) : returns R m → returns R (lift m).
Proof.
  intros HR s a. unfold lift. specialize (HR (sworld s) a). destruct (m (sworld s)); simpl in *. done.
Qed.

(** What a copy may differ in: [book.json], and temporary files. *)
Definition content_kept (k : path) : Prop :=
  k ≠ [BookMetaFile] ∧ ¬ ∃ n, k = [n] ∧ isTempFileName n = true.

Lemma keeps_SetMeta_meta b m :
  keeps (λ q, q = meta_path (folderPath b) ∨ temp_of (meta_path (folderPath b)) q) (λ _, False) (SetMeta b m).
Proof.
  unfold SetMeta, setMeta, EnsureWritable, Book.writeRoot, stat_written, FileStat.getFileStat.
  destruct (BookSpec.BookSpec.meta_path_ok (folderPath b)). frame.
  apply keeps_WriteFileAtomic; [done..|by left|by right].
Qed.

Lemma content_not_meta p k : content_kept k →
  ¬ (p ++ k = meta_path p ∨ temp_of (meta_path p) (p ++ k)).
Proof.
  intros [Hm Ht] [E|(n & E & Hn)].
  - unfold meta_path in E. by apply app_inv_head in E.
  - unfold meta_path in E. rewrite dirname_snoc in E. apply app_inv_head in E. eauto.
Qed.

(** The files of the original that a published copy has. *)
Definition copy_holds (keep : bool) (t0 t' : tree) (p' : path) : Prop := ∀ k c z,
  plain_path k → (keep = false → content_kept k) → t0 !! (p0 ++ k) = Some (File c z) →
  ∃ z', t' !! (p' ++ k) = Some (File c z').

(** The staged copy, up to its new ID. *)
Definition staged_as (keep : bool) (sb : Book) : M Shelf Book :=
  if keep then mret sb
  else newID ← drawUnusedBookID; lift (SetMeta sb (set_ID newID (meta sb))).

Lemma wp_staged_as keep sb bp s (Q : result error Book → Shelf → Prop) :
  folderPath sb = bp → wf_tree (stree s) →
  (∀ r s', wf_tree (stree s') → (∀ k, (keep = false → content_kept k) →
    stree s' !! (bp ++ k) = stree s !! (bp ++ k)) → Q r s') →
  wp (staged_as keep sb) Q s.
Proof.
  intros <- Hwf HQ. unfold staged_as. destruct keep; [by apply wp_ret, HQ|].
  apply wp_bind, wp_shelf_reads; [apply keeps_draw|done|]. intros [id|e] s1 _ Hs1.
  2: { apply HQ; [by rewrite Hs1|]. by rewrite Hs1. }
  eapply (wp_keeps_returns _ _ (λ _, True)); [apply keeps_lift, keeps_SetMeta_meta|by intros ?|by rewrite Hs1|].
  intros r s2 Hwf2 Ht _. apply HQ; [done|]. intros k Hk. rewrite <-Hs1.
  eapply touched_same; [done|by apply content_not_meta, Hk|by intros []].
Qed.

Definition copied_so_far (keep : bool) (fs : FolderPath) (t0 : tree) (r : result error Book) (s : Shelf) : Prop :=
  wf_tree (stree s) ∧ ∀ b, r = Ok b → package_at (folderPath b) fs ∧
    copy_holds keep t0 (stree s) (folderPath b).

Lemma wp_copy_and_publish t0 fuel bp fs keep s :
  slug_plain → validateFolderPath fs = Ok tt → d0 = booksTmp → under booksTmp bp → same_below t0 s →
  wp (copy_tree rd fuel p0 bp;;
      stagedBook ← openBook bp;
      staged ← staged_as keep stagedBook;
      publish_staged bp fs (Title (meta staged))) (copied_so_far keep fs t0) s.
Proof.
  intros Hslug Hv Hd Hbp Hs. apply wp_bind.
  eapply wp_mono; [apply wp_conj; [apply keeps_wp; [by apply keeps_copy_tree|apply Hs]|]|].
  { apply wp_copy_tree; [done|done|by rewrite Hd]. }
  intros [[]|e] s1 [[Hwf1 _] Hc]; [|done]. specialize (Hc eq_refl).
  apply wp_bind, wp_shelf_reads; [apply keeps_openBook|done|]. intros [sb|e] s2 Hsb Hs2;
    [|split; [by rewrite Hs2|done]].
  apply returns_openBook in Hsb. apply wp_bind, (wp_staged_as keep sb bp); [done|by rewrite Hs2|].
  intros [st|e] s3 Hwf3 Hk; [|done].
  eapply wp_mono; [by apply wp_publish_staged|]. intros r s4 [[Hwf4 _ Hb] Hcar]. split; [done|].
  intros b Hr. destruct (Hb b Hr) as (_ & Hat & _). split; [done|].
  intros k c z Hpk Hck Hf. destruct (Hc k c z Hpk Hf) as [z' Hz]. exists z'.
  apply (Hcar b Hr). by rewrite Hk, Hs2.
Qed.

Lemma wp_publishBookCopy_copies t0 fuel b fs keep s :
  slug_plain → validateFolderPath fs = Ok tt → d0 = booksTmp → folderPath b = p0 →
  same_below t0 s →
  wp (publishBookCopy rd fuel b fs keep) (λ r s', ∀ b', r = Ok b' →
    copy_holds keep t0 (stree s') (folderPath b')) s.
Proof.
  intros Hslug Hv Hd Hp Hs. apply wp_bind, wp_writeRoot; [done|]. intros _.
  apply wp_bind, (wp_keeps_returns (under booksTmp) (λ _, False) (under booksTmp));
    [apply keeps_lift, keeps_createTempDir|apply returns_lift, returns_createTempDir|apply Hs|].
  intros [bp|e] s1 Hwf1 Ht1 Hbp; [|done]. specialize (Hbp bp eq_refl).
  assert (same_below t0 s1) as Hs1.
  { eapply same_below_step; [done..|]. rewrite Hd. by eapply touched_mono; [..|exact Ht1]. }
  apply wp_deferred. rewrite Hp. eapply wp_mono; [by apply wp_copy_and_publish|].
  intros r s2 [Hwf2 Hb]. apply wp_staging; [|done|].
  { apply keeps_lift, keeps_RemoveAll. intros q Hq. by eapply under_trans. }
  intros r' s3 _ Ho _ b' Hr k c z Hpk Hck Hf. destruct (Hb b' Hr) as [(name & Hat & _) Hh].
  destruct (Hh k c z Hpk Hck Hf) as [z' Hz]. exists z'. apply Ho; [|done].
  rewrite Hat. by intros [l E].
Qed.
End copy.

Section claims.
Context `{UnicodeCase, TimeText, Machine, Digest, ShelfEnv}.

Lemma package_not_near p fs q : package_at p fs → under p q → ¬ under booksTmp q ∧ ¬ near booksTmp q.
Proof.
  intros (name & -> & _) [k ->]. assert (∀ l, booksFolder :: l ≠ booksTmp) as Hne by done.
  split; [by intros [l E]|]. intros [[l E]|[l E]]; done.
Qed.

Lemma reads_from_own p0 fs : package_at p0 fs → reads_from own_read stree p0 booksTmp.
Proof.
  intros Hp. split.
  - intros A m Q s Hm Hwf HQ. apply wp_lift. specialize (HQ (tick (sworld s))).
    destruct (Hm (λ _, False) (λ _, False) (sworld s) Hwf) as [_ Ht%touched_none_eq].
    unfold wp in *. unfold stree in HQ. destruct (sworld s) as [t n]. simpl in *. by apply HQ.
  - intros s s' q Ht Hq. destruct (package_not_near _ _ _ Hp Hq). by eapply touched_same.
  - done.
Qed.

Lemma reads_from_cross src p0 : reads_from (cross_read src) (λ _, src) p0 booksTmp.
Proof.
  split; [|done|done]. intros A m Q s Hm Hwf HQ. specialize (HQ (tick (sworld s))).
  unfold wp, cross_read in *. destruct (m _) as [r w]. simpl in *. by apply HQ.
Qed.

(** a copy within a shelf is a copy. On a shelf that keeps its
    invariant a success means that every file of the package found under the
    ID is in the new package at the same place with the same content, apart
    from [book.json], which gets the new ID. *)
Theorem CopyBook_copies_files id fs s :
  slug_plain → wf_tree (stree s) → shelf_ok s →
  wp (CopyBook id fs) (λ r s', ∀ b', r = Ok b' → ∃ b fs0, found Exclusive id s b fs0 ∧
    copy_holds (folderPath b) false (stree s) (stree s') (folderPath b')) s.
Proof.
  intros Hslug Hwf Hok. apply wp_bind, wp_validated; [done|]. intros [Hv _]%ValidateFolderPath_ok.
  apply wp_bind, wp_writeRoot; [done|]. intros _. apply wp_locked; [done|].
  apply wp_bind, wp_lookup; [done|exact Hok|]. intros [[b fs0]|e] s1 Hs1 _ Hr Hb; [|done].
  change (stree (after_lock _ _)) with (stree s) in Hs1. destruct (Hb b fs0 eq_refl) as [_ Hat].
  apply wp_bind, wp_guard; intros _; [done|]. apply wp_bind, wp_gets.
  eapply wp_mono; [apply (wp_publishBookCopy_copies own_read stree (folderPath b) booksTmp reader_own
    (reads_from_own _ _ Hat) (stree s)); [done|done|done|done|]|].
  - split; [by rewrite Hs1|]. split; [by rewrite Hs1|]. by rewrite Hs1.
  - intros r s' Hc b' Hb'. exists b, fs0. split; [done|]. by apply Hc.
Qed.

(** ** Between two shelves *)
Lemma wp_on_source {A : Type} (m : M Shelf A) Q (s : Shelf * Shelf) :
  wp m (λ r s1, Q r (s1, s.2)) s.1 → wp (on_source m) Q s.
Proof. unfold wp, on_source. by destruct (m s.1). Qed.
Lemma wp_on_target {A : Type} (m : M Shelf A) Q (s : Shelf * Shelf) :
  wp m (λ r s2, Q r (s.1, s2)) s.2 → wp (on_target m) Q s.
Proof. unfold wp, on_target. by destruct (m s.2). Qed.

Lemma wp_acquire l (Q : result error unit → Shelf → Prop) s :
  (∀ n, Q (Err ErrShelfLockTimeout) (set_world (mkWorld (stree s) n) s)) →
  Q (Ok tt) (after_lock l s) → wp (acquire l) Q s.
Proof.
  intros HE HO. apply wp_bind, wp_gets, wp_bind, wp_lift. unfold wp at 1. simpl.
  apply wp_bind, wp_guard; intros _; [apply HE|]. by apply wp_modify.
Qed.

(** What a copy to another shelf leaves. *)
Record cross_copied (id : bytes) (fs : FolderPath) (keep : bool) (s : Shelf * Shelf)
    (r : result error Book) (s' : Shelf * Shelf) : Prop := {
  cc_source : stree s'.1 = stree s.1;
  cc_source_ok : shelf_ok s.1 → shelf_ok s'.1;
  cc_wf : wf_tree (stree s'.2);
  cc_target : outside (stree s.2) (stree s'.2);
  cc_copy b' : r = Ok b' → package_at (folderPath b') fs ∧ stree s.2 !! folderPath b' = None ∧
    ∃ b fs0, found Shared id s.1 b fs0 ∧ in_tree (stree s.1) b ∧
      copy_holds (folderPath b) keep (stree s.1) (stree s'.2) (folderPath b');
}.

Lemma cross_none id fs keep s e s' :
  stree s'.1 = stree s.1 → (shelf_ok s.1 → shelf_ok s'.1) → wf_tree (stree s.2) →
  stree s'.2 = stree s.2 → cross_copied id fs keep s (Err e) s'.
Proof. intros Es Hok Hwf Et. split; rewrite ?Et; [done..|apply outside_refl|done]. Qed.

Lemma wp_transfer_locked {A : Type} (m : M (Shelf * Shelf) A) (Q : result error A → Shelf * Shelf → Prop) s :
  (∀ e n1 n2 l1, Q (Err e) (set_lock l1 (set_world (mkWorld (stree s.1) n1) s.1),
    set_world (mkWorld (stree s.2) n2) s.2)) →
  (∀ e n, Q (Err e) (set_world (mkWorld (stree s.1) n) s.1, s.2)) →
  wp m (λ r s', Q r (set_lock Unlocked s'.1, set_lock Unlocked s'.2))
    (after_lock Shared s.1, after_lock Exclusive s.2) →
  wp (transfer_locked m) Q s.
Proof.
  intros HT HE Hm. apply wp_bind, wp_on_source, wp_acquire; [intros; apply HE|].
  apply wp_bind, wp_try, wp_on_target, wp_acquire.
  - intros n. unfold wp. simpl. apply HT.
  - apply wp_deferred. eapply wp_mono; [exact Hm|]. intros r [s1 s2] HQ. exact HQ.
Qed.

Lemma keeps_ensureFree P D id : keeps P D (ensureBookIDFreeAfterRescan id).
Proof.
  unfold ensureBookIDFreeAfterRescan. frame_step; [apply keeps_refresh|].
  frame_step; [apply keeps_try, keeps_getUpdated|]. destruct a0; [frame|].
  frame_step; [frame|]. frame_step; [|frame].
  apply keeps_lift. unfold Trash.isBookIDInTrash. frame.
Qed.

Lemma wp_cross_copy id fs keep s b fs0 (s1 s2 : Shelf) :
  slug_plain → validateFolderPath fs = Ok tt → found Shared id s.1 b fs0 → in_tree (stree s.1) b →
  wf_tree (stree s.1) → wf_tree (stree s.2) →
  stree s1 = stree s.1 → (shelf_ok s.1 → shelf_ok s1) → stree s2 = stree s.2 →
  wp (on_target (publishBookCopy (cross_read (stree s.1)) (walk_fuel (stree s.1)) b fs keep))
    (cross_copied id fs keep s) (s1, s2).
Proof.
  intros Hslug Hv Hf Hin Hwf1 Hwf2 E1 Hok E2. apply wp_on_target.
  eapply wp_mono; [apply wp_conj; [apply (wp_publishBookCopy (cross_read (stree s.1)))|
    apply (wp_publishBookCopy_copies _ (λ _, stree s.1) (folderPath b) booksTmp (reader_cross _)
      (reads_from_cross _ _) (stree s.1))]|]; simpl.
  - done.
  - apply reader_cross.
  - done.
  - by rewrite E2.
  - done.
  - done.
  - done.
  - done.
  - split; [by rewrite E2|by split].
  - intros r s' [[Hwf' Hout Hb] Hc]. rewrite E2 in Hout, Hb. split; [done..|].
    intros b' Hr. destruct (Hb b' Hr) as (_ & Hat & Hfree). split; [done|]. split; [done|].
    exists b, fs0. split; [done|]. split; [done|]. by apply Hc.
Qed.

Lemma wp_CopyBookFrom id fs keep s :
  slug_plain → wf_tree (stree s.1) → wf_tree (stree s.2) → shelf_ok s.1 →
  wp (CopyBookFrom id fs keep) (cross_copied id fs keep s) s.
Proof.
  intros Hslug Hwf1 Hwf2 Hok.
  apply wp_bind, wp_on_target, wp_validated; [intros; by apply cross_none|].
  intros [Hv _]%ValidateFolderPath_ok.
  apply wp_bind, wp_on_target, wp_writeRoot; [intros; by apply cross_none|]. intros _.
  apply wp_transfer_locked; [intros; by apply cross_none|intros; by apply cross_none|].
  apply wp_bind, wp_on_source, wp_lookup; [done|exact Hok|]. intros [[b fs0]|e] s1 Hs1 Hok1 Hr Hb;
    change (stree (after_lock _ _)) with (stree s.1) in Hs1; [|by apply cross_none].
  assert (found Shared id s.1 b fs0) as Hf by done. destruct (Hb b fs0 eq_refl) as [Hin _].
  apply wp_bind. eapply (wp_mono _ (λ r s', stree s'.1 = stree s.1 ∧ (shelf_ok s.1 → shelf_ok s'.1) ∧
    stree s'.2 = stree s.2)).
  - destruct keep.
    + apply wp_on_target, wp_shelf_reads; [apply keeps_ensureFree|done|]. by intros.
    + by apply wp_guard.
  - intros [[]|e] s2 (E1 & Hok2 & E2); [|by apply cross_none].
    apply wp_bind, wp_gets. destruct s2 as [sa sb]. simpl in *. rewrite E1.
    eapply wp_mono; [by eapply wp_cross_copy|].
    intros r s' [? Hok' ? ? ?]. by split.
Qed.

Definition cross_moved (id : bytes) (fs : FolderPath) (s : Shelf * Shelf)
    (r : result error Book) (s' : Shelf * Shelf) : Prop :=
  outside (stree s.2) (stree s'.2) ∧
  (stree s'.1 = stree s.1 ∧ is_ok r = false ∨
   ∃ b' s1, cross_copied id fs true s (Ok b') (s1, s'.2) ∧ stree s1 = stree s.1 ∧
     (∀ b'', r = Ok b'' → b'' = b') ∧
     (stree s'.1 = stree s.1 ∧ is_ok r = false ∨
      ∃ b fs0 rd, found Exclusive id s1 b fs0 ∧ (is_ok r = true → rd = Ok tt) ∧
        move_outcome id (folderPath b) (Trash.trashPathOf id) fs0 (stree s.1) rd s'.1)).

(** Claim C33: moving a book to another shelf never leaves it nowhere. Whatever
    fails and wherever, on either shelf: the target loses and overwrites
    nothing; the source changes only by the book going to its trash, whole,
    and only after the copy stands. A success means every file of the package
    is in a new package of the target's folder, at a path that was free, with
    the same content, and the source holds a book of that ID in its trash. *)
Theorem MoveBookFrom_keeps_the_book id fs s :
  slug_plain → wf_tree (stree s.1) → wf_tree (stree s.2) → shelf_ok s.1 →
  wp (MoveBookFrom id fs) (cross_moved id fs s) s.
Proof.
  destruct s as [sa sb]. simpl. intros Hslug Hwf1 Hwf2 Hok. unfold MoveBookFrom.
  apply wp_bind, wp_on_source, wp_writeRoot; [intros; split; [apply outside_refl|by left]|]. intros _.
  apply wp_bind. eapply wp_mono; [by apply (wp_CopyBookFrom id fs true)|].
  intros r [s1 s2] Hc. pose proof Hc as [E1 _ Hwf Hout _]. simpl in *.
  destruct r as [b'|e]; [|split; [done|by left]].
  apply wp_bind, wp_on_source. eapply wp_mono; [apply wp_MoveBookToTrash; simpl; by rewrite E1|].
  intros rd s3 Ho. simpl in Ho. rewrite E1 in Ho.
  assert (∀ r : result error Book, (is_ok r = true → rd = Ok tt) → (∀ b'', r = Ok b'' → b'' = b') →
    cross_moved id fs (sa, sb) r (s3, s2)) as Hgo.
  { intros r Hr Hb. split; [done|]. right. exists b', s1. split; [done|]. split; [done|]. split; [done|].
    destruct Ho as [[Hs Hn]|(b & fs0 & Hf & Hm)]; [left; split; [done|]|right; eauto 6].
    destruct r; [|done]. by rewrite Hr in Hn. }
  destruct rd as [[]|e]; [apply wp_ret|]; apply Hgo; try done. by intros ? [= <-].
Qed.
End claims.
End CopySpec.
