(* ===== verification/TrashRoundtrip.v ===== *)
(** * To the trash and back

    Without faults, restoring a book that was just moved to the trash puts
    every file back where it was. *)

From S2P Require Import Prelude Utf8 Strings Json Fs FsSpec Atomic ShelfUtil BookMeta Source Frame Relocate ScanCache FolderMeta Book NoFault ShelfState Trash ShelfFrame TrashSpec.

Module TrashRoundtrip.
Import Atomic ShelfUtil BookMeta Book Shelf TrashMeta Trash ShelfFrame TrashSpec.

(** ** The name a path ends in *)
Lemma strip_slashes_id s c : c ≠ "/"%char → strip_slashes (s ++ [c]) = s ++ [c].
Proof.
  intros Hc. induction s as [|a s IH]; simpl; [by rewrite decide_False|].
  rewrite IH. by destruct (s ++ [c]) eqn:E; [destruct s|].
Qed.

Lemma Join_snoc_last l (x : bytes) sep : ∃ pre, Join (l ++ [x]) sep = pre ++ x.
Proof.
  induction l as [|y l [pre IH]]; simpl; [by exists []|].
  destruct (l ++ [x]) eqn:E; [by destruct l|]. exists (y ++ sep ++ pre). rewrite <-!app_assoc.
  by rewrite <-IH.
Qed.

Lemma path_Base_string p n : Forall segment (p ++ [n]) → path_Base (path_string (p ++ [n])) = n.
Proof.
  intros Hs. assert (segment n) as (Hne & _ & _ & Hn).
  { rewrite Forall_app, Forall_singleton in Hs. tauto. }
  unfold path_Base, path_string.
  destruct (Join_snoc_last p n (str "/")) as [pre Hpre].
  assert (∃ n' c, n = n' ++ [c] ∧ c ≠ "/"%char) as (n' & c & -> & Hc).
  { destruct n as [|c n' _] using rev_ind; [done|]. exists n', c. split; [done|].
    intros ->. apply Hn. rewrite elem_of_app. right. left. }
  rewrite decide_False by (rewrite Hpre; by destruct pre, n').
  assert (strip_slashes (Join (p ++ [n' ++ [c]]) (str "/")) = Join (p ++ [n' ++ [c]]) (str "/")) as ->.
  { rewrite Hpre, app_assoc. by apply strip_slashes_id. }
  rewrite decide_False by (rewrite Hpre; by destruct pre, n').
  change (str "/") with ["/"%char]. rewrite Split_Join; [by rewrite last_snoc|by destruct p|].
  eapply Forall_impl; [done|]. by intros x (_ & _ & _ & ?).
Qed.

Section nofault.
Context `{UnicodeCase, TimeTextLaws, Machine, !NoFaults, Digest, ShelfEnv}.

Lemma nf_OpenBook rw p c z m (Q : result error Book → world → Prop) w :
  wf_tree (wtree w) → rooted p → wtree w !! p = Some Dir →
  wtree w !! meta_path p = Some (File c z) → unmarshal BookMeta.decode c = Some m →
  (∀ st k, Q (Ok (mkBook rw p (normalizeMetaVersion m) (Some st))) (mkWorld (wtree w) k)) →
  wp (OpenBook rw p) Q w.
Proof.
  intros Hwf Hr Hp Hm Hu HQ. assert (rooted (meta_path p)) as Hr'.
  { unfold rooted, meta_path in *. by destruct p. }
  apply wp_bind, (nf_Stat_at _ Dir); [done..|]. apply wp_bind, wp_guard; [done|]. intros _.
  apply wp_bind, wp_bind, (nf_Open_at _ c z); [done..|]. rewrite Hu. apply wp_ret.
  apply wp_bind, wp_bind, (nf_StatInfo_at _ (File c z)); [done..|]. intros k.
  apply wp_ret, wp_ret, HQ.
Qed.

Lemma nf_readTrashMeta p m z (Q : result error (option trashMeta) → world → Prop) w :
  wf_tree (wtree w) → rooted p →
  wtree w !! (p ++ [trashMetaFile]) = Some (File (Doc (TrashMeta.encode m)) z) →
  TrashMeta.SchemaVersion m = TrashMetaSchemaVersion →
  (∀ k, Q (Ok (Some (in_seconds m))) (mkWorld (wtree w) k)) →
  wp (readTrashMetaTolerant p) Q w.
Proof.
  intros Hwf Hr Hp Hv HQ. assert (rooted (p ++ [trashMetaFile])) as Hr'.
  { unfold rooted in *. by destruct p. }
  apply wp_bind, wp_try, wp_bind, (nf_Open_at _ (Doc (TrashMeta.encode m)) z); [done..|].
  rewrite trash_unmarshal_encode by (rewrite Hv; by vm_compute). apply wp_ret, wp_ret.
  destruct m as [v d op fo re]. simpl in *. subst v. apply HQ.
Qed.

Hypothesis no_timeout : ∀ n, lock_times_out n = false.

Lemma nf_locked {A : Type} (m : M Shelf A) Q s :
  wp m (λ r s', Q r (set_lock Unlocked s')) (after_lock Exclusive s) → wp (locked m) Q s.
Proof.
  intros Hm. unfold locked, Lock, acquire.
  apply wp_bind, wp_bind, wp_gets, wp_bind, wp_lift. unfold wp at 1. simpl.
  apply wp_bind, wp_guard; [by rewrite no_timeout|]. intros _. apply wp_modify, wp_deferred.
  eapply wp_mono; [apply Hm|]. intros r s' HQ. by apply wp_modify.
Qed.

(** Updating an entry of the cache cannot fail. *)
Lemma ok_CurrentSourceStat b w : ∃ v, (CurrentSourceStat b w).1 = Ok v.
Proof.
  unfold CurrentSourceStat. destruct (negb _); [by eexists|].
  unfold mbind, M_bind, try. destruct (Source.openSource _ _ w) as [[r|e] w']; by eexists.
Qed.

Lemma wp_updateBookCacheEntry fs p b Q s :
  wf_tree (stree s) → (∀ s', stree s' = stree s → Q (Ok tt) s') →
  wp (updateBookCacheEntry fs p b) Q s.
Proof.
  intros Hwf HQ. unfold updateBookCacheEntry, readBookIDCacheEntry, put_entry.
  apply wp_bind, wp_lift, wp_bind. unfold wp at 1. simpl.
  apply wp_bind. set (w := mkWorld _ _). destruct (ok_CurrentSourceStat b w) as [v Hv].
  apply wp_reads; [apply keeps_CurrentSourceStat|done|]. intros r n Hr. rewrite Hv in Hr. subst r.
  destruct v as [[? ?] ?]. apply wp_ret, wp_update_cache, HQ. done.
Qed.

(** A package where a folder of the shelf holds it. *)
Record at_home (s : Shelf) (p : path) (fs : FolderPath) (name : bytes) : Prop := {
  ah_path : p = (booksFolder :: fs) ++ [name];
  ah_name : segment name ∧ HasSuffix name bookExtension = true;
  ah_folders : ValidateFolderPath s fs = Ok tt;
  ah_dir : stree s !! p = Some Dir;
  ah_meta : ∃ c z m, stree s !! meta_path p = Some (File c z) ∧ unmarshal BookMeta.decode c = Some m;
  ah_clean : stree s !! (p ++ [trashMetaFile]) = None;
}.

Lemma nf_restore_tail tp d name fs b c z m s :
  wf_tree (stree s) → rooted tp → rooted d → d ≠ [] → is_Some (stree s !! tp) →
  stree s !! d = Some Dir → stree s !! (d ++ [name]) = None → ¬ under tp (d ++ [name]) →
  stree s !! (tp ++ [BookMetaFile]) = Some (File c z) → unmarshal BookMeta.decode c = Some m →
  ID (meta b) = ID (normalizeMetaVersion m) → stree s !! tp = Some Dir →
  (∃ tc tz, stree s !! (tp ++ [trashMetaFile]) = Some (File tc tz)) →
  wp (restore_tail tp (d ++ [name]) fs b) (λ r s', r = Ok tt ∧
    stree s' = delete ((d ++ [name]) ++ [trashMetaFile]) (move (stree s) tp (d ++ [name]))) s.
Proof.
  intros Hwf Hrt Hrd Hd0 Hs Hd Hfree Hu Hc Hm Hid Hdir (tc & tz & Htm).
  destruct s as [[t k] ro rd ig ns bc sc lk]. unfold stree in *. simpl in *.
  set (dst := d ++ [name]) in *.
  assert (rooted dst) as Hrdst by (unfold rooted, dst in *; by destruct d).
  assert (∀ f, rooted (dst ++ [f])) as Hrf by (intros f; unfold rooted, dst in *; by destruct d).
  apply wp_bind, wp_lift, nf_Rename_free; simpl; [done..|].
  assert (wf_tree (move t tp dst)) as Hwf1.
  { apply wf_move; auto; [by intros ->; apply Hu; exists dst| |by destruct d].
    by apply resolve_ok. }
  assert (∀ k, move t tp dst !! (dst ++ k) = t !! (tp ++ k)) as Hmv.
  { intros q. apply (carried_move (λ _, False)). by intros []. }
  apply wp_bind, wp_ignore, wp_lift, (nf_Remove_file _ tc tz); simpl; [done|done|by rewrite Hmv|].
  set (t2 := delete (dst ++ [trashMetaFile]) (move t tp dst)).
  assert (wf_tree t2) as Hwf2.
  { apply wf_delete; [done|by destruct d|]. intros q [l ->] Hq.
    destruct l as [|x l]; [by rewrite app_nil_r|]. rewrite wf_no_child in Hq; [by destruct Hq|done| |done].
    by rewrite Hmv, Htm. }
  apply wp_bind. unfold openBook. apply wp_bind, wp_gets, wp_lift.
  apply (nf_OpenBook _ _ c z m); simpl; [done|done| | |done|].
  - unfold t2. rewrite lookup_delete_ne.
    + rewrite <-(app_nil_r dst), Hmv. by rewrite app_nil_r.
    + intros E%(f_equal length). rewrite length_app in E. simpl in E. lia.
  - unfold t2, meta_path. rewrite lookup_delete_ne by by intros ?%app_inv_head. by rewrite Hmv.
  - intros st j. apply wp_bind, wp_updateBookCacheEntry; [done|]. intros s' Hs'.
    apply wp_guard; [|done]. simpl. rewrite Hid, bool_decide_true by done. done.
Qed.

Lemma keeps_MoveBookToTrash P D bookID :
  (∀ q, P q) → keeps P D (MoveBookToTrash bookID).
Proof.
  intros HP. assert (∀ p q, keeps P D (Rename p q)) as Hr by (intros; apply keeps_Rename; auto).
  unfold MoveBookToTrash, writeRoot. apply keeps_bind; [frame|]. intros _. apply keeps_locked.
  apply keeps_bind; [frame|]. intros [b fs]. cbv zeta.
  apply keeps_bind; [apply keeps_lift, keeps_refuseIfTrashMetaTooNew|]. intros _.
  apply keeps_bind; [apply keeps_lift, keeps_ensure_missing|]. intros _.
  unfold move_package. apply keeps_bind; [by apply keeps_lift|]. intros _.
  apply keeps_bind; [frame|]. intros z. cbv zeta.
  apply keeps_bind; [apply keeps_try, keeps_lift, keeps_WriteFileAtomic; auto|].
  - by destruct (trashPathOf bookID).
  - unfold base. by rewrite last_snoc.
  - intros [[]|e]; [apply keeps_update_cache|]. apply keeps_bind; [|frame].
    by apply keeps_ignore, keeps_lift.
Qed.
Lemma conf_MoveBookToTrash bookID : keeps_conf (MoveBookToTrash bookID).
Proof.
  unfold MoveBookToTrash, writeRoot, move_package, deleteBookCacheEntry. conf.
Qed.

Lemma collision_name_0 b0 f : collision_name b0 f 0 = f.
Proof. unfold collision_name. by rewrite decide_False by lia. Qed.

(** A restore into the folder the trash names, when it is free there. *)
Lemma nf_RestoreTrashedBook bookID fs name s c z m tz tm :
  wf_tree (stree s) → readOnly s = false → validateBookID bookID = Ok tt →
  ValidateFolderPath s fs = Ok tt → segment name → HasSuffix name bookExtension = true →
  let tp := trashPathOf bookID in
  let d := booksFolder :: fs in
  stree s !! tp = Some Dir →
  stree s !! meta_path tp = Some (File c z) → unmarshal BookMeta.decode c = Some m →
  stree s !! (tp ++ [trashMetaFile]) = Some (File (Doc (encode tm)) tz) →
  SchemaVersion tm = TrashMetaSchemaVersion →
  OriginalPath tm = path_string (d ++ [name]) → OriginalFolder tm = fs →
  stree s !! d = Some Dir → stree s !! (d ++ [name]) = None →
  wp (RestoreTrashedBook bookID) (λ r s', r = Ok tt ∧
    stree s' = delete ((d ++ [name]) ++ [trashMetaFile]) (move (stree s) tp (d ++ [name]))) s.
Proof.
  intros Hwf Hro Hv Hfs Hname Hsuf tp d Htp Hc Hm Htm Htv Hto Htf Hd Hfree.
  pose proof (ValidateFolderPath_ok s fs Hfs) as [Hvf _].
  pose proof (trashPathOf_valid bookID Hv) as Etp. fold tp in Etp.
  assert (rooted tp) as Hrt by (by rewrite Etp). assert (rooted d) as Hrd by done.
  apply wp_bind, wp_bind, wp_gets, wp_guard; [by rewrite Hro|]. intros _.
  apply nf_locked, wp_bind. unfold findTrashedBook. rewrite Hv.
  apply wp_bind, wp_of_result, wp_bind, wp_try. unfold openBook.
  apply wp_bind, wp_gets, wp_lift, (nf_OpenBook _ _ c z m); [done..|]. intros st k.
  apply wp_bind, wp_lift, (nf_readTrashMeta _ tm tz); [done..|]. intros j. apply wp_ret.
  apply wp_bind, wp_of_result. simpl. rewrite Htv. simpl. apply wp_bind, wp_gets. cbv zeta.
  set (tm' := in_seconds tm).
  assert (∀ s', conf s' = conf s → restore_folders s' (Some tm') = fs) as Hrf.
  { intros s' [= Hro' _ Hig _]. unfold restore_folders, tm'. simpl. rewrite Htf.
    replace (ValidateFolderPath s' fs) with (ValidateFolderPath s fs); [by rewrite Hfs|].
    unfold ValidateFolderPath. by rewrite Hig. }
  rewrite Hrf by done. unfold restore_name. fold tp. simpl. rewrite Hto, path_Base_string.
  2: { apply Forall_app. split; [|by constructor]. constructor; [by apply (bool_decide_unpack (segment booksFolder))|].
       apply validateFolderPath_ok in Hvf. eapply Forall_impl; [done|]. by intros x [? _]. }
  rewrite Hsuf, (folderDir_valid fs) by done. fold d.
  apply wp_bind, wp_lift, nf_MkdirAll_there; [done..|]. apply wp_bind, wp_update_cache.
  assert (pjoin d name = d ++ [name]) as Ej by by apply pjoin_segment.
  apply wp_bind, wp_lift. unfold resolveBookPathCollision. cbv zeta. unfold maxBookPathCollisionAttempts.
  destruct (Z.to_nat 10000) as [|n] eqn:En; [lia|].
  cbn [collision_loop]. rewrite collision_name_0, Ej.
  apply wp_bind, wp_try, nf_Stat_free; [done..|]. apply wp_ret.
  name_state s2 Es2. assert (stree s2 = stree s) as Es by (by rewrite Es2). clear Es2.
  set (b := mkBook true tp (normalizeMetaVersion m) (Some st)).
  apply (wp_mono (restore_tail tp (d ++ [name]) fs b) (λ r s', r = Ok tt ∧
    stree s' = delete ((d ++ [name]) ++ [trashMetaFile]) (move (stree s2) tp (d ++ [name])))).
  - apply (nf_restore_tail tp d name fs b c z m); rewrite ?Es; try done; eauto.
    rewrite Etp. by intros [? ?].
  - by rewrite Es.
Qed.

(** The state a successful move to the trash leaves. *)
Lemma moved_to_trash bookID s b fs s1 :
  wf_tree (stree s) → MoveBookToTrash bookID s = (Ok tt, s1) → found Exclusive bookID s b fs →
  wf_tree (stree s1) ∧ conf s1 = conf s ∧ readOnly s = false ∧
  move_outcome bookID (folderPath b) (trashPathOf bookID) fs (stree s) (Ok tt) s1.
Proof.
  intros Hwf Hm Hf. pose proof (wp_MoveBookToTrash bookID s Hwf) as Ho.
  unfold wp in Ho. rewrite Hm in Ho. simpl in Ho.
  destruct Ho as [[_ ?]|(b' & fs' & Hf' & Ho)]; [done|].
  unfold found in *. rewrite Hf in Hf'. simplify_eq. split; [|split; [|split; [|done]]].
  - change s1 with (Ok (E:=error) tt, s1).2. rewrite <-Hm.
    apply (keeps_MoveBookToTrash (λ _, True) (λ _, True) bookID (λ _, I) s Hwf).
  - change s1 with (Ok (E:=error) tt, s1).2. rewrite <-Hm. apply conf_MoveBookToTrash.
  - revert Hm. unfold MoveBookToTrash, writeRoot, mbind, M_bind, gets, guard_err.
    by destruct (readOnly s).
Qed.

(** The two moves undo each other. *)
Lemma round_trip_tree (p tp : path) (t t1 : tree) (q : path) :
  wf_tree t → t !! tp = None → elsewhere p tp t t1 → carried aside p tp t t1 →
  ¬ under p tp → ¬ under tp p → t !! (p ++ [trashMetaFile]) = None →
  ¬ (∃ n, q = p ++ [n] ∧ isTempFileName n = true) →
  delete (p ++ [trashMetaFile]) (move t1 tp p) !! q = t !! q.
Proof.
  intros Hwf Hfree He Hca Hptp Htpp Hclean Hq.
  destruct (decide (q = p ++ [trashMetaFile])) as [->|Hne]; [by rewrite lookup_delete_eq|].
  rewrite lookup_delete_ne, lookup_move by done. case_decide as Hu.
  - destruct Hu as [k ->]. rewrite drop_app_length. apply Hca.
    intros [->|(n & -> & Hn)]; [done|]. apply Hq. eauto.
  - case_decide as Hu'; [|by apply He]. destruct Hu' as [k ->].
    destruct (decide (k = [])) as [->|]; [by rewrite app_nil_r|].
    rewrite wf_no_child; [done..| |done]. by rewrite Hfree.
Qed.

(** Claim C3: the trash gives back what it took. Without faults, a book that
    was moved to the trash is restored to where it was: the restore succeeds,
    and every file of the library is back at its path with its content, save
    temporary files inside the package. *)
Theorem restore_undoes_trash bookID s b fs name s1 :
  wf_tree (stree s) → MoveBookToTrash bookID s = (Ok tt, s1) →
  found Exclusive bookID s b fs → validateBookID bookID = Ok tt →
  at_home s (folderPath b) fs name →
  wp (RestoreTrashedBook bookID) (λ r s2, r = Ok tt ∧
    ∀ q, ¬ (∃ n, q = folderPath b ++ [n] ∧ isTempFileName n = true) →
      stree s2 !! q = stree s !! q) s1.
Proof.
  intros Hwf Hm Hf Hv [Hp [Hname Hsuf] Hfs Hdir (c & z & m & Hc & Hu) Hclean].
  destruct (moved_to_trash _ _ _ _ _ Hwf Hm Hf) as (Hwf1 & Hconf & Hro & He & Ht & _).
  set (p := folderPath b) in *. set (tp := trashPathOf bookID) in *.
  set (d := booksFolder :: fs) in *.
  pose proof (trashPathOf_valid bookID Hv) as Htp. fold tp in Htp.
  destruct Ht as [Hk|Hfree Hca Hg Hrec]; [done|].
  destruct (Hrec eq_refl) as (tz & tm & Htm & Htv & Hto & Htf).
  assert (¬ under p tp ∧ ¬ under tp p) as [Hptp Htpp].
  { rewrite Hp, Htp. split; intros [k Hk]; done. }
  injection Hconf as Hro1 _ Hig1 _.
  assert (∀ k, ¬ aside k → stree s1 !! (tp ++ k) = stree s !! (p ++ k)) as Hca' by done.
  eapply wp_mono; [apply (nf_RestoreTrashedBook bookID fs name s1 c z m tz tm); fold tp d|].
  - done.
  - congruence.
  - done.
  - unfold ValidateFolderPath in *. by rewrite Hig1.
  - done.
  - done.
  - rewrite <-(app_nil_r tp), Hca', app_nil_r; [done|]. by intros [|(? & ? & _)].
  - unfold meta_path in *. rewrite Hca'; [done|]. intros [|(n & [= <-] & Hn)]; [done|]. by vm_compute in Hn.
  - done.
  - done.
  - done.
  - by rewrite Hto, Hp.
  - done.
  - rewrite He.
    + rewrite Hp in Hdir. by apply (wf_parent _ Hwf d name); eexists.
    + intros Hul%under_length. rewrite Hp, length_app in Hul. simpl in Hul. lia.
    + by intros [k Hk]; rewrite Htp in Hk.
  - rewrite <-Hp. by apply Hg.
  - intros r s2 [-> Hs2]. split; [done|]. rewrite Hs2. fold d tp. rewrite <-Hp. intros q. by apply round_trip_tree.
Qed.

End nofault.
End TrashRoundtrip.
