(* ===== verification/Listing.v ===== *)
(** * Listings of a shelf: [src/shelf/shelf_book.go], [shelf_folder.go] and [shelf_cache.go]

    What a client reads: the books and the folders of the cache, after the
    refresh the listing is due. Folders are listed parents first, siblings by
    their sort keys; [sortFolderSiblings] only reorders. The background check
    a listing may start is a step of its own, [background_book_check]. *)

From S2P Require Import Prelude Utf8 Strings Float64 Json Fs FsSpec Atomic ShelfUtil BookMeta Source Frame ScanCache FolderMeta Book ShelfState.

Module Listing.
Import ShelfUtil BookMeta Book FolderMeta Shelf.

(** ** The order of folders *)

(** [cmp.Compare] on floats. *)
Definition float_compare (x y : F64.float64) : comparison :=
  if F64.is_nan x then (if F64.is_nan y then Eq else Lt)
  else if F64.is_nan y then Gt
  else if F64.ltb x y then Lt else if F64.ltb y x then Gt else Eq.

(** The comparison of siblings, and Go's stable sort by it. *)
Definition meta_of (metas : gmap bytes FolderMeta) (folder : FolderPath) : FolderMeta :=
  default emptyMeta (metas !! String folder).
Definition sibling_before (metas : gmap bytes FolderMeta) (a b : FolderPath) : bool :=
  let x := meta_of metas a in
  let y := meta_of metas b in
  match HasSortKey x, HasSortKey y with
  | true, true => match float_compare (SortKey x) (SortKey y) with Lt => true | _ => false end
  | true, false => true
  | false, _ => false
  end.
Fixpoint insert_stable (metas : gmap bytes FolderMeta) (x : FolderPath) (l : list FolderPath) : list FolderPath :=
  match l with
  | [] => [x]
  | y :: l => if sibling_before metas x y then x :: y :: l else y :: insert_stable metas x l
  end.
Definition sort_siblings (metas : gmap bytes FolderMeta) (l : list FolderPath) : list FolderPath :=
  foldl (λ acc x, insert_stable metas x acc) [] l.

(** The closures [add] and [visit] of [sortFolderSiblings]: [add] on the
    folder with its segments reversed, [visit] with fuel for the depth. *)
Record Tree := mkTree { children : gmap bytes (list FolderPath); seen : gset bytes }.
Fixpoint add (rfolder : list bytes) (st : Tree) : Tree :=
  match rfolder with
  | [] => st
  | _ :: rparent =>
      let folder := rev rfolder in
      let parent := rev rparent in
      if decide (String folder ∈ seen st) then st else
      let st := add rparent st in
      mkTree (<[String parent := default [] (children st !! String parent) ++ [folder]]> (children st))
        ({[String folder]} ∪ seen st)
  end.
Definition build (folders : list FolderPath) : Tree :=
  foldl (λ st folder, add (rev folder) st) (mkTree ∅ ∅) folders.
Fixpoint visit (metas : gmap bytes FolderMeta) (present : gset bytes) (kids : gmap bytes (list FolderPath))
    (fuel : nat) (parent : bytes) : list FolderPath :=
  match fuel with
  | 0 => []
  | S fuel =>
      foldl (λ result folder,
        result ++ (if decide (String folder ∈ present) then [folder] else [])
               ++ visit metas present kids fuel (String folder))
        [] (sort_siblings metas (default [] (kids !! parent)))
  end.
Definition depth (folders : list FolderPath) : nat := max_list (length <$> folders).
(** [func sortFolderSiblings]; [copy] overwrites the front of the slice. *)
Definition sortFolderSiblings (folders : list FolderPath) (metas : gmap bytes FolderMeta) : list FolderPath :=
  if negb (existsb (λ f, HasSortKey (meta_of metas f)) folders) then folders else
  let present := list_to_set (String <$> folders) : gset bytes in
  let result := (if decide ([] ∈ present) then [[]] else [])
    ++ visit metas present (children (build folders)) (S (depth folders)) [] in
  result ++ drop (length result) folders.

Section ops.
Context `{UnicodeCase, TimeText, Machine, Digest, ShelfEnv}.

(** [func (s *Shelf) listFoldersFromCache] *)
Definition listFoldersFromCache (c : bookCache) : list FolderPath :=
  sortFolderSiblings (cfolders c) (folderMeta c).

(** [func (s *Shelf) scheduleBookCacheRefreshIfNeeded]: the refresh it runs
    at once; its error is dropped. *)
Definition scheduleBookCacheRefreshIfNeeded : M Shelf unit :=
  c ← gets bcache;
  t ← lift now;
  if treeDirty c || (scanInterval c <=? t - lastFullScan c)%Z
  then ignore (refreshBookCacheIfNeeded false) else mret tt.
(** The check it starts in the background. *)
Definition background_book_check : M Shelf unit := ignore (rlocked onlyRefreshBooksInCache).

Definition ready_or_error {A : Type} (m : M Shelf A) : M Shelf A :=
  ok ← IsReady;
  if (ok : bool) then rlocked m else throw ErrShelfInitializing.

(** [shelf_book.go], [shelf_folder.go] and [shelf_folder_meta.go] *)
Definition ListBooksWithCharCount : M Shelf (list BookListing) :=
  ready_or_error (scheduleBookCacheRefreshIfNeeded;; gets (λ s, listBookListingsFromCache (bcache s))).
Definition ListBooks : M Shelf (list Book) :=
  listings ← ListBooksWithCharCount; mret (LBook <$> listings).
Definition GetBook (bookID : bytes) : M Shelf Book :=
  ready_or_error ('(b, _) ← getUpdatedBookFromBookID bookID; mret b).
Definition GetBookListing (bookID : bytes) : M Shelf BookListing :=
  ready_or_error ('(b, folders) ← getUpdatedBookFromBookID bookID; mret (mkListing b folders 0 [])).
Definition GetAllFolders : M Shelf (list FolderPath) :=
  ready_or_error (scheduleBookCacheRefreshIfNeeded;; gets (λ s, listFoldersFromCache (bcache s))).
Definition ListFolderMeta : M Shelf (gmap bytes FolderMeta) :=
  ready_or_error (scheduleBookCacheRefreshIfNeeded;; gets (λ s, folderMeta (bcache s))).
Definition MarksFolders (s : Shelf) : bool := HasFolders (nsfw s).
End ops.

(** ** [sortFolderSiblings] only reorders *)
Lemma insert_stable_perm metas x l : insert_stable metas x l ≡ₚ x :: l.
Proof.
  induction l as [|y l IH]; simpl; [done|]. destruct (sibling_before metas x y); [done|].
  rewrite IH. apply Permutation_swap.
Qed.
Lemma sort_siblings_perm metas l : sort_siblings metas l ≡ₚ l.
Proof.
  unfold sort_siblings. induction l as [|x l IH] using rev_ind; [done|].
  rewrite foldl_app. simpl. rewrite insert_stable_perm, IH. apply Permutation_cons_append.
Qed.

(** Folders as the shelf has them: segments not empty and without a slash. *)
Definition plain (f : FolderPath) : Prop := Forall (λ s, s ≠ [] ∧ "/"%char ∉ s) f.

Lemma plain_snoc p x : plain (p ++ [x]) → plain p.
Proof. by intros [? _]%Forall_app. Qed.
Lemma String_nil f : plain f → String f = [] → f = [].
Proof.
  intros Hf. destruct f as [|s f]; [done|]. apply Forall_cons in Hf as [[Hs _] _]. intros E. exfalso.
  unfold String in E. destruct f as [|t f]; [done|]. change (s ++ str "/" ++ Join (t :: f) (str "/") = []) in E.
  by apply app_nil in E as [? _].
Qed.
Lemma String_inj f g : plain f → plain g → String f = String g → f = g.
Proof.
  intros Hf Hg E. destruct (decide (f = [])) as [->|Hfn]; [symmetry; by apply String_nil|].
  destruct (decide (g = [])) as [->|Hgn]; [by apply String_nil|].
  rewrite <-(Split_Join f "/"%char), <-(Split_Join g "/"%char); try done.
  - f_equal. exact E.
  - eapply Forall_impl; [exact Hg|]. by intros ? [_ ?].
  - eapply Forall_impl; [exact Hf|]. by intros ? [_ ?].
Qed.

Definition kids_of (st : Tree) (p : FolderPath) : list FolderPath := default [] (children st !! String p).
Record tree_ok (st : Tree) : Prop := {
  to_closed p x : plain (p ++ [x]) → String (p ++ [x]) ∈ seen st → p = [] ∨ String p ∈ seen st;
  to_distinct p : plain p → NoDup (kids_of st p);
  to_kids p f : plain p → f ∈ kids_of st p ↔ ∃ x, f = p ++ [x] ∧ plain f ∧ String f ∈ seen st;
}.

Lemma add_ok rf st : plain (rev rf) → tree_ok st →
  tree_ok (add rf st) ∧ seen st ⊆ seen (add rf st) ∧ (rf ≠ [] → String (rev rf) ∈ seen (add rf st)) ∧
  ∀ k, k ∈ seen (add rf st) → k ∈ seen st ∨ ∃ g, g `prefix_of` rev rf ∧ k = String g.
Proof.
  revert st. induction rf as [|x rp IH]; intros st Hf Hst; [simpl; split; [done|]; split; [done|]; split; [done|by left]|].
  cbn [add]. change (rev (x :: rp)) with (rev rp ++ [x]) in *. pose proof (plain_snoc _ _ Hf) as Hp.
  case_decide as Hin; [split; [done|]; split; [done|]; split; [done|by left]|].
  destruct (IH st Hp Hst) as ([Hcl Hnd Hk] & Hsub & Hpar & Hnew). set (p := rev rp) in *. set (st1 := add rp st) in *.
  assert (String (p ++ [x]) ∉ seen st1) as Hfresh.
  { intros Hin1. destruct (Hnew _ Hin1) as [?|(g & [k Hg] & E)]; [done|].
    assert (plain g) as Hgp by (rewrite Hg in Hp; by apply Forall_app in Hp as [? _]).
    apply String_inj in E; [|done|done]. rewrite <-E, <-app_assoc in Hg. apply (f_equal length) in Hg.
    rewrite length_app in Hg. simpl in Hg. lia. }
  split; [split|split; [set_solver|split; [set_solver|]]]; cbn [seen children].
  - intros q y Hq [E|Hin1]%elem_of_union.
    + apply elem_of_singleton, String_inj in E; [|done|done]. apply app_inj_tail in E as [-> ->]. destruct (decide (rp = [])) as [Hr|Hr]; [left; unfold p; by rewrite Hr|].
      right. set_solver.
    + destruct (Hcl q y Hq Hin1) as [?|?]; [by left|right; set_solver].
  - intros q Hq. unfold kids_of. cbn [children]. destruct (decide (String q = String p)) as [E|E].
    + rewrite E, lookup_insert_eq. simpl. apply NoDup_app. split; [by apply Hnd|]. split; [|apply NoDup_singleton].
      intros f Hf1 ->%list_elem_of_singleton. apply Hk in Hf1 as (y & _ & _ & ?); done.
    + rewrite lookup_insert_ne by done. by apply Hnd.
  - intros q f Hq. unfold kids_of. cbn [children]. destruct (decide (q = p)) as [->|Hne].
    + rewrite lookup_insert_eq. simpl. fold (kids_of st1 p). rewrite elem_of_app, list_elem_of_singleton, Hk by done. split.
      * intros [(y & -> & ? & ?)| ->]; [exists y; set_solver|exists x; set_solver].
      * intros (y & -> & Hfp & [E|Hin1]%elem_of_union); [right|left; eauto].
        by apply elem_of_singleton, String_inj in E.
    + rewrite lookup_insert_ne by (intros E%String_inj; congruence). fold (kids_of st1 q). rewrite Hk by done. split.
      * intros (y & -> & ? & ?). exists y. set_solver.
      * intros (y & -> & Hfp & [E|Hin1]%elem_of_union); [|eauto]. apply elem_of_singleton, String_inj in E; try done.
        by apply app_inj_tail in E as [-> _].
  - intros k [->%elem_of_singleton|Hin1]%elem_of_union; [right; by exists (p ++ [x])|].
    destruct (Hnew k Hin1) as [?|(g & Hg & ->)]; [by left|right]. exists g. split; [by apply prefix_app_r|done].
Qed.

Lemma build_ok folders : Forall plain folders →
  tree_ok (build folders) ∧ ∀ f, f ∈ folders → f ≠ [] → String f ∈ seen (build folders).
Proof.
  unfold build. induction folders as [|f l IH] using rev_ind.
  { intros _. split; [split|by intros f ?%elem_of_nil].
    - intros p x _ Hin. set_solver.
    - intros p _. constructor.
    - intros p f _. change (kids_of (foldl _ _ []) p) with (@nil FolderPath). set_solver. }
  intros [Hl Hf]%Forall_app. apply Forall_cons in Hf as [Hf _]. destruct (IH Hl) as [Hok Hin]. rewrite foldl_app. simpl.
  destruct (add_ok (rev f) _ ltac:(by rewrite rev_involutive) Hok) as (Hok' & Hsub & Hself & _).
  rewrite rev_involutive in Hself. split; [done|]. intros g [Hg| ->%list_elem_of_singleton]%elem_of_app Hne; [set_solver|].
  apply Hself. intros E. apply Hne. by rewrite <-(rev_involutive f), E.
Qed.

Lemma prefix_closed st (Hst : tree_ok st) p q : plain (p ++ q) → p ≠ [] → String (p ++ q) ∈ seen st → String p ∈ seen st.
Proof.
  induction q as [|x q IH] using rev_ind; [by rewrite app_nil_r|]. rewrite app_assoc. intros Hp Hne Hin.
  destruct (to_closed st Hst _ _ Hp Hin) as [[? _]%app_nil|Hin']; [done|]. apply IH; try done. by eapply plain_snoc.
Qed.

Lemma foldl_bind {A B : Type} (g : A → list B) l acc : foldl (λ r x, r ++ g x) acc l = acc ++ (l ≫= g).
Proof.
  revert acc. induction l as [|x l IH]; intros acc; [by rewrite app_nil_r|]. simpl. rewrite IH. by rewrite app_assoc.
Qed.

Section visits.
Context (metas : gmap bytes FolderMeta) (present : gset bytes) (st : Tree) (Hst : tree_ok st).

Definition piece (n : nat) (c : FolderPath) : list FolderPath :=
  (if decide (String c ∈ present) then [c] else []) ++ visit metas present (children st) n (String c).

Lemma visit_step n p : visit metas present (children st) (S n) (String p) =
  sort_siblings metas (kids_of st p) ≫= piece n.
Proof. cbn [visit]. change (default [] (children st !! String p)) with (kids_of st p). apply (foldl_bind (piece n) _ []). Qed.

Lemma visit_ok n p : plain p →
  NoDup (visit metas present (children st) n (String p)) ∧
  ∀ f, f ∈ visit metas present (children st) n (String p) ↔
    plain f ∧ String f ∈ present ∧ String f ∈ seen st ∧ (∃ x q, f = p ++ x :: q) ∧ length f ≤ length p + n.
Proof.
  revert p. induction n as [|n IH]; intros p Hp.
  { simpl. split; [constructor|]. intros f. rewrite elem_of_nil. split; [done|].
    intros (_ & _ & _ & (x & q & ->) & Hl). rewrite length_app in Hl. simpl in Hl. lia. }
  rewrite visit_step.
  assert (∀ c, c ∈ sort_siblings metas (kids_of st p) ↔ ∃ x, c = p ++ [x] ∧ plain c ∧ String c ∈ seen st) as Hkids.
  { intros c. rewrite sort_siblings_perm. by apply to_kids. }
  assert (∀ c f, plain c → f ∈ piece n c → plain f ∧ String f ∈ present ∧ (f = c ∨ String f ∈ seen st) ∧
    (∃ q, f = c ++ q) ∧ length f ≤ length c + n) as Hpiece.
  { intros c f Hc [Hf|Hf]%elem_of_app.
    - case_decide; [|set_solver]. apply list_elem_of_singleton in Hf as ->. split; [done|]. split; [done|].
      split; [by left|]. split; [exists []; by rewrite app_nil_r|lia].
    - apply (IH c Hc) in Hf as (? & ? & ? & (x & q & ->) & ?). split; [done|]. split; [done|]. split; [by right|].
      split; [by exists (x :: q)|done]. }
  split.
  - apply NoDup_bind.
    + intros c c' f (x & -> & Hc & _)%Hkids (x' & -> & Hc' & _)%Hkids Hf Hf'.
      apply (Hpiece _ _ Hc) in Hf as (_ & _ & _ & (q & ->) & _).
      apply (Hpiece _ _ Hc') in Hf' as (_ & _ & _ & (q' & E) & _).
      rewrite <-!app_assoc in E. apply app_inv_head in E. simpl in E. by injection E as ->.
    + intros c (x & -> & Hc & _)%Hkids. destruct (IH _ Hc) as [Hn Hin]. unfold piece. apply NoDup_app.
      split; [case_decide; [apply NoDup_singleton|constructor]|]. split; [|done]. intros f Hf Hf'.
      apply Hin in Hf' as (_ & _ & _ & (y & q & E) & _). case_decide; [|set_solver].
      apply list_elem_of_singleton in Hf as ->. apply (f_equal length) in E. rewrite !length_app in E. simpl in E. lia.
    + rewrite sort_siblings_perm. by apply to_distinct.
  - intros f. rewrite list_elem_of_bind. split.
    + intros (c & Hf & (x & -> & Hc & Hin)%Hkids). apply (Hpiece _ _ Hc) in Hf as (Hfp & Hpr & Hs & (q & ->) & Hl).
      split; [done|]. split; [done|]. split; [destruct Hs as [-> |]; done|]. rewrite <-!app_assoc in *. simpl in *.
      split; [eauto|]. rewrite !length_app in *. simpl in *. lia.
    + intros (Hfp & Hpr & Hs & (x & q & ->) & Hl). assert (p ++ x :: q = (p ++ [x]) ++ q) as E by (by rewrite <-app_assoc).
      assert (plain (p ++ [x])) as Hc by (rewrite E in Hfp; by apply Forall_app in Hfp as [? _]).
      exists (p ++ [x]). split.
      * unfold piece. rewrite elem_of_app. destruct q as [|y q]; [left; rewrite decide_True by done; by left|right].
        apply (IH _ Hc). rewrite !length_app in *. simpl in *.
        split; [done|]. split; [done|]. split; [done|]. split; [eauto|lia].
      * apply Hkids. exists x. split; [done|]. split; [done|]. apply (prefix_closed st Hst _ q); [by rewrite <-E|by destruct p|by rewrite <-E].
Qed.
End visits.

Lemma depth_ge f folders : f ∈ folders → length f ≤ depth folders.
Proof. intros Hf. apply max_list_elem_of_le, list_elem_of_fmap. eauto. Qed.

(** listing the folders with their sort keys loses none and lists
    none twice, however deep they lie and whatever the keys are: the result is
    the folders of the cache in another order. *)
Theorem sortFolderSiblings_permutes folders metas : Forall plain folders → NoDup folders →
  sortFolderSiblings folders metas ≡ₚ folders.
Proof.
  intros Hp Hn. unfold sortFolderSiblings. destruct (existsb _ folders); [|done]. cbn [negb]. cbv zeta.
  set (present := list_to_set (String <$> folders) : gset bytes).
  destruct (build_ok folders Hp) as [Hok Hin]. rewrite Forall_forall in Hp.
  destruct (visit_ok metas present (build folders) Hok (S (depth folders)) [] ltac:(constructor)) as [Hvn Hv].
  change (String []) with ([] : bytes) in *.
  assert (∀ f, plain f → String f ∈ present ↔ f ∈ folders) as Hpres.
  { intros f Hf. unfold present. rewrite elem_of_list_to_set, list_elem_of_fmap. split; [|eauto].
    intros (g & E & Hg). apply String_inj in E as ->; auto. }
  assert ([] ∈ present ↔ [] ∈ folders) as Hroot by (apply (Hpres []); constructor).
  set (result := (if decide ([] ∈ present) then [[]] else []) ++ visit _ _ _ _ _).
  assert (result ≡ₚ folders) as Hr.
  { apply NoDup_Permutation; [|done|].
    - apply NoDup_app. split; [case_decide; [apply NoDup_singleton|constructor]|]. split; [|done].
      intros f Hf (_ & _ & _ & (x & q & ->) & _)%Hv. case_decide; set_solver.
    - intros f. unfold result. rewrite elem_of_app, Hv. split.
      + intros [Hf|(Hf & Hpf & _)]; [|by apply Hpres]. case_decide; [|set_solver].
        apply list_elem_of_singleton in Hf as ->. by apply Hroot.
      + intros Hf. pose proof (Hp f Hf) as Hpf. destruct f as [|x q]; [left|right].
        { rewrite decide_True by (by apply Hroot). by left. }
        split; [done|]. split; [by apply Hpres|]. split; [by apply Hin|]. split; [by exists x, q|].
        pose proof (depth_ge _ _ Hf). simpl in *. lia. }
  rewrite drop_ge by (by rewrite Hr). by rewrite app_nil_r.
Qed.

End Listing.

(** * Rescans asked for by clients: [src/shelf/shelf_rescan.go]

    A client may ask a shelf to walk its directory. One walk runs at a time,
    and a bucket of tokens bounds how often clients are served: a rescan takes
    a token, a token comes back every ten seconds, at most five wait. The
    claim and the tokens are part of the book cache. *)

Module Rescan.
Import ShelfUtil BookMeta Book FolderMeta Shelf Listing.

Definition with_rescanID (id : bytes) (c : bookCache) : bookCache :=
  mkBookCache (cache c) (cfolders c) (folderMeta c) (treeDirty c) (lastFullScan c) (lastScanStart c)
    (scanInterval c) (lastBookCheck c) (bookCheckInterval c) id (rescanTokens c) (rescanTokensAt c)
    (lastExport c) (lastExportDigest c) (remoteDigest c).
Definition with_tokens (n : F64.float64) (t : Z) (c : bookCache) : bookCache :=
  mkBookCache (cache c) (cfolders c) (folderMeta c) (treeDirty c) (lastFullScan c) (lastScanStart c)
    (scanInterval c) (lastBookCheck c) (bookCheckInterval c) (rescanID c) n t
    (lastExport c) (lastExportDigest c) (remoteDigest c).

(** [time.Time.Sub]: the difference saturates. *)
Definition Sub (t u : Z) : Z := Z.max (- 2 ^ 63) (Z.min MaxInt (t - u)).

(** [func (c *bookCache) refillSince(now time.Time)] *)
Definition refillSince (now : Z) (c : bookCache) : bookCache :=
  let elapsed := Sub now (rescanTokensAt c) in
  if (elapsed <=? 0)%Z then c else
  with_tokens (F64.fmin (F64.of_int rescanBurst)
    (F64.add (rescanTokens c) (F64.div (F64.of_int elapsed) (F64.of_int rescanRefill)))) now c.

(** [func (c *bookCache) takeRescanTokenLocked(now time.Time) time.Duration];
    the conversion of a float to an integer truncates. *)
Definition takeRescanTokenLocked (now : Z) (c : bookCache) : Z * bookCache :=
  let c := refillSince now c in
  if F64.ltb (rescanTokens c) F64.one
  then (default 0%Z (F64.trunc (F64.mul (F64.sub F64.one (rescanTokens c)) (F64.of_int rescanRefill))), c)
  else (0%Z, with_tokens (F64.sub (rescanTokens c) F64.one) (rescanTokensAt c) c).

(** [type rescanClaim]; why [beginRescan] refuses a rescan, if it does. *)
Record rescanClaim := mkClaim { scanID : bytes; runningID : bytes; retryAfter : Z }.
Definition refusal (now : Z) (rateLimited : bool) (c : bookCache) : option rescanClaim * bookCache :=
  if decide (rescanID c ≠ []) then (Some (mkClaim [] (rescanID c) 0), c) else
  let '(wait, c) := if rateLimited then takeRescanTokenLocked now c else (0%Z, c) in
  ((if (0 <? wait)%Z then Some (mkClaim [] [] wait) else None), c).

(** [type RescanResult] *)
Record RescanResult := mkResult {
  RID : bytes;
  StartedAt : Z;
  BookCount : nat;
  FolderCount : nat;
  RetryAfter : Z;
}.
Definition noResult : RescanResult := mkResult [] zero_time 0 0 0.

Section ops.
Context `{UnicodeCase, TimeText, Machine, Digest, ShelfEnv}.

(** [func (s *Shelf) beginRescan] and [endRescan] *)
Definition beginRescan (now : Z) (rateLimited : bool) : M Shelf rescanClaim :=
  c ← gets bcache;
  let '(refused, c) := refusal now rateLimited c in
  modify (set_cache c);;
  match refused with
  | Some r => mret r
  | None =>
      drawn ← lift (Atomic.RandomString 12);
      update_cache (with_rescanID drawn);;
      mret (mkClaim drawn [] 0)
  end.
Definition endRescan : M Shelf unit := update_cache (with_rescanID []).

(** The walk of a claimed rescan. *)
Definition scan_claimed (scanID : bytes) : M Shelf RescanResult :=
  rlocked (
    scanToBookCache;;
    c ← gets bcache;
    mret (mkResult scanID (lastScanStart c) (size (cache c)) (length (cfolders c)) 0)).

(** [func (s *Shelf) rescan]: the result is returned beside the error. *)
Definition rescan (rateLimited : bool) : M Shelf (RescanResult * option error) :=
  ok ← IsReady;
  if negb ok then mret (noResult, Some ErrShelfInitializing) else
  t ← lift now;
  c ← beginRescan t rateLimited;
  if decide (runningID c ≠ []) then mret (mkResult (runningID c) zero_time 0 0 0, Some ErrRescanInProgress) else
  if (0 <? retryAfter c)%Z
  then mret (mkResult [] zero_time 0 0 (retryAfter c), Some ErrRescanRateLimited) else
  r ← try (deferred (scan_claimed (scanID c)) endRescan);
  mret (match r with Ok r => (r, None) | Err e => (noResult, Some e) end).
Definition Rescan : M Shelf (RescanResult * option error) := rescan true.
Definition RescanUnthrottled : M Shelf (RescanResult * option error) := rescan false.
End ops.
End Rescan.
