(* ===== verification/Visibility.v ===== *)
(** * What a client may see: [src/server/visibility.go], [src/server/task/visible_books.go]

    With the setting [show_nsfw] off, books the shelf marks as adult content
    are left out of listings, and so are their folders; a folder may not be
    moved out of a marked place unnoticed. *)

From S2P Require Import Prelude Utf8 Strings Float64 Json Fs FsSpec Atomic ShelfUtil BookMeta Source Frame ScanCache FolderMeta Book ShelfState Trash Listing.

Module Visibility.
Import ShelfUtil BookMeta Book FolderMeta Shelf Listing.

(** ** [visible_books.go] *)
Record VisibleBooks := mkVisible { all : bool; ids : gset bytes }.
Definition AllBooks : VisibleBooks := mkVisible true ∅.
Definition OnlyBooks (l : list bytes) : VisibleBooks := mkVisible false (list_to_set l).
Definition Allows (v : VisibleBooks) (bookID : bytes) : bool := all v || bool_decide (bookID ∈ ids v).
Definition Only (v : VisibleBooks) (books : list Book) : list Book :=
  if all v then books else filter (λ b, Allows v (ID (meta b)) = true) books.

Section rules.
Context `{UnicodeCase}.

(** [bookVisibility] is the pair of the shelf, here the state, and
    [showNSFW]. *)
Definition allows (s : Shelf) (showNSFW : bool) (folders : FolderPath) (m : option BookMeta) : bool :=
  showNSFW || negb (IsBookNSFW s folders m).
Definition allowsListing (s : Shelf) (showNSFW : bool) (l : BookListing) : bool :=
  allows s showNSFW (LFolders l) (Some (meta (LBook l))).
Definition allowsTrashed (showNSFW : bool) (b : Trash.TrashedBook) : bool := showNSFW || negb (Trash.TNSFW b).
Definition keep (s : Shelf) (showNSFW : bool) (listings : list BookListing) : list BookListing :=
  if showNSFW then listings else filter (λ l, allowsListing s showNSFW l = true) listings.

(** [type occupiedFolders] *)
Definition occupiedFolders := gset bytes.
Definition occ_add (o : occupiedFolders) (folders : FolderPath) : occupiedFolders :=
  foldl (λ o depth, {[String (take depth folders)]} ∪ o) o (seq 0 (length folders + 1)).
Definition holds (o : occupiedFolders) (folder : FolderPath) : bool := bool_decide (String folder ∈ o).
Definition occupied (ls : list FolderPath) : occupiedFolders := foldl occ_add ∅ ls.

(** [folderReveal] and [folderChange] *)
Record folderReveal := mkReveal { Books : nat; Folders : nat }.
Definition any (r : folderReveal) : bool := (0 <? Books r) || (0 <? Folders r).
Record folderChange := mkChange { From : FolderPath; To : FolderPath; leavesShelf : bool }.
Definition folderMovedTo (from to : FolderPath) : folderChange := mkChange from to false.
Definition folderLeavingTheShelf (from : FolderPath) : folderChange := mkChange from [] true.
Definition stillMarked (c : folderChange) (s : Shelf) (folders : FolderPath) (m : option BookMeta) : bool :=
  if leavesShelf c then match m with Some m => NSFW m | None => false end
  else IsBookNSFW s (To c ++ drop (length (From c)) folders) m.
Definition couldReveal (s : Shelf) (showNSFW : bool) : bool := negb showNSFW && MarksFolders s.

(** The loops of [filterFolders] and [revealedBy] over the listings and
    folders they have read. *)
Definition visible_folders (s : Shelf) (listings : list BookListing) (folders : list FolderPath) : list FolderPath :=
  let holdsBook := occupied (LFolders <$> listings) in
  let holdsVisibleBook := occupied (LFolders <$> filter (λ l, allowsListing s false l = true) listings) in
  filter (λ folder, ShelfIsNSFWFolder s folder = false ∧
    (holds holdsBook folder = true → holds holdsVisibleBook folder = true)) folders.
Definition revealed_books (s : Shelf) (c : folderChange) (listings : list BookListing) : nat :=
  length (filter (λ l, FPHasPrefix (LFolders l) (From c) = true ∧
    allows s false (LFolders l) (Some (meta (LBook l))) = false ∧
    stillMarked c s (LFolders l) (Some (meta (LBook l))) = false) listings).
Definition revealed_folders (s : Shelf) (c : folderChange) (listings : list BookListing) (folders : list FolderPath) : nat :=
  let holdsBook := occupied (LFolders <$> filter (λ l, FPHasPrefix (LFolders l) (From c) = true) listings) in
  length (filter (λ sub, FPHasPrefix sub (From c) = true ∧ ShelfIsNSFWFolder s sub = true ∧
    stillMarked c s sub None = false ∧ holds holdsBook sub = false) folders).
End rules.

Section ops.
Context `{UnicodeCase, TimeText, Machine, Digest, ShelfEnv}.

(** [listBooks], [visibleBooks], [filterFolders] and [revealedBy] *)
Definition listBooks (showNSFW : bool) : M Shelf (list BookListing) :=
  listings ← ListBooksWithCharCount;
  s ← gets id;
  mret (keep s showNSFW listings).
Definition visibleBooks (showNSFW : bool) : M Shelf VisibleBooks :=
  if showNSFW then mret AllBooks else
  listings ← listBooks showNSFW;
  mret (OnlyBooks ((λ l, ID (meta (LBook l))) <$> listings)).
Definition filterFolders (showNSFW : bool) (folders : list FolderPath) : M Shelf (list FolderPath) :=
  if showNSFW then mret folders else
  listings ← ListBooksWithCharCount;
  s ← gets id;
  mret (visible_folders s listings folders).
Definition revealedBy (showNSFW : bool) (c : folderChange) : M Shelf folderReveal :=
  s ← gets id;
  if negb (couldReveal s showNSFW) then mret (mkReveal 0 0) else
  listings ← ListBooksWithCharCount;
  folders ← GetAllFolders;
  s ← gets id;
  if negb (leavesShelf c) && existsb (Equal (To c)) folders then mret (mkReveal 0 0) else
  mret (mkReveal (revealed_books s c listings) (revealed_folders s c listings folders)).
End ops.

(** ** Marks go down the tree *)
Section laws.
Context `{UnicodeCase}.

Lemma Match_loop_below r key f g : is_Some (Match_loop r key f) → is_Some (Match_loop r key (f ++ g)).
Proof.
  revert key. induction f as [|x f IH]; intros key; [by intros []|]. cbn [Match_loop app]. cbv zeta.
  destruct (r !! _); [eauto|]. apply IH.
Qed.
Lemma NSFW_below s f g : ShelfIsNSFWFolder s f = true → ShelfIsNSFWFolder s (f ++ g) = true.
Proof.
  unfold ShelfIsNSFWFolder, IsNSFWFolder. rewrite !bool_decide_eq_true. unfold Match. case_decide; [by intros []|].
  apply Match_loop_below.
Qed.
Lemma unmarked_above s f g : ShelfIsNSFWFolder s (f ++ g) = false → ShelfIsNSFWFolder s f = false.
Proof. intros Hn. destruct (ShelfIsNSFWFolder s f) eqn:E; [|done]. by rewrite (NSFW_below s f g E) in Hn. Qed.

Lemma elem_of_occ_add o f k : k ∈ occ_add o f ↔ k ∈ o ∨ ∃ p, p `prefix_of` f ∧ k = String p.
Proof.
  unfold occ_add. assert (∀ l, k ∈ foldl (λ o depth, {[String (take depth f)]} ∪ o) o l ↔
    k ∈ o ∨ ∃ d, d ∈ l ∧ k = String (take d f)) as ->.
  { induction l as [|d l IH] using rev_ind; [split; [by left|intros [?|(d & Hd & _)]; [done|set_solver]]|].
    rewrite foldl_app. simpl. set_unfold. rewrite IH. naive_solver. }
  f_equiv. split.
  - intros (d & _ & ->). exists (take d f). split; [apply prefix_take|done].
  - intros (p & [q ->] & ->). exists (length p). rewrite elem_of_seq, length_app, take_app_length. split; [lia|done].
Qed.

Lemma elem_of_occupied ls k : k ∈ occupied ls ↔ ∃ f p, f ∈ ls ∧ p `prefix_of` f ∧ k = String p.
Proof.
  unfold occupied. induction ls as [|f ls IH] using rev_ind; [set_solver|].
  rewrite foldl_app. simpl. rewrite elem_of_occ_add, IH. set_unfold. split.
  - intros [(g & p & ? & ?)|(p & ? & ?)]; [exists g, p; naive_solver|exists f, p; naive_solver].
  - intros (g & p & [?|[-> |[]]] & ? & ?); [left; eauto|right; eauto].
Qed.

Lemma plain_prefix p f : p `prefix_of` f → plain f → plain p.
Proof. intros [q ->]. by intros [? _]%Forall_app. Qed.

(** A folder holds a book when a book lies in it or below it. *)
Lemma holds_occupied ls folder : Forall plain ls → plain folder →
  holds (occupied ls) folder = true ↔ ∃ f, f ∈ ls ∧ folder `prefix_of` f.
Proof.
  intros Hl Hf. unfold holds. rewrite bool_decide_eq_true, elem_of_occupied. rewrite Forall_forall in Hl. split.
  - intros (f & p & Hin & Hp & E). apply String_inj in E as ->; [eauto|done|]. by eapply plain_prefix, Hl.
  - intros (f & Hin & Hp). by exists f, folder.
Qed.

Lemma HasPrefix_spec f p : FPHasPrefix f p = true ↔ p `prefix_of` f.
Proof.
  unfold FPHasPrefix. rewrite andb_true_iff, Nat.leb_le, bool_decide_eq_true. split.
  - intros [_ E]. exists (drop (length p) f). rewrite <-E at 1. by rewrite take_drop.
  - intros [q ->]. rewrite length_app, take_app_length. split; [lia|done].
Qed.

(** The folders a client is shown. *)
Definition shown (s : Shelf) (listings : list BookListing) (folder : FolderPath) : Prop :=
  ShelfIsNSFWFolder s folder = false ∧
  ((∃ l, l ∈ listings ∧ folder `prefix_of` LFolders l) →
   ∃ l, l ∈ listings ∧ folder `prefix_of` LFolders l ∧ allowsListing s false l = true).

Lemma visible_folders_spec s listings folders folder :
  Forall plain (LFolders <$> listings) → plain folder →
  folder ∈ visible_folders s listings folders ↔ folder ∈ folders ∧ shown s listings folder.
Proof.
  intros Hl Hf. unfold visible_folders, shown. cbv zeta. rewrite list_elem_of_filter.
  assert (Forall plain (LFolders <$> filter (λ l, allowsListing s false l = true) listings)) as Hl'.
  { apply Forall_forall. intros f (l & -> & [_ Hin]%list_elem_of_filter)%list_elem_of_fmap.
    rewrite Forall_forall in Hl. apply Hl, list_elem_of_fmap. eauto. }
  rewrite !holds_occupied by done.
  assert (∀ ls : list BookListing, (∃ f, f ∈ LFolders <$> ls ∧ folder `prefix_of` f) ↔
    ∃ l, l ∈ ls ∧ folder `prefix_of` LFolders l) as Hmap.
  { intros ls. split; [intros (f & (l & -> & ?)%list_elem_of_fmap & ?); eauto|].
    intros (l & ? & ?). exists (LFolders l). split; [apply list_elem_of_fmap; eauto|done]. }
  rewrite !Hmap. setoid_rewrite list_elem_of_filter. naive_solver.
Qed.
End laws.

Section claims.
Context `{UnicodeCase, TimeText, Machine, Digest, ShelfEnv}.

(** What a listing returns is the cache as it is afterwards. *)
Lemma ready_reads {A : Type} (f : bookCache → A) (s s' : Shelf) (a : A) :
  ready_or_error (scheduleBookCacheRefreshIfNeeded;; gets (λ s, f (bcache s))) s = (Ok a, s') → a = f (bcache s').
Proof.
  unfold ready_or_error. unfold mbind, M_bind, IsReady, gets. destruct (ready s); [|done].
  unfold rlocked, deferred. unfold mbind, M_bind. destruct (RLock s) as [[[]|e] s1]; [|done].
  destruct (scheduleBookCacheRefreshIfNeeded s1) as [[[]|e] s2]; [|done]. by intros [= <- <-].
Qed.

(** what a client is shown of the folders is exactly what it may
    see. With [show_nsfw] off a listing keeps, in its order, the folders that
    are not marked and not filled with hidden books alone; so no marked folder
    is shown, and every folder on the way to a book the client may see is,
    even when hidden books lie beside it. *)
Theorem filterFolders_shown folders s kept s' :
  filterFolders false folders s = (Ok kept, s') →
  let listings := listBookListingsFromCache (bcache s') in
  Forall plain (LFolders <$> listings) → Forall plain folders →
  kept `sublist_of` folders ∧
  (∀ f, f ∈ kept ↔ f ∈ folders ∧ shown s' listings f) ∧
  (∀ f g, f ∈ kept → g `prefix_of` f → ShelfIsNSFWFolder s' g = false) ∧
  (∀ l f, l ∈ keep s' false listings → f `prefix_of` LFolders l → f ∈ folders → f ∈ kept).
Proof.
  unfold filterFolders. unfold mbind, M_bind, mret, M_ret, gets.
  destruct (ListBooksWithCharCount s) as [[ls|e] s1] eqn:El; [|done]. simpl. intros [= <- <-].
  apply ready_reads in El as ->. intros Hl Hf.
  assert (∀ f, f ∈ folders → f ∈ visible_folders s1 (listBookListingsFromCache (bcache s1)) folders ↔
    shown s1 (listBookListingsFromCache (bcache s1)) f) as Hin.
  { intros f Hff. rewrite Forall_forall in Hf. rewrite visible_folders_spec by auto. tauto. }
  assert (∀ f, f ∈ visible_folders s1 (listBookListingsFromCache (bcache s1)) folders → f ∈ folders) as Hsub.
  { intros f. unfold visible_folders. by intros [_ ?]%list_elem_of_filter. }
  split; [apply sublist_filter|]. split; [|split].
  - intros f. split; [intros Hk; split; [by apply Hsub|apply Hin; auto]|intros [? ?]; by apply Hin].
  - intros f g Hk [q ->]. apply Hin in Hk as [Hk _]; [by apply unmarked_above in Hk|by apply Hsub].
  - intros l f Hk Hp Hff. apply Hin; [done|]. unfold keep in Hk. apply list_elem_of_filter in Hk as [Hk Hl']. split.
    + destruct Hp as [q E]. unfold allowsListing, allows, IsBookNSFW in Hk. rewrite E in Hk. simpl in Hk.
      destruct (NSFW (meta (LBook l))); [done|]. apply negb_true_iff in Hk. by apply unmarked_above in Hk.
    + intros _. eauto.
Qed.

(** A change takes nothing the client is not shown out of its marked place. *)
Definition nothing_revealed (s : Shelf) (c : folderChange) (listings : list BookListing) (folders : list FolderPath) : Prop :=
  (∀ l, l ∈ listings → From c `prefix_of` LFolders l → allowsListing s false l = false →
     stillMarked c s (LFolders l) (Some (meta (LBook l))) = true) ∧
  (∀ sub, sub ∈ folders → From c `prefix_of` sub → ShelfIsNSFWFolder s sub = true →
     (∀ l, l ∈ listings → ¬ sub `prefix_of` LFolders l) → stillMarked c s sub None = true).

Lemma filter_none {A : Type} (P : A → Prop) `{∀ x, Decision (P x)} (l : list A) :
  length (filter P l) = 0 ↔ ∀ x, x ∈ l → ¬ P x.
Proof.
  rewrite length_zero_iff_nil. split.
  - intros E x Hx Hp. assert (x ∈ filter P l) as Hin by (by apply list_elem_of_filter). rewrite E in Hin. set_solver.
  - intros Hn. apply filter_nothing, Forall_forall. intros x Hx. by apply Hn.
Qed.

Lemma and_iff_compat (P P' Q Q' : Prop) : (P ↔ P') → (Q ↔ Q') → P ∧ Q ↔ P' ∧ Q'.
Proof. tauto. Qed.

Lemma revealed_none s c listings folders :
  Forall plain (LFolders <$> listings) → Forall plain folders →
  any (mkReveal (revealed_books s c listings) (revealed_folders s c listings folders)) = false ↔
  nothing_revealed s c listings folders.
Proof.
  intros Hl Hf. unfold any. cbn [Books Folders]. rewrite orb_false_iff, !Nat.ltb_ge, !Nat.le_0_r.
  unfold revealed_books, revealed_folders, nothing_revealed. rewrite !filter_none.
  rewrite Forall_forall in Hf.
  assert (Forall plain (LFolders <$> filter (λ l, FPHasPrefix (LFolders l) (From c) = true) listings)) as Hl'.
  { apply Forall_forall. intros f (l & -> & [_ Hin]%list_elem_of_filter)%list_elem_of_fmap.
    rewrite Forall_forall in Hl. apply Hl, list_elem_of_fmap. eauto. }
  assert (∀ sub, sub ∈ folders → From c `prefix_of` sub →
    holds (occupied (LFolders <$> filter (λ l, FPHasPrefix (LFolders l) (From c) = true) listings)) sub = false ↔
    ∀ l, l ∈ listings → ¬ sub `prefix_of` LFolders l) as Hh.
  { intros sub Hs Hp. rewrite <-not_true_iff_false, holds_occupied by auto. split.
    - intros Hn l Hin Hpl. apply Hn. exists (LFolders l). split; [|done]. apply list_elem_of_fmap. exists l.
      split; [done|]. apply list_elem_of_filter. split; [|done]. apply HasPrefix_spec. by etrans.
    - intros Hn (f & (l & -> & [_ Hin]%list_elem_of_filter)%list_elem_of_fmap & Hpf). by apply (Hn l). }
  apply and_iff_compat.
  - apply forall_proper. intros l. unfold allowsListing. rewrite HasPrefix_spec. destruct (stillMarked _ _ _ _); naive_solver.
  - apply forall_proper. intros sub. rewrite HasPrefix_spec. split.
    + intros Hn Hin Hp Hm Hno. destruct (stillMarked c s sub None) eqn:E; [done|]. exfalso.
      apply (Hn Hin). split; [done|]. split; [done|]. split; [done|]. by apply Hh.
    + intros Hn Hin (Hp & Hm & Hs & Hno). rewrite Hn in Hs; [done..|]. by apply Hh.
Qed.

Lemma unmarked_shelf s c listings folders : MarksFolders s = false → nothing_revealed s c listings folders.
Proof.
  unfold MarksFolders, HasFolders. rewrite bool_decide_eq_false. intros Hz.
  assert (∀ f, ShelfIsNSFWFolder s f = false) as Hn.
  { intros f. unfold ShelfIsNSFWFolder, IsNSFWFolder, Match. rewrite decide_True by lia.
    apply bool_decide_eq_false. by intros [? ?]. }
  split; [|intros sub _ _ Hs; by rewrite Hn in Hs].
  intros l _ _ Ha. unfold allowsListing, allows, IsBookNSFW in Ha. unfold stillMarked, IsBookNSFW.
  destruct (NSFW (meta (LBook l))) eqn:E; [by destruct (leavesShelf c)|]. by rewrite Hn in Ha.
Qed.

(** a folder is not moved out of hiding unnoticed. With [show_nsfw]
    off, the check a rename or a move asks answers "nothing revealed" exactly
    when every hidden book under the folder stays hidden where it would go and
    so does every marked folder without books; the only other case is a target
    that exists already, to which the change fails anyway. *)
Theorem revealedBy_exact c s r s' :
  revealedBy false c s = (Ok r, s') →
  (MarksFolders s = false ∧ s' = s ∧ any r = false ∧ ∀ listings folders, nothing_revealed s c listings folders) ∨
  ∃ listings folders s1, ListBooksWithCharCount s = (Ok listings, s1) ∧ GetAllFolders s1 = (Ok folders, s') ∧
    (Forall plain (LFolders <$> listings) → Forall plain folders →
     (leavesShelf c = false ∧ To c ∈ folders ∧ any r = false) ∨
     (any r = false ↔ nothing_revealed s' c listings folders)).
Proof.
  unfold revealedBy. unfold mbind, M_bind, mret, M_ret, gets. cbn [id]. unfold couldReveal. cbn [negb andb].
  destruct (MarksFolders s) eqn:Em; cbn [negb].
  2: { intros [= <- <-]. left. split; [done|]. split; [done|]. split; [done|]. intros ls fs. by apply unmarked_shelf. }
  destruct (ListBooksWithCharCount s) as [[ls|e] s1] eqn:El; [|done].
  destruct (GetAllFolders s1) as [[fs|e] s2] eqn:Ef; [|done]. intros Hr. right. exists ls, fs, s1.
  assert (s2 = s' ∧ r = if negb (leavesShelf c) && existsb (Equal (To c)) fs then mkReveal 0 0
    else mkReveal (revealed_books s2 c ls) (revealed_folders s2 c ls fs)) as [-> ->].
  { destruct (negb _ && _); by injection Hr as <- <-. }
  split; [done|]. split; [done|]. intros Hl Hf. destruct (negb (leavesShelf c) && _) eqn:Ec.
  - left. apply andb_prop in Ec as [Ec Ex]. split; [by apply negb_true_iff|]. split; [|done].
    apply existsb_exists in Ex as (f & Hin & Eq). unfold Equal in Eq. apply bool_decide_eq_true in Eq as ->.
    by apply list_elem_of_In.
  - right. by apply revealed_none.
Qed.
End claims.
End Visibility.
