(* ===== verification/Http.v ===== *)
(** * Requests, responses and errors of the HTTP server:
    [src/server/httpx.go], [pathvalue.go] and [apierr.go]

    A request is what the handlers read of an [http.Request]: the method, the
    path as the segments [ServeMux] sees (the path is cut at its slashes, then
    each segment is unescaped), the headers, the query and the body. A
    response is a status, the headers set and a payload; the payloads are the
    values the handlers encode, and the wording of messages is left out. *)

From S2P Require Import Prelude Utf8 Strings Float64 Json Fs ShelfUtil BookMeta Source Trash.

Module Http.

(** ** Requests *)

(** What reading the body gives: its content, or one of its failures
    ([http.MaxBytesReader]'s and the connection's). *)
Inductive body := Body (c : content) | TooLarge | Broken.

Record Request := mkRequest {
  Method : bytes;
  Segments : list bytes;
  Header : bytes → bytes;
  Query : bytes → bytes;
  RBody : body;
}.
(** [r.URL.Path] *)
Definition slash : bytes := str "/".
Definition Path (r : Request) : bytes := slash ++ Join (Segments r) slash.

Definition GET : bytes := str "GET".
Definition HEAD : bytes := str "HEAD".
Definition POST : bytes := str "POST".
Definition PUT : bytes := str "PUT".
Definition PATCH : bytes := str "PATCH".
Definition DELETE : bytes := str "DELETE".
Definition OPTIONS : bytes := str "OPTIONS".

(** [url.PathUnescape]: [%] and two hexadecimal digits stand for a byte. *)
Definition unhex (c : ascii) : option Z :=
  let v := byte_val c in
  if ((48 <=? v) && (v <=? 57))%Z then Some (v - 48)%Z else
  if ((97 <=? v) && (v <=? 102))%Z then Some (v - 87)%Z else
  if ((65 <=? v) && (v <=? 70))%Z then Some (v - 55)%Z else None.
Fixpoint PathUnescape (s : bytes) : option bytes :=
  match s with
  | [] => Some []
  | c :: s' =>
      if decide (c = "%"%char) then
        match s' with
        | h :: l :: rest =>
            match unhex h, unhex l with
            | Some h, Some l => cons (Stdlib.Strings.Ascii.ascii_of_nat (Z.to_nat (16 * h + l))) <$> PathUnescape rest
            | _, _ => None
            end
        | _ => None
        end
      else cons c <$> PathUnescape s'
  end.

(** [func decodePathID]: surrounding white space goes, and a value already
    unescaped by the multiplexer is unescaped once more. *)
Definition decodePathID (raw : bytes) : option bytes :=
  let id := TrimSpace raw in
  if decide (id = []) then None else PathUnescape id.

(** [func readFolderParts] *)
Definition readFolderParts (raw : bytes) : option (list bytes) :=
  decoded ← PathUnescape (TrimSpace raw);
  Some (TrimSpace <$> Split decoded "/"%char).

(** ** Responses *)

(** [type Book], [type NSFWFolderRule] and the other values a handler
    answers with. *)
Record BookResponse := mkBookResponse {
  RMeta : BookMeta.BookMeta;
  RFolder : list bytes;
  RCharCount : Z;
  NSFWRule : option ShelfUtil.NSFWFolder;
}.
Record folderMetaJSON := mkFolderMetaJSON {
  JSortKey : option F64.float64;
  JIcon : bytes;
  JVersion : bytes;
  JReadOnly : bool;
}.

Inductive Payload :=
  | PEmpty
  | PText
  | PError (code : bytes)
  | PRaw (c : content)
  | PBook (b : BookResponse)
  | PBooks (l : list BookResponse)
  | PGroups (l : list (list bytes))
  | PSource (m : SourceMeta.SourceMeta) (size : option Z)
  | PSources (l : list SourceMeta.SourceMeta)
  | PPages (l : Source.PageList)
  | PTrashed (l : list Trash.TrashedBook)
  | PFolders (l : list (list bytes))
  | PFolderMeta (m : gmap bytes folderMetaJSON)
  | PReveal (hiddenBooks : nat)
  | PConflict (kind : bytes) (ids : list bytes)
  | PTaskChain (id : bytes)
  | PTaskStatus (id status : bytes) (percentage : F64.float64)
  | PScan (id : bytes) (books folders : nat)
  | PRetry (seconds : Z)
  | PBool (b : bool)
  | PInt (z : Z).

Record Response := mkResponse {
  Status : Z;
  Headers : list (bytes * bytes);
  Payload_ : Payload;
}.

Definition StatusOK : Z := 200.
Definition StatusCreated : Z := 201.
Definition StatusAccepted : Z := 202.
Definition StatusNoContent : Z := 204.
Definition StatusMovedPermanently : Z := 301.
Definition StatusBadRequest : Z := 400.
Definition StatusUnauthorized : Z := 401.
Definition StatusForbidden : Z := 403.
Definition StatusNotFound : Z := 404.
Definition StatusMethodNotAllowed : Z := 405.
Definition StatusConflict : Z := 409.
Definition StatusRequestEntityTooLarge : Z := 413.
Definition StatusTooManyRequests : Z := 429.
Definition StatusInternalServerError : Z := 500.
Definition StatusServiceUnavailable : Z := 503.

(** [http.Error], [w.WriteHeader] and [writeJSON] *)
Definition http_Error (status : Z) : Response := mkResponse status [] PText.
Definition bare (status : Z) : Response := mkResponse status [] PEmpty.
Definition writeJSON (status : Z) (p : Payload) : Response := mkResponse status [] p.

(** ** Bodies *)

(** [func decodeRequestJSON]: one JSON value whose members the type knows. *)
Definition known (names : list bytes) (j : json) : bool :=
  match j with JObj l => forallb (λ m : bytes * json, bool_decide (m.1 ∈ names)) l | _ => true end.
Definition decodeRequestJSON {A : Type} (names : list bytes) (dec : json → option A) (c : content) : option A :=
  match c with
  | Doc j => if known names j then BookMeta.unmarshal dec c else None
  | Raw _ => None
  end.

(** White space between JSON tokens. *)
Definition json_blank (s : bytes) : bool :=
  forallb (λ c, bool_decide (byte_val c ∈ [32; 9; 10; 13]%Z)) s.

(** [decodeStrictJSON] and [decodeOptionalStrictJSON]: the value, or the
    response that was written. An empty optional body leaves the zero value. *)
Definition decodeJSONBody {A : Type} (names : list bytes) (dec : json → option A) (zero : option A)
    (b : body) : result Response A :=
  match b with
  | TooLarge => Err (http_Error StatusRequestEntityTooLarge)
  | Broken => Err (http_Error StatusBadRequest)
  | Body (Raw s) =>
      match (if json_blank s then zero else None) with
      | Some a => Ok a
      | None => Err (http_Error StatusBadRequest)
      end
  | Body c =>
      match decodeRequestJSON names dec c with
      | Some a => Ok a
      | None => Err (http_Error StatusBadRequest)
      end
  end.
(** [json.UnmarshalRead] into a request type: unknown members are let be. *)
Definition unmarshalRead {A : Type} (dec : json → option A) (b : body) : option A :=
  match b with Body c => BookMeta.unmarshal dec c | _ => None end.

(** ** Errors: [apierr.go] *)
Record apiError := mkApiError { status : Z; code : bytes; retryAfter : option bytes }.

Definition refused (status : Z) (code : bytes) : apiError := mkApiError status code None.
Definition apiErrorTable : list (error * apiError) := [
  (ErrInvalidIdentifierKey, refused StatusBadRequest (str "INVALID_IDENTIFIER_KEY"));
  (ErrInvalidStar, refused StatusBadRequest (str "INVALID_STAR"));
  (ErrInvalidLanguageTag, refused StatusBadRequest (str "INVALID_LANGUAGE_TAG"));
  (ErrInvalidBookFormat, refused StatusBadRequest (str "INVALID_BOOK_FORMAT"));
  (ErrIgnoredFolderName, refused StatusBadRequest (str "IGNORED_FOLDER_NAME"));
  (ErrInvalidFolder, refused StatusBadRequest (str "INVALID_FOLDER"));
  (ErrFolderNotFound, refused StatusNotFound (str "FOLDER_NOT_FOUND"));
  (ErrInvalidFolderIcon, refused StatusBadRequest (str "INVALID_FOLDER_ICON"));
  (ErrFolderMetaConflict, refused StatusConflict (str "FOLDER_META_CONFLICT"));
  (ErrFolderMetaNotWritable, refused StatusConflict (str "FOLDER_META_NOT_WRITABLE"));
  (ErrShelfInitializing, mkApiError StatusServiceUnavailable (str "SHELF_INITIALIZING") (Some (str "3")));
  (ErrShelfLockTimeout, mkApiError StatusServiceUnavailable (str "SHELF_LOCK_TIMEOUT") (Some (str "5")));
  (ErrBookNotFound, refused StatusNotFound (str "BOOK_NOT_FOUND"));
  (ErrBookIDConflict, refused StatusConflict (str "BOOK_ID_CONFLICT"));
  (ErrTrashedBookNotFound, refused StatusNotFound (str "TRASHED_BOOK_NOT_FOUND"));
  (ErrSourceNotFound, refused StatusNotFound (str "SOURCE_NOT_FOUND"));
  (ErrInvalidPageList, refused StatusBadRequest (str "INVALID_PAGE_LIST"));
  (ErrInvalidPageDirection, refused StatusBadRequest (str "INVALID_PAGE_DIRECTION"));
  (ErrNotImageSource, refused StatusConflict (str "NOT_IMAGE_SOURCE"));
  (ErrPageListConflict, refused StatusConflict (str "PAGE_LIST_CONFLICT"));
  (ErrInvalidPagePosition, refused StatusBadRequest (str "INVALID_PAGE_POSITION"));
  (ErrInvalidAssetName, refused StatusBadRequest (str "INVALID_ASSET_NAME"));
  (ErrAssetNotFound, refused StatusNotFound (str "ASSET_NOT_FOUND"));
  (ErrSourceUnauthorized, refused StatusServiceUnavailable (str "SOURCE_UNAUTHORIZED"));
  (ErrNotAShelf, refused StatusServiceUnavailable (str "NOT_A_SHELF"));
  (ErrBookNotDownloaded, refused StatusServiceUnavailable (str "BOOK_NOT_DOWNLOADED"));
  (ErrSourceUnavailable, refused StatusServiceUnavailable (str "SOURCE_UNAVAILABLE"));
  (ErrDownloadUnsupported, refused StatusConflict (str "DOWNLOAD_UNSUPPORTED"));
  (ErrReadOnly, refused StatusConflict (str "SHELF_READ_ONLY"));
  (ErrUnsupportedBookSchemaVersion, refused StatusConflict (str "UNSUPPORTED_BOOK_SCHEMA_VERSION"));
  (ErrUnsupportedSourceSchemaVersion, refused StatusConflict (str "UNSUPPORTED_SOURCE_SCHEMA_VERSION"));
  (ErrUnsupportedTrashSchemaVersion, refused StatusConflict (str "UNSUPPORTED_TRASH_SCHEMA_VERSION"));
  (ErrMalformedMetadata, refused StatusConflict (str "MALFORMED_METADATA"))
].

(** [func apiErrorFor] *)
Definition apiErrorFor (e : error) : option apiError :=
  snd <$> find (λ x : error * apiError, errors_Is e x.1) apiErrorTable.

(** [func writeErrStatus] and [func writeErr]; a busy worker is answered in
    the same way. *)
Definition error_response (e : apiError) : Response :=
  mkResponse (status e)
    (match retryAfter e with Some s => [(str "Retry-After", s)] | None => [] end) (PError (code e)).
Definition writeErrStatus (e : error) (fallbackStatus : Z) : Response :=
  match apiErrorFor e with
  | Some r => error_response r
  | None => writeJSON fallbackStatus
      (PError (if (StatusInternalServerError <=? fallbackStatus)%Z then str "INTERNAL" else str "UNKNOWN"))
  end.
Definition writeErr (e : error) : Response := writeErrStatus e StatusInternalServerError.
Definition WorkerBusy : Response :=
  error_response (mkApiError StatusServiceUnavailable (str "WORKER_BUSY") (Some (str "5"))).
End Http.
