(* ===== verification/Security.v ===== *)
(** * Who may call the server: [src/server/security.go] and [shelf_routes.go]

    The middleware in front of every handler: the token, the origin of the
    request, preflights and the headers it sets. [url.Parse] and the parsing
    of addresses ([net]) are parameters; nothing is assumed of them. *)

From S2P Require Import Prelude Utf8 Strings Float64 Json Fs ShelfUtil Http.

(** [type URL] as far as it is read; [User] says whether it is not nil. *)
Record URL := mkURL {
  Scheme : bytes;
  UHost : bytes;
  UPath : bytes;
  RawQuery : bytes;
  Fragment : bytes;
  User : bool;
}.
Class NetText := {
  url_Parse : bytes → option URL;
  (** the host of [net.SplitHostPort], and whether [net.ParseIP] reads a
      loopback address *)
  SplitHostPort : bytes → option bytes;
  loopback_ip : bytes → bool;
}.

Module Security.
Import ShelfUtil Http.

(** [type SecurityMode]; any other text is [SecurityModeOther]. *)
Inductive SecurityMode :=
  | SecurityModeUnset
  | SecurityModeLocalToken
  | SecurityModeNone
  | SecurityModePassword
  | SecurityModeExternal
  | SecurityModeOther.
#[export] Instance SecurityMode_eq_dec : EqDecision SecurityMode.
Proof. solve_decision. Defined.

Record SecurityConf := mkSecurityConf {
  Mode : SecurityMode;
  ProtectRead : bool;
  ConfTokenHeader : bytes;
  AllowMissingOriginWithToken : option bool;
  AllowedOrigins : list bytes;
}.
Record Security := mkSecurity {
  conf : SecurityConf;
  token : bytes;
  allowedOrigins : gset bytes;
}.

Definition defaultTokenHeader : bytes := str "X-PlainShelf-Token".
Definition RequestIDHeader : bytes := str "X-Request-Id".
Definition defaultAllowedOrigins : list bytes :=
  [str "http://127.0.0.1:20000"; str "http://localhost:20000";
   str "http://127.0.0.1:5173"; str "http://localhost:5173"].

(** [func normalizeSecurityConf] *)
Definition normalizeSecurityConf (c : option SecurityConf) : SecurityConf :=
  let c := default (mkSecurityConf SecurityModeUnset false [] None []) c in
  let mode := if decide (Mode c = SecurityModeUnset) then SecurityModeLocalToken else Mode c in
  let header := if decide (TrimSpace (ConfTokenHeader c) = []) then defaultTokenHeader else ConfTokenHeader c in
  let missing := if decide (mode = SecurityModeLocalToken ∧ AllowMissingOriginWithToken c = None)
                 then Some true else AllowMissingOriginWithToken c in
  let origins := if decide (mode = SecurityModeLocalToken ∧ AllowedOrigins c = [])
                 then defaultAllowedOrigins else AllowedOrigins c in
  mkSecurityConf mode (ProtectRead c) header missing origins.

Section net.
Context `{UnicodeCase, NetText}.

(** [func isLoopbackListenAddr]; [strings.Trim] with the brackets. *)
Definition bracket (c : ascii) : bool := bool_decide (c = "["%char ∨ c = "]"%char).
Fixpoint trim_left (p : ascii → bool) (s : bytes) : bytes :=
  match s with c :: s' => if p c then trim_left p s' else s | [] => [] end.
Definition Trim (p : ascii → bool) (s : bytes) : bytes := reverse (trim_left p (reverse (trim_left p s))).
Definition isLoopbackListenAddr (addr : bytes) : bool :=
  let host := Trim bracket (TrimSpace (default addr (SplitHostPort addr))) in
  bool_decide (host = str "localhost") || loopback_ip host.

(** [func ValidateSecurityForListenAddr] and [InsecureNetworkExposure] *)
Definition ValidateSecurityForListenAddr (c : option SecurityConf) (listenAddr : bytes) : bool :=
  match c with
  | Some c => if decide (Mode c ≠ SecurityModeUnset) then true else isLoopbackListenAddr listenAddr
  | None => isLoopbackListenAddr listenAddr
  end.
Definition InsecureNetworkExposure (sec : option Security) (listenAddr : bytes) : bool :=
  match sec with
  | Some sec => bool_decide (Mode (conf sec) = SecurityModeNone) && negb (isLoopbackListenAddr listenAddr)
  | None => false
  end.

(** [func normalizeOrigin] *)
Definition normalizeOrigin (origin : bytes) : option bytes :=
  let origin := TrimSpace origin in
  if decide (origin = []) then None else
  u ← url_Parse origin;
  if decide (Scheme u = [] ∨ UHost u = []) then None else
  if decide (UPath u ≠ [] ∧ UPath u ≠ slash) then None else
  if bool_decide (RawQuery u ≠ []) || bool_decide (Fragment u ≠ []) || User u then None else
  let scheme := lower (Scheme u) in
  let host := lower (UHost u) in
  let host := if decide (scheme = str "http") then TrimSuffix host (str ":80")
              else if decide (scheme = str "https") then TrimSuffix host (str ":443") else host in
  Some (scheme ++ str "://" ++ host).

(** [func NewSecurity]; the token is drawn by [generateLocalToken]. *)
Definition NewSecurity (c : option SecurityConf) (generated : bytes) : option Security :=
  let c := normalizeSecurityConf c in
  match Mode c with
  | SecurityModeLocalToken | SecurityModeNone =>
      origins ← mapM normalizeOrigin (AllowedOrigins c);
      Some (mkSecurity c (if decide (Mode c = SecurityModeLocalToken) then generated else [])
              (list_to_set origins))
  | _ => None
  end.

(** ** Paths of a shelf: [shelf_routes.go] *)
Inductive shelfRouteKind := unclassifiedShelfRoute | shelfScanRoute | bookDownloadRoute.
#[local] Instance kind_eq_dec : EqDecision shelfRouteKind.
Proof. solve_decision. Defined.

Definition CutPrefix (s p : bytes) : option bytes :=
  if HasPrefix s p then Some (drop (length p) s) else None.
(** [strings.Cut(s, "/")] *)
Fixpoint Cut (s : bytes) : option (bytes * bytes) :=
  match s with
  | [] => None
  | c :: s' => if decide (c = "/"%char) then Some ([], s')
               else '(a, b) ← Cut s'; Some (c :: a, b)
  end.

Definition classifyShelfRoute (urlPath : bytes) : shelfRouteKind :=
  match CutPrefix urlPath (str "/api/shelves/") with
  | None => unclassifiedShelfRoute
  | Some rest =>
      match Cut rest with
      | None => unclassifiedShelfRoute
      | Some (shelfID, tail) =>
          if decide (shelfID = []) then unclassifiedShelfRoute else
          if decide (tail = str "scans") then shelfScanRoute else
          match Split tail "/"%char with
          | [books; bookID; download] =>
              if decide (books = str "books" ∧ bookID ≠ [] ∧ download = str "download")
              then bookDownloadRoute else unclassifiedShelfRoute
          | _ => unclassifiedShelfRoute
          end
      end
  end.
Definition isReadOnlySafeRequest (r : Request) : bool :=
  match classifyShelfRoute (Path r) with
  | shelfScanRoute => bool_decide (Method r = POST)
  | bookDownloadRoute => bool_decide (Method r = PUT ∨ Method r = DELETE)
  | unclassifiedShelfRoute => false
  end.
Definition isShelfScanRequest (r : Request) : bool :=
  bool_decide (Method r = POST) && bool_decide (classifyShelfRoute (Path r) = shelfScanRoute).

(** ** What a request must show *)
Definition api_prefix : bytes := str "/api/".
Definition IsLogAPIPath (p : bytes) : bool :=
  bool_decide (p = str "/api/logs") || HasPrefix p (str "/api/logs/").
Definition IsMutatingMethod (m : bytes) : bool := bool_decide (m ∈ [POST; PUT; PATCH; DELETE]).

Definition isTokenExemptScan (sec : Security) (r : Request) : bool :=
  bool_decide (Mode (conf sec) ≠ SecurityModeNone) && negb (ProtectRead (conf sec)) && isShelfScanRequest r.
Definition requiresToken (sec : Security) (r : Request) : bool :=
  if decide (Mode (conf sec) = SecurityModeNone) then false else
  if decide (Path r = str "/health") then false else
  if negb (HasPrefix (Path r) api_prefix) then false else
  if IsLogAPIPath (Path r) then true else
  if ProtectRead (conf sec) then true else
  if isTokenExemptScan sec r then false else
  IsMutatingMethod (Method r).

(** [func bearerToken]; [strings.EqualFold] compares case-folded runes. *)
Definition folded (s : bytes) : list Z := (λ r, minFold (Utf8.decode_rune r).1) <$> Utf8.runes s.
Definition EqualFold (s t : bytes) : bool := bool_decide (folded s = folded t).
Definition bearer : bytes := str "Bearer ".
Definition bearerToken (header : bytes) : bytes :=
  if (length header <? length bearer) || negb (EqualFold (take (length bearer) header) bearer) then []
  else TrimSpace (drop (length bearer) header).

(** [func (sec *Security) validToken] *)
Definition validToken (sec : Security) (r : Request) : bool :=
  if decide (Mode (conf sec) ≠ SecurityModeLocalToken) then bool_decide (Mode (conf sec) = SecurityModeNone) else
  if decide (token sec = []) then false else
  existsb (λ candidate, bool_decide (candidate ≠ []) && bool_decide (candidate = token sec))
    [bearerToken (Header r (str "Authorization")); Header r (ConfTokenHeader (conf sec))].

(** [func (sec *Security) requestOrigin]: the origin the browser states, or
    the one of the page it came from; [Some []] is one that does not parse. *)
Definition requestOrigin (r : Request) : option bytes :=
  let origin := TrimSpace (Header r (str "Origin")) in
  if decide (origin ≠ []) then Some (default [] (normalizeOrigin origin)) else
  let referer := TrimSpace (Header r (str "Referer")) in
  if decide (referer ≠ []) then
    match url_Parse referer with
    | None => Some []
    | Some u =>
        if decide (Scheme u = [] ∨ UHost u = []) then Some []
        else Some (default [] (normalizeOrigin (Scheme u ++ str "://" ++ UHost u)))
    end
  else None.
Definition isAllowedOrigin (sec : Security) (origin : bytes) : bool := bool_decide (origin ∈ allowedOrigins sec).
Definition allowMissingOriginWithToken (sec : Security) : bool :=
  default false (AllowMissingOriginWithToken (conf sec)).
Definition originAllowedForProtectedRequest (sec : Security) (r : Request) (tokenOK : bool) : bool :=
  match requestOrigin r with
  | None => tokenOK && allowMissingOriginWithToken sec
  | Some origin => isAllowedOrigin sec origin
  end.
Definition originAllowedForTokenExemptRequest (sec : Security) (r : Request) : bool :=
  match requestOrigin r with None => true | Some origin => isAllowedOrigin sec origin end.
Definition isAllowedRequestOrigin (sec : Security) (r : Request) : bool :=
  match requestOrigin r with None => false | Some origin => isAllowedOrigin sec origin end.

(** ** The middleware *)
Definition staticSecurityHeaders : list (bytes * bytes) :=
  [(str "X-Content-Type-Options", str "nosniff"); (str "X-Frame-Options", str "DENY");
   (str "Referrer-Policy", str "no-referrer")].
Definition allow_origin : bytes := str "Access-Control-Allow-Origin".
Definition applyCORS (sec : Security) (r : Request) : list (bytes * bytes) :=
  let originHeader := TrimSpace (Header r (str "Origin")) in
  if decide (originHeader = []) then [] else
  match normalizeOrigin originHeader with
  | None => []
  | Some origin =>
      if isAllowedOrigin sec origin then
        [(allow_origin, originHeader); (str "Vary", str "Origin");
         (str "Access-Control-Allow-Methods", str "GET, POST, PUT, PATCH, DELETE, OPTIONS");
         (str "Access-Control-Allow-Headers",
          str "Accept, Authorization, Content-Type, " ++ ConfTokenHeader (conf sec));
         (str "Access-Control-Expose-Headers", RequestIDHeader)]
      else []
  end.

(** What the middleware answers itself, or [None]: the next handler runs. *)
Definition intercept (sec : Security) (r : Request) : option Response :=
  if bool_decide (Method r = OPTIONS) && HasPrefix (Path r) api_prefix then
    Some (if isAllowedRequestOrigin sec r then bare StatusNoContent else http_Error StatusForbidden)
  else if requiresToken sec r then
    if negb (validToken sec r) then Some (http_Error StatusUnauthorized) else
    if negb (originAllowedForProtectedRequest sec r (validToken sec r)) then Some (http_Error StatusForbidden)
    else None
  else if isTokenExemptScan sec r then
    if negb (originAllowedForTokenExemptRequest sec r) then Some (http_Error StatusForbidden) else None
  else None.

Definition with_headers (hs : list (bytes * bytes)) (r : Response) : Response :=
  mkResponse (Status r) (hs ++ Headers r) (Payload_ r).

(** [func (sec *Security) Middleware], around a handler of any state. *)
Definition Middleware {S : Type} (sec : option Security) (next : Request → S → Response * S)
    (r : Request) (s : S) : Response * S :=
  let pass hs := let '(resp, s) := next r s in (with_headers hs resp, s) in
  match sec with
  | None => pass staticSecurityHeaders
  | Some sec =>
      if decide (Mode (conf sec) = SecurityModeNone) then pass staticSecurityHeaders else
      let hs := staticSecurityHeaders ++ applyCORS sec r in
      match intercept sec r with
      | Some resp => (with_headers hs resp, s)
      | None => pass hs
      end
  end.

(** [Token], [TokenHeader] and [IsEnabled] *)
Definition Token (sec : option Security) : bytes := from_option token [] sec.
Definition TokenHeader (sec : option Security) : bytes :=
  match sec with
  | Some sec => if decide (TrimSpace (ConfTokenHeader (conf sec)) = []) then defaultTokenHeader
                else ConfTokenHeader (conf sec)
  | None => defaultTokenHeader
  end.
Definition IsEnabled (sec : option Security) : bool :=
  match sec with Some sec => bool_decide (Mode (conf sec) ≠ SecurityModeNone) | None => false end.
End net.
End Security.
