(* ===== verification/ScanComplete.v ===== *)
(** * A scan finds every book

    Without faults a full scan ends with a cache that knows every package of
    the library the rules do not hide, and the fuel of the walk is enough. *)

From S2P Require Import Prelude Utf8 Strings Json Fs FsSpec Atomic ShelfUtil BookMeta Source Frame Relocate ScanCache FolderMeta Book NoFault ShelfState Trash Folder ShelfBook ShelfFrame ShelfInv Lookup TrashSpec TrashRoundtrip.

Module ScanComplete.
Import ShelfUtil BookMeta Book Shelf ShelfFrame ShelfInv Lookup TrashRoundtrip.

(** ** No path is longer than the tree has entries *)
Definition ancestors (q : path) : list path := (λ i, take i q) <$> seq 0 (S (length q)).

Lemma NoDup_ancestors q : NoDup (ancestors q).
Proof.
  unfold ancestors. apply NoDup_fmap_2_strong; [|apply NoDup_seq].
  intros i j Hi%elem_of_seq Hj%elem_of_seq E. apply (f_equal length) in E.
  rewrite !length_take in E. lia.
Qed.

Lemma depth_bound t q : wf_tree t → is_Some (t !! q) → length q < size t.
Proof.
  intros Hwf Hq. assert (list_to_set (ancestors q) ⊆@{gset path} dom t) as Hsub.
  { intros p (i & -> & Hi)%elem_of_list_to_set%list_elem_of_fmap. apply elem_of_dom.
    destruct (decide (drop i q = [])) as [E|E].
    - assert (take i q = q) as -> by (rewrite <-(take_drop i q) at 2; by rewrite E, app_nil_r). done.
    - exists Dir. apply (wf_ancestor t _ (drop i q)); [done| |done]. by rewrite take_drop. }
  apply subseteq_size in Hsub. rewrite size_dom in Hsub.
  rewrite size_list_to_set in Hsub by apply NoDup_ancestors.
  unfold ancestors in Hsub. rewrite length_fmap, length_seq in Hsub. lia.
Qed.

(** ** Loops *)
Lemma wp_foldl_ok {S B C : Type} (I : list C → B → S → Prop) (f : C → B → M S B) (l : list C) b s :
  I [] b s →
  (∀ before c b s, before ++ [c] `prefix_of` l → I before b s →
    wp (f c b) (λ r s', ∃ b', r = Ok b' ∧ I (before ++ [c]) b' s') s) →
  wp (foldl (λ m c, b ← m; f c b) (mret b) l) (λ r s', ∃ b', r = Ok b' ∧ I l b' s') s.
Proof.
  intros H0 Hf. assert (∀ l2 l1 m, l1 ++ l2 = l → wp m (λ r s', ∃ b', r = Ok b' ∧ I l1 b' s') s →
    wp (foldl (λ m c, b ← m; f c b) m l2) (λ r s', ∃ b', r = Ok b' ∧ I l b' s') s) as Hgo.
  { induction l2 as [|c l2 IH]; intros l1 m E Hm; simpl.
    { rewrite app_nil_r in E. by subst. }
    apply (IH (l1 ++ [c])); [by rewrite <-app_assoc|]. apply wp_bind. eapply wp_mono; [exact Hm|].
    intros r s' (b' & -> & HI). apply Hf; [|done]. exists l2. by rewrite <-app_assoc. }
  apply (Hgo l [] (mret b)); [done|]. apply wp_ret. eauto.
Qed.

Section walk.
Context `{UnicodeCase, TimeTextLaws, Machine, !NoFaults, Digest, ShelfEnv}.
Context (t : tree) (Hwf : wf_tree t) (rw : bool) (ign : gmap bytes IgnoredDir).

(** Steps that read and always answer. *)
Definition answers {A : Type} (R : A → Prop) (m : M world A) : Prop :=
  ∀ w, wtree w = t → wp m (λ r w', ∃ a, r = Ok a ∧ wtree w' = t ∧ R a) w.

Lemma answers_ret {A : Type} (R : A → Prop) a : R a → answers R (mret a).
Proof. intros Ha w Hw. apply wp_ret. eauto. Qed.
Lemma answers_bind {A B : Type} (R : A → Prop) (R' : B → Prop) (m : M world A) (k : A → M world B) :
  answers R m → (∀ a, R a → answers R' (k a)) → answers R' (mbind k m).
Proof.
  intros Hm Hk w Hw. apply wp_bind. eapply wp_mono; [by apply Hm|].
  intros r w' (a & -> & Hw' & Ha). by apply Hk.
Qed.
Lemma answers_try {A : Type} (m : M world A) :
  keeps (λ _, False) (λ _, False) m → answers (λ _, True) (try m).
Proof.
  intros Hm w Hw. apply wp_try, wp_reads; [done|by rewrite Hw|]. intros r n _. rewrite Hw. eauto.
Qed.
Lemma answers_now : answers (λ _, True) now.
Proof. intros w Hw. apply wp_now. intros z k. rewrite Hw. eauto. Qed.

Lemma answers_readEntry fs p b : answers (λ _, True) (readBookIDCacheEntry fs p b).
Proof.
  unfold readBookIDCacheEntry. eapply answers_bind; [apply answers_now|]. intros z _.
  eapply (answers_bind (λ _, True)); [|intros [[? ?] ?] _; by apply answers_ret].
  unfold CurrentSourceStat. cbv zeta. case_match; [by apply answers_ret|].
  eapply answers_bind; [apply answers_try; unfold Source.openSource; frame|].
  intros [s|e] _; by apply answers_ret.
Qed.

(** The listing of a directory that is there. *)
Lemma answers_WReadDir w p reused :
  ScanCache.sound_walk t w → rooted p → t !! p = Some Dir →
  answers (λ r, ScanCache.sound_walk t r.2 ∧
    ∃ l, r.1 = Ok l ∧ l.1 = ScanCache.dirChildren (entries t p) (ScanCache.wkeep w))
    (ScanCache.WReadDir w p reused).
Proof.
  intros Hs Hr Hp s Hst. subst t.
  assert (∀ z w k, wp (ScanCache.read_listing w z p) (λ r _, ∀ x, r = Ok x → is_ok x.1 = true)
    (mkWorld (wtree s) k)) as Hread.
  { intros z w' k. apply wp_bind, wp_now. intros z' j. apply wp_bind, wp_try, nf_ReadDir_at; [done..|].
    apply wp_ret. by intros x [= <-]. }
  assert (wp (ScanCache.WReadDir w p reused) (λ r _, ∀ x, r = Ok x → is_ok x.1 = true) s) as Hok.
  { unfold ScanCache.WReadDir. cbv zeta. destruct (negb _).
    - apply wp_bind, wp_try, nf_ReadDir_at; [done..|]. apply wp_ret. by intros x [= <-].
    - apply wp_bind, wp_try, (nf_StatInfo_at p Dir); [done..|]. intros k. simpl.
      destruct (ScanCache.prev w !! p); [|apply Hread]. destruct (_ && _); [|apply Hread].
      apply wp_ret. by intros x [= <-]. }
  eapply wp_mono; [apply wp_conj; [by apply ScanCache.wp_WReadDir|exact Hok]|].
  intros r s' [(res & w' & -> & Hst & Hw & Hk & _ & Hl) Hres]. specialize (Hres _ eq_refl). simpl in Hres.
  exists (res, w'). split; [done|]. split; [done|]. split; [done|].
  destruct res as [[children trusted]|]; [|done]. destruct (Hl _ _ eq_refl) as [_ ->]. simpl. eauto.
Qed.

(** ** The package the walk must find *)
Context (fs : FolderPath) (name : bytes) (c : content) (z : Z) (m : BookMeta).
Let p : path := (booksFolder :: fs) ++ [name].
Let id : bytes := ID (normalizeMetaVersion m).

(** A package the rules do not hide, with a [book.json] that reads. *)
Record visible : Prop := {
  vi_plain : Forall (λ x, "/"%char ∉ x) (fs ++ [name]);
  vi_shown : Forall (λ x, IsIgnoredDir ign x = false) ((booksFolder :: fs) ++ [name]);
  vi_folders : Forall (λ x, HasSuffix x bookExtension = false) fs;
  vi_name : HasSuffix name bookExtension = true;
  vi_dir : t !! p = Some Dir;
  vi_meta : t !! meta_path p = Some (File c z);
  vi_reads : unmarshal decode c = Some m;
}.
Context (Hvis : visible).

Definition known (a : scanAcc) : Prop := is_Some (scache a !! id).
Definition grows (a a' : scanAcc) : Prop := ∀ k, is_Some (scache a !! k) → is_Some (scache a' !! k).
Definition good (st : walkState scanAcc) : Prop :=
  skipAll st = false ∧ ScanCache.sound_walk t (walk st).

(** What a visit of [pth] achieves. *)
Definition visited (pth : path) (st st' : walkState scanAcc) : Prop :=
  good st' ∧ grows (acc st) (acc st') ∧ (under pth p → known (acc st')).

Lemma visit_meta_cache q a : scache (visit_meta scan_visitor q a) = scache a.
Proof. unfold visit_meta. simpl. by repeat case_decide. Qed.

Lemma answers_visit_book pth st :
  rooted pth → good st → (under pth p → pth = p) →
  answers (visited pth st) (visit_book rw scan_visitor pth st).
Proof.
  intros Hr Hst Hu. unfold visit_book. simpl.
  apply (answers_bind (λ o, pth = p → ∃ b, o = Ok b ∧ ID (meta b) = id)).
  { intros w Hw. eapply wp_mono; [apply wp_conj; [by apply answers_try, Hw; apply keeps_OpenBook|]|].
    - apply (wp_mono _ (λ r _, pth = p → ∃ b, r = Ok (Ok (E:=error) b) ∧ ID (meta b) = id)); [|intros r s' HR; exact HR].
      destruct (decide (pth = p)) as [->|]; [|by intros r].
      destruct Hvis as [_ _ _ _ Hd Hm Hreads].
      apply wp_try, (nf_OpenBook rw p c z m); [by rewrite Hw|done|by rewrite Hw|by rewrite Hw|done|].
      intros s k _. eauto.
    - intros r w' [(o & -> & Hw' & _) Ho]. exists o. split; [done|]. split; [done|].
      intros E. destruct (Ho E) as (b & [= ->] & Hb). eauto. }
  intros [b|e] Hb.
  - eapply (answers_bind (λ r, grows (acc st) r.1 ∧ (pth = p → known r.1) ∧ r.2 = true)).
    + eapply answers_bind; [apply answers_readEntry|]. intros e _. apply answers_ret. split.
      * intros k Hk. simpl. destruct (decide (k = ID (meta b))) as [->|];
          [by rewrite lookup_insert_eq|by rewrite lookup_insert_ne].
      * split; [|done]. intros E. destruct (Hb E) as (b' & [= <-] & Hid). unfold known. simpl.
        by rewrite Hid, lookup_insert_eq.
    + intros [a go] (Hg & Hk & Hgo). simpl in *. subst go. apply answers_ret.
      destruct Hst as [_ Hw]. split; [by split|]. split; [done|]. intros Hup%Hu. by apply Hk.
  - apply answers_ret. split; [done|]. split; [by intros k|]. intros Hup%Hu. by destruct (Hb Hup) as (b & ? & _).
Qed.

(** ** The walk *)
Definition at_node (pth : path) (child : option ScanCache.DirChild) : Prop :=
  match child with
  | None => t !! pth = Some Dir
  | Some c => if ScanCache.IsFile c then file_at t pth
              else ScanCache.Symlink c = false ∧ t !! pth = Some Dir
  end.

Lemma answers_ChildIsDir pth child :
  rooted pth → at_node pth child →
  answers (λ b, b = true ∧ t !! pth = Some Dir ∨ b = false ∧ file_at t pth) (ScanCache.ChildIsDir pth child).
Proof.
  intros Hr Hn. destruct child as [ch|]; simpl in *.
  - destruct (ScanCache.IsFile ch); [apply answers_ret; auto|]. destruct Hn as [-> Hd].
    apply answers_ret. auto.
  - intros w Hw. apply wp_bind, (nf_Stat_at _ Dir); [by rewrite Hw|done|by rewrite Hw|].
    apply wp_ret. exists true. split; [done|]. split; [done|]. auto.
Qed.

Lemma child_at keep pth c0 :
  c0 ∈ ScanCache.dirChildren (entries t pth) keep →
  at_node (pth ++ [ScanCache.Name c0]) (Some c0).
Proof.
  intros ([x n] & [Hn _]%elem_of_entries & Hc)%list_elem_of_omap. simpl in Hc.
  destruct n as [|cc zz]; [by injection Hc as <-|]. case_decide; [|done]. injection Hc as <-.
  simpl. by eexists _, _.
Qed.

Lemma dir_listed keep pth x :
  t !! (pth ++ [x]) = Some Dir → "/"%char ∉ x →
  ∃ c0, c0 ∈ ScanCache.dirChildren (entries t pth) keep ∧ ScanCache.Name c0 = x.
Proof.
  intros Hd Hx. exists (ScanCache.mkDirChild x false false). split; [|done].
  apply list_elem_of_omap. exists (x, Dir). split; [by apply elem_of_entries|done].
Qed.

Lemma snoc_prefix {B : Type} (a b k : list B) n x : a ++ [n] = b ++ x :: k → ∃ k', a = b ++ k'.
Proof.
  destruct k as [|y k _] using rev_ind.
  - intros [-> _]%app_inj_tail. exists []. by rewrite app_nil_r.
  - rewrite app_comm_cons, app_assoc. intros [-> _]%app_inj_tail. eauto.
Qed.

(** A proper prefix of the package's path is a folder the rules show. *)
Lemma on_the_way pth x k :
  p = pth ++ x :: k → pth ≠ [] →
  IsIgnoredDir ign (base pth) = false ∧ HasSuffix (base pth) bookExtension = false ∧
  t !! (pth ++ [x]) = Some Dir ∧ "/"%char ∉ x.
Proof.
  destruct Hvis as [Hpl Hsh Hfo _ Hd _ _]. intros E Hne.
  destruct (snoc_prefix _ _ _ _ _ E) as [k' Hk'].
  destruct pth as [|b0 pth]; [done|]. injection Hk' as <- Hfs. clear Hne.
  assert (fs ++ [name] = pth ++ x :: k) as E' by (by injection E).
  split; [|split; [|split]].
  - rewrite Forall_forall in Hsh. apply Hsh. fold p. rewrite E. apply elem_of_app. left.
    unfold base. destruct (last (booksFolder :: pth)) as [y|] eqn:El; [by apply last_Some_elem_of in El|].
    by apply last_None in El.
  - destruct pth as [|y pth' _] using rev_ind; [by vm_compute|].
    unfold base. rewrite app_comm_cons, last_snoc. rewrite Forall_forall in Hfo. apply Hfo.
    rewrite Hfs. set_solver.
  - destruct k as [|y k]; [by rewrite <-E|]. apply (wf_ancestor t _ (y :: k)); [done| |done].
    rewrite <-app_assoc. simpl. change (is_Some (t !! ((booksFolder :: pth) ++ x :: y :: k))). fold p in E. rewrite <-E. by eexists.
  - rewrite E' in Hpl. apply Forall_app in Hpl as [_ Hpl]. by inversion Hpl.
Qed.

Lemma under_package pth :
  pth ≠ [] → under pth p →
  pth = p ∧ IsIgnoredDir ign (base pth) = false ∧ HasSuffix (base pth) bookExtension = true ∨
  ∃ x k, p = pth ++ x :: k ∧ IsIgnoredDir ign (base pth) = false ∧
    HasSuffix (base pth) bookExtension = false ∧ t !! (pth ++ [x]) = Some Dir ∧ "/"%char ∉ x.
Proof.
  intros Hne [q Hq]. destruct q as [|x k].
  - left. rewrite app_nil_r in Hq. subst pth. destruct Hvis as [_ Hsh _ Hn _ _ _].
    assert (base p = name) as -> by (unfold p, base; by rewrite last_snoc).
    apply Forall_app in Hsh as [_ Hsh]. by inversion Hsh.
  - right. exists x, k. split; [done|]. by apply (on_the_way pth x k).
Qed.

Lemma not_below_file pth : file_at t pth → ¬ under pth p.
Proof.
  destruct Hvis as [_ _ _ _ Hd _ _]. intros (c' & z' & Hf) [q Hq].
  assert (t !! pth = Some Dir); [|congruence]. destruct q as [|x q].
  - rewrite app_nil_r in Hq. by rewrite <-Hq.
  - apply (wf_ancestor t pth (x :: q)); [done| |done]. rewrite <-Hq. by eexists.
Qed.

Definition deep (fuel : nat) (pth : path) : Prop := ∀ q, is_Some (t !! (pth ++ q)) → length q < fuel.

Lemma deep_child fuel pth x : deep (S fuel) pth → deep fuel (pth ++ [x]).
Proof.
  intros Hd q Hq. rewrite <-app_assoc in Hq. apply Hd in Hq. simpl in Hq. lia.
Qed.

Lemma grows_trans a b c' : grows a b → grows b c' → grows a c'.
Proof. unfold grows. auto. Qed.

Lemma at_node_some pth child : at_node pth child → is_Some (t !! pth).
Proof.
  destruct child as [ch|]; simpl; [|by eexists]. destruct (ScanCache.IsFile ch).
  - intros (? & ? & ->). by eexists.
  - intros [_ ->]. by eexists.
Qed.

(** The loop over the children of a shown folder. *)
Lemma answers_children fuel pth trusted l st :
  (∀ c0 st', c0 ∈ l → good st' →
    answers (visited (pth ++ [ScanCache.Name c0]) st')
      (dfs rw ign scan_visitor fuel (pth ++ [ScanCache.Name c0]) (Some c0) trusted st')) →
  good st →
  answers (λ st', good st' ∧ grows (acc st) (acc st') ∧
      ∀ c0, c0 ∈ l → under (pth ++ [ScanCache.Name c0]) p → known (acc st'))
    (foldl (λ m c0, st ← m; dfs rw ign scan_visitor fuel (pth ++ [ScanCache.Name c0]) (Some c0) trusted st)
      (mret st) l).
Proof.
  intros Hc Hst w Hw.
  eapply wp_mono; [apply (wp_foldl_ok (λ seen st' s', wtree s' = t ∧ good st' ∧ grows (acc st) (acc st') ∧
      ∀ c0, c0 ∈ seen → under (pth ++ [ScanCache.Name c0]) p → known (acc st')))|].
  - split; [done|]. split; [done|]. split; [by intros k|]. intros c0 Hc0. by apply elem_of_nil in Hc0.
  - intros before c0 st' s Hpre (Hs & Hg & Hgr & Hk).
    assert (c0 ∈ l) as Hc0 by (destruct Hpre as [k ->]; rewrite !elem_of_app; left; right; by apply list_elem_of_singleton).
    eapply wp_mono; [by apply Hc|]. intros r s' (st2 & -> & Hs' & Hg2 & Hgr2 & Hk2).
    exists st2. split; [done|]. split; [done|]. split; [done|]. split; [by eapply grows_trans|].
    intros c1 [Hin|E]%elem_of_app Hu; [apply Hgr2; by apply (Hk c1)|].
    apply list_elem_of_singleton in E. subst c1. by apply Hk2.
  - intros r s' (st' & -> & Hs & HI). eauto.
Qed.

Lemma answers_dfs fuel : ∀ pth child reused st,
  rooted pth → pth ≠ [] → at_node pth child → good st → deep fuel pth →
  answers (visited pth st) (dfs rw ign scan_visitor fuel pth child reused st).
Proof.
  induction fuel as [|fuel IH]; intros pth child reused st Hr Hne Hn Hst Hfuel.
  { exfalso. apply at_node_some in Hn. rewrite <-(app_nil_r pth) in Hn. apply Hfuel in Hn. simpl in Hn. lia. }
  cbn [dfs]. destruct Hst as [Hsk Hsw]. rewrite Hsk.
  set (st1 := mkWalkState (visit_meta scan_visitor pth (acc st)) (walk st) false).
  assert (good st1) as Hst1 by done.
  assert (grows (acc st) (acc st1)) as Hg1 by (intros k; unfold st1; simpl; by rewrite visit_meta_cache).
  assert (∀ st', visited pth st1 st' → visited pth st st') as Hfrom.
  { intros st' (Hg & Hgr & Hk). split; [done|]. split; [|done]. by eapply grows_trans. }
  assert (¬ under pth p → answers (visited pth st) (mret st1)) as Hstop.
  { intros Hnu. apply answers_ret, Hfrom. split; [done|]. split; [by intros k|]. done. }
  eapply (answers_bind (λ o, ∃ b, o = Ok b ∧ (b = true ∧ t !! pth = Some Dir ∨ b = false ∧ file_at t pth))).
  { intros w Hw. apply wp_try. eapply wp_mono; [by apply answers_ChildIsDir|].
    intros r w' (b & -> & Hw' & Hb). eauto 10. }
  intros o (isDir & -> & Hd). destruct Hd as [[-> Hd]|[-> Hf]]; [|by apply Hstop, not_below_file].
  cbn [negb]. destruct (IsIgnoredDir ign (base pth)) eqn:Hig.
  { apply Hstop. intros Hu. destruct (under_package pth Hne Hu) as [(_ & ? & _)|(? & ? & _ & ? & _)]; congruence. }
  destruct (HasSuffix (base pth) bookExtension) eqn:Hsuf.
  { intros w Hw. eapply wp_mono; [apply (answers_visit_book pth st1)|].
    - done.
    - done.
    - intros Hu. destruct (under_package pth Hne Hu) as [(? & _)|(? & ? & _ & _ & ? & _)]; congruence.
    - done.
    - intros r w' (st' & -> & Hw' & Hv). eauto. }
  simpl. eapply answers_bind; [by apply answers_WReadDir|].
  intros [listed w2] (Hsw2 & [l trusted] & Hl & El). simpl in Hl, El, Hsw2. subst.
  intros w Hw. eapply wp_mono; [apply answers_children; [|done|done]|].
  - intros c0 st' Hc0 Hg'. apply IH; [|by destruct pth| |done|by apply deep_child].
    + unfold rooted. by destruct pth.
    + by eapply child_at.
  - intros r s' (st' & -> & Hs' & Hg' & Hgr & Hk). exists st'. split; [done|]. split; [done|].
    apply Hfrom. split; [done|]. split; [done|].
    intros Hu. destruct (under_package pth Hne Hu) as [(_ & _ & ?)|(x & k & E & _ & _ & Hx & Hxp)]; [congruence|].
    destruct (dir_listed (ScanCache.wkeep (walk st)) pth x Hx Hxp) as (c0 & Hc0 & En).
    apply (Hk c0 Hc0). rewrite En. exists k. by rewrite <-app_assoc.
Qed.

(** The walk from [books/], with the fuel the program's model gives it. *)
Lemma answers_walk a w0 :
  ScanCache.sound_walk t w0 →
  answers (λ st, skipAll st = false ∧ known (acc st))
    (dfs rw ign scan_visitor (walk_fuel t) [booksFolder] None true (mkWalkState a w0 false)).
Proof.
  intros Hw0 w Hw. eapply wp_mono; [apply answers_dfs|].
  - done.
  - done.
  - destruct Hvis as [_ _ _ _ Hd _ _]. apply (wf_ancestor t [booksFolder] (fs ++ [name])); [done| |by intros [_ ?]%app_nil].
    simpl. fold p. by eexists.
  - done.
  - intros q Hq. apply depth_bound in Hq; [|done]. rewrite length_app in Hq. unfold walk_fuel. lia.
  - done.
  - intros r w' (st & -> & Hw' & [Hsk _] & _ & Hk). exists st. split; [done|]. split; [done|].
    split; [done|]. apply Hk. by exists (fs ++ [name]).
Qed.

Lemma answers_metas l : ∀ metas, answers (λ _, True) (readFolderMetaForScan l metas).
Proof.
  induction l as [|f l IH]; intros metas; simpl; [by apply answers_ret|].
  eapply (answers_bind (λ _, True)); [|intros m0 _; apply IH].
  unfold loadFolderMeta. eapply answers_bind; [apply answers_try; unfold FolderMeta.readFolderMetaFile; frame|].
  intros [d|e] _; by apply answers_ret.
Qed.
End walk.

Lemma wp_lift_answers `{Machine} {A : Type} (R : A → Prop) (m : M world A) (Q : result error A → Shelf → Prop) s :
  answers (stree s) R m →
  (∀ a s', R a → stree s' = stree s → bcache s' = bcache s → scanCache s' = scanCache s →
     ignoreRules s' = ignoreRules s → readOnly s' = readOnly s → Q (Ok a) s') →
  wp (lift m) Q s.
Proof.
  intros Hm HQ. unfold wp, lift.
  destruct (Hm (sworld s) eq_refl) as (a & E & Hw & Ha).
  destruct (m (sworld s)) as [r w'] eqn:Em. simpl in *. subst r. by apply HQ.
Qed.

Lemma coherent_empty `{Machine} keep t : ScanCache.coherent keep t ∅.
Proof. intros q sn k n Hq. rewrite lookup_empty in Hq. discriminate. Qed.
Lemma sound_NewWalk `{Machine} t c :
  ScanCache.coherent (ScanCache.keepFiles c) t (ScanCache.dirs c) →
  ScanCache.sound_walk t (ScanCache.NewWalk c).
Proof.
  intros Hc. split; simpl; [|apply coherent_empty].
  by destruct (ScanCache.enabled c); [|apply coherent_empty].
Qed.

Section scan.
Context `{UnicodeCase, TimeTextLaws, Machine, !NoFaults, Digest, ShelfEnv}.

(** Claim C6: a full scan ends and finds every book. Without faults, from any
    state of the shelf whose directory listings of the last walk are coherent
    with the tree, [scanToBookCache] succeeds (its walk never runs out of
    fuel), changes no file, and leaves a cache that knows the ID of every
    package the rules do not hide, at any depth below [books/], whose
    [book.json] reads. *)
Theorem scan_finds_every_book (s : Shelf) fs name c z m :
  wf_tree (stree s) →
  ScanCache.coherent (ScanCache.keepFiles (scanCache s)) (stree s) (ScanCache.dirs (scanCache s)) →
  visible (stree s) (ignoreRules s) fs name c z m →
  wp scanToBookCache (λ r s', r = Ok tt ∧ stree s' = stree s ∧
    is_Some (cache (bcache s') !! ID (normalizeMetaVersion m))) s.
Proof.
  intros Hwf Hco Hvis. unfold scanToBookCache, iterateShelfTree.
  apply wp_bind, (wp_lift_answers (λ _, True)); [apply answers_now|].
  intros start s1 _ Et Eb Es Ei Er. apply wp_bind, wp_bind, wp_gets, wp_bind.
  assert (ScanCache.sound_walk (stree s1) (ScanCache.NewWalk (scanCache s1))) as Hwalk
    by (rewrite Et, Es; by apply sound_NewWalk).
  rewrite <-Et, <-Ei in Hvis. rewrite <-Et in Hwf.
  eapply wp_lift_answers; [exact (answers_walk (stree s1) Hwf (negb (readOnly s1)) (ignoreRules s1)
    fs name c z m Hvis (mkScanAcc [] [] ∅) _ Hwalk)|].
  intros st s2 [Hsk Hk] Et2 _ _ _ _. apply wp_bind, wp_modify, wp_ret, wp_bind.
  apply (wp_lift_answers (λ _, True)).
  { change (answers (stree s2) (λ _, True) (readFolderMetaForScan (smetaFolders (acc st)) ∅)). apply answers_metas.
    by rewrite Et2. }
  intros metas s3 _ Et3 _ _ _ _.
  apply wp_bind, (wp_lift_answers (λ _, True)); [apply answers_now|].
  intros scanned s4 _ Et4 _ _ _ _. apply wp_update_cache. split; [done|]. split.
  - change (stree s4 = stree s). rewrite Et4, Et3. change (stree s2 = stree s). by rewrite Et2, Et.
  - simpl. unfold keep_counts. rewrite map_lookup_imap. destruct Hk as [e He].
    rewrite He. by eexists.
Qed.
End scan.
End ScanComplete.
