(* ===== verification/Sample.v ===== *)
(** * A concrete environment

    An environment without faults, with a running clock, and concrete texts
    for timestamps and digests: the witnesses of the properties run the
    program in it. *)

From S2P Require Import Prelude Utf8 Strings Json Fs FsSpec Source NoFault ShelfState.

Module Sample.

(** Timestamps as the bits of a code of the whole second. *)
Fixpoint bits (p : positive) : bytes :=
  match p with
  | xH => []
  | xO p => "0"%char :: bits p
  | xI p => "1"%char :: bits p
  end.
Fixpoint of_bits (b : bytes) : positive :=
  match b with
  | [] => xH
  | c :: b => if decide (c = "0"%char) then xO (of_bits b) else xI (of_bits b)
  end.
Lemma of_bits_bits p : of_bits (bits p) = p.
Proof. induction p; simpl; congruence. Qed.

#[export] Instance time_text : TimeText := {
  format_rfc3339 t := bits (encode (whole_second t));
  parse_rfc3339 s := decode (of_bits s);
  parse_rfc3339_date s := decode (of_bits s);
  format_date t := bits (encode (t - t mod (86400 * second))%Z);
  parse_date s := decode (of_bits s);
  format_stamp t := "t"%char :: bits (encode t);
}.

#[export] Instance time_text_laws : TimeTextLaws.
Proof.
  split; intros t; simpl; rewrite ?of_bits_bits, ?decode_encode; try done.
  split; [done|]. constructor; [done|]. induction (encode t); simpl; constructor; done.
Qed.

#[export] Instance digest : Digest := {| md5_hex b := b; sha256_hex b := b |}.

#[export, refine] Instance machine : Machine := {
  fault _ := NoFault;
  clock n := (Z.of_nat n * second)%Z;
  Intn i n := i mod n;
  doc_text _ := [];
  dir_info _ _ := (0, 0)%Z;
}.
Proof. intros i n Hn. apply Nat.mod_upper_bound. lia. Defined.

#[export] Instance machine_no_faults : NoFaults.
Proof. done. Qed.

#[export] Instance shelf_env : ShelfEnv := {
  lock_times_out _ := false;
  newUUID n := str "id-" ++ Itoa (Z.of_nat n);
  Slugify s := filter (λ c, c ≠ "/"%char) s;
}.

Definition start (t : tree) : world := mkWorld t 0.

End Sample.
