(* ===== verification/Documents.v ===== *)
(** * Shared parts of the small documents

    What the reading progress, history, statistics and preferences documents
    have in common: maps written as JSON objects with sorted names, the order
    in which Go ranges over a map (a parameter: any order), and when two
    documents have the same text. *)

From S2P Require Import Prelude Utf8 Strings Float64 Json Fs FsSpec Atomic BookMeta.

(** The order of [for k, v := range m]: fixed for a run, otherwise any. *)
Class MapOrder := map_range : ∀ {A : Type}, gmap bytes A → list (bytes * A).
Class MapOrderLaws `{MapOrder} : Prop :=
  map_range_perm : ∀ {A : Type} (m : gmap bytes A), map_range m ≡ₚ map_to_list m.
(** [version.Version] *)
Class AppVersion := version_Version : bytes.

Module Documents.

(** [strings.TrimSpace(text) == ""] *)
Definition blank (c : content) : bool :=
  match c with Raw b => bool_decide (TrimSpace b = []) | Doc _ => false end.

(** A document [json.Marshal] accepts and prints without floats. *)
Fixpoint printable (j : json) : bool :=
  match j with
  | JNull | JBool _ | JInt _ => true
  | JNum _ => false
  | JStr s => Utf8.ValidString s
  | JArr l => forallb printable l
  | JObj l => forallb (λ m, Utf8.ValidString m.1 && printable m.2) l
  end.

(** What [json.Marshal] accepts at all: no invalid UTF-8, no number that JSON
    cannot write. *)
Fixpoint marshals (j : json) : bool :=
  match j with
  | JNull | JBool _ | JInt _ => true
  | JNum f => negb (F64.is_nan f) && negb (F64.is_inf f)
  | JStr s => Utf8.ValidString s
  | JArr l => forallb marshals l
  | JObj l => forallb (λ m, Utf8.ValidString m.1 && marshals m.2) l
  end.
Definition ErrMarshal : error := Msg "json: cannot marshal".

(** A name without white space around it, and not empty. *)
Definition trimmed (s : bytes) : Prop := TrimSpace s = s ∧ s ≠ [].
Lemma trimmed_TrimSpace s : TrimSpace s ≠ [] → trimmed (TrimSpace s).
Proof. intros Hs. split; [apply TrimSpace_idem|done]. Qed.

(** Different documents have different texts: the text reads back. *)
Class JsonText `{Machine} : Prop :=
  doc_text_inj j j' : printable j = true → printable j' = true → doc_text j = doc_text j' → j = j'.

(** ** Maps *)
Definition enc_map {A : Type} (enc : A → json) (m : gmap bytes A) : json :=
  JObj ((λ k, (k, match m !! k with Some a => enc a | None => JNull end)) <$>
        sort_strings (elements (dom m))).

Lemma elem_of_sorted {A : Type} (m : gmap bytes A) k :
  k ∈ sort_strings (elements (dom m)) ↔ is_Some (m !! k).
Proof. unfold sort_strings. rewrite merge_sort_Permutation, elem_of_elements. apply elem_of_dom. Qed.
Lemma NoDup_sorted {A : Type} (m : gmap bytes A) : NoDup (sort_strings (elements (dom m))).
Proof. unfold sort_strings. rewrite merge_sort_Permutation. apply NoDup_elements. Qed.

Lemma mapM_keys {A B : Type} (dec : json → option B) (g : A → B) (enc : A → json) (m : gmap bytes A) l :
  (∀ k a, m !! k = Some a → dec (enc a) = Some (g a)) → Forall (λ k, is_Some (m !! k)) l →
  mapM (λ x : bytes * json, pair x.1 <$> dec x.2)
    ((λ k, (k, match m !! k with Some a => enc a | None => JNull end)) <$> l) =
  Some (omap (λ k, pair k ∘ g <$> m !! k) l).
Proof.
  intros Hd. induction 1 as [|k l [a Ha] Hl IH]; [done|]. rewrite fmap_cons. cbn [mapM].
  simpl. rewrite Ha. simpl. rewrite (Hd k a Ha). simpl. by rewrite IH.
Qed.

(** A written map reads back, through what [dec] makes of its values. *)
Lemma dec_enc_map {A B : Type} (dec : json → option B) (g : A → B) (enc : A → json) (m : gmap bytes A) :
  (∀ k a, m !! k = Some a → dec (enc a) = Some (g a)) → Json.dec_map dec (enc_map enc m) = Some (g <$> m).
Proof.
  intros Hd. unfold Json.dec_map, enc_map. rewrite (mapM_keys dec g enc m) by
    (done || apply Forall_forall; intros k; apply elem_of_sorted). simpl. f_equal.
  assert ((omap (λ k, pair k ∘ g <$> m !! k) (sort_strings (elements (dom m)))).*1 =
    sort_strings (elements (dom m))) as Hfst.
  { assert (Forall (λ k, is_Some (m !! k)) (sort_strings (elements (dom m)))) as Hall
      by (apply Forall_forall; intros k; apply elem_of_sorted).
    induction Hall as [|k l [a Ha] Hl IH]; [done|]. simpl. rewrite Ha. simpl. by f_equal. }
  apply map_eq. intros k. apply option_eq. intros b. rewrite lookup_fmap.
  rewrite <-elem_of_list_to_map by (rewrite Hfst; apply NoDup_sorted). rewrite list_elem_of_omap. split.
  - intros (k' & _ & E). destruct (m !! k') eqn:Hk; [|done]. simpl in E. injection E as -> <-. by rewrite Hk.
  - intros Hb. exists k. destruct (m !! k) as [a|] eqn:Hk; [|done]. injection Hb as <-.
    split; [apply elem_of_sorted; eauto|done].
Qed.

Lemma unique_enc_map {A : Type} (enc : A → json) (m : gmap bytes A) :
  (∀ k a, m !! k = Some a → Json.unique_names (enc a) = true) → Json.unique_names (enc_map enc m) = true.
Proof.
  intros He. unfold enc_map. simpl. apply andb_true_intro. split.
  - apply bool_decide_true. rewrite <-list_fmap_compose. simpl. rewrite list_fmap_id. apply NoDup_sorted.
  - apply forallb_forall. intros x. rewrite <-list_elem_of_In, list_elem_of_fmap.
    intros (k & -> & [a Ha]%elem_of_sorted). simpl. rewrite Ha. by apply (He k).
Qed.

Lemma printable_enc_map {A : Type} (enc : A → json) (m : gmap bytes A) :
  printable (enc_map enc m) = true ↔
  map_Forall (λ k a, Utf8.ValidString k = true ∧ printable (enc a) = true) m.
Proof.
  unfold enc_map. simpl. rewrite forallb_forall. split.
  - intros Hall k a Ha. specialize (Hall (k, enc a)). simpl in Hall.
    apply andb_prop, Hall. rewrite <-list_elem_of_In, list_elem_of_fmap. exists k.
    rewrite Ha. split; [done|]. apply elem_of_sorted. eauto.
  - intros Hm x. rewrite <-list_elem_of_In, list_elem_of_fmap. intros (k & -> & [a Ha]%elem_of_sorted).
    simpl. rewrite Ha. apply andb_true_intro, (Hm k a Ha).
Qed.

(** The members of an object, one by one. *)
Lemma unique_obj l : bool_decide (NoDup l.*1) = true → Forall (λ m, Json.unique_names m.2 = true) l →
  Json.unique_names (JObj l) = true.
Proof.
  intros Hn Hl. cbn [Json.unique_names]. rewrite Hn. apply forallb_forall. intros m Hm.
  rewrite Forall_forall in Hl. apply Hl. by apply list_elem_of_In.
Qed.

(** ** Ranging over a map *)
Section range.
Context `{MapOrderLaws} {A : Type}.

Lemma elem_of_range (m : gmap bytes A) k a : (k, a) ∈ map_range m ↔ m !! k = Some a.
Proof. rewrite map_range_perm. apply elem_of_map_to_list. Qed.
Lemma NoDup_range (m : gmap bytes A) : NoDup (map_range m).*1.
Proof. rewrite map_range_perm. apply NoDup_fst_map_to_list. Qed.

(** A loop whose body changes the entry under the key it visits computes
    each entry by itself, in whatever order it ranges. *)
Definition pointwise {B : Type} (g : bytes → A → option B → option B)
    (step : gmap bytes B → bytes * A → gmap bytes B) (x : bytes * A) : Prop :=
  ∀ acc k, step acc x !! k = if decide (x.1 = k) then g k x.2 (acc !! k) else acc !! k.

Lemma foldl_pointwise {B : Type} (g : bytes → A → option B → option B)
    (step : gmap bytes B → bytes * A → gmap bytes B) (l : list (bytes * A)) (m0 : gmap bytes B) k :
  NoDup l.*1 → Forall (pointwise g step) l →
  foldl step m0 l !! k =
  match (list_to_map l : gmap bytes A) !! k with Some a => g k a (m0 !! k) | None => m0 !! k end.
Proof.
  revert m0. induction l as [|[k' a] l IH]; intros m0 Hn Hall; [simpl; by rewrite lookup_empty|].
  inversion Hn as [|? ? Hk' Hn']; subst. inversion Hall as [|? ? Hx Hall']; subst.
  simpl. rewrite IH by done. rewrite Hx. simpl. destruct (decide (k' = k)) as [->|Hne].
  - rewrite lookup_insert_eq. by rewrite not_elem_of_list_to_map_1.
  - by rewrite lookup_insert_ne.
Qed.

Lemma list_to_map_range (m : gmap bytes A) : (list_to_map (map_range m) : gmap bytes A) = m.
Proof.
  etrans; [|apply list_to_map_to_list]. apply list_to_map_proper; [apply NoDup_range|apply map_range_perm].
Qed.

Lemma foldl_range {B : Type} (g : bytes → A → option B → option B)
    (step : gmap bytes B → bytes * A → gmap bytes B) (m : gmap bytes A) (m0 : gmap bytes B) k :
  (∀ k a, m !! k = Some a → pointwise g step (k, a)) →
  foldl step m0 (map_range m) !! k =
  match m !! k with Some a => g k a (m0 !! k) | None => m0 !! k end.
Proof.
  intros Hp. rewrite (foldl_pointwise g), list_to_map_range; [done|apply NoDup_range|].
  apply Forall_forall. intros [k' a] Hin. by apply Hp, elem_of_range.
Qed.

(** What holds of every entry a loop puts in holds of the outcome. *)
Lemma foldl_map_Forall {B : Type} (P : bytes → B → Prop)
    (step : gmap bytes B → bytes * A → gmap bytes B) (l : list (bytes * A)) (m0 : gmap bytes B) :
  map_Forall P m0 → (∀ acc x, map_Forall P acc → map_Forall P (step acc x)) →
  map_Forall P (foldl step m0 l).
Proof. intros Hm Hs. revert m0 Hm. induction l as [|x l IH]; intros m0 Hm; simpl; auto. Qed.
End range.
End Documents.
