(* ===== verification/Fingerprint.v ===== *)
(** * Fingerprints of sources: [src/shelf/fingerprint] and [src/internal/appcache]

    The cache of text sketches a shelf keeps in [app/fingerprint-cache.json]:
    an index from sources to the content they were last seen with, and the
    fingerprints by content. A [Cache] is the Go struct as the shelf opens it
    ([fingerprint_facade.go]): its store is the folder [app/] of the shelf and
    a source's recorded hash is repaired by [Source.RepairContentHash]; logging
    is left out. What a fingerprint is made of is the caller's ([Builder]). *)

From S2P Require Import Prelude Utf8 Strings Float64 Json Fs FsSpec Atomic ShelfUtil BookMeta Source Frame ScanCache FolderMeta Book BookSpec NoFault ShelfState Documents.

(** [time.Time] in JSON: RFC 3339 with nanoseconds. *)
Class TimeNano := {
  format_nano : Z → bytes;
  parse_nano : bytes → option Z;
}.
Class TimeNanoLaws `{TimeNano} : Prop := parse_format_nano t : parse_nano (format_nano t) = Some t.

Module Fingerprint.
Import Json Documents BookMeta Book Shelf.

(** ** Data *)
Record Algo := mkAlgo { Normalize : bytes; Shingle : bytes; Hash : bytes; K : Z }.
#[export] Instance Algo_eq_dec : EqDecision Algo.
Proof. solve_decision. Defined.
Definition complete (a : Algo) : bool :=
  bool_decide (Normalize a ≠ []) && bool_decide (Shingle a ≠ []) && bool_decide (Hash a ≠ []) && (0 <? K a)%Z.

Record Entry := mkEntry { NormMD5 : bytes; NormChars : Z; Shingles : Z; ESketch : bytes }.
#[export] Instance Entry_eq_dec : EqDecision Entry.
Proof. solve_decision. Defined.
Definition Builder : Type := bytes → result error Entry.

Record Stats := mkStats { StatHits : Z; ContentHits : Z; Built : Z; Repaired : Z }.

Record indexEntry := mkIndex { ISize : Z; IModTime : Z; IMD5 : bytes; SeenAt : Z }.
#[export] Instance indexEntry_eq_dec : EqDecision indexEntry.
Proof. solve_decision. Defined.
Definition matches (e : indexEntry) (stat : option FileStat.FileStat) : bool :=
  match stat with
  | Some s => (ISize e =? FileStat.Size s)%Z && (IModTime e =? FileStat.ModTime s)%Z
  | None => false
  end.
Definition equalIgnoringSeenAt (e other : indexEntry) : bool :=
  (ISize e =? ISize other)%Z && (IModTime e =? IModTime other)%Z && bool_decide (IMD5 e = IMD5 other).
Definition supersedes (e other : indexEntry) : bool :=
  if negb (SeenAt e =? SeenAt other)%Z then (SeenAt other <? SeenAt e)%Z
  else (IModTime other <? IModTime e)%Z.

Definition schemaVersion : Z := 1.
Definition cacheFileName : bytes := str "fingerprint-cache.json".
Record cacheFile := mkCacheFile {
  FSchemaVersion : Z;
  Generator : bytes;
  FAlgo : Algo;
  FIndex : gmap bytes indexEntry;
  FEntries : gmap bytes Entry;
}.
Record Cache := mkCache {
  store_writable : bool;
  algo : Algo;
  index : gmap bytes indexEntry;
  entries : gmap bytes Entry;
  stats : Stats;
  answeredThisRun : gset bytes;
}.

(** ** The file *)
Section codec.
Context `{TimeText, TimeNano}.

Definition enc_time (t : Z) : json := JStr (format_nano t).
Definition dec_time (j : json) : option Z :=
  match j with JNull => Some zero_time | JStr s => parse_nano s | _ => None end.

Definition enc_algo (a : Algo) : json := written
  [("normalize", true, JStr (Normalize a)); ("shingle", true, JStr (Shingle a));
   ("hash", true, JStr (Hash a)); ("k", true, JInt (K a))]%string.
Definition dec_algo (j : json) : option Algo :=
  o ← dec_object j;
  normalize ← dec_string (member (str "normalize") o);
  shingle ← dec_string (member (str "shingle") o);
  hash ← dec_string (member (str "hash") o);
  k ← dec_int (member (str "k") o);
  Some (mkAlgo normalize shingle hash k).

Definition enc_index (e : indexEntry) : json := written
  [("size", true, JInt (ISize e)); ("mtime", true, enc_time (IModTime e)); ("md5", true, JStr (IMD5 e));
   ("seen_at", negb (JSONTime.IsZero (SeenAt e)), enc_time (SeenAt e))]%string.
Definition dec_index (j : json) : option indexEntry :=
  o ← dec_object j;
  size ← dec_int (member (str "size") o);
  mtime ← dec_time (member (str "mtime") o);
  md5 ← dec_string (member (str "md5") o);
  seen ← dec_time (member (str "seen_at") o);
  Some (mkIndex size mtime md5 seen).

Definition enc_entry (e : Entry) : json := written
  [("norm_md5", true, JStr (NormMD5 e)); ("norm_chars", true, JInt (NormChars e));
   ("shingles", true, JInt (Shingles e)); ("sketch", true, JStr (ESketch e))]%string.
Definition dec_entry (j : json) : option Entry :=
  o ← dec_object j;
  md5 ← dec_string (member (str "norm_md5") o);
  chars ← dec_int (member (str "norm_chars") o);
  shingles ← dec_int (member (str "shingles") o);
  sketch ← dec_string (member (str "sketch") o);
  Some (mkEntry md5 chars shingles sketch).

Definition enc_file (f : cacheFile) : json := written
  [("schema_version", true, JInt (FSchemaVersion f)); ("generator", true, JStr (Generator f));
   ("algo", true, enc_algo (FAlgo f)); ("index", true, enc_map enc_index (FIndex f));
   ("entries", true, enc_map enc_entry (FEntries f))]%string.
Definition dec_file (j : json) : option cacheFile :=
  o ← dec_object j;
  schema ← dec_int (member (str "schema_version") o);
  generator ← dec_string (member (str "generator") o);
  algo ← dec_algo (member (str "algo") o);
  index ← dec_map dec_index (member (str "index") o);
  entries ← dec_map dec_entry (member (str "entries") o);
  Some (mkCacheFile schema generator algo index entries).
End codec.

(** ** Keys *)
Definition indexKey (bookID sourceID : bytes) : bytes := bookID ++ str "/" ++ sourceID.
(** [strings.Cut(key, "/")] *)
Fixpoint cut_slash (s : bytes) : option (bytes * bytes) :=
  match s with
  | [] => None
  | c :: s' => if decide (c = "/"%char) then Some ([], s')
               else '(a, b) ← cut_slash s'; Some (c :: a, b)
  end.
Definition splitIndexKey (key : bytes) : option (bytes * bytes) :=
  '(bookID, sourceID) ← cut_slash key;
  if decide (bookID = [] ∨ sourceID = []) then None else Some (bookID, sourceID).

(** ** Merging and pruning

    The loops range over a map and touch the visited key alone, so their
    order does not matter. *)
Definition mergeEntries (es other : gmap bytes Entry) : gmap bytes Entry := es ∪ other.
Definition newer (current candidate : indexEntry) : indexEntry :=
  if supersedes candidate current then candidate else current.
Definition mergeIndex (ix other : gmap bytes indexEntry) : gmap bytes indexEntry :=
  union_with (λ current candidate, Some (newer current candidate)) ix other.
Definition alive (live : gset bytes) (key : bytes) : bool :=
  match splitIndexKey key with Some (bookID, _) => bool_decide (bookID ∈ live) | None => false end.
Definition pruneCache (ix : gmap bytes indexEntry) (es : gmap bytes Entry) (live keep : gset bytes) :
    gmap bytes indexEntry * gmap bytes Entry :=
  let ix := filter (λ kv, alive live kv.1 = true) ix in
  let referenced := keep ∪ list_to_set (IMD5 <$> (map_to_list ix).*2) in
  (ix, filter (λ kv, kv.1 ∈ referenced) es).

(** ** Operations *)
Section ops.
Context `{TimeText, TimeNano, Machine, Digest, AppVersion}.

Definition file_path : path := [appFolder; cacheFileName].
(** [func (c *Cache) readFile]: the file and its bytes. *)
Definition readFile : M world (cacheFile * bytes) :=
  c ← Open file_path;
  match unmarshal dec_file c with
  | Some f => if decide (FSchemaVersion f = schemaVersion) then mret (f, content_bytes c)
              else throw (Msg "fingerprint cache of another schema version")
  | None => throw ErrMalformedMetadata
  end.

(** [func Open], with the configuration of [OpenFingerprintCache] *)
Definition ErrIncompleteAlgo : error := Msg "fingerprint algorithm must name a normalization, a shingling, a hash and a k".
Definition OpenCache (writable : bool) (a : Algo) : M world Cache :=
  guard_err (negb (complete a)) ErrIncompleteAlgo;;
  read ← try readFile;
  let fresh ix es := mkCache writable a ix es (mkStats 0 0 0 0) ∅ in
  mret (match read with
        | Ok (stored, _) => if decide (FAlgo stored = a) then fresh (FIndex stored) (FEntries stored) else fresh ∅ ∅
        | Err _ => fresh ∅ ∅
        end).

Definition LookupRecorded (c : Cache) (bookID sourceID : bytes) : option Entry :=
  indexed ← index c !! indexKey bookID sourceID;
  entries c !! IMD5 indexed.
Record Coverage := mkCoverage { Total : nat; Fingerprinted : nat; Missing : nat; CAlgo : Algo }.
Definition CoverageFor (c : Cache) (books : list (bytes * bytes)) : Coverage :=
  let n := length (filter (λ b : bytes * bytes, is_Some (LookupRecorded c b.1 b.2)) books) in
  mkCoverage (length books) n (length books - n) (algo c).

Definition with_stats (s : Stats) (c : Cache) : Cache :=
  mkCache (store_writable c) (algo c) (index c) (entries c) s (answeredThisRun c).
Definition count_stat (c : Cache) : Cache :=
  with_stats (mkStats (StatHits (stats c) + 1) (ContentHits (stats c)) (Built (stats c)) (Repaired (stats c))) c.
Definition count_content (c : Cache) : Cache :=
  with_stats (mkStats (StatHits (stats c)) (ContentHits (stats c) + 1) (Built (stats c)) (Repaired (stats c))) c.
Definition count_built (c : Cache) : Cache :=
  with_stats (mkStats (StatHits (stats c)) (ContentHits (stats c)) (Built (stats c) + 1) (Repaired (stats c))) c.
Definition count_repaired (c : Cache) : Cache :=
  with_stats (mkStats (StatHits (stats c)) (ContentHits (stats c)) (Built (stats c)) (Repaired (stats c) + 1)) c.

Definition lookupByStat (key : bytes) (stat : option FileStat.FileStat) (c : Cache) : option Entry :=
  match index c !! key with
  | Some indexed => if matches indexed stat then entries c !! IMD5 indexed else None
  | None => None
  end.
Definition lookupByContent (md5Hash : bytes) (c : Cache) : option Entry := entries c !! md5Hash.

(** [func (c *Cache) record] *)
Definition observe (key : bytes) (stat : FileStat.FileStat) (readAt : Z) (md5Hash : bytes)
    (ix : gmap bytes indexEntry) : gmap bytes indexEntry :=
  let observed := mkIndex (FileStat.Size stat) (FileStat.ModTime stat) md5Hash readAt in
  let seen := match ix !! key with
              | Some current => if equalIgnoringSeenAt current observed then SeenAt current else readAt
              | None => readAt
              end in
  <[key := mkIndex (FileStat.Size stat) (FileStat.ModTime stat) md5Hash seen]> ix.
Definition record (key : bytes) (stat : option FileStat.FileStat) (readAt : Z) (md5Hash : bytes)
    (entry : Entry) (known : bool) (c : Cache) : Cache :=
  let c := if known then c else
    count_built (mkCache (store_writable c) (algo c) (index c) (<[md5Hash := entry]> (entries c)) (stats c)
      (answeredThisRun c)) in
  let ix := match stat with
            | Some s => if ScanCache.Settled (FileStat.ModTime s) readAt
                        then observe key s readAt md5Hash (index c) else index c
            | None => index c
            end in
  mkCache (store_writable c) (algo c) ix (entries c) (stats c) ({[md5Hash]} ∪ answeredThisRun c).

(** [func (c *Cache) repair] *)
Definition repair (s : Source.Source) (md5Hash : bytes) (c : Cache) : M world Cache :=
  repaired ← try (Source.RepairContentHash s md5Hash);
  mret (match repaired with Ok (true, _) => count_repaired c | _ => c end).

(** [func (c *Cache) resolve]: the fingerprint or the error, and the cache,
    which keeps what it learnt either way; [resolve_content] is its second
    half, for a source that has to be read. *)
Definition build_entry (build : Builder) (content : bytes) : result error Entry :=
  match build content with
  | Err e => Err e
  | Ok entry => if decide (ESketch entry = []) then Err (Msg "a fingerprint builder returned no sketch") else Ok entry
  end.
Definition resolve_content (key : bytes) (stat : option FileStat.FileStat) (s : Source.Source) (build : Builder)
    (force : bool) (c : Cache) : M world (result error Entry * Cache) :=
  readAt ← now;
  read ← try (Source.ReadContent s);
  match read with
  | Err e => mret (Err e, c)
  | Ok content =>
      let md5Hash := md5_hex content in
      c ← repair s md5Hash c;
      match (if force then None else lookupByContent md5Hash c) with
      | Some entry => mret (Ok entry, record key stat readAt md5Hash entry true (count_content c))
      | None =>
          mret (match build_entry build content with
                | Err e => (Err e, c)
                | Ok entry => (Ok entry, record key stat readAt md5Hash entry false c)
                end)
      end
  end.
Definition resolve (b : Book) (s : Source.Source) (build : Builder) (force : bool) (c : Cache) :
    M world (result error Entry * Cache) :=
  let key := indexKey (ID (meta b)) (source_id s) in
  statted ← try (Source.ContentStat s);
  let stat := match statted with Ok st => Some st | Err _ => None end in
  match (if force then None else lookupByStat key stat c) with
  | Some entry => mret (Ok entry, count_stat c)
  | None => resolve_content key stat s build force c
  end.
Definition Resolve (b : Book) (s : Source.Source) (build : Builder) := resolve b s build false.
Definition Rebuild (b : Book) (s : Source.Source) (build : Builder) := resolve b s build true.

(** [func (c *Cache) Save]; [live] is what [LiveBooks] answers. *)
Definition to_file (a : Algo) (ix : gmap bytes indexEntry) (es : gmap bytes Entry) : cacheFile :=
  mkCacheFile schemaVersion (str "plainshelf/" ++ version_Version) a ix es.
Definition merged (c : Cache) (read : result error (cacheFile * bytes)) :
    gmap bytes indexEntry * gmap bytes Entry * option bytes :=
  match read with
  | Ok (stored, raw) =>
      if decide (FAlgo stored = algo c)
      then (mergeIndex (index c) (FIndex stored), mergeEntries (entries c) (FEntries stored), Some raw)
      else (index c, entries c, None)
  | Err _ => (index c, entries c, None)
  end.
Definition Save (live : option (gset bytes)) (c : Cache) : M world Cache :=
  guard_err (negb (store_writable c)) ErrReadOnly;;
  read ← try readFile;
  let '(ix, es, raw) := merged c read in
  let '(ix, es) := match live with
                   | Some live => pruneCache ix es live (answeredThisRun c)
                   | None => (ix, es)
                   end in
  let data := Doc (enc_file (to_file (algo c) ix es)) in
  guard_err (negb (marshals (enc_file (to_file (algo c) ix es)))) ErrMarshal;;
  (if decide (raw = Some (content_bytes data)) then mret tt else Atomic.WriteFileAtomic file_path data);;
  mret (mkCache (store_writable c) (algo c) ix es (stats c) (answeredThisRun c)).

(** ** A shelf's cache: [fingerprint_facade.go] *)
Definition OpenFingerprintCache (a : Algo) : M Shelf Cache :=
  ro ← gets readOnly; lift (OpenCache (negb ro) a).
Definition FingerprintCoverageFor (a : Algo) (books : list (bytes * bytes)) : M Shelf Coverage :=
  c ← OpenFingerprintCache a; mret (CoverageFor c books).
Definition liveBookIDs (s : Shelf) : option (gset bytes) :=
  if ready s then Some (dom (cache (bcache s))) else None.
Definition SaveFingerprintCache (c : Cache) : M Shelf Cache :=
  live ← gets liveBookIDs; lift (Save live c).
End ops.

(** ** What is written reads back *)
Record storable_entry (e : Entry) : Prop := {
  se_chars : SourceMeta.in_int (NormChars e); se_shingles : SourceMeta.in_int (Shingles e) }.
Record storable (f : cacheFile) : Prop := {
  sf_schema : SourceMeta.in_int (FSchemaVersion f);
  sf_k : SourceMeta.in_int (K (FAlgo f));
  sf_index : map_Forall (λ _ e, SourceMeta.in_int (ISize e)) (FIndex f);
  sf_entries : map_Forall (λ _ e, storable_entry e) (FEntries f);
}.

Section roundtrip.
Context `{TimeText, TimeNanoLaws}.

Ltac read_fields :=
  unfold written; cbn [dec_object mbind option_bind]; fields; eval_fields;
  repeat first [rewrite dec_int_ok by done | rewrite parse_format_nano
    | progress cbn [id mbind option_bind dec_string dec_time enc_time Normalize Shingle Hash K ISize IModTime IMD5
        SeenAt NormMD5 NormChars Shingles ESketch FSchemaVersion Generator FAlgo FIndex FEntries]].
Lemma dec_enc_algo a : SourceMeta.in_int (K a) → dec_algo (enc_algo a) = Some a.
Proof. intros Hk. destruct a as [n s h k]. simpl in Hk. unfold dec_algo, enc_algo. by read_fields. Qed.
Lemma dec_enc_index e : SourceMeta.in_int (ISize e) → dec_index (enc_index e) = Some e.
Proof.
  intros Hs. destruct e as [sz mt md sn]. simpl in Hs. unfold dec_index, enc_index. read_fields.
  unfold JSONTime.IsZero. destruct (Z.eqb_spec sn zero_time) as [->|Hsn]; cbn [negb default id dec_time]; [done|].
  unfold enc_time, dec_time. by rewrite parse_format_nano.
Qed.
Lemma fp_dec_enc_entry e : storable_entry e → dec_entry (enc_entry e) = Some e.
Proof. intros [Hc Hs]. destruct e as [m c s k]. simpl in Hc, Hs. unfold dec_entry, enc_entry. by read_fields. Qed.
Lemma fp_dec_enc_file f : storable f → dec_file (enc_file f) = Some f.
Proof.
  intros [Hs Hk Hi He]. destruct f as [sv g a ix es]. simpl in Hs, Hk, Hi, He. unfold dec_file, enc_file. read_fields.
  rewrite dec_enc_algo by done. cbn [mbind option_bind].
  rewrite (dec_enc_map dec_index id enc_index) by (intros k e Hke; apply dec_enc_index; by eapply Hi).
  cbn [mbind option_bind].
  rewrite (dec_enc_map dec_entry id enc_entry) by (intros k e Hke; apply fp_dec_enc_entry; by eapply He).
  by rewrite !map_fmap_id.
Qed.
Lemma fp_unique_enc_file f : unique_names (enc_file f) = true.
Proof.
  apply unique_written; [done|]. repeat constructor; apply unique_enc_map; intros k e _; by apply unique_written; repeat constructor.
Qed.
Lemma fp_unmarshal_enc_file f : storable f → unmarshal dec_file (Doc (enc_file f)) = Some f.
Proof. intros Hf. unfold unmarshal. by rewrite fp_unique_enc_file, fp_dec_enc_file. Qed.
End roundtrip.
(** ** What Resolve answers *)
Section resolve.
Context `{TimeText, TimeNano, Machine, Digest, AppVersion} (build : Builder).

(** Every fingerprint was built from some content of its hash, and what the
    index says of a source is the hash of the content its file has. *)
Definition built_from (c : Cache) : Prop :=
  map_Forall (λ h e, ∃ data, md5_hex data = h ∧ build data = Ok e) (entries c).
Definition stat_of (d : content) (z : Z) : FileStat.FileStat := FileStat.mkFileStat z (content_size d).
Definition describes (key : bytes) (p : path) (c : Cache) (t : tree) : Prop :=
  ∀ ie d z, index c !! key = Some ie → t !! p = Some (File d z) → matches ie (Some (stat_of d z)) = true →
    IMD5 ie = md5_hex (content_bytes d).
(** The fingerprint is that of the content the source has, up to what has the
    same hash. *)
Definition fingerprint_of (p : path) (t : tree) (e : Entry) : Prop :=
  ∃ d z data, t !! p = Some (File d z) ∧ md5_hex data = md5_hex (content_bytes d) ∧ build data = Ok e.

Definition only_source_meta (s : Source.Source) (t t' : tree) : Prop :=
  ∀ q, q ≠ Source.meta_path s → ¬ Atomic.temp_of (Source.meta_path s) q → t' !! q = t !! q.

Lemma keeps_repair s h c :
  keeps (λ q, q = Source.meta_path s ∨ Atomic.temp_of (Source.meta_path s) q) (λ _, False) (repair s h c).
Proof.
  unfold repair, Source.RepairContentHash, Source.EnsureWritable, Source.writeRoot, Source.writebackMeta. frame.
  apply keeps_WriteFileAtomic; [..|by left|by right]; by apply Source.file_path_ok.
Qed.

Lemma wp_ContentStat s (Q : result error FileStat.FileStat → world → Prop) w :
  wtree w !! Source.source_path s ≠ Some Dir →
  (∀ e n, Q (Err e) (mkWorld (wtree w) n)) →
  (∀ d z n, wtree w !! Source.source_path s = Some (File d z) → Q (Ok (stat_of d z)) (mkWorld (wtree w) n)) →
  wp (Source.ContentStat s) Q w.
Proof.
  intros Hd HE HO. apply wp_bind, wp_StatInfo. intros [[n [z sz]]|e] k Hi _; [|apply HE].
  apply wp_ret. destruct (Hi _ eq_refl) as [[Hn _]%find_node_ok E]. simpl in Hn, E.
  destruct n as [|d z']; [done|]. simpl in E. injection E as -> ->. by apply HO.
Qed.
Lemma wp_ReadContent s (Q : result error bytes → world → Prop) w :
  (∀ e n, Q (Err e) (mkWorld (wtree w) n)) →
  (∀ d z n, wtree w !! Source.source_path s = Some (File d z) → Q (Ok (content_bytes d)) (mkWorld (wtree w) n)) →
  wp (Source.ReadContent s) Q w.
Proof.
  intros HE HO. apply wp_bind, Source.wp_Open_content; [apply HE|]. intros d z n Hd. apply wp_ret. by eapply HO.
Qed.

Lemma source_path_not_meta s :
  Source.source_path s ≠ Source.meta_path s ∧ ¬ Atomic.temp_of (Source.meta_path s) (Source.source_path s).
Proof.
  split; [by intros [_ E]%app_inj_tail|]. intros Ht. by apply Source.temp_of_sibling in Ht.
Qed.
Lemma wp_repair s h c (Q : result error Cache → world → Prop) w :
  wf_tree (wtree w) →
  (∀ c' w', c' = c ∨ c' = count_repaired c → only_source_meta s (wtree w) (wtree w') → Q (Ok c') w') →
  wp (repair s h c) Q w.
Proof.
  intros Hw HQ. pose proof (keeps_repair s h c w Hw) as [_ Ht]. unfold wp.
  assert (∃ c', (repair s h c w).1 = Ok c' ∧ (c' = c ∨ c' = count_repaired c)) as (c' & E & Hc).
  { unfold repair, try, mbind, M_bind. destruct (Source.RepairContentHash s h w) as [[[[] ?]|?] ?]; eauto. }
  destruct (repair s h c w) as [r w']. simpl in *. subst r. apply HQ; [done|].
  intros q Hq Hp. by destruct (Ht q) as [[?|?]|[?|(_ & _ & [])]].
Qed.

Lemma describes_same key p c c' t t' :
  index c' = index c → t' !! p = t !! p → describes key p c t → describes key p c' t'.
Proof. intros Hi Ht Hd ie d z. rewrite Hi, Ht. apply Hd. Qed.
Lemma built_same c c' : entries c' = entries c → built_from c → built_from c'.
Proof. unfold built_from. by intros ->. Qed.

Lemma observe_same key stat readAt h ix ie :
  observe key stat readAt h ix !! key = Some ie → IMD5 ie = h.
Proof. unfold observe. rewrite lookup_insert_eq. by intros [= <-]. Qed.
Lemma describes_record key p d z stat readAt h entry known c t :
  t !! p = Some (File d z) → h = md5_hex (content_bytes d) →
  describes key p c t → describes key p (record key stat readAt h entry known c) t.
Proof.
  intros Hp Hh Hd ie d' z'. assert (index (record key stat readAt h entry known c) =
    match stat with Some s => if ScanCache.Settled (FileStat.ModTime s) readAt then observe key s readAt h (index c) else index c
    | None => index c end) as -> by (unfold record; by destruct known).
  rewrite Hp. destruct stat as [s|]; [case_match|]; intros Hi Hf Hm; injection Hf as <- <-; [|by eapply Hd..].
  apply observe_same in Hi. congruence.
Qed.
Lemma built_record key stat readAt h data entry known c :
  md5_hex data = h → build data = Ok entry → built_from c → built_from (record key stat readAt h entry known c).
Proof.
  intros Hh Hb Hc. unfold record. destruct known; [done|]. simpl. apply map_Forall_insert_2; [|done]. by exists data.
Qed.

(** The index only records a file that was last written a while before it was
    read: what rewrites it later gives it another time. *)
Definition settled (c : Cache) : Prop := map_Forall (λ _ ie, (IModTime ie < SeenAt ie)%Z) (index c).
Lemma describes_rewritten key p c t t' :
  settled c → describes key p c t →
  t' !! p = t !! p ∨ (∃ d z, t' !! p = Some (File d z) ∧ ∀ ie, index c !! key = Some ie → (SeenAt ie ≤ z)%Z) →
  describes key p c t'.
Proof.
  intros Hs Hd [E|(d & z & E & Hz)] ie d' z' Hi Hf Hm; [rewrite E in Hf; by eapply Hd|].
  rewrite E in Hf. injection Hf as <- <-. specialize (Hs _ _ Hi). specialize (Hz _ Hi). simpl in Hs.
  unfold matches in Hm. simpl in Hm. apply andb_true_iff in Hm as [_ Hm]. lia.
Qed.
Lemma settled_record key stat readAt h entry known c :
  settled c → settled (record key stat readAt h entry known c).
Proof.
  intros Hs. assert (settled (mkCache (store_writable c) (algo c) (match stat with
    | Some st => if ScanCache.Settled (FileStat.ModTime st) readAt then observe key st readAt h (index c) else index c
    | None => index c end) ∅ (mkStats 0 0 0 0) ∅)) as Hgo; [|unfold record; by destruct known].
  unfold settled. simpl. destruct stat as [st|]; [|done]. destruct (ScanCache.Settled _ _) eqn:Hst; [|done].
  unfold ScanCache.Settled, ScanCache.RacyWindow, second in Hst. apply map_Forall_insert_2; [|done]. simpl.
  destruct (index c !! key) as [cur|] eqn:Hc; [|lia]. case_match eqn:He; [|lia].
  specialize (Hs _ _ Hc). simpl in Hs. unfold equalIgnoringSeenAt in He. simpl in He.
  rewrite !andb_true_iff in He. lia.
Qed.
Definition resolved (key : bytes) (s : Source.Source) (c : Cache) (w : world) (r : result error (result error Entry * Cache))
    (w' : world) : Prop :=
  ∃ res c', r = Ok (res, c') ∧ only_source_meta s (wtree w) (wtree w') ∧ built_from c' ∧
    describes key (Source.source_path s) c' (wtree w') ∧ (settled c → settled c') ∧
    (∀ e, res = Ok e → fingerprint_of (Source.source_path s) (wtree w') e).

Lemma resolve_content_current key stat s force c w :
  wf_tree (wtree w) → built_from c → describes key (Source.source_path s) c (wtree w) →
  wp (resolve_content key stat s build force c) (resolved key s c w) w.
Proof.
  intros Hw Hb Hd. apply wp_bind, wp_now. intros readAt n. apply wp_bind, wp_try, wp_ReadContent.
  { intros e k. apply wp_ret. exists (Err e), c. split_and!; try done. }
  intros d z k Hf. simpl in Hf. apply wp_bind, wp_repair; [done|]. intros c' w' Hc' Ht.
  assert (wtree w' !! Source.source_path s = Some (File d z)) as Hf'.
  { rewrite Ht by apply source_path_not_meta. done. }
  assert (built_from c') as Hb' by (by destruct Hc' as [->| ->]).
  assert (describes key (Source.source_path s) c' (wtree w')) as Hd'.
  { eapply describes_same, Hd; [by destruct Hc' as [->| ->]|]. by rewrite Hf', <-Hf. }
  destruct (if force then None else lookupByContent (md5_hex (content_bytes d)) c') as [entry|] eqn:El.
  - assert (lookupByContent (md5_hex (content_bytes d)) c' = Some entry) as Hl by (by destruct force).
    destruct (Hb' _ _ Hl) as (data & Hdata & Hbuild). apply wp_ret. eexists _, _. split; [done|]. split_and!.
    + done.
    + by eapply built_record.
    + by eapply describes_record.
    + intros Hs. apply settled_record. by destruct Hc' as [->| ->].
    + intros e [= <-]. by exists d, z, data.
  - apply wp_ret. destruct (build_entry build (content_bytes d)) as [entry|e] eqn:Hbe.
    2: { eexists _, _. split; [done|]. split_and!; try done. by destruct Hc' as [->| ->]. }
    unfold build_entry in Hbe. destruct (build (content_bytes d)) as [entry'|] eqn:Hbuild; [|done].
    case_decide; [done|]. injection Hbe as ->. eexists _, _. split; [done|]. split_and!.
    + done.
    + by eapply built_record.
    + by eapply describes_record.
    + intros Hs. apply settled_record. by destruct Hc' as [->| ->].
    + intros e [= <-]. by exists d, z, (content_bytes d).
Qed.

End resolve.

(** ** What Save leaves *)
Section save.
Context `{TimeText, TimeNanoLaws, Machine, Digest, AppVersion}.

Lemma dec_int_range j z : dec_int j = Some z → SourceMeta.in_int z.
Proof.
  destruct j; simpl; try done; [by intros [= <-]|]. case_decide; [by intros [= <-]|done].
Qed.
Lemma dec_map_values {A : Type} (dec : json → option A) j m :
  dec_map dec j = Some m → map_Forall (λ _ a, ∃ j, dec j = Some a) m.
Proof.
  unfold dec_map. destruct j; try done; [intros [= <-]; apply map_Forall_empty|].
  destruct (mapM _ l) as [kvs|] eqn:E; [|done]. intros [= <-] k a Hk.
  apply elem_of_list_to_map_2 in Hk. apply mapM_Some_1 in E.
  destruct (list_elem_of_lookup_1 _ _ Hk) as [i Hi]. destruct (Forall2_lookup_r _ _ _ _ _ E Hi) as (x & _ & Hx).
  destruct (dec x.2) eqn:Hd; [|done]. simpl in Hx. injection Hx as _ <-. eauto.
Qed.
Lemma dec_index_range j e : dec_index j = Some e → SourceMeta.in_int (ISize e).
Proof.
  unfold dec_index. intros (o & _ & (sz & Hsz & (mt & _ & (md & _ & (sn & _ & [= <-])%bind_Some)%bind_Some)%bind_Some)%bind_Some)%bind_Some.
  simpl. by eapply dec_int_range.
Qed.
Lemma dec_entry_range j e : dec_entry j = Some e → storable_entry e.
Proof.
  unfold dec_entry. intros (o & _ & (m & _ & (c & Hc & (s & Hs & (k & _ & [= <-])%bind_Some)%bind_Some)%bind_Some)%bind_Some)%bind_Some.
  split; simpl; by eapply dec_int_range.
Qed.
Lemma dec_file_storable j f : dec_file j = Some f → storable f.
Proof.
  unfold dec_file. intros (o & _ & (sv & Hsv & (g & _ & (a & Ha & (ix & Hix & (es & Hes & [= <-])%bind_Some)%bind_Some)%bind_Some)%bind_Some)%bind_Some)%bind_Some.
  split; simpl.
  - by eapply dec_int_range.
  - unfold dec_algo in Ha. apply bind_Some in Ha as (o' & _ & (n & _ & (s & _ & (h & _ & (k & Hk & [= <-])%bind_Some)%bind_Some)%bind_Some)%bind_Some).
    simpl. by eapply dec_int_range.
  - intros k e Hk. apply dec_map_values in Hix. destruct (Hix _ _ Hk) as [j' Hj]. by eapply dec_index_range.
  - intros k e Hk. apply dec_map_values in Hes. destruct (Hes _ _ Hk) as [j' Hj]. by eapply dec_entry_range.
Qed.

Definition on_disk (t : tree) (f : cacheFile) (raw : bytes) : Prop :=
  ∃ c z, t !! file_path = Some (File c z) ∧ unmarshal dec_file c = Some f ∧ raw = content_bytes c.
Lemma wp_readFile (Q : result error (cacheFile * bytes) → world → Prop) w :
  (∀ e n, Q (Err e) (mkWorld (wtree w) n)) →
  (∀ f raw n, on_disk (wtree w) f raw → Q (Ok (f, raw)) (mkWorld (wtree w) n)) →
  wp readFile Q w.
Proof.
  intros HE HO. apply wp_bind, Source.wp_Open_content; [apply HE|]. intros c z n Hc.
  destruct (unmarshal dec_file c) as [f|] eqn:Hf; [|apply wp_throw, HE].
  case_decide; [|apply wp_throw, HE]. apply wp_ret, HO. by exists c, z.
Qed.

(** The records a save may keep for a source: those of the cache and of the
    file it finds, if it was built by the same rules. *)
Definition candidates (c : Cache) (t : tree) (key : bytes) (ie : indexEntry) : Prop :=
  index c !! key = Some ie ∨ ∃ f raw, on_disk t f raw ∧ FAlgo f = algo c ∧ FIndex f !! key = Some ie.
Definition known_entries (c : Cache) (t : tree) (h : bytes) (e : Entry) : Prop :=
  entries c !! h = Some e ∨
  entries c !! h = None ∧ ∃ f raw, on_disk t f raw ∧ FAlgo f = algo c ∧ FEntries f !! h = Some e.

Lemma merged_spec c t read :
  (∀ f raw, read = Ok (f, raw) → on_disk t f raw) →
  let '(ix, es, raw) := merged c read in
  (∀ key ie, ix !! key = Some ie → candidates c t key ie ∧
     ∀ ie', index c !! key = Some ie' → supersedes ie' ie = false) ∧
  (∀ key, is_Some (index c !! key) → is_Some (ix !! key)) ∧
  (∀ h e, es !! h = Some e → known_entries c t h e) ∧ (∀ h e, entries c !! h = Some e → es !! h = Some e) ∧
  (∀ r, raw = Some r → ∃ f, on_disk t f r).
Proof.
  assert (∀ ie, supersedes ie ie = false) as Hirr.
  { intros ie. unfold supersedes. rewrite Z.eqb_refl. simpl. lia. }
  assert (∀ key ie ie', index c !! key = Some ie → index c !! key = Some ie' → supersedes ie' ie = false) as Hsame.
  { intros key ie ie' E1 E2. rewrite E1 in E2. injection E2 as <-. apply Hirr. }
  intros Hr. unfold merged. destruct read as [[f raw]|e].
  2: { split_and!; try done; intros; [split; [by left|by eauto]|by left]. }
  case_decide as Ha.
  2: { split_and!; try done; intros; [split; [by left|by eauto]|by left]. }
  specialize (Hr f raw eq_refl). split_and!.
  - intros key ie. unfold mergeIndex. rewrite lookup_union_with.
    destruct (index c !! key) as [cur|] eqn:Ec, (FIndex f !! key) as [cand|] eqn:Ef; simpl; try done.
    + intros [= <-]. unfold newer. destruct (supersedes cand cur) eqn:Es.
      * split; [right; by exists f, raw|]. intros ie' [= <-]. unfold supersedes in *.
        destruct (SeenAt cand =? SeenAt cur)%Z eqn:E1; simpl in *; [|destruct (SeenAt cur =? SeenAt cand)%Z eqn:E2; simpl; lia].
        rewrite Z.eqb_sym, E1. simpl. lia.
      * split; [by left|]. intros ie' [= <-]. apply Hirr.
    + intros [= <-]. split; [by left|]. intros ie' [= <-]. apply Hirr.
    + intros [= <-]. split; [right; by exists f, raw|done].
  - intros key [ie Hi]. unfold mergeIndex. rewrite lookup_union_with, Hi. by destruct (FIndex f !! key).
  - intros h e. unfold mergeEntries. rewrite lookup_union_Some_raw. intros [He|[He Hf]]; [by left|].
    right. split; [done|]. by exists f, raw.
  - intros h e He. by apply lookup_union_Some_l.
  - intros r [= <-]. by exists f.
Qed.
(** What is left of a record for a source of a book that may be gone. *)
Definition spared (live : option (gset bytes)) (key : bytes) : Prop :=
  match live with Some l => alive l key = true | None => True end.
Definition needed (live : option (gset bytes)) (c c' : Cache) (h : bytes) : Prop :=
  live = None ∨ h ∈ answeredThisRun c ∨ ∃ key ie, index c' !! key = Some ie ∧ IMD5 ie = h.
Record saved (live : option (gset bytes)) (c : Cache) (t : tree) (c' : Cache) : Prop := {
  sv_algo : algo c' = algo c;
  sv_index key ie : index c' !! key = Some ie → candidates c t key ie ∧ spared live key ∧
    ∀ ie', index c !! key = Some ie' → supersedes ie' ie = false;
  sv_kept key : is_Some (index c !! key) → spared live key → is_Some (index c' !! key);
  sv_entries h e : entries c' !! h = Some e → known_entries c t h e ∧ needed live c c' h;
  sv_kept_entries h e : entries c !! h = Some e → needed live c c' h → entries c' !! h = Some e;
}.
Definition pruned (live : option (gset bytes)) (c : Cache) (ixes : gmap bytes indexEntry * gmap bytes Entry) :
    gmap bytes indexEntry * gmap bytes Entry :=
  match live with
  | Some l => pruneCache ixes.1 ixes.2 l (answeredThisRun c)
  | None => ixes
  end.
Definition keeping (c : Cache) (ixes : gmap bytes indexEntry * gmap bytes Entry) : Cache :=
  mkCache (store_writable c) (algo c) ixes.1 ixes.2 (stats c) (answeredThisRun c).

Lemma lookup_pruned_index live c ix es key ie :
  (pruned live c (ix, es)).1 !! key = Some ie ↔ ix !! key = Some ie ∧ spared live key.
Proof. destruct live as [l|]; simpl; [|naive_solver]. by rewrite map_lookup_filter_Some. Qed.
Lemma lookup_pruned_entries live c ix es h e :
  (pruned live c (ix, es)).2 !! h = Some e ↔
  es !! h = Some e ∧ needed live c (keeping c (pruned live c (ix, es))) h.
Proof.
  destruct live as [l|]; simpl; [|unfold needed; naive_solver]. rewrite map_lookup_filter_Some.
  assert (∀ P Q Q' : Prop, (Q ↔ Q') → (P ∧ Q ↔ P ∧ Q')) as Hand by tauto. apply Hand. unfold needed. simpl.
  rewrite elem_of_union, elem_of_list_to_set, list_elem_of_fmap. split.
  - intros [Ha|(ie & -> & ([key ie'] & -> & Hk%elem_of_map_to_list)%list_elem_of_fmap)]; [by auto|]. right. right. by exists key, ie'.
  - intros [?|[?|(key & ie & Hk & <-)]]; [done|by left|]. right. exists ie. split; [done|].
    apply list_elem_of_fmap. exists (key, ie). split; [done|]. by apply elem_of_map_to_list.
Qed.
Lemma saved_merged live c t read ix es raw :
  (∀ f raw, read = Ok (f, raw) → on_disk t f raw) → merged c read = (ix, es, raw) →
  saved live c t (keeping c (pruned live c (ix, es))).
Proof.
  intros Hr E. pose proof (merged_spec c t read Hr) as Hm. rewrite E in Hm.
  destruct Hm as (Hix & Hkept & Hes & Hkeep & _). split; simpl.
  - done.
  - intros key ie [Hk Hs]%lookup_pruned_index. destruct (Hix _ _ Hk). eauto.
  - intros key [ie Hk]%Hkept Hs. exists ie. by apply lookup_pruned_index.
  - intros h e [He Hn]%lookup_pruned_entries. eauto.
  - intros h e He Hn. apply lookup_pruned_entries. eauto.
Qed.

Definition file_of (c : Cache) : cacheFile := to_file (algo c) (index c) (entries c).
Lemma saved_storable live c t c' : storable (file_of c) → saved live c t c' → storable (file_of c').
Proof.
  intros [Hs Hk Hi He] [Ha Hix _ Hes _].
  assert (∀ f raw, on_disk t f raw → storable f) as Hf.
  { intros f raw (d & z & _ & Hu & _). destruct d as [|j]; [done|]. unfold unmarshal in Hu. case_match; [|done].
    by eapply dec_file_storable. }
  split; simpl in *; [done|by rewrite Ha| |].
  - intros key ie Hl. destruct (Hix _ _ Hl) as [[?|(f & raw & Hd & _ & Hfi)] _]; [by eapply Hi|].
    by eapply (sf_index _ (Hf _ _ Hd)).
  - intros h e Hl. destruct (Hes _ _ Hl) as [[?|(_ & f & raw & Hd & _ & Hfe)] _]; [by eapply He|].
    by eapply (sf_entries _ (Hf _ _ Hd)).
Qed.

(** The file holds the cache, and what it holds reads back. *)
Definition recorded (c : Cache) (t : tree) : Prop :=
  ∃ d z, t !! file_path = Some (File d z) ∧ content_bytes d = content_bytes (Doc (enc_file (file_of c))) ∧
    unmarshal dec_file (Doc (enc_file (file_of c))) = Some (file_of c).
Definition only_cache_file (t t' : tree) : Prop :=
  ∀ q, q ≠ file_path → ¬ Atomic.temp_of file_path q → t' !! q = t !! q.

(** Saving the cache merges it with what another run left in the file and
    prunes what no live book needs. What is kept for a source is a record of
    one of the two, never one older than the cache's own; no record of a live
    source is lost, and neither is a fingerprint of this run or one a record
    refers to. On success the file holds exactly the cache that is returned,
    and reads back as it. Whatever fails, no other file changes but temporary
    siblings. *)
Theorem Save_keeps_newest live c w :
  wf_tree (wtree w) → storable (file_of c) →
  wp (Save live c) (λ r w', only_cache_file (wtree w) (wtree w') ∧
    ∀ c', r = Ok c' → saved live c (wtree w) c' ∧ recorded c' (wtree w')) w.
Proof.
  intros Hw Hs. apply wp_bind, wp_guard; intros _; [split; done|].
  assert (∀ read n, (∀ f raw, read = Ok (f, raw) → on_disk (wtree w) f raw) →
    wp ('(ix, es, raw) ← of_result (Ok (merged c read));
        let '(ix, es) := match live with Some live => pruneCache ix es live (answeredThisRun c) | None => (ix, es) end in
        let data := Doc (enc_file (to_file (algo c) ix es)) in
        guard_err (negb (marshals (enc_file (to_file (algo c) ix es)))) ErrMarshal;;
        (if decide (raw = Some (content_bytes data)) then mret tt else Atomic.WriteFileAtomic file_path data);;
        mret (mkCache (store_writable c) (algo c) ix es (stats c) (answeredThisRun c)))
      (λ r w', only_cache_file (wtree w) (wtree w') ∧
        ∀ c', r = Ok c' → saved live c (wtree w) c' ∧ recorded c' (wtree w')) (mkWorld (wtree w) n)) as Hgo.
  { intros read n Hr. apply wp_bind, wp_of_result. destruct (merged c read) as [[ix es] raw] eqn:Em.
    pose proof (saved_merged live c (wtree w) read ix es raw Hr Em) as Hsv.
    pose proof (fp_unmarshal_enc_file _ (saved_storable _ _ _ _ Hs Hsv)) as Hu.
    assert (∀ r, raw = Some r → ∃ f, on_disk (wtree w) f r) as Hraw.
    { pose proof (merged_spec c _ read Hr) as Hm. rewrite Em in Hm. apply Hm. }
    clear Em Hr read. change (match live with Some live => pruneCache ix es live (answeredThisRun c) | None => (ix, es) end)
      with (pruned live c (ix, es)). unfold keeping, file_of in *. destruct (pruned live c (ix, es)) as [ix' es']. cbv zeta.
    simpl in Hsv, Hu. apply wp_bind, wp_guard; intros _; [split; done|]. apply wp_bind. case_decide as Hd.
    - apply wp_ret, wp_ret. split; [done|]. intros c' [= <-]. split; [done|].
      destruct (Hraw _ Hd) as (f & d & z & Hl & _ & Hb). by exists d, z.
    - apply Atomic.wp_WriteFileAtomic; [done..| |].
      + intros e w' [_ Ho]. split; [|done]. intros q Hq Ht. by apply Ho.
      + intros z w' [_ Ho] Hl. apply wp_ret. split; [intros q Hq Ht; by apply Ho|].
        intros c' [= <-]. split; [done|]. by eexists _, z. }
  apply wp_bind, wp_try, wp_readFile.
  - intros e n. by apply (Hgo (Err e)).
  - intros f raw n Hf. apply (Hgo (Ok (f, raw))). by intros ? ? [= <- <-].
Qed.
End save.
End Fingerprint.
