(* ===== verification/CacheExport.v ===== *)
(** * Exported book caches: [app/book-cache-*.json] and relative paths

    The document an installation leaves beside the shelf for others to list
    it from ([shelf_cache_export.go]: [BookCacheFile] and its parts), its
    digest, and the checks on the paths such a document names
    ([shelf_cache_snapshot.go]: [isRelativeShelfPath], [isBookPackagePath]).
    What is written reads back ([dec_enc_file]); a path that passes is a
    sequence of plain segments ([isRelativeShelfPath_spec]). *)

From S2P Require Import Prelude Utf8 Strings Float64 Json Fs FsSpec Atomic ShelfUtil BookMeta Source Frame ScanCache FolderMeta Book ShelfState Trash Folder ShelfBook ShelfFrame Documents.

(** [json.Marshal] without an indent, which a digest is taken of. *)
Class CompactText := compact_text : json → bytes.

Module CacheFile.
Import Json Documents BookMeta Book Shelf.

Definition BookCacheSchemaVersion : Z := 2.
Definition bookCacheFilePrefix : bytes := str "book-cache-".
Definition bookCacheFileSuffix : bytes := str ".json".
Definition defaultBookCacheInterval : Z := (3600 * second)%Z.
Definition bookCacheRetention : Z := (30 * 24 * 3600 * second)%Z.

(** ** The document; a nil pointer and a nil map are [None]. *)
Record BookCacheFolderMeta := mkCacheMeta {
  XSortKey : option F64.float64;
  XIcon : bytes;
  XReadOnly : bool;
}.
#[export] Instance BookCacheFolderMeta_eq_dec : EqDecision BookCacheFolderMeta.
Proof. solve_decision. Defined.
Record BookCacheEntry := mkCacheEntry {
  XPath : bytes;
  XMeta : option BookMeta;
  XNSFW : bool;
  CurrentSourceMD5 : bytes;
  CurrentSourceFormat : bytes;
}.
Record BookCacheFile := mkCacheFile {
  XSchemaVersion : Z;
  WriterID : bytes;
  Timestamp : Z;
  XGenerator : bytes;
  Folders : list bytes;
  XFolderMeta : option (gmap bytes BookCacheFolderMeta);
  Books : gmap bytes BookCacheEntry;
}.

Section codec.
Context `{TimeText}.

Definition enc_folder_meta (m : BookCacheFolderMeta) : json := written
  [("sort_key", bool_decide (is_Some (XSortKey m)), default JNull (FolderMeta.Object.enc_float <$> XSortKey m));
   ("icon", negb (bool_decide (XIcon m = [])), JStr (XIcon m));
   ("read_only", XReadOnly m, JBool (XReadOnly m))]%string.
(** Into a pointer: [null] is nil. *)
Definition dec_pointer {A : Type} (dec : json → option A) (j : json) : option (option A) :=
  match j with JNull => Some None | _ => Some <$> dec j end.
Definition dec_folder_meta (j : json) : option BookCacheFolderMeta :=
  o ← dec_object j;
  sort_key ← dec_pointer dec_float (member (str "sort_key") o);
  icon ← dec_string (member (str "icon") o);
  read_only ← dec_bool (member (str "read_only") o);
  Some (mkCacheMeta sort_key icon read_only).

Definition enc_entry (e : BookCacheEntry) : json := written
  [("path", true, JStr (XPath e));
   ("meta", true, default JNull (encode <$> XMeta e));
   ("nsfw", XNSFW e, JBool (XNSFW e));
   ("current_source_md5", negb (bool_decide (CurrentSourceMD5 e = [])), JStr (CurrentSourceMD5 e));
   ("current_source_format", negb (bool_decide (CurrentSourceFormat e = [])), JStr (CurrentSourceFormat e))]%string.
Definition dec_entry (j : json) : option BookCacheEntry :=
  o ← dec_object j;
  pth ← dec_string (member (str "path") o);
  m ← dec_pointer decode (member (str "meta") o);
  nsfw ← dec_bool (member (str "nsfw") o);
  md5 ← dec_string (member (str "current_source_md5") o);
  format ← dec_string (member (str "current_source_format") o);
  Some (mkCacheEntry pth m nsfw md5 format).

Definition content_fields (f : BookCacheFile) : list field :=
  [("folders", true, enc_strings (Folders f));
   ("folder_meta", bool_decide (is_Some (XFolderMeta f)), default JNull (enc_map enc_folder_meta <$> XFolderMeta f));
   ("books", true, enc_map enc_entry (Books f))]%string.
Definition enc_file (f : BookCacheFile) : json := written
  ([("schema_version", true, JInt (XSchemaVersion f)); ("writer_id", true, JStr (WriterID f));
    ("timestamp", true, JInt (Timestamp f)); ("generator", true, JStr (XGenerator f))]%string
   ++ content_fields f).
Definition dec_file (j : json) : option BookCacheFile :=
  o ← dec_object j;
  schema ← dec_int (member (str "schema_version") o);
  writer ← dec_string (member (str "writer_id") o);
  timestamp ← dec_int (member (str "timestamp") o);
  generator ← dec_string (member (str "generator") o);
  folders ← dec_list dec_string (member (str "folders") o);
  folder_meta ← dec_pointer (dec_map dec_folder_meta) (member (str "folder_meta") o);
  books ← dec_map dec_entry (member (str "books") o);
  Some (mkCacheFile schema writer timestamp generator folders folder_meta books).

(** [func bookCacheDigest] *)
Definition bookCacheDigest `{CompactText, Digest} (f : BookCacheFile) : result error bytes :=
  if marshals (written (content_fields f)) then Ok (sha256_hex (compact_text (written (content_fields f))))
  else Err ErrMarshal.
End codec.

(** ** What is written reads back *)
Definition storable_cache_entry (e : BookCacheEntry) : Prop := from_option storable True (XMeta e).
Record storable_cache (f : BookCacheFile) : Prop := {
  sc_schema : SourceMeta.in_int (XSchemaVersion f);
  sc_timestamp : SourceMeta.in_int (Timestamp f);
  sc_books : map_Forall (λ _ e, storable_cache_entry e) (Books f);
}.

Section roundtrip.
Context `{TimeTextLaws}.

Ltac read_fields := unfold written; cbn [dec_object mbind option_bind]; fields; eval_fields.
Lemma dec_pointer_omitted {A : Type} (dec : json → option A) (enc : A → json) (o : option A) :
  (∀ a, o = Some a → dec (enc a) = Some a ∧ enc a ≠ JNull) →
  dec_pointer dec (default JNull (if bool_decide (is_Some o) then Some (default JNull (enc <$> o)) else None)) = Some o.
Proof.
  intros Hd. destruct o as [a|]; simpl; [|done]. destruct (Hd a eq_refl) as [Ha Hn]. unfold dec_pointer.
  rewrite Ha. by destruct (enc a).
Qed.
Lemma dec_enc_folder_meta m : dec_folder_meta (enc_folder_meta m) = Some m.
Proof.
  destruct m as [k i ro]. unfold dec_folder_meta, enc_folder_meta. read_fields. cbn [XSortKey XIcon XReadOnly].
  rewrite dec_pointer_omitted; [cbn [mbind option_bind]|].
  - by rewrite dec_omitted_string; cbn [mbind option_bind]; rewrite dec_omitted_bool.
  - intros f _. split; [apply FolderMeta.Object.dec_enc_float|apply FolderMeta.Object.enc_float_not_null].
Qed.
Lemma dec_enc_cache_entry e : storable_cache_entry e → dec_entry (enc_entry e) = Some e.
Proof.
  intros Hs. destruct e as [p m ns md5 fm]. unfold storable_cache_entry in Hs. simpl in Hs.
  unfold dec_entry, enc_entry. read_fields. cbn [id XPath XMeta XNSFW CurrentSourceMD5 CurrentSourceFormat dec_string mbind option_bind].
  assert (dec_pointer decode (default JNull (encode <$> m)) = Some m) as ->.
  { destruct m as [m|]; [|done]. simpl in *. unfold dec_pointer, encode at 1. unfold written.
    change (JObj (fields_of (members m))) with (encode m). by rewrite book_decode_encode. }
  cbn [mbind option_bind]. by rewrite dec_omitted_bool; cbn [mbind option_bind]; rewrite !dec_omitted_string.
Qed.
Lemma dec_enc_file f : storable_cache f → dec_file (enc_file f) = Some f.
Proof.
  intros [Hs Ht Hb]. destruct f as [sv wr ts ge fo fm bo]. simpl in Hs, Ht, Hb.
  unfold dec_file, enc_file, content_fields. cbn [app]. read_fields.
  cbn [id XSchemaVersion WriterID Timestamp XGenerator Folders XFolderMeta Books].
  rewrite !dec_int_ok by done. cbn [mbind option_bind dec_string]. rewrite dec_enc_strings. cbn [mbind option_bind].
  rewrite dec_pointer_omitted; [cbn [mbind option_bind]|].
  - rewrite (dec_enc_map dec_entry id enc_entry) by (intros k e Hke; apply dec_enc_cache_entry; by eapply Hb).
    simpl. by rewrite map_fmap_id.
  - intros m _. split; [|done]. rewrite (dec_enc_map dec_folder_meta id enc_folder_meta) by (intros; apply dec_enc_folder_meta).
    by rewrite map_fmap_id.
Qed.
Lemma unique_enc_file f : unique_names (enc_file f) = true.
Proof.
  apply unique_written; [done|]. repeat constructor.
  - apply unique_enc_strings.
  - simpl. destruct (XFolderMeta f) as [m|]; [|done]. simpl. apply unique_enc_map. intros k x _. apply unique_written; [done|].
    repeat constructor. simpl. destruct (XSortKey x); [apply FolderMeta.Object.unique_enc_float|done].
  - apply unique_enc_map. intros k e _. apply unique_written; [done|]. repeat constructor. simpl.
    destruct (XMeta e); [apply book_unique_encode|done].
Qed.
Lemma unmarshal_enc_file f : storable_cache f → unmarshal dec_file (Doc (enc_file f)) = Some f.
Proof. intros Hf. unfold unmarshal. by rewrite unique_enc_file, dec_enc_file. Qed.
End roundtrip.

(** ** Paths a document names *)

(** [path.Clean]: the segments left of the slashes, dots and what [..] takes
    back, the last one first. *)
Definition clean_step (rooted : bool) (stack : list bytes) (seg : bytes) : list bytes :=
  if decide (seg = [] ∨ seg = str ".") then stack else
  if decide (seg = str "..") then
    match stack with
    | top :: rest => if decide (top = str "..") then seg :: stack else rest
    | [] => if rooted then [] else [seg]
    end
  else seg :: stack.
Definition IsAbs (p : bytes) : bool := HasPrefix p (str "/").
Definition Clean (p : bytes) : bytes :=
  let out := Join (reverse (foldl (clean_step (IsAbs p)) [] (Split p "/"%char))) (str "/") in
  if IsAbs p then str "/" ++ out else if decide (out = []) then str "." else out.

(** [func isRelativeShelfPath] *)
Definition isRelativeShelfPath (p : bytes) : bool :=
  if decide (p = [] ∨ Clean p ≠ p) then false else
  if IsAbs p then false else
  negb (existsb (λ s, bool_decide (s = str "." ∨ s = str "..")) (Split p "/"%char)).
(** [func isBookPackagePath] *)
Definition booksPrefix : bytes := booksFolder ++ str "/".
Definition isBookPackagePath (p : bytes) : bool :=
  if HasPrefix p booksPrefix
  then isRelativeShelfPath (drop (length booksPrefix) p) && HasSuffix p bookExtension else false.

Lemma clean_segments rooted stack l :
  Forall segment l → foldl (clean_step rooted) stack l = reverse l ++ stack.
Proof.
  revert stack. induction l as [|s l IH]; intros stack Hl; [done|]. apply Forall_cons in Hl as [(Hn & Hd & Hdd & _) Hl].
  simpl. rewrite IH by done. unfold clean_step. rewrite !decide_False by naive_solver. by rewrite reverse_cons, <-app_assoc.
Qed.
Definition cleaned (s : bytes) : Prop := s ≠ [] ∧ s ≠ str "." ∧ "/"%char ∉ s.
Lemma clean_cleaned rooted stack l :
  Forall cleaned stack → Forall (λ s, "/"%char ∉ s) l → Forall cleaned (foldl (clean_step rooted) stack l).
Proof.
  revert stack. induction l as [|s l IH]; intros stack Hs Hl; [done|]. apply Forall_cons in Hl as [Hn Hl].
  simpl. apply IH; [|done]. unfold clean_step. case_decide as H1; [done|].
  assert (cleaned s) by (split_and!; naive_solver). case_decide as H2; [|by constructor].
  destruct stack as [|top rest]; [destruct rooted; [constructor|by apply Forall_singleton]|].
  case_decide; [by constructor|by apply Forall_cons in Hs as [_ ?]].
Qed.

(** The check on a path another installation wrote accepts exactly the
    sequences of plain segments: nothing empty, no dots, so that the path
    cannot leave the folder it is joined to. *)
Lemma isRelativeShelfPath_spec p :
  isRelativeShelfPath p = true ↔ Forall segment (Split p "/"%char).
Proof.
  assert (∀ q, p = "/"%char :: q → ¬ Forall segment (Split p "/"%char)) as Habs.
  { intros q -> Hf. simpl in Hf. apply Forall_cons in Hf as [[? _] _]. done. }
  assert (IsAbs p = true → ¬ Forall segment (Split p "/"%char)) as Hroot.
  { unfold IsAbs, HasPrefix. intros [q ->]%bool_decide_eq_true. by eapply Habs. }
  pose proof (Split_no_sep p "/"%char) as Hns. unfold isRelativeShelfPath, Clean. split.
  - case_decide as Hp; [done|].
    destruct (IsAbs p) eqn:Ha; [done|]. intros He%negb_true_iff.
    assert (∀ s, s ∈ Split p "/"%char → s ≠ str "." ∧ s ≠ str "..") as Hdots.
    { intros s Hs. apply not_true_iff_false in He. split; intros E; apply He, existsb_exists; exists s;
        (split; [by apply list_elem_of_In|apply bool_decide_true; auto]). }
    set (out := reverse _) in Hp. assert (Forall cleaned out) as Hout by (apply Forall_reverse, clean_cleaned; [done|done]).
    assert (p = if decide (Join out (str "/") = []) then str "." else Join out (str "/")) as E.
    { destruct (decide ((if decide (Join out (str "/") = []) then str "." else Join out (str "/")) = p)); [done|].
      destruct Hp. by right. }
    destruct out as [|s out].
    { rewrite decide_True in E by done. subst p. by destruct (Hdots (str ".")) as [[] _]; [set_solver|]. }
    assert (Join (s :: out) (str "/") ≠ []) as Hj.
    { apply Forall_cons in Hout as [(Hs & _) _]. destruct s; [done|]. by destruct out. }
    rewrite decide_False in E by done.
    assert (Split p "/"%char = s :: out) as E'.
    { rewrite E. apply (Split_Join (s :: out)); [done|]. eapply Forall_impl; [apply Hout|]. by intros ? (_ & _ & ?). }
    rewrite E' in Hdots |- *. apply Forall_forall. intros x Hx. rewrite Forall_forall in Hout.
    destruct (Hout x Hx) as (? & ? & ?), (Hdots x Hx). done.
  - intros Hf. destruct (IsAbs p) eqn:Ha; [by destruct (Hroot eq_refl)|].
    assert (p ≠ []) as Hp by (intros ->; simpl in Hf; apply Forall_cons in Hf as [[? _] _]; done).
    rewrite clean_segments, app_nil_r, reverse_involutive by done. change (str "/") with ["/"%char]. rewrite Join_Split.
    rewrite (decide_False (P := p = [])) by done. rewrite decide_False by tauto. apply negb_true_iff, not_true_iff_false.
    intros (s & Hs%list_elem_of_In & Hd%bool_decide_eq_true)%existsb_exists.
    rewrite Forall_forall in Hf. destruct (Hf s Hs) as (_ & ? & ? & _). naive_solver.
Qed.
End CacheFile.

(** * Exporting the book cache: [src/shelf/shelf_cache_export.go]

    An installation with a writer ID leaves what it knows of the shelf in
    [app/book-cache-{writer}.json], skips the write when nothing changed, and
    removes what other writers left a month ago. The exporting flag and the
    goroutine it guards are a step of their own, [background_export]; log
    messages are left out. *)

(** What the configuration says of exports. *)
Class ExportConf := {
  bookCacheWriterID : bytes;
  bookCacheInterval : Z;
}.

Module CacheExport.
Import Json Documents BookMeta Book FolderMeta ShelfUtil Shelf ShelfFrame CacheFile.

(** [time.Unix(sec, 0)]: the seconds since year 1 are an [int64]. *)
Definition unixToInternal : Z := 62135596800.
Definition time_Unix (sec : Z) : Z := ((wrap64 (sec + unixToInternal) - unixToInternal) * second)%Z.
(** [time.Time.Unix] *)
Definition Unix (t : Z) : Z := (t / second)%Z.

Definition with_lastExport (t : Z) (digest : bytes) (c : bookCache) : bookCache :=
  mkBookCache (cache c) (cfolders c) (folderMeta c) (treeDirty c) (lastFullScan c) (lastScanStart c)
    (scanInterval c) (lastBookCheck c) (bookCheckInterval c) (rescanID c)
    (rescanTokens c) (rescanTokensAt c) t digest (remoteDigest c).

(** ** What is exported *)
Definition formatUnlessMirrored (sourceFormat mirrored : bytes) : bytes :=
  if decide (sourceFormat = mirrored) then [] else sourceFormat.
Definition exportName (folder : FolderPath) : bytes :=
  if decide (String folder = []) then str "/" else String folder.
Definition collectExportFolders (c : bookCache) : list bytes := sort_strings (exportName <$> cfolders c).
Definition exportMeta (m : FolderMeta) : BookCacheFolderMeta :=
  mkCacheMeta (if HasSortKey m then Some (SortKey m) else None) (Icon m) (ReadOnly m).
Definition collectExportFolderMeta (c : bookCache) : option (gmap bytes BookCacheFolderMeta) :=
  if decide (folderMeta c = ∅) then None else Some (exportMeta <$> folderMeta c).

Section ops.
Context `{UnicodeCase, TimeText, Machine, Digest, ShelfEnv, AppVersion, CompactText, ExportConf}.

Definition exportEntry (s : Shelf) (e : bookIDCacheEntry) : BookCacheEntry :=
  let m := meta (book e) in
  mkCacheEntry (Join (epath e) (str "/")) (Some m) (IsBookNSFW s (folders e) (Some m)) (sourceMD5 e)
    (formatUnlessMirrored (sourceFormat e) (Format m)).
Definition collectExportBooks (s : Shelf) : gmap bytes BookCacheEntry := exportEntry s <$> cache (bcache s).
Definition collectExportSnapshot (writerID : bytes) (s : Shelf) : BookCacheFile :=
  mkCacheFile BookCacheSchemaVersion writerID (Unix (lastScanStart (bcache s))) (str "plainshelf/" ++ version_Version)
    (collectExportFolders (bcache s)) (collectExportFolderMeta (bcache s)) (collectExportBooks s).

Definition exportEnabled : bool := negb (bool_decide (bookCacheWriterID = [])).
Definition bookCacheFileName : bytes := bookCacheFilePrefix ++ bookCacheWriterID ++ bookCacheFileSuffix.
Definition isCacheName (name : bytes) : bool :=
  HasPrefix name bookCacheFilePrefix && HasSuffix name bookCacheFileSuffix.

(** ** Reading one back *)
Definition recognized (f : BookCacheFile) : Prop :=
  XSchemaVersion f = BookCacheSchemaVersion ∧ WriterID f ≠ [] ∧ Timestamp f ≠ 0%Z.
#[export] Instance recognized_dec f : Decision (recognized f).
Proof. unfold recognized. apply _. Defined.
Definition readBookCacheFile (filePath : path) : M world BookCacheFile :=
  c ← Open filePath;
  match unmarshal dec_file c with
  | Some f => if decide (recognized f) then mret f else throw (Msg "not a book cache file this build recognizes")
  | None => throw ErrMalformedMetadata
  end.

(** ** Pruning: the loop of [pruneStaleBookCaches] *)
Definition prune_entry (cutoff : Z) (e : bytes * node) : M world unit :=
  if is_dir e.2 || bool_decide (e.1 = bookCacheFileName) then mret tt else
  if negb (isCacheName e.1) then mret tt else
  read ← try (readBookCacheFile [appFolder; e.1]);
  match read with
  | Err _ => mret tt
  | Ok f =>
      if bool_decide (WriterID f = bookCacheWriterID) || negb (time_Unix (Timestamp f) <? cutoff)%Z then mret tt
      else ignore (Remove [appFolder; e.1])
  end.
Fixpoint prune_entries (cutoff : Z) (l : list (bytes * node)) : M world unit :=
  match l with
  | [] => mret tt
  | e :: l => prune_entry cutoff e;; prune_entries cutoff l
  end.
Definition pruneStaleBookCaches : M world unit :=
  listed ← try (ReadDir [appFolder]);
  match listed with
  | Err _ => mret tt
  | Ok l => t ← now; prune_entries (t - bookCacheRetention) l
  end.

(** ** The export *)
Definition own_path : path := [appFolder; bookCacheFileName].
Definition exportBookCache (force : bool) : M Shelf unit :=
  if negb exportEnabled then mret tt else
  writeRoot;;
  payload ← gets (collectExportSnapshot bookCacheWriterID);
  digest ← of_result (bookCacheDigest payload);
  unchanged ← gets (λ s, bool_decide (digest = lastExportDigest (bcache s)));
  if negb force && unchanged then
    t ← lift now; update_cache (λ c, with_lastExport t (lastExportDigest c) c)
  else
    guard_err (negb (marshals (enc_file payload))) ErrMarshal;;
    lift (Atomic.WriteFileAtomic own_path (Doc (enc_file payload)));;
    t ← lift now;
    update_cache (with_lastExport t digest);;
    lift pruneStaleBookCaches.

(** [func (s *Shelf) ExportBookCache] *)
Definition ExportBookCache : M Shelf Z :=
  ro ← gets readOnly;
  guard_err ro ErrReadOnly;;
  guard_err (negb exportEnabled) (Msg "book cache export is not configured for this shelf");;
  rdy ← IsReady;
  guard_err (negb rdy) ErrShelfInitializing;;
  rlocked (refreshBookCacheIfNeeded true);;
  exportBookCache true;;
  gets (λ s, lastScanStart (bcache s)).

(** The work [scheduleBookCacheExportIfNeeded] starts in the background, and
    whether it is due. *)
Definition scheduleBookCacheExportIfNeeded : M Shelf bool :=
  if negb exportEnabled then mret false else
  t ← lift now;
  last ← gets (λ s, lastExport (bcache s));
  mret (negb (t - last <? bookCacheInterval)%Z).
Definition background_export : M Shelf unit := ignore (exportBookCache false).
(** ** What an export does to the files *)
Definition stale (t : tree) (q : path) : Prop :=
  ∃ name c z f k, q = [appFolder; name] ∧ name ≠ bookCacheFileName ∧ isCacheName name = true ∧
    t !! q = Some (File c z) ∧ unmarshal dec_file c = Some f ∧ WriterID f ≠ bookCacheWriterID ∧
    (time_Unix (Timestamp f) < clock k - bookCacheRetention)%Z.
Definition pruned (t t' : tree) : Prop := ∀ q, t' !! q = t !! q ∨ stale t q ∧ t' !! q = None.

Lemma stale_same t t' q : t' !! q = t !! q → stale t q → stale t' q.
Proof. unfold stale. by intros ->. Qed.
Lemma not_stale_own t : ¬ stale t own_path.
Proof. intros (name & c & z & f & k & [= E] & Hn & _). done. Qed.
Lemma pruned_delete t t' q : pruned t t' → stale t' q → pruned t (delete q t').
Proof.
  intros Hp Hs q'. destruct (decide (q' = q)) as [->|Hne]; [|rewrite lookup_delete_ne by done; apply Hp].
  rewrite lookup_delete_eq. right. split; [|done]. destruct (Hp q) as [E|[_ E]]; [by eapply stale_same|].
  destruct Hs as (? & ? & ? & ? & ? & _ & _ & _ & Hf & _). congruence.
Qed.

Lemma wp_readBookCacheFile p (Q : result error BookCacheFile → world → Prop) w :
  (∀ e n, Q (Err e) (mkWorld (wtree w) n)) →
  (∀ f c z n, wtree w !! p = Some (File c z) → unmarshal dec_file c = Some f → recognized f →
    Q (Ok f) (mkWorld (wtree w) n)) →
  wp (readBookCacheFile p) Q w.
Proof.
  intros HE HO. apply wp_bind, Source.wp_Open_content; [apply HE|]. intros c z n Hc.
  destruct (unmarshal dec_file c) as [f|] eqn:Hf; [|apply wp_throw, HE].
  case_decide; [|apply wp_throw, HE]. apply wp_ret. by eapply HO.
Qed.

Lemma wp_prune_entry t cutoff e w : (∃ k, cutoff = clock k - bookCacheRetention)%Z → pruned t (wtree w) →
  wp (prune_entry cutoff e) (λ _ w', pruned t (wtree w')) w.
Proof.
  intros [k ->] Hp. unfold prune_entry. destruct (is_dir e.2 || _) eqn:Hd; [by apply wp_ret|].
  apply orb_false_iff in Hd as [_ Hown%bool_decide_eq_false]. destruct (isCacheName e.1) eqn:Hn; [|by apply wp_ret]. simpl.
  apply wp_bind, wp_try, wp_readBookCacheFile; [intros; by apply wp_ret|]. intros f c z n Hc Hf _.
  destruct (_ || _) eqn:Hk; [by apply wp_ret|]. apply orb_false_iff in Hk as [Hw%bool_decide_eq_false Ht%negb_false_iff].
  apply wp_ignore, wp_Remove; simpl; [done|]. intros r t' m [-> _]%fs_remove_ok _. apply pruned_delete; [done|].
  exists e.1, c, z, f, k. split_and!; try done. by apply Z.ltb_lt.
Qed.
Lemma wp_prune_entries t cutoff l w : (∃ k, cutoff = clock k - bookCacheRetention)%Z → pruned t (wtree w) →
  wp (prune_entries cutoff l) (λ _ w', pruned t (wtree w')) w.
Proof.
  intros Hk. revert w. induction l as [|e l IH]; intros w Hp; [by apply wp_ret|].
  apply wp_bind. eapply wp_mono; [by apply wp_prune_entry|]. intros [[]|e'] w' Hw'; [by apply IH|done].
Qed.
Lemma wp_pruneStaleBookCaches w :
  wp pruneStaleBookCaches (λ _ w', pruned (wtree w) (wtree w')) w.
Proof.
  apply wp_bind, wp_try, ScanCache.wp_ReadDir. intros [l|e] n _; [|apply wp_ret; by left].
  apply wp_bind. exact (wp_prune_entries (wtree w) _ l (mkWorld (wtree w) (S n)) (ex_intro _ n eq_refl) (λ q, or_introl eq_refl)).
Qed.

(** What an export with the writer's own file leaves. *)
Definition payload_of (s : Shelf) : BookCacheFile := collectExportSnapshot bookCacheWriterID s.
Definition holds_payload (s : Shelf) (t : tree) : Prop :=
  ∃ z, t !! own_path = Some (File (Doc (enc_file (payload_of s))) z).
Record exported (force : bool) (s : Shelf) (r : result error unit) (s' : Shelf) : Prop := {
  ex_wf : wf_tree (stree s');
  ex_kept q : q ≠ own_path → ¬ Atomic.temp_of own_path q →
    stree s' !! q = stree s !! q ∨ stale (stree s) q ∧ stree s' !! q = None;
  ex_own : stree s' !! own_path = stree s !! own_path ∨ holds_payload s (stree s');
  ex_off : exportEnabled = false ∨ readOnly s = true → stree s' = stree s;
  ex_done : r = Ok tt → exportEnabled = true →
    holds_payload s (stree s') ∧ bookCacheDigest (payload_of s) = Ok (lastExportDigest (bcache s')) ∨
    force = false ∧ bookCacheDigest (payload_of s) = Ok (lastExportDigest (bcache s)) ∧ stree s' = stree s;
  ex_cache : with_lastExport 0 [] (bcache s') = with_lastExport 0 [] (bcache s);
}.
Lemma exported_same force s e s' :
  wf_tree (stree s) → stree s' = stree s → bcache s' = bcache s → exported force s (Err e) s'.
Proof. intros Hw Ht Hc. split; try done; [by rewrite Ht|by left; rewrite Ht|by left; rewrite Ht|by rewrite Hc]. Qed.

Lemma app_path_ok : own_path ≠ [] ∧ base own_path ≠ [].
Proof. done. Qed.

Lemma preserves_prune_entries cutoff l : preserves (prune_entries cutoff l).
Proof.
  induction l as [|e l IH]; simpl; [auto with wf|]. apply preserves_bind; [|done]. unfold prune_entry.
  repeat (case_match; [auto with wf|]). apply preserves_bind.
  - apply preserves_try, preserves_bind; [auto with wf|]. intros c. destruct (unmarshal dec_file c) as [f|]; [destruct (decide (recognized f))|]; auto with wf.
  - intros [f|e']; [case_match|]; auto with wf.
Qed.
Lemma preserves_pruneStaleBookCaches : preserves pruneStaleBookCaches.
Proof.
  apply preserves_bind; [auto with wf|]. intros [l|e]; [|auto with wf].
  apply preserves_bind; [auto with wf|]. intros t. apply preserves_prune_entries.
Qed.

Lemma wp_exportBookCache force s :
  wf_tree (stree s) → wp (exportBookCache force) (exported force s) s.
Proof.
  intros Hw. unfold exportBookCache. destruct exportEnabled eqn:Hen.
  2: { apply wp_ret. split; [done|by left|by left|done| |done]. by rewrite Hen. }
  cbn [negb]. apply wp_bind. unfold writeRoot. apply wp_bind, wp_gets, wp_guard; intros Hro; [by apply exported_same|].
  apply wp_bind, wp_gets. apply wp_bind, wp_of_result. destruct (bookCacheDigest _) as [digest|e] eqn:Hd; [|by apply exported_same].
  apply wp_bind, wp_gets. destruct (negb force && _) eqn:Hf.
  { apply andb_prop in Hf as [->%negb_true_iff Hu%bool_decide_eq_true]. apply wp_bind, wp_lift, wp_now. intros t n.
    apply wp_update_cache. split; [done|by left|by left|done| |done].
    intros _ _. right. split_and!; [done| |done]. by rewrite <-Hu. }
  apply wp_bind, wp_guard; intros Hm; [by apply exported_same|]. destruct app_path_ok as [Hne Hb].
  apply wp_bind, wp_lift, wp_wf; [apply Atomic.preserves_WriteFileAtomic|done|]. apply Atomic.wp_WriteFileAtomic; [done..| |].
  - intros e w' [Ht Ho] Hw'. split; [done| |destruct Ht as [?|(c & z & <- & ?)]; [by left|]; right; by exists z| |done..].
    + intros q Hq Hqt. left. by apply Ho.
    + intros [E|E]; congruence.
  - intros z w' [_ Ho] Hl Hw'. apply wp_bind, wp_lift, wp_now. intros t n. apply wp_bind, wp_update_cache, wp_lift.
    apply wp_wf; [apply preserves_pruneStaleBookCaches|done|].
    eapply wp_mono; [apply wp_pruneStaleBookCaches|]. intros r w2 Hp Hw2. cbn [sworld set_world set_cache wtree] in Hp, Hw2.
    assert (wtree w2 !! own_path = wtree w' !! own_path) as Hown.
    { destruct (Hp own_path) as [?|[[]%not_stale_own _]]. done. }
    assert (holds_payload s (wtree w2)) as Hpl by (exists z; by rewrite Hown).
    split; [done| |by right| |intros _ _; left; split; [done|exact Hd]|done].
    + intros q Hq Hqt. specialize (Ho q Hq Hqt). destruct (Hp q) as [E|[Hs E]]; [left; exact (eq_trans E Ho)|].
      right. split; [by eapply stale_same|done].
    + intros [E|E]; congruence.
Qed.

(** Exporting the cache leaves the installation's own file old or new, never
    half written, and on success it holds what the shelf listed, unless the
    content has the digest of the last export and nobody asked for a write.
    No other file of the shelf changes, but that files are removed which
    another writer left in [app/] more than thirty days before: never one that
    does not read as an exported cache. A shelf that does not export, or is
    read-only, writes nothing. *)
Theorem exportBookCache_only_prunes_stale force s :
  wf_tree (stree s) → wp (exportBookCache force) (exported force s) s.
Proof.
  apply wp_exportBookCache.
Qed.
End ops.
End CacheExport.
