(* ===== verification/CacheSnapshot.v ===== *)
(** * Listing a shelf from an exported cache: [src/shelf/shelf_cache_snapshot.go]

    A remote shelf does not walk its source: it takes over the newest of the
    caches other installations exported there. [bookCacheSnapshot] checks a
    document and turns it into the listing; [refreshRemoteFromSource] takes
    the newest one over unless it is not newer than what is listed.
    [remote_lists_the_export] composes both ends: what one installation
    exports another one lists. *)

From S2P Require Import Prelude Utf8 Strings Float64 Json Fs FsSpec Atomic ShelfUtil BookMeta Source Frame ScanCache FolderMeta Book NoFault ShelfState Trash Folder ShelfBook ShelfFrame FolderSpec ShelfInv Documents CacheExport.

(** Whether a remote file system (WebDAV, pCloud) answers that its source is
    unavailable when a step fails. *)
Class RemoteSource := source_unavailable : nat → bool.

Module CacheSnapshot.
Import Json Documents BookMeta Book FolderMeta ShelfUtil Shelf ShelfFrame FolderSpec ShelfInv CacheFile CacheExport.

Definition with_listing (entries : gmap bytes bookIDCacheEntry) (fs : list FolderPath) (metas : gmap bytes FolderMeta)
    (fullScan scanStart : Z) (digest : bytes) (c : bookCache) : bookCache :=
  mkBookCache entries fs metas false fullScan scanStart (scanInterval c) (lastBookCheck c)
    (bookCheckInterval c) (rescanID c) (rescanTokens c) (rescanTokensAt c) (lastExport c) (lastExportDigest c) digest.
Definition with_lastFullScan (t : Z) (c : bookCache) : bookCache :=
  mkBookCache (cache c) (cfolders c) (folderMeta c) (treeDirty c) t (lastScanStart c) (scanInterval c)
    (lastBookCheck c) (bookCheckInterval c) (rescanID c) (rescanTokens c) (rescanTokensAt c) (lastExport c)
    (lastExportDigest c) (remoteDigest c).
Definition forgetAppliedExportDigest (c : bookCache) : bookCache :=
  mkBookCache (cache c) (cfolders c) (folderMeta c) (treeDirty c) (lastFullScan c) (lastScanStart c) (scanInterval c)
    (lastBookCheck c) (bookCheckInterval c) (rescanID c) (rescanTokens c) (rescanTokensAt c) (lastExport c)
    (lastExportDigest c) [].

(** ** From a document to a listing *)
Definition Listing : Type := gmap bytes bookIDCacheEntry * list FolderPath * gmap bytes FolderMeta.
Definition segments_of (p : bytes) : path := Split p "/"%char.

(** [func (s *Shelf) newRemoteBookIDCacheEntry] *)
Definition newRemoteBookIDCacheEntry (e : BookCacheEntry) (m : BookMeta) : bookIDCacheEntry :=
  let p := segments_of (XPath e) in
  mkEntry (bookFolderPath p) p (FromSnapshot false p m) 0 (CurrentSourceMD5 e)
    (if decide (CurrentSourceFormat e = []) then Format m else CurrentSourceFormat e) zero_time.
(** One turn of the loop over the books, which ends at an error. *)
Definition book_of (bookID : bytes) (e : BookCacheEntry) : option bookIDCacheEntry :=
  match XMeta e with
  | Some m => if decide (ID m = bookID) then
                if isBookPackagePath (XPath e) then Some (newRemoteBookIDCacheEntry e m) else None
              else None
  | None => None
  end.
Definition folder_of (name : bytes) : option FolderPath :=
  if decide (name = str "/") then Some [] else
  if isRelativeShelfPath name then Some (segments_of name) else None.

(** [func folderMetaFromExport] *)
Definition folderMetaFromExport (m : BookCacheFolderMeta) : FolderMeta :=
  match XSortKey m with
  | Some key => if finite key then mkFolderMeta key true (XIcon m) (XReadOnly m) []
                else mkFolderMeta F64.zero false (XIcon m) (XReadOnly m) []
  | None => mkFolderMeta F64.zero false (XIcon m) (XReadOnly m) []
  end.
Definition emptyCacheMeta : BookCacheFolderMeta := mkCacheMeta None [] false.
Definition meta_kept (names : list bytes) (name : bytes) (m : BookCacheFolderMeta) : option FolderMeta :=
  if decide (name = str "/" ∨ m = emptyCacheMeta ∨ name ∉ names) then None else Some (folderMetaFromExport m).

(** [func (s *Shelf) bookCacheSnapshot]; ranging over the books in any order,
    the first unusable one is an error. *)
Definition bookCacheSnapshot (f : BookCacheFile) : result error Listing :=
  if decide (map_Forall (λ bookID e, is_Some (book_of bookID e)) (Books f)) then
    match mapM folder_of (Folders f) with
    | Some fs => Ok (map_imap book_of (Books f), sortFolders fs,
                     map_imap (meta_kept (Folders f)) (default ∅ (XFolderMeta f)))
    | None => Err (Msg "invalid folder")
    end
  else Err (Msg "unusable entry").

(** [func exportIsNotNewer] *)
Definition exportIsNotNewer (takenAt current : Z) (digest applied : bytes) : bool :=
  negb (current =? zero_time)%Z &&
  ((takenAt <? current)%Z || (takenAt =? current)%Z && bool_decide (digest = applied)).

Section ops.
Context `{UnicodeCase, TimeText, Machine, Digest, ShelfEnv, AppVersion, CompactText, ExportConf, RemoteSource}.

(** A call on the remote file system. *)
Definition remote {A : Type} (m : M world A) : M world A := λ w,
  match m w with
  | (Err EIO, w') => (Err (if source_unavailable (tick w) then ErrSourceUnavailable else EIO), w')
  | o => o
  end.

(** [cmp.Or(cmp.Compare(ts, best.ts), cmp.Compare(name, bestName)) > 0] *)
Definition better (f : BookCacheFile) (name : bytes) (best : option (BookCacheFile * bytes)) : bool :=
  match best with
  | None => true
  | Some (b, bestName) =>
      (Timestamp b <? Timestamp f)%Z || (Timestamp f =? Timestamp b)%Z && bool_decide (Compare name bestName = Gt)
  end.
Definition consider (e : bytes * node) (best : option (BookCacheFile * bytes)) :
    M world (option (BookCacheFile * bytes)) :=
  if is_dir e.2 || negb (isCacheName e.1) then mret best else
  read ← try (remote (readBookCacheFile [appFolder; e.1]));
  match read with
  | Err _ => mret best
  | Ok f => mret (if better f e.1 best then Some (f, e.1) else best)
  end.
Fixpoint best_of (l : list (bytes * node)) (best : option (BookCacheFile * bytes)) :
    M world (option (BookCacheFile * bytes)) :=
  match l with
  | [] => mret best
  | e :: l => best ← consider e best; best_of l best
  end.
(** [func (s *Shelf) newestExportedBookCache] *)
Definition newestExportedBookCache : M world (option (BookCacheFile * bytes)) :=
  listed ← try (remote (ReadDir [appFolder]));
  match listed with
  | Err e => if errors_Is e ErrSourceUnavailable then throw e else mret None
  | Ok l => best_of l None
  end.

Definition markRemoteRefreshAttempt : M Shelf unit :=
  t ← lift now; update_cache (with_lastFullScan t).
(** [func (s *Shelf) refreshRemoteFromSource] up to [withoutExport], its last
    call, which is due when the answer is false. *)
Definition takeOverNewest : M Shelf bool :=
  newest ← try (lift newestExportedBookCache);
  match newest with
  | Err e => markRemoteRefreshAttempt;; throw e
  | Ok None => markRemoteRefreshAttempt;; mret false
  | Ok (Some (f, _)) =>
      digest ← of_result (bookCacheDigest f);
      c ← gets bcache;
      let takenAt := time_Unix (Timestamp f) in
      if exportIsNotNewer takenAt (lastScanStart c) digest (remoteDigest c) then markRemoteRefreshAttempt;; mret true else
      match bookCacheSnapshot f with
      | Err _ => markRemoteRefreshAttempt;; mret false
      | Ok (entries, fs, metas) =>
          t ← lift now; update_cache (with_listing entries fs metas t takenAt digest);; mret true
      end
  end.
Definition refreshRemoteFromSource (withoutExport : option (M Shelf unit)) : M Shelf unit :=
  done ← takeOverNewest;
  if (done : bool) then mret tt else
  match withoutExport with Some m => m | None => mret tt end.
End ops.

(** ** Paths of packages *)
Lemma Split_app_plain k s : "/"%char ∉ s → ∃ pre w, Split (k ++ s) "/"%char = pre ++ [w ++ s].
Proof.
  intros Hs. induction k as [|c k (pre & w & IH)]; simpl; [exists [], []; by apply Split_word|].
  rewrite IH. case_decide; [by exists ([] :: pre), w|]. destruct pre as [|x pre]; [by exists [], (c :: w)|].
  by exists ((c :: x) :: pre), w.
Qed.
Lemma isBookPackagePath_inv p : isBookPackagePath p = true →
  ∃ fs name, segments_of p = (booksFolder :: fs) ++ [name] ∧ Forall segment (segments_of p) ∧
    HasSuffix name bookExtension = true.
Proof.
  unfold isBookPackagePath, HasPrefix. case_bool_decide as Hp; [|done]. destruct Hp as [rest ->].
  rewrite drop_app_length. intros [Hr Hs]%andb_prop. apply isRelativeShelfPath_spec in Hr.
  assert (segments_of (booksPrefix ++ rest) = booksFolder :: Split rest "/"%char) as E.
  { unfold segments_of, booksPrefix. rewrite <-app_assoc. apply Split_app. apply (bool_decide_unpack _); vm_compute; exact I. }
  unfold HasSuffix in Hs. apply bool_decide_eq_true in Hs as [k Hk].
  destruct (Split_app_plain k bookExtension) as (pre & w & Hw); [apply (bool_decide_unpack _); vm_compute; exact I|].
  rewrite <-Hk in Hw. change (Split (booksPrefix ++ rest) "/"%char) with (segments_of (booksPrefix ++ rest)) in Hw.
  destruct (exists_last (Split_nonempty rest "/"%char)) as (fs & name & Hfs).
  exists fs, name. rewrite E, Hfs in Hw |- *. split; [done|]. split.
  - constructor; [apply (bool_decide_unpack _); vm_compute; exact I|]. by rewrite <-Hfs.
  - change (booksFolder :: fs ++ [name]) with ((booksFolder :: fs) ++ [name]) in Hw. apply app_inj_tail in Hw as [_ ->].
    apply HasSuffix_app.
Qed.
Lemma isBookPackagePath_join p fs name :
  p = (booksFolder :: fs) ++ [name] → Forall segment p → HasSuffix name bookExtension = true →
  isBookPackagePath (Join p (str "/")) = true ∧ segments_of (Join p (str "/")) = p.
Proof.
  intros Hp Hs Hn. assert (segments_of (Join p (str "/")) = p) as E.
  { apply Split_Join; [by subst; destruct fs|]. eapply Forall_impl; [done|]. by intros x (_ & _ & _ & ?). }
  split; [|done]. assert (Join p (str "/") = booksPrefix ++ Join (fs ++ [name]) (str "/")) as Hj.
  { subst p. by destruct fs. }
  unfold isBookPackagePath, HasPrefix. rewrite bool_decide_true by (rewrite Hj; by eexists).
  apply andb_true_intro. split.
  - rewrite Hj, drop_app_length. apply isRelativeShelfPath_spec. subst p. apply Forall_cons in Hs as [_ Hs].
    change (str "/") with ["/"%char]. rewrite (Split_Join (fs ++ [name])); [done|by destruct fs|].
    eapply Forall_impl; [done|]. by intros x (_ & _ & _ & ?).
  - unfold HasSuffix in *. apply bool_decide_eq_true in Hn as [k ->]. apply bool_decide_true. subst p.
    rewrite Join_snoc, decide_False by done. exists (Join (booksFolder :: fs) (str "/") ++ str "/" ++ k). by rewrite <-!app_assoc.
Qed.

(** ** What a snapshot may name *)
Record remote_ok (bookID : bytes) (e : bookIDCacheEntry) : Prop := {
  ro_path : package_at (epath e) (folders e);
  ro_segments : Forall segment (epath e);
  ro_id : ID (meta (book e)) = bookID;
  ro_book : folderPath (book e) = epath e ∧ writable (book e) = false ∧ metaStat (book e) = None;
}.
Lemma normalize_ID m : ID (normalizeMetaVersion m) = ID m.
Proof. unfold normalizeMetaVersion. by case_match. Qed.
Lemma drop_dirname_snoc (fs : FolderPath) name : bookFolderPath ((booksFolder :: fs) ++ [name]) = fs.
Proof. unfold bookFolderPath. by rewrite dirname_snoc. Qed.
Lemma book_of_ok bookID e x : book_of bookID e = Some x → remote_ok bookID x.
Proof.
  unfold book_of. destruct (XMeta e) as [m|]; [|done]. case_decide as Hid; [|done].
  destruct (isBookPackagePath _) eqn:Hp; [|done]. intros [= <-].
  apply isBookPackagePath_inv in Hp as (fs & name & E & Hs & Hn). split; simpl; [|done| |done].
  - exists name. rewrite E, drop_dirname_snoc. split; [done|]. split; [done|].
    rewrite E, Forall_app, Forall_singleton in Hs. by destruct Hs as [_ (_ & _ & _ & ?)].
  - by rewrite normalize_ID.
Qed.
Lemma folder_of_ok name f : folder_of name = Some f → Forall segment f.
Proof.
  unfold folder_of. case_decide; [by intros [= <-]|]. destruct (isRelativeShelfPath _) eqn:E; [|done].
  intros [= <-]. by apply isRelativeShelfPath_spec.
Qed.

(** Claim C28: A document another installation wrote, whatever it holds, is refused or
    gives a listing that stays in the shelf: every book has its own ID and is
    a package below [books/], in the folder its path says, and every folder is
    a sequence of plain segments. No dots lead out, and the books are not
    written to. *)
Theorem bookCacheSnapshot_contained f entries fs metas :
  bookCacheSnapshot f = Ok (entries, fs, metas) →
  map_Forall remote_ok entries ∧ dom entries = dom (Books f) ∧ Forall (Forall segment) fs ∧
  map_Forall (λ name m, name ∈ Folders f ∧ (HasSortKey m = true → finite (SortKey m) = true)) metas.
Proof.
  unfold bookCacheSnapshot. case_decide as Hb; [|done]. destruct (mapM _ _) as [l|] eqn:El; [|done].
  intros [= <- <- <-]. split_and!.
  - intros id x. rewrite map_lookup_imap. intros (e & _ & Hx)%bind_Some. by eapply book_of_ok.
  - apply set_eq. intros id. rewrite !elem_of_dom, map_lookup_imap. destruct (Books f !! id) as [e|] eqn:E; simpl; [|done].
    specialize (Hb _ _ E). simpl in Hb. split; [by eexists|done].
  - unfold sortFolders. rewrite merge_sort_Permutation. apply mapM_Some_1 in El. apply Forall_forall.
    intros x Hx. apply list_elem_of_lookup in Hx as [i Hi]. destruct (Forall2_lookup_r _ _ _ _ _ El Hi) as (n & _ & Hn).
    by eapply folder_of_ok.
  - intros name m. rewrite map_lookup_imap. intros (x & _ & Hx)%bind_Some. unfold meta_kept in Hx. case_decide as Hk; [done|].
    injection Hx as <-. split; [destruct (decide (name ∈ Folders f)); tauto|]. unfold folderMetaFromExport.
    destruct (XSortKey x) as [k|]; [|done]. destruct (finite k) eqn:?; done.
Qed.

(** ** What a listing becomes on the other side *)
Definition remote_of (e : bookIDCacheEntry) : bookIDCacheEntry :=
  mkEntry (folders e) (epath e) (mkBook false (epath e) (meta (book e)) None) 0 (sourceMD5 e)
    (if decide (sourceFormat e = []) then Format (meta (book e)) else sourceFormat e) zero_time.
Definition shown_meta (m : FolderMeta) : option FolderMeta :=
  if decide (exportMeta m = emptyCacheMeta) then None
  else Some (mkFolderMeta (SortKey m) (HasSortKey m) (Icon m) (FolderMeta.ReadOnly m) []).

(** The listings a scan makes. *)
Record exportable_entry (bookID : bytes) (e : bookIDCacheEntry) : Prop := {
  xe_at : package_at (epath e) (folders e);
  xe_segments : Forall segment (epath e);
  xe_id : ID (meta (book e)) = bookID;
  xe_schema : (BookMetaSchemaVersion <= SchemaVersion (meta (book e)))%Z;
}.
Record exportable (c : bookCache) : Prop := {
  xp_books : map_Forall exportable_entry (cache c);
  xp_folders : Forall (Forall segment) (cfolders c);
  xp_sorted : Sorted folder_le (cfolders c);
  xp_meta : map_Forall (λ name m, (∃ f, f ∈ cfolders c ∧ f ≠ [] ∧ name = String f) ∧
    if HasSortKey m then finite (SortKey m) = true else SortKey m = F64.zero) (folderMeta c);
}.

Lemma Split_String f : Forall segment f → f ≠ [] → Split (String f) "/"%char = f.
Proof. intros Hf Hn. apply Split_Join; [done|]. eapply Forall_impl; [done|]. by intros x (_ & _ & _ & ?). Qed.
Lemma String_plain f : Forall segment f → f ≠ [] → String f ≠ [] ∧ String f ≠ str "/" ∧ exportName f = String f.
Proof.
  intros Hf Hn. pose proof (Split_String f Hf Hn) as E. unfold exportName.
  assert (String f ≠ []) by (intros Es; rewrite Es in E; subst f; by apply Forall_cons in Hf as [[? _] _]).
  assert (String f ≠ str "/") by (intros Es; rewrite Es in E; subst f; by apply Forall_cons in Hf as [[? _] _]).
  by rewrite decide_False.
Qed.
Lemma folder_of_export f : Forall segment f → folder_of (exportName f) = Some f.
Proof.
  intros Hf. destruct (decide (f = [])) as [->|Hn]; [done|]. destruct (String_plain f Hf Hn) as (_ & Hs & ->).
  unfold folder_of. rewrite decide_False by done. rewrite (proj2 (isRelativeShelfPath_spec _)) by (by rewrite Split_String).
  unfold segments_of. by rewrite Split_String.
Qed.
Lemma mapM_omap {A B : Type} (g : A → option B) l : Forall (λ x, is_Some (g x)) l → mapM g l = Some (omap g l).
Proof. induction 1 as [|x l [b Hb] Hl IH]; [done|]. simpl. rewrite Hb. simpl. by rewrite IH. Qed.
Lemma sorted_folders_unique l l' : Forall (Forall segment) l → l ≡ₚ l' → Sorted folder_le l → sortFolders l' = l.
Proof.
  assert (Transitive folder_le) as Htr by (intros x y z; apply str_le_trans).
  assert (Total folder_le) as Hto by (intros x y; apply str_le_total).
  intros Hs Hp Hl. unfold sortFolders. symmetry. apply (StronglySorted_unique_strong folder_le).
  - intros x y Hx Hy. rewrite merge_sort_Permutation, <-Hp in Hy. rewrite Forall_forall in Hs.
    pose proof (Hs x Hx) as Hfx. pose proof (Hs y Hy) as Hfy. intros H1 H2.
    assert (String x = String y) as E by (by apply (anti_symm str_le)).
    assert (exportName x = exportName y) as E' by (unfold exportName; by rewrite E).
    apply (f_equal folder_of) in E'. rewrite !folder_of_export in E' by done. by injection E'.
  - by apply Sorted_StronglySorted.
  - by apply StronglySorted_merge_sort.
  - by rewrite merge_sort_Permutation.
Qed.

Section roundtrip.
Context `{UnicodeCase, TimeTextLaws, Machine, Digest, ShelfEnv, AppVersion, CompactText, ExportConf, RemoteSource}.

Lemma book_of_export s bookID e : exportable_entry bookID e → book_of bookID (exportEntry s e) = Some (remote_of e).
Proof.
  intros [(name & Hp & Hn & _) Hs Hid Hv]. destruct (isBookPackagePath_join _ _ _ Hp Hs Hn) as [Hpk Hseg].
  unfold book_of, exportEntry. cbn [XMeta XPath]. rewrite decide_True, Hpk by done. f_equal.
  unfold newRemoteBookIDCacheEntry, remote_of, FromSnapshot, normalizeMetaVersion, formatUnlessMirrored. cbn [XPath CurrentSourceMD5 CurrentSourceFormat].
  rewrite Hseg. rewrite Hp at 1. rewrite drop_dirname_snoc. destruct (Z.ltb_spec (SchemaVersion (meta (book e))) BookMetaSchemaVersion); [lia|].
  repeat case_decide; congruence.
Qed.
Lemma meta_kept_export c name m : exportable c → folderMeta c !! name = Some m →
  meta_kept (collectExportFolders c) name (exportMeta m) = shown_meta m.
Proof.
  intros Hx Hm. destruct (xp_meta _ Hx _ _ Hm) as [(f & Hf & Hn & ->) Hk].
  pose proof (xp_folders _ Hx) as Hs. rewrite Forall_forall in Hs. destruct (String_plain f (Hs f Hf) Hn) as (_ & Hr & He).
  unfold meta_kept, shown_meta. destruct (decide (exportMeta m = emptyCacheMeta)) as [E|E].
  - rewrite decide_True by auto. done.
  - rewrite decide_False. 2: { intros [?|[?|Hi]]; [done|done|]. apply Hi. unfold collectExportFolders, sort_strings.
      rewrite merge_sort_Permutation. rewrite <-He. by apply list_elem_of_fmap_2. }
    f_equal. unfold folderMetaFromExport, exportMeta. cbn [XSortKey XIcon XReadOnly]. destruct m as [k h i ro v]. simpl in *.
    destruct h; [by rewrite Hk|by rewrite Hk].
Qed.

Lemma snapshot_of_export writer s : exportable (bcache s) →
  bookCacheSnapshot (collectExportSnapshot writer s) =
  Ok (remote_of <$> cache (bcache s), cfolders (bcache s), omap shown_meta (folderMeta (bcache s))).
Proof.
  intros Hx. pose proof Hx as [Hb Hf Hs Hm]. unfold bookCacheSnapshot, collectExportSnapshot. cbn [Books Folders XFolderMeta].
  assert (∀ id e, cache (bcache s) !! id = Some e → book_of id (exportEntry s e) = Some (remote_of e)) as Hbook.
  { intros id e He. by apply book_of_export, Hb. }
  rewrite decide_True.
  2: { intros id x. unfold collectExportBooks. rewrite lookup_fmap. intros (e & He & ->)%fmap_Some. rewrite (Hbook _ _ He). by eexists. }
  assert (Forall (λ n, is_Some (folder_of n)) (collectExportFolders (bcache s))) as Hall.
  { apply Forall_forall. intros n. unfold collectExportFolders, sort_strings. rewrite merge_sort_Permutation.
    intros (f & -> & Hin)%list_elem_of_fmap. rewrite Forall_forall in Hf. rewrite folder_of_export by auto. by eexists. }
  rewrite (mapM_omap _ _ Hall). f_equal. f_equal; [f_equal|].
  - apply map_eq. intros id. rewrite map_lookup_imap. unfold collectExportBooks. rewrite !lookup_fmap.
    destruct (cache (bcache s) !! id) as [e|] eqn:He; [|done]. by apply Hbook.
  - apply sorted_folders_unique; [done| |done]. unfold collectExportFolders, sort_strings.
    trans (omap folder_of (exportName <$> cfolders (bcache s))); [|by rewrite merge_sort_Permutation].
    clear Hs Hall Hm Hx. induction Hf as [|f l Hf Hl IH]; [done|]. simpl. rewrite folder_of_export by done. by constructor.
  - apply map_eq. intros name. rewrite map_lookup_imap, lookup_omap.
    assert (default ∅ (collectExportFolderMeta (bcache s)) = exportMeta <$> folderMeta (bcache s)) as ->.
    { unfold collectExportFolderMeta. case_decide as E; [|done]. by rewrite E, fmap_empty. }
    rewrite lookup_fmap. destruct (folderMeta (bcache s) !! name) as [m|] eqn:He; [|done]. simpl. by apply meta_kept_export.
Qed.
End roundtrip.

(** ** The newest export *)
Section newest.
Context `{UnicodeCase, TimeText, Machine, Digest, ShelfEnv, AppVersion, CompactText, ExportConf, RemoteSource}.

Definition readable (t : tree) (name : bytes) (f : BookCacheFile) : Prop :=
  isCacheName name = true ∧ ("/"%char ∉ name) ∧ ∃ c z, t !! [appFolder; name] = Some (File c z) ∧ unmarshal dec_file c = Some f ∧ recognized f.
(** [o] is the newest of the caches found in [seen]. *)
Definition newest_in (t : tree) (seen : bytes → Prop) (o : option (BookCacheFile * bytes)) : Prop :=
  match o with
  | None => ∀ name f, seen name → ¬ readable t name f
  | Some (b, best) => readable t best b ∧ ∀ name f, seen name → readable t name f →
      (Timestamp f < Timestamp b)%Z ∨ Timestamp f = Timestamp b ∧ str_le name best
  end.

Lemma str_le_refl (a : bytes) : str_le a a.
Proof. unfold str_le. by rewrite (proj2 (Compare_eq a a) eq_refl). Qed.
Lemma readable_functional t name f f' : readable t name f → readable t name f' → f = f'.
Proof. intros (_ & _ & c & z & E & Hu & _) (_ & _ & c' & z' & E' & Hu' & _). congruence. Qed.
Lemma newest_skip t seen name o : newest_in t seen o → (∀ f, ¬ readable t name f) →
  newest_in t (λ n, seen n ∨ n = name) o.
Proof.
  intros Hn Hr. destruct o as [[b best]|]; simpl in *.
  - destruct Hn as [Hb Hn]. split; [done|]. intros n f [?| ->] Hf; [by apply Hn|by apply Hr in Hf].
  - intros n f [?| ->]; [by apply Hn|apply Hr].
Qed.
Lemma newest_take t seen name f o : newest_in t seen o → readable t name f →
  newest_in t (λ n, seen n ∨ n = name) (if better f name o then Some (f, name) else o).
Proof.
  intros Hn Hf. assert (∀ f', readable t name f' → f' = f) as Hfun by (intros; by eapply readable_functional).
  destruct o as [[b best]|]; simpl in *.
  - destruct Hn as [Hb Hn]. destruct (_ || _) eqn:E; split; try done.
    + intros n f' [Hs| ->] Hf'; [|right; apply Hfun in Hf' as ->; split; [done|apply str_le_refl]].
      specialize (Hn n f' Hs Hf'). apply orb_true_iff in E as [E%Z.ltb_lt|[E%Z.eqb_eq Ec%bool_decide_eq_true]%andb_true_iff]; [destruct Hn as [?|[? _]]; left; lia|].
      destruct Hn as [?|[? Hle]]; [left; lia|right]. split; [lia|]. trans best; [done|]. unfold str_le. rewrite Compare_antisym, Ec. done.
    + intros n f' [Hs| ->] Hf'; [by apply Hn|]. apply Hfun in Hf' as ->.
      apply orb_false_iff in E as [E%Z.ltb_ge Ec]. destruct (Z.eqb_spec (Timestamp f) (Timestamp b)) as [Et|Et]; [|left; lia].
      right. split; [done|]. simpl in Ec. by apply bool_decide_eq_false in Ec.
  - split; [done|]. intros n f' [Hs| ->] Hf'; [by apply Hn in Hf'|]. apply Hfun in Hf' as ->. right. split; [done|apply str_le_refl].
Qed.

Lemma wp_remote {A : Type} (m : M world A) (Q : result error A → world → Prop) w :
  wp m (λ r w', match r with Ok a => Q (Ok a) w' | Err _ => ∀ e, Q (Err e) w' end) w → wp (remote m) Q w.
Proof. unfold wp, remote. destruct (m w) as [[a|e] w']; simpl; [done|]. intros HQ. destruct e; apply HQ. Qed.

Lemma app_rooted name : rooted [appFolder; name].
Proof. by intros [=]. Qed.
Lemma nf_readBookCacheFile `{!NoFaults} name c z (Q : result error BookCacheFile → world → Prop) w :
  wf_tree (wtree w) → wtree w !! [appFolder; name] = Some (File c z) →
  (∀ n, match unmarshal dec_file c with
        | Some f => if decide (recognized f) then Q (Ok f) (mkWorld (wtree w) n) else ∀ e, Q (Err e) (mkWorld (wtree w) n)
        | None => ∀ e, Q (Err e) (mkWorld (wtree w) n) end) →
  wp (readBookCacheFile [appFolder; name]) Q w.
Proof.
  intros Hw Hc HQ. apply wp_bind, (nf_Open_at _ c z); [done|apply app_rooted|done|]. specialize (HQ (S (tick w))).
  destruct (unmarshal dec_file c) as [f|]; [|apply wp_throw, HQ]. case_decide; [by apply wp_ret|apply wp_throw, HQ].
Qed.

Lemma nf_consider `{!NoFaults} seen name n o w : "/"%char ∉ name →
  wf_tree (wtree w) → wtree w !! [appFolder; name] = Some n → newest_in (wtree w) seen o →
  wp (consider (name, n) o) (λ r w', wtree w' = wtree w ∧ ∃ o', r = Ok o' ∧
    newest_in (wtree w) (λ x, seen x ∨ x = name) o') w.
Proof.
  intros Hsl Hw Hn Ho. unfold consider. simpl. destruct (is_dir n || negb (isCacheName name)) eqn:E.
  { apply wp_ret. split; [done|]. exists o. split; [done|]. apply newest_skip; [done|].
    intros f (Hc & _ & c & z & Hf & _). rewrite Hn in Hf. injection Hf as ->. by rewrite Hc in E. }
  apply orb_false_iff in E as [Hd Hc%negb_false_iff]. destruct n as [|c z]; [done|].
  apply wp_bind, wp_try, wp_remote, (nf_readBookCacheFile name c z); [done|done|]. intros k.
  destruct (unmarshal dec_file c) as [f|] eqn:Hu; [case_decide as Hr|].
  - apply wp_ret. split; [done|]. eexists. split; [done|]. apply newest_take; [done|]. split; [done|]. eauto 6.
  - intros _ e. apply wp_ret. split; [done|]. exists o. split; [done|]. apply newest_skip; [done|].
    intros f' (_ & _ & c' & z' & Hf & Hu' & Hr'). rewrite Hn in Hf. injection Hf as <- <-. congruence.
  - intros _ e. apply wp_ret. split; [done|]. exists o. split; [done|]. apply newest_skip; [done|].
    intros f' (_ & _ & c' & z' & Hf & Hu' & Hr'). rewrite Hn in Hf. injection Hf as <- <-. congruence.
Qed.
Lemma nf_best_of `{!NoFaults} l seen o w :
  wf_tree (wtree w) → Forall (λ e, wtree w !! [appFolder; e.1] = Some e.2 ∧ "/"%char ∉ e.1) l → newest_in (wtree w) seen o →
  wp (best_of l o) (λ r w', wtree w' = wtree w ∧ ∃ o', r = Ok o' ∧
    newest_in (wtree w) (λ x, seen x ∨ x ∈ l.*1) o') w.
Proof.
  intros Hw Hl. revert seen o w Hw Hl. induction l as [|[name n] l IH]; intros seen o w Hw Hl Ho.
  { apply wp_ret. split; [done|]. exists o. split; [done|]. destruct o as [[b best]|]; simpl in *; [|set_solver].
    split; [apply Ho|]. intros x f [?|[]%elem_of_nil]. by apply Ho. }
  apply Forall_cons in Hl as [[Hn Hsl] Hl]. apply wp_bind. eapply wp_mono; [by apply nf_consider|].
  intros r w' [Ht (o' & -> & Ho')]. rewrite <-Ht in Ho', Hl, Hw.
  eapply wp_mono; [by eapply (IH _ o' w')|]. intros r2 w2 [Ht2 (o2 & -> & Ho2)]. split; [congruence|].
  exists o2. split; [done|]. rewrite <-Ht. destruct o2 as [[b best]|]; simpl in *; [destruct Ho2 as [? Ho2]; split; [done|]|];
    intros x f Hx; apply Ho2; set_solver.
Qed.

Lemma nf_newest `{!NoFaults} w : wf_tree (wtree w) → wtree w !! [appFolder] = Some Dir →
  wp newestExportedBookCache (λ r w', wtree w' = wtree w ∧ ∃ o, r = Ok o ∧ newest_in (wtree w) (λ _, True) o) w.
Proof.
  intros Hw Ha. apply wp_bind, wp_try, wp_remote, nf_ReadDir_at; [done|by intros [=]|done|].
  eapply wp_mono; [apply (nf_best_of _ (λ _, False) None (mkWorld (wtree w) (S (tick w)))); [done| |by intros ?? []]|].
  - apply Forall_forall. intros [name n] Hin. by apply elem_of_entries in Hin.
  - intros r w' [Ht (o & -> & Ho)]. split; [done|]. exists o. split; [done|]. simpl in Ho.
    assert (∀ name f, readable (wtree w) name f → name ∈ (entries (wtree w) [appFolder]).*1) as Hall.
    { intros name f (_ & Hs & c & z & Hf & _). apply list_elem_of_fmap. exists (name, File c z). split; [done|].
      by apply elem_of_entries. }
    destruct o as [[b best]|]; simpl in *; [destruct Ho as [? Ho]; split; [done|]|];
      intros name f _ Hf; (eapply Ho; [right; by eapply Hall|done]).
Qed.

(** ** Refreshing *)
Lemma nf_refresh `{!NoFaults} f name without s :
  wf_tree (stree s) → stree s !! [appFolder] = Some Dir → readable (stree s) name f →
  (∀ name' f', readable (stree s) name' f' → name' ≠ name → (Timestamp f' < Timestamp f)%Z) →
  lastScanStart (bcache s) = zero_time →
  (∀ Q : result error unit → Shelf → Prop, ∀ digest entries fs metas,
     bookCacheDigest f = Ok digest → bookCacheSnapshot f = Ok (entries, fs, metas) →
     (∀ s', stree s' = stree s →
        (∃ t, bcache s' = with_listing entries fs metas t (time_Unix (Timestamp f)) digest (bcache s)) → Q (Ok tt) s') →
     wp (refreshRemoteFromSource without) Q s).
Proof.
  intros Hw Ha Hf Hmax Hz Q digest entries fs metas Hd Hs HQ. apply wp_bind.
  apply wp_bind, wp_try, wp_lift. eapply wp_mono; [by apply nf_newest|].
  intros r w' [Ht (o & -> & Ho)]. destruct o as [[b best]|]; simpl in Ho; [|by apply Ho in Hf].
  destruct Ho as [Hb Ho]. assert (best = name) as ->.
  { destruct (decide (best = name)) as [|Hne]; [done|]. pose proof (Hmax _ _ Hb Hne). destruct (Ho name f I Hf) as [?|[? _]]; lia. }
  assert (b = f) as -> by (by eapply readable_functional).
  apply wp_bind, wp_of_result. rewrite Hd. apply wp_bind, wp_gets. unfold exportIsNotNewer.
  cbn [bcache set_world]. rewrite Hz, Z.eqb_refl. cbn [negb andb]. rewrite Hs.
  apply wp_bind, wp_lift, wp_now. intros t n. apply wp_bind, wp_update_cache, wp_ret, HQ; [done|]. by exists t.
Qed.

(** ** Refreshing, whatever fails *)
Definition found_readable (t : tree) (r : result error (option (BookCacheFile * bytes))) (t' : tree) : Prop :=
  t' = t ∧ ∀ b name, r = Ok (Some (b, name)) → readable t name b.
Lemma wp_consider e o w : ("/"%char ∉ e.1) → found_readable (wtree w) (Ok o) (wtree w) →
  wp (consider e o) (λ r w', found_readable (wtree w) r (wtree w') ∧ is_ok r = true) w.
Proof.
  intros Hs [_ Ho]. unfold consider. destruct (is_dir e.2 || _) eqn:E; [by apply wp_ret|].
  apply orb_false_iff in E as [_ Hc%negb_false_iff].
  apply wp_bind, wp_try, wp_remote, wp_readBookCacheFile; [intros ? ? ?; by apply wp_ret|].
  intros f c z n Hf Hu Hr. apply wp_ret. split; [|done]. split; [done|]. destruct (better f e.1 o); [|done].
  intros b name [= <- <-]. split; [done|]. split; [done|]. by exists c, z.
Qed.
Lemma wp_best_of l o w : Forall (λ e : bytes * node, "/"%char ∉ e.1) l → found_readable (wtree w) (Ok o) (wtree w) →
  wp (best_of l o) (λ r w', found_readable (wtree w) r (wtree w')) w.
Proof.
  intros Hl. revert o w. induction Hl as [|e l Hs Hl IH]; intros o w Ho; [by apply wp_ret|].
  apply wp_bind. eapply wp_mono; [by apply wp_consider|]. intros [o'|e'] w' [Ho' Hok]; [|done].
  destruct Ho' as [Ht Ho']. rewrite <-Ht. apply IH. split; [done|]. by rewrite Ht.
Qed.
Lemma wp_newest w :
  wp newestExportedBookCache (λ r w', found_readable (wtree w) r (wtree w')) w.
Proof.
  apply wp_bind, wp_try, wp_remote, ScanCache.wp_ReadDir. intros [l|e] n Hl.
  - apply (wp_best_of l None (mkWorld (wtree w) n)); [|done]. destruct (Hl l eq_refl) as [_ ->]. apply entries_plain.
  - intros e'. by destruct (errors_Is _ _).
Qed.

(** A listing that is kept, or taken over from a file. *)
Definition same_listing (c c' : bookCache) : Prop :=
  with_lastFullScan 0 c' = with_lastFullScan 0 c.
Definition taken_over (s s' : Shelf) : Prop :=
  ∃ name f entries fs metas t digest, readable (stree s) name f ∧ bookCacheSnapshot f = Ok (entries, fs, metas) ∧
    bookCacheDigest f = Ok digest ∧ bcache s' = with_listing entries fs metas t (time_Unix (Timestamp f)) digest (bcache s) ∧
    (lastScanStart (bcache s) = zero_time ∨ (lastScanStart (bcache s) < time_Unix (Timestamp f))%Z ∨
     lastScanStart (bcache s) = time_Unix (Timestamp f) ∧ digest ≠ remoteDigest (bcache s)).

Lemma wp_markRemoteRefreshAttempt (Q : result error unit → Shelf → Prop) s :
  (∀ t n, Q (Ok tt) (set_cache (with_lastFullScan t (bcache s)) (set_world (mkWorld (stree s) n) s))) →
  wp markRemoteRefreshAttempt Q s.
Proof. intros HQ. apply wp_bind, wp_lift, wp_now. intros t n. apply wp_update_cache, HQ. Qed.
(** Only the cache and the clock change, and the listing is kept unless one
    was taken over. *)
Definition refreshed (s : Shelf) (took : bool) (s' : Shelf) : Prop :=
  ∃ c n, s' = set_cache c (set_world (mkWorld (stree s) n) s) ∧
    (same_listing (bcache s) c ∨ took = true ∧ taken_over s s').
Definition answer_of (r : result error bool) : bool := match r with Ok b => b | Err _ => false end.
Lemma wp_takeOverNewest s :
  wp takeOverNewest (λ r s', refreshed s (answer_of r) s') s.
Proof.
  apply wp_bind, wp_try, wp_lift. eapply wp_mono; [apply wp_newest|]. intros r [t w'] [Ht Hr]. simpl in Ht. subst t.
  assert (∀ took t n, refreshed s took (set_cache (with_lastFullScan t (bcache s))
    (set_world (mkWorld (stree s) n) (set_world (mkWorld (stree s) w') s)))) as Hsame.
  { intros took t n. exists (with_lastFullScan t (bcache s)), n. split; [done|by left]. }
  destruct r as [[[f name]|]|e].
  - apply wp_bind, wp_of_result. destruct (bookCacheDigest f) as [digest|e] eqn:Hd.
    2: { exists (bcache s), w'. split; [by destruct s|by left]. }
    apply wp_bind, wp_gets. cbv zeta. cbn [bcache set_world]. destruct (exportIsNotNewer _ _ _ _) eqn:Hn.
    { apply wp_bind, wp_markRemoteRefreshAttempt. intros t n. apply wp_ret, Hsame. }
    destruct (bookCacheSnapshot f) as [[[entries fs] metas]|e] eqn:Hs.
    2: { apply wp_bind, wp_markRemoteRefreshAttempt. intros t n. apply wp_ret, Hsame. }
    apply wp_bind, wp_lift, wp_now. intros t n. apply wp_bind, wp_update_cache, wp_ret.
    eexists _, n. split; [done|]. right. split; [done|].
    exists name, f, entries, fs, metas, t, digest. specialize (Hr _ _ eq_refl). split; [done|]. split; [done|].
    split; [done|]. split; [done|]. unfold exportIsNotNewer in Hn.
    destruct (Z.eqb_spec (lastScanStart (bcache s)) zero_time) as [?|_]; [by left|]. simpl in Hn. right.
    apply orb_false_iff in Hn as [Hlt%Z.ltb_ge Heq]. destruct (Z.eqb_spec (time_Unix (Timestamp f)) (lastScanStart (bcache s))); [|left; lia].
    right. split; [done|]. simpl in Heq. by apply bool_decide_eq_false in Heq.
  - apply wp_bind, wp_markRemoteRefreshAttempt. intros t n. apply wp_ret, Hsame.
  - apply wp_bind, wp_markRemoteRefreshAttempt. intros t n. apply wp_throw, Hsame.
Qed.

(** A refresh of a remote shelf only reads. Whatever fails, it keeps the
    listing it has, or takes over the whole of one exported cache that is in
    [app/] and reads: one begun after the walk behind the current listing, or
    in its second with other content. It never goes back. *)
Theorem refreshRemote_never_goes_back s :
  wp (refreshRemoteFromSource None) (λ r s', stree s' = stree s ∧
    (same_listing (bcache s) (bcache s') ∨ r = Ok tt ∧ taken_over s s')) s.
Proof.
  apply wp_bind. eapply wp_mono; [apply wp_takeOverNewest|]. intros r s' (c & n & -> & Hc).
  destruct r as [[]|e]; [apply wp_ret..|]; (split; [done|]); destruct Hc as [Hc|[? Hc]]; auto; done.
Qed.

(** A temporary sibling does not have the name of an exported cache. *)
Lemma temp_not_cache name n : Atomic.isTempFileName n = true → name = n → isCacheName name = false.
Proof.
  intros (pre & suf & -> & _)%Atomic.isTempFileName_inv ->. unfold isCacheName. apply andb_false_intro2.
  unfold HasSuffix. apply bool_decide_false. intros [k E]. unfold Atomic.temp_name, Atomic.tempExtension in E.
  apply (f_equal last) in E. rewrite !app_assoc in E. change (str ".tmp") with (str ".tm" ++ ["p"%char]) in E.
  change bookCacheFileSuffix with (str ".jso" ++ ["n"%char]) in E. by rewrite !app_assoc, !last_snoc in E.
Qed.
Lemma own_cache_name : isCacheName bookCacheFileName = true.
Proof.
  unfold isCacheName, HasPrefix, bookCacheFileName. rewrite app_assoc, HasSuffix_app, andb_true_r.
  apply bool_decide_true. exists (bookCacheWriterID ++ bookCacheFileSuffix). by rewrite app_assoc.
Qed.
End newest.

Section across.
Context `{UnicodeCase, TimeTextLaws, Machine, Digest, ShelfEnv, AppVersion, CompactText, ExportConf, RemoteSource, !NoFaults}.

(** The other caches of [app/] after an export are among those before. *)
Lemma readable_before force s r s' name f :
  exported force s r s' → readable (stree s') name f → name ≠ bookCacheFileName → readable (stree s) name f.
Proof.
  intros Hx (Hc & Hs & c & z & Hf & Hu & Hr) Hn. split; [done|]. split; [done|]. exists c, z. split; [|done].
  destruct (ex_kept _ _ _ _ Hx [appFolder; name]) as [E|[_ E]]; [by intros [= ->]| |by rewrite <-E|congruence].
  intros (n & E & Ht). apply (app_inj_tail [appFolder] [appFolder]) in E as [_ E].
  by rewrite (temp_not_cache name n) in Hc.
Qed.

(** Claim C27: From one installation to another: once an installation has exported what
    it lists, a remote shelf that opens the same files lists the same books
    under the same IDs, paths and folders and with the same metadata, the same
    folders in the same order, and what the folders' marks show; it dates the
    listing to the second the writer's walk began. The writer lists what a
    scan lists ([exportable]), and the other caches in [app/] are older. *)
Theorem remote_lists_the_export s s1 r0 without :
  wf_tree (stree s) → exportable (bcache s) → storable_cache (payload_of s) → recognized (payload_of s) →
  ("/"%char ∉ bookCacheWriterID) →
  exportBookCache true s = (Ok tt, s1) →
  (∀ name f, readable (stree s) name f → name ≠ bookCacheFileName → (Timestamp f < Timestamp (payload_of s))%Z) →
  stree r0 = stree s1 → lastScanStart (bcache r0) = zero_time →
  wp (refreshRemoteFromSource without) (λ r r1, r = Ok tt ∧ stree r1 = stree r0 ∧
    cache (bcache r1) = remote_of <$> cache (bcache s) ∧ cfolders (bcache r1) = cfolders (bcache s) ∧
    folderMeta (bcache r1) = omap shown_meta (folderMeta (bcache s)) ∧
    lastScanStart (bcache r1) = time_Unix (Unix (lastScanStart (bcache s)))) r0.
Proof.
  intros Hw Hx Hst Hrec Hsl Hrun Hold Ht0 Hz.
  pose proof (wp_exportBookCache true s Hw) as Hex. unfold wp in Hex. rewrite Hrun in Hex. simpl in Hex.
  assert (exportEnabled = true) as Hen.
  { unfold exportEnabled. apply negb_true_iff, bool_decide_eq_false. by destruct Hrec as (_ & ? & _). }
  destruct (ex_done _ _ _ _ Hex eq_refl Hen) as [[[z Hl] Hd]|[? _]]; [|done].
  assert (readable (stree r0) bookCacheFileName (payload_of s)) as Hown.
  { split; [apply own_cache_name|]. split.
    - unfold bookCacheFileName. rewrite !not_elem_of_app. split_and!; [|done|]; apply (bool_decide_unpack _); vm_compute; exact I.
    - exists (Doc (enc_file (payload_of s))), z. rewrite Ht0. split; [done|]. split; [by apply unmarshal_enc_file|done]. }
  pose proof (ex_wf _ _ _ _ Hex) as Hw1.
  eapply (nf_refresh (payload_of s) bookCacheFileName without r0 ltac:(by rewrite Ht0)); [|done| |done|done| |].
  - rewrite Ht0. by eapply (wf_ancestor _ [appFolder] [bookCacheFileName]).
  - intros name f Hf Hn. rewrite Ht0 in Hf. apply (Hold name); [by eapply readable_before|done].
  - by apply snapshot_of_export.
  - intros r1 Ht (t & E). rewrite E. split_and!; try done.
Qed.
End across.
End CacheSnapshot.
