(* ===== verification/ShelfConfig.v ===== *)
(** * The configuration of a shelf and how it starts: [src/shelf/shelf_config.go], [shelf.go], [shelf_source.go]

    The rules a shelf keeps in its [shelf.json], the settings an
    installation opens it with, and the start of a local shelf. Durations, the
    parsing of URLs and the logger are parameters; the root directory is what
    [os.OpenRoot] finds. A broken [shelf.json] never keeps a shelf from
    opening, and a bad entry affects nothing but itself. *)

From S2P Require Import Prelude Utf8 Strings Float64 Json Fs FsSpec Atomic ShelfUtil BookMeta Source Frame Relocate ScanCache FolderMeta Book ShelfState Trash Folder ShelfBook ShelfFrame FolderSpec TrashSpec Documents CacheExport.

(** [time.ParseDuration], [davfs.ParseURL] and [logutil.NewLogger]. *)
Class ConfigEnv := {
  ParseDuration : bytes → option Z;
  url_parses : bytes → bool;
  logger_opens : bool;
}.
(** What [os.OpenRoot] finds at a path, the first time and after
    [os.MkdirAll], and whether the latter succeeds. *)
Class HostRoots := {
  OpenRoot : bytes → result error tree;
  OpenRootAgain : bytes → result error tree;
  MkdirRoot : bytes → result error unit;
}.

Module ShelfConfig.
Import Json Documents BookMeta ShelfUtil Shelf Trash ShelfFrame TrashSpec CacheFile CacheExport.

(** ** [shelf.json] *)
Definition shelfConfigFile : bytes := str "shelf.json".
Definition shelfConfigSchemaVersion : Z := 1.
Definition maxShelfConfigBytes : Z := 2 ^ 20.

(** A nil slice is [None]; the entries stay raw. *)
Record shelfConfigJSON := mkConfig {
  SchemaVersion : Z;
  IgnoredDirs : option (list json);
  NSFWFolders : list json;
}.
Definition dec_raw_list (j : json) : option (option (list json)) :=
  match j with JNull => Some None | JArr l => Some (Some l) | _ => None end.
Definition dec_config (j : json) : option shelfConfigJSON :=
  o ← dec_object j;
  schema ← dec_int (member (str "schema_version") o);
  scan ← dec_object (member (str "scan") o);
  ignored ← dec_raw_list (member (str "ignored_dirs") scan);
  content ← dec_object (member (str "content") o);
  marked ← dec_raw_list (member (str "nsfw_folders") content);
  Some (mkConfig schema ignored (default [] marked)).

Definition parseIgnoredDir (raw : json) : option IgnoredDir :=
  o ← dec_object raw;
  name ← dec_string (member (str "name") o);
  reason ← dec_string (member (str "reason") o);
  Some (mkIgnoredDir name reason).
Definition parseNSFWFolder (raw : json) : option NSFWFolder :=
  o ← dec_object raw;
  pth ← dec_string (member (str "path") o);
  reason ← dec_string (member (str "reason") o);
  Some (mkNSFWFolder pth reason).

Section rules.
Context `{UnicodeCase}.

(** The loops keep the entries that parse and pass the check. *)
Definition usable_dir (raw : json) : option IgnoredDir :=
  dir ← parseIgnoredDir raw; if is_ok (ValidatePathSegment (Name dir)) then Some dir else None.
Definition usable_folder (raw : json) : option NSFWFolder :=
  folder ← parseNSFWFolder raw; if is_ok (ValidateNSFWFolderPath (Path folder)) then Some folder else None.
Definition ignoreRulesFrom (conf : option shelfConfigJSON) : gmap bytes IgnoredDir :=
  match conf with
  | Some (mkConfig _ (Some l) _) => NewIgnoreRules (omap usable_dir l)
  | _ => NewIgnoreRules DefaultIgnoredDirs
  end.
Definition nsfwRulesFrom (conf : option shelfConfigJSON) : gmap bytes NSFWFolder :=
  match conf with
  | Some c => if decide (NSFWFolders c = []) then ∅ else NewNSFWRules (omap usable_folder (NSFWFolders c))
  | None => ∅
  end.

Context `{Machine}.
(** [func readShelfConfig] *)
Definition readShelfConfig : M world (option shelfConfigJSON) :=
  read ← try (Open [shelfConfigFile]);
  mret (match read with
        | Err _ => None
        | Ok c => if (maxShelfConfigBytes <? content_size c)%Z then None else unmarshal dec_config c
        end).
(** [func loadShelfRules] *)
Definition loadShelfRules : M world (gmap bytes IgnoredDir * gmap bytes NSFWFolder) :=
  conf ← readShelfConfig;
  mret (ignoreRulesFrom conf, nsfwRulesFrom conf).
End rules.

(** ** Where a shelf lives: [shelf_source.go] *)
Definition SourceLocal : bytes := str "local".
Definition SourcePlainShelf : bytes := str "plainshelf".
Definition SourceWebDAV : bytes := str "webdav".
Definition SourcePCloud : bytes := str "pcloud".
Record SourceConf := mkSourceConf {
  Type_ : bytes;
  SPath : bytes;
  URL : bytes;
  HostName : bytes;
  UserID : bytes;
  ClientID : bytes;
  Username : bytes;
  Credential : bytes;
}.
#[export] Instance SourceConf_eq_dec : EqDecision SourceConf.
Proof. solve_decision. Defined.
Definition credentialSchemes : list bytes := [str "env:"; str "file:"; str "host:"].
Definition localSource (p : bytes) : SourceConf := mkSourceConf SourceLocal p [] [] [] [] [] [].

Definition ErrConfig : error := Msg "invalid configuration".
(** The fields in the order of their keys. *)
Definition conf_fields (c : SourceConf) : list (bytes * bytes) :=
  [(str "client_id", ClientID c); (str "credential", Credential c); (str "host", HostName c);
   (str "path", SPath c); (str "url", URL c); (str "user_id", UserID c); (str "username", Username c)].
Definition field_of (key : bytes) (c : SourceConf) : bytes :=
  default [] (snd <$> find (λ f : bytes * bytes, bool_decide (f.1 = key)) (conf_fields c)).
(** The fields a type of source takes, and those it requires. *)
Definition fields_of_type (t : bytes) : option (list bytes * list bytes) :=
  if decide (t = SourceLocal) then Some ([str "path"], [str "path"]) else
  if decide (t = SourcePlainShelf) then Some ([str "url"; str "credential"], [str "url"; str "credential"]) else
  if decide (t = SourceWebDAV) then Some ([str "url"; str "username"; str "credential"], [str "url"]) else
  if decide (t = SourcePCloud) then Some ([str "host"; str "user_id"; str "client_id"; str "path"; str "credential"],
    [str "host"; str "path"; str "credential"]) else None.
(** [func validateCredentialRef]: the first scheme that fits decides. *)
Fixpoint check_schemes (schemes : list bytes) (ref : bytes) : result error unit :=
  match schemes with
  | [] => Err ErrConfig
  | scheme :: rest =>
      if HasPrefix ref scheme
      then if decide (TrimSpace (drop (length scheme) ref) = []) then Err ErrConfig else Ok tt
      else check_schemes rest ref
  end.
Definition validateCredentialRef (ref : bytes) : result error unit := check_schemes credentialSchemes ref.

Section source.
Context `{ConfigEnv}.
(** [func (c *SourceConf) Validate] *)
Definition Validate (c : SourceConf) : result error unit :=
  match fields_of_type (Type_ c) with
  | None => Err ErrConfig
  | Some (allowed, required) =>
      if existsb (λ f, negb (bool_decide (f.2 = [])) && negb (bool_decide (f.1 ∈ allowed))) (conf_fields c) then Err ErrConfig else
      if existsb (λ key, bool_decide (field_of key c = [])) required then Err ErrConfig else
      if negb (bool_decide (Username c = [])) && bool_decide (Credential c = []) then Err ErrConfig else
      _ ← (if decide (Credential c = []) then Ok tt else validateCredentialRef (Credential c)) ;;!
      if negb (bool_decide (URL c = [])) && negb (url_parses (URL c)) then Err ErrConfig else Ok tt
  end.
Definition IsVirtual (c : SourceConf) : bool := negb (bool_decide (Type_ c = SourceLocal)).

(** ** The settings of an installation: [shelf.go] *)
Record ShelfConf := mkShelfConf {
  LibRoot : bytes;
  CSource : option SourceConf;
  CReadOnly : bool;
  ScanInterval : bytes;
  LockTimeout : bytes;
  LockMode : bytes;
  BookCheckInterval : bytes;
  CScanCache : option bool;
  BookCacheWriterID : bytes;
  BookCacheInterval : bytes;
}.
(** [func (c *ShelfConf) ResolveSource] *)
Definition ResolveSource (c : ShelfConf) : result error SourceConf :=
  match CSource c with
  | Some src =>
      if decide (LibRoot c ≠ []) then Err ErrConfig else
      _ ← Validate src ;;! Ok src
  | None => if decide (LibRoot c = []) then Err ErrConfig else Ok (localSource (LibRoot c))
  end.

Record shelfSettings := mkSettings {
  st_scanInterval : Z;
  st_lockTimeout : Z;
  st_bookCheckInterval : Z;
  st_bookCacheInterval : Z;
  st_scanCacheEnabled : bool;
  st_bookCacheWriterID : bytes;
}.
Definition minute : Z := (60 * second)%Z.
Definition defaultLockTimeout : Z := (30 * second)%Z.
Definition duration (text : bytes) (default_ : Z) : result error Z :=
  if decide (text = []) then Ok default_ else
  match ParseDuration text with Some d => Ok d | None => Err ErrConfig end.

(** [func validateBookCacheWriterID]: it ranges over the runes. *)
Definition writer_rune (r : bytes) : bool :=
  let v := (Utf8.decode_rune r).1 in
  ((97 <=? v) && (v <=? 122) || (65 <=? v) && (v <=? 90) || (48 <=? v) && (v <=? 57) || (v =? 45) || (v =? 95))%Z.
Definition validateBookCacheWriterID (writerID : bytes) : result error unit :=
  if decide (writerID = []) then Ok tt else
  if decide (64 < length writerID) then Err ErrConfig else
  if forallb writer_rune (Utf8.runes writerID) then Ok tt else Err ErrConfig.

(** [func parseShelfSettings] *)
Definition parseShelfSettings (c : ShelfConf) : result error shelfSettings :=
  scan ← duration (ScanInterval c) minute ;;!
  lock ← duration (LockTimeout c) defaultLockTimeout ;;!
  check ← duration (BookCheckInterval c) scan ;;!
  export ← duration (BookCacheInterval c) defaultBookCacheInterval ;;!
  _ ← validateBookCacheWriterID (BookCacheWriterID c) ;;!
  if negb logger_opens then Err ErrConfig else
  Ok (mkSettings scan lock check export (default true (CScanCache c))
        (if CReadOnly c then [] else BookCacheWriterID c)).

(** [func (s *Shelf) SetIntervals] *)
Definition with_intervals (scan check : Z) (c : bookCache) : bookCache :=
  mkBookCache (cache c) (cfolders c) (folderMeta c) (treeDirty c) (lastFullScan c) (lastScanStart c) scan
    (lastBookCheck c) check (rescanID c) (rescanTokens c) (rescanTokensAt c) (lastExport c) (lastExportDigest c)
    (remoteDigest c).
Definition SetIntervals (scanInterval bookCheckInterval : bytes) : M Shelf unit :=
  scan ← of_result (duration scanInterval minute);
  check ← of_result (duration bookCheckInterval scan);
  update_cache (with_intervals scan check).
End source.

(** ** The start of a local shelf *)
Section start.
Context `{UnicodeCase, TimeText, Machine, Digest, ShelfEnv, ConfigEnv, HostRoots}.

(** [func newScanCache]; the cache file is not modelled. *)
Definition newScanCache (enabled : bool) : ScanCache.Cache :=
  ScanCache.mkCache enabled [FolderMeta.FolderMeta.FolderMetaFile] ∅ (ScanCache.mkStats 0 0 0).

(** [func startShelf] without the background work, which is [initCache]. *)
Definition startShelf (ro : bool) (st : shelfSettings) : M world Shelf :=
  rules ← loadShelfRules;
  s ← gets (λ w, mkShelf w ro false rules.1 rules.2 (newBookCache (st_scanInterval st) (st_bookCheckInterval st))
                   (newScanCache (st_scanCacheEnabled st)) Unlocked);
  let '(made, s) := makeStructure s in
  modify (λ _, sworld s);;
  match made with Ok _ => mret s | Err e => throw e end.

(** [NewShelf] up to the root directory: the settings, the root and whether
    the shelf is locked through a file. *)
Definition open_root (ro : bool) (libRoot : bytes) : result error tree :=
  match OpenRoot libRoot with
  | Ok t => Ok t
  | Err e =>
      if ro then Err e else
      if negb (errors_Is e ENotExist) then Err e else
      _ ← MkdirRoot libRoot ;;! OpenRootAgain libRoot
  end.
Definition lock_mode (ro : bool) (mode : bytes) : result error bool :=
  if decide (mode = [] ∨ mode = str "flock") then Ok (negb ro) else
  if decide (mode = str "none") then Ok false else Err ErrConfig.
Definition openConfigured (c : ShelfConf) : result error (shelfSettings * tree * bool) :=
  src ← ResolveSource c ;;!
  if IsVirtual src then Err ErrConfig else
  st ← parseShelfSettings c ;;!
  t ← open_root (CReadOnly c) (SPath src) ;;!
  flocked ← lock_mode (CReadOnly c) (LockMode c) ;;!
  Ok (st, t, flocked).
Definition NewShelf (c : ShelfConf) (step : nat) : result error (Shelf * bool) :=
  opened ← openConfigured c ;;!
  let '(st, t, flocked) := opened in
  s ← (startShelf (CReadOnly c) st (mkWorld t step)).1 ;;!
  Ok (s, flocked).

(** [func (s *Shelf) initCache] of a local shelf *)
Definition set_ready (b : bool) (s : Shelf) : Shelf :=
  mkShelf (sworld s) (readOnly s) b (ignoreRules s) (nsfw s) (bcache s) (scanCache s) (shelfLock s).
Definition initCache `{AppVersion, CompactText, ExportConf} : M Shelf unit :=
  scanToBookCache;;
  modify (set_ready true);;
  if exportEnabled then ignore (exportBookCache false) else mret tt.
End start.

(** ** What the rules skip *)
Section rules_spec.
Context `{UnicodeCase}.

Lemma NewIgnoreRules_acc dirs m k :
  is_Some (foldl (λ (m : gmap bytes IgnoredDir) dir, if decide (Name dir = []) then m else <[lower (Name dir) := dir]> m) m dirs !! k) ↔
  is_Some (m !! k) ∨ ∃ dir, dir ∈ dirs ∧ Name dir ≠ [] ∧ lower (Name dir) = k.
Proof.
  revert m. induction dirs as [|dir dirs IH]; intros m; simpl; [set_solver|]. rewrite IH.
  case_decide as Hn; [set_solver|]. rewrite lookup_insert_is_Some'. set_solver.
Qed.
Lemma IsIgnoredDir_spec dirs name :
  IsIgnoredDir (NewIgnoreRules dirs) name = true ↔
  HasPrefix name (str ".") = true ∨ ∃ dir, dir ∈ dirs ∧ Name dir ≠ [] ∧ lower (Name dir) = lower name.
Proof.
  unfold IsIgnoredDir, MatchIgnoredDir. rewrite bool_decide_eq_true. destruct (HasPrefix name _); [naive_solver|].
  rewrite fmap_is_Some. unfold NewIgnoreRules. rewrite NewIgnoreRules_acc, lookup_empty.
  split; [intros [[? [=]]|?]; by right|intros [[=]|?]; by right].
Qed.

(** An entry of a list in [shelf.json] that can be used. *)
Definition names_dir (raw : json) (dir : IgnoredDir) : Prop :=
  parseIgnoredDir raw = Some dir ∧ ValidatePathSegment (Name dir) = Ok tt.
Lemma usable_dir_spec raw dir : usable_dir raw = Some dir ↔ names_dir raw dir.
Proof.
  unfold usable_dir, names_dir. destruct (parseIgnoredDir raw) as [d|]; simpl; [|naive_solver].
  destruct (ValidatePathSegment (Name d)) as [[]|e] eqn:E; simpl; split; intros Hx; simplify_eq; try done; destruct Hx; simplify_eq; congruence.
Qed.
Lemma valid_nonempty name : ValidatePathSegment name = Ok tt → name ≠ [].
Proof. by intros [[[Hn _] _]%ValidateFolderSegment_ok _]%ValidatePathSegment_ok. Qed.

(** The directories a walk skips, whatever [shelf.json] holds: the hidden
    ones, and those a usable entry of its list names in any case. An entry
    that is no object, or names no single segment, counts for nothing and
    takes no other with it. Without the file, or without a list in it, the
    names are the built-in ones; an empty list replaces those with none. *)
Theorem ignoreRulesFrom_exact conf name :
  IsIgnoredDir (ignoreRulesFrom conf) name = true ↔
  HasPrefix name (str ".") = true ∨
  match conf ≫= IgnoredDirs with
  | None => ∃ dir, dir ∈ DefaultIgnoredDirs ∧ lower (Name dir) = lower name
  | Some l => ∃ raw dir, raw ∈ l ∧ names_dir raw dir ∧ lower (Name dir) = lower name
  end.
Proof.
  assert (∀ dir, dir ∈ DefaultIgnoredDirs → Name dir ≠ []) as Hdef by (apply Forall_forall; repeat constructor; done).
  destruct conf as [[v [l|] n]|]; simpl; rewrite IsIgnoredDir_spec; [|split; intros [?|(d & Hd & ?)]; [by left|right|by left|right]; exists d; naive_solver..].
  split; (intros [?|Hx]; [by left|right]).
  - destruct Hx as (dir & (raw & Hr & Hu)%list_elem_of_omap & _ & Hl). exists raw, dir. by rewrite usable_dir_spec in Hu.
  - destruct Hx as (raw & dir & Hr & Hn & Hl). exists dir. split; [apply list_elem_of_omap; exists raw; by rewrite usable_dir_spec|].
    split; [|done]. by apply valid_nonempty, Hn.
Qed.
End rules_spec.

(** ** Settings *)
Section settings_spec.
Context `{ConfigEnv}.

(** A rune of more than one byte is not ASCII. *)
Lemma lor_ge a b : (0 ≤ a → 0 ≤ b → a ≤ Z.lor a b ∧ b ≤ Z.lor a b)%Z.
Proof.
  intros Ha Hb. pose proof (Z.add_lor_land a b).
  pose proof (Z.sub_nocarry_ldiff b (Z.land a b)) as Hd. pose proof (Z.sub_nocarry_ldiff a (Z.land a b)) as Ha'.
  pose proof (Z.ldiff_nonneg b (Z.land a b)). pose proof (Z.ldiff_nonneg a (Z.land a b)).
  pose proof (Z.land_nonneg a b).
  rewrite <-Hd in *; [|apply Z.bits_inj'; intros n Hn; rewrite Z.ldiff_spec, Z.land_spec, Z.bits_0; by destruct (Z.testbit a n), (Z.testbit b n)].
  rewrite <-Ha' in *; [|apply Z.bits_inj'; intros n Hn; rewrite Z.ldiff_spec, Z.land_spec, Z.bits_0; by destruct (Z.testbit a n), (Z.testbit b n)].
  lia.
Qed.
Lemma land_ones_mod a k n : (0 ≤ n → k = Z.ones n → Z.land a k = a mod 2 ^ n)%Z.
Proof. intros ? ->. by apply Z.land_ones. Qed.
Ltac masks := rewrite ?(land_ones_mod _ 7 3), ?(land_ones_mod _ 15 4), ?(land_ones_mod _ 31 5), ?(land_ones_mod _ 63 6) by done;
  change (2 ^ 3)%Z with 8%Z in *; change (2 ^ 4)%Z with 16%Z in *; change (2 ^ 5)%Z with 32%Z in *; change (2 ^ 6)%Z with 64%Z in *.
Ltac mods := masks; Z.div_mod_to_equations; lia.
Lemma first_class_lead p n lo hi : Utf8.first_class p = Some (n, lo, hi) →
  n = 2 ∧ (2 ≤ Z.land p 31)%Z ∨ n = 3 ∧ ((1 ≤ Z.land p 15)%Z ∨ (160 ≤ lo ∧ hi ≤ 191)%Z) ∨
  n = 4 ∧ ((1 ≤ Z.land p 7)%Z ∨ (144 ≤ lo ∧ hi ≤ 191)%Z).
Proof.
  unfold Utf8.first_class, Utf8.in_range. masks.
  repeat (case_match; [intros [= <- <- <-]; first [left; split; [done|mods]|right; left; split; [done|first [right; lia|left; mods]]|right; right; split; [done|first [right; lia|left; mods]]]|]).
  done.
Qed.
Lemma shiftl_ge a b n : (0 ≤ n → b ≤ a → b * 2 ^ n ≤ Z.shiftl a n)%Z.
Proof. intros Hn Hb. rewrite Z.shiftl_mul_pow2 by done. nia. Qed.
Lemma lead_high a b c n : (0 ≤ n → 0 ≤ b → 0 ≤ c → 0 ≤ a → c ≤ a → 128 ≤ c * 2 ^ n → 128 ≤ Z.lor (Z.shiftl a n) b)%Z.
Proof.
  intros Hn Hb Hc Ha Hca H128. pose proof (shiftl_ge a c n Hn Hca). destruct (lor_ge (Z.shiftl a n) b); [|done|lia].
  by apply Z.shiftl_nonneg.
Qed.
Lemma decode_rune_high c s : (128 ≤ byte_val c)%Z → (128 ≤ (Utf8.decode_rune (c :: s)).1)%Z.
Proof.
  intros Hc. unfold Utf8.decode_rune. cbn [list_fmap fmap]. destruct (Z.ltb_spec (byte_val c) 128); [lia|].
  assert (128 ≤ Utf8.RuneError)%Z as He by done. generalize dependent (byte_val c). intros p Hp _.
  assert (∀ x k, 0 ≤ k → 0 ≤ Z.land x k)%Z as Hl by (intros x k Hk; apply Z.land_nonneg; auto).
  destruct (Utf8.first_class p) as [[[n lo] hi]|] eqn:E; [|done].
  destruct (first_class_lead _ _ _ _ E) as [(-> & Hp2)|[(-> & Hp3)|(-> & Hp4)]].
  - destruct (byte_val <$> s) as [|s1 ?]; [done|]. case_match; [|done]. simpl. by apply (lead_high _ _ 2); try apply Hl; try lia.
  - destruct (byte_val <$> s) as [|s1 [|s2 ?]]; [done..|]. destruct (Utf8.in_range s1 lo hi) eqn:E1; [|done].
    unfold Utf8.in_range in E1. simpl. case_match; [|done]. simpl. destruct Hp3 as [Hp3|[? ?]].
    + apply (lead_high _ _ 1); try apply Hl; try lia. by apply Z.lor_nonneg; split; [apply Z.shiftl_nonneg|]; apply Hl.
    + destruct (lor_ge (Z.shiftl (Z.land p 15) 12) (Z.lor (Z.shiftl (Z.land s1 63) 6) (Z.land s2 63))) as [_ Hle].
      * apply Z.shiftl_nonneg, Hl. lia.
      * apply Z.lor_nonneg; split; [apply Z.shiftl_nonneg|]; apply Hl; lia.
      * etrans; [|apply Hle]. apply (lead_high _ _ 32); try apply Hl; try lia. mods.
  - destruct (byte_val <$> s) as [|s1 [|s2 [|s3 ?]]]; [done..|]. destruct (Utf8.in_range s1 lo hi) eqn:E1; [|done].
    unfold Utf8.in_range in E1. simpl. case_match; [|done]. simpl. assert (0 ≤ Z.lor (Z.shiftl (Z.land s2 63) 6) (Z.land s3 63))%Z.
    { apply Z.lor_nonneg; split; [apply Z.shiftl_nonneg|]; apply Hl; lia. }
    destruct Hp4 as [Hp4|[? ?]].
    + apply (lead_high _ _ 1); try apply Hl; try lia. apply Z.lor_nonneg; split; [apply Z.shiftl_nonneg, Hl|]; lia.
    + destruct (lor_ge (Z.shiftl (Z.land p 7) 18) (Z.lor (Z.shiftl (Z.land s1 63) 12) (Z.lor (Z.shiftl (Z.land s2 63) 6) (Z.land s3 63)))) as [_ Hle].
      * apply Z.shiftl_nonneg, Hl. lia.
      * apply Z.lor_nonneg; split; [apply Z.shiftl_nonneg, Hl|]; lia.
      * etrans; [|apply Hle]. apply (lead_high _ _ 16); try apply Hl; try lia. mods.
Qed.

Definition writer_byte (c : ascii) : Prop := is_letter c = true ∨ is_digit c = true ∨ c = "-"%char ∨ c = "_"%char.
Lemma byte_val_45 c : byte_val c = 45%Z → c = "-"%char.
Proof. intros E. by apply byte_val_inj. Qed.
Lemma byte_val_95 c : byte_val c = 95%Z → c = "_"%char.
Proof. intros E. by apply byte_val_inj. Qed.
Lemma writer_runes_bytes s : forallb writer_rune (Utf8.runes s) = true → Forall writer_byte s.
Proof.
  induction s as [|c s IH]; [constructor|]. rewrite Utf8.runes_cons. cbn [forallb]. intros [Hr Hs]%andb_prop.
  pose proof (Utf8.rune_width_bounds (c :: s) ltac:(done)) as Hw. destruct (Utf8.rune_width (c :: s)) as [|n] eqn:Ew; [lia|].
  cbn [take] in Hr. assert (byte_val c < 128)%Z as Hc.
  { destruct (Z.le_gt_cases 128 (byte_val c)) as [Hge|?]; [|lia]. pose proof (decode_rune_high c (take n s) Hge).
    unfold writer_rune in Hr. cbv zeta in Hr. lia. }
  assert (∀ t, Utf8.decode_rune (c :: t) = (byte_val c, 1)) as Hd.
  { intros t. unfold Utf8.decode_rune. cbn [list_fmap fmap]. by rewrite (proj2 (Z.ltb_lt _ _) Hc). }
  assert (n = 0) as -> by (unfold Utf8.rune_width in Ew; rewrite Hd in Ew; by injection Ew).
  cbn [drop] in Hs. constructor; [|by apply IH]. unfold writer_rune in Hr. rewrite Hd in Hr. simpl in Hr.
  unfold writer_byte, is_letter, is_digit.
  destruct (decide (byte_val c = 45%Z)) as [?%byte_val_45|]; [by auto|].
  destruct (decide (byte_val c = 95%Z)) as [?%byte_val_95|]; [by auto|]. lia.
Qed.
Lemma writer_byte_no_slash : ¬ writer_byte "/"%char.
Proof. by intros [?|[?|[?|?]]]. Qed.

Lemma cache_name_segment w : Forall writer_byte w → segment (bookCacheFilePrefix ++ w ++ bookCacheFileSuffix).
Proof.
  intros Hw. split; [discriminate|]. split; [discriminate|]. split; [discriminate|]. rewrite !not_elem_of_app. split_and!.
  - apply (bool_decide_unpack _). vm_compute. exact I.
  - intros Hin. rewrite Forall_forall in Hw. by apply writer_byte_no_slash, Hw.
  - apply (bool_decide_unpack _). vm_compute. exact I.
Qed.

(** The settings an installation is opened with: the export goes to one plain
    file of [app/], whatever the writer ID in the configuration, which is at
    most 64 bytes; a read-only shelf never exports; and the caches of two
    writers are two files. *)
Theorem parseShelfSettings_export c st :
  parseShelfSettings c = Ok st →
  let name := bookCacheFilePrefix ++ st_bookCacheWriterID st ++ bookCacheFileSuffix in
  segment name ∧ length name ≤ 80 ∧ (CReadOnly c = true → st_bookCacheWriterID st = []) ∧
  ∀ c' st', parseShelfSettings c' = Ok st' →
    bookCacheFilePrefix ++ st_bookCacheWriterID st' ++ bookCacheFileSuffix = name →
    st_bookCacheWriterID st' = st_bookCacheWriterID st.
Proof.
  assert (∀ c st, parseShelfSettings c = Ok st →
    (CReadOnly c = true → st_bookCacheWriterID st = []) ∧ Forall writer_byte (st_bookCacheWriterID st) ∧
    length (st_bookCacheWriterID st) ≤ 64) as Hs.
  { clear. intros c st. unfold parseShelfSettings.
    destruct (duration (ScanInterval c) _); [|done]. simpl. destruct (duration (LockTimeout c) _); [|done]. simpl.
    destruct (duration (BookCheckInterval c) _); [|done]. simpl. destruct (duration (BookCacheInterval c) _); [|done]. simpl.
    destruct (validateBookCacheWriterID _) as [[]|] eqn:E; [|done]. simpl. destruct logger_opens; [|done]. simpl.
    intros [= <-]. simpl. destruct (CReadOnly c); [split_and!; [done|constructor|simpl; lia]|]. split; [done|].
    unfold validateBookCacheWriterID in E. case_decide as E1; [rewrite E1; split; [constructor|simpl; lia]|].
    case_decide; [done|]. destruct (forallb _ _) eqn:Ef; [|done]. split; [by apply writer_runes_bytes|lia]. }
  intros Hc. destruct (Hs _ _ Hc) as (Hro & Hb & Hl). cbv zeta. split; [by apply cache_name_segment|]. split.
  { rewrite !length_app. change (length bookCacheFilePrefix) with 11. change (length bookCacheFileSuffix) with 5. lia. }
  split; [done|]. intros c' st' _ E. apply (app_inv_head bookCacheFilePrefix) in E. by apply app_inv_tail in E.
Qed.

(** ** Sources *)
Definition reference (ref : bytes) : Prop :=
  ∃ scheme value, scheme ∈ credentialSchemes ∧ ref = scheme ++ value ∧ TrimSpace value ≠ [].
Lemma validateCredentialRef_ok ref : validateCredentialRef ref = Ok tt ↔ reference ref.
Proof.
  assert (∀ scheme scheme' v v', scheme ∈ credentialSchemes → scheme' ∈ credentialSchemes →
    scheme ++ v = scheme' ++ v' → scheme = scheme') as Hinj.
  { intros x y v v' Hx Hy. unfold credentialSchemes in Hx, Hy.
    rewrite !elem_of_cons, elem_of_nil in Hx. rewrite !elem_of_cons, elem_of_nil in Hy.
    destruct Hx as [->|[->|[->|[]]]], Hy as [->|[->|[->|[]]]]; try done; intros E; discriminate E. }
  assert (∀ schemes, schemes ⊆ credentialSchemes → check_schemes schemes ref = Ok tt ↔
    ∃ scheme value, scheme ∈ schemes ∧ ref = scheme ++ value ∧ TrimSpace value ≠ []) as Hgo; [|by apply Hgo].
  induction schemes as [|scheme rest IH]; intros Hsub; cbn [check_schemes]; [split; [done|intros (? & ? & ?%elem_of_nil & _); done]|].
  unfold HasPrefix. case_bool_decide as Hp.
  - destruct Hp as [v Hv]. rewrite Hv, drop_app_length. case_decide as Ht; (split; [try done|]).
    + intros (s' & v' & Hin & E & Hn). assert (scheme = s') as <- by (eapply Hinj; [..|exact E]; set_solver).
      apply app_inv_head in E as <-. done.
    + intros _. exists scheme, v. split; [left|done].
    + done.
  - rewrite IH by set_solver. split.
    + intros (s' & v & Hin & ?). exists s', v. split; [by right|done].
    + intros (s' & v & Hin & -> & Hn). apply elem_of_cons in Hin as [->|Hin]; [by destruct Hp; exists v|]. by exists s', v.
Qed.

(** The sources a configuration may name, exactly: one of the four types, with
    every field it requires and no field it does not take, a user only with a
    credential, and a credential that is a reference to an environment
    variable, a file or the host's store, never the secret itself. *)
Theorem Validate_exact c :
  Validate c = Ok tt ↔
  (∃ allowed required, fields_of_type (Type_ c) = Some (allowed, required) ∧
     Forall (λ f : bytes * bytes, f.2 ≠ [] → f.1 ∈ allowed) (conf_fields c) ∧ Forall (λ key, field_of key c ≠ []) required) ∧
  (Username c ≠ [] → Credential c ≠ []) ∧ (Credential c ≠ [] → reference (Credential c)) ∧
  (URL c ≠ [] → url_parses (URL c) = true).
Proof.
  unfold Validate. destruct (fields_of_type (Type_ c)) as [[allowed required]|]; [|split; [done|intros ((? & ? & ? & _) & _); done]].
  assert (existsb (λ f : bytes * bytes, negb (bool_decide (f.2 = [])) && negb (bool_decide (f.1 ∈ allowed))) (conf_fields c) = false ↔
    Forall (λ f : bytes * bytes, f.2 ≠ [] → f.1 ∈ allowed) (conf_fields c)) as Ha.
  { generalize (conf_fields c). intros l. induction l as [|f l IH]; [by split|]. cbn [existsb].
    rewrite orb_false_iff, IH, Forall_cons. apply and_iff_compat_r.
    rewrite andb_false_iff, !negb_false_iff, !bool_decide_eq_true. destruct (decide (f.2 = [])); tauto. }
  assert (existsb (λ key, bool_decide (field_of key c = [])) required = false ↔ Forall (λ key, field_of key c ≠ []) required) as Hr.
  { generalize required. intros l. induction l as [|f l IH]; [by split|]. cbn [existsb].
    by rewrite orb_false_iff, IH, Forall_cons, bool_decide_eq_false. }
  destruct (existsb _ (conf_fields c)).
  { split; [done|]. intros ((? & ? & [= <- <-] & Hx & _) & _). by apply Ha in Hx. }
  destruct (existsb _ required).
  { split; [done|]. intros ((? & ? & [= <- <-] & _ & Hx) & _). by apply Hr in Hx. }
  assert ((∃ a r, Some (allowed, required) = Some (a, r) ∧ Forall (λ f : bytes * bytes, f.2 ≠ [] → f.1 ∈ a) (conf_fields c) ∧
    Forall (λ key, field_of key c ≠ []) r) ↔ True) as Hex.
  { split; [done|]. intros _. exists allowed, required. split; [done|]. split; [by apply Ha|by apply Hr]. }
  rewrite Hex. clear Ha Hr Hex.
  destruct (negb (bool_decide (Username c = [])) && bool_decide (Credential c = [])) eqn:Hu.
  { apply andb_prop in Hu as [Hn%negb_true_iff%bool_decide_eq_false He%bool_decide_eq_true]. naive_solver. }
  assert (Username c ≠ [] → Credential c ≠ []) as Huc.
  { intros Hn He. rewrite bool_decide_false, bool_decide_true in Hu by done. done. }
  assert ((if decide (Credential c = []) then Ok tt else validateCredentialRef (Credential c)) = Ok tt ↔
    (Credential c ≠ [] → reference (Credential c))) as Hc.
  { case_decide; [naive_solver|]. rewrite validateCredentialRef_ok. naive_solver. }
  destruct (if decide (Credential c = []) then _ else _) as [[]|e]; simpl; [|split; [done|intros (_ & _ & Hx & _); by apply Hc in Hx]].
  destruct (decide (URL c = [])) as [He|He]; [rewrite bool_decide_true by done; simpl; naive_solver|].
  rewrite bool_decide_false by done. simpl. destruct (url_parses (URL c)); simpl; naive_solver.
Qed.
End settings_spec.

(** ** What starting a shelf does to its files *)
Section start_spec.
Context `{UnicodeCase, TimeText, Machine, Digest, ShelfEnv, ConfigEnv, HostRoots}.

Lemma wp_loadShelfRules (Q : result error (gmap bytes IgnoredDir * gmap bytes NSFWFolder) → world → Prop) w :
  (∀ conf n, Q (Ok (ignoreRulesFrom conf, nsfwRulesFrom conf)) (mkWorld (wtree w) n)) → wp loadShelfRules Q w.
Proof.
  intros HQ. apply wp_bind, wp_bind, wp_try, wp_Open. intros r n _ _. apply wp_ret, wp_ret, HQ.
Qed.

(** The files that survive a start, before the trash of an older layout is
    taken over. *)
Definition all_but_tmp (t t' : tree) : Prop :=
  ∀ q c z, t !! q = Some (File c z) → ¬ under [appFolder; appTmpFolder] q → t' !! q = Some (File c z).
Definition started (t t' : tree) : Prop :=
  wf_tree t' ∧ ∃ t1, all_but_tmp t t1 ∧ kept_files [legacyTrashFolder] t1 t'.
Lemma started_same t : wf_tree t → started t t.
Proof. intros Hw. split; [done|]. exists t. split; [by intros q c z|by apply kept_files_same]. Qed.

Lemma all_but_tmp_touched t t' : touched (under [appFolder; appTmpFolder]) (λ _, True) t t' → all_but_tmp t t'.
Proof. intros Ht q c z Hq Hu. by eapply touched_some. Qed.
Lemma wp_start_files w : wf_tree (wtree w) →
  wp (MkdirAll [booksFolder];; RemoveAll [appFolder; appTmpFolder];; MkdirAll [appFolder; appTmpFolder];; ensureTrashFolder)
    (λ _ w', started (wtree w) (wtree w')) w.
Proof.
  intros Hw. pose (P := under [appFolder; appTmpFolder]). pose (D := λ _ : path, True).
  assert (∀ t', wf_tree t' → touched P D (wtree w) t' → started (wtree w) t') as Hst.
  { intros t' Hw' Ht. split; [done|]. exists t'. split; [by apply all_but_tmp_touched|by apply kept_files_same]. }
  apply wp_bind. eapply wp_mono; [apply (keeps_wp P D); [by apply keeps_MkdirAll|done]|]. intros [[]|e] w1 [Hw1 Ht1]; [|by apply Hst].
  apply wp_bind. eapply wp_mono; [apply (keeps_wp P D); [by apply keeps_RemoveAll|done]|]. intros [[]|e] w2 [Hw2 Ht2].
  2: { apply Hst; [done|]. by eapply touched_trans. }
  apply wp_bind. eapply wp_mono; [apply (keeps_wp P D); [by apply keeps_MkdirAll|done]|]. intros r w3 [Hw3 Ht3].
  assert (touched P D (wtree w) (wtree w3)) as Ht by (eapply touched_trans; [exact Ht1|]; by eapply touched_trans).
  destruct r as [[]|e]; [|by apply Hst]. eapply wp_mono; [by apply wp_ensureTrashFolder|].
  intros r w4 [Hw4 Hk]. split; [done|]. exists (wtree w3). split; [by apply all_but_tmp_touched|done].
Qed.
Lemma wp_makeStructure s : wf_tree (stree s) →
  wp makeStructure (λ r s', (∃ w, s' = set_world w s) ∧ started (stree s) (stree s') ∧ (readOnly s = true → stree s' = stree s)) s.
Proof.
  intros Hw. apply wp_bind, wp_gets. destruct (readOnly s).
  { apply wp_ret. split; [exists (sworld s); by destruct s|]. split; [by apply started_same|done]. }
  apply wp_lift. eapply wp_mono; [by apply wp_start_files|]. intros r w' Hs. split; [by exists w'|]. done.
Qed.

(** Starting a shelf, whatever [shelf.json] holds and whatever fails, loses no
    file but those of the scratch folder [app/tmp]: every other one is still
    there with its content, where it was or, if it lay in the trash of an
    older layout, in the trash. A read-only shelf starts without changing
    anything. The shelf that comes out has the rules of its [shelf.json], lists
    nothing yet and is not ready. *)
Theorem startShelf_keeps_files ro st w :
  wf_tree (wtree w) →
  wp (startShelf ro st) (λ r w', started (wtree w) (wtree w') ∧ (ro = true → wtree w' = wtree w) ∧
    ∀ s, r = Ok s → sworld s = w' ∧ readOnly s = ro ∧ ready s = false ∧ cache (bcache s) = ∅ ∧ shelfLock s = Unlocked ∧
      ∃ conf, ignoreRules s = ignoreRulesFrom conf ∧ nsfw s = nsfwRulesFrom conf) w.
Proof.
  intros Hw. apply wp_bind, wp_loadShelfRules. intros conf n. apply wp_bind, wp_gets.
  match goal with |- context [makeStructure ?s0] => set (s0' := s0) end.
  pose proof (wp_makeStructure s0' Hw) as Hm. unfold wp in Hm. destruct (makeStructure s0') as [r s']. simpl in Hm.
  destruct Hm as ((w' & ->) & Hst & Hro). apply wp_bind, wp_modify. cbn [sworld set_world].
  assert (started (wtree w) (wtree w') ∧ (ro = true → wtree w' = wtree w)) as [? ?] by done.
  destruct r as [[]|e]; [apply wp_ret|apply wp_throw]; (split; [done|split; [done|]]); [|done].
  intros s [= <-]. split_and!; try done. by exists conf.
Qed.
End start_spec.
End ShelfConfig.
