(* ===== verification/Manager.v ===== *)
(** * The shelves of an installation: [src/shelf/shelf_manager.go]

    The manager's table from IDs to shelves. An open shelf is a handle: what
    opening and closing one does to files is in ShelfConfig, here only whether
    it succeeds matters, which the environment says at each step. The state
    also records which handles are open, so that leaks and shelves served
    after they were closed can be stated. *)

From S2P Require Import Prelude Utf8 Strings Float64 Json Fs FsSpec Atomic ShelfUtil BookMeta Source Frame Relocate ScanCache FolderMeta Book ShelfState Trash Folder ShelfBook ShelfFrame FolderSpec TrashSpec Documents CacheExport ShelfConfig.

(** Whether the root of a shelf opens and its structure is made, whether the
    copy of a remote shelf opens, and what closing a shelf answers. *)
Class ManagerEnv := {
  opens_local : nat → bytes → result error unit;
  opens_remote : nat → bytes → result error unit;
  closes : nat → result error unit;
}.

Module Manager.
Import ShelfConfig.

(** ** State *)
Record OpenShelf := mkOpen { oscan : Z; ocheck : Z; oreadOnly : bool }.
Record ShelfData := mkData { DID : bytes; DName : bytes; Dconf : ShelfConf; Dremote : bool; handle : nat }.
Record Manager := mkManager {
  shelves : gmap bytes ShelfData;
  opened : gmap nat OpenShelf;
  turn : nat;
}.
Record ShelfConfWithID := mkConfID { ConfID : bytes; ConfName : bytes; Conf : ShelfConf }.
Definition NewShelfManager : Manager := mkManager ∅ ∅ 0.

Definition set_shelves (m : gmap bytes ShelfData) (s : Manager) : Manager := mkManager m (opened s) (turn s).
Definition set_opened (m : gmap nat OpenShelf) (s : Manager) : Manager := mkManager (shelves s) m (turn s).
Definition put (d : ShelfData) : M Manager unit := modify (λ s, set_shelves (<[DID d := d]> (shelves s)) s).

Section ops.
Context `{ConfigEnv, ManagerEnv}.

(** ** Opening and closing a shelf *)
Definition tick_turn : M Manager nat := λ s, (Ok (turn s), mkManager (shelves s) (opened s) (S (turn s))).
Definition allocate (st : shelfSettings) (ro : bool) (k : nat) : M Manager nat :=
  modify (λ s, set_opened (<[k := mkOpen (st_scanInterval st) (st_bookCheckInterval st) ro]> (opened s)) s);;
  mret k.
(** [NewShelf] *)
Definition NewShelf (c : ShelfConf) : M Manager nat :=
  k ← tick_turn;
  src ← of_result (ResolveSource c);
  guard_err (IsVirtual src) ErrConfig;;
  st ← of_result (parseShelfSettings c);
  of_result (opens_local k (SPath src));;
  allocate st (CReadOnly c) k.
Definition read_only_conf (c : ShelfConf) : ShelfConf :=
  mkShelfConf (LibRoot c) (CSource c) true (ScanInterval c) (LockTimeout c) (LockMode c) (BookCheckInterval c)
    (CScanCache c) (BookCacheWriterID c) (BookCacheInterval c).
Definition remote_conf (c : ShelfConf) : ShelfConf :=
  mkShelfConf (LibRoot c) (CSource c) true (ScanInterval c) (LockTimeout c) (LockMode c) (BookCheckInterval c)
    (Some false) (BookCacheWriterID c) (BookCacheInterval c).
(** [NewShelfFromFS], on a root and a folder for offline copies given by the
    caller *)
Definition NewShelfFromFS (c : ShelfConf) (offlineDir : bytes) : M Manager nat :=
  k ← tick_turn;
  st ← of_result (parseShelfSettings (remote_conf c));
  of_result (opens_remote k offlineDir);;
  allocate st true k.
(** [func (s *Shelf) Close]: it goes on after an error, so the shelf is closed
    whatever it answers. *)
Definition Close (h : nat) : M Manager unit :=
  k ← tick_turn;
  modify (λ s, set_opened (delete h (opened s)) s);;
  of_result (closes k).
Definition set_intervals (scan check : Z) (o : OpenShelf) : OpenShelf := mkOpen scan check (oreadOnly o).
Definition SetIntervals (h : nat) (scanInterval bookCheckInterval : bytes) : M Manager unit :=
  scan ← of_result (duration scanInterval minute);
  check ← of_result (duration bookCheckInterval scan);
  modify (λ s, set_opened (alter (set_intervals scan check) h (opened s)) s).

(** ** The operations *)
Definition ErrShelfID : error := Msg "shelf ID".
Definition find_shelf (id : bytes) : M Manager ShelfData :=
  found ← gets (λ s, shelves s !! id);
  match found with Some d => mret d | None => throw ErrShelfID end.
Definition free_id (id : bytes) : M Manager unit :=
  guard_err (bool_decide (id = [])) ErrShelfID;;
  found ← gets (λ s, shelves s !! id);
  match found with Some _ => throw ErrShelfID | None => mret tt end.
Definition name_of (c : ShelfConfWithID) : bytes := if decide (ConfName c = []) then ConfID c else ConfName c.

Definition AddShelf (c : ShelfConfWithID) : M Manager unit :=
  free_id (ConfID c);;
  h ← NewShelf (Conf c);
  put (mkData (ConfID c) (name_of c) (Conf c) false h).
Definition AddVirtualShelf (c : ShelfConfWithID) (offlineDir : bytes) : M Manager unit :=
  free_id (ConfID c);;
  h ← NewShelfFromFS (Conf c) offlineDir;
  put (mkData (ConfID c) (name_of c) (read_only_conf (Conf c)) true h).

(** [func (sm *ShelfManager) reopenShelfLocked] *)
Definition reopenShelf (d : ShelfData) (c : ShelfConfWithID) : M Manager unit :=
  Close (handle d);;
  next ← try (NewShelf (Conf c));
  match next with
  | Ok h => put (mkData (DID d) (ConfName c) (Conf c) (Dremote d) h)
  | Err e =>
      restored ← try (NewShelf (Dconf d));
      match restored with
      | Err _ => modify (λ s, set_shelves (delete (ConfID c) (shelves s)) s);; throw e
      | Ok h => put (mkData (DID d) (DName d) (Dconf d) (Dremote d) h);; throw e
      end
  end.
Definition UpdateShelf (c : ShelfConfWithID) : M Manager unit :=
  d ← find_shelf (ConfID c);
  guard_err (negb (bool_decide (LibRoot (Conf c) = LibRoot (Dconf d)))) ErrConfig;;
  guard_err (negb (bool_decide (CSource (Conf c) = CSource (Dconf d)))) ErrConfig;;
  if negb (bool_decide (CReadOnly (Conf c) = CReadOnly (Dconf d))) then
    guard_err (Dremote d) ErrConfig;;
    reopenShelf d c
  else
    SetIntervals (handle d) (ScanInterval (Conf c)) (BookCheckInterval (Conf c));;
    put (mkData (DID d) (ConfName c) (Conf c) (Dremote d) (handle d)).
Definition RemoveShelf (id : bytes) : M Manager unit :=
  d ← find_shelf id;
  Close (handle d);;
  modify (λ s, set_shelves (delete id (shelves s)) s).

(** [func (sm *ShelfManager) Close], in any order *)
Fixpoint close_all (l : list (bytes * ShelfData)) : M Manager (list error) :=
  match l with
  | [] => mret []
  | (_, d) :: l =>
      closed ← try (Close (handle d));
      rest ← close_all l;
      mret (match closed with Err e => e :: rest | Ok _ => rest end)
  end.
Definition CloseAll : M Manager unit :=
  l ← gets (λ s, map_to_list (shelves s));
  errs ← close_all l;
  match errs with [] => mret tt | e :: _ => throw e end.

(** ** What the table says *)
Definition bump (s : Manager) : Manager := mkManager (shelves s) (opened s) (S (turn s)).
(** An open shelf runs with the settings of its configuration. *)
Definition configured (c : ShelfConf) (o : OpenShelf) : Prop :=
  oreadOnly o = CReadOnly c ∧ duration (ScanInterval c) minute = Ok (oscan o) ∧
  duration (BookCheckInterval c) (oscan o) = Ok (ocheck o).
Record good (s : Manager) : Prop := {
  gd_id id d : shelves s !! id = Some d → DID d = id ∧ id ≠ [] ∧ handle d < turn s;
  gd_distinct id id' d d' : shelves s !! id = Some d → shelves s !! id' = Some d' → handle d = handle d' → id = id';
  gd_listed h o : opened s !! h = Some o → ∃ id d, shelves s !! id = Some d ∧ handle d = h;
  gd_settings id d o : shelves s !! id = Some d → opened s !! handle d = Some o → configured (Dconf d) o;
}.

Lemma settings_configured c st : parseShelfSettings c = Ok st →
  configured c (mkOpen (st_scanInterval st) (st_bookCheckInterval st) (CReadOnly c)).
Proof.
  unfold parseShelfSettings, configured.
  destruct (duration (ScanInterval c) _); [|done]. simpl. destruct (duration (LockTimeout c) _); [|done]. simpl.
  destruct (duration (BookCheckInterval c) _) eqn:E; [|done]. simpl. destruct (duration (BookCacheInterval c) _); [|done]. simpl.
  destruct (validateBookCacheWriterID _); [|done]. simpl. destruct logger_opens; [|done]. simpl. by intros [= <-].
Qed.
Lemma wp_NewShelf c (Q : result error nat → Manager → Prop) s :
  (∀ e, Q (Err e) (bump s)) →
  (∀ o, configured c o → Q (Ok (turn s)) (set_opened (<[turn s := o]> (opened s)) (bump s))) → wp (NewShelf c) Q s.
Proof.
  intros HE HO. apply wp_bind. unfold wp at 1. cbn [tick_turn fst snd]. apply wp_bind, wp_of_result.
  destruct (ResolveSource c) as [src|]; [|apply HE]. apply wp_bind, wp_guard; intros _; [apply HE|].
  apply wp_bind, wp_of_result. destruct (parseShelfSettings c) as [st|] eqn:E; [|apply HE].
  apply wp_bind, wp_of_result. destruct (opens_local _ _); [|apply HE].
  apply wp_bind, wp_modify, wp_ret, HO. by apply settings_configured.
Qed.
Lemma wp_NewShelfFromFS c dir (Q : result error nat → Manager → Prop) s :
  (∀ e, Q (Err e) (bump s)) →
  (∀ o, configured (read_only_conf c) o → Q (Ok (turn s)) (set_opened (<[turn s := o]> (opened s)) (bump s))) →
  wp (NewShelfFromFS c dir) Q s.
Proof.
  intros HE HO. apply wp_bind. unfold wp at 1. cbn [tick_turn fst snd].
  apply wp_bind, wp_of_result. destruct (parseShelfSettings (remote_conf c)) as [st|] eqn:E; [|apply HE].
  apply wp_bind, wp_of_result. destruct (opens_remote _ _); [|apply HE].
  apply wp_bind, wp_modify, wp_ret, HO. by apply (settings_configured (remote_conf c)).
Qed.
Lemma wp_Close h (Q : result error unit → Manager → Prop) s :
  Q (closes (turn s)) (set_opened (delete h (opened s)) (bump s)) → wp (Close h) Q s.
Proof. intros HQ. apply wp_bind. unfold wp at 1. cbn [tick_turn fst snd]. by apply wp_bind, wp_modify, wp_of_result. Qed.

Lemma good_bump s : good s → good (bump s).
Proof. intros [G1 G2 G3 G4]. split; simpl; [|done..]. intros id d Hd. destruct (G1 _ _ Hd) as (? & ? & ?). split_and!; [done..|lia]. Qed.
Lemma good_close h s : good s → good (set_opened (delete h (opened s)) s).
Proof.
  intros [G1 G2 G3 G4]. split; simpl; [done|done| |].
  - intros k o [_ Hk]%lookup_delete_Some. by eapply G3.
  - intros id d o Hd [_ Ho]%lookup_delete_Some. by eapply G4.
Qed.
(** A new handle under an ID whose old handle, if it had one, is closed. *)
Lemma good_put id name c r o s :
  good s → id ≠ [] → configured c o → (∀ d, shelves s !! id = Some d → opened s !! handle d = None) →
  good (mkManager (<[id := mkData id name c r (turn s)]> (shelves s)) (<[turn s := o]> (opened s)) (S (turn s))).
Proof.
  intros [G1 G2 G3 G4] Hid Hc Hold.
  assert (∀ id' d, shelves s !! id' = Some d → handle d ≠ turn s) as Hfresh.
  { intros id' d Hd E. destruct (G1 _ _ Hd) as (_ & _ & ?). lia. }
  split; simpl.
  - intros id' d [[<- <-]|[_ Hd]]%lookup_insert_Some; [simpl; split_and!; [done..|lia]|].
    destruct (G1 _ _ Hd) as (? & ? & ?). split_and!; [done..|lia].
  - intros i i' d d' [[<- <-]|[_ Hd]]%lookup_insert_Some [[<- <-]|[_ Hd']]%lookup_insert_Some E; simpl in *; [done| | |by eapply G2].
    + by destruct (Hfresh _ _ Hd').
    + by destruct (Hfresh _ _ Hd).
  - intros h o' [[<- <-]|[_ Ho]]%lookup_insert_Some; [exists id; eexists; by rewrite lookup_insert_eq|].
    destruct (G3 _ _ Ho) as (i & d & Hd & <-). exists i, d. split; [|done]. rewrite lookup_insert_ne; [done|].
    intros <-. specialize (Hold _ Hd). congruence.
  - intros i d o' [[<- <-]|[_ Hd]]%lookup_insert_Some; simpl; [rewrite lookup_insert_eq; by intros [= <-]|].
    rewrite lookup_insert_ne by (intros E; by apply (Hfresh _ _ Hd)). by apply (G4 i).
Qed.
Lemma good_delete id s : good s → (∀ d, shelves s !! id = Some d → opened s !! handle d = None) →
  good (set_shelves (delete id (shelves s)) s).
Proof.
  intros [G1 G2 G3 G4] Hold. split; simpl.
  - intros i d [_ Hd]%lookup_delete_Some. by eapply G1.
  - intros i i' d d' [_ Hd]%lookup_delete_Some [_ Hd']%lookup_delete_Some. by eapply G2.
  - intros h o Ho. destruct (G3 _ _ Ho) as (i & d & Hd & <-). exists i, d. split; [|done].
    rewrite lookup_delete_ne; [done|]. intros <-. specialize (Hold _ Hd). congruence.
  - intros i d o [_ Hd]%lookup_delete_Some. by eapply G4.
Qed.
(** A shelf keeps its handle under a new configuration, whose settings it
    gets at once. *)
Lemma good_reconfigure id d c name f s :
  good s → shelves s !! id = Some d → (∀ o, opened s !! handle d = Some o → configured c (f o)) →
  good (mkManager (<[id := mkData id name c (Dremote d) (handle d)]> (shelves s)) (alter f (handle d) (opened s)) (turn s)).
Proof.
  intros [G1 G2 G3 G4] Hd Hc. destruct (G1 _ _ Hd) as (? & ? & ?). split; simpl.
  - intros i e [[<- <-]|[_ He]]%lookup_insert_Some; [done|by apply G1].
  - intros i i' e e' [[<- <-]|[? He]]%lookup_insert_Some [[<- <-]|[? He']]%lookup_insert_Some E; simpl in *.
    + done.
    + by apply (G2 _ _ d e').
    + by apply (G2 _ _ e d).
    + by apply (G2 _ _ e e').
  - intros h o Ho. assert (∃ o', opened s !! h = Some o') as [o' Ho'].
    { apply lookup_alter_Some in Ho as [(_ & o' & Ho & _)|[_ Ho]]; eauto. }
    destruct (G3 _ _ Ho') as (i & e & He & <-). destruct (decide (i = id)) as [->|].
    + exists id. eexists. rewrite lookup_insert_eq. split; [done|]. simpl. by simplify_eq.
    + exists i, e. by rewrite lookup_insert_ne by done.
  - intros i e o [[<- <-]|[? He]]%lookup_insert_Some; simpl; intros [(E & o' & Ho & ->)|[? Ho]]%lookup_alter_Some.
    + by apply Hc.
    + done.
    + destruct (G2 _ _ _ _ Hd He E). done.
    + by apply (G4 i).
Qed.
(** Closing the shelf of [d] makes its handle free to be replaced. *)
Definition closed_of (d : ShelfData) (s : Manager) : Manager := set_opened (delete (handle d) (opened s)) (bump s).
Lemma good_closed d s : good s → good (closed_of d s) ∧ opened (closed_of d s) !! handle d = None.
Proof. intros Hs. split; [by apply (good_close _ (bump s)), good_bump|]. simpl. by rewrite lookup_delete_eq. Qed.

(** ** Every operation keeps the table good *)
Lemma wp_add id name c r open s :
  good s → id ≠ [] → shelves s !! id = None →
  (∀ Q : result error nat → Manager → Prop, (∀ e, Q (Err e) (bump s)) →
    (∀ o, configured c o → Q (Ok (turn s)) (set_opened (<[turn s := o]> (opened s)) (bump s))) → wp open Q s) →
  wp (h ← open; put (mkData id name c r h)) (λ _, good) s.
Proof.
  intros Hs Hid Hn Hopen. apply wp_bind, Hopen; [intros e; by apply good_bump|]. intros o Hc.
  apply wp_modify. simpl. apply good_put; [done..|]. intros d Hd. congruence.
Qed.
Lemma wp_free_id id (Q : result error unit → Manager → Prop) s :
  (id ≠ [] → shelves s !! id = None → Q (Ok tt) s) → (∀ e, Q (Err e) s) → wp (free_id id) Q s.
Proof.
  intros H1' H2'. apply wp_bind, wp_guard; [intros _; apply H2'|]. intros Hb%bool_decide_eq_false_1.
  apply wp_bind, wp_gets. destruct (shelves s !! id) eqn:E; [apply wp_throw, H2'|apply wp_ret; by apply H1'].
Qed.
Lemma wp_AddShelf c s : good s → wp (AddShelf c) (λ _, good) s.
Proof.
  intros Hs. apply wp_bind, wp_free_id; [|done]. intros Hid Hn.
  apply wp_add; [done..|]. intros Q HE HO. by apply wp_NewShelf.
Qed.
Lemma wp_AddVirtualShelf c dir s : good s → wp (AddVirtualShelf c dir) (λ _, good) s.
Proof.
  intros Hs. apply wp_bind, wp_free_id; [|done]. intros Hid Hn.
  apply wp_add; [done..|]. intros Q HE HO. by apply wp_NewShelfFromFS.
Qed.
Lemma wp_find_shelf id (Q : result error ShelfData → Manager → Prop) s :
  (∀ d, shelves s !! id = Some d → Q (Ok d) s) → (shelves s !! id = None → ∀ e, Q (Err e) s) → wp (find_shelf id) Q s.
Proof. intros HO HE. apply wp_bind, wp_gets. destruct (shelves s !! id) eqn:E; [by apply wp_ret, HO|by apply wp_throw, HE]. Qed.
Lemma wp_RemoveShelf id s : good s → wp (RemoveShelf id) (λ _, good) s.
Proof.
  intros Hs. apply wp_bind, wp_find_shelf; [|done]. intros d Hd. destruct (good_closed d s Hs) as [Hg Hf].
  apply wp_bind, wp_Close. destruct (closes _); [|done]. apply wp_modify.
  apply (good_delete _ (closed_of d s)); [done|]. intros d' Hd'. change (shelves s !! id = Some d') in Hd'. congruence.
Qed.
Lemma wp_SetIntervals h scan check (Q : result error unit → Manager → Prop) s :
  (∀ e, Q (Err e) s) →
  (∀ a b, duration scan minute = Ok a → duration check a = Ok b →
     Q (Ok tt) (set_opened (alter (set_intervals a b) h (opened s)) s)) →
  wp (SetIntervals h scan check) Q s.
Proof.
  intros HE HO. apply wp_bind, wp_of_result. destruct (duration scan minute) eqn:Ea; [|apply HE].
  apply wp_bind, wp_of_result. destruct (duration check _) eqn:Eb; [|apply HE]. apply wp_modify. by apply HO.
Qed.

(** What an update leaves of the entry [d] under its ID. *)
Definition updated (c : ShelfConfWithID) (d : ShelfData) (r : result error unit) (after : option ShelfData) : Prop :=
  match r, after with
  | Ok _, Some d' =>
      DID d' = DID d ∧ DName d' = ConfName c ∧ Dconf d' = Conf c ∧ Dremote d' = Dremote d ∧
      LibRoot (Conf c) = LibRoot (Dconf d) ∧ CSource (Conf c) = CSource (Dconf d) ∧
      (Dremote d = true → CReadOnly (Conf c) = CReadOnly (Dconf d))
  | Ok _, None => False
  | Err _, Some d' => DID d' = DID d ∧ DName d' = DName d ∧ Dconf d' = Dconf d ∧ Dremote d' = Dremote d
  | Err _, None => CReadOnly (Conf c) ≠ CReadOnly (Dconf d)
  end.
Definition update_post (c : ShelfConfWithID) (s : Manager) (r : result error unit) (s' : Manager) : Prop :=
  good s' ∧ (∀ id, id ≠ ConfID c → shelves s' !! id = shelves s !! id) ∧
  match shelves s !! ConfID c with
  | None => shelves s' !! ConfID c = None ∧ r ≠ Ok tt
  | Some d => updated c d r (shelves s' !! ConfID c)
  end.

Lemma put_post c s d name conf o k r :
  good k → (∀ id, shelves k !! id = shelves s !! id) → opened k !! handle d = None →
  shelves s !! ConfID c = Some d → configured conf o →
  updated c d r (Some (mkData (DID d) name conf (Dremote d) (turn k))) →
  update_post c s r (mkManager (<[DID d := mkData (DID d) name conf (Dremote d) (turn k)]> (shelves k))
    (<[turn k := o]> (opened k)) (S (turn k))).
Proof.
  intros Hg Hs Hf Hd Ho Hr. assert (shelves k !! ConfID c = Some d) as Hk by by rewrite Hs.
  destruct (gd_id k Hg _ _ Hk) as (Eid & Hne & _). rewrite Eid in *. split_and!.
  - apply good_put; [done..|]. intros d' Hd'. congruence.
  - intros id Hid. simpl. by rewrite lookup_insert_ne.
  - rewrite Hd. simpl. by rewrite lookup_insert_eq.
Qed.
Lemma wp_reopenShelf c d s :
  good s → shelves s !! ConfID c = Some d → LibRoot (Conf c) = LibRoot (Dconf d) → CSource (Conf c) = CSource (Dconf d) →
  CReadOnly (Conf c) ≠ CReadOnly (Dconf d) → Dremote d = false →
  wp (reopenShelf d c) (update_post c s) s.
Proof.
  intros Hs Hd HL HS HR Hl. destruct (good_closed d s Hs) as [Hg Hf].
  apply wp_bind, wp_Close. destruct (closes _); last first.
  { split_and!; [done..|]. simpl. by rewrite Hd. }
  apply wp_bind, wp_try, wp_NewShelf; [intros e|intros o Ho]; last first.
  { apply wp_modify. apply (put_post c s d _ _ _ (closed_of d s)); [done..|]. split_and!; [done..|congruence]. }
  apply wp_bind, wp_try, wp_NewShelf; [intros e'|intros o Ho].
  - apply wp_bind, wp_modify, wp_throw. split_and!.
    + apply (good_delete _ (bump (bump (closed_of d s)))); [by do 2 apply good_bump|].
      intros d' Hd'. change (shelves s !! ConfID c = Some d') in Hd'. by simplify_eq.
    + intros id Hid. simpl. by rewrite lookup_delete_ne.
    + rewrite Hd. simpl. by rewrite lookup_delete_eq.
  - apply wp_bind, wp_modify, wp_throw. apply (put_post c s d _ _ _ (bump (closed_of d s))); [by apply good_bump|done..].
Qed.
Lemma guard_same {A} `{EqDecision A} (x y : A) e (Q : result error unit → Manager → Prop) s :
  (x ≠ y → Q (Err e) s) → (x = y → Q (Ok tt) s) → wp (guard_err (negb (bool_decide (x = y))) e) Q s.
Proof.
  intros HE HO. apply wp_guard; intros Hb; [apply HE|apply HO].
  - by apply negb_true_iff, bool_decide_eq_false in Hb.
  - by apply negb_false_iff, bool_decide_eq_true in Hb.
Qed.
Lemma wp_UpdateShelf c s : good s → wp (UpdateShelf c) (update_post c s) s.
Proof.
  intros Hs. apply wp_bind, wp_find_shelf; [|intros Hn e; split_and!; [done..|by rewrite Hn]].
  intros d Hd.
  assert (∀ e, update_post c s (Err e) s) as Hsame by (intros e; split_and!; [done..|by rewrite Hd]).
  apply wp_bind, guard_same; [intros _; apply Hsame|intros HL].
  apply wp_bind, guard_same; [intros _; apply Hsame|intros HS].
  destruct (bool_decide (CReadOnly (Conf c) = CReadOnly (Dconf d))) eqn:ER; simpl; last first.
  { apply bool_decide_eq_false in ER. apply wp_bind, wp_guard; [intros _; apply Hsame|].
    intros Hl. by apply wp_reopenShelf. }
  apply bool_decide_eq_true in ER. apply wp_bind, wp_SetIntervals; [intros e; apply Hsame|].
  intros a b Ea Eb. apply wp_modify. destruct (gd_id s Hs _ _ Hd) as (Eid & Hne & Hlt). rewrite Eid.
  split_and!.
  - apply (good_reconfigure _ d _ _ (set_intervals a b) s); [done..|]. intros o Ho.
    destruct (gd_settings s Hs _ _ _ Hd Ho) as (E & _). unfold configured. simpl. by rewrite ER.
  - intros id Hid. simpl. by rewrite lookup_insert_ne.
  - rewrite Hd. simpl. by rewrite lookup_insert_eq.
Qed.

(** ** Closing everything *)
Lemma wp_close_all l (Q : result error (list error) → Manager → Prop) s :
  good s → (∀ errs s', good s' → (∀ h, h ∈ (handle ∘ snd) <$> l → opened s' !! h = None) →
    (∀ h, opened s !! h = None → opened s' !! h = None) → shelves s' = shelves s → Q (Ok errs) s') →
  wp (close_all l) Q s.
Proof.
  revert Q s. induction l as [|[id d] l IH]; intros Q s Hs HQ; simpl.
  { apply wp_ret, HQ; [done| |done..]. by intros h ?%elem_of_nil. }
  destruct (good_closed d s Hs) as [Hg Hf].
  apply wp_bind, wp_try, wp_Close. apply wp_bind, IH; [done|]. intros errs s' Hs' Hl Hk Es.
  apply wp_ret. destruct (closes _); (apply HQ; [done| | |by rewrite Es]).
  all: try (intros h [->|Hh]%elem_of_cons; [by apply Hk|by apply Hl]).
  all: intros h Hh; apply Hk; simpl; destruct (decide (handle d = h)) as [->|];
    [by rewrite lookup_delete_eq|by rewrite lookup_delete_ne].
Qed.
Lemma wp_CloseAll s : good s → wp CloseAll (λ _ s', good s' ∧ opened s' = ∅) s.
Proof.
  intros Hs. apply wp_bind, wp_gets, wp_bind, wp_close_all; [done|]. intros errs s' Hs' Hl _ Es.
  assert (good s' ∧ opened s' = ∅) as HQ.
  { split; [done|]. apply map_empty. intros h. destruct (opened s' !! h) as [o|] eqn:Eo; [|done].
    destruct (gd_listed s' Hs' _ _ Eo) as (id & d & Hd & <-). rewrite Es in Hd. rewrite <- Eo. apply Hl.
    apply list_elem_of_fmap. exists (id, d). split; [done|]. by apply elem_of_map_to_list. }
  by destruct errs; [apply wp_ret|apply wp_throw].
Qed.
End ops.

(** ** Runs of the manager *)
Section runs.
Context `{ConfigEnv}.
(** One operation. What opening and closing answer is the environment's
    choice at every step. *)
Inductive mstep : Manager → Manager → Prop :=
  | step_add (E : ManagerEnv) c s : mstep s (AddShelf c s).2
  | step_add_virtual (E : ManagerEnv) c dir s : mstep s (AddVirtualShelf c dir s).2
  | step_update (E : ManagerEnv) c s : mstep s (UpdateShelf c s).2
  | step_remove (E : ManagerEnv) id s : mstep s (RemoveShelf id s).2
  | step_close (E : ManagerEnv) s : mstep s (CloseAll s).2.

Lemma good_new : good NewShelfManager.
Proof. by split. Qed.
Lemma mstep_good s s' : mstep s s' → good s → good s'.
Proof.
  destruct 1; intros Hs; [by apply wp_AddShelf|by apply wp_AddVirtualShelf| |by apply wp_RemoveShelf|].
  - by destruct (wp_UpdateShelf c s Hs) as [? _].
  - by destruct (wp_CloseAll s Hs) as [? _].
Qed.


(** Claim C1. [UpdateShelf] never moves a shelf to another folder or source,
    never makes a virtual shelf writable and touches no other shelf. When it
    answers an error the shelf keeps its name and configuration, or, only
    when the read-only flag was to change, is gone from the table. *)
Theorem UpdateShelf_exact `{ManagerEnv} c s : good s →
  update_post c s (UpdateShelf c s).1 (UpdateShelf c s).2.
Proof. apply wp_UpdateShelf. Qed.
End runs.
End Manager.
