(* ===== verification/Offline.v ===== *)
(** * Offline copies of a remote shelf: [src/shelf/shelf_offline.go]

    A remote shelf may keep a folder of its own on this machine: the list of
    downloaded books ([downloads.json]), a copy of each package at the path it
    has on the source, the last listing ([snapshot.json]) and a copy of
    [shelf.json]. Reads of a downloaded package are served from there.

    [RemoteShelf] is a shelf whose directory is the source, which stands still
    during one operation, and the store with a directory of its own. One clock
    counts the steps on both. A shelf opened without a folder has none of
    this: [DownloadBook] and [RemoveDownload] answer [ErrDownloadUnsupported]
    at once. Here is also how a remote shelf is first listed ([shelf.go]:
    [initCache], [notReady], [retryInit]; [shelf_cache_snapshot.go]:
    [refreshRemoteBookCache] and what it falls back on). *)

From S2P Require Import Prelude Utf8 Strings Float64 Json Fs FsSpec Atomic ShelfUtil BookMeta Source Frame ScanCache FolderMeta Book ShelfState Trash Folder ShelfBook ShelfFrame Documents CacheExport CacheSnapshot ShelfConfig.

Module Offline.
Import Json Documents ShelfUtil BookMeta Book Shelf CacheFile CacheExport CacheSnapshot.

Definition offlineSchemaVersion : Z := 1.
Definition offlineDownloadsFile : bytes := str "downloads.json".
Definition offlineSnapshotFile : bytes := str "snapshot.json".
Definition offlineStagingFolder : bytes := str "tmp".

Inductive DownloadState := DownloadNotDownloaded | DownloadDownloaded | DownloadUpdateAvailable.
#[export] Instance DownloadState_eq_dec : EqDecision DownloadState.
Proof. solve_decision. Defined.
Record Download := mkDownload {
  BookID : bytes;
  DFolder : FolderPath;
  DMeta : option BookMeta;
  DDownloadedAt : Z;
  DSizeBytes : Z;
  State : DownloadState;
}.
Record offlineDownload := mkRecord {
  OPath : bytes;
  DownloadedAt : Z;
  SizeBytes : Z;
  OVersion : bytes;
  OMeta : option BookMeta;
}.
#[export] Instance offlineDownload_eq_dec : EqDecision offlineDownload.
Proof. solve_decision. Defined.

(** ** The files of the store *)
Section codec.
Context `{TimeText}.

Definition enc_download (r : offlineDownload) : json := written
  [("path", true, JStr (OPath r)); ("downloaded_at", true, JSONTime.MarshalJSON (DownloadedAt r));
   ("size_bytes", true, JInt (SizeBytes r)); ("version", true, JStr (OVersion r));
   ("meta", true, default JNull (encode <$> OMeta r))]%string.
Definition dec_download (j : json) : option offlineDownload :=
  o ← dec_object j;
  pth ← dec_string (member (str "path") o);
  at_ ← JSONTime.dec_member (str "downloaded_at") o;
  size ← dec_int (member (str "size_bytes") o);
  version ← dec_string (member (str "version") o);
  m ← dec_pointer decode (member (str "meta") o);
  Some (mkRecord pth at_ size version m).
(** [offlineDownloadsJSON] and [offlineSnapshotJSON] *)
Definition enc_downloads (books : gmap bytes offlineDownload) : json := written
  [("schema_version", true, JInt offlineSchemaVersion); ("books", true, enc_map enc_download books)]%string.
Definition dec_downloads (j : json) : option (Z * gmap bytes offlineDownload) :=
  o ← dec_object j;
  schema ← dec_int (member (str "schema_version") o);
  books ← dec_map dec_download (member (str "books") o);
  Some (schema, books).
Definition enc_snapshot (listing : BookCacheFile) : json := written
  [("schema_version", true, JInt offlineSchemaVersion); ("listing", true, enc_file listing)]%string.
Definition dec_snapshot (j : json) : option (Z * option BookCacheFile) :=
  o ← dec_object j;
  schema ← dec_int (member (str "schema_version") o);
  listing ← dec_pointer dec_file (member (str "listing") o);
  Some (schema, listing).
End codec.

(** ** State *)
Record offlineStore := mkStore {
  ofs : world;
  downloads : gmap bytes offlineDownload;
  byPath : gmap bytes bytes;
  snapshot : option BookCacheFile;
  snapshotDigest : bytes;
}.
Record RemoteShelf := mkRemote {
  rshelf : Shelf;
  offline : offlineStore;
  initErr : option error;
  awaitingSource : bool;
  lastInitTry : Z;
}.
Definition set_store (o : offlineStore) (s : RemoteShelf) : RemoteShelf :=
  mkRemote (rshelf s) o (initErr s) (awaitingSource s) (lastInitTry s).
Definition with_ofs (w : world) (o : offlineStore) : offlineStore :=
  mkStore w (downloads o) (byPath o) (snapshot o) (snapshotDigest o).
Definition with_downloads (d : gmap bytes offlineDownload) (p : gmap bytes bytes) (o : offlineStore) : offlineStore :=
  mkStore (ofs o) d p (snapshot o) (snapshotDigest o).
Definition with_snapshot (f : option BookCacheFile) (digest : bytes) (o : offlineStore) : offlineStore :=
  mkStore (ofs o) (downloads o) (byPath o) f digest.
Definition otree (s : RemoteShelf) : tree := wtree (ofs (offline s)).
Definition source_tree (s : RemoteShelf) : tree := stree (rshelf s).
Definition listing_of (s : RemoteShelf) : gmap bytes bookIDCacheEntry := cache (bcache (rshelf s)).
Definition entry_path (e : bookIDCacheEntry) : bytes := Join (epath e) (str "/").

(** A step on the files of the store, one on the source, and one of the
    shelf. *)
Definition on_files {A : Type} (m : M world A) : M RemoteShelf A := λ s,
  let '(r, w) := m (ofs (offline s)) in (r, set_store (with_ofs w (offline s)) s).
Definition source_at (s : RemoteShelf) : world := mkWorld (source_tree s) (tick (ofs (offline s))).
Definition at_tick (n : nat) (s : RemoteShelf) : RemoteShelf :=
  set_store (with_ofs (mkWorld (otree s) n) (offline s)) s.
Definition on_shelf {A : Type} (m : M Shelf A) : M RemoteShelf A := λ s,
  let '(r, sh) := m (set_world (source_at s) (rshelf s)) in
  (r, mkRemote sh (with_ofs (mkWorld (otree s) (tick (sworld sh))) (offline s)) (initErr s) (awaitingSource s) (lastInitTry s)).
Definition set_init (e : option error) (awaiting : bool) (t : Z) (s : RemoteShelf) : RemoteShelf :=
  mkRemote (rshelf s) (offline s) e awaiting t.
Definition update_store (f : offlineStore → offlineStore) : M RemoteShelf unit :=
  modify (λ s, set_store (f (offline s)) s).

(** ** Paths of packages *)

(** [func bookPackageOf]: the first directory of a package on the way. *)
Fixpoint package_prefix (p : path) : option path :=
  match p with
  | [] => None
  | x :: p => if HasSuffix x bookExtension then Some [x] else cons x <$> package_prefix p
  end.
Definition bookPackageOf (name : path) : option bytes :=
  match name with
  | x :: rest => if decide (x = booksFolder) then (λ p, Join (x :: p) (str "/")) <$> package_prefix rest else None
  | [] => None
  end.

Section ops.
Context `{UnicodeCase, TimeText, Machine, Digest, ShelfEnv, AppVersion, CompactText, ExportConf, RemoteSource, MapOrder}.

Definition from_source {A : Type} (m : M world A) : M RemoteShelf A := λ s,
  let '(r, w) := remote m (source_at s) in (r, at_tick (tick w) s).

(** ** Opening the store *)
Definition readJSON {A : Type} (name : bytes) (dec : json → option A) : M world (option A) :=
  got ← try (Open [name]);
  mret (match got with Ok c => unmarshal dec c | Err _ => None end).
Definition usable (bookID : bytes) (r : offlineDownload) : Prop :=
  (ID <$> OMeta r) = Some bookID ∧ isBookPackagePath (OPath r) = true.
#[export] Instance usable_dec bookID r : Decision (usable bookID r).
Proof. unfold usable. apply _. Defined.
Definition load_entry (acc : gmap bytes offlineDownload * gmap bytes bytes) (e : bytes * offlineDownload) :
    gmap bytes offlineDownload * gmap bytes bytes :=
  if decide (usable e.1 e.2) then (<[e.1 := e.2]> acc.1, <[OPath e.2 := e.1]> acc.2) else acc.
Definition loadDownloads : M world (gmap bytes offlineDownload * gmap bytes bytes) :=
  file ← readJSON offlineDownloadsFile dec_downloads;
  mret (match file with
        | Some (schema, books) =>
            if decide (schema = offlineSchemaVersion) then foldl load_entry (∅, ∅) (map_range books) else (∅, ∅)
        | None => (∅, ∅)
        end).
Definition loadSnapshot : M world (option BookCacheFile * bytes) :=
  file ← readJSON offlineSnapshotFile dec_snapshot;
  mret (match file with
        | Some (schema, Some listing) =>
            if decide (schema = offlineSchemaVersion) then
              match bookCacheDigest listing with Ok digest => (Some listing, digest) | Err _ => (None, []) end
            else (None, [])
        | _ => (None, [])
        end).
(** [func openOfflineStore], in the directory [os.OpenRoot] opened *)
Definition openOfflineStore : M world offlineStore :=
  RemoveAll [offlineStagingFolder];;
  MkdirAll [offlineStagingFolder];;
  d ← loadDownloads;
  f ← loadSnapshot;
  w ← gets id;
  mret (mkStore w d.1 d.2 f.1 f.2).

(** ** Writing it *)
Definition writeJSON (name : bytes) (j : json) : M world unit :=
  guard_err (negb (marshals j)) ErrMarshal;;
  Atomic.WriteFileAtomic [name] (Doc j).
Definition writeDownloads : M RemoteShelf unit :=
  d ← gets (λ s, downloads (offline s));
  on_files (writeJSON offlineDownloadsFile (enc_downloads d)).
Definition pathInUse (d : gmap bytes offlineDownload) (pkgPath : bytes) : bool :=
  existsb (λ r : bytes * offlineDownload, bool_decide (OPath r.2 = pkgPath)) (map_to_list d).
Definition saveSnapshot (listing : BookCacheFile) : M RemoteShelf unit :=
  digest ← of_result (bookCacheDigest listing);
  unchanged ← gets (λ s, bool_decide (digest = snapshotDigest (offline s)));
  if (unchanged : bool) then mret tt else
  on_files (writeJSON offlineSnapshotFile (enc_snapshot listing));;
  update_store (with_snapshot (Some listing) digest).
(** [func (o *offlineStore) mirror]; no data is a nil slice. *)
Definition mirror (name : bytes) (data : option content) : M world unit :=
  current ← try (Open [name]);
  match data, current with
  | None, Err ENotExist => mret tt
  | None, _ => ignore (Remove [name])
  | Some d, Ok c =>
      if decide (content_bytes c = content_bytes d) then mret tt else ignore (Atomic.WriteFileAtomic [name] d)
  | Some d, Err _ => ignore (Atomic.WriteFileAtomic [name] d)
  end.

(** ** Reading through the store: [offlineFS] *)
Definition hasPackage (s : RemoteShelf) (pkgPath : bytes) : bool :=
  bool_decide (is_Some (byPath (offline s) !! pkgPath)).
(** [route]: whether the store answers *)
Definition route (s : RemoteShelf) (name : path) : bool :=
  match bookPackageOf name with Some pkgPath => hasPackage s pkgPath | None => false end.
Definition notDownloaded (name : path) (e : error) : error :=
  match bookPackageOf name with
  | Some _ => if errors_Is e ErrSourceUnavailable then ErrBookNotDownloaded else e
  | None => e
  end.
Definition routed {A : Type} (name : path) (m : M world A) : M RemoteShelf A :=
  isLocal ← gets (λ s, route s name);
  if (isLocal : bool) then on_files m else
  got ← try (from_source m);
  match got with Ok a => mret a | Err e => throw (notDownloaded name e) end.
(** [openMirrored]: opening comes before reading, and only a source that does
    not open falls back on the copy. *)
Definition openMirrored (name : bytes) : M RemoteShelf content :=
  opened ← try (from_source (Stat [name]));
  match opened with
  | Err e =>
      if errors_Is e ErrSourceUnavailable then on_files (Open [name]) else
      (if errors_Is e ENotExist then on_files (mirror name None) else mret tt);;
      throw e
  | Ok _ =>
      data ← from_source (Open [name]);
      on_files (mirror name (Some data));;
      on_files (Open [name])
  end.
Definition OfflineOpen (name : path) : M RemoteShelf content :=
  if decide (name = [ShelfConfig.shelfConfigFile]) then openMirrored ShelfConfig.shelfConfigFile else routed name (Open name).
Definition OfflineReadDir (name : path) : M RemoteShelf (list (bytes * node)) := routed name (ReadDir name).
Definition OfflineStat (name : path) : M RemoteShelf node := routed name (Stat name).

(** ** Following the listing *)
(** The ID listed at a path; were two listed at one, the map's order says
    which is found. *)
Definition idAt (m : gmap bytes bookIDCacheEntry) : gmap bytes bytes :=
  foldl (λ acc e, <[entry_path e.2 := e.1]> acc) ∅ (map_range m).
Definition serves (listed : gmap bytes bookIDCacheEntry) (bookID : bytes) (r : offlineDownload) : Prop :=
  (∀ e, listed !! bookID = Some e → entry_path e = OPath r) ∧
  (∀ other, idAt listed !! OPath r = Some other → other = bookID).
#[export] Instance serves_dec listed bookID r : Decision (serves listed bookID r).
Proof.
  assert (∀ (A : Type) (o : option A) (P : A → Prop), (∀ a, Decision (P a)) → Decision (∀ a, o = Some a → P a)) as Hd.
  { intros A [a|] P HP; [|by left]. destruct (HP a) as [Ha|Hn]; [left; by intros ? [= <-]|right; auto]. }
  unfold serves. apply and_dec; apply Hd; intros; apply _.
Defined.
Definition reconcile (listed : gmap bytes bookIDCacheEntry) (d : gmap bytes offlineDownload) : gmap bytes bytes :=
  foldl (λ acc r, if decide (serves listed r.1 r.2) then <[OPath r.2 := r.1]> acc else acc) ∅ (map_range d).
Definition reconcileDownloads : M RemoteShelf unit :=
  listed ← gets listing_of;
  update_store (λ o, with_downloads (downloads o) (reconcile listed (downloads o)) o).
Definition saveOfflineSnapshot : M RemoteShelf unit :=
  listing ← gets (λ s, collectExportSnapshot (str "offline") (rshelf s));
  ignore (saveSnapshot listing).
Definition afterRemoteListing : M RemoteShelf unit := reconcileDownloads;; saveOfflineSnapshot.

(** [func bookVersion]: half of the digest, in hexadecimal *)
Definition bookVersion (m : BookMeta) (md5 : bytes) : bytes :=
  if marshals (encode m) then take 32 (sha256_hex (compact_text (encode m) ++ ["010"%char] ++ md5)) else [].
Definition downloadFor (s : RemoteShelf) (bookID : bytes) (r : offlineDownload) : Download :=
  mkDownload bookID (bookFolderPath (segments_of (OPath r))) (OMeta r) (DownloadedAt r) (SizeBytes r)
    (match listing_of s !! bookID with
     | Some e => if decide (entry_path e ≠ OPath r ∨ bookVersion (meta (book e)) (sourceMD5 e) ≠ OVersion r)
                 then DownloadUpdateAvailable else DownloadDownloaded
     | None => DownloadDownloaded
     end).
Definition DownloadStatus (s : RemoteShelf) (bookID : bytes) : DownloadState * Z :=
  match downloads (offline s) !! bookID with
  | Some r => (State (downloadFor s bookID r), DownloadedAt r)
  | None => (DownloadNotDownloaded, zero_time)
  end.
Definition Downloads (s : RemoteShelf) : list Download :=
  omap (λ bookID, downloadFor s bookID <$> downloads (offline s) !! bookID)
    (sort_strings (elements (dom (downloads (offline s))))).

(** ** Downloading *)
(** [func copyFile] and [copyTree], with the bytes copied. A directory is
    descended with fuel for every level. *)
Definition copyFile (src dst : path) : M RemoteShelf Z :=
  data ← from_source (Open src);
  on_files (WriteFile dst data);;
  mret (content_size data).
Fixpoint copyTree (fuel : nat) (src dst : path) : M RemoteShelf Z :=
  match fuel with
  | 0 => throw (Msg "fuel")
  | S fuel =>
      on_files (MkdirAll dst);;
      es ← from_source (ReadDir src);
      foldl (λ m e, total ← m;
        n ← (if is_dir e.2 then copyTree fuel (pjoin src e.1) (pjoin dst e.1) else copyFile (pjoin src e.1) (pjoin dst e.1));
        mret (total + n)%Z) (mret 0%Z) es
  end.
(** [func replaceDirKeepingPrevious] *)
Definition previous_of (staging : path) : path := dirname staging ++ [base staging ++ str ".previous"].
Definition replaceDirKeepingPrevious (staging dst : path) : M world (option path) :=
  present ← try (Stat dst);
  previous ← (match present with
              | Ok _ =>
                  kept ← try (Rename dst (previous_of staging));
                  match kept with
                  | Err e => ignore (RemoveAll staging);; throw e
                  | Ok _ => mret (Some (previous_of staging))
                  end
              | Err _ => mret None
              end);
  placed ← try (Rename staging dst);
  match placed with
  | Err e =>
      (match previous with Some p => ignore (Rename p dst) | None => mret tt end);;
      ignore (RemoveAll staging);;
      throw e
  | Ok _ => mret previous
  end.

(** The records and the index once a download is in place *)
Definition forget_path (bookID pkgPath : bytes) (p : gmap bytes bytes) : gmap bytes bytes :=
  if decide (p !! pkgPath = Some bookID) then delete pkgPath p else p.
Definition recorded (bookID : bytes) (r : offlineDownload) (o : offlineStore) : offlineStore :=
  let p := match downloads o !! bookID with Some old => forget_path bookID (OPath old) (byPath o) | None => byPath o end in
  let d := filter (λ x : bytes * offlineDownload, x.1 = bookID ∨ OPath x.2 ≠ OPath r) (downloads o) in
  with_downloads (<[bookID := r]> d) (<[OPath r := bookID]> p) o.

(** ** Listing *)
(** [func (s *Shelf) listFromOfflineSnapshot] *)
Definition with_snapshot_listing (l : Listing) (scanStart : Z) (c : bookCache) : bookCache :=
  with_listing l.1.1 l.1.2 l.2 (lastFullScan c) scanStart [] c.
Definition listFromOfflineSnapshot : M RemoteShelf bool :=
  on_shelf markRemoteRefreshAttempt;;
  listed ← gets (λ s, negb (lastScanStart (bcache (rshelf s)) =? zero_time)%Z);
  if (listed : bool) then mret true else
  snap ← gets (λ s, snapshot (offline s));
  match snap with
  | None => mret false
  | Some f =>
      match bookCacheSnapshot f with
      | Err _ => mret false
      | Ok l =>
          on_shelf (update_cache (with_snapshot_listing l (time_Unix (Timestamp f))));;
          reconcileDownloads;;
          mret true
      end
  end.
(** The walk over the source ([scanToBookCache] of a remote shelf, which
    stops when the source is unavailable or holds no shelf), as far as the
    shelf's own state goes *)
Context (walkSource : M Shelf unit).
Definition scanToBookCache : M RemoteShelf unit := on_shelf walkSource;; afterRemoteListing.
(** [func (s *Shelf) openWithoutExport] *)
Definition openWithoutExport : M RemoteShelf unit :=
  listed ← listFromOfflineSnapshot;
  if (listed : bool) then mret tt else scanToBookCache.
(** [func (s *Shelf) refreshRemoteFromSource] and [refreshRemoteBookCache] *)
Definition refreshRemoteFromSource (withoutExport : option (M RemoteShelf unit)) : M RemoteShelf unit :=
  found ← on_shelf takeOverNewest;
  if (found : bool) then mret tt else
  match withoutExport with Some m => m | None => mret tt end.
Definition refreshRemoteBookCache (withoutExport : option (M RemoteShelf unit)) : M RemoteShelf unit :=
  done ← try (refreshRemoteFromSource withoutExport);
  match done with
  | Ok _ => afterRemoteListing
  | Err e =>
      if errors_Is e ErrSourceUnavailable then
        listed ← listFromOfflineSnapshot;
        if (listed : bool) then mret tt else throw e
      else throw e
  end.
(** [refreshBookCacheIfNeeded] of a remote shelf *)
Definition refreshRemoteIfNeeded (force : bool) : M RemoteShelf unit :=
  c ← gets (λ s, bcache (rshelf s));
  t ← on_files now;
  if negb force && (t - lastFullScan c <? scanInterval c)%Z then mret tt else
  refreshRemoteBookCache (if force then Some scanToBookCache else None).

(** ** Becoming ready *)
Definition isAwaitingSource (e : error) : bool := errors_Is e ErrSourceUnavailable || errors_Is e ErrNotAShelf.
Definition mark_ready (b : bool) (s : RemoteShelf) : RemoteShelf :=
  mkRemote (ShelfConfig.set_ready b (rshelf s)) (offline s) (initErr s) (awaitingSource s) (lastInitTry s).
(** [initCache] of a remote shelf; it is not exported. *)
Definition initCache : M RemoteShelf unit :=
  done ← try (refreshRemoteBookCache (Some openWithoutExport));
  match done with
  | Err e =>
      modify (λ s, set_init (Some e) (awaitingSource s) (lastInitTry s) s);;
      (if isAwaitingSource e then
         t ← on_files now; modify (λ s, set_init (initErr s) true t s)
       else mret tt);;
      throw e
  | Ok _ => modify (mark_ready true)
  end.
Definition retryInit : M RemoteShelf unit :=
  t ← on_files now;
  modify (λ s, set_init (initErr s) (awaitingSource s) t s);;
  done ← try (refreshRemoteBookCache (Some openWithoutExport));
  match done with
  | Err e =>
      modify (λ s, set_init (Some e) (awaitingSource s && isAwaitingSource e) (lastInitTry s) s);;
      throw e
  | Ok _ => modify (λ s, set_init None false (lastInitTry s) (mark_ready true s))
  end.
Definition initRetryInterval : Z := (10 * second)%Z.
(** [notReady]: what an operation answers, and whether it has a retry made in
    the background, which is [retryInit] unless the shelf became ready. *)
Definition notReady : M RemoteShelf (error * bool) :=
  s ← gets id;
  if awaitingSource s then
    t ← on_files now;
    mret (default ErrShelfInitializing (initErr s), negb (t - lastInitTry s <? initRetryInterval)%Z)
  else mret (ErrShelfInitializing, false).
Definition background_retry : M RemoteShelf unit :=
  isReady ← gets (λ s, ready (rshelf s));
  if (isReady : bool) then mret tt else ignore retryInit.

(** [func (s *Shelf) DownloadBook]; [finish_download] is its second half, once
    the copy is in place. *)
Definition removing {A : Type} (staging : path) (m : M RemoteShelf A) : M RemoteShelf A :=
  r ← try m;
  match r with Ok a => mret a | Err e => on_files (ignore (RemoveAll staging));; throw e end.
Definition finish_download (bookID : bytes) (e : bookIDCacheEntry) (size : Z) (previous : option path) : M RemoteShelf Download :=
  t ← on_files now;
  let r := mkRecord (entry_path e) (whole_second t) size (bookVersion (meta (book e)) (sourceMD5 e)) (Some (meta (book e))) in
  old ← gets (λ s, downloads (offline s) !! bookID);
  update_store (recorded bookID r);;
  keepOld ← gets (λ s, match old with Some o => pathInUse (downloads (offline s)) (OPath o) | None => false end);
  on_files (match previous with Some p => ignore (RemoveAll p) | None => mret tt end);;
  writeDownloads;;
  on_files (match old with
            | Some o => if bool_decide (OPath o ≠ OPath r) && negb keepOld
                        then ignore (RemoveAll (segments_of (OPath o))) else mret tt
            | None => mret tt
            end);;
  gets (λ s, downloadFor s bookID r).
Definition DownloadBook_from (bookID : bytes) (e : bookIDCacheEntry) : M RemoteShelf Download :=
  fuel ← gets (λ s, walk_fuel (source_tree s));
  name ← on_files (Atomic.RandomString 12);
  let staging := pjoin [offlineStagingFolder] name in
  size ← removing staging (copyTree fuel (epath e) staging);
  removing staging (on_files (MkdirAll (dirname (epath e))));;
  previous ← on_files (replaceDirKeepingPrevious staging (epath e));
  finish_download bookID e size previous.
Definition DownloadBook (bookID : bytes) : M RemoteShelf Download :=
  isReady ← gets (λ s, ready (rshelf s));
  if negb isReady then answer ← notReady; throw answer.1 else
  found ← gets (λ s, listing_of s !! bookID);
  match found with
  | None => throw ErrBookNotFound
  | Some e => DownloadBook_from bookID e
  end.

(** [func (s *Shelf) RemoveDownload] *)
Definition RemoveDownload (bookID : bytes) : M RemoteShelf unit :=
  found ← gets (λ s, downloads (offline s) !! bookID);
  match found with
  | None => mret tt
  | Some r =>
      update_store (λ o, with_downloads (delete bookID (downloads o)) (forget_path bookID (OPath r) (byPath o)) o);;
      shared ← gets (λ s, pathInUse (downloads (offline s)) (OPath r));
      writeDownloads;;
      if (shared : bool) then mret tt else on_files (RemoveAll (segments_of (OPath r)))
  end.
End ops.
End Offline.
