(* ===== verification/OfflineSpec.v ===== *)
(** * What offline copies promise: [src/shelf/shelf_offline.go]

    The store of a remote shelf serves a package only for the book listed
    there ([offline_copies_are_the_listed_books]), a finished download holds
    every file of the package and touches nothing else
    ([DownloadBook_copies_the_package]), reads the same with the source gone,
    and the list of downloads and the listing survive a restart. *)

From S2P Require Import Prelude Utf8 Strings Float64 Json Fs FsSpec Atomic ShelfUtil BookMeta Source Frame ScanCache FolderMeta Book NoFault ShelfState Trash Folder ShelfBook ShelfFrame FolderSpec ShelfInv BookMoveSpec CopySpec Documents CacheExport CacheSnapshot ShelfConfig Offline.

Module OfflineSpec.
Import Json Documents ShelfUtil BookMeta Book Shelf ShelfFrame FolderSpec ShelfInv CopySpec CacheFile CacheExport CacheSnapshot Offline.

#[export] Instance remote_shelf_tree : HasTree RemoteShelf := otree.

(** ** Steps on the store and on the source *)
Lemma wp_on_files {A : Type} (m : M world A) Q s :
  wp m (λ r w, Q r (set_store (with_ofs w (offline s)) s)) (ofs (offline s)) → wp (on_files m) Q s.
Proof. unfold wp, on_files. by destruct (m (ofs (offline s))). Qed.
Lemma wp_on_shelf {A : Type} (m : M Shelf A) Q s :
  wp m (λ r sh, Q r (mkRemote sh (with_ofs (mkWorld (otree s) (tick (sworld sh))) (offline s)) (initErr s) (awaitingSource s) (lastInitTry s)))
    (set_world (source_at s) (rshelf s)) → wp (on_shelf m) Q s.
Proof. unfold wp, on_shelf. by destruct (m (set_world (source_at s) (rshelf s))). Qed.
Lemma wp_update_store f (Q : result error unit → RemoteShelf → Prop) s :
  Q (Ok tt) (set_store (f (offline s)) s) → wp (update_store f) Q s.
Proof. apply wp_modify. Qed.
Lemma keeps_on_files {A : Type} P D (m : M world A) : keeps P D m → keeps P D (on_files m).
Proof. intros Hm s Hw. unfold on_files. specialize (Hm (ofs (offline s)) Hw). by destruct (m (ofs (offline s))). Qed.
Lemma keeps_update_store P D f : (∀ o, ofs (f o) = ofs o) → keeps P D (update_store f).
Proof. intros Hf. apply keeps_modify. intros s. unfold tree_of, remote_shelf_tree, otree. simpl. by rewrite Hf. Qed.
Lemma keeps_on_shelf {A : Type} P D (m : M Shelf A) : keeps P D (on_shelf m).
Proof. apply keeps_same. intros s. unfold on_shelf. by destruct (m _). Qed.

Section source.
Context `{RemoteSource, Machine}.
Lemma keeps_from_source {A : Type} P D (m : M world A) : keeps P D (from_source m).
Proof. apply keeps_same. intros s. unfold from_source. by destruct (remote m _). Qed.
Lemma wp_from_source {A : Type} (m : M world A) (Q : result error A → RemoteShelf → Prop) s :
  (∀ n, wp m (λ r _, (∀ e k, Q (Err e) (at_tick k s)) ∧ (∀ a k, r = Ok a → Q (Ok a) (at_tick k s))) (mkWorld (source_tree s) n)) →
  wp (from_source m) Q s.
Proof.
  intros Hm. specialize (Hm (tick (ofs (offline s)))). unfold wp, from_source, remote, source_at in *.
  destruct (m _) as [r w]. destruct Hm as [HE HO]. destruct r as [a|[]]; simpl; auto.
Qed.
End source.

(** ** What the index depends on *)
Definition view (s : RemoteShelf) : gmap bytes bytes * gmap bytes offlineDownload * gmap bytes bookIDCacheEntry :=
  (byPath (offline s), downloads (offline s), listing_of s).
Definition keeps_view {A : Type} (m : M RemoteShelf A) : Prop := ∀ s, view (m s).2 = view s.
Lemma view_ret {A : Type} (a : A) : keeps_view (mret a).
Proof. done. Qed.
Lemma view_throw {A : Type} e : keeps_view (@throw RemoteShelf A e).
Proof. done. Qed.
Lemma view_of_result {A : Type} (r : result error A) : keeps_view (of_result r).
Proof. done. Qed.
Lemma view_gets {A : Type} (f : RemoteShelf → A) : keeps_view (gets f).
Proof. done. Qed.
Lemma view_bind {A B : Type} (m : M RemoteShelf A) (k : A → M RemoteShelf B) :
  keeps_view m → (∀ a, keeps_view (k a)) → keeps_view (m ≫= k).
Proof.
  intros Hm Hk s. unfold mbind, M_bind. specialize (Hm s). destruct (m s) as [[a|e] s']; [|done]. simpl in *.
  by rewrite Hk.
Qed.
Lemma view_try {A : Type} (m : M RemoteShelf A) : keeps_view m → keeps_view (try m).
Proof. intros Hm s. unfold try. specialize (Hm s). by destruct (m s). Qed.
Lemma view_ignore {A : Type} (m : M RemoteShelf A) : keeps_view m → keeps_view (ignore m).
Proof. intros Hm s. apply Hm. Qed.
Lemma view_on_files {A : Type} (m : M world A) : keeps_view (on_files m).
Proof. intros s. unfold on_files. by destruct (m _). Qed.
Lemma view_from_source `{RemoteSource} {A : Type} (m : M world A) : keeps_view (from_source m).
Proof. intros s. unfold from_source. by destruct (remote m _). Qed.
Lemma view_on_shelf {A : Type} (m : M Shelf A) :
  (∀ sh, cache (bcache (m sh).2) = cache (bcache sh)) → keeps_view (on_shelf m).
Proof. intros Hm s. unfold on_shelf. specialize (Hm (set_world (source_at s) (rshelf s))). destruct (m _) as [r sh].
  unfold view, listing_of. simpl in *. by rewrite Hm. Qed.
Lemma view_init f : (∀ s, view (f s) = view s) → keeps_view (modify f).
Proof. intros Hf s. apply Hf. Qed.
Lemma view_snapshot f digest : keeps_view (update_store (with_snapshot f digest)).
Proof. done. Qed.
#[local] Create HintDb view.
#[local] Hint Resolve view_ret view_throw view_of_result view_gets view_on_files view_from_source view_snapshot : view.
Ltac view_step :=
  match goal with
  | |- keeps_view (mbind _ _) => apply view_bind; [|intros ?]
  | |- keeps_view (try _) => apply view_try
  | |- keeps_view (ignore _) => apply view_ignore
  | |- keeps_view (match ?x with _ => _ end) => destruct x
  | |- keeps_view (if ?b then _ else _) => destruct b
  | |- _ => solve [eauto with view]
  end.
Ltac views := repeat view_step.

(** ** The index and the listing *)
Definition listed_at (listed : gmap bytes bookIDCacheEntry) (p : bytes) (id : bytes) : Prop :=
  ∃ e, listed !! id = Some e ∧ entry_path e = p.
Record index_ok (s : RemoteShelf) : Prop := {
  ix_record p id : byPath (offline s) !! p = Some id → ∃ r, downloads (offline s) !! id = Some r ∧ OPath r = p;
  ix_listed p id : byPath (offline s) !! p = Some id →
    listed_at (listing_of s) p id ∨ listing_of s !! id = None ∧ ∀ other, ¬ listed_at (listing_of s) p other;
}.
Lemma index_ok_view s s' : view s' = view s → index_ok s → index_ok s'.
Proof. unfold view. intros [= E1 E2 E3] [H1 H2]. split; rewrite ?E1, ?E2, ?E3; done. Qed.
Definition keeps_index {A : Type} (m : M RemoteShelf A) : Prop := ∀ s, index_ok s → index_ok (m s).2.
Lemma index_view {A : Type} (m : M RemoteShelf A) : keeps_view m → keeps_index m.
Proof. intros Hm s. apply index_ok_view, Hm. Qed.
Lemma index_bind {A B : Type} (m : M RemoteShelf A) (k : A → M RemoteShelf B) :
  keeps_index m → (∀ a, keeps_index (k a)) → keeps_index (m ≫= k).
Proof.
  intros Hm Hk s Hs. unfold mbind, M_bind. specialize (Hm s Hs). destruct (m s) as [[a|e] s']; [|done]. by apply Hk.
Qed.
Lemma index_try {A : Type} (m : M RemoteShelf A) : keeps_index m → keeps_index (try m).
Proof. intros Hm s Hs. unfold try. specialize (Hm s Hs). by destruct (m s). Qed.

(** Removing records and entries of the index *)
Lemma index_remove d p s :
  index_ok s → (∀ k id, p !! k = Some id → byPath (offline s) !! k = Some id ∧ d !! id = downloads (offline s) !! id) →
  index_ok (set_store (with_downloads d p (offline s)) s).
Proof.
  intros [H1 H2] Hp. split; simpl; intros k id Hk; destruct (Hp _ _ Hk) as [Hb Hd]; [rewrite Hd; by apply H1|by apply H2].
Qed.
Lemma lookup_forget_path (id pkg : bytes) (p : gmap bytes bytes) (k x : bytes) :
  forget_path id pkg p !! k = Some x → p !! k = Some x ∧ (k = pkg → x ≠ id).
Proof.
  unfold forget_path. case_decide as Hp; [intros [Hk Hx]%lookup_delete_Some|intros Hx]; (split; [done|]); intros ->; congruence.
Qed.

Section reconcile.
Context `{MapOrderLaws}.

Lemma elem_of_map_range {A : Type} (m : gmap bytes A) k a : (k, a) ∈ map_range m ↔ m !! k = Some a.
Proof. by rewrite (map_range_perm m), elem_of_map_to_list. Qed.

(** A fold of conditional insertions: every entry comes from an element that
    passes, and every key of one is there. *)
Lemma foldl_insert_sound {A : Type} (P : bytes * A → Prop) `{∀ x, Decision (P x)} (f : A → bytes) (l : list (bytes * A)) (acc : gmap bytes bytes) k id :
  foldl (λ acc x, if decide (P x) then <[f x.2 := x.1]> acc else acc) acc l !! k = Some id →
  acc !! k = Some id ∨ ∃ a, (id, a) ∈ l ∧ P (id, a) ∧ f a = k.
Proof.
  revert acc. induction l as [|[i a] l IH]; intros acc; simpl; [by left|]. intros [Ha|(b & Hb & ? & ?)]%IH.
  - case_decide; [|by left]. apply lookup_insert_Some in Ha as [[<- <-]|[_ Ha]]; [right; exists a; split; [left|]; done|by left].
  - right. exists b. split; [by right|done].
Qed.
Lemma foldl_insert_keys {A : Type} (f : A → bytes) (l : list (bytes * A)) (acc : gmap bytes bytes) k :
  is_Some (acc !! k) ∨ (∃ x, x ∈ l ∧ f x.2 = k) →
  is_Some (foldl (λ acc x, <[f x.2 := x.1]> acc) acc l !! k).
Proof.
  revert acc. induction l as [|[i a] l IH]; intros acc [Hs|(x & Hx & Hk)]; simpl; [done|by apply elem_of_nil in Hx|..]; apply IH.
  - left. destruct (decide (f a = k)) as [->|]; [by rewrite lookup_insert_eq|by rewrite lookup_insert_ne].
  - apply elem_of_cons in Hx as [->|Hx]; [left; subst; by rewrite lookup_insert_eq|right; eauto].
Qed.
Lemma idAt_listed m p id : idAt m !! p = Some id → listed_at m p id.
Proof.
  intros Hid. assert (∀ acc : gmap bytes bytes, foldl (λ acc (x : bytes * bookIDCacheEntry), if decide True then <[entry_path x.2 := x.1]> acc else acc) acc (map_range m) =
    foldl (λ acc x, <[entry_path x.2 := x.1]> acc) acc (map_range m)) as E.
  { intros acc. by destruct (decide True). }
  unfold idAt in Hid. rewrite <-E in Hid.
  apply (foldl_insert_sound (λ _, True)) in Hid as [Hs|(e & He%elem_of_map_range & _ & Hp)]; [by rewrite lookup_empty in Hs|by exists e].
Qed.
Lemma listed_idAt m p id : listed_at m p id → is_Some (idAt m !! p).
Proof. intros (e & He & Hp). apply foldl_insert_keys. right. exists (id, e). split; [by apply elem_of_map_range|done]. Qed.

(** What reconciling leaves in the index, exactly, apart from the choice
    between records with one path. *)
Lemma reconcile_sound listed d p id :
  reconcile listed d !! p = Some id → ∃ r, d !! id = Some r ∧ OPath r = p ∧ serves listed id r.
Proof.
  intros Hr. unfold reconcile in Hr.
  pose proof (foldl_insert_sound (λ x, serves listed x.1 x.2) OPath (map_range d) ∅ p id Hr) as [Hs|(r & Hr'%elem_of_map_range & ? & ?)];
    [by rewrite lookup_empty in Hs|by exists r].
Qed.
Lemma serves_listed listed id r : serves listed id r →
  listed_at listed (OPath r) id ∨ listed !! id = None ∧ ∀ other, ¬ listed_at listed (OPath r) other.
Proof.
  intros [H1 H2]. destruct (listed !! id) as [e|] eqn:He; [left; exists e; auto|]. right. split; [done|].
  intros other Ho. destruct (listed_idAt _ _ _ Ho) as [x Hx]. pose proof (H2 x Hx) as ->.
  destruct (idAt_listed _ _ _ Hx) as (e & ? & _). congruence.
Qed.
Lemma reconcile_index s : index_ok (set_store (with_downloads (downloads (offline s))
  (reconcile (listing_of s) (downloads (offline s))) (offline s)) s).
Proof.
  split; intros p id (r & Hr & <- & Hs)%reconcile_sound; [by exists r|by apply serves_listed].
Qed.
End reconcile.

(** ** From the opening of the store on *)
Section opening.
Context `{UnicodeCase, TimeText, Machine, Digest, ShelfEnv, AppVersion, CompactText, ExportConf, RemoteSource, MapOrderLaws}.
Definition loaded (acc : gmap bytes offlineDownload * gmap bytes bytes) : Prop :=
  ∀ p id, acc.2 !! p = Some id → ∃ r, acc.1 !! id = Some r ∧ OPath r = p.
(** Loading takes over every usable record and an entry of the index for its
    path. *)
Lemma load_fold (l : list (bytes * offlineDownload)) acc :
  NoDup l.*1 → (∀ k, k ∈ l.*1 → acc.1 !! k = None) → loaded acc →
  loaded (foldl load_entry acc l) ∧
  (∀ k r, (foldl load_entry acc l).1 !! k = Some r ↔ acc.1 !! k = Some r ∨ (k, r) ∈ l ∧ usable k r) ∧
  ∀ p, is_Some ((foldl load_entry acc l).2 !! p) ↔ is_Some (acc.2 !! p) ∨ ∃ x, x ∈ l ∧ usable x.1 x.2 ∧ OPath x.2 = p.
Proof.
  revert acc. induction l as [|[k r] l IH]; intros acc Hnd Hfree Hl; simpl.
  { split; [done|]. split; [set_solver|]. intros p. split; [by left|]. by intros [?|(x & []%elem_of_nil & _)]. }
  apply NoDup_cons in Hnd as [Hk Hnd]. assert (acc.1 !! k = None) as Hn by (apply Hfree; left).
  destruct (IH (load_entry acc (k, r))) as (H1' & H2' & H3'); [done| | |].
  - intros k' Hk'. unfold load_entry. simpl. assert (acc.1 !! k' = None) by (apply Hfree; by right).
    case_decide; [|done]. simpl. rewrite lookup_insert_ne; [done|]. by intros <-.
  - unfold load_entry. simpl. case_decide; [|done]. intros p id. simpl. intros [[<- <-]|[_ Hp]]%lookup_insert_Some.
    + exists r. by rewrite lookup_insert_eq.
    + destruct (Hl _ _ Hp) as (r' & Hr' & <-). exists r'. rewrite lookup_insert_ne; [done|]. intros <-. congruence.
  - split; [done|]. unfold load_entry in *. simpl in *. destruct (decide (usable k r)) as [Hu|Hu]; simpl in *.
    + split.
      * intros k' r'. rewrite H2', elem_of_cons, lookup_insert_Some. split.
        -- intros [[[<- <-]|[_ ?]]|[? ?]]; auto.
        -- intros [Ha|[[[= <- <-]|?] ?]]; auto. left. right. split; [|done]. intros <-. congruence.
      * intros p. rewrite H3'. split.
        -- intros [Hp|(x & ? & ?)]; [|right; exists x; split; [by right|done]].
           destruct (decide (OPath r = p)) as [<-|Hne]; [right; exists (k, r); split; [left|done]|].
           rewrite lookup_insert_ne in Hp by done. by left.
        -- intros [Hp|(x & [->|Hx]%elem_of_cons & Hux & Hpx)]; [left|left|right; by exists x].
           ++ destruct (decide (OPath r = p)) as [<-|Hne]; [by rewrite lookup_insert_eq|by rewrite lookup_insert_ne].
           ++ simpl in Hpx. rewrite Hpx. by rewrite lookup_insert_eq.
    + split.
      * intros k' r'. rewrite H2', elem_of_cons. split; [intros [?|[? ?]]; auto|]. intros [?|[[[= <- <-]|?] ?]]; auto. done.
      * intros p. rewrite H3'. split; [intros [?|(x & ? & ?)]; [by left|right; exists x; split; [by right|done]]|].
        intros [?|(x & [->|?]%elem_of_cons & ? & ?)]; [by left|done|right; by exists x].
Qed.
Lemma load_range (books : gmap bytes offlineDownload) :
  loaded (foldl load_entry (∅, ∅) (map_range books)) ∧
  (∀ k r, (foldl load_entry (∅, ∅) (map_range books)).1 !! k = Some r ↔ books !! k = Some r ∧ usable k r) ∧
  ∀ p, is_Some ((foldl load_entry (∅, ∅) (map_range books)).2 !! p) ↔ ∃ k r, books !! k = Some r ∧ usable k r ∧ OPath r = p.
Proof.
  destruct (load_fold (map_range books) (∅, ∅)) as (H1' & H2' & H3').
  - rewrite (map_range_perm books). apply NoDup_fst_map_to_list.
  - done.
  - by intros p id.
  - split; [done|]. split.
    + intros k r. rewrite H2', elem_of_map_range. split; [intros [[=]|?]; done|by right].
    + intros p. rewrite H3'. split.
      * intros [[? [=]]|([k r] & Hx%elem_of_map_range & ? & ?)]. by exists k, r.
      * intros (k & r & ? & ? & ?). right. exists (k, r). by rewrite elem_of_map_range.
Qed.
Lemma loaded_loadDownloads w d w' : loadDownloads w = (Ok d, w') → loaded d.
Proof.
  unfold loadDownloads, mbind, M_bind. destruct (readJSON _ _ w) as [[o|e] w1]; [|done]. cbn. intros [= <- _].
  assert (loaded (∅, ∅)) by by intros p id.
  destruct o as [[schema books]|]; [|done]. case_decide; [apply load_range|done].
Qed.
Lemma index_opened w w' o s : openOfflineStore w = (Ok o, w') → offline s = o → listing_of s = ∅ → index_ok s.
Proof.
  intros Ho <- Hl. assert (loaded (downloads (offline s), byPath (offline s))) as Hd.
  { unfold openOfflineStore, mbind, M_bind in Ho. destruct (RemoveAll _ w) as [[[]|] w1]; [|done].
    destruct (MkdirAll _ w1) as [[[]|] w2]; [|done]. destruct (loadDownloads w2) as [[d|] w3] eqn:Ed; [|done].
    destruct (loadSnapshot w3) as [[f|] w4]; [|done]. cbn in Ho. injection Ho as Ho _. rewrite <-Ho. simpl.
    apply loaded_loadDownloads in Ed. by destruct d. }
  split; [intros p id; apply Hd|]. intros p id _. right. rewrite Hl. split; [done|].
  intros other (e & He & _). by rewrite lookup_empty in He.
Qed.

End opening.

(** ** Every operation keeps the index right *)
Section index.
Context `{UnicodeCase, TimeText, Machine, Digest, ShelfEnv, AppVersion, CompactText, ExportConf, RemoteSource, MapOrderLaws}.
(** A walk that fails leaves the listing. *)
Context (walkSource : M Shelf unit).
Hypothesis walk_fails : ∀ sh, is_ok (walkSource sh).1 = false → cache (bcache (walkSource sh).2) = cache (bcache sh).

Lemma view_saveOfflineSnapshot : keeps_view saveOfflineSnapshot.
Proof. unfold saveOfflineSnapshot, saveSnapshot. views. Qed.
Lemma view_writeDownloads : keeps_view writeDownloads.
Proof. unfold writeDownloads. views. Qed.
#[local] Hint Resolve view_saveOfflineSnapshot view_writeDownloads : view.
Lemma view_mark : keeps_view (on_shelf markRemoteRefreshAttempt).
Proof. by apply view_on_shelf. Qed.
#[local] Hint Resolve view_mark : view.

Lemma index_reconcileDownloads s : index_ok (reconcileDownloads s).2.
Proof. apply reconcile_index. Qed.
Lemma index_afterRemoteListing s : index_ok (afterRemoteListing s).2.
Proof. apply (index_view saveOfflineSnapshot view_saveOfflineSnapshot), index_reconcileDownloads. Qed.
Lemma index_listFromOfflineSnapshot : keeps_index listFromOfflineSnapshot.
Proof.
  apply index_bind; [by apply index_view, view_mark|]. intros _.
  apply index_bind; [by apply index_view, view_gets|]. intros []; [by apply index_view|].
  apply index_bind; [by apply index_view, view_gets|]. intros [f|]; [|by apply index_view].
  destruct (bookCacheSnapshot f) as [l|]; [|by apply index_view].
  intros s _. apply index_reconcileDownloads.
Qed.
Lemma index_on_shelf_walk s : index_ok s → is_ok (on_shelf walkSource s).1 = false → index_ok (on_shelf walkSource s).2.
Proof.
  intros Hs Hr. apply (index_ok_view s); [|done]. unfold on_shelf in *.
  pose proof (walk_fails (set_world (source_at s) (rshelf s))) as Hw. destruct (walkSource _) as [r sh]. simpl in *.
  unfold view, listing_of. simpl. by rewrite Hw.
Qed.
Lemma index_scanToBookCache : keeps_index (scanToBookCache walkSource).
Proof.
  intros s Hs. unfold scanToBookCache, mbind, M_bind. pose proof (index_on_shelf_walk s Hs) as Hw.
  destruct (on_shelf walkSource s) as [[[]|e] s']; [apply index_afterRemoteListing|by apply Hw].
Qed.
Lemma index_openWithoutExport : keeps_index (openWithoutExport walkSource).
Proof.
  apply index_bind; [apply index_listFromOfflineSnapshot|]. intros []; [by apply index_view|apply index_scanToBookCache].
Qed.
(** A listing taken over is not reconciled yet; a failure leaves all. *)
Lemma index_refreshRemoteFromSource w s :
  (∀ m, w = Some m → keeps_index m) → index_ok s →
  is_ok (refreshRemoteFromSource w s).1 = true ∨ index_ok (refreshRemoteFromSource w s).2.
Proof.
  intros Hw Hs. unfold refreshRemoteFromSource, mbind, M_bind, on_shelf.
  pose proof (wp_takeOverNewest (set_world (source_at s) (rshelf s))) as Ht. unfold wp in Ht.
  destruct (takeOverNewest _) as [r sh]. simpl in Ht. destruct Ht as (c & n & -> & Hc). simpl in *.
  assert (answer_of r = false → index_ok (mkRemote (set_cache c (set_world (mkWorld (stree (set_world (source_at s) (rshelf s))) n)
    (set_world (source_at s) (rshelf s)))) (with_ofs (mkWorld (otree s) n) (offline s)) (initErr s) (awaitingSource s) (lastInitTry s))) as Hsame.
  { intros Hr. destruct Hc as [Hc|[? _]]; [|congruence]. apply (index_ok_view s); [|done].
    unfold view, listing_of. simpl. f_equal. exact (f_equal cache Hc). }
  destruct r as [[]|e]; simpl in *; [by left| |by right; apply Hsame].
  destruct w as [m|]; [|by left]. right. by apply (Hw m), Hsame.
Qed.
Lemma index_refreshRemoteBookCache w : (∀ m, w = Some m → keeps_index m) → keeps_index (refreshRemoteBookCache w).
Proof.
  intros Hw s Hs. unfold refreshRemoteBookCache, try, mbind, M_bind.
  pose proof (index_refreshRemoteFromSource w s Hw Hs) as Hr. destruct (refreshRemoteFromSource w s) as [[[]|e] s']; simpl in *.
  - apply index_afterRemoteListing.
  - destruct Hr as [?|Hr]; [done|]. destruct (errors_Is _ _); [|done].
    pose proof (index_listFromOfflineSnapshot s' Hr) as Hl. by destruct (listFromOfflineSnapshot s') as [[[]|] s2].
Qed.
Lemma index_refreshRemoteIfNeeded force : keeps_index (refreshRemoteIfNeeded walkSource force).
Proof.
  apply index_bind; [by apply index_view, view_gets|]. intros c.
  apply index_bind; [by apply index_view, view_on_files|]. intros t. destruct (_ && _); [by apply index_view|].
  apply index_refreshRemoteBookCache. intros m. destruct force; [|done]. intros [= <-]. apply index_scanToBookCache.
Qed.
Lemma index_refresh_open : keeps_index (refreshRemoteBookCache (Some (openWithoutExport walkSource))).
Proof. apply index_refreshRemoteBookCache. intros m [= <-]. apply index_openWithoutExport. Qed.
Lemma index_initCache : keeps_index (initCache walkSource).
Proof.
  apply index_bind; [apply index_try, index_refresh_open|]. intros [[]|e]; apply index_view; [by apply view_init|].
  views; by apply view_init.
Qed.
Lemma index_retryInit : keeps_index (retryInit walkSource).
Proof.
  apply index_bind; [by apply index_view, view_on_files|]. intros t.
  apply index_bind; [by apply index_view, view_init|]. intros _.
  apply index_bind; [apply index_try, index_refresh_open|]. intros [[]|e]; apply index_view; [by apply view_init|].
  views; by apply view_init.
Qed.
Lemma index_background_retry : keeps_index (background_retry walkSource).
Proof.
  apply index_bind; [by apply index_view, view_gets|]. intros []; [by apply index_view|].
  intros s Hs. by apply index_retryInit.
Qed.

(** Reading and copying leave the index alone. *)
Lemma view_foldl {A B : Type} (f : M RemoteShelf A → B → M RemoteShelf A) l m :
  (∀ m e, keeps_view m → keeps_view (f m e)) → keeps_view m → keeps_view (foldl f m l).
Proof. intros Hf. revert m. induction l as [|e l IH]; intros m Hm; simpl; auto. Qed.
Lemma view_copyTree fuel src dst : keeps_view (copyTree fuel src dst).
Proof.
  revert src dst. induction fuel as [|fuel IH]; intros src dst; simpl; [done|].
  apply view_bind; [views|]. intros _. apply view_bind; [views|]. intros es.
  apply view_foldl; [|done]. intros m e Hm. apply view_bind; [done|]. intros total.
  apply view_bind; [|done]. destruct (is_dir e.2); [apply IH|]. unfold copyFile. views.
Qed.
Lemma view_removing {A : Type} staging (m : M RemoteShelf A) : keeps_view m → keeps_view (removing staging m).
Proof. intros Hm. unfold removing. apply view_bind; [by apply view_try|]. intros [a|e]; views. Qed.
Lemma view_routed {A : Type} name (m : M world A) : keeps_view (routed name m).
Proof. unfold routed. views. Qed.
Lemma view_OfflineOpen name : keeps_view (OfflineOpen name).
Proof. unfold OfflineOpen, openMirrored. case_decide; [views|apply view_routed]. Qed.
Lemma view_notReady : keeps_view notReady.
Proof. unfold notReady. views. Qed.

(** ** Recording a download *)
Lemma index_recorded id r e s :
  index_ok s → listing_of s !! id = Some e → entry_path e = OPath r →
  index_ok (set_store (recorded id r (offline s)) s).
Proof.
  intros [H1' H2'] He Hp. unfold recorded. split; simpl; intros k x [[<- <-]|[Hk Hx]]%lookup_insert_Some.
  - exists r. by rewrite lookup_insert_eq.
  - assert (byPath (offline s) !! k = Some x ∧ x ≠ id) as [Hb Hne].
    { destruct (downloads (offline s) !! id) as [old|] eqn:Ho.
      - apply lookup_forget_path in Hx as [Hb Hf]. split; [done|]. intros ->.
        destruct (H1' _ _ Hb) as (rx & Hrx & <-). simplify_eq. by apply Hf.
      - split; [done|]. intros ->. destruct (H1' _ _ Hx) as (rx & Hrx & _). congruence. }
    destruct (H1' _ _ Hb) as (rx & Hrx & <-). exists rx. rewrite lookup_insert_ne by done. split; [|done].
    apply map_lookup_filter_Some. split; [done|]. right. simpl. congruence.
  - left. by exists e.
  - destruct (downloads (offline s) !! id) as [old|]; [apply lookup_forget_path in Hx as [Hx _]|]; by apply H2'.
Qed.
(** What holds of the index and the listing, through steps that keep both *)
Definition index_at (V : gmap bytes bytes * gmap bytes offlineDownload * gmap bytes bookIDCacheEntry) {A : Type}
    (m : M RemoteShelf A) : Prop := ∀ s, view s = V → index_ok s → index_ok (m s).2.
Lemma index_at_bind V {A B : Type} (m : M RemoteShelf A) (k : A → M RemoteShelf B) :
  keeps_view m → (∀ a, index_at V (k a)) → index_at V (m ≫= k).
Proof.
  intros Hm Hk s Hv Hs. unfold mbind, M_bind. specialize (Hm s). destruct (m s) as [[a|e] s'] eqn:E; simpl in *.
  - apply Hk; [congruence|]. by eapply index_ok_view.
  - by eapply index_ok_view.
Qed.
Lemma index_DownloadBook id : keeps_index (DownloadBook id).
Proof.
  apply index_bind; [by apply index_view, view_gets|]. intros []; simpl; [|apply index_view, view_bind; [apply view_notReady|done]].
  intros s Hs. unfold mbind at 1, M_bind at 1. cbn [gets]. destruct (listing_of s !! id) as [e|] eqn:He; [|done].
  assert (index_at (view s) (DownloadBook_from id e)) as Hi; [|by apply Hi].
  unfold DownloadBook_from. apply index_at_bind; [done|]. intros fuel. apply index_at_bind; [views|]. intros name.
  apply index_at_bind; [apply view_removing, view_copyTree|]. intros size.
  apply index_at_bind; [apply view_removing; views|]. intros _. apply index_at_bind; [views|]. intros previous.
  unfold finish_download. apply index_at_bind; [views|]. intros t. cbv zeta. apply index_at_bind; [views|]. intros old.
  intros s1 Hv Hs1. unfold mbind at 1, M_bind at 1. cbn [update_store modify].
  match goal with |- index_ok (?m _).2 => assert (keeps_view m) as Hm by (unfold writeDownloads; views) end.
  apply (index_view _ Hm), (index_recorded _ _ e); [done| |done].
  unfold view in Hv. congruence.
Qed.
Lemma index_RemoveDownload id : keeps_index (RemoveDownload id).
Proof.
  intros s Hs. unfold RemoveDownload, mbind at 1, M_bind at 1. cbn [gets].
  destruct (downloads (offline s) !! id) as [r|] eqn:Hr; [|done].
  unfold mbind at 1, M_bind at 1. cbn [update_store modify].
  match goal with |- index_ok (?m _).2 => assert (keeps_view m) as Hm by (unfold writeDownloads; views) end.
  apply (index_view _ Hm), index_remove; [done|]. intros k x [Hk Hx]%lookup_forget_path. split; [done|].
  rewrite lookup_delete_ne; [done|]. intros <-. destruct (ix_record s Hs _ _ Hk) as (r' & Hr' & <-). simplify_eq. by apply Hx.
Qed.

(** The walk of a local shelf is such a walk. *)
Lemma scanToBookCache_fails sh : is_ok (Shelf.scanToBookCache sh).1 = false →
  cache (bcache (Shelf.scanToBookCache sh).2) = cache (bcache sh).
Proof.
  intros Hr. assert (wp Shelf.scanToBookCache (λ r s', is_ok r = false → bcache s' = bcache sh) sh) as Hwp;
    [|by rewrite (Hwp Hr)].
  assert (∀ (A : Type) (m : M world A) (Q : result error A → Shelf → Prop) s, bcache s = bcache sh →
    (∀ r s', bcache s' = bcache sh → Q r s') → wp (lift m) Q s) as Hlift.
  { intros A m Q s Hs HQ. apply wp_lift. unfold wp. by apply HQ. }
  apply wp_bind, Hlift; [done|]. intros [t|e] s1 H1'; [|done].
  apply wp_bind. unfold iterateShelfTree. apply wp_bind, wp_gets. apply wp_bind, Hlift; [done|]. intros [st|e] s2 H2'; [|done].
  apply wp_bind, wp_modify, wp_ret. apply wp_bind, Hlift; [done|]. intros [metas|e] s3 H3'; [|done].
  apply wp_bind, Hlift; [done|]. intros [t2|e] s4 H4'; [|done]. by apply wp_update_cache.
Qed.

(** What the application does with a remote shelf, in any order, and what
    others do to its source *)
Inductive rstep : RemoteShelf → RemoteShelf → Prop :=
  | rs_init s : rstep s (initCache walkSource s).2
  | rs_retry s : rstep s (background_retry walkSource s).2
  | rs_refresh force s : rstep s (refreshRemoteIfNeeded walkSource force s).2
  | rs_download id s : rstep s (DownloadBook id s).2
  | rs_remove id s : rstep s (RemoveDownload id s).2
  | rs_open name s : rstep s (OfflineOpen name s).2
  | rs_read_dir name s : rstep s (OfflineReadDir name s).2
  | rs_stat name s : rstep s (OfflineStat name s).2
  | rs_source t s : rstep s (mkRemote (set_world (mkWorld t (tick (sworld (rshelf s)))) (rshelf s)) (offline s) (initErr s) (awaitingSource s) (lastInitTry s)).
Lemma rstep_index s s' : rstep s s' → index_ok s → index_ok s'.
Proof.
  destruct 1; intros Hs.
  - by apply index_initCache.
  - by apply index_background_retry.
  - by apply index_refreshRemoteIfNeeded.
  - by apply index_DownloadBook.
  - by apply index_RemoveDownload.
  - by apply (index_view _ (view_OfflineOpen name)).
  - by apply (index_view _ (view_routed name _)).
  - by apply (index_view _ (view_routed name _)).
  - by apply (index_ok_view s).
Qed.

(** Claim C18: Whatever was downloaded, removed, listed and lost in between, and however
    the source changed: a read is served from the store only when the package
    on the way to it is the downloaded copy of the book that is listed there,
    or of one that is not listed while nothing else is listed there. No book
    ever reads the copy of another. *)
Theorem offline_copies_are_the_listed_books w w' s0 s name :
  openOfflineStore w = (Ok (offline s0), w') → listing_of s0 = ∅ → rtc rstep s0 s → route s name = true →
  ∃ p id r, bookPackageOf name = Some p ∧ downloads (offline s) !! id = Some r ∧ OPath r = p ∧
    (listed_at (listing_of s) p id ∨ listing_of s !! id = None ∧ ∀ other, ¬ listed_at (listing_of s) p other).
Proof.
  intros Ho Hl Hr Hn. assert (index_ok s) as [H1' H2'].
  { pose proof (index_opened _ _ _ _ Ho eq_refl Hl) as H0'. clear Ho Hl Hn. induction Hr as [|a b c Hs _ IH]; [done|].
    by apply IH, (rstep_index a). }
  unfold route, hasPackage in Hn. destruct (bookPackageOf name) as [p|]; [|done].
  apply bool_decide_eq_true in Hn as [id Hid]. destruct (H1' _ _ Hid) as (r & ? & ?). exists p, id, r. auto.
Qed.
End index.
End OfflineSpec.

(** * Downloading a book: [DownloadBook] of [src/shelf/shelf_offline.go]

    What a download leaves, whatever fails: the copy of the package when it
    succeeds, the previous copy somewhere when it does not, and everything
    else as it was. *)

Module DownloadSpec.
Import Json Documents ShelfUtil BookMeta Book Shelf ShelfFrame FolderSpec ShelfInv BookMoveSpec CopySpec CacheFile CacheExport CacheSnapshot Offline OfflineSpec.

(** A sum over a list, whose steps keep [I] of the elements done; [J] holds
    where it stops. *)
Lemma wp_foldl_total {S C : Type} (I : list C → S → Prop) (J : S → Prop) (f : C → M S Z) (l : list C) s :
  (∀ b s, I b s → J s) → I [] s →
  (∀ b e s, e ∈ l → I b s → wp (f e) (λ r s', match r with Ok _ => I (b ++ [e]) s' | Err _ => J s' end) s) →
  wp (foldl (λ m e, total ← m; n ← f e; mret (total + n)%Z) (mret 0%Z) l)
    (λ r s', match r with Ok _ => I l s' | Err _ => J s' end) s.
Proof.
  intros HJ H0 Hf. assert (∀ l' b m, (∀ e, e ∈ l' → e ∈ l) → wp m (λ r s', match r with Ok _ => I b s' | Err _ => J s' end) s →
    wp (foldl (λ m e, total ← m; n ← f e; mret (total + n)%Z) m l')
      (λ r s', match r with Ok _ => I (b ++ l') s' | Err _ => J s' end) s) as Hgo.
  { induction l' as [|c l' IH]; intros b m Hin Hm; simpl; [by rewrite app_nil_r|].
    rewrite (cons_middle c b l'), app_assoc. apply IH; [intros; apply Hin; by right|].
    apply wp_bind. eapply wp_mono; [exact Hm|]. intros [total|e] s' HI; [|done].
    apply wp_bind. eapply wp_mono; [apply Hf; [apply Hin; left|exact HI]|]. intros [n|e] s2 Hs2; [by apply wp_ret|done]. }
  apply (Hgo l [] (mret 0%Z)); [done|]. by apply wp_ret.
Qed.

(** Names as a server lists them when it lists no dots. *)
Definition plain_tree (t : tree) : Prop := ∀ q, is_Some (t !! q) → Forall segment q.

Section copy.
Context `{UnicodeCase, TimeText, Machine, Digest, ShelfEnv, AppVersion, CompactText, ExportConf, RemoteSource, MapOrder}.

(** A state in which only the files below (and the directories above) one
    place of the store differ *)
Record beside (dst : path) (s0 s : RemoteShelf) : Prop := {
  be_wf : wf_tree (otree s);
  be_touched : touched (under dst) (near dst) (otree s0) (otree s);
  be_source : source_tree s = source_tree s0;
  be_view : view s = view s0;
}.
Lemma beside_refl dst s : wf_tree (otree s) → beside dst s s.
Proof. intros Hw. split; [done|apply touched_refl|done..]. Qed.
Lemma beside_trans dst s1 s2 s3 : beside dst s1 s2 → beside dst s2 s3 → beside dst s1 s3.
Proof. intros [? ? E1 E2] [? ? E3 E4]. split; [done|by eapply touched_trans|congruence..]. Qed.
Lemma beside_below dst d s1 s2 : under dst d → beside d s1 s2 → beside dst s1 s2.
Proof.
  intros Hd [? Ht ? ?]. split; [done| |done..]. eapply touched_mono; [| |exact Ht].
  - intros q Hq. by eapply under_trans.
  - intros q. by apply near_trans.
Qed.
Lemma wp_files_beside {A : Type} dst (m : M world A) (Q : result error A → RemoteShelf → Prop) s :
  keeps (under dst) (near dst) m → wf_tree (otree s) →
  (∀ r s', (m (ofs (offline s))).1 = r → otree s' = wtree (m (ofs (offline s))).2 → beside dst s s' → Q r s') →
  wp (on_files m) Q s.
Proof.
  intros Hm Hw HQ. destruct (Hm (ofs (offline s)) Hw) as [Hw' Ht]. unfold wp, on_files.
  destruct (m (ofs (offline s))) as [r w]. by apply HQ.
Qed.
Lemma wp_source_beside {A : Type} dst (m : M world A) (Q : result error A → RemoteShelf → Prop) s :
  wf_tree (otree s) → (∀ e s', beside dst s s' → otree s' = otree s → Q (Err e) s') →
  (∀ n, wp m (λ r _, ∀ a s', r = Ok a → beside dst s s' → otree s' = otree s → Q (Ok a) s') (mkWorld (source_tree s) n)) →
  wp (from_source m) Q s.
Proof.
  intros Hw HE HO. assert (∀ k, beside dst s (at_tick k s)) as Hb.
  { intros k. split; [done|apply touched_refl|done..]. }
  apply wp_from_source. intros n. eapply wp_mono; [apply HO|]. intros r w Hr. split; [intros; by apply HE|].
  intros a k ->. by apply Hr.
Qed.

Lemma wp_copyFile src dst s :
  wf_tree (otree s) → wf_tree (source_tree s) → wp (copyFile src dst) (λ r s', beside dst s s' ∧
    (is_ok r = true → ∃ c z z', source_tree s !! src = Some (File c z) ∧ otree s' !! dst = Some (File c z'))) s.
Proof.
  intros Hw Hws. apply wp_bind, (wp_source_beside dst); [done|done|]. intros n.
  apply wp_Open. intros r k Hr _ c s1 -> Hb1 E1. destruct (Hr c eq_refl) as [z Hz].
  assert (wf_tree (otree s1)) as Hw1 by apply Hb1.
  apply wp_bind, (wp_files_beside dst); [apply keeps_WriteFile, under_refl|done|]. intros r2 s2 Hr2 E2 Hb2.
  assert (beside dst s s2) as Hb by by eapply beside_trans.
  destruct r2 as [[]|e]; [|done]. apply wp_ret. split; [done|]. intros _.
  pose proof (wp_WriteFile dst c (λ r w', r = Ok tt → ∃ z', wtree w' !! dst = Some (File c z')) (ofs (offline s1))) as Hwf.
  destruct Hwf as [z' Hz']; [done| |exact Hr2|].
  - intros r c' z' n' _ _ _ [[_ ->]| ->]; [|done]. intros _. exists z'. apply lookup_insert_eq.
  - exists c, z, z'. split; [done|]. by rewrite E2.
Qed.

(** Every file below the original is below the copy, and nothing beside the
    copy changes. *)
Lemma wp_copyTree fuel src dst s :
  wf_tree (otree s) → wf_tree (source_tree s) → plain_tree (source_tree s) → dst ≠ [] →
  wp (copyTree fuel src dst) (λ r s', beside dst s s' ∧
    (is_ok r = true → otree s' !! dst = Some Dir ∧ copied src dst (source_tree s) (otree s'))) s.
Proof.
  revert src dst s. induction fuel as [|fuel IH]; intros src dst s Hw Hws Hp Hnil; simpl; [split; [by apply beside_refl|done]|].
  apply wp_bind, (wp_files_beside dst); [apply keeps_MkdirAll; by right|done|]. intros [[]|e] s1 Hr1 E1 Hb1; [|done].
  assert (otree s1 !! dst = Some Dir) as Hd1.
  { pose proof (wp_MkdirAll dst (λ r w', r = Ok tt → wtree w' !! dst = Some Dir) (ofs (offline s))) as Hm. rewrite E1.
    apply Hm; [|done]. intros r t' n _ Hd _ Hr. specialize (Hd Hr (length dst)). rewrite take_ge in Hd by done. apply Hd.
    destruct dst; simpl; [done|lia]. }
  apply wp_bind, (wp_source_beside dst); [apply Hb1|intros e s2 Hb2 _; split; [by eapply beside_trans|done]|].
  intros n. apply ScanCache.wp_ReadDir. intros r k Hr es s2 -> Hb2 E2. destruct (Hr es eq_refl) as [Hsrc ->]. simpl in Hsrc |- *.
  rewrite (be_source _ _ _ Hb1) in Hsrc |- *.
  eapply wp_mono; [apply (wp_foldl_total (λ l s', (beside dst s s' ∧ otree s' !! dst = Some Dir) ∧ ∀ k c z, plain_path k →
    (∃ x, head k = Some x ∧ x ∈ l.*1) → source_tree s !! (src ++ k) = Some (File c z) →
    ∃ z', otree s' !! (dst ++ k) = Some (File c z')) (beside dst s))|].
  - by intros ? ? [[? _] _].
  - split; [split; [by eapply beside_trans|]|]. { congruence. } intros k' c z _ (x & _ & []%elem_of_nil).
  - intros l [x node] s3 Hin [[Hb3 Hd3] Hl]. apply elem_of_entries in Hin as [Hx Hslash]. simpl.
    assert (segment x) as Hseg.
    { specialize (Hp (src ++ [x]) (mk_is_Some _ _ Hx)). apply Forall_app in Hp as [_ Hp]. by inversion Hp. }
    rewrite !pjoin_segment by done.
    assert (wp (if is_dir node then copyTree fuel (src ++ [x]) (dst ++ [x]) else copyFile (src ++ [x]) (dst ++ [x]))
      (λ r s', beside (dst ++ [x]) s3 s' ∧ (is_ok r = true → copied (src ++ [x]) (dst ++ [x]) (source_tree s3) (otree s'))) s3) as Hstep.
    { pose proof (be_wf _ _ _ Hb3). assert (wf_tree (source_tree s3)) by by rewrite (be_source _ _ _ Hb3).
      destruct node as [|c z]; simpl.
      - eapply wp_mono; [apply IH; [done|done|by rewrite (be_source _ _ _ Hb3)|by destruct dst]|]. intros r s' [? Hr']. split; [done|]. intros Hok. by apply Hr'.
      - eapply wp_mono; [by apply wp_copyFile|]. intros r s' [? Hr']. split; [done|]. intros Hok.
        destruct (Hr' Hok) as (c' & z0 & z' & Hf & Hd). intros k' c0 z0' Hk' Hf'.
        destruct k' as [|y k']; [rewrite app_nil_r in *; rewrite Hf in Hf'; injection Hf' as -> _; by exists z'|].
        rewrite (wf_no_child _ (src ++ [x])) in Hf'; [done|done| |done]. congruence. }
    eapply wp_mono; [exact Hstep|]. intros r s4 [Hb4 Hc4].
    assert (beside dst s s4) as Hb. { eapply beside_trans; [done|]. eapply beside_below; [apply under_app|done]. }
    destruct r as [m|e]; [|done]. split; [split; [done|]|].
    { eapply touched_some; [apply Hb4| |done]. intros [l' E]. apply (f_equal length) in E. rewrite !length_app in E. simpl in E. lia. }
    specialize (Hc4 eq_refl). rewrite (be_source _ _ _ Hb3) in Hc4.
    intros k' c z Hk' (y & Hy & Hin) Hf. destruct (decide (y = x)) as [->|Hne].
    + destruct k' as [|? k']; [done|]. injection Hy as ->. inversion Hk'; subst.
      specialize (Hc4 k' c z). rewrite <-!app_assoc in Hc4. by apply Hc4.
    + apply (copied_kept (be_touched _ _ _ Hb4)); [congruence|]. eapply Hl; [done| |done].
      exists y. split; [done|]. rewrite fmap_app, elem_of_app in Hin. destruct Hin as [|Hin%list_elem_of_singleton]; done.
  - intros [m|e] s3; [|done]. intros [[Hb3 Hd3] Hall]. split; [done|]. intros _. split; [done|]. intros k' c z Hk' Hf.
    destruct k' as [|x k']; [rewrite app_nil_r in Hf; congruence|].
    eapply Hall; [done| |done]. exists x. split; [done|]. inversion Hk'; subst.
    assert (∃ n', source_tree s !! (src ++ [x]) = Some n') as [n' Hn'].
    { destruct k' as [|y k']; [by eexists|]. exists Dir. apply (wf_ancestor _ _ (y :: k') Hws); [|done].
      rewrite <-app_assoc. by eexists. }
    apply list_elem_of_fmap. exists (x, n'). split; [done|]. by apply elem_of_entries.
Qed.

(** ** Putting the copy in place *)
Definition apart (p q : path) : Prop := ¬ under p q ∧ ¬ under q p.
Definition whole_at (t : tree) (p : path) (t' : tree) (p' : path) : Prop :=
  ∀ k n, t !! (p ++ k) = Some n → t' !! (p' ++ k) = Some n.
Lemma apart_app p q k l : apart p q → p ++ k ≠ q ++ l.
Proof. intros [H1' H2'] E. apply app_eq_inv in E as [(m & -> & _)|(m & -> & _)]; [apply H2'|apply H1']; apply under_app. Qed.
Lemma whole_at_refl t p : whole_at t p t p.
Proof. by intros k n. Qed.
Lemma whole_at_trans t1 p1 t2 p2 t3 p3 : whole_at t1 p1 t2 p2 → whole_at t2 p2 t3 p3 → whole_at t1 p1 t3 p3.
Proof. intros H12 H23 k n Hk. by apply H23, H12. Qed.
(** A tree that differs below [q] only *)
Lemma whole_at_apart t t' p q : apart p q → (∀ x, ¬ under q x → t' !! x = t !! x) → whole_at t p t' p.
Proof. intros Ha Ht k n Hk. rewrite Ht; [done|]. intros [l E]. by eapply (apart_app p q k l). Qed.
Lemma renamed t o n t' : fs_rename t o n = (Ok tt, t') → apart o n →
  whole_at t o t' n ∧ ∀ q, ¬ under o q → ¬ under n q → t' !! q = t !! q.
Proof.
  intros (_ & _ & [[-> _]|(_ & -> & _)])%fs_rename_ok [H1' _]; [destruct H1'; apply under_refl|]. split.
  - intros k x Hk. rewrite lookup_move, decide_True by apply under_app. by rewrite drop_app_length.
  - intros q Ho Hn. by rewrite lookup_move, !decide_False.
Qed.
Lemma wp_cleanup staging {A : Type} e (Q : result error A → world → Prop) w :
  (∀ w', only_removed staging (wtree w) (wtree w') → Q (Err e) w') → wp (ignore (RemoveAll staging);; throw e) Q w.
Proof. intros HQ. apply wp_bind, wp_ignore, wp_RemoveAll. intros r t' n Hr _. by apply wp_throw, HQ. Qed.
Lemma only_removed_apart p q t t' : apart p q → only_removed q t t' → whole_at t p t' p.
Proof. intros Ha Hr. apply (whole_at_apart _ _ _ q); [done|]. intros x Hx. by destruct (Hr x) as [?|[? _]]. Qed.

(** What stood at the place is there or in the staging folder whenever the
    answer is an error, however the renames and their undoing fail. *)
Lemma wp_replaceDir staging dst w :
  wf_tree (wtree w) → wtree w !! staging = Some Dir →
  apart staging dst → apart staging (previous_of staging) → apart dst (previous_of staging) →
  wp (replaceDirKeepingPrevious staging dst) (λ r w',
    match r with
    | Ok prev => whole_at (wtree w) staging (wtree w') dst ∧ (prev = None ∨ prev = Some (previous_of staging))
    | Err _ => whole_at (wtree w) dst (wtree w') dst ∨ whole_at (wtree w) dst (wtree w') (previous_of staging)
    end) w.
Proof.
  intros Hw Hst Hsd Hsp Hdp. set (prev := previous_of staging) in *.
  assert (apart dst staging ∧ apart prev staging ∧ apart prev dst) as (Hds & Hps & Hpd)
    by (unfold apart in *; tauto).
  set (post r w' := match r : result error (option path) with
    | Ok prev' => whole_at (wtree w) staging (wtree w') dst ∧ (prev' = None ∨ prev' = Some prev)
    | Err _ => whole_at (wtree w) dst (wtree w') dst ∨ whole_at (wtree w) dst (wtree w') prev
    end).
  (* clearing the staging folder after an error *)
  assert (∀ e w1, whole_at (wtree w) dst (wtree w1) dst ∨ whole_at (wtree w) dst (wtree w1) prev →
    wp (ignore (RemoveAll staging);; throw e) post w1) as Hclean.
  { intros e w1 Hd. apply wp_cleanup. intros w2 Hr. destruct Hd as [Hd|Hd]; [left|right];
      (eapply whole_at_trans; [exact Hd|by apply (only_removed_apart _ staging)]). }
  (* undoing the first rename *)
  assert (∀ e w1, whole_at (wtree w) dst (wtree w1) prev →
    wp (ignore (Rename prev dst);; ignore (RemoveAll staging);; throw e) post w1) as Hundo.
  { intros e w1 Hd. apply wp_bind, wp_ignore, wp_Rename; [intros; apply Hclean; by right|].
    intros r t' n [Hm _]%renamed _; [|done]. apply Hclean. left. by eapply whole_at_trans. }
  apply wp_bind, wp_try, wp_Stat. intros present n Hpres. apply wp_bind.
  destruct present as [node|e0].
  - apply wp_bind, wp_try, wp_Rename; [intros e k _; apply Hclean; left; apply whole_at_refl|].
    intros r1 t1 n1 [Hm1 Hk1]%renamed Hr1; [|done]. simpl in Hm1, Hk1.
    destruct Hr1 as [-> | ->]; [|apply Hclean; by right].
    apply wp_ret, wp_bind, wp_try, wp_Rename; [intros e k _; by apply Hundo|].
    intros r2 t2 n2 [Hm2 Hk2]%renamed Hr2; [|done]. simpl in Hm2, Hk2. destruct Hr2 as [-> | ->].
    + apply wp_ret. split; [|by right]. eapply whole_at_trans; [|exact Hm2]. intros k x Hk.
      rewrite Hk1; [done|intros [l E]..]; [by eapply (apart_app staging dst k l)|by eapply (apart_app staging prev k l)].
    + apply Hundo. eapply whole_at_trans; [exact Hm1|]. intros k x Hk.
      rewrite Hk2; [done|intros [l E]..]; [by eapply (apart_app prev staging k l)|by eapply (apart_app prev dst k l)].
  - apply wp_ret, wp_bind, wp_try, wp_Rename; [intros e k _; apply wp_bind, wp_ret, Hclean; left; apply whole_at_refl|].
    intros r2 t2 n2 E2 Hr2. destruct (renamed _ _ _ _ E2) as [Hm2 _]; [done|]. simpl in Hm2, E2.
    destruct Hr2 as [-> | ->]; [apply wp_ret; split; [exact Hm2|by left]|]. apply wp_bind, wp_ret, Hclean. left.
    apply fs_rename_ok in E2 as (_ & _ & [[E _]|(_ & _ & Hd)]); [destruct Hsd as [Hsd _]; destruct Hsd; rewrite E; apply under_refl|].
    intros k x Hk. destruct Hd as [Hd|[[[Hd Hemp] _]|[_ Hd]]]; [|  |congruence].
    + exfalso. destruct k as [|y k]; [rewrite app_nil_r in Hk; congruence|].
      rewrite (wf_ancestor _ dst (y :: k) Hw) in Hd; [done|by eexists|done].
    + apply empty_dir_spec with (q := dst ++ k) in Hemp; [|apply under_app|by eexists].
      assert (k = []) as -> by (destruct k; [done|]; apply (f_equal length) in Hemp; rewrite length_app in Hemp; simpl in Hemp; lia).
      rewrite app_nil_r in Hk |- *. assert (x = Dir) as -> by congruence.
      specialize (Hm2 []). rewrite !app_nil_r in Hm2. by apply Hm2.
Qed.

(** ** The download *)
Lemma wp_files {A : Type} (P D : path → Prop) (m : M world A) (Q : result error A → RemoteShelf → Prop) s :
  keeps P D m → wf_tree (otree s) →
  (∀ r s', (m (ofs (offline s))).1 = r → otree s' = wtree (m (ofs (offline s))).2 → wf_tree (otree s') →
     touched P D (otree s) (otree s') → source_tree s' = source_tree s → view s' = view s → Q r s') →
  wp (on_files m) Q s.
Proof.
  intros Hm Hw HQ. destruct (Hm (ofs (offline s)) Hw) as [Hw' Ht]. unfold wp, on_files.
  destruct (m (ofs (offline s))) as [r w]. by apply HQ.
Qed.
Lemma whole_at_touched P D t t' p : touched P D t t' → (∀ k, ¬ P (p ++ k)) → whole_at t p t' p.
Proof. intros Ht Hp k n Hk. by eapply touched_some. Qed.
Lemma copied_whole src p t t1 p1 t2 : copied src p t t1 → whole_at t1 p t2 p1 → copied src p1 t t2.
Proof. intros Hc Hw k c z Hk Hf. destruct (Hc k c z Hk Hf) as [z' Hz]. exists z'. by apply Hw. Qed.

Lemma package_prefix_app p k x : package_prefix p = Some x → package_prefix (p ++ k) = Some x.
Proof.
  revert x. induction p as [|a p IH]; intros x; simpl; [done|]. destruct (HasSuffix _ _); [done|].
  intros (y & Hy & ->)%fmap_Some. by rewrite (IH y Hy).
Qed.
Lemma bookPackageOf_app p k x : bookPackageOf p = Some x → bookPackageOf (p ++ k) = Some x.
Proof.
  destruct p as [|a p]; [done|]. simpl. case_decide; [|done]. intros (y & Hy & ->)%fmap_Some.
  by rewrite (package_prefix_app p k y).
Qed.
Lemma under_both p q x : under p x → under q x → under p q ∨ under q p.
Proof.
  intros [k ->] [l E]. apply app_eq_inv in E as [(m & -> & _)|(m & -> & _)]; [right|left]; apply under_app.
Qed.
(** A package that is not inside another *)
Definition outermost (p : path) : Prop := bookPackageOf p = Some (Join p (str "/")).
Lemma outermost_under p q : outermost p → outermost q → under p q → Join p (str "/") = Join q (str "/").
Proof. intros Hp Hq [k ->]. apply (bookPackageOf_app _ k) in Hp. unfold outermost in Hq. congruence. Qed.

Record entry_good (e : bookIDCacheEntry) : Prop := {
  eg_path : package_at (epath e) (folders e);
  eg_segments : Forall segment (epath e);
  eg_outermost : outermost (epath e);
}.
Definition record_good (r : offlineDownload) : Prop :=
  isBookPackagePath (OPath r) = true ∧ outermost (segments_of (OPath r)).

Definition touches (id : bytes) (e : bookIDCacheEntry) (s : RemoteShelf) (q : path) : Prop :=
  under [offlineStagingFolder] q ∨ under (epath e) q ∨
  (∃ old, downloads (offline s) !! id = Some old ∧ under (segments_of (OPath old)) q) ∨
  q = [offlineDownloadsFile] ∨ Atomic.temp_of [offlineDownloadsFile] q.
Definition may_make (e : bookIDCacheEntry) (q : path) : Prop :=
  near [offlineStagingFolder] q ∨ near (epath e) q.
Definition new_record (e : bookIDCacheEntry) (r : offlineDownload) : Prop :=
  OPath r = entry_path e ∧ OMeta r = Some (meta (book e)) ∧ OVersion r = bookVersion (meta (book e)) (sourceMD5 e).

(** What a download leaves: an error leaves the records, and the copy there
    was, in its place or whole in the staging folder; otherwise the new record
    stands and every file of the package is in its place, and an answer means
    that the list of downloads was written too. *)
Record download_post (id : bytes) (e : bookIDCacheEntry) (s : RemoteShelf) (r : result error Download) (s' : RemoteShelf) : Prop := {
  dp_wf : wf_tree (otree s');
  dp_touched : touched (touches id e s) (may_make e) (otree s) (otree s');
  dp_source : source_tree s' = source_tree s;
  dp_done : is_ok r = false ∧ view s' = view s ∧
      (whole_at (otree s) (epath e) (otree s') (epath e) ∨
       ∃ p, under [offlineStagingFolder] p ∧ whole_at (otree s) (epath e) (otree s') p) ∨
    ∃ rec, new_record e rec ∧ view s' = view (set_store (recorded id rec (offline s)) s) ∧
      copied (epath e) (epath e) (source_tree s) (otree s') ∧
      ∀ d, r = Ok d → d = downloadFor s' id rec ∧ State d = DownloadDownloaded ∧
        ∃ z, otree s' !! [offlineDownloadsFile] = Some (File (Doc (enc_downloads (downloads (offline s')))) z);
}.

Lemma staging_segment name : length name = 12 → Atomic.isRandomString name = true → segment name.
Proof.
  intros Hl Hr%Atomic.isRandomString_spec. split_and!.
  - by intros ->.
  - by intros ->.
  - by intros ->.
  - intros Hin. rewrite Forall_forall in Hr. specialize (Hr _ Hin). revert Hr. apply (bool_decide_unpack _). vm_compute. exact I.
Qed.
(** The places a download works at are apart. *)
Lemma package_head e : entry_good e → ∃ k, epath e = booksFolder :: k.
Proof. intros [(name & -> & _) _ _]. by eexists. Qed.
Lemma apart_heads x y p q : x ≠ y → apart (x :: p) (y :: q).
Proof. intros Hne. split; intros [k E]; simpl in E; congruence. Qed.
Lemma apart_siblings x a b : a ≠ b → apart [x; a] [x; b].
Proof. intros Hne. split; intros [k E]; simpl in E; congruence. Qed.

(** The copy in place and recorded, through what remains to be done *)
Record placed (id : bytes) (e : bookIDCacheEntry) (rec : offlineDownload) (s0 s : RemoteShelf) : Prop := {
  pl_wf : wf_tree (otree s);
  pl_touched : touched (touches id e s0) (may_make e) (otree s0) (otree s);
  pl_source : source_tree s = source_tree s0;
  pl_view : view s = view (set_store (recorded id rec (offline s0)) s0);
  pl_copied : copied (epath e) (epath e) (source_tree s0) (otree s);
}.
Lemma placed_post id e rec s0 s er : new_record e rec → placed id e rec s0 s → download_post id e s0 (Err er) s.
Proof. intros Hn [? ? ? ? ?]. split; [done..|]. right. by exists rec. Qed.
Lemma wp_placed {A : Type} (P : path → Prop) (m : M world A) (Q : result error A → RemoteShelf → Prop) id e rec s0 s :
  keeps P (λ _, False) m → (∀ q, P q → touches id e s0 q) → (∀ k, ¬ P (epath e ++ k)) → placed id e rec s0 s →
  (∀ r s', (m (ofs (offline s))).1 = r → otree s' = wtree (m (ofs (offline s))).2 → placed id e rec s0 s' →
     touched P (λ _, False) (otree s) (otree s') → Q r s') →
  wp (on_files m) Q s.
Proof.
  intros Hm HP Hd [Hw Ht Hs Hv Hc] HQ. apply (wp_files P (λ _, False)); [done|done|].
  intros r s' Hr E Hw' Ht' Es' Ev'. apply HQ; [done|done| |done]. split; [done| |congruence|congruence|].
  - eapply touched_trans; [exact Ht|]. by eapply touched_mono; [exact HP| |exact Ht'].
  - eapply copied_whole; [exact Hc|]. by eapply whole_at_touched.
Qed.

Lemma writeJSON_written name j w : wf_tree (wtree w) → name ≠ [] → (writeJSON name j w).1 = Ok tt →
  ∃ z, wtree (writeJSON name j w).2 !! [name] = Some (File (Doc j) z).
Proof.
  intros Hw Hn. assert (wp (writeJSON name j) (λ r w', r = Ok tt → ∃ z, wtree w' !! [name] = Some (File (Doc j) z)) w) as Hwp; [|exact Hwp].
  apply wp_bind, wp_guard; intros _; [done|]. apply Atomic.wp_WriteFileAtomic; [done..|by intros|]. intros z w' _ Hz _. by exists z.
Qed.

Lemma wp_finish id e size prev s0 s :
  entry_good e → listing_of s0 !! id = Some e →
  (∀ old, downloads (offline s0) !! id = Some old → record_good old) →
  wf_tree (otree s) → touched (touches id e s0) (may_make e) (otree s0) (otree s) → source_tree s = source_tree s0 →
  view s = view s0 → copied (epath e) (epath e) (source_tree s0) (otree s) →
  (∀ p, prev = Some p → under [offlineStagingFolder] p) →
  wp (finish_download id e size prev) (download_post id e s0) s.
Proof.
  intros He Hlist Hold Hw Ht Hsrc Hv Hc Hprev. destruct (package_head e He) as [pk Hpk].
  apply wp_bind, (wp_files (λ _, False) (λ _, False)); [apply keeps_now|done|].
  intros [t|er] s1 Hr1 E1 Hw1 _ Es1 Ev1; [|done]. cbv zeta. set (rec := mkRecord _ _ _ _ _).
  apply wp_bind, wp_gets, wp_bind, wp_update_store.
  assert (new_record e rec) as Hn by done. clearbody rec.
  assert (downloads (offline s1) = downloads (offline s0)) as Ed by (unfold view in *; congruence).
  change (otree s1 = otree s) in E1.
  assert (placed id e rec s0 (set_store (recorded id rec (offline s1)) s1)) as Hp.
  { split; [done|by rewrite <-E1 in Ht|by etrans| |by rewrite <-E1 in Hc].
    assert (byPath (offline s1) = byPath (offline s0) ∧ listing_of s1 = listing_of s0) as [Eb El] by (unfold view in *; split; congruence).
    unfold view, recorded. simpl. rewrite Ed, Eb. f_equal. exact El. }
  rewrite Ed. apply wp_bind, wp_gets. generalize (set_store (recorded id rec (offline s1)) s1) Hp. clear s1 Hr1 E1 Hw1 Es1 Ev1 Ed Hp.
  intros s1 Hp1. apply wp_bind, (wp_placed (under [offlineStagingFolder]) _ _ id e rec s0 s1); [| | |done|].
  { destruct prev as [p|]; [|apply keeps_ret]. apply keeps_ignore, keeps_RemoveAll. intros q Hq.
    eapply under_trans; [by apply Hprev|done]. }
  { by left. }
  { intros k [l E]. by rewrite Hpk in E. }
  intros [[]|er] s2 _ _ Hp2 _; [|by eapply placed_post].
  unfold writeDownloads. apply wp_bind, wp_bind, wp_gets.
  apply (wp_placed (λ q, q = [offlineDownloadsFile] ∨ Atomic.temp_of [offlineDownloadsFile] q) _ _ id e rec s0 s2);
    [| | |exact Hp2|].
  { unfold writeJSON. frame_step; [frame|]. apply keeps_WriteFileAtomic; [done|done|by left|by right]. }
  { intros q Hq. unfold touches. tauto. }
  { intros k. rewrite Hpk. intros [E|(n & E & Hn')]; [done|]. assert (n = booksFolder) as -> by (by injection E). done. }
  intros [[]|er] s3 Hr3 E3 Hp3 _; [|by eapply placed_post].
  assert (∃ z, otree s3 !! [offlineDownloadsFile] = Some (File (Doc (enc_downloads (downloads (offline s2)))) z)) as [z Hz].
  { apply (writeJSON_written _ _ _ (pl_wf _ _ _ _ _ Hp2)) in Hr3 as [z Hz]; [|done]. exists z. by rewrite E3. }
  set (clear := match downloads (offline s0) !! id with Some o => _ | None => _ end).
  apply wp_bind, (wp_placed (λ q, ∃ old, downloads (offline s0) !! id = Some old ∧ OPath old ≠ OPath rec ∧
    under (segments_of (OPath old)) q) clear _ id e rec s0 s3); [| | |done|].
  { unfold clear. destruct (downloads (offline s0) !! id) as [old|] eqn:Eo; [|apply keeps_ret].
    destruct (bool_decide _) eqn:Eb; simpl; [|apply keeps_ret]. apply bool_decide_eq_true in Eb.
    destruct (negb _); [|apply keeps_ret]. apply keeps_ignore, keeps_RemoveAll. intros q Hq. exists old. auto. }
  { intros q (old & Ho & _ & Hq). right. right. left. exists old. auto. }
  { intros k (old & Ho & Hne & Hu). apply Hne. destruct (Hold _ Ho) as [_ Hout].
    destruct Hn as (-> & _). unfold entry_path. rewrite <-(Join_Split (OPath old) "/"%char). pose proof (eg_outermost e He) as Hout'.
    destruct (under_both _ _ _ Hu (under_app _ _)) as [Hu'|Hu']; [|symmetry]; by apply outermost_under. }
  intros [[]|er] s4 Hr4 E4 Hp4 Ht4; [|by eapply placed_post].
  apply wp_gets. destruct Hp4 as [Hw4 Ht4' Hs4 Hv4 Hc4]. split; [done..|]. right. exists rec. split; [done|]. split; [done|].
  split; [done|]. intros d [= <-]. split; [done|]. split.
  - unfold downloadFor. cbn [State]. assert (listing_of s4 = listing_of s0) as -> by by injection Hv4 as _ _ ->.
    rewrite Hlist, decide_False; [done|]. destruct Hn as (-> & _ & ->). intros [Hx|Hx]; by apply Hx.
  - exists z. assert (downloads (offline s4) = downloads (offline s2)) as ->.
    { destruct Hp2 as [_ _ _ Hv2 _]. injection Hv2 as _ -> _. by injection Hv4 as _ -> _. }
    eapply touched_some; [exact Ht4| |exact Hz]. intros (old & Ho & _ & [l E]).
    destruct (Hold _ Ho) as [(fs & name & E' & _)%isBookPackagePath_inv _]. by rewrite E' in E.
Qed.

(** Until the copy is in place only the staging folder and the place change. *)
Record fetching (id : bytes) (e : bookIDCacheEntry) (s0 s : RemoteShelf) : Prop := {
  fe_wf : wf_tree (otree s);
  fe_touched : touched (touches id e s0) (may_make e) (otree s0) (otree s);
  fe_source : source_tree s = source_tree s0;
  fe_view : view s = view s0;
}.
Lemma fetching_step P D id e s0 s s' :
  fetching id e s0 s → wf_tree (otree s') → touched P D (otree s) (otree s') → source_tree s' = source_tree s → view s' = view s →
  (∀ q, P q → under [offlineStagingFolder] q ∨ under (epath e) q) → (∀ q, D q → may_make e q) → fetching id e s0 s'.
Proof.
  intros [? Ht Hs Hv] Hw Ht' Hs' Hv' HP HD. split; [done| |congruence|congruence].
  eapply touched_trans; [exact Ht|]. eapply touched_mono; [|exact HD|exact Ht']. intros q [?|?]%HP; unfold touches; auto.
Qed.
Definition not_lost (e : bookIDCacheEntry) (s0 s : RemoteShelf) : Prop :=
  whole_at (otree s0) (epath e) (otree s) (epath e) ∨
  ∃ p, under [offlineStagingFolder] p ∧ whole_at (otree s0) (epath e) (otree s) p.
Lemma fetching_post id e s0 s er : fetching id e s0 s → not_lost e s0 s → download_post id e s0 (Err er) s.
Proof. intros [? ? ? ?] ?. split; [done..|]. by left. Qed.

(** A step whose failure clears the staging folder *)
Lemma wp_removing {A : Type} id e staging (m : M RemoteShelf A) (Q : result error A → RemoteShelf → Prop) s0 s :
  entry_good e → under [offlineStagingFolder] staging →
  (∀ er s', fetching id e s0 s' → not_lost e s0 s' → Q (Err er) s') →
  wp m (λ r s', fetching id e s0 s' ∧ whole_at (otree s0) (epath e) (otree s') (epath e) ∧ (∀ a, r = Ok a → Q (Ok a) s')) s →
  wp (removing staging m) Q s.
Proof.
  intros He Hst HE Hm. apply wp_bind, wp_try. eapply wp_mono; [exact Hm|]. intros [a|er] s' (Hf & Hd & HO); [by apply wp_ret, HO|].
  destruct (package_head e He) as [pk Hpk].
  apply wp_bind, (wp_files (under staging) (λ _, False)); [by apply keeps_ignore, keeps_RemoveAll|apply Hf|].
  intros [[]|er'] s2 _ _ Hw2 Ht2 Es2 Ev2.
  all: assert (fetching id e s0 s2) as Hf2 by
    (eapply fetching_step; [exact Hf|done|exact Ht2|done|done| |done]; intros q Hq; left; by eapply under_trans).
  all: assert (not_lost e s0 s2) as Hn2 by
    (left; eapply whole_at_trans; [exact Hd|]; eapply whole_at_touched; [exact Ht2|]; intros k Hk;
     pose proof (under_trans _ _ _ Hst Hk) as [l E]; by rewrite Hpk in E).
  all: by first [apply wp_throw, HE|apply HE].
Qed.

Lemma keeps_replaceDir P D staging dst :
  (∀ q, under staging q → P q) → (∀ q, under dst q → P q) → (∀ q, under (previous_of staging) q → P q) →
  keeps P D (replaceDirKeepingPrevious staging dst).
Proof.
  intros Hs Hd Hp. unfold replaceDirKeepingPrevious. apply keeps_bind; [frame|]. intros present.
  eapply (keeps_bind_returns _ _ (λ prev, prev = None ∨ prev = Some (previous_of staging))).
  - frame; first [by apply keeps_RemoveAll|by apply keeps_Rename].
  - destruct present; [|by apply returns_ret; left]. eapply returns_bind; [apply returns_any|]. intros [u|e] _.
    + apply returns_ret. by right.
    + eapply returns_bind; [apply returns_any|]. intros ? _. apply returns_throw.
  - intros prev [-> | ->]; frame; first [by apply keeps_RemoveAll|by apply keeps_Rename].
Qed.

Lemma wp_DownloadBook_from id e s0 :
  entry_good e → listing_of s0 !! id = Some e →
  (∀ old, downloads (offline s0) !! id = Some old → record_good old) →
  wf_tree (otree s0) → wf_tree (source_tree s0) → plain_tree (source_tree s0) →
  wp (DownloadBook_from id e) (download_post id e s0) s0.
Proof.
  intros He Hlist Hold Hw Hws Hp. destruct (package_head e He) as [pk Hpk].
  assert (fetching id e s0 s0) as Hf0 by (split; [done|apply touched_refl|done..]).
  apply wp_bind, wp_gets. generalize (walk_fuel (source_tree s0)). intros fuel.
  apply wp_bind, wp_on_files, Atomic.wp_RandomString. intros name n Hl Hr.
  pose proof (staging_segment name Hl Hr) as Hseg. cbv zeta. rewrite pjoin_segment by done. simpl.
  set (staging := [offlineStagingFolder; name]). set (s1 := set_store _ s0).
  assert (under [offlineStagingFolder] staging) as Hst by by exists [name].
  assert (fetching id e s0 s1) as Hf1 by (split; [done|apply touched_refl|done..]).
  apply wp_bind, (wp_removing id e staging _ _ s0 s1); [done|done|intros; by apply fetching_post|].
  eapply wp_mono; [apply (wp_copyTree _ (epath e) staging s1); [done|done|done|done]|]. intros r s2 [Hb2 Hc2].
  destruct Hb2 as [Hw2 Ht2 Es2 Ev2].
  assert (fetching id e s0 s2) as Hf2.
  { eapply fetching_step; [exact Hf1|done|exact Ht2|done|done|..].
    - intros q Hq. left. by eapply under_trans.
    - intros q Hq. left. by eapply near_trans. }
  assert (whole_at (otree s0) (epath e) (otree s2) (epath e)) as Hd2.
  { eapply whole_at_touched; [exact Ht2|]. intros k Hk. pose proof (under_trans _ _ _ Hst Hk) as [l E]. by rewrite Hpk in E. }
  split; [done|]. split; [done|]. intros size ->. destruct (Hc2 eq_refl) as [Hsd2 Hcp2]. clear Hc2.
  apply wp_bind, (wp_removing id e staging _ _ s0 s2); [done|done|intros; by apply fetching_post|].
  apply (wp_files (λ _, False) (λ q, under q (dirname (epath e)))); [by apply keeps_MkdirAll|done|].
  intros r3 s3 _ _ Hw3 Ht3 Es3 Ev3.
  assert (fetching id e s0 s3) as Hf3.
  { eapply fetching_step; [exact Hf2|done|exact Ht3|done|done|done|]. intros q Hq. right. right. eapply under_trans; [exact Hq|].
    unfold dirname. exists (drop (length (epath e) - 1) (epath e)). by rewrite take_drop. }
  assert (whole_at (otree s0) (epath e) (otree s3) (epath e)) as Hd3.
  { eapply whole_at_trans; [exact Hd2|]. apply (whole_at_touched _ _ _ _ _ Ht3). intros k []. }
  split; [done|]. split; [done|]. intros [] ->.
  assert (apart staging (epath e)) as Ha1 by (rewrite Hpk; by apply apart_heads).
  assert (previous_of staging = [offlineStagingFolder; name ++ str ".previous"]) as Epr by done.
  assert (apart staging (previous_of staging)) as Ha2.
  { rewrite Epr. apply apart_siblings. intros E. apply (f_equal length) in E. rewrite length_app in E. simpl in E. lia. }
  assert (apart (epath e) (previous_of staging)) as Ha3 by (rewrite Epr, Hpk; by apply apart_heads).
  assert (∀ q, under (previous_of staging) q → under [offlineStagingFolder] q) as Hpu.
  { intros q Hq. rewrite Epr in Hq. eapply under_trans; [|exact Hq]. by eexists [_]. }
  assert (otree s3 !! staging = Some Dir) as Hsd3 by (eapply touched_some; [exact Ht3|by intros ?|done]).
  pose proof (wp_replaceDir staging (epath e) (ofs (offline s3)) Hw3 Hsd3 Ha1 Ha2 Ha3) as Hrep. unfold wp in Hrep.
  apply wp_bind, (wp_files (λ q, under [offlineStagingFolder] q ∨ under (epath e) q) (λ _, False)); [|done|].
  { apply keeps_replaceDir; auto. intros q Hq. left. by eapply under_trans. }
  intros r4 s4 Hr4 E4 Hw4 Ht4 Es4 Ev4. rewrite Hr4 in Hrep.
  assert (fetching id e s0 s4) as Hf4 by (eapply fetching_step; [exact Hf3|done|exact Ht4|done|done|done|done]).
  destruct r4 as [prev|er].
  - destruct Hrep as [Hm Hprev]. apply wp_finish; [done..|apply Hf4|apply Hf4|apply Hf4|apply Hf4| |].
    + rewrite E4. eapply copied_whole; [exact Hcp2|]. eapply whole_at_trans; [|exact Hm].
      apply (whole_at_touched _ _ _ _ _ Ht3). intros k [].
    + intros p ->. destruct Hprev as [|[= ->]]; [done|]. apply Hpu, under_refl.
  - apply fetching_post; [done|]. rewrite <-E4 in Hrep. destruct Hrep as [Hm|Hm]; [left|right; exists (previous_of staging); split; [apply Hpu, under_refl|]];
      by eapply whole_at_trans.
Qed.

(** What a download needs of the shelf: names the source lists hold no dots,
    and no package lies inside another. *)
Record downloadable (s : RemoteShelf) : Prop := {
  da_wf : wf_tree (otree s);
  da_source : wf_tree (source_tree s);
  da_plain : plain_tree (source_tree s);
  da_entries : map_Forall (λ _ e, entry_good e) (listing_of s);
  da_records : map_Forall (λ _ r, record_good r) (downloads (offline s));
}.
Lemma wp_DownloadBook id s : downloadable s →
  wp (DownloadBook id) (λ r s', is_ok r = false ∧ otree s' = otree s ∧ view s' = view s ∨
    ∃ e, listing_of s !! id = Some e ∧ download_post id e s r s') s.
Proof.
  intros [Hw Hws Hp He Hr]. apply wp_bind, wp_gets. destruct (ready (rshelf s)); simpl.
  - apply wp_bind, wp_gets. destruct (listing_of s !! id) as [e|] eqn:El; [|by apply wp_throw; left].
    eapply wp_mono; [apply wp_DownloadBook_from; [by eapply He|done|by apply Hr|done..]|].
    intros r s' Hpost. right. by exists e.
  - apply wp_bind. eapply wp_mono; [apply wp_conj; [apply (keeps_wp (λ _, False) (λ _, False)); [|exact Hw]|]|].
    + unfold notReady. frame. apply keeps_on_files. frame.
    + instantiate (1 := λ _ s', view s' = view s). apply view_notReady.
    + intros [a|er] s' [[_ Ht%touched_none_eq] Hv]; [apply wp_throw|]; by left.
Qed.

(** Claim C19: Downloading a book, whatever fails on the source or on this machine: only
    the staging folder, the book's place, its old place and the list of
    downloads change. An error leaves the records as they were and what stood
    in the book's place there, or whole in the staging folder; or the list
    could not be written and the copy stands. An answer means that every file
    of the package has a copy with its content, that the index serves it and
    that the list on disk holds the new record. *)
Theorem DownloadBook_copies_the_package id s : downloadable s →
  wp (DownloadBook id) (λ r s', is_ok r = false ∧ otree s' = otree s ∧ view s' = view s ∨
    ∃ e, listing_of s !! id = Some e ∧ download_post id e s r s') s.
Proof. apply wp_DownloadBook. Qed.

(** ** Removing a download *)
Lemma outermost_apart p q : outermost p → outermost q → Join p (str "/") ≠ Join q (str "/") → apart p q.
Proof. intros Hp Hq Hne. split; intros Hu; apply Hne; [|symmetry]; by apply outermost_under. Qed.
Lemma pathInUse_spec d p : pathInUse d p = true ↔ ∃ k r, d !! k = Some r ∧ OPath r = p.
Proof.
  unfold pathInUse. rewrite existsb_exists. setoid_rewrite <-list_elem_of_In. split.
  - intros ([k r] & Hin%elem_of_map_to_list & Hb%bool_decide_eq_true). by exists k, r.
  - intros (k & r & Hk & Hp). exists (k, r). split; [by apply elem_of_map_to_list|by apply bool_decide_true].
Qed.
Lemma wp_RemoveAll_gone p w : wf_tree (wtree w) → rooted p →
  wp (RemoveAll p) (λ r w', r = Ok tt → ∀ k, wtree w' !! (p ++ k) = None) w.
Proof.
  intros Hw Hr. apply wp_RemoveAll. intros r t n _ Ht Hok k. cbn [wtree]. destruct (fs_remove_all_ok _ _ _ (Ht Hok)) as [[-> Hres]|[_ ->]].
  - destruct (wtree w !! (p ++ k)) as [x|] eqn:En; [|done]. assert (is_Some (wtree w !! p)) as Hs.
    { destruct k as [|y k]; [rewrite app_nil_r in En; by eexists|]. exists Dir. apply (wf_ancestor _ _ (y :: k) Hw); [by eexists|done]. }
    by rewrite (resolve_some _ _ Hw Hr Hs) in Hres.
  - by rewrite lookup_prune_none, decide_True by apply under_app.
Qed.
Lemma Join_segments p : Join (segments_of p) (str "/") = p.
Proof. apply (Join_Split p "/"%char). Qed.
(** What removing the download [rec] of [id] leaves *)
Record removed (id : bytes) (rec : offlineDownload) (s : RemoteShelf) (r : result error unit) (s' : RemoteShelf) : Prop := {
  rm_records : downloads (offline s') = delete id (downloads (offline s));
  rm_index p x : byPath (offline s') !! p = Some x → byPath (offline s) !! p = Some x ∧ (p = OPath rec → x ≠ id);
  rm_others other r' : downloads (offline s) !! other = Some r' → other ≠ id →
    whole_at (otree s) (segments_of (OPath r')) (otree s') (segments_of (OPath r'));
  rm_touched : touched (λ q, under (segments_of (OPath rec)) q ∨ q = [offlineDownloadsFile] ∨ Atomic.temp_of [offlineDownloadsFile] q)
    (λ _, False) (otree s) (otree s');
  rm_done : r = Ok tt → (∃ z, otree s' !! [offlineDownloadsFile] = Some (File (Doc (enc_downloads (downloads (offline s')))) z)) ∧
    ((∃ other r', other ≠ id ∧ downloads (offline s) !! other = Some r' ∧ OPath r' = OPath rec) ∨
     ∀ k, otree s' !! (segments_of (OPath rec) ++ k) = None);
}.
Lemma wp_RemoveDownload id s :
  wf_tree (otree s) → map_Forall (λ _ r, record_good r) (downloads (offline s)) →
  wp (RemoveDownload id) (λ r s', match downloads (offline s) !! id with
    | Some rec => removed id rec s r s'
    | None => r = Ok tt ∧ s' = s
    end) s.
Proof.
  intros Hw Hg. apply wp_bind, wp_gets. destruct (downloads (offline s) !! id) as [rec|] eqn:Hr; [|by apply wp_ret].
  destruct (Hg _ _ Hr) as [Hpath Hout]. pose proof Hpath as (fs & name & Hseg & Hsegs & _)%isBookPackagePath_inv.
  apply wp_bind, wp_update_store. set (s1 := set_store _ s). apply wp_bind, wp_gets.
  assert (∀ s', downloads (offline s') = downloads (offline s1) → byPath (offline s') = byPath (offline s1) →
    downloads (offline s') = delete id (downloads (offline s)) ∧
    ∀ p x, byPath (offline s') !! p = Some x → byPath (offline s) !! p = Some x ∧ (p = OPath rec → x ≠ id)) as Hix.
  { intros s' -> ->. split; [done|]. intros p x Hx. by apply lookup_forget_path in Hx. }
  assert (∀ other r', downloads (offline s) !! other = Some r' → ∃ fs' name', segments_of (OPath r') = (booksFolder :: fs') ++ [name']) as Hbooks.
  { intros other r' Ho. destruct (Hg _ _ Ho) as [(fs' & name' & E & _)%isBookPackagePath_inv _]. by exists fs', name'. }
  unfold writeDownloads. apply wp_bind, wp_bind, wp_gets.
  apply (wp_files (λ q, q = [offlineDownloadsFile] ∨ Atomic.temp_of [offlineDownloadsFile] q) (λ _, False)); [|exact Hw|].
  { unfold writeJSON. frame_step; [frame|]. apply keeps_WriteFileAtomic; [done|done|by left|by right]. }
  intros r2 s2 Hr2 E2 Hw2 Ht2 _ Ev2.
  assert (downloads (offline s2) = downloads (offline s1) ∧ byPath (offline s2) = byPath (offline s1)) as [Ed2 Eb2]
    by (unfold view in Ev2; split; congruence).
  destruct (Hix s2 Ed2 Eb2) as [Hrec2 Hidx2].
  assert (∀ other r', downloads (offline s) !! other = Some r' →
    whole_at (otree s) (segments_of (OPath r')) (otree s2) (segments_of (OPath r'))) as Hothers2.
  { intros other r' Ho. destruct (Hbooks _ _ Ho) as (fs' & name' & ->). eapply whole_at_touched; [exact Ht2|].
    intros k [E|(n & E & Hn)]; [done|]. assert (n = booksFolder) as -> by (by injection E). done. }
  assert (touched (λ q, under (segments_of (OPath rec)) q ∨ q = [offlineDownloadsFile] ∨ Atomic.temp_of [offlineDownloadsFile] q)
    (λ _, False) (otree s) (otree s2)) as Htt by (refine (touched_mono _ _ _ _ _ _ _ (λ q Hq, Hq) Ht2); tauto).
  destruct r2 as [[]|e]; [|split; [exact Hrec2|exact Hidx2|intros; by eapply Hothers2|exact Htt|discriminate]].
  assert (∃ z, otree s2 !! [offlineDownloadsFile] = Some (File (Doc (enc_downloads (downloads (offline s2)))) z)) as [z Hz].
  { apply writeJSON_written in Hr2 as [z Hz]; [|exact Hw|done]. exists z. rewrite Ed2, E2. exact Hz. }
  change (downloads (offline s1)) with (delete id (downloads (offline s))).
  destruct (pathInUse _ _) eqn:Hsh.
  { apply wp_ret. split; [exact Hrec2|exact Hidx2|intros; by eapply Hothers2|exact Htt|]. intros _. split; [by exists z|]. left.
    apply pathInUse_spec in Hsh as (k & r' & [Hk Hk']%lookup_delete_Some & Hp). exists k, r'. auto. }
  apply (wp_files (under (segments_of (OPath rec))) (λ _, False)); [by apply keeps_RemoveAll|done|].
  intros r3 s3 Hr3 E3 Hw3 Ht3 _ Ev3.
  assert (downloads (offline s3) = downloads (offline s2) ∧ byPath (offline s3) = byPath (offline s2)) as [Ed3 Eb3]
    by (unfold view in Ev3; split; congruence).
  split; [congruence|by rewrite Eb3| | |].
  - intros other r' Ho Hne. eapply whole_at_trans; [by eapply Hothers2|]. eapply whole_at_touched; [exact Ht3|].
    assert (apart (segments_of (OPath rec)) (segments_of (OPath r'))) as [Ha1 Ha2].
    { apply outermost_apart; [exact Hout|apply (Hg _ _ Ho)|]. rewrite !Join_segments. intros E.
      apply not_true_iff_false in Hsh. apply Hsh, pathInUse_spec. exists other, r'. rewrite lookup_delete_ne by done. auto. }
    intros k Hk. destruct (under_both _ _ _ Hk (under_app _ _)) as [Hu|Hu]; [exact (Ha1 Hu)|exact (Ha2 Hu)].
  - eapply touched_trans; [exact Htt|]. refine (touched_mono _ _ _ _ _ _ _ (λ q Hq, Hq) Ht3). tauto.
  - intros ->. split.
    + exists z. rewrite Ed3. eapply touched_some; [exact Ht3| |exact Hz]. intros [k E]. by rewrite Hseg in E.
    + right. intros k. rewrite E3.
      assert (rooted (segments_of (OPath rec))) as Hroot by by rewrite Hseg.
      by apply (wp_RemoveAll_gone _ _ Hw2 Hroot).
Qed.

(** Removing a download takes its record and its entry of the index away and
    deletes its copy, unless another record shares the place; whatever fails,
    the copies of the other downloads stand and nothing else changes but the
    list of downloads. An answer means that the list was written and the copy
    is gone. Removing what is not downloaded does nothing. *)
Theorem RemoveDownload_only_it id s :
  wf_tree (otree s) → map_Forall (λ _ r, record_good r) (downloads (offline s)) →
  wp (RemoveDownload id) (λ r s', match downloads (offline s) !! id with
    | Some rec => removed id rec s r s'
    | None => r = Ok tt ∧ s' = s
    end) s.
Proof. apply wp_RemoveDownload. Qed.
End copy.
End DownloadSpec.

(** * Offline copies across restarts: [src/shelf/shelf_offline.go]

    What the files of the store give back when it is opened again: the list
    of downloads, the snapshot of the listing, and with them a shelf that can
    be listed and read while its source cannot be reached. *)

Module OfflineRestart.
Import Json Documents ShelfUtil BookMeta Book Shelf ShelfFrame FolderSpec ShelfInv BookMoveSpec CopySpec CacheFile CacheExport CacheSnapshot Offline OfflineSpec DownloadSpec.

(** ** The files read back *)
Record storable_download (r : offlineDownload) : Prop := {
  sd_time : whole_second (DownloadedAt r) = DownloadedAt r;
  sd_size : SourceMeta.in_int (SizeBytes r);
  sd_meta : from_option storable True (OMeta r);
}.
Section roundtrip.
Context `{TimeTextLaws}.

Ltac read_fields := unfold written; cbn [dec_object mbind option_bind]; fields; eval_fields.
Lemma dec_enc_download r : storable_download r → dec_download (enc_download r) = Some r.
Proof.
  intros [Ht Hs Hm]. destruct r as [p t sz v m]. simpl in Ht, Hs, Hm. unfold dec_download, enc_download.
  unfold written. cbn [dec_object mbind option_bind]. rewrite JSONTime.time_dec_member_read_back. fields. eval_fields.
  cbn [OPath DownloadedAt SizeBytes OVersion OMeta id dec_string mbind option_bind].
  unfold JSONTime.read_back, JSONTime.MarshalJSON, JSONTime.UnmarshalJSON. rewrite parse_format, Ht.
  cbn [mbind option_bind]. rewrite dec_int_ok by done. cbn [mbind option_bind].
  assert (dec_pointer decode (default JNull (encode <$> m)) = Some m) as ->; [|done].
  destruct m as [m|]; [|done]. simpl in *. unfold dec_pointer, encode at 1. unfold written.
  change (JObj (fields_of (members m))) with (encode m). by rewrite book_decode_encode.
Qed.
Lemma unique_enc_download r : unique_names (enc_download r) = true.
Proof.
  apply unique_written; [done|]. repeat constructor. simpl. destruct (OMeta r); [apply book_unique_encode|done].
Qed.
Lemma unmarshal_downloads d : map_Forall (λ _ r, storable_download r) d →
  unmarshal dec_downloads (Doc (enc_downloads d)) = Some (offlineSchemaVersion, d).
Proof.
  intros Hd. unfold unmarshal, enc_downloads. rewrite unique_written; [|done|].
  - unfold dec_downloads. read_fields. cbn [id]. rewrite dec_int_ok by done. cbn [mbind option_bind].
    rewrite (dec_enc_map dec_download id enc_download) by (intros k r Hr; apply dec_enc_download; by eapply Hd).
    simpl. by rewrite map_fmap_id.
  - repeat constructor. simpl. apply unique_enc_map. intros k r _. apply unique_enc_download.
Qed.
Lemma unmarshal_snapshot f : storable_cache f →
  unmarshal dec_snapshot (Doc (enc_snapshot f)) = Some (offlineSchemaVersion, Some f).
Proof.
  intros Hf. unfold unmarshal, enc_snapshot. rewrite unique_written; [|done|].
  - unfold dec_snapshot. read_fields. cbn [id]. rewrite dec_int_ok by done. cbn [mbind option_bind].
    assert (dec_pointer dec_file (enc_file f) = Some (Some f)) as ->; [|done].
    unfold dec_pointer. rewrite dec_enc_file by done. unfold enc_file. by destruct (written _) eqn:E.
  - repeat constructor. simpl. apply unique_enc_file.
Qed.
End roundtrip.

(** ** Opening the store again *)
Section restart.
Context `{UnicodeCase, TimeTextLaws, Machine, Digest, ShelfEnv, AppVersion, CompactText, ExportConf, RemoteSource, MapOrderLaws, !NoFaults}.

Lemma find_top t name : head [name] ≠ Some (str "..") → find_node t [name] = match t !! [name] with Some n => Ok n | None => Err ENotExist end.
Proof. intros Hn. unfold find_node, resolve. by rewrite decide_False. Qed.
Lemma nf_Open_top name c z Q w : head [name] ≠ Some (str "..") → wtree w !! [name] = Some (File c z) →
  Q (Ok c) (mkWorld (wtree w) (S (tick w))) → wp (Open [name]) Q w.
Proof. intros Hn Hf HQ. apply nf_read. by rewrite find_top, Hf. Qed.
Lemma nf_Open_any p Q w : (∀ r, Q r (mkWorld (wtree w) (S (tick w)))) → wp (Open p) Q w.
Proof. intros HQ. by apply nf_read. Qed.

Lemma remove_all_top t : fs_remove_all t [offlineStagingFolder] = (Ok tt, prune (λ _, false) t [offlineStagingFolder]).
Proof. done. Qed.
Lemma mkdir_all_top t : t !! [offlineStagingFolder] = None →
  fs_mkdir_all 1 t [offlineStagingFolder] = (Ok tt, <[[offlineStagingFolder] := Dir]> t).
Proof. intros Ht. unfold fs_mkdir_all. rewrite decide_False by done. cbn [fs_mkdirs app]. by rewrite Ht. Qed.
(** What emptying the staging folder leaves *)
Definition outside_staging (t t' : tree) : Prop := ∀ q, ¬ under [offlineStagingFolder] q → t' !! q = t !! q.
Lemma nf_clear_staging (Q : result error unit → world → Prop) w :
  (∀ t n, outside_staging (wtree w) t → Q (Ok tt) (mkWorld t n)) →
  wp (RemoveAll [offlineStagingFolder];; MkdirAll [offlineStagingFolder]) Q w.
Proof.
  intros HQ. apply wp_bind, nf_write. rewrite remove_all_top. cbn [fst snd]. apply nf_write. cbn [wtree tick length].
  rewrite mkdir_all_top by (rewrite lookup_prune_none, decide_True; [done|apply under_refl]). cbn [fst snd].
  apply HQ. intros q Hq. rewrite lookup_insert_ne by (intros <-; by destruct Hq; apply under_refl).
  by rewrite lookup_prune_none, decide_False.
Qed.
Lemma nf_readJSON {A : Type} name (dec : json → option A) c z (Q : result error (option A) → world → Prop) w :
  head [name] ≠ Some (str "..") → wtree w !! [name] = Some (File c z) →
  Q (Ok (unmarshal dec c)) (mkWorld (wtree w) (S (tick w))) → wp (readJSON name dec) Q w.
Proof. intros Hn Hf HQ. by apply wp_bind, wp_try, (nf_Open_top name c z). Qed.

Lemma clear_assoc {A : Type} (m1 m2 : M world unit) (k : M world A) Q w :
  wp (m1;; m2) (λ r w', match r with Ok _ => wp k Q w' | Err e => Q (Err e) w' end) w → wp (m1;; m2;; k) Q w.
Proof. unfold wp, mbind, M_bind. destruct (m1 w) as [[u|e] w1]; [|done]. by destruct (m2 w1) as [[[]|e] w2]. Qed.
(** A store whose list of downloads was written opens with that list. *)
Lemma nf_openOfflineStore d z (Q : result error offlineStore → world → Prop) w :
  wtree w !! [offlineDownloadsFile] = Some (File (Doc (enc_downloads d)) z) →
  map_Forall (λ _ r, storable_download r) d → map_Forall usable d →
  (∀ o w', ofs o = w' → outside_staging (wtree w) (wtree w') → downloads o = d → loaded (downloads o, byPath o) →
     (∀ k r, d !! k = Some r → is_Some (byPath o !! OPath r)) → Q (Ok o) w') →
  wp openOfflineStore Q w.
Proof.
  intros Hf Hst Hu HQ. unfold openOfflineStore.
  apply clear_assoc, nf_clear_staging. intros t n Ht.
  assert (t !! [offlineDownloadsFile] = Some (File (Doc (enc_downloads d)) z)) as Hf' by (rewrite Ht; [done|by intros [k E]]).
  apply wp_bind, wp_bind, (nf_readJSON _ _ (Doc (enc_downloads d)) z); [done|exact Hf'|]. rewrite unmarshal_downloads by done.
  apply wp_ret. rewrite decide_True by done. cbn [tick wtree].
  destruct (load_range d) as (Hl & Hd & Hp). set (acc := foldl load_entry (∅, ∅) (map_range d)) in *.
  assert (acc.1 = d) as Ed.
  { apply map_eq. intros k. apply option_eq. intros r. rewrite Hd. split; [by intros [? _]|]. intros Hr. split; [done|exact (Hu _ _ Hr)]. }
  apply wp_bind, wp_bind, wp_bind, wp_try, nf_Open_any. intros r. apply wp_ret, wp_ret, wp_bind, wp_gets, wp_ret.
  apply HQ; [done|done|done| |].
  - simpl. by destruct acc.
  - intros k r' Hr. apply Hp. exists k, r'. split; [done|]. split; [exact (Hu _ _ Hr)|done].
Qed.

Lemma keeps_openOfflineStore : keeps (under [offlineStagingFolder]) (near [offlineStagingFolder]) openOfflineStore.
Proof.
  unfold openOfflineStore, loadDownloads, loadSnapshot, readJSON. frame; first [by apply keeps_RemoveAll|apply keeps_MkdirAll; by right].
Qed.
(** Reading below a package that is downloaded *)
Lemma nf_OfflineOpen_local p k c z s pkg :
  wf_tree (otree s) → head p = Some booksFolder → bookPackageOf p = Some pkg → is_Some (byPath (offline s) !! pkg) →
  otree s !! (p ++ k) = Some (File c z) → wp (OfflineOpen (p ++ k)) (λ r _, r = Ok c) s.
Proof.
  intros Hw Hh Hp Hb Hf. destruct p as [|x p]; [done|]. injection Hh as ->.
  unfold OfflineOpen. rewrite decide_False by done. unfold routed. apply wp_bind, wp_gets.
  assert (route s ((booksFolder :: p) ++ k) = true) as ->.
  { unfold route. rewrite (bookPackageOf_app _ k _ Hp). by apply bool_decide_true. }
  by apply wp_on_files, (nf_Open_at _ c z).
Qed.

(** Claim C20: A finished download survives a restart: the store opened again on the
    files it left lists the same downloads, and every file of the package
    reads with the content the source had, whatever the shelf opened on that
    store knows of its source now. *)
Theorem download_survives_restart id s d s' :
  downloadable s → DownloadBook id s = (Ok d, s') →
  map_Forall (λ _ r, storable_download r) (downloads (offline s')) → map_Forall usable (downloads (offline s')) →
  ∃ e, listing_of s !! id = Some e ∧ ∀ n, wp openOfflineStore (λ r w, ∃ o, r = Ok o ∧ downloads o = downloads (offline s') ∧
    ∀ k c z, plain_path k → source_tree s !! (epath e ++ k) = Some (File c z) →
      ∀ s2, offline s2 = o → wp (OfflineOpen (epath e ++ k)) (λ r _, r = Ok c) s2) (mkWorld (otree s') n).
Proof.
  intros Hda Hrun Hst Hu. pose proof (wp_DownloadBook id s Hda) as Hpost. unfold wp in Hpost. rewrite Hrun in Hpost.
  destruct Hpost as [[? _]|(e & He & Hpost)]; [done|]. exists e. split; [done|]. intros n.
  destruct (dp_done _ _ _ _ _ Hpost) as [[? _]|(rec & (Hpath & _) & Hv & Hc & Hd)]; [done|].
  destruct (Hd d eq_refl) as (_ & _ & z0 & Hz0). simpl in *.
  eapply wp_mono; [apply wp_conj; [apply (keeps_wp _ _ _ _ keeps_openOfflineStore); apply Hpost|
    apply (nf_openOfflineStore (downloads (offline s')) z0 (λ r w, ∃ o, r = Ok o ∧ ofs o = w ∧ outside_staging (otree s') (wtree w) ∧
      downloads o = downloads (offline s') ∧ is_Some (byPath o !! entry_path e))); [done..|]]|].
  - intros o w' Ho Hout Ed _ Hb. exists o. split; [done|]. split; [done|]. split; [done|]. split; [done|].
    rewrite <-Hpath. apply (Hb id). injection Hv as _ -> _. apply lookup_insert_eq.
  - intros r w' [[Hw' _] (o & -> & Ho & Hout & Ed & Hb)]. exists o. split; [done|]. split; [done|].
    intros k c z Hk Hf s2 E2. destruct (Hc k c z Hk Hf) as [z' Hz'].
    pose proof (da_entries _ Hda _ _ He) as Hgood. destruct (package_head e Hgood) as [pk Hpk].
    assert (otree s2 = wtree w') as Et by (unfold otree; congruence).
    apply (nf_OfflineOpen_local _ _ _ z' _ (entry_path e)); [by rewrite Et|by rewrite Hpk|apply Hgood|by rewrite E2|].
    rewrite Et, Hout; [done|]. intros [l E]. by rewrite Hpk in E.
Qed.

(** ** The listing *)
Lemma nf_open_snapshot f z digest (Q : result error offlineStore → world → Prop) w :
  wtree w !! [offlineSnapshotFile] = Some (File (Doc (enc_snapshot f)) z) → storable_cache f → bookCacheDigest f = Ok digest →
  (∀ o w', snapshot o = Some f → snapshotDigest o = digest → Q (Ok o) w') → wp openOfflineStore Q w.
Proof.
  intros Hf Hst Hd HQ. unfold openOfflineStore.
  apply clear_assoc, nf_clear_staging. intros t n Ht.
  assert (t !! [offlineSnapshotFile] = Some (File (Doc (enc_snapshot f)) z)) as Hf' by (rewrite Ht; [done|by intros [k E]]).
  apply wp_bind, wp_bind, wp_bind, wp_try, nf_Open_any. intros r. apply wp_ret, wp_ret. cbn [wtree tick].
  apply wp_bind, wp_bind, (nf_readJSON _ _ (Doc (enc_snapshot f)) z); [done|exact Hf'|]. rewrite unmarshal_snapshot by done.
  apply wp_ret. rewrite decide_True by done. rewrite Hd. apply wp_bind, wp_gets, wp_ret. by apply HQ.
Qed.

Lemma saveSnapshot_written f s s' : wf_tree (otree s) → bookCacheDigest f ≠ Ok (snapshotDigest (offline s)) →
  saveSnapshot f s = (Ok tt, s') → ∃ z, otree s' !! [offlineSnapshotFile] = Some (File (Doc (enc_snapshot f)) z).
Proof.
  intros Hw Hd Hrun.
  assert (wp (saveSnapshot f) (λ r s', r = Ok tt → ∃ z, otree s' !! [offlineSnapshotFile] = Some (File (Doc (enc_snapshot f)) z)) s) as Hwp;
    [|unfold wp in Hwp; rewrite Hrun in Hwp; by apply Hwp].
  apply wp_bind, wp_of_result. destruct (bookCacheDigest f) as [digest|]; [|done].
  apply wp_bind, wp_gets. rewrite bool_decide_false by congruence.
  apply wp_bind, wp_on_files. destruct (writeJSON offlineSnapshotFile (enc_snapshot f) (ofs (offline s))) as [r w'] eqn:E.
  unfold wp. rewrite E. simpl. destruct r as [[]|e]; [|done]. intros _.
  destruct (writeJSON_written offlineSnapshotFile (enc_snapshot f) (ofs (offline s)) Hw) as [z Hz]; [done|by rewrite E|].
  exists z. rewrite E in Hz. exact Hz.
Qed.

(** The snapshot of a listing survives a restart: once it is saved, the store
    opened again has it. *)
Theorem snapshot_survives_restart f s s' n :
  wf_tree (otree s) → storable_cache f → bookCacheDigest f ≠ Ok (snapshotDigest (offline s)) →
  saveSnapshot f s = (Ok tt, s') →
  wp openOfflineStore (λ r w, ∃ o, r = Ok o ∧ snapshot o = Some f ∧ bookCacheDigest f = Ok (snapshotDigest o)) (mkWorld (otree s') n).
Proof.
  intros Hw Hst Hd Hrun. destruct (saveSnapshot_written _ _ _ Hw Hd Hrun) as [z Hz].
  destruct (bookCacheDigest f) as [digest|e] eqn:Ed.
  - eapply (nf_open_snapshot f z digest); [exact Hz|done|done|]. intros o w' Ho Ho'. exists o. by rewrite Ho'.
  - exfalso. unfold saveSnapshot, mbind, M_bind, of_result in Hrun. by rewrite Ed in Hrun.
Qed.
End restart.

(** ** A shelf whose source is gone *)
Section gone.
Context `{UnicodeCase, TimeText, Machine, Digest, ShelfEnv, AppVersion, CompactText, ExportConf, RemoteSource, MapOrder}.
Context (walkSource : M Shelf unit).

Lemma wp_answer {S A : Type} (m : M S A) r Q s : (m s).1 = r → wp m Q s → wp m (λ r' s', r' = r ∧ Q r' s') s.
Proof. by intros <- HQ. Qed.
(** What a shelf that lists the snapshot [f] of [s] shows *)
Definition shows (s : Shelf) (c : bookCache) : Prop :=
  cache c = remote_of <$> cache (bcache s) ∧ cfolders c = cfolders (bcache s) ∧
  folderMeta c = omap shown_meta (folderMeta (bcache s)) ∧ lastScanStart c = time_Unix (Unix (lastScanStart (bcache s))).
Lemma wp_listFromOfflineSnapshot writer sh (Q : result error bool → RemoteShelf → Prop) s :
  exportable (bcache sh) → snapshot (offline s) = Some (collectExportSnapshot writer sh) →
  lastScanStart (bcache (rshelf s)) = zero_time →
  (∀ s', shows sh (bcache (rshelf s')) → ready (rshelf s') = ready (rshelf s) → initErr s' = initErr s →
     downloads (offline s') = downloads (offline s) → otree s' = otree s → Q (Ok true) s') →
  wp listFromOfflineSnapshot Q s.
Proof.
  intros Hx Hsn Hz HQ. apply wp_bind, wp_on_shelf, wp_markRemoteRefreshAttempt. intros t n.
  apply wp_bind, wp_gets. cbn [rshelf bcache set_cache set_world with_lastFullScan lastScanStart]. rewrite Hz, Z.eqb_refl.
  cbn [negb]. apply wp_bind, wp_gets. cbn [offline with_ofs snapshot]. rewrite Hsn, snapshot_of_export by done.
  apply wp_bind, wp_on_shelf, wp_update_cache, wp_bind. unfold reconcileDownloads. apply wp_bind, wp_gets, wp_update_store.
  apply wp_ret. by apply HQ.
Qed.

(** A remote shelf that opens while its source cannot be reached is ready all
    the same and shows what its last snapshot was taken of: the same books
    under the same IDs, at the same places and with the same metadata, the
    same folders and marks, dated to the second of that listing. Its downloads
    are those the store holds. *)
Theorem offline_shelf_becomes_ready writer sh s :
  exportable (bcache sh) → snapshot (offline s) = Some (collectExportSnapshot writer sh) →
  lastScanStart (bcache (rshelf s)) = zero_time →
  (takeOverNewest (set_world (source_at s) (rshelf s))).1 = Err ErrSourceUnavailable →
  wp (initCache walkSource) (λ r s', r = Ok tt ∧ ready (rshelf s') = true ∧ shows sh (bcache (rshelf s')) ∧
    downloads (offline s') = downloads (offline s) ∧ otree s' = otree s) s.
Proof.
  intros Hx Hsn Hz Hgone. apply wp_bind, wp_try, wp_bind, wp_try, wp_bind, wp_on_shelf.
  eapply wp_mono; [apply wp_answer; [exact Hgone|apply wp_takeOverNewest]|].
  intros r sh' [-> (c & n & -> & [Hc|[? _]])]; [|done]. cbv beta iota. change (errors_Is ErrSourceUnavailable ErrSourceUnavailable) with true.
  cbv iota. apply wp_bind, (wp_listFromOfflineSnapshot writer sh); [exact Hx|exact Hsn| |].
  - cbn [rshelf bcache set_cache]. rewrite <-Hz. exact (f_equal lastScanStart Hc).
  - intros s' Hs Hr _ Hd Ho. apply wp_ret, wp_modify. split; [done|]. split; [done|]. split; [exact Hs|]. split; [exact Hd|exact Ho].
Qed.
End gone.
End OfflineRestart.
