(* ===== verification/LockedFile.v ===== *)
(** * Locked documents: [src/internal/lockedfile] and [src/internal/fsutil/osfile.go]

    A small document is read, changed and replaced under an advisory lock on
    a sibling file. The lock ([gofrs/flock]) and the names [os.CreateTemp]
    draws are parameters; the document's type brings its own [parse] and
    [serialize]. [Mutate_refines] says that a store of documents is an atomic
    cell of parsed documents. *)

From S2P Require Import Prelude Utf8 Strings Json Fs FsSpec Atomic BookMeta Source Frame Documents.

Module LockedFile.
Import Atomic.

(** What [TryLockContext] answers, and the text [os.CreateTemp] puts in place
    of the star, at each step. *)
Class HostEnv := {
  flock : nat → result error bool;
  temp_text : nat → bytes;
}.

(** [type File]; the pattern as its two halves. *)
Record LockedFile := mkLockedFile {
  fpath : path;
  lockPath : path;
  tempPrefix : bytes;
  tempSuffix : bytes;
}.
(** [New]: the lock is a sibling of the document. *)
Definition NewLocked (p : path) (pre suf : bytes) : LockedFile :=
  mkLockedFile p (match last p with Some b => dirname p ++ [b ++ str ".lock"] | None => [] end) pre suf.
Definition maxDocumentBytes : Z := 2 ^ 20.

Section ops.
Context `{Machine, HostEnv}.

(** [fsutil.ReadTextFile]: a missing file is an empty text. *)
Definition ReadTextFile (p : path) : M world content :=
  read ← try (Open p);
  match read with
  | Ok c => mret c
  | Err e => if errors_Is e ENotExist then mret (Raw []) else throw e
  end.

(** [os.CreateTemp]: exclusive creation under a drawn name, tried again while
    the name is taken. *)
Definition create_excl (p : path) : M world unit := λ w,
  write_step (λ t, match t !! p with
                   | Some _ => (Err EExist, t)
                   | None => fs_write t p (Raw []) (clock (tick w))
                   end) (λ _ _ t, t) w.
Fixpoint create_temp_loop (fuel : nat) (dir : path) (pre suf : bytes) : M world path :=
  match fuel with
  | 0 => throw EExist
  | S fuel =>
      k ← gets tick;
      let p := dir ++ [pre ++ temp_text k ++ suf] in
      made ← try (create_excl p);
      match made with
      | Ok _ => mret p
      | Err e => if errors_Is e EExist then create_temp_loop fuel dir pre suf else throw e
      end
  end.
Definition max_temp_tries : nat := N.to_nat 10000.
Definition CreateTemp (dir : path) (pre suf : bytes) : M world path :=
  create_temp_loop max_temp_tries dir pre suf.

(** A system call that changes no entry. *)
Definition syscall : M world unit := write_step (λ t, (Ok tt, t)) (λ _ _ t, t).

(** [fsutil.WriteTextFileAtomic] *)
Definition WriteTextFileAtomic (p : path) (pre suf : bytes) (text : content) : M world unit :=
  MkdirAll (dirname p);;
  tmpPath ← CreateTemp (dirname p) pre suf;
  done ← try (WriteFile tmpPath text;; syscall;; syscall;; Rename tmpPath p);
  match done with
  | Ok _ => mret tt
  | Err e => ignore (Remove tmpPath);; throw e
  end.

(** [func (f *File) lock]; [TryLock] creates the lock file. *)
Definition create_lock (p : path) : M world unit := λ w,
  write_step (λ t, match t !! p with
                   | Some _ => (Ok tt, t)
                   | None => fs_write t p (Raw []) (clock (tick w))
                   end) (λ _ _ t, t) w.
Definition lock (f : LockedFile) : M world unit :=
  MkdirAll (dirname (lockPath f));;
  create_lock (lockPath f);;
  k ← gets tick;
  match flock k with
  | Err e => throw e
  | Ok false => throw (Msg "timed out locking")
  | Ok true => mret tt
  end.

(** [func (f *File) Read] *)
Definition notReady : error := Msg "storage is not ready".
Definition Read (f : LockedFile) : M world content :=
  if decide (fpath f = []) then throw notReady else ReadTextFile (fpath f).

(** [Mutate] and [MutateIf] *)
Section documents.
Context {T : Type} (parse : content → T) (serialize : T → result error content).

Definition Mutate (f : LockedFile) (fn : T → T) : M world T :=
  if decide (fpath f = []) then throw notReady else
  lock f;;
  raw ← ReadTextFile (fpath f);
  let current := parse raw in
  let next := fn current in
  currentText ← of_result (serialize current);
  nextText ← of_result (serialize next);
  if decide (content_bytes nextText = content_bytes currentText) then mret next else
  guard_err (bool_decide (maxDocumentBytes < content_size nextText)%Z) (Msg "document is too large");;
  WriteTextFileAtomic (fpath f) (tempPrefix f) (tempSuffix f) nextText;;
  mret next.

Definition MutateIf (f : LockedFile) (needed : T → bool) (fn : T → T) : M world content :=
  raw ← Read f;
  if negb (needed (parse raw)) then mret raw else
  doc ← Mutate f fn;
  of_result (serialize doc).
End documents.
End ops.

(** ** A write is all or nothing *)
Definition temp_like (f : LockedFile) (q : path) : Prop :=
  ∃ x, q = dirname (fpath f) ++ [tempPrefix f ++ x ++ tempSuffix f].

(** The files of a store do not collide: no temporary name, and not the lock,
    is the document's, and the lock lies beside it. *)
Record well_named (f : LockedFile) : Prop := {
  wn_path : fpath f ≠ [];
  wn_temp : ¬ temp_like f (fpath f);
  wn_lock : lockPath f ≠ fpath f;
  wn_beside : dirname (lockPath f) = dirname (fpath f);
}.

(** The document at a path. *)
Definition text_at (t : tree) (p : path) : content :=
  match t !! p with Some (File c _) => c | _ => Raw [] end.

(** The document, its temporary siblings and its lock file. *)
Definition aside (f : LockedFile) (q : path) : Prop :=
  (∃ x, temp_like f x ∧ under x q) ∨ q = lockPath f.
Definition store_files (f : LockedFile) (q : path) : Prop := under (fpath f) q ∨ aside f q.
Definition store_dirs (f : LockedFile) (q : path) : Prop := under q (dirname (fpath f)).

(** What an update may leave of the document: as it was, or the new text. *)
Definition old_or_new (f : LockedFile) (text : content) (t t' : tree) : Prop :=
  text_at t' (fpath f) = text_at t (fpath f) ∨ text_at t' (fpath f) = text.

Section spec.
Context `{Machine, HostEnv}.

Lemma wp_ReadTextFile p (Q : result error content → world → Prop) w :
  wf_tree (wtree w) →
  (∀ e n, Q (Err e) (mkWorld (wtree w) n)) →
  (∀ n, Q (Ok (text_at (wtree w) p)) (mkWorld (wtree w) n)) → wp (ReadTextFile p) Q w.
Proof.
  intros Hwf HE HO. apply wp_bind, wp_try. unfold Open. apply wp_read. intros r n Hr.
  assert (r = Err EIO ∨ r = Ok (text_at (wtree w) p) ∨
    (∃ e, r = Err e ∧ (e = ENotExist → wtree w !! p = None))) as Hc.
  { destruct Hr as [-> | ->]; [|by left]. right.
    destruct (find_node (wtree w) p) as [[|c z]|e] eqn:E.
    - right. by exists EIsDir.
    - apply find_node_ok in E as [E _]. left. unfold text_at. by rewrite E.
    - right. exists e. split; [done|]. intros ->. by apply find_node_missing. }
  destruct Hc as [-> |[-> |(e & -> & He)]]; [apply HE|by apply wp_ret, HO|].
  destruct (errors_Is e ENotExist) eqn:Ei; [|by apply wp_throw, HE].
  apply errors_Is_ENotExist in Ei. apply wp_ret. specialize (HO n). unfold text_at in HO.
  by rewrite (He Ei) in HO.
Qed.

Lemma keeps_ReadTextFile P D p : keeps P D (ReadTextFile p).
Proof. unfold ReadTextFile. frame. Qed.

(** The two exclusive creations: nothing, or an empty file at a free path. *)
Lemma wp_create_excl p (Q : result error unit → world → Prop) w :
  (∀ e n, Q (Err e) (mkWorld (wtree w) n)) →
  (∀ r z n, wtree w !! p = None → p ≠ [] → resolve (wtree w) p = None →
    Q r (mkWorld (<[p := File (Raw []) z]> (wtree w)) n)) →
  wp (create_excl p) Q w.
Proof.
  intros HE HO. unfold create_excl. apply wp_write.
  - intros t e t'. destruct (t !! p); [by intros [= _ <-]|apply fs_write_atomic].
  - intros r t' n [e He|t'' E|t'' E|m keep E]; try apply HE.
    all: destruct (wtree w !! p) eqn:Ep; [done|]; apply fs_write_ok in E as (-> & _ & ? & ?); auto.
Qed.
Lemma wp_create_lock p (Q : result error unit → world → Prop) w :
  (∀ r n, Q r (mkWorld (wtree w) n)) →
  (∀ r z n, wtree w !! p = None → p ≠ [] → resolve (wtree w) p = None →
    Q r (mkWorld (<[p := File (Raw []) z]> (wtree w)) n)) →
  wp (create_lock p) Q w.
Proof.
  intros HE HO. unfold create_lock. apply wp_write.
  - intros t e t'. destruct (t !! p); [done|apply fs_write_atomic].
  - intros r t' n [e He|t'' E|t'' E|m keep E]; try apply HE.
    all: destruct (wtree w !! p) eqn:Ep; [injection E as <-; apply HE|];
      apply fs_write_ok in E as (-> & _ & ? & ?); auto.
Qed.

Lemma keeps_created P D p (m : M world unit) :
  P p →
  (∀ (Q : result error unit → world → Prop) w, (∀ r n, Q r (mkWorld (wtree w) n)) →
    (∀ r z n, wtree w !! p = None → p ≠ [] → resolve (wtree w) p = None →
      Q r (mkWorld (<[p := File (Raw []) z]> (wtree w)) n)) → wp m Q w) →
  keeps P D m.
Proof.
  intros Hp Hm w Hw. apply (Hm (λ _ w', wf_tree (wtree w') ∧ touched P D (wtree w) (wtree w'))).
  - intros r n. split; [done|apply touched_refl].
  - intros r z n Hn Hne Hr. split; [|by apply touched_insert]. apply wf_insert_file; try done. by rewrite Hn.
Qed.
Lemma keeps_create_excl P D p : P p → keeps P D (create_excl p).
Proof. intros Hp. apply (keeps_created _ _ p); [done|]. intros Q w HE HO. apply wp_create_excl; auto. Qed.
Lemma keeps_create_lock P D p : P p → keeps P D (create_lock p).
Proof. intros Hp. apply (keeps_created _ _ p); [done|]. intros Q w HE HO. apply wp_create_lock; auto. Qed.
Lemma keeps_syscall P D : keeps P D syscall.
Proof. apply keeps_same. intros w. unfold syscall, write_step. by destruct (fault (tick w)). Qed.

Lemma keeps_create_temp P D n dir pre suf :
  (∀ x, P (dir ++ [pre ++ x ++ suf])) → keeps P D (create_temp_loop n dir pre suf).
Proof.
  intros HP. induction n as [|n IH]; simpl; [frame|].
  apply keeps_bind; [frame|]. intros k. apply keeps_bind; [by apply keeps_try, keeps_create_excl|].
  intros [[]|e]; [frame|]. case_match; [apply IH|frame].
Qed.

(** The temporary file a success returns is there. *)
Definition temp_made (dir : path) (pre suf : bytes) (r : result error path) (t : tree) : Prop :=
  ∀ p, r = Ok p → ∃ x c z, p = dir ++ [pre ++ x ++ suf] ∧ t !! p = Some (File c z).

Lemma wp_create_temp n dir pre suf w :
  wp (create_temp_loop n dir pre suf) (λ r w', temp_made dir pre suf r (wtree w')) w.
Proof.
  revert w. induction n as [|n IH]; intros w; simpl; [by apply wp_throw|].
  apply wp_bind, wp_gets, wp_bind, wp_try.
  set (p := dir ++ [pre ++ temp_text (tick w) ++ suf]).
  apply (wp_mono _ (λ r w', r = Ok tt → ∃ c z, wtree w' !! p = Some (File c z))).
  - apply wp_create_excl; [done|]. intros r z k _ _ _ _. exists (Raw []), z. simpl. by rewrite lookup_insert_eq.
  - intros [[]|e] w' Hr.
    + apply wp_ret. intros p' [= <-]. destruct (Hr eq_refl) as (c & z & ?). by exists (temp_text (tick w)), c, z.
    + case_match; [apply IH|by apply wp_throw].
Qed.

Context (f : LockedFile) (Hf : well_named f).
Let p := fpath f.
Let dir := dirname (fpath f).

Lemma doc_split : p = dir ++ [base p].
Proof. apply dirname_base, Hf. Qed.

Lemma not_above : ¬ store_dirs f p.
Proof.
  unfold store_dirs. fold dir. intros Hu%under_length. pose proof doc_split as Hp.
  apply (f_equal length) in Hp. rewrite length_app in Hp. simpl in Hp. lia.
Qed.

Lemma temp_ne x : temp_like f x → ¬ under x p.
Proof.
  intros Hx [k Hk]. destruct Hx as (y & ->). fold dir in Hk. rewrite doc_split, <-app_assoc in Hk.
  apply app_inv_head in Hk. simpl in Hk. injection Hk as Hb Hk. apply (wn_temp f Hf). exists y.
  fold dir p. by rewrite <-Hb, <-doc_split.
Qed.

Lemma aside_not_doc : ¬ aside f p.
Proof. intros [(x & Hx & Hu)|E]; [by apply (temp_ne x)|]. by apply (wn_lock f Hf). Qed.

(** What keeps to the side leaves the document as it is. *)
Lemma doc_same {A : Type} (m : M world A) w :
  keeps (aside f) (store_dirs f) m → wf_tree (wtree w) →
  wp m (λ _ w', wf_tree (wtree w') ∧ touched (aside f) (store_dirs f) (wtree w) (wtree w') ∧
    text_at (wtree w') p = text_at (wtree w) p) w.
Proof.
  intros Hm Hw. destruct (Hm w Hw) as [Hw' Ht]. split; [done|]. split; [done|]. unfold text_at.
  change (wtree (m w).2) with (tree_of (m w).2).
  by rewrite (touched_same _ _ _ _ p Ht aside_not_doc not_above).
Qed.

Lemma keeps_aside {A : Type} (m : M world A) :
  keeps (aside f) (store_dirs f) m → keeps (store_files f) (store_dirs f) m.
Proof. apply keeps_mono; [|done]. intros q Hq. by right. Qed.

Lemma keeps_lock : keeps (aside f) (store_dirs f) (lock f).
Proof.
  unfold lock. apply keeps_bind; [apply keeps_MkdirAll; intros q; unfold store_dirs; by rewrite (wn_beside f Hf)|].
  intros _. apply keeps_bind; [by apply keeps_create_lock; right|]. intros _. frame.
Qed.

Lemma temp_aside x : aside f (dir ++ [tempPrefix f ++ x ++ tempSuffix f]).
Proof. left. eexists. split; [by exists x|done]. Qed.

Lemma keeps_CreateTemp : keeps (aside f) (store_dirs f) (CreateTemp dir (tempPrefix f) (tempSuffix f)).
Proof. apply keeps_create_temp, temp_aside. Qed.

(** The whole replacement. *)
Lemma keeps_WriteTextFileAtomic text :
  keeps (store_files f) (store_dirs f) (WriteTextFileAtomic p (tempPrefix f) (tempSuffix f) text).
Proof.
  unfold WriteTextFileAtomic. apply keeps_bind; [by apply keeps_MkdirAll|]. intros _.
  apply (keeps_bind_returns _ _ (temp_like f)).
  - apply keeps_aside, keeps_CreateTemp.
  - intros s q Hq. destruct (wp_create_temp max_temp_tries dir (tempPrefix f) (tempSuffix f) s q Hq)
      as (x & _ & _ & -> & _). by exists x.
  - intros tmp Htmp. assert (∀ q, under tmp q → store_files f q) as Hu.
    { intros q Hq. right. left. eauto. }
    apply keeps_bind; [apply keeps_try|].
    + apply keeps_bind; [by apply keeps_WriteFile, Hu|]. intros _.
      apply keeps_bind; [apply keeps_syscall|]. intros _. apply keeps_bind; [apply keeps_syscall|]. intros _.
      apply keeps_Rename; [done|by left].
    + intros [[]|e]; [frame|]. apply keeps_bind; [|frame]. by apply keeps_ignore, keeps_Remove, Hu.
Qed.

Definition replaced_text (text : content) (w : world) (r : result error unit) (w' : world) : Prop :=
  old_or_new f text (wtree w) (wtree w') ∧ (r = Ok tt → text_at (wtree w') p = text).

Lemma wp_syscall (Q : result error unit → world → Prop) w :
  (∀ r n, Q r (mkWorld (wtree w) n)) → wp syscall Q w.
Proof. intros HQ. unfold wp, syscall, write_step. destruct (fault (tick w)); apply HQ. Qed.

(** The last part, once the temporary file holds the text. *)
Lemma wp_finish_temp text tmp w w3 r :
  temp_like f tmp → replaced_text text w r w3 → wf_tree (wtree w3) →
  wp (match r with Ok _ => mret tt | Err e => ignore (Remove tmp);; throw e end)
    (replaced_text text w) w3.
Proof.
  intros Htl Ho Hw3. destruct r as [[]|e]; [by apply wp_ret|]. apply wp_bind, wp_ignore.
  eapply wp_mono; [apply (doc_same (Remove tmp)); [|done]|].
  - apply keeps_Remove. left. by exists tmp.
  - intros r w4 (_ & _ & E4). apply wp_throw. destruct Ho as [Ho _]. split; [|done].
    unfold old_or_new in Ho |- *. fold p in Ho |- *. by rewrite E4.
Qed.

Lemma wp_rename_temp text tmp z w (Q : result error unit → world → Prop) w3 :
  tmp ≠ p → wf_tree (wtree w3) → wtree w3 !! tmp = Some (File text z) →
  old_or_new f text (wtree w) (wtree w3) →
  (∀ r w', wf_tree (wtree w') → replaced_text text w r w' → Q r w') → wp (Rename tmp p) Q w3.
Proof.
  intros Hne Hwf3 Hz Ho HQ. apply wp_wf; [apply preserves_Rename|done|].
  apply wp_Rename; [intros e n _ Hw; by apply HQ|]. intros r t' n Hok Hr Hw. apply HQ; [done|].
  apply fs_rename_ok in Hok as (_ & _ & [[? _]|(Hnu & -> & Hd)]); [done|].
  assert (wtree w3 !! p ≠ Some Dir) as Hnd.
  { intros Hdir. destruct Hd as [?|[[_ ?]|[(? & ? & ?) _]]]; congruence. }
  assert (text_at (move (wtree w3) tmp p) p = text) as Hnew.
  { unfold text_at. by rewrite (move_temp _ _ _ text z), decide_True. }
  split; [by right|done].
Qed.

Lemma wp_WriteTextFileAtomic text w :
  wf_tree (wtree w) →
  wp (WriteTextFileAtomic p (tempPrefix f) (tempSuffix f) text) (replaced_text text w) w.
Proof.
  intros Hwf. apply wp_bind. eapply wp_mono; [apply (doc_same (MkdirAll dir)); [by apply keeps_MkdirAll|done]|].
  intros [[]|e] w1 (Hwf1 & _ & E1); [|by split; [left|]].
  apply wp_bind. eapply wp_mono; [apply wp_conj; [apply (doc_same _ _ keeps_CreateTemp Hwf1)|apply wp_create_temp]|].
  intros [tmp|e] w2 [(Hwf2 & _ & E2) Htmp]; [|by split; [left; fold p; rewrite E2|]].
  destruct (Htmp tmp eq_refl) as (x & c & z & Et & Hc). clear Htmp.
  assert (temp_like f tmp) as Htl by (by exists x).
  assert (tmp ≠ p) as Hne by (intros ->; by apply (temp_ne p Htl)).
  assert (∀ e w', text_at (wtree w') p = text_at (wtree w2) p → replaced_text text w (Err e) w') as Hold.
  { intros e w' E. split; [left; fold p; congruence|done]. }
  apply wp_bind, wp_try, wp_bind.
  eapply wp_mono; [apply wp_conj; [apply (doc_same (WriteFile tmp text)); [|done]|]|].
  { apply keeps_WriteFile. left. by exists tmp. }
  { apply (wp_WriteFile tmp text (λ r w3, r = Ok tt → ∃ z, wtree w3 !! tmp = Some (File text z))); [done|].
    intros r c' z' n _ _ _ Hr ->. exists z'. simpl. rewrite lookup_insert_eq. by destruct Hr as [[_ ->]|]. }
  intros [[]|e] w3 [(Hwf3 & _ & E3) Hw3]; [|apply (wp_finish_temp text tmp w w3 (Err e)); auto].
  destruct (Hw3 eq_refl) as [z3 Hz3].
  apply wp_bind, wp_syscall. intros [[]|e] n4; [|apply (wp_finish_temp text tmp w _ (Err e)); auto].
  apply wp_bind, wp_syscall. intros [[]|e] n5; [|apply (wp_finish_temp text tmp w _ (Err e)); auto].
  apply (wp_rename_temp text tmp z3 w); [done|done|done|left; fold p; simpl; congruence|].
  intros r w' Hw' Hr. by apply (wp_finish_temp text tmp w w' r).
Qed.

(** ** The store as an atomic cell *)
Section cell.
Context {T : Type} (parse : content → T) (serialize : T → result error content).

(** The documents a store handles: [parse] yields them, what [serialize]
    writes reads back, and different documents have different texts. *)
Class Codec (good : T → Prop) : Prop := {
  cd_good c : good (parse c);
  cd_back d c : good d → serialize d = Ok c → parse c = d;
  cd_inj d d' c c' : good d → good d' → serialize d = Ok c → serialize d' = Ok c' →
    content_bytes c = content_bytes c' → d = d';
}.

Definition cell (t : tree) : T := parse (text_at t p).

Record mutated (fn : T → T) (t : tree) (r : result error T) (t' : tree) : Prop := {
  mu_wf : wf_tree t';
  mu_elsewhere : touched (store_files f) (store_dirs f) t t';
  mu_atomic : text_at t' p = text_at t p ∨ serialize (fn (cell t)) = Ok (text_at t' p);
  mu_ok d : r = Ok d → d = fn (cell t) ∧ cell t' = fn (cell t);
}.

Lemma keeps_Mutate fn : keeps (store_files f) (store_dirs f) (Mutate parse serialize f fn).
Proof.
  unfold Mutate. case_decide; [frame|].
  apply keeps_bind; [apply keeps_aside, keeps_lock|]. intros _.
  apply keeps_bind; [apply keeps_ReadTextFile|]. intros raw. cbv zeta.
  apply keeps_bind; [frame|]. intros c1. apply keeps_bind; [frame|]. intros c2.
  case_decide; [frame|]. apply keeps_bind; [frame|]. intros _.
  apply keeps_bind; [apply keeps_WriteTextFileAtomic|]. intros _. frame.
Qed.

Lemma wp_Mutate `{!Codec good} fn w :
  (∀ d, good d → good (fn d)) → wf_tree (wtree w) →
  wp (Mutate parse serialize f fn) (λ r w', mutated fn (wtree w) r (wtree w')) w.
Proof.
  intros Hfn Hwf. set (d := cell (wtree w)).
  assert (wp (Mutate parse serialize f fn) (λ r w',
    (text_at (wtree w') p = text_at (wtree w) p ∨ serialize (fn d) = Ok (text_at (wtree w') p)) ∧
    ∀ d', r = Ok d' → d' = fn d ∧ cell (wtree w') = fn d) w) as Hwp.
  2: { eapply wp_mono; [apply wp_conj; [exact Hwp|apply keeps_wp; [apply keeps_Mutate|done]]|].
       intros r w' [[Ha Hr] [Hw' Ht]]. by split. }
  unfold Mutate. rewrite decide_False by apply Hf. apply wp_bind.
  eapply wp_mono; [apply doc_same; [apply keeps_lock|done]|].
  intros [[]|e] w1 (Hwf1 & _ & E1); [|by split; [left|]].
  apply wp_bind, wp_ReadTextFile; [done|by split; [left|]|]. intros n. cbv zeta. fold p.
  rewrite E1. fold (cell (wtree w)). fold d.
  assert (good d) as Hg by apply cd_good.
  assert (good (fn d)) as Hg' by auto.
  apply wp_bind, wp_of_result. destruct (serialize d) as [c1|e] eqn:S1; [|by split; [left|]].
  apply wp_bind, wp_of_result. destruct (serialize (fn d)) as [c2|e] eqn:S2; [|by split; [left|]].
  case_decide as Hsame.
  { apply wp_ret. split; [by left|]. intros d' [= <-]. split; [done|]. unfold cell. simpl. rewrite E1.
    change (d = fn d). by eapply cd_inj. }
  apply wp_bind, wp_guard; intros _; [by split; [left|]|].
  apply wp_bind. eapply wp_mono; [by apply wp_WriteTextFileAtomic|].
  intros r w2 [Ho Hr]. unfold old_or_new in Ho. simpl in Ho. fold p in Ho. rewrite E1 in Ho.
  assert (text_at (wtree w2) p = text_at (wtree w) p ∨ @Ok error _ c2 = Ok (text_at (wtree w2) p)) as Ho'
    by (destruct Ho as [?| ->]; auto).
  destruct r as [[]|e]; [|by split].
  apply wp_ret. split; [done|]. intros d' [= <-]. split; [done|]. unfold cell. rewrite (Hr eq_refl).
  by apply cd_back.
Qed.
End cell.
End spec.

Section claims.
Context `{Machine, HostEnv}.
(** Claim C23: a store of documents is an atomic cell. Whatever fails and
    wherever (the lock, the disk, a document too large), [Mutate] leaves on
    disk either the document that was there or all of the next one, and
    touches nothing but the document, its temporary siblings, its lock and the
    directories on the way; a success returns the function's value on the
    document that was there and the file now reads as it. *)
Theorem Mutate_refines (f : LockedFile) {T : Type} (parse : content → T)
    (serialize : T → result error content) (good : T → Prop) (fn : T → T) w :
  well_named f → Codec parse serialize good → (∀ d, good d → good (fn d)) → wf_tree (wtree w) →
  wp (Mutate parse serialize f fn)
    (λ r w', mutated f parse serialize fn (wtree w) r (wtree w')) w.
Proof. intros Hf Hc. by apply wp_Mutate. Qed.
End claims.
(** Documents written as JSON trees of their own make such a store. *)
Lemma json_codec `{Machine, !Documents.JsonText} {T : Type} (parse : content → T) (encode : T → json) (good : T → Prop)
    (refused : error) :
  let serialize d := if Documents.printable (encode d) then Ok (Doc (encode d)) else Err refused in
  (∀ c, good (parse c)) → (∀ d c, good d → serialize d = Ok c → parse c = d) → Codec parse serialize good.
Proof.
  intros serialize Hgood Hback. split; [done|done|]. unfold serialize in *.
  intros d d' c c' Hd Hd' Hc Hc' Hb. rewrite <-(Hback d c), <-(Hback d' c') by done.
  destruct (Documents.printable (encode d)) eqn:P, (Documents.printable (encode d')) eqn:P'; try done.
  injection Hc as <-. injection Hc' as <-. by rewrite (Documents.doc_text_inj _ _ P P' Hb).
Qed.

End LockedFile.
