(* ===== verification/ReadingProgress.v ===== *)
(** * Reading progress: [src/internal/readingprogress] and [src/internal/readingclose]

    Where a reader left off, per shelf and book, as a document every reader
    of the machine shares. [Parse] yields only well-formed documents,
    whatever the file holds; [MergeNewest] and [Project] are pointwise the
    newest entry; a stager persists what a closing window has staged. *)

From S2P Require Import Prelude Utf8 Strings Float64 Json Fs FsSpec Atomic BookMeta Source Frame Documents LockedFile.

Module ReadingProgress.
Import Documents LockedFile.

Definition DocumentVersion : Z := 2.
Definition ReaderShelfID : bytes := str "book".
Definition maxSafeInteger : Z := 2 ^ 53 - 1.

(** [type Entry] and [type Document] *)
Record Entry := mkEntry { Offset : Z; At : Z }.
#[export] Instance Entry_eq_dec : EqDecision Entry.
Proof. solve_decision. Defined.
Record Document := mkDocument { Version : Z; Shelves : gmap bytes (gmap bytes Entry) }.
Definition New : Document := mkDocument DocumentVersion ∅.

(** [func normalizeNumber] and [normalizeEntry]; [math.Trunc] of a float in
    range is the float of its integer part. *)
Definition normalizeNumber (value : F64.float64) : option Z :=
  if F64.is_nan value then None else
  if F64.ltb value F64.zero || F64.ltb (F64.of_int maxSafeInteger) value then None else
  match F64.trunc value with
  | Some z => if F64.eqb value (F64.of_int z) then Some z else None
  | None => None
  end.
Definition normalizeEntry (offset at_ : F64.float64) : option Entry :=
  match normalizeNumber offset with
  | None => None
  | Some normalizedOffset =>
      let normalizedAt := default 0%Z (normalizeNumber at_) in
      if decide (normalizedOffset = 0 ∧ normalizedAt = 0)%Z then None
      else Some (mkEntry normalizedOffset normalizedAt)
  end.

(** The shape [json.Unmarshal] reads the document into. *)
Definition dec_entry (j : json) : option (F64.float64 * F64.float64) :=
  l ← Json.dec_object j;
  offset ← Json.dec_float (Json.member (str "offset") l);
  at_ ← Json.dec_float (Json.member (str "at") l);
  Some (offset, at_).
Definition dec_raw (j : json) : option (Z * gmap bytes (gmap bytes (F64.float64 * F64.float64))) :=
  l ← Json.dec_object j;
  version ← Json.dec_int (Json.member (str "version") l);
  shelves ← Json.dec_map (Json.dec_map dec_entry) (Json.member (str "shelves") l);
  Some (version, shelves).

Section parse.
Context `{MapOrder}.

(** [func Parse]: its two loops, in the order the maps are ranged over. *)
Definition parse_books (books : gmap bytes (F64.float64 * F64.float64)) : gmap bytes Entry :=
  foldl (λ normalized x,
    let trimmedID := TrimSpace x.1 in
    match normalizeEntry x.2.1 x.2.2 with
    | Some value => if decide (trimmedID ≠ []) then <[trimmedID := value]> normalized else normalized
    | None => normalized
    end) ∅ (map_range books).
Definition parse_shelves (shelves : gmap bytes (gmap bytes (F64.float64 * F64.float64))) :
    gmap bytes (gmap bytes Entry) :=
  foldl (λ out x,
    let trimmedKey := TrimSpace x.1 in
    if decide (trimmedKey = []) then out else
    let normalized := parse_books x.2 in
    if decide (normalized = ∅) then out else <[trimmedKey := normalized]> out) ∅ (map_range shelves).
Definition Parse (text : content) : Document :=
  if blank text then New else
  match unmarshal dec_raw text with
  | None => New
  | Some (version, shelves) =>
      if decide (version ≠ DocumentVersion) then New
      else mkDocument DocumentVersion (parse_shelves shelves)
  end.

(** [func ParseStrict]: the model's [Doc] is the valid JSON. *)
Definition ParseStrict (text : content) : result error Document :=
  match text with
  | Raw _ => if blank text then Ok (Parse text) else Err (Msg "reading progress document is not valid JSON")
  | Doc j => if Json.unique_names j then Ok (Parse text)
             else Err (Msg "reading progress document is not valid JSON")
  end.
End parse.

(** [func Serialize] *)
Definition enc_entry (e : Entry) : json :=
  JObj [(str "offset", JInt (Offset e)); (str "at", JInt (At e))].
Definition encode (doc : Document) : json :=
  JObj [(str "version", JInt (if decide (Version doc = 0%Z) then DocumentVersion else Version doc));
        (str "shelves", enc_map (enc_map enc_entry) (Shelves doc))].
Definition Serialize (doc : Document) : result error content :=
  if printable (encode doc) then Ok (Doc (encode doc)) else Err (Msg "invalid UTF-8").

(** [func (d Document) Clone] *)
Definition Clone (d : Document) : Document :=
  mkDocument (if decide (Version d = 0%Z) then DocumentVersion else Version d) (Shelves d).

(** One entry of a merge: it goes in unless what is there is newer. *)
Definition put_newest (bookID : bytes) (e : Entry) (dst : gmap bytes Entry) : gmap bytes Entry :=
  match dst !! bookID with
  | Some cur => if decide (At cur ≤ At e)%Z then <[bookID := e]> dst else dst
  | None => <[bookID := e]> dst
  end.

Section merge.
Context `{MapOrder}.

(** [func Project] *)
Definition project_book (readerShelfID : bytes) (resolve : bytes → option bytes)
    (shelves : gmap bytes (gmap bytes Entry)) (x : bytes * Entry) : gmap bytes (gmap bytes Entry) :=
  match resolve x.1 with
  | None => shelves
  | Some real =>
      let real := TrimSpace real in
      if decide (real = [] ∨ real = readerShelfID) then shelves else
      <[real := put_newest x.1 x.2 (default ∅ (shelves !! real))]> shelves
  end.
Definition Project (doc : Document) (readerShelfID : bytes) (resolve : option (bytes → option bytes)) :
    Document :=
  let out := Clone doc in
  let readerShelfID := TrimSpace readerShelfID in
  let readerBooks := default ∅ (Shelves out !! readerShelfID) in
  match resolve with
  | None => out
  | Some resolve =>
      if decide (readerShelfID = [] ∨ readerBooks = ∅) then out else
      mkDocument (Version out)
        (foldl (project_book readerShelfID resolve) (Shelves out) (map_range readerBooks))
  end.

(** [func MergeNewest] *)
Definition merge_books (books dst : gmap bytes Entry) : gmap bytes Entry :=
  foldl (λ dst x, let bookID := TrimSpace x.1 in
                  if decide (bookID = []) then dst else put_newest bookID x.2 dst) dst (map_range books).
Definition MergeNewest (disk write : Document) : Document :=
  let out := Clone disk in
  mkDocument (Version out)
    (foldl (λ shelves x,
      let shelfKey := TrimSpace x.1 in
      if decide (shelfKey = [] ∨ x.2 = ∅) then shelves
      else <[shelfKey := merge_books x.2 (default ∅ (shelves !! shelfKey))]> shelves)
      (Shelves out) (map_range (Shelves write))).
End merge.

(** ** Well-formed documents *)
Definition safe (z : Z) : Prop := (0 ≤ z ≤ maxSafeInteger)%Z.
Definition entry_ok (e : Entry) : Prop :=
  safe (Offset e) ∧ safe (At e) ∧ ¬ (Offset e = 0 ∧ At e = 0)%Z.
Definition books_ok (m : gmap bytes Entry) : Prop := map_Forall (λ id e, trimmed id ∧ entry_ok e) m.
Record normal (d : Document) : Prop := {
  no_version : Version d = DocumentVersion;
  no_shelves : map_Forall (λ s m, trimmed s ∧ m ≠ ∅ ∧ books_ok m) (Shelves d);
}.

Lemma normalizeNumber_safe f z : normalizeNumber f = Some z → safe z.
Proof.
  unfold normalizeNumber, safe, maxSafeInteger. destruct (F64.is_nan f); [done|].
  destruct (_ || _) eqn:Hb; [done|]. apply orb_false_elim in Hb as [Hl Hu].
  destruct (F64.trunc f) as [z'|] eqn:Ht; [|done]. destruct (F64.eqb f (F64.of_int z')) eqn:He; [|done].
  intros [= <-]. by apply (F64.trunc_bound (2 ^ 53 - 1) f).
Qed.

Lemma normalizeEntry_ok off at_ e : normalizeEntry off at_ = Some e → entry_ok e.
Proof.
  unfold normalizeEntry. destruct (normalizeNumber off) as [o|] eqn:Ho; [|done].
  case_decide as Hz; [done|]. intros [= <-]. split; [by eapply normalizeNumber_safe|]. split; [|done]. simpl.
  destruct (normalizeNumber at_) as [a|] eqn:Ha; [by eapply normalizeNumber_safe|].
  unfold safe, maxSafeInteger. simpl. lia.
Qed.

Lemma normalizeNumber_int z : safe z → normalizeNumber (F64.of_int z) = Some z.
Proof.
  unfold safe, maxSafeInteger. intros Hz. unfold normalizeNumber.
  rewrite F64.of_int_not_nan by lia. change F64.zero with (F64.of_int 0).
  rewrite !F64.ltb_of_int by (unfold maxSafeInteger; lia).
  rewrite (proj2 (Z.ltb_ge z 0)), (proj2 (Z.ltb_ge _ z)) by (unfold maxSafeInteger; lia). simpl.
  rewrite F64.trunc_of_int by lia. by rewrite F64.eqb_refl by (apply F64.of_int_not_nan; lia).
Qed.

Lemma normalizeEntry_int e : entry_ok e →
  normalizeEntry (F64.of_int (Offset e)) (F64.of_int (At e)) = Some e.
Proof.
  intros (Ho & Ha & Hn). unfold normalizeEntry. rewrite !normalizeNumber_int by done. simpl.
  rewrite decide_False by done. by destruct e.
Qed.

Section laws.
Context `{MapOrderLaws}.

Lemma parse_books_ok books : books_ok (parse_books books).
Proof.
  unfold parse_books. apply foldl_map_Forall; [apply map_Forall_empty|].
  intros acc x Hacc. cbv zeta. destruct (normalizeEntry x.2.1 x.2.2) as [e|] eqn:E; [|done].
  case_decide; [|done]. apply map_Forall_insert_2; [|done].
  split; [by apply trimmed_TrimSpace|by eapply normalizeEntry_ok].
Qed.

Lemma Parse_normal text : normal (Parse text).
Proof.
  assert (normal New) as Hn by (split; [done|apply map_Forall_empty]).
  unfold Parse. destruct (blank text); [done|]. destruct (unmarshal _ _) as [[v m]|]; [|done].
  case_decide; [done|]. split; [done|]. simpl. unfold parse_shelves.
  apply foldl_map_Forall; [apply map_Forall_empty|]. intros acc x Hacc. cbv zeta.
  case_decide; [done|]. case_decide; [done|]. apply map_Forall_insert_2; [|done].
  split; [by apply trimmed_TrimSpace|]. split; [done|apply parse_books_ok].
Qed.

(** ** Round trip *)
Definition raw_entry (e : Entry) : F64.float64 * F64.float64 := (F64.of_int (Offset e), F64.of_int (At e)).

Lemma dec_enc_entry e : entry_ok e → dec_entry (enc_entry e) = Some (raw_entry e).
Proof.
  intros (Ho & Ha & _). unfold safe, maxSafeInteger in *. unfold dec_entry, enc_entry.
  cbn [Json.dec_object mbind option_bind].
  change (Json.member (str "offset") _) with (JInt (Offset e)).
  change (Json.member (str "at") _) with (JInt (At e)). by rewrite !Json.dec_float_int by lia.
Qed.

Lemma parse_books_back m : books_ok m → parse_books (raw_entry <$> m) = m.
Proof.
  intros Hm. apply map_eq. intros k. unfold parse_books.
  rewrite (foldl_range (λ _ x _, Some (mkEntry (default 0%Z (normalizeNumber x.1)) (default 0%Z (normalizeNumber x.2))))).
  - rewrite lookup_fmap. destruct (m !! k) as [e|] eqn:E; [|done]. simpl.
    destruct (Hm k e E) as (_ & Ho & Ha & _). rewrite !normalizeNumber_int by done. by destruct e.
  - intros k' a Ha. rewrite lookup_fmap in Ha. destruct (m !! k') as [e|] eqn:E; [|done].
    injection Ha as <-. destruct (Hm k' e E) as ([Htr Hne] & He). intros acc k2. cbv zeta. simpl.
    rewrite normalizeEntry_int by done. rewrite Htr, decide_True by done.
    destruct He as (Ho & Ha & _). rewrite !normalizeNumber_int by done.
    case_decide as Hk; [subst; rewrite lookup_insert_eq; by destruct e|by rewrite lookup_insert_ne].
Qed.

Lemma parse_shelves_back m : map_Forall (λ s b, trimmed s ∧ b ≠ ∅ ∧ books_ok b) m →
  parse_shelves ((fmap raw_entry : gmap bytes Entry → gmap bytes _) <$> m) = m.
Proof.
  intros Hm. apply map_eq. intros k. unfold parse_shelves.
  rewrite (foldl_range (λ _ x _, Some (parse_books x))).
  - rewrite lookup_fmap. destruct (m !! k) as [b|] eqn:E; [|done]. simpl.
    destruct (Hm k b E) as (_ & _ & Hb). by rewrite parse_books_back.
  - intros k' a Ha. rewrite lookup_fmap in Ha. destruct (m !! k') as [b|] eqn:E; [|done].
    injection Ha as <-. destruct (Hm k' b E) as ([Htr Hne] & Hb & Hok). intros acc k2. cbv zeta. simpl.
    rewrite Htr, decide_False by done. rewrite parse_books_back by done. rewrite decide_False by done.
    case_decide as Hk; [subst; by rewrite lookup_insert_eq|by rewrite lookup_insert_ne].
Qed.

Lemma dec_raw_encode d : normal d →
  dec_raw (encode d) =
  Some (DocumentVersion, (fmap raw_entry : gmap bytes Entry → gmap bytes _) <$> Shelves d).
Proof.
  intros [Hv Hs]. unfold dec_raw, encode. rewrite Hv.
  assert (Json.dec_map (Json.dec_map dec_entry) (enc_map (enc_map enc_entry) (Shelves d)) =
    Some ((fmap raw_entry : gmap bytes Entry → gmap bytes _) <$> Shelves d)) as Hm.
  { apply dec_enc_map. intros k a Ha. apply dec_enc_map. intros id e He. apply dec_enc_entry.
    by destruct (Hs k a Ha) as (_ & _ & Hb), (Hb id e He). }
  cbn [Json.dec_object mbind option_bind].
  change (Json.member (str "shelves") _) with (enc_map (enc_map enc_entry) (Shelves d)).
  rewrite Hm. reflexivity.
Qed.

Lemma unique_encode d : Json.unique_names (encode d) = true.
Proof.
  apply unique_obj; [by vm_compute|]. repeat constructor. apply unique_enc_map. intros k a _.
  by apply unique_enc_map.
Qed.

Lemma Parse_Serialize d c : normal d → Serialize d = Ok c → Parse c = d.
Proof.
  intros Hn. pose proof Hn as [Hv Hs]. unfold Serialize. destruct (printable _); [|done]. intros [= <-].
  unfold Parse. cbn [blank]. unfold unmarshal. rewrite unique_encode, dec_raw_encode by done.
  rewrite decide_False by tauto. rewrite parse_shelves_back by done. destruct d. simpl in *. by rewrite Hv.
Qed.

#[export] Instance progress_codec `{JsonText} : Codec Parse Serialize normal.
Proof. apply (json_codec Parse encode normal); [apply Parse_normal|apply Parse_Serialize]. Qed.
(** ** Merging *)
Definition entry_at (d : Document) (s id : bytes) : option Entry := m ← Shelves d !! s; m !! id.

(** The newer of two entries, the second on a tie. *)
Definition newest (a b : option Entry) : option Entry :=
  match a, b with
  | Some cur, Some e => if decide (At cur ≤ At e)%Z then Some e else Some cur
  | None, _ => b
  | _, None => a
  end.

Lemma newest_None a : newest a None = a.
Proof. by destruct a. Qed.

Lemma put_newest_lookup id e dst k :
  put_newest id e dst !! k = if decide (id = k) then newest (dst !! k) (Some e) else dst !! k.
Proof.
  unfold put_newest. case_decide as Hk; [subst|].
  - destruct (dst !! k) as [cur|] eqn:E; simpl; [|by rewrite lookup_insert_eq].
    case_decide; [by rewrite lookup_insert_eq|done].
  - destruct (dst !! id) as [cur|]; [case_decide; [|done]|]; by rewrite lookup_insert_ne.
Qed.

Definition trimmed_keys {A : Type} (m : gmap bytes A) : Prop := map_Forall (λ k _, trimmed k) m.

Lemma merge_books_lookup books dst k : trimmed_keys books →
  merge_books books dst !! k = newest (dst !! k) (books !! k).
Proof.
  intros Ht. unfold merge_books. rewrite (foldl_range (λ _ e o, newest o (Some e))).
  - destruct (books !! k); [done|]. by destruct (dst !! k).
  - intros k' e He acc k2. destruct (Ht k' e He) as [Htr Hne]. cbv zeta. simpl.
    rewrite Htr, decide_False by done. apply put_newest_lookup.
Qed.

Lemma merge_entries disk write s id :
  map_Forall (λ s m, trimmed s ∧ trimmed_keys m) (Shelves write) →
  entry_at (MergeNewest disk write) s id = newest (entry_at disk s id) (entry_at write s id).
Proof.
  intros Hw. unfold MergeNewest, entry_at. cbv zeta. simpl.
  rewrite (foldl_range (λ _ m o, if decide (m = ∅) then o else Some (merge_books m (default ∅ o)))).
  - destruct (Shelves write !! s) as [m|] eqn:Em; simpl.
    + destruct (Hw s m Em) as [_ Hm]. case_decide as Hz.
      { subst. rewrite lookup_empty, newest_None. done. }
      simpl. rewrite merge_books_lookup by done. destruct (Shelves disk !! s); [done|].
      simpl. by rewrite lookup_empty.
    + by rewrite newest_None.
  - intros k m Hk acc k2. destruct (Hw k m Hk) as [[Htr Hne] _]. cbv zeta. simpl. rewrite Htr.
    destruct (decide (m = ∅)) as [->|Hm].
    { rewrite decide_True by auto. by case_decide; [subst|]. }
    rewrite decide_False by tauto. case_decide; [subst; by rewrite lookup_insert_eq|by rewrite lookup_insert_ne].
Qed.

Lemma normal_keys d : normal d → map_Forall (λ s m, trimmed s ∧ trimmed_keys m) (Shelves d).
Proof.
  intros [_ Hs] s m Hm. destruct (Hs s m Hm) as (Ht & _ & Hb). split; [done|].
  intros id e He. by destruct (Hb id e He).
Qed.

Lemma newest_ok a b e : (∀ x, a = Some x → entry_ok x) → (∀ x, b = Some x → entry_ok x) →
  newest a b = Some e → entry_ok e.
Proof. destruct a as [x|], b as [y|]; simpl; try case_decide; naive_solver. Qed.

Lemma merge_normal disk write : normal disk → normal write → normal (MergeNewest disk write).
Proof.
  intros Hd Hw. pose proof (normal_keys _ Hw) as Hk. destruct Hd as [Hdv Hds], Hw as [Hwv Hws].
  split; [simpl; rewrite Hdv; by rewrite decide_False|].
  assert (∀ s m, Shelves (MergeNewest disk write) !! s = Some m →
    Shelves disk !! s = Some m ∨ ∃ b, Shelves write !! s = Some b ∧ b ≠ ∅ ∧
      m = merge_books b (default ∅ (Shelves disk !! s))) as Hcase.
  { intros s m. unfold MergeNewest. cbv zeta. simpl.
    rewrite (foldl_range (λ _ m o, if decide (m = ∅) then o else Some (merge_books m (default ∅ o)))).
    - destruct (Shelves write !! s) as [b|] eqn:Eb; [|by left]. case_decide; [by left|].
      intros [= <-]. right. eauto.
    - intros k b Hkb acc k2. destruct (Hk k b Hkb) as [[Htr Hne] _]. cbv zeta. simpl. rewrite Htr.
      destruct (decide (b = ∅)) as [->|Hm].
      { rewrite decide_True by auto. by case_decide; [subst|]. }
      rewrite decide_False by tauto. case_decide; [subst; by rewrite lookup_insert_eq|by rewrite lookup_insert_ne]. }
  intros s m [Hm|(b & Hb & Hne & ->)]%Hcase; [by apply (Hds s m)|].
  destruct (Hws s b Hb) as (Ht & _ & Hbok), (Hk s b Hb) as [_ Hbk]. split; [done|].
  assert (∀ id, merge_books b (default ∅ (Shelves disk !! s)) !! id =
    newest (default ∅ (Shelves disk !! s) !! id) (b !! id)) as Hl by (intros id; by apply merge_books_lookup).
  assert (books_ok (default ∅ (Shelves disk !! s))) as Hdok.
  { destruct (Shelves disk !! s) as [c|] eqn:Ec; [by apply (Hds s c)|apply map_Forall_empty]. }
  split.
  - intros E. apply map_choose in Hne as (id & e & He). specialize (Hl id). rewrite E, lookup_empty, He in Hl.
    destruct (default ∅ (Shelves disk !! s) !! id); simpl in Hl; [by case_decide|done].
  - intros id e He. rewrite Hl in He. split.
    + destruct (b !! id) eqn:Eb; [by destruct (Hbok _ _ Eb)|].
      destruct (default ∅ (Shelves disk !! s) !! id) eqn:Ed; [by destruct (Hdok _ _ Ed)|done].
    + eapply newest_ok, He; [intros x Hx; by apply (Hdok id)|intros x Hx; by apply (Hbok id)].
Qed.

(** merging progress never loses a newer position. Whatever the
    order in which the maps are ranged over, a merge with a well-formed
    document holds for every book of every shelf the newer of the two entries,
    the incoming one on a tie, and nothing else; merging the same document
    again changes nothing. *)
Theorem MergeNewest_newest disk write : normal write →
  (∀ s id, entry_at (MergeNewest disk write) s id = newest (entry_at disk s id) (entry_at write s id)) ∧
  (∀ s id, entry_at (MergeNewest (MergeNewest disk write) write) s id = entry_at (MergeNewest disk write) s id).
Proof.
  intros Hw%normal_keys. split; intros s id; rewrite ?merge_entries by done; [done|].
  destruct (entry_at disk s id) as [a|], (entry_at write s id) as [b|]; simpl; try done.
  - repeat (case_decide; simpl); try done; rewrite ?decide_True by lia; try done; lia.
  - by rewrite decide_True.
Qed.

End laws.

(** ** The stager: [readingclose.go] *)
Section stager.
Context `{MapOrder}.

(** [type Stager], its map. [Stage] with a nil receiver or an empty ID does
    nothing. *)
Definition Staged := gmap bytes (gmap bytes Entry).
Definition Stage (shelfID bookID : bytes) (offset at_ : Z) (staged : Staged) : Staged :=
  if decide (shelfID = [] ∨ bookID = []) then staged
  else <[shelfID := <[bookID := mkEntry offset at_]> (default ∅ (staged !! shelfID))]> staged.
(** [func (s *Stager) snapshot] *)
Definition snapshot (staged : Staged) : Document :=
  mkDocument DocumentVersion
    (filter (λ x : bytes * gmap bytes Entry, x.2 ≠ ∅) (staged : gmap bytes (gmap bytes Entry))).
(** [func (s *Stager) persist], of a stager that has a store; [PersistOnClose]
    runs it and waits for a limited time. *)
Definition persist `{Machine, HostEnv} (f : LockedFile) (staged : Staged) : M world unit :=
  let doc := snapshot staged in
  if decide (Shelves doc = ∅) then mret tt
  else ignore (Mutate Parse Serialize f (λ disk, MergeNewest disk doc)).

(** [func (s *Store) Read] and [Mutate] of [store.go] *)
Definition StoreRead `{Machine, HostEnv} (f : LockedFile) : M world (Document * content) :=
  raw ← Read f; mret (Parse raw, raw).
Definition StoreMutate `{Machine, HostEnv} (f : LockedFile) (fn : Document → Document) : M world Document :=
  Mutate Parse Serialize f fn.
End stager.

Section persisted.
Context `{MapOrderLaws, Machine, !JsonText, HostEnv}.

Lemma entry_snapshot (staged : gmap bytes (gmap bytes Entry)) s id :
  entry_at (snapshot staged) s id = staged !! s ≫= (.!! id).
Proof.
  unfold entry_at, snapshot. simpl. rewrite map_lookup_filter.
  destruct (staged !! s) as [m|]; [|done]. simpl. destruct (decide (m ≠ ∅)) as [Hm|Hm].
  - by rewrite option_guard_True.
  - rewrite option_guard_False by done. apply dec_stable in Hm. subst. by rewrite lookup_empty.
Qed.

(** closing a window never sets a reader back. Whatever fails while
    the staged progress is persisted, the progress file afterwards reads as
    the document that was there or as its merge with all of what was staged,
    book by book the newer position; nothing but that file, its lock and
    temporary siblings changes. *)
Theorem persist_keeps_newest (f : LockedFile) (staged : gmap bytes (gmap bytes Entry)) (w : world) :
  well_named f → normal (snapshot staged) → wf_tree (wtree w) →
  wp (persist f staged) (λ _ w',
    touched (store_files f) (store_dirs f) (wtree w) (wtree w') ∧
    let old := Parse (text_at (wtree w) (fpath f)) in
    let new := Parse (text_at (wtree w') (fpath f)) in
    new = old ∨ ∀ s id, entry_at new s id = newest (entry_at old s id) (staged !! s ≫= (.!! id))) w.
Proof.
  intros Hf Hn Hw. unfold persist. cbv zeta. case_decide.
  { apply wp_ret. split; [apply touched_refl|by left]. }
  apply wp_ignore. eapply wp_mono.
  { apply (wp_Mutate f Hf Parse Serialize (good := normal)); [|done]. intros d Hd. by apply merge_normal. }
  intros r w' [_ Ht Ha _]. split; [done|]. destruct Ha as [->|Ha]; [by left|right].
  intros s id. assert (normal (MergeNewest (Parse (text_at (wtree w) (fpath f))) (snapshot staged))) as Hm
    by (apply merge_normal; [apply Parse_normal|done]).
  rewrite (Parse_Serialize _ _ Hm Ha), merge_entries by (by apply normal_keys). by rewrite entry_snapshot.
Qed.
End persisted.
End ReadingProgress.
