(* ===== verification/ReadHistory.v ===== *)
(** * Read history: [src/internal/readhistory/readhistory.go]

    The most recently read books of each shelf, newest first. [Parse] yields
    only well-formed histories: a limit in range and, under every shelf, a
    list of different IDs that is not longer than the limit. Recording a book
    moves it to the front; [Project] hands the books of a reader over to the
    shelves they turned out to belong to. *)

From S2P Require Import Prelude Utf8 Strings Float64 Json Fs FsSpec Atomic BookMeta Source Frame Documents LockedFile.

Module ReadHistory.
Import Documents LockedFile.

Definition documentVersion : Z := 1.
Definition DefaultLimit : Z := 100.
Definition MaxInt32 : Z := 2 ^ 31 - 1.

(** [type Document] *)
Record Document := mkDocument { Version : Z; Limit : Z; Shelves : gmap bytes (list bytes) }.
Definition New : Document := mkDocument documentVersion DefaultLimit ∅.

(** [func normalizeLimit]; a float equals its [math.Trunc] when it equals the
    float of its integer part. *)
Definition normalizeLimit (limit : F64.float64) : Z :=
  match F64.trunc limit with
  | None => DefaultLimit
  | Some z =>
      if F64.ltb limit F64.zero || negb (F64.eqb limit (F64.of_int z)) then DefaultLimit
      else default 0%Z (F64.trunc (F64.fmin limit (F64.of_int MaxInt32)))
  end.
(** [func parseLimit]: [null] and a missing limit are [nil]. *)
Definition parseLimit (value : json) : Z :=
  match value with
  | JNull => DefaultLimit
  | _ => match Json.dec_float value with Some limit => normalizeLimit limit | None => DefaultLimit end
  end.

(** [func parseIDs]: its loop, with [seen] and the early end. *)
Fixpoint ids_loop (limit : Z) (entries : list json) (seen : gset bytes) (ids : list bytes) : list bytes :=
  match entries with
  | [] => ids
  | entry :: entries =>
      match Json.dec_string entry with
      | None => ids_loop limit entries seen ids
      | Some id =>
          let id := TrimSpace id in
          if decide (id = [] ∨ id ∈ seen) then ids_loop limit entries seen ids else
          let ids := ids ++ [id] in
          if decide (limit ≤ Z.of_nat (length ids))%Z then ids
          else ids_loop limit entries ({[id]} ∪ seen) ids
      end
  end.
Definition parseIDs (value : json) (limit : Z) : list bytes :=
  if decide (limit ≤ 0)%Z then [] else
  match Json.dec_list Some value with
  | None => []
  | Some entries => ids_loop limit entries ∅ []
  end.

(** [ids[:min(len(ids), limit)]] *)
Definition cut (limit : Z) (ids : list bytes) : list bytes :=
  take (Z.to_nat (Z.min (Z.of_nat (length ids)) limit)) ids.

Section order.
Context `{MapOrder}.

(** [func Parse] *)
Definition parse_step (limit : Z) (out : gmap bytes (list bytes)) (x : bytes * json) :
    gmap bytes (list bytes) :=
  let ids := parseIDs x.2 limit in if decide (ids = []) then out else <[x.1 := ids]> out.
Definition dec_raw (j : json) : option (F64.float64 * json * json) :=
  l ← Json.dec_object j;
  version ← Json.dec_float (Json.member (str "version") l);
  Some (version, Json.member (str "limit") l, Json.member (str "shelves") l).
Definition Parse (text : content) : Document :=
  if blank text then New else
  match unmarshal dec_raw text with
  | None => New
  | Some (version, limit, shelves) =>
      if negb (F64.eqb version (F64.of_int documentVersion)) then New else
      let limit := parseLimit limit in
      match Json.dec_map Some shelves with
      | None => mkDocument documentVersion limit ∅
      | Some shelves => mkDocument documentVersion limit (foldl (parse_step limit) ∅ (map_range shelves))
      end
  end.

(** [func withLimit]: the loop changes only the entry it visits. *)
Definition limit_step (limit : Z) (shelves : gmap bytes (list bytes)) (x : bytes * list bytes) :
    gmap bytes (list bytes) :=
  if decide (limit = 0)%Z then delete x.1 shelves else <[x.1 := cut limit x.2]> shelves.
Definition withLimit (limit : Z) (doc : Document) : Document :=
  let limit := normalizeLimit (F64.of_int limit) in
  mkDocument (Version doc) limit (foldl (limit_step limit) (Shelves doc) (map_range (Shelves doc))).
End order.

(** [func Serialize] *)
Definition encode (doc : Document) : json :=
  JObj [(str "version", JInt (Version doc)); (str "limit", JInt (Limit doc));
        (str "shelves", enc_map Json.enc_strings (Shelves doc))].
Definition Serialize (doc : Document) : result error content :=
  if printable (encode doc) then Ok (Doc (encode doc)) else Err (Msg "invalid UTF-8").

(** [func withEntry] and [withoutShelf] *)
Definition withEntry (shelfKey bookID : bytes) (doc : Document) : Document :=
  let bookID := TrimSpace bookID in
  if decide (bookID = [] ∨ (Limit doc ≤ 0)%Z) then doc else
  let ids := bookID :: filter (λ id, id ≠ bookID) (default [] (Shelves doc !! shelfKey)) in
  mkDocument (Version doc) (Limit doc) (<[shelfKey := cut (Limit doc) ids]> (Shelves doc)).
Definition withoutShelf (shelfKey : bytes) (doc : Document) : Document :=
  mkDocument (Version doc) (Limit doc) (delete shelfKey (Shelves doc)).

(** [func Project]: what its first loop gathers, and the loop over the
    targets. *)
Record Sorted := mkSorted { kept : list bytes; moved : gmap bytes (list bytes); targets : list bytes }.
Definition target_of (readerShelfID : bytes) (resolve : bytes → option bytes) (bookID : bytes) : option bytes :=
  match resolve bookID with
  | None => None
  | Some target =>
      let target := TrimSpace target in
      if decide (target = [] ∨ target = readerShelfID) then None else Some target
  end.
Definition sort_step (readerShelfID : bytes) (resolve : bytes → option bytes) (a : Sorted) (bookID : bytes) : Sorted :=
  match target_of readerShelfID resolve bookID with
  | None => mkSorted (kept a ++ [bookID]) (moved a) (targets a)
  | Some target =>
      mkSorted (kept a)
        (<[target := default [] (moved a !! target) ++ [bookID]]> (moved a))
        (match moved a !! target with None => targets a ++ [target] | Some _ => targets a end)
  end.
Definition move_step (doc : Document) (moved : gmap bytes (list bytes)) (out : gmap bytes (list bytes))
    (target : bytes) : gmap bytes (list bytes) :=
  let mine := default [] (moved !! target) in
  let ids := mine ++ filter (λ id, id ∉ mine) (default [] (Shelves doc !! target)) in
  <[target := cut (Limit doc) ids]> out.
Definition Project (readerShelfID : bytes) (resolve : option (bytes → option bytes)) (doc : Document) : Document :=
  let readerIDs := default [] (Shelves doc !! readerShelfID) in
  match resolve with
  | None => doc
  | Some resolve =>
      if decide (readerShelfID = [] ∨ readerIDs = []) then doc else
      let a := foldl (sort_step readerShelfID resolve) (mkSorted [] ∅ []) readerIDs in
      if decide (targets a = []) then doc else
      let out := foldl (move_step doc (moved a)) (Shelves doc) (targets a) in
      mkDocument (Version doc) (Limit doc)
        (if decide (kept a = []) then delete readerShelfID out else <[readerShelfID := kept a]> out)
  end.

(** The store: [Record], [Clear], [SetLimit] and [ProjectReader] *)
Section store.
Context `{MapOrder, Machine, HostEnv}.
Definition StoreRecord (f : LockedFile) (shelfKey bookID : bytes) : M world unit :=
  Mutate Parse Serialize f (withEntry shelfKey bookID);; mret tt.
Definition StoreClear (f : LockedFile) (shelfKey : bytes) : M world unit :=
  Mutate Parse Serialize f (withoutShelf shelfKey);; mret tt.
Definition StoreSetLimit (f : LockedFile) (limit : Z) : M world unit :=
  Mutate Parse Serialize f (withLimit limit);; mret tt.
Definition StoreProjectReader (f : LockedFile) (readerShelfID : bytes) (resolve : option (bytes → option bytes)) :
    M world content :=
  MutateIf Parse Serialize f (λ doc, bool_decide (default [] (Shelves doc !! readerShelfID) ≠ []))
    (Project readerShelfID resolve).
End store.

(** ** Well-formed histories *)
Record list_ok (limit : Z) (ids : list bytes) : Prop := {
  lo_some : ids ≠ [];
  lo_distinct : NoDup ids;
  lo_trimmed : Forall trimmed ids;
  lo_bound : (Z.of_nat (length ids) ≤ limit)%Z;
}.
Record normal (d : Document) : Prop := {
  no_version : Version d = documentVersion;
  no_limit : (0 ≤ Limit d ≤ MaxInt32)%Z;
  no_shelves : map_Forall (λ _ ids, list_ok (Limit d) ids) (Shelves d);
}.

Lemma normalizeLimit_range f : (0 ≤ normalizeLimit f ≤ MaxInt32)%Z.
Proof.
  unfold normalizeLimit. destruct (F64.trunc f) as [z|] eqn:Et; [|by vm_compute].
  destruct (_ || _) eqn:Eb; [by vm_compute|]. apply orb_false_elim in Eb as [Hneg Heq%negb_false_iff].
  rewrite F64.fmin_int by (by destruct f || (unfold MaxInt32; lia)).
  destruct (F64.ltb (F64.of_int MaxInt32) f) eqn:Hlt; [by vm_compute|]. rewrite Et.
  by eapply F64.trunc_bound.
Qed.

(** For the limits a caller passes: the limit, capped. *)
Lemma normalizeLimit_int z : (0 ≤ z < 2 ^ 53)%Z → normalizeLimit (F64.of_int z) = Z.min z MaxInt32.
Proof.
  intros Hz. unfold normalizeLimit. rewrite F64.trunc_of_int by done.
  change F64.zero with (F64.of_int 0). rewrite F64.ltb_of_int by lia.
  rewrite F64.eqb_refl by (by apply F64.of_int_not_nan). rewrite (proj2 (Z.ltb_ge z 0)) by lia. cbn [orb negb].
  rewrite F64.fmin_of_int by (unfold MaxInt32; lia). by rewrite F64.trunc_of_int by (unfold MaxInt32; lia).
Qed.

Lemma ids_loop_ok limit entries seen ids :
  (∀ x, x ∈ ids → x ∈ seen) → NoDup ids → Forall trimmed ids → (Z.of_nat (length ids) < limit)%Z →
  let out := ids_loop limit entries seen ids in
  NoDup out ∧ Forall trimmed out ∧ (Z.of_nat (length out) ≤ limit)%Z.
Proof.
  revert seen ids. induction entries as [|e es IH]; intros seen ids Hs Hn Ht Hl; simpl.
  { split; [done|split; [done|lia]]. }
  destruct (Json.dec_string e) as [id|]; [|by apply IH].
  case_decide as Hd; [by apply IH|]. assert (TrimSpace id ≠ [] ∧ TrimSpace id ∉ seen) as [Hne Hns] by tauto.
  assert (NoDup (ids ++ [TrimSpace id])) as Hn'.
  { apply NoDup_app. split; [done|]. split; [|apply NoDup_singleton].
    intros x Hx ->%list_elem_of_singleton. by apply Hns, Hs. }
  assert (Forall trimmed (ids ++ [TrimSpace id])) as Ht'.
  { apply Forall_app. split; [done|]. by apply Forall_singleton, trimmed_TrimSpace. }
  pose proof (length_app ids [TrimSpace id]) as Hlen. simpl in Hlen. case_decide as Hend.
  - split; [done|split; [done|lia]].
  - apply IH; [|done|done|lia].
    set_solver.
Qed.

Lemma parseIDs_ok value limit : parseIDs value limit ≠ [] → list_ok limit (parseIDs value limit).
Proof.
  unfold parseIDs. case_decide as Hl; [done|]. destruct (Json.dec_list _ _) as [es|]; [|done]. intros Hne.
  destruct (ids_loop_ok limit es ∅ []) as (? & ? & ?);
    [by intros x ?%elem_of_nil|constructor|constructor|simpl; lia|]. by split.
Qed.

Section laws.
Context `{MapOrderLaws}.

Lemma history_normal text : normal (Parse text).
Proof.
  assert (∀ limit m, (0 ≤ limit ≤ MaxInt32)%Z → map_Forall (λ _ ids, list_ok limit ids) m →
    normal (mkDocument documentVersion limit m)) as Hn by done.
  assert (normal New) as Hnew by (apply Hn; [by vm_compute|apply map_Forall_empty]).
  unfold Parse. destruct (blank text); [done|]. destruct (unmarshal _ _) as [[[v l] j]|]; [|done].
  case_match; [done|].
  assert (0 ≤ parseLimit l ≤ MaxInt32)%Z as Hl.
  { unfold parseLimit. assert (0 ≤ DefaultLimit ≤ MaxInt32)%Z by (unfold DefaultLimit, MaxInt32; lia).
    destruct l; [done|..]; (destruct (Json.dec_float _); [apply normalizeLimit_range|done]). }
  destruct (Json.dec_map _ _) as [m|]; [|apply Hn; [done|apply map_Forall_empty]]. apply Hn; [done|].
  apply foldl_map_Forall; [apply map_Forall_empty|]. intros acc x Hacc. unfold parse_step.
  case_decide; [done|]. apply map_Forall_insert_2; [by apply parseIDs_ok|done].
Qed.

(** ** Round trip *)
Lemma ids_loop_back limit l seen ids :
  (∀ x, x ∈ seen ↔ x ∈ ids) → NoDup (ids ++ l) → Forall trimmed l →
  (Z.of_nat (length (ids ++ l)) ≤ limit)%Z →
  ids_loop limit (JStr <$> l) seen ids = ids ++ l.
Proof.
  revert seen ids. induction l as [|x l IH]; intros seen ids Hs Hn Ht Hl; simpl; [by rewrite app_nil_r|].
  inversion Ht as [|? ? [Htr Hne] Ht']; subst. rewrite Htr.
  assert ((ids ++ x :: l) = (ids ++ [x]) ++ l) as E by (by rewrite <-app_assoc). rewrite E in *.
  rewrite decide_False.
  - case_decide as Hend.
    + destruct l; [by rewrite app_nil_r|]. rewrite length_app in Hl. simpl in Hl. lia.
    + apply IH; try done. set_solver.
  - intros [?|Hx%Hs]; [done|]. apply NoDup_app in Hn as (Hn & _). apply NoDup_app in Hn as (_ & Hn & _).
    by apply (Hn x Hx), list_elem_of_singleton.
Qed.

Lemma parseIDs_back limit ids : list_ok limit ids → parseIDs (Json.enc_strings ids) limit = ids.
Proof.
  intros [Hne Hn Ht Hl]. unfold parseIDs.
  rewrite decide_False by (destruct ids; [done|simpl in Hl; lia]). simpl.
  assert (∀ l : list json, mapM Some l = Some l) as Hm.
  { induction l as [|j l IH]; [done|]. simpl. by rewrite IH. }
  rewrite Hm. apply (ids_loop_back limit ids ∅ []); [set_solver|done..].
Qed.

Lemma dec_raw_history d : normal d →
  dec_raw (encode d) = Some (F64.of_int documentVersion, JInt (Limit d), enc_map Json.enc_strings (Shelves d)).
Proof. intros [Hv _ _]. unfold dec_raw, encode. by rewrite Hv. Qed.

Lemma unique_history d : Json.unique_names (encode d) = true.
Proof.
  apply unique_obj; [by vm_compute|]. repeat constructor. apply unique_enc_map. intros k a _. simpl.
  apply forallb_forall. intros j. rewrite <-list_elem_of_In, list_elem_of_fmap. by intros (? & -> & _).
Qed.

Lemma history_back d c : normal d → Serialize d = Ok c → Parse c = d.
Proof.
  intros Hn. pose proof Hn as [Hv Hl Hs]. unfold Serialize. destruct (printable _); [|done]. intros [= <-].
  unfold Parse. cbn [blank]. unfold unmarshal. rewrite unique_history, dec_raw_history by done. cbv beta iota.
  rewrite F64.eqb_refl by done. cbn [negb].
  assert (parseLimit (JInt (Limit d)) = Limit d) as ->.
  { unfold parseLimit, MaxInt32 in *. rewrite Json.dec_float_int by lia.
    rewrite normalizeLimit_int by lia. unfold MaxInt32. lia. }
  rewrite (dec_enc_map Some Json.enc_strings) by done.
  destruct d as [v l m]. simpl in *. subst v. f_equal. apply map_eq. intros k.
  rewrite (foldl_range (λ _ j o, if decide (parseIDs j l = []) then o else Some (parseIDs j l))).
  - rewrite lookup_fmap, lookup_empty. destruct (m !! k) as [ids|] eqn:Ek; [|done]. cbn [fmap option_fmap option_map].
    specialize (Hs k ids Ek). rewrite parseIDs_back by done. by rewrite decide_False by apply Hs.
  - intros k' j _ acc k2. unfold parse_step. simpl. case_decide; [by case_decide|].
    case_decide; [subst; by rewrite lookup_insert_eq|by rewrite lookup_insert_ne].
Qed.

#[export] Instance history_codec `{JsonText} : Codec Parse Serialize normal.
Proof. apply (json_codec Parse encode normal); [apply history_normal|apply history_back]. Qed.
End laws.

(** ** The operations *)
Lemma cut_ok limit ids : (0 < limit)%Z → NoDup ids → Forall trimmed ids → ids ≠ [] → list_ok limit (cut limit ids).
Proof.
  intros Hl Hn Ht Hne. unfold cut. set (n := Z.to_nat _).
  assert (0 < n)%nat as Hpos by (destruct ids; [done|unfold n; simpl; lia]). split.
  - destruct ids; [done|]. by destruct n; [lia|].
  - by apply (sublist_NoDup _ ids), sublist_take.
  - by apply Forall_take.
  - rewrite length_take. unfold n. lia.
Qed.
Lemma cut_all limit ids : (Z.of_nat (length ids) ≤ limit)%Z → cut limit ids = ids.
Proof. intros Hl. unfold cut. apply take_ge. lia. Qed.

Lemma Forall_filtered {A : Type} (P Q : A → Prop) `{∀ x, Decision (P x)} (l : list A) :
  Forall Q l → Forall Q (filter P l).
Proof. rewrite !Forall_forall. intros Hl x [_ Hx]%list_elem_of_filter. by apply Hl. Qed.

Definition listed (d : Document) (s : bytes) : list bytes := default [] (Shelves d !! s).

Lemma listed_ok d s : normal d →
  NoDup (listed d s) ∧ Forall trimmed (listed d s) ∧ (Z.of_nat (length (listed d s)) ≤ Limit d)%Z.
Proof.
  intros [_ Hl Hs]. unfold listed. destruct (Shelves d !! s) as [ids|] eqn:E; simpl.
  - by destruct (Hs s ids E).
  - split; [constructor|]. split; [constructor|lia].
Qed.

Lemma normal_insert d s ids : normal d → list_ok (Limit d) ids →
  normal (mkDocument (Version d) (Limit d) (<[s := ids]> (Shelves d))).
Proof. intros [Hv Hl Hs] Hi. split; [done|done|]. by apply map_Forall_insert_2. Qed.
Lemma normal_delete d s : normal d → normal (mkDocument (Version d) (Limit d) (delete s (Shelves d))).
Proof. intros [Hv Hl Hs]. split; [done|done|]. by apply map_Forall_delete. Qed.

Lemma recorded_ok d s b : normal d → trimmed b → (0 < Limit d)%Z →
  list_ok (Limit d) (cut (Limit d) (b :: filter (λ id, id ≠ b) (listed d s))).
Proof.
  intros Hd Hb Hl. destruct (listed_ok d s Hd) as (Hn & Ht & _). apply cut_ok; [done| | |done].
  - constructor; [by rewrite list_elem_of_filter; intros [? _]|by apply NoDup_filter].
  - constructor; [done|by apply Forall_filtered].
Qed.

Lemma withEntry_normal s b d : normal d → normal (withEntry s b d).
Proof.
  intros Hd. unfold withEntry. cbv zeta. case_decide as Hc; [done|].
  apply normal_insert; [done|]. apply recorded_ok; [done|apply trimmed_TrimSpace; tauto|lia].
Qed.

(** recording a book keeps the history in order. The book just
    opened comes first, the others follow in the order they had, without a
    second copy of it and cut to the limit; no other shelf changes, and the
    history stays well formed. An empty ID and a limit of zero record
    nothing. *)
Theorem withEntry_front s b d : normal d →
  let d' := withEntry s b d in
  normal d' ∧ (∀ s', s' ≠ s → listed d' s' = listed d s') ∧
  (if decide (TrimSpace b = [] ∨ Limit d = 0%Z) then d' = d
   else listed d' s = TrimSpace b :: take (Z.to_nat (Limit d) - 1) (filter (λ id, id ≠ TrimSpace b) (listed d s))).
Proof.
  intros Hd. cbv zeta. split; [by apply withEntry_normal|]. destruct Hd as [_ Hl _].
  unfold withEntry. cbv zeta. case_decide as Hc.
  { split; [done|]. rewrite decide_True; [done|]. destruct Hc; [by left|right; lia]. }
  rewrite decide_False by (intros [?|?]; [tauto|lia]). unfold listed. simpl. split.
  - intros s' Hs. by rewrite lookup_insert_ne.
  - rewrite lookup_insert_eq. simpl. unfold cut.
    destruct (Z.to_nat (Z.min (Z.of_nat (length (TrimSpace b :: filter (λ id, id ≠ TrimSpace b)
      (default [] (Shelves d !! s))))) (Limit d))) as [|n] eqn:En; [simpl in En; lia|].
    simpl. f_equal. simpl in En.
    destruct (Z.le_ge_cases (Z.of_nat (S (length (filter (λ id, id ≠ TrimSpace b) (default [] (Shelves d !! s))))))
      (Limit d)) as [Hle|Hge]; [rewrite !take_ge by lia; done|]. f_equal. lia.
Qed.

(** ** Handing a reader's books over *)
Section project.
Context (r : bytes) (resolve : bytes → option bytes).
Definition bound_for (t : bytes) (ids : list bytes) : list bytes :=
  filter (λ b, target_of r resolve b = Some t) ids.
Definition staying (ids : list bytes) : list bytes := filter (λ b, target_of r resolve b = None) ids.

(** What the first loop has gathered after the books [ids]. *)
Record gathered (ids : list bytes) (a : Sorted) : Prop := {
  ga_kept : kept a = staying ids;
  ga_moved t : default [] (moved a !! t) = bound_for t ids;
  ga_some t : is_Some (moved a !! t) ↔ bound_for t ids ≠ [];
  ga_targets t : t ∈ targets a ↔ is_Some (moved a !! t);
}.

Lemma gathered_all ids : gathered ids (foldl (sort_step r resolve) (mkSorted [] ∅ []) ids).
Proof.
  induction ids as [|b ids IH] using rev_ind.
  { split; simpl; try done; intros t; rewrite lookup_empty; rewrite <-?not_eq_None_Some; [tauto|].
    rewrite elem_of_nil. tauto. }
  rewrite foldl_app. simpl. set (a := foldl _ _ ids) in *. destruct IH as [Hk Hm Hs Ht].
  unfold sort_step, staying, bound_for in *. destruct (target_of r resolve b) as [u|] eqn:Eu.
  - split; unfold staying, bound_for; simpl; [by rewrite filter_snoc, Eu, decide_False, app_nil_r|..]; intros t;
      rewrite ?filter_snoc, ?Eu.
    + destruct (decide (u = t)) as [->|Hne].
      * by rewrite lookup_insert_eq, decide_True, Hm.
      * by rewrite lookup_insert_ne, decide_False, app_nil_r by congruence.
    + destruct (decide (u = t)) as [->|Hne].
      * rewrite lookup_insert_eq, decide_True by done. split; [by intros _ [_ ?]%app_nil|eauto].
      * by rewrite lookup_insert_ne, decide_False, app_nil_r by congruence.
    + rewrite lookup_insert_is_Some. destruct (moved a !! u) eqn:Em.
      * rewrite Ht. split; [|naive_solver]. destruct (decide (u = t)); [by left|by right].
      * rewrite elem_of_app, list_elem_of_singleton, Ht. split; [|naive_solver].
        intros [Hx| ->]; [|by left]. destruct (decide (u = t)); [by left|by right].
  - split; unfold staying, bound_for; simpl; [by rewrite filter_snoc, Eu, decide_True, Hk|..]; intros t;
      rewrite ?filter_snoc, ?Eu, ?decide_False, ?app_nil_r by done; auto.
Qed.

Lemma moved_targets d m (ts : list bytes) out t :
  foldl (move_step d m) out ts !! t =
  if decide (t ∈ ts) then
    Some (cut (Limit d) (default [] (m !! t) ++ filter (λ id, id ∉ default [] (m !! t)) (listed d t)))
  else out !! t.
Proof.
  induction ts as [|u ts IH] using rev_ind; [done|]. rewrite foldl_app. simpl. unfold move_step at 1. cbv zeta.
  destruct (decide (u = t)) as [->|Hne].
  - rewrite lookup_insert_eq, decide_True; [done|]. set_solver.
  - rewrite lookup_insert_ne, IH by done. destruct (decide (t ∈ ts)).
    + by rewrite decide_True by set_solver.
    + by rewrite decide_False by set_solver.
Qed.

(** The projection, shelf by shelf. *)
Definition projected (d : Document) (s : bytes) : option (list bytes) :=
  let ids := listed d r in
  if decide (s = r) then (if decide (staying ids = []) then None else Some (staying ids))
  else if decide (bound_for s ids = []) then Shelves d !! s
  else Some (cut (Limit d) (bound_for s ids ++ filter (λ id, id ∉ bound_for s ids) (listed d s))).

Lemma target_not_reader b t : target_of r resolve b = Some t → t ≠ r.
Proof.
  unfold target_of. destruct (resolve b) as [u|]; [|done]. case_decide; [done|]. intros [= <-]. tauto.
Qed.

Lemma nothing_bound ids : (∀ t, bound_for t ids = []) → staying ids = ids.
Proof.
  intros Hn. unfold staying. apply filter_whole, Forall_forall. intros b Hb.
  destruct (target_of r resolve b) as [t|] eqn:E; [|done]. exfalso.
  assert (b ∈ bound_for t ids) as Hin by (by apply list_elem_of_filter). rewrite Hn in Hin. set_solver.
Qed.

Lemma unmoved d s : normal d → (∀ t, bound_for t (listed d r) = []) → projected d s = Shelves d !! s.
Proof.
  intros [_ _ Hs] Hn. unfold projected. cbv zeta. rewrite nothing_bound, Hn by done.
  rewrite (decide_True (P := [] = [])) by done. case_decide as Hk; [|done]. subst s. unfold listed in *.
  destruct (Shelves d !! r) as [l|] eqn:E; simpl; [|done]. rewrite decide_False; [done|]. by apply (Hs r l).
Qed.

Lemma lookup_Project d s : normal d → r ≠ [] → Shelves (Project r (Some resolve) d) !! s = projected d s.
Proof.
  intros Hd Hr. unfold Project. cbv zeta. fold (listed d r). pose proof (unmoved d s Hd) as Hsame.
  destruct (decide (r = [] ∨ listed d r = [])) as [Hc|Hc].
  { destruct Hc as [?|Hz]; [done|]. symmetry. apply Hsame. intros t. by rewrite Hz. }
  destruct (gathered_all (listed d r)) as [Hk Hm Hs Ht]. set (a := foldl _ _ (listed d r)) in *.
  destruct (decide (targets a = [])) as [Hts|Hts].
  { symmetry. apply Hsame. intros t. destruct (decide (bound_for t (listed d r) = [])) as [|Hb]; [done|].
    apply Hs, Ht in Hb. rewrite Hts in Hb. set_solver. }
  unfold projected. cbv zeta. simpl. rewrite Hk. destruct (decide (s = r)) as [->|Hne].
  { destruct (decide (staying (listed d r) = [])); [by rewrite lookup_delete_eq|by rewrite lookup_insert_eq]. }
  destruct (decide (staying (listed d r) = []));
    [rewrite lookup_delete_ne by done|rewrite lookup_insert_ne by done]; rewrite moved_targets, Hm.
  all: destruct (decide (bound_for s (listed d r) = [])) as [Hb|Hb];
    [rewrite decide_False by (rewrite Ht, Hs; tauto)|rewrite decide_True by (by apply Ht, Hs)]; done.
Qed.

Lemma bound_for_ok t d : normal d → NoDup (bound_for t (listed d r)) ∧ Forall trimmed (bound_for t (listed d r)) ∧
  (Z.of_nat (length (bound_for t (listed d r))) ≤ Limit d)%Z.
Proof.
  intros Hd. destruct (listed_ok d r Hd) as (Hn & Ht & Hl). unfold bound_for.
  split; [by apply NoDup_filter|]. split; [by apply Forall_filtered|].
  pose proof (length_filter (λ b, target_of r resolve b = Some t) (listed d r)). lia.
Qed.

Lemma Project_normal d : normal d → r ≠ [] → normal (Project r (Some resolve) d).
Proof.
  intros Hd Hr. destruct (listed_ok d r Hd) as (Hrn & Hrt & Hrl).
  assert (Limit (Project r (Some resolve) d) = Limit d ∧ Version (Project r (Some resolve) d) = Version d) as [El Ev]
    by (unfold Project; cbv zeta; by repeat case_decide).
  pose proof Hd as [Hv Hl Hs]. split; [congruence|by rewrite El|]. intros s ids. rewrite El, lookup_Project by done.
  unfold projected. cbv zeta. case_decide as Hsr.
  { case_decide as Hst; [done|]. intros [= <-]. split; [done|by apply NoDup_filter|by apply Forall_filtered|].
    pose proof (length_filter (λ b, target_of r resolve b = None) (listed d r)). unfold staying. lia. }
  case_decide as Hb; [apply Hs|]. intros [= <-]. destruct (bound_for_ok s d Hd) as (Hbn & Hbt & Hbl).
  destruct (listed_ok d s Hd) as (Hsn & Hsts & _).
  assert (bound_for s (listed d r) ++ filter (λ id, id ∉ bound_for s (listed d r)) (listed d s) ≠ []) as Hne
    by (by intros [? _]%app_nil).
  apply cut_ok; [|..|done].
  - destruct (bound_for s (listed d r)); [done|]. simpl in Hbl. lia.
  - apply NoDup_app. split; [done|]. split; [|by apply NoDup_filter].
    by intros x Hx [? _]%list_elem_of_filter.
  - apply Forall_app. split; [done|by apply Forall_filtered].
Qed.
End project.

(** handing a reader's history over loses no book of it. Each book
    the resolver places goes to the front of its shelf, in the order it was
    read and before the books already there; the others stay with the reader,
    an empty list vanishes, no other shelf changes, and doing it again changes
    nothing. *)
Theorem Project_spec r resolve d : normal d → r ≠ [] →
  let d' := Project r (Some resolve) d in
  normal d' ∧ (∀ s, Shelves d' !! s = projected r resolve d s) ∧
  (∀ b, b ∈ listed d r → b ∈ listed d' (default r (target_of r resolve b))) ∧
  Project r (Some resolve) d' = d'.
Proof.
  intros Hd Hr d'. assert (normal d') as Hd' by (by apply Project_normal).
  assert (∀ s, Shelves d' !! s = projected r resolve d s) as Hp by (intros s; by apply lookup_Project).
  split; [done|]. split; [done|]. split.
  - intros b Hb. unfold listed at 1. rewrite Hp. unfold projected. cbv zeta.
    destruct (target_of r resolve b) as [t|] eqn:Et; simpl.
    + rewrite decide_False by (by eapply target_not_reader).
      assert (b ∈ bound_for r resolve t (listed d r)) as Hin by (by apply list_elem_of_filter).
      rewrite decide_False by (intros E; rewrite E in Hin; set_solver). simpl. unfold cut.
      destruct (bound_for_ok r resolve t d Hd) as (_ & _ & Hl). rewrite take_app_ge; [set_solver|].
      rewrite length_app. lia.
    + assert (b ∈ staying r resolve (listed d r)) as Hin by (by apply list_elem_of_filter).
      rewrite decide_True by done. by rewrite decide_False by (intros E; rewrite E in Hin; set_solver).
  - unfold Project at 1. cbv zeta. fold (listed d' r). case_decide; [done|].
    assert (∀ t, bound_for r resolve t (listed d' r) = []) as Hn.
    { intros t. apply filter_nothing, Forall_forall. intros b Hb. unfold listed in Hb. rewrite Hp in Hb.
      unfold projected in Hb. cbv zeta in Hb. rewrite decide_True in Hb by done.
      case_decide; [set_solver|]. apply list_elem_of_filter in Hb as [-> _]. done. }
    rewrite decide_True; [done|]. destruct (gathered_all r resolve (listed d' r)) as [_ _ Hs Ht].
    destruct (targets _) as [|t ts]; [done|]. exfalso. assert (t ∈ t :: ts) as Hx%Ht%Hs by left. by apply Hx.
Qed.

End ReadHistory.
