(* ===== verification/ReadingStats.v ===== *)
(** * Calendar dates as [time.DateOnly] writes them

    [time.Parse] and [Format] with the layout [2006-01-02], and stepping back
    a day. The program compares such dates as strings; for valid dates that
    is their order in time, and a window of [n] days has [n] of them. *)

From Stdlib Require Import Strings.Ascii.
From S2P Require Import Prelude Utf8 Strings Float64 Json Fs FsSpec Atomic BookMeta Source Frame Documents LockedFile.

Module Dates.
Local Open Scope Z_scope.

Record Date := mkDate { year : Z; month : Z; day : Z }.
#[export] Instance Date_eq_dec : EqDecision Date.
Proof. solve_decision. Defined.

Definition leap (y : Z) : bool := (y mod 4 =? 0) && (negb (y mod 100 =? 0) || (y mod 400 =? 0)).
Definition days_in (y m : Z) : Z :=
  if m =? 2 then (if leap y then 29 else 28)
  else if (m =? 4) || (m =? 6) || (m =? 9) || (m =? 11) then 30 else 31.
Definition valid (d : Date) : Prop :=
  0 ≤ year d ≤ 9999 ∧ 1 ≤ month d ≤ 12 ∧ 1 ≤ day d ≤ days_in (year d) (month d).
#[export] Instance valid_dec d : Decision (valid d).
Proof. unfold valid. apply _. Defined.

(** [n] decimal digits *)
Definition digit (z : Z) : ascii := ascii_of_N (Z.to_N (48 + z)).
Fixpoint pad (n : nat) (z : Z) : bytes :=
  match n with
  | O => []
  | S n => digit (z / 10 ^ Z.of_nat n) :: pad n (z mod 10 ^ Z.of_nat n)
  end.
Definition Format (d : Date) : bytes :=
  pad 4 (year d) ++ "-"%char :: pad 2 (month d) ++ "-"%char :: pad 2 (day d).

Fixpoint read_digits (v : Z) (n : nat) (s : bytes) : option (Z * bytes) :=
  match n, s with
  | O, _ => Some (v, s)
  | S n, c :: s =>
      let x := byte_val c - 48 in
      if decide (0 ≤ x ≤ 9) then read_digits (10 * v + x) n s else None
  | S n, [] => None
  end.
Definition read_dash (s : bytes) : option bytes :=
  match s with c :: s => if decide (c = "-"%char) then Some s else None | [] => None end.
Definition Parse (s : bytes) : option Date :=
  '(y, s) ← read_digits 0 4 s; s ← read_dash s;
  '(m, s) ← read_digits 0 2 s; s ← read_dash s;
  '(d, s) ← read_digits 0 2 s;
  if decide (s = [] ∧ valid (mkDate y m d)) then Some (mkDate y m d) else None.

(** The day before, and [AddDate(0, 0, -n)] at midnight. *)
Definition prev (d : Date) : Date :=
  if decide (1 < day d) then mkDate (year d) (month d) (day d - 1)
  else if decide (1 < month d) then mkDate (year d) (month d - 1) (days_in (year d) (month d - 1))
  else mkDate (year d - 1) 12 31.
Definition back (n : nat) (d : Date) : Date := Nat.iter n prev d.

(** ** Order *)
Definition before (a b : Date) : Prop :=
  year a < year b ∨ year a = year b ∧ (month a < month b ∨ month a = month b ∧ day a < day b).

Lemma days_in_bounds y m : 28 ≤ days_in y m ≤ 31.
Proof. unfold days_in. repeat case_match; lia. Qed.
Lemma days_in_december y : days_in y 12 = 31.
Proof. done. Qed.

Lemma prev_valid d : valid d → 1 ≤ year d → valid (prev d).
Proof.
  unfold valid, prev. intros (Hy & Hm & Hd) Hp. pose proof (days_in_bounds (year d) (month d - 1)).
  repeat case_decide; simpl; rewrite ?days_in_december; lia.
Qed.
Lemma prev_year d : year d - 1 ≤ year (prev d) ≤ year d.
Proof. unfold prev. repeat case_decide; simpl; lia. Qed.
Lemma prev_before d : before (prev d) d.
Proof. unfold before, prev. repeat case_decide; simpl; lia. Qed.

(** No valid date lies between a date and the day before it. *)
Lemma prev_adjacent a d : valid a → valid d → before a d → a = prev d ∨ before a (prev d).
Proof.
  unfold valid, before, prev. destruct a as [y m x], d as [y' m' x']. simpl.
  intros (Hy & Hm & Hx) (Hy' & Hm' & Hx') Hb.
  repeat case_decide; simpl.
  - destruct (decide (y = y' ∧ m = m' ∧ x = x' - 1)) as [(-> & -> & ->)|]; [by left|right; lia].
  - destruct (decide (y = y' ∧ m = m' - 1)) as [(-> & ->)|]; [|right; lia].
    destruct (decide (x = days_in y' (m' - 1))) as [->|]; [by left|right; lia].
  - destruct (decide (y = y' - 1 ∧ m = 12)) as [(-> & ->)|]; [|right; lia].
    rewrite days_in_december in Hx. destruct (decide (x = 31)) as [->|]; [by left|right; lia].
Qed.

Lemma back_valid n d : valid d → Z.of_nat n ≤ year d → valid (back n d) ∧ year d - Z.of_nat n ≤ year (back n d).
Proof.
  intros Hd. induction n as [|n IH]; intros Hn; [simpl; split; [done|lia]|].
  destruct IH as [Hv Hy]; [lia|]. simpl. pose proof (prev_year (back n d)). split; [|lia].
  apply prev_valid; [done|lia].
Qed.

Lemma window a n d : valid a → valid d → Z.of_nat n ≤ year d →
  a = d ∨ before a d → before a (back n d) ∨ ∃ k, (k ≤ n)%nat ∧ a = back k d.
Proof.
  intros Ha Hd Hn Hb. induction n as [|n IH].
  { destruct Hb as [->|Hb]; [right; by exists 0%nat|by left]. }
  destruct IH as [Hb'|(k & Hk & ->)]; [lia| |right; exists k; split; [lia|done]].
  destruct (back_valid n d Hd) as [Hv _]; [lia|].
  destruct (prev_adjacent a (back n d)) as [->|]; try done; [right; by exists (S n)|by left].
Qed.

(** ** Texts *)
Lemma digit_code z : 0 ≤ z ≤ 9 → byte_val (digit z) = 48 + z.
Proof. intros Hz. unfold digit, byte_val. rewrite N_ascii_embedding by lia. lia. Qed.

Lemma pad_step n z : 0 ≤ z < 10 ^ Z.of_nat (S n) →
  0 ≤ z / 10 ^ Z.of_nat n ≤ 9 ∧ 0 ≤ z mod 10 ^ Z.of_nat n < 10 ^ Z.of_nat n.
Proof.
  rewrite Nat2Z.inj_succ, Z.pow_succ_r by lia. intros Hz. assert (0 < 10 ^ Z.of_nat n) by (apply Z.pow_pos_nonneg; lia).
  split; [|apply Z.mod_pos_bound; lia]. split; [apply Z.div_pos; lia|].
  apply Z.lt_succ_r, Z.div_lt_upper_bound; lia.
Qed.

Lemma read_pad n z v s : 0 ≤ z < 10 ^ Z.of_nat n → read_digits v n (pad n z ++ s) = Some (10 ^ Z.of_nat n * v + z, s).
Proof.
  revert v z. induction n as [|n IH]; intros v z Hz; [simpl in *; f_equal; f_equal; lia|].
  destruct (pad_step n z Hz) as [Hd Hm]. cbn [pad app read_digits]. cbv zeta.
  rewrite digit_code by done. rewrite decide_True by lia. rewrite IH by done. f_equal. f_equal.
  rewrite Nat2Z.inj_succ, Z.pow_succ_r by lia. pose proof (Z.div_mod z (10 ^ Z.of_nat n)). lia.
Qed.

Lemma Parse_Format d : valid d → Parse (Format d) = Some d.
Proof.
  intros Hd. pose proof Hd as (Hy & Hm & Hx). pose proof (days_in_bounds (year d) (month d)).
  unfold Parse, Format. rewrite read_pad by lia. cbn [mbind option_bind read_dash]. rewrite decide_True by done.
  cbn [mbind option_bind]. rewrite read_pad by lia. cbn [mbind option_bind read_dash]. rewrite decide_True by done.
  cbn [mbind option_bind]. rewrite <-(app_nil_r (pad 2 (day d))), read_pad by lia. cbn [mbind option_bind].
  destruct d as [y m x]. simpl in *. by rewrite decide_True.
Qed.

Lemma read_digits_back n v s z s' : read_digits v n s = Some (z, s') →
  ∃ x, 0 ≤ x < 10 ^ Z.of_nat n ∧ z = 10 ^ Z.of_nat n * v + x ∧ s = pad n x ++ s'.
Proof.
  revert v s. induction n as [|n IH]; intros v s; [intros [= -> ->]; exists 0; simpl; split; [lia|split; [lia|done]]|].
  cbn [read_digits]. destruct s as [|c s]; [done|]. cbv zeta. case_decide as Hc; [|done].
  intros (x & Hx & -> & ->)%IH. set (a := byte_val c - 48) in *.
  exists (a * 10 ^ Z.of_nat n + x). assert (0 < 10 ^ Z.of_nat n) by (apply Z.pow_pos_nonneg; lia).
  rewrite Nat2Z.inj_succ, Z.pow_succ_r by lia. split; [nia|]. split; [nia|].
  cbn [pad]. rewrite Z.div_add_l, Z.div_small, Z.add_0_r by lia.
  rewrite Z.add_comm, Z.mod_add, Z.mod_small by lia. cbn [app]. f_equal.
  unfold digit, a, byte_val. replace (48 + (Z.of_N (N_of_ascii c) - 48)) with (Z.of_N (N_of_ascii c)) by lia.
  by rewrite N2Z.id, ascii_N_embedding.
Qed.

Lemma Format_Parse s d : Parse s = Some d → valid d ∧ Format d = s.
Proof.
  unfold Parse. destruct (read_digits 0 4 s) as [[y s1]|] eqn:E1; [|done]. cbn [mbind option_bind].
  destruct s1 as [|c1 s1]; [done|]. cbn [read_dash]. case_decide; [subst|done]. cbn [mbind option_bind].
  destruct (read_digits 0 2 s1) as [[m s2]|] eqn:E2; [|done]. cbn [mbind option_bind].
  destruct s2 as [|c2 s2]; [done|]. cbn [read_dash]. case_decide; [subst|done]. cbn [mbind option_bind].
  destruct (read_digits 0 2 s2) as [[x s3]|] eqn:E3; [|done]. cbn [mbind option_bind].
  case_decide as Hv; [|done]. destruct Hv as [-> Hv]. intros [= <-]. split; [done|].
  apply read_digits_back in E1 as (? & _ & -> & ->), E2 as (? & _ & -> & ->), E3 as (? & _ & -> & ->).
  unfold Format. cbn [year month day]. rewrite !Z.mul_0_r, !Z.add_0_l. by rewrite app_nil_r.
Qed.

Lemma Compare_pad n a b s t : 0 ≤ a < 10 ^ Z.of_nat n → 0 ≤ b < 10 ^ Z.of_nat n →
  Compare (pad n a ++ s) (pad n b ++ t) = match a ?= b with Eq => Compare s t | c => c end.
Proof.
  revert a b. induction n as [|n IH]; intros a b Ha Hb.
  { simpl in Ha, Hb. assert (a = 0) as -> by lia. by assert (b = 0) as -> by lia. }
  destruct (pad_step n a Ha) as [Hda Hma], (pad_step n b Hb) as [Hdb Hmb].
  cbn [pad app Compare]. rewrite !digit_code, IH by done.
  set (p := 10 ^ Z.of_nat n) in *. assert (0 < p) by lia.
  pose proof (Z.div_mod a p ltac:(lia)). pose proof (Z.div_mod b p ltac:(lia)).
  destruct (Z.compare_spec (48 + a / p) (48 + b / p)) as [E|E|E].
  - assert (a / p = b / p) as E' by lia. rewrite E' in *.
    destruct (Z.compare_spec (a mod p) (b mod p)), (Z.compare_spec a b); done || lia.
  - assert (p * (a / p) + p ≤ p * (b / p)) by nia. destruct (Z.compare_spec a b); done || lia.
  - assert (p * (b / p) + p ≤ p * (a / p)) by nia. destruct (Z.compare_spec a b); done || lia.
Qed.

(** The order of the texts is the order of the dates. *)
Lemma Format_order a b : valid a → valid b → str_lt (Format a) (Format b) ↔ before a b.
Proof.
  intros (Hya & Hma & Hda) (Hyb & Hmb & Hdb). unfold str_lt, before, Format.
  pose proof (days_in_bounds (year a) (month a)). pose proof (days_in_bounds (year b) (month b)).
  rewrite Compare_pad by lia. cbn [Compare]. rewrite Z.compare_refl, Compare_pad by lia.
  cbn [Compare]. rewrite Z.compare_refl, <-(app_nil_r (pad 2 (day a))), <-(app_nil_r (pad 2 (day b))), Compare_pad by lia.
  destruct (Z.compare_spec (year a) (year b)), (Z.compare_spec (month a) (month b)),
    (Z.compare_spec (day a) (day b)); cbn [Compare]; split; try done; lia.
Qed.

(** Different valid dates between two ends, as strings, are at most as many
    as there are days. *)
Lemma window_size (l : list bytes) n today : valid today → Z.of_nat n ≤ year today → NoDup l →
  Forall (λ s, is_Some (Parse s) ∧ str_le (Format (back n today)) s ∧ str_le s (Format today)) l →
  (length l ≤ S n)%nat.
Proof.
  intros Ht Hn Hd Hl. transitivity (length ((λ k, Format (back k today)) <$> seq 0 (S n)));
    [|by rewrite length_fmap, length_seq].
  apply submseteq_length, NoDup_submseteq; [done|]. intros s Hs.
  rewrite Forall_forall in Hl. destruct (Hl s Hs) as ([d Hp] & Hlo & Hhi).
  apply Format_Parse in Hp as [Hv <-]. destruct (back_valid n today Ht Hn) as [Hvb _].
  assert (∀ a b, valid a → valid b → str_le (Format a) (Format b) → ¬ before b a) as Hle.
  { intros a b Ha Hb Hab Hba%Format_order; [|done|done]. unfold str_le, str_lt in *.
    rewrite Compare_antisym, Hba in Hab. done. }
  apply list_elem_of_fmap. destruct (window d n today) as [Hb|(k & Hk & ->)]; try done.
  - destruct (decide (d = today)) as [|Hne]; [by left|right]. apply (Hle d today Hv Ht) in Hhi.
    unfold before in *. destruct d as [y m x], today as [y' m' x']. simpl in *.
    destruct (Z.lt_total y y') as [|[->|]]; [lia| |lia]. destruct (Z.lt_total m m') as [|[->|]]; [lia| |lia].
    destruct (Z.lt_total x x') as [|[->|]]; [lia|done|lia].
  - by apply (Hle (back n today) d) in Hlo.
  - exists k. split; [done|]. apply elem_of_seq. lia.
Qed.

End Dates.

(** * Reading statistics: [src/internal/readingstats/readingstats.go]

    Seconds read per shelf and day. A file only yields valid dates with one
    second to a day's worth of seconds; adding time keeps at most 400 days of
    a shelf; [Project] adds the time a reader gathered for single books to
    the shelves the books belong to. *)

Module ReadingStats.
Import Documents LockedFile.
Local Open Scope Z_scope.

Definition documentVersion : Z := 1.
Definition RetentionDays : nat := 400.
Definition maxSecondsPerCall : Z := 120.
Definition maxSecondsPerDay : Z := 24 * 60 * 60.

(** [type Document] *)
Record Document := mkDocument { Version : Z; Shelves : gmap bytes (gmap bytes Z) }.
Definition New : Document := mkDocument documentVersion ∅.

(** [func isValidDate] *)
Definition isValidDate (date : bytes) : bool :=
  match Dates.Parse date with
  | Some parsed => bool_decide (Dates.Format parsed = date)
  | None => false
  end.
(** [func clampSeconds] *)
Definition clampSeconds (seconds : F64.float64) (limit : Z) : Z :=
  if F64.is_nan seconds || F64.leb seconds F64.zero then 0
  else Z.min (default 0 (F64.round (F64.fmin seconds (F64.of_int limit)))) limit.

Section order.
Context `{MapOrder}.

(** [func parseDays] and [Parse] *)
Definition day_step (days : gmap bytes Z) (x : bytes * json) : gmap bytes Z :=
  if negb (isValidDate x.1) then days else
  match Json.dec_float x.2 with
  | None => days
  | Some seconds =>
      let normalized := clampSeconds seconds maxSecondsPerDay in
      if decide (0 < normalized) then <[x.1 := normalized]> days else days
  end.
Definition parseDays (value : json) : gmap bytes Z :=
  match Json.dec_map Some value with
  | None => ∅
  | Some entries => foldl day_step ∅ (map_range entries)
  end.
Definition shelf_step (out : gmap bytes (gmap bytes Z)) (x : bytes * json) : gmap bytes (gmap bytes Z) :=
  let days := parseDays x.2 in if decide (days = ∅) then out else <[x.1 := days]> out.
Definition dec_raw (j : json) : option (F64.float64 * gmap bytes json) :=
  l ← Json.dec_object j;
  version ← Json.dec_float (Json.member (str "version") l);
  shelves ← Json.dec_map Some (Json.member (str "shelves") l);
  Some (version, shelves).
Definition Parse (text : content) : Document :=
  if blank text then New else
  match unmarshal dec_raw text with
  | None => New
  | Some (version, shelves) =>
      if negb (F64.eqb version (F64.of_int documentVersion)) then New
      else mkDocument documentVersion (foldl shelf_step ∅ (map_range shelves))
  end.
End order.

(** [func Serialize] *)
Definition encode (doc : Document) : json :=
  JObj [(str "version", JInt (Version doc)); (str "shelves", enc_map (enc_map JInt) (Shelves doc))].
Definition Serialize (doc : Document) : result error content :=
  if printable (encode doc) then Ok (Doc (encode doc)) else Err (Msg "invalid UTF-8").

(** [func withSeconds], on the day [now] falls on. *)
Definition withSeconds (key date : bytes) (seconds : F64.float64) (now : Dates.Date) (doc : Document) : Document :=
  let added := clampSeconds seconds maxSecondsPerCall in
  let today := Dates.Format now in
  if bool_decide (added ≤ 0) || bool_decide (key = []) || negb (isValidDate date) || bool_decide (str_lt today date)
  then doc else
  let oldest := Dates.Format (Dates.back (RetentionDays - 1) now) in
  if decide (str_lt date oldest) then doc else
  let days := filter (λ x : bytes * Z, str_le oldest x.1 ∧ str_le x.1 today)
    (default ∅ (Shelves doc !! key) : gmap bytes Z) in
  let days := <[date := Z.min (default 0 (days !! date) + added) maxSecondsPerDay]> days in
  mkDocument (Version doc) (<[key := days]> (Shelves doc)).

(** [func ReaderBookKey] and [Project] *)
Definition readerBookKeySeparator : bytes := str "/".
Definition ReaderBookKey (readerShelfID bookID : bytes) : bytes := readerShelfID ++ readerBookKeySeparator ++ bookID.
Definition CutPrefix (s p : bytes) : option bytes := if HasPrefix s p then Some (drop (length p) s) else None.

(** The shelf the time under a key is to be added to, if any. *)
Definition target_of (readerShelfID : bytes) (resolve : bytes → option bytes) (key : bytes) : option bytes :=
  match CutPrefix key (readerShelfID ++ readerBookKeySeparator) with
  | None | Some [] => None
  | Some bookID =>
      match resolve bookID with
      | None => None
      | Some target =>
          let target := TrimSpace target in
          if decide (target = [] ∨ target = readerShelfID) then None else Some target
      end
  end.

Section project.
Context `{MapOrder}.
Definition add_day (merged : gmap bytes Z) (x : bytes * Z) : gmap bytes Z :=
  <[x.1 := Z.min (default 0 (merged !! x.1) + x.2) maxSecondsPerDay]> merged.
Definition project_step (readerShelfID : bytes) (resolve : bytes → option bytes)
    (shelves : gmap bytes (gmap bytes Z)) (out : option (gmap bytes (gmap bytes Z)))
    (x : bytes * gmap bytes Z) : option (gmap bytes (gmap bytes Z)) :=
  match target_of readerShelfID resolve x.1 with
  | None => out
  | Some target =>
      let cloned := default shelves out in
      let merged := foldl add_day (default ∅ (cloned !! target)) (map_range x.2) in
      Some (delete x.1 (<[target := merged]> cloned))
  end.
Definition Project (readerShelfID : bytes) (resolve : option (bytes → option bytes)) (doc : Document) : Document :=
  match resolve with
  | None => doc
  | Some resolve =>
      if decide (readerShelfID = []) then doc else
      match foldl (project_step readerShelfID resolve (Shelves doc)) None (map_range (Shelves doc)) with
      | None => doc
      | Some out => mkDocument (Version doc) out
      end
  end.

(** [func hasReaderBookKeys] and the store *)
Definition hasReaderBookKeys (readerShelfID : bytes) (doc : Document) : bool :=
  existsb (λ x, HasPrefix x.1 (readerShelfID ++ readerBookKeySeparator)) (map_range (Shelves doc)).
Definition StoreAdd `{Machine, HostEnv} (f : LockedFile) (key date : bytes) (seconds : F64.float64)
    (now : Dates.Date) : M world unit :=
  Mutate Parse Serialize f (withSeconds key date seconds now);; mret tt.
Definition StoreProjectReader `{Machine, HostEnv} (f : LockedFile) (readerShelfID : bytes)
    (resolve : option (bytes → option bytes)) : M world content :=
  MutateIf Parse Serialize f (hasReaderBookKeys readerShelfID) (Project readerShelfID resolve).
End project.

(** ** Well-formed statistics *)
Definition days_ok (days : gmap bytes Z) : Prop :=
  map_Forall (λ date s, isValidDate date = true ∧ 0 < s ≤ maxSecondsPerDay) days.
Record normal (d : Document) : Prop := {
  no_version : Version d = documentVersion;
  no_shelves : map_Forall (λ _ days, days ≠ ∅ ∧ days_ok days) (Shelves d);
}.

Lemma clampSeconds_range f limit : 0 < limit < 2 ^ 53 → 0 ≤ clampSeconds f limit ≤ limit.
Proof.
  intros Hl. unfold clampSeconds. destruct (F64.is_nan f) eqn:En; [simpl; lia|].
  destruct (F64.leb f F64.zero) eqn:El; [simpl; lia|]. cbn [orb].
  enough (0 ≤ default 0 (F64.round (F64.fmin f (F64.of_int limit)))) by lia.
  rewrite F64.fmin_int by done. destruct (F64.ltb _ f); apply F64.round_nonneg; [|done].
  by apply F64.of_int_positive.
Qed.

Lemma clampSeconds_int z limit : 0 < z ≤ limit → limit < 2 ^ 53 → clampSeconds (F64.of_int z) limit = z.
Proof.
  intros Hz Hl. unfold clampSeconds. rewrite F64.of_int_not_nan, F64.of_int_positive by lia. cbn [orb].
  rewrite F64.fmin_of_int, F64.round_of_int by lia. simpl. lia.
Qed.

Section laws.
Context `{MapOrderLaws}.

Lemma parseDays_ok value : days_ok (parseDays value).
Proof.
  unfold parseDays. destruct (Json.dec_map _ _); [|apply map_Forall_empty].
  apply foldl_map_Forall; [apply map_Forall_empty|]. intros acc x Hacc. unfold day_step.
  destruct (isValidDate x.1) eqn:Ev; [|done]. cbn [negb]. destruct (Json.dec_float x.2); [|done].
  cbv zeta. case_decide; [|done]. apply map_Forall_insert_2; [|done]. split; [done|]. split; [done|].
  apply clampSeconds_range. unfold maxSecondsPerDay. lia.
Qed.

Lemma stats_normal text : normal (Parse text).
Proof.
  assert (normal New) as Hnew by (split; [done|apply map_Forall_empty]).
  unfold Parse. destruct (blank text); [done|]. destruct (unmarshal _ _) as [[v m]|]; [|done].
  case_match; [done|]. split; [done|]. apply foldl_map_Forall; [apply map_Forall_empty|].
  intros acc x Hacc. unfold shelf_step. cbv zeta. case_decide; [done|].
  apply map_Forall_insert_2; [|done]. split; [done|apply parseDays_ok].
Qed.

(** ** Round trip *)
Lemma parseDays_back m : days_ok m → parseDays (enc_map JInt m) = m.
Proof.
  intros Hm. unfold parseDays. rewrite (dec_enc_map Some JInt) by done. apply map_eq. intros k.
  rewrite (foldl_range (λ _ j o, match Json.dec_float j with
    | None => o
    | Some f => let n := clampSeconds f maxSecondsPerDay in if decide (0 < n) then Some n else o
    end)).
  - rewrite lookup_fmap, lookup_empty. destruct (m !! k) as [s|] eqn:E; [|done]. cbn [fmap option_fmap option_map].
    destruct (Hm k s E) as [_ Hs]. unfold maxSecondsPerDay in *. rewrite Json.dec_float_int by lia. cbv zeta.
    rewrite clampSeconds_int by lia. by rewrite decide_True by lia.
  - intros k' j Hj acc k2. unfold day_step. cbn [fst snd]. rewrite lookup_fmap in Hj.
    destruct (m !! k') as [s|] eqn:E; [|done]. destruct (Hm k' s E) as [-> _]. cbn [negb].
    destruct (Json.dec_float j); [|by case_decide]. cbv zeta.
    case_decide; [|by case_decide]. case_decide; [subst; by rewrite lookup_insert_eq|by rewrite lookup_insert_ne].
Qed.

Lemma unique_stats d : Json.unique_names (encode d) = true.
Proof.
  apply unique_obj; [by vm_compute|]. repeat constructor. apply unique_enc_map. intros k a _.
  by apply unique_enc_map.
Qed.

Lemma dec_raw_stats d : normal d →
  dec_raw (encode d) = Some (F64.of_int documentVersion, enc_map JInt <$> Shelves d).
Proof.
  intros [Hv _]. unfold dec_raw, encode. rewrite Hv. cbn [Json.dec_object mbind option_bind].
  change (Json.member (str "shelves") _) with (enc_map (enc_map JInt) (Shelves d)).
  rewrite (dec_enc_map Some (enc_map JInt)) by done. reflexivity.
Qed.

Lemma stats_back d c : normal d → Serialize d = Ok c → Parse c = d.
Proof.
  intros Hn. pose proof Hn as [Hv Hs]. unfold Serialize. destruct (printable _); [|done]. intros [= <-].
  unfold Parse. cbn [blank]. unfold unmarshal. rewrite unique_stats, dec_raw_stats by done. cbv beta iota.
  rewrite F64.eqb_refl by done. cbn [negb]. destruct d as [v m]. cbn [Version Shelves] in *. subst v. f_equal.
  apply map_eq. intros k.
  rewrite (foldl_range (λ _ j o, if decide (parseDays j = ∅) then o else Some (parseDays j))).
  - rewrite lookup_fmap, lookup_empty. destruct (m !! k) as [days|] eqn:E; [|done]. cbn [fmap option_fmap option_map].
    destruct (Hs k days E) as [Hne Hd]. rewrite parseDays_back by done. by rewrite decide_False.
  - intros k' j _ acc k2. unfold shelf_step. cbn [fst snd]. cbv zeta. case_decide; [by case_decide|].
    case_decide; [subst; by rewrite lookup_insert_eq|by rewrite lookup_insert_ne].
Qed.

#[export] Instance stats_codec `{JsonText} : Codec Parse Serialize normal.
Proof. apply (json_codec Parse encode normal); [apply stats_normal|apply stats_back]. Qed.
End laws.

(** ** Adding time *)
Definition seconds_of (d : Document) (key date : bytes) : Z :=
  default 0 (default ∅ (Shelves d !! key) !! date).

Lemma isValidDate_Parse s : isValidDate s = true → is_Some (Dates.Parse s).
Proof. unfold isValidDate. destruct (Dates.Parse s); [eauto|done]. Qed.

Lemma days_of_ok d key : normal d → days_ok (default ∅ (Shelves d !! key)).
Proof.
  intros [_ Hs]. destruct (Shelves d !! key) as [days|] eqn:E; [|apply map_Forall_empty].
  by destruct (Hs key days E).
Qed.

Lemma not_lt_le a b : ¬ str_lt a b → str_le b a.
Proof. unfold str_lt, str_le. rewrite Compare_antisym. by destruct (Compare b a). Qed.

(** A shelf's days after an addition: those of the window, the one added to
    with it. *)
Definition in_window (now : Dates.Date) (date : bytes) : Prop :=
  str_le (Dates.Format (Dates.back (RetentionDays - 1) now)) date ∧ str_le date (Dates.Format now).
#[export] Instance in_window_dec now date : Decision (in_window now date).
Proof. unfold in_window. apply _. Defined.

Lemma window_400 (now : Dates.Date) (days : gmap bytes Z) :
  Dates.valid now → Z.of_nat RetentionDays ≤ Dates.year now → days_ok days →
  map_Forall (λ date _, in_window now date) days → (size days ≤ RetentionDays)%nat.
Proof.
  intros Hv Hy Hd Hw. rewrite <-length_map_to_list, <-(length_fmap fst).
  assert (∀ date, date ∈ (map_to_list days).*1 → is_Some (days !! date)) as Hin.
  { intros date ([k s] & -> & Hx%elem_of_map_to_list)%list_elem_of_fmap. eauto. }
  apply (Dates.window_size _ (RetentionDays - 1) now).
  - done.
  - unfold RetentionDays in *. lia.
  - apply NoDup_fst_map_to_list.
  - apply Forall_forall. intros date [s Hs]%Hin. destruct (Hd date s Hs) as [Hp _].
    split; [by apply isValidDate_Parse|]. by apply (Hw date s).
Qed.

Lemma withSeconds_days key date f now d :
  let added := clampSeconds f maxSecondsPerCall in
  withSeconds key date f now d = d ∨
  0 < added ∧ key ≠ [] ∧ isValidDate date = true ∧ in_window now date ∧
  withSeconds key date f now d = mkDocument (Version d)
    (<[key := <[date := Z.min (seconds_of d key date + added) maxSecondsPerDay]>
         (filter (λ x : bytes * Z, in_window now x.1) (default ∅ (Shelves d !! key) : gmap bytes Z))]> (Shelves d)).
Proof.
  cbv zeta. unfold withSeconds. cbv zeta. destruct (_ || bool_decide (str_lt (Dates.Format now) date)) eqn:Eb; [by left|].
  rewrite !orb_false_iff, !bool_decide_eq_false, negb_false_iff in Eb. destruct Eb as (((Ha & Hk) & Hv) & Ht).
  case_decide as Ho; [by left|right]. apply not_lt_le in Ho, Ht.
  split; [lia|]. split; [done|]. split; [done|]. split; [done|]. f_equal. f_equal. f_equal. f_equal. f_equal.
  unfold seconds_of. f_equal. rewrite map_lookup_filter.
  destruct (default ∅ (Shelves d !! key) !! date) as [s|]; cbn [mbind option_bind]; [|reflexivity].
  rewrite option_guard_True by exact (conj Ho Ht). reflexivity.
Qed.

(** the statistics stay small and a day never holds more than a day.
    Adding time to a shelf leaves every other shelf alone and the document
    well formed; when anything is added, it is one to 120 seconds on that day,
    capped at 86400, and the shelf keeps exactly its days of the last 400, of
    which there are at most 400. *)
Theorem withSeconds_bounded key date f now d :
  normal d → Dates.valid now → Z.of_nat RetentionDays ≤ Dates.year now →
  let d' := withSeconds key date f now d in
  normal d' ∧ (∀ k, k ≠ key → Shelves d' !! k = Shelves d !! k) ∧
  (d' = d ∨
   (size (default ∅ (Shelves d' !! key)) ≤ RetentionDays)%nat ∧
   (∃ added, 0 < added ≤ maxSecondsPerCall ∧
     seconds_of d' key date = Z.min (seconds_of d key date + added) maxSecondsPerDay) ∧
   ∀ other, other ≠ date →
     seconds_of d' key other = if decide (in_window now other) then seconds_of d key other else 0).
Proof.
  intros Hd Hv Hy. cbv zeta. destruct (withSeconds_days key date f now d) as [E|(Ha & Hk & Hvd & Hw & E)]; rewrite E;
    [split; [done|]; split; [done|by left]|].
  pose proof (days_of_ok d key Hd) as Hok. set (old := default ∅ (Shelves d !! key) : gmap bytes Z) in *.
  set (added := clampSeconds f maxSecondsPerCall) in *.
  assert (0 ≤ seconds_of d key date) as Hs0.
  { unfold seconds_of. fold old. destruct (old !! date) as [s|] eqn:Eo; [|done]. destruct (Hok date s Eo). simpl. lia. }
  set (days := <[date := _]> _).
  assert (days_ok days) as Hdays.
  { apply map_Forall_insert_2; [split; [done|unfold maxSecondsPerDay; lia]|].
    intros k s [Hks _]%map_lookup_filter_Some. by apply Hok. }
  assert (map_Forall (λ k _, in_window now k) days) as Hwin.
  { apply map_Forall_insert_2; [done|]. by intros k s [_ ?]%map_lookup_filter_Some. }
  split; [|split; [intros k Hne; simpl; by rewrite lookup_insert_ne|right]].
  - destruct Hd as [Hver Hsh]. split; [done|]. apply map_Forall_insert_2; [|done].
    split; [|done]. apply insert_non_empty.
  - unfold seconds_of at 1 3. simpl. rewrite lookup_insert_eq. simpl. split; [by apply (window_400 now)|]. split.
    + exists added. split; [|unfold days; by rewrite lookup_insert_eq].
      assert (0 ≤ added ≤ maxSecondsPerCall) by (apply clampSeconds_range; unfold maxSecondsPerCall; lia). lia.
    + intros other Hne. unfold days. rewrite lookup_insert_ne, map_lookup_filter by done. unfold seconds_of. fold old.
      destruct (old !! other) as [s|] eqn:Eo; simpl; [|by case_decide].
      case_decide; [by rewrite option_guard_True|by rewrite option_guard_False].
Qed.

(** ** Adding a reader's time to the shelves of its books *)
Section gains.
Context `{MapOrderLaws} (r : bytes) (resolve : bytes → option bytes).
(** No target is itself a key of the reader. *)
Context (Hplain : ∀ key t, target_of r resolve key = Some t → target_of r resolve t = None).

(** The seconds of a day that are to be added to a shelf. *)
Definition gained (l : list (bytes * gmap bytes Z)) (t date : bytes) : Z :=
  foldr (λ x acc, (if decide (target_of r resolve x.1 = Some t) then default 0 (x.2 !! date) else 0) + acc) 0 l.

Lemma gained_perm l l' t date : l ≡ₚ l' → gained l t date = gained l' t date.
Proof. induction 1; simpl; lia. Qed.
Lemma gained_snoc l x t date : gained (l ++ [x]) t date =
  gained l t date + (if decide (target_of r resolve x.1 = Some t) then default 0 (x.2 !! date) else 0).
Proof. induction l as [|y l IH]; simpl in *; [lia|]. rewrite IH. lia. Qed.
Lemma day_nonneg (days : gmap bytes Z) date : days_ok days → 0 ≤ default 0 (days !! date) ≤ maxSecondsPerDay.
Proof.
  intros Hd. destruct (days !! date) as [s|] eqn:E; simpl; [destruct (Hd date s E); lia|unfold maxSecondsPerDay; lia].
Qed.
Lemma gained_nonneg l t date : Forall (λ x, days_ok x.2) l → 0 ≤ gained l t date.
Proof.
  induction 1 as [|x l Hx Hl IH]; simpl; [done|]. case_decide; [|lia]. pose proof (day_nonneg x.2 date Hx). lia.
Qed.
Lemma gained_reader l key t date : target_of r resolve key = Some t → gained l key date = 0.
Proof.
  intros Hk. induction l as [|x l IH]; [done|]. simpl. rewrite IH. case_decide as Hx; [|done].
  apply Hplain in Hx. congruence.
Qed.

Definition sec (m : gmap bytes (gmap bytes Z)) (key date : bytes) : Z := default 0 (default ∅ (m !! key) !! date).

Lemma lookup_add_days (days old : gmap bytes Z) date : days_ok days → days_ok old →
  default 0 (foldl add_day old (map_range days) !! date) =
  Z.min maxSecondsPerDay (default 0 (old !! date) + default 0 (days !! date)).
Proof.
  intros Hd Ho. pose proof (day_nonneg old date Ho).
  rewrite (foldl_range (λ _ s o, Some (Z.min (default 0 o + s) maxSecondsPerDay))).
  - destruct (days !! date) as [s|]; simpl; lia.
  - intros k s _ acc k2. unfold add_day. simpl. case_decide; [subst; by rewrite lookup_insert_eq|by rewrite lookup_insert_ne].
Qed.
Lemma add_days_ok (days old : gmap bytes Z) : days_ok days → days_ok old → days_ok (foldl add_day old (map_range days)).
Proof.
  intros Hd Ho. assert (∀ l, (∀ x, x ∈ l → days !! x.1 = Some x.2) → days_ok (foldl add_day old l)) as Hl.
  { induction l as [|x l IH] using rev_ind; [done|]. intros Hx. rewrite foldl_app. simpl.
    specialize (IH ltac:(set_solver)). assert (days !! x.1 = Some x.2) as E by (apply Hx; set_solver).
    apply map_Forall_insert_2; [|done]. destruct (Hd _ _ E) as [? ?]. split; [done|].
    pose proof (day_nonneg _ x.1 IH). unfold maxSecondsPerDay in *. lia. }
  apply Hl. intros [k s] Hx. by apply elem_of_range.
Qed.

Definition shelves_ok (m : gmap bytes (gmap bytes Z)) : Prop := map_Forall (λ _ days, days ≠ ∅ ∧ days_ok days) m.
Lemma shelf_ok m k : shelves_ok m → days_ok (default ∅ (m !! k)).
Proof. intros Hm. destruct (m !! k) as [d|] eqn:E; [by destruct (Hm k d E)|apply map_Forall_empty]. Qed.

Lemma project_fold m l : shelves_ok m → Forall (λ x, x.2 ≠ ∅ ∧ days_ok x.2) l →
  let out := default m (foldl (project_step r resolve m) None l) in
  shelves_ok out ∧ ∀ k date, sec out k date =
    if decide (is_Some (target_of r resolve k) ∧ k ∈ l.*1) then 0
    else Z.min maxSecondsPerDay (sec m k date + gained l k date).
Proof.
  intros Hm. induction l as [|[key days] l IH] using rev_ind; intros Hl.
  { split; [done|]. intros k date. rewrite decide_False by (intros [_ ?%elem_of_nil]; done).
    pose proof (day_nonneg _ date (shelf_ok m k Hm)). unfold sec. simpl. lia. }
  rewrite Forall_app, Forall_singleton in Hl. destruct Hl as [Hl [Hne Hd]]. cbn [snd] in Hne, Hd. destruct (IH Hl) as [Hok Hs]. clear IH.
  rewrite foldl_app. cbn [foldl]. set (o := foldl (project_step r resolve m) None l) in *.
  unfold project_step. cbn [fst snd]. destruct (target_of r resolve key) as [t|] eqn:Et.
  - set (out := default m o) in *. set (merged := foldl add_day _ _).
    change (default m (Some (delete key (<[t := merged]> out)))) with (delete key (<[t := merged]> out)).
    assert (days_ok merged) as Hmd by (by apply add_days_ok, shelf_ok).
    assert (∀ date, default 0 (merged !! date) = Z.min maxSecondsPerDay (sec out t date + default 0 (days !! date))) as Hmg
      by (intros date; by apply lookup_add_days, shelf_ok).
    split.
    + apply map_Forall_delete, map_Forall_insert_2; [|done]. split; [|done]. intros E.
      apply map_choose in Hne as (date & s & Hds). specialize (Hmg date). rewrite E, lookup_empty, Hds in Hmg.
      destruct (Hd date s Hds). pose proof (day_nonneg _ date (shelf_ok out t Hok)). unfold sec, maxSecondsPerDay in *.
      simpl in *. lia.
    + intros k date. rewrite fmap_app, gained_snoc. cbn [fmap list_fmap fst snd].
      destruct (decide (k = key)) as [->|Hkk].
      { rewrite Et, decide_True by (split; [by eexists|set_solver]). unfold sec. by rewrite lookup_delete_eq. }
      unfold sec at 1. rewrite lookup_delete_ne by done. rewrite Et. destruct (decide (t = k)) as [->|Htk].
      * rewrite lookup_insert_eq. change (default ∅ (Some merged)) with merged. rewrite Hmg, Hs. apply Hplain in Et.
        rewrite !decide_False by (rewrite Et; by intros [[? ?] _]). rewrite decide_True by done.
        assert (0 ≤ gained l k date) by (apply gained_nonneg, (Forall_impl _ _ _ Hl); by intros ? [_ ?]).
        pose proof (day_nonneg days date Hd). pose proof (day_nonneg _ date (shelf_ok m k Hm)). unfold sec in *. lia.
      * rewrite lookup_insert_ne by done. fold (sec out k date). rewrite Hs.
        rewrite (decide_False (P := Some t = Some k)) by congruence. rewrite Z.add_0_r.
        destruct (decide (is_Some (target_of r resolve k) ∧ k ∈ l.*1)).
        { rewrite decide_True by set_solver. done. }
        rewrite decide_False by set_solver. done.
  - split; [done|]. intros k date. rewrite Hs, fmap_app, gained_snoc. cbn [fmap list_fmap fst snd]. rewrite Et.
    rewrite (decide_False (P := None = Some k)) by done. rewrite Z.add_0_r.
    destruct (decide (is_Some (target_of r resolve k) ∧ k ∈ l.*1)).
    { rewrite decide_True by set_solver. done. }
    rewrite decide_False; [done|]. intros [[u Hu] Hin]. apply elem_of_app in Hin as [?|Hin]; [naive_solver|].
    apply list_elem_of_singleton in Hin as ->. congruence.
Qed.
End gains.

(** the time a reader gathered for single books reaches their
    shelves and none is lost or counted twice. Every day of a shelf then holds
    its own seconds and those of all books bound for it, capped at a day's
    worth; their keys are gone, every other day is as it was, and the outcome
    does not depend on the order in which the maps are ranged over. The
    targets must not be keys of the reader themselves. *)
Theorem stats_Project_conserves `{MapOrderLaws} r resolve d : normal d → r ≠ [] →
  (∀ key t, target_of r resolve key = Some t → target_of r resolve t = None) →
  let d' := Project r (Some resolve) d in
  normal d' ∧ ∀ key date, seconds_of d' key date =
    match target_of r resolve key with
    | Some _ => 0
    | None => Z.min maxSecondsPerDay
        (seconds_of d key date + gained r resolve (map_to_list (Shelves d)) key date)
    end.
Proof.
  intros [Hv Hs] Hr Hp. cbv zeta. destruct (project_fold r resolve Hp (Shelves d) (map_range (Shelves d)) Hs) as [Hok Hsec].
  { apply Forall_forall. intros [k days] Hk%elem_of_range. by apply (Hs k). }
  assert (Project r (Some resolve) d = mkDocument (Version d)
    (default (Shelves d) (foldl (project_step r resolve (Shelves d)) None (map_range (Shelves d))))) as ->.
  { unfold Project. rewrite decide_False by done. destruct (foldl _ _ _); [done|]. by destruct d. }
  split; [by split|]. intros key date.
  change (sec (default (Shelves d) (foldl (project_step r resolve (Shelves d)) None (map_range (Shelves d)))) key date =
    match target_of r resolve key with
    | Some _ => 0
    | None => Z.min maxSecondsPerDay (sec (Shelves d) key date + gained r resolve (map_to_list (Shelves d)) key date)
    end).
  rewrite Hsec, (gained_perm _ _ _ (map_to_list (Shelves d))) by apply map_range_perm.
  destruct (target_of r resolve key) as [t|] eqn:Et; [|by rewrite decide_False by (intros [[? ?] _]; done)].
  case_decide as Hc; [done|]. rewrite (gained_reader r resolve Hp _ key t date Et). unfold sec.
  destruct (Shelves d !! key) as [days|] eqn:Ek; [|done]. exfalso. apply Hc. split; [by eexists|].
  apply list_elem_of_fmap. exists (key, days). split; [done|]. by apply elem_of_range.
Qed.

End ReadingStats.
