(* ===== verification/Preferences.v ===== *)
(** * Preferences: [src/internal/preferences/preferences.go]

    Key-value settings the desktop application and the reader share, with a
    few keys kept per application. What one application sets reads back, and
    only there when the key is its own. *)

From S2P Require Import Prelude Utf8 Strings Float64 Json Fs FsSpec Atomic BookMeta Source Frame Documents LockedFile.

Module Preferences.
Import Documents LockedFile.

Definition documentVersion : Z := 1.
Definition maxKeyBytes : Z := 128.
Definition maxValueBytes : Z := 4096.
Definition appScopedKeys : list bytes := [str "plainshelf.shelf"].
Definition isAppScoped (key : bytes) : bool := bool_decide (key ∈ appScopedKeys).

(** [type Document] *)
Record Document := mkDocument { Version : Z; Shared : gmap bytes bytes; Apps : gmap bytes (gmap bytes bytes) }.
Definition New : Document := mkDocument documentVersion ∅ ∅.

(** [func validKey] *)
Definition validKey (key : bytes) : bool :=
  negb (bool_decide (key = []) || (maxKeyBytes <? Z.of_nat (length key))%Z || negb (bool_decide (TrimSpace key = key))).

Section order.
Context `{MapOrder}.

(** [func parseValues] and [Parse] *)
Definition value_step (out : gmap bytes bytes) (x : bytes * json) : gmap bytes bytes :=
  if negb (validKey x.1) then out else
  match Json.dec_string x.2 with
  | None | Some [] => out
  | Some text => <[x.1 := text]> out
  end.
Definition parseValues (value : json) : gmap bytes bytes :=
  match Json.dec_map Some value with
  | None => ∅
  | Some entries => foldl value_step ∅ (map_range entries)
  end.
Definition app_step (out : gmap bytes (gmap bytes bytes)) (x : bytes * json) : gmap bytes (gmap bytes bytes) :=
  let values := parseValues x.2 in if decide (values = ∅) then out else <[x.1 := values]> out.
Definition dec_raw (j : json) : option (F64.float64 * json * gmap bytes json) :=
  l ← Json.dec_object j;
  version ← Json.dec_float (Json.member (str "version") l);
  apps ← Json.dec_map Some (Json.member (str "apps") l);
  Some (version, Json.member (str "shared") l, apps).
Definition Parse (text : content) : Document :=
  if blank text then New else
  match unmarshal dec_raw text with
  | None => New
  | Some (version, shared, apps) =>
      if negb (F64.eqb version (F64.of_int documentVersion)) then New
      else mkDocument documentVersion (parseValues shared) (foldl app_step ∅ (map_range apps))
  end.
(** [func (d Document) For] *)
Definition For (d : Document) (app : bytes) : gmap bytes bytes :=
  foldl (λ out x, if isAppScoped x.1 then <[x.1 := x.2]> out else out) (Shared d)
    (map_range (default ∅ (Apps d !! app))).
End order.

(** [func Serialize] *)
Definition encode (doc : Document) : json :=
  JObj [(str "version", JInt (Version doc)); (str "shared", enc_map JStr (Shared doc));
        (str "apps", enc_map (enc_map JStr) (Apps doc))].
Definition Serialize (doc : Document) : result error content :=
  if printable (encode doc) then Ok (Doc (encode doc)) else Err (Msg "invalid UTF-8").

(** [func withValue]; an empty value removes the key. *)
Definition put_value (key value : bytes) (target : gmap bytes bytes) : gmap bytes bytes :=
  if decide (value = []) then delete key target else <[key := value]> target.
Definition withValue (app key value : bytes) (doc : Document) : Document :=
  let shared := if isAppScoped key then Shared doc else put_value key value (Shared doc) in
  let apps := if isAppScoped key then <[app := put_value key value (default ∅ (Apps doc !! app))]> (Apps doc)
              else Apps doc in
  mkDocument (Version doc) shared
    (if decide (default ∅ (apps !! app) = ∅) then delete app apps else apps).

(** [func (s *Store) Read] and [Set] *)
Section store.
Context `{MapOrder, Machine, HostEnv}.
Definition StoreRead (f : LockedFile) (app : bytes) : M world (gmap bytes bytes) :=
  text ← Read f; mret (For (Parse text) app).
Definition StoreSet (f : LockedFile) (app key value : bytes) : M world unit :=
  guard_err (negb (validKey key)) (Msg "invalid preference key");;
  guard_err (bool_decide (maxValueBytes < Z.of_nat (length value))%Z) (Msg "preference is too large");;
  Mutate Parse Serialize f (withValue app key value);; mret tt.
End store.

(** ** Well-formed preferences *)
Definition values_ok (m : gmap bytes bytes) : Prop := map_Forall (λ key v, validKey key = true ∧ v ≠ []) m.
Record normal (d : Document) : Prop := {
  no_version : Version d = documentVersion;
  no_shared : values_ok (Shared d);
  no_apps : map_Forall (λ _ m, m ≠ ∅ ∧ values_ok m) (Apps d);
}.

Section laws.
Context `{MapOrderLaws}.

Lemma parseValues_ok value : values_ok (parseValues value).
Proof.
  unfold parseValues. destruct (Json.dec_map _ _); [|apply map_Forall_empty].
  apply foldl_map_Forall; [apply map_Forall_empty|]. intros acc x Hacc. unfold value_step.
  destruct (validKey x.1) eqn:Ev; [|done]. cbn [negb]. destruct (Json.dec_string x.2) as [[|c t]|]; [done| |done].
  by apply map_Forall_insert_2.
Qed.

Lemma preferences_normal text : normal (Parse text).
Proof.
  assert (normal New) as Hnew by (split; [done|apply map_Forall_empty|apply map_Forall_empty]).
  unfold Parse. destruct (blank text); [done|]. destruct (unmarshal _ _) as [[[v j] m]|]; [|done].
  case_match; [done|]. split; [done|apply parseValues_ok|]. apply foldl_map_Forall; [apply map_Forall_empty|].
  intros acc x Hacc. unfold app_step. cbv zeta. case_decide; [done|].
  apply map_Forall_insert_2; [|done]. split; [done|apply parseValues_ok].
Qed.

Lemma parseValues_back m : values_ok m → parseValues (enc_map JStr m) = m.
Proof.
  intros Hm. unfold parseValues. rewrite (dec_enc_map Some JStr) by done. apply map_eq. intros k.
  rewrite (foldl_range (λ _ j o, match Json.dec_string j with None | Some [] => o | Some t => Some t end)).
  - rewrite lookup_fmap, lookup_empty. destruct (m !! k) as [v|] eqn:E; [|done]. simpl.
    destruct (Hm k v E) as [_ Hv]. by destruct v.
  - intros k' j Hj acc k2. unfold value_step. cbn [fst snd]. rewrite lookup_fmap in Hj.
    destruct (m !! k') as [v|] eqn:E; [|done]. destruct (Hm k' v E) as [-> _]. cbn [negb].
    destruct (Json.dec_string j) as [[|c t]|]; [by case_decide| |by case_decide].
    case_decide; [subst; by rewrite lookup_insert_eq|by rewrite lookup_insert_ne].
Qed.

Lemma unique_preferences d : Json.unique_names (encode d) = true.
Proof.
  apply unique_obj; [by vm_compute|]. repeat constructor; apply unique_enc_map; [done|].
  intros k a _. by apply unique_enc_map.
Qed.

Lemma dec_raw_preferences d : normal d →
  dec_raw (encode d) = Some (F64.of_int documentVersion, enc_map JStr (Shared d), enc_map JStr <$> Apps d).
Proof.
  intros [Hv _]. unfold dec_raw, encode. rewrite Hv. cbn [Json.dec_object mbind option_bind].
  change (Json.member (str "apps") _) with (enc_map (enc_map JStr) (Apps d)).
  rewrite (dec_enc_map Some (enc_map JStr)) by done. reflexivity.
Qed.

Lemma preferences_back d c : normal d → Serialize d = Ok c → Parse c = d.
Proof.
  intros Hn. pose proof Hn as [Hv Hs Ha]. unfold Serialize. destruct (printable _); [|done]. intros [= <-].
  unfold Parse. cbn [blank]. unfold unmarshal. rewrite unique_preferences, dec_raw_preferences by done. cbv beta iota.
  rewrite F64.eqb_refl by done. cbn [negb]. rewrite parseValues_back by done.
  destruct d as [v s m]. cbn [Version Shared Apps] in *. subst v. f_equal. apply map_eq. intros k.
  rewrite (foldl_range (λ _ j o, if decide (parseValues j = ∅) then o else Some (parseValues j))).
  - rewrite lookup_fmap, lookup_empty. destruct (m !! k) as [b|] eqn:E; [|done]. cbn [fmap option_fmap option_map].
    destruct (Ha k b E) as [Hne Hb]. rewrite parseValues_back by done. by rewrite decide_False.
  - intros k' j _ acc k2. unfold app_step. cbn [fst snd]. cbv zeta. case_decide; [by case_decide|].
    case_decide; [subst; by rewrite lookup_insert_eq|by rewrite lookup_insert_ne].
Qed.

#[export] Instance preferences_codec `{JsonText} : Codec Parse Serialize normal.
Proof. apply (json_codec Parse encode normal); [apply preferences_normal|apply preferences_back]. Qed.

(** ** Setting a value *)
Lemma lookup_For d app k : For d app !! k =
  if isAppScoped k then match default ∅ (Apps d !! app) !! k with Some v => Some v | None => Shared d !! k end
  else Shared d !! k.
Proof.
  unfold For. rewrite (foldl_range (λ k v o, if isAppScoped k then Some v else o)).
  - by destruct (default ∅ (Apps d !! app) !! k), (isAppScoped k).
  - intros k' v _ acc k2. cbn [fst snd]. case_decide as Hk.
    + subst. destruct (isAppScoped k2); [by rewrite lookup_insert_eq|done].
    + destruct (isAppScoped k'); [by rewrite lookup_insert_ne|done].
Qed.

Lemma lookup_put_value key value target k :
  put_value key value target !! k = if decide (k = key) then (if decide (value = []) then None else Some value) else target !! k.
Proof.
  unfold put_value. repeat case_decide; subst;
    by rewrite ?lookup_delete_eq, ?lookup_insert_eq, ?lookup_delete_ne, ?lookup_insert_ne.
Qed.

Lemma put_value_ok key value target : validKey key = true → values_ok target → values_ok (put_value key value target).
Proof.
  intros Hk Ht. unfold put_value. case_decide; [by apply map_Forall_delete|]. by apply map_Forall_insert_2.
Qed.

Lemma withValue_normal app key value d : validKey key = true → normal d → normal (withValue app key value d).
Proof.
  intros Hk [Hv Hs Ha]. unfold withValue. cbv zeta. split; [done|simpl; case_match; [done|by apply put_value_ok]|].
  simpl. set (apps := if isAppScoped key then _ else _).
  assert (∀ k m, apps !! k = Some m → k = app ∨ Apps d !! k = Some m) as Hother.
  { intros k m. unfold apps. case_match; [|by right]. destruct (decide (k = app)); [by left|].
    rewrite lookup_insert_ne by done. by right. }
  assert (∀ m, apps !! app = Some m → values_ok m) as Happ.
  { intros m. unfold apps. case_match; [|intros Hm; by apply (Ha app)]. rewrite lookup_insert_eq. intros [= <-].
    apply put_value_ok; [done|]. destruct (Apps d !! app) eqn:E; [by destruct (Ha _ _ E)|apply map_Forall_empty]. }
  intros k m Hm. case_decide as Hd.
  - apply lookup_delete_Some in Hm as [Hne Hm]. destruct (Hother k m Hm) as [->|Hm']; [done|by apply (Ha k m)].
  - destruct (Hother k m Hm) as [->|Hm']; [|by apply (Ha k m)]. split; [|by apply Happ].
    rewrite Hm in Hd. done.
Qed.

Lemma apps_withValue app key value d app' k :
  default ∅ (Apps (withValue app key value d) !! app') !! k =
  if decide (isAppScoped key = true ∧ app' = app) then put_value key value (default ∅ (Apps d !! app)) !! k
  else default ∅ (Apps d !! app') !! k.
Proof.
  unfold withValue. cbv zeta. simpl. set (apps := if isAppScoped key then _ else _).
  assert (default ∅ ((if decide (default ∅ (apps !! app) = ∅) then delete app apps else apps) !! app') = 
    default ∅ (apps !! app')) as ->.
  { case_decide as Hd; [|done]. destruct (decide (app' = app)) as [->|Hne]; [by rewrite lookup_delete_eq|].
    by rewrite lookup_delete_ne. }
  unfold apps. destruct (isAppScoped key).
  - case_decide as Hc; [destruct Hc as [_ ->]; by rewrite lookup_insert_eq|].
    rewrite lookup_insert_ne; [done|]. naive_solver.
  - rewrite decide_False; [done|]. naive_solver.
Qed.

(** a preference that was set reads back, and nothing else changes.
    The application that set it sees the new value under that key (or, after
    an empty value, what is shared under it when the key is its own, nothing
    otherwise); every other key reads as before, and so does every key of
    every other application when the key is the application's own. The
    document stays well formed. *)
Theorem withValue_reads_back app key value d : validKey key = true → normal d →
  let d' := withValue app key value d in
  normal d' ∧ (∀ app' k, k ≠ key → For d' app' !! k = For d app' !! k) ∧
  For d' app !! key =
    (if decide (value = []) then (if isAppScoped key then Shared d !! key else None) else Some value) ∧
  ∀ app', app' ≠ app → isAppScoped key = true → For d' app' = For d app'.
Proof.
  intros Hk Hn. cbv zeta. split; [by apply withValue_normal|].
  assert (∀ k, Shared (withValue app key value d) !! k =
    if isAppScoped key then Shared d !! k else put_value key value (Shared d) !! k) as Hsh
    by (intros k; unfold withValue; simpl; by destruct (isAppScoped key)).
  split; [|split].
  - intros app' k Hne. rewrite !lookup_For, Hsh, apps_withValue, !lookup_put_value.
    rewrite !(decide_False (P := k = key)) by done. case_decide as Hc; [destruct Hc as [-> ->]|]; [done|].
    by destruct (isAppScoped key).
  - rewrite lookup_For, Hsh, apps_withValue, !lookup_put_value. rewrite !(decide_True (P := key = key)) by done.
    destruct (isAppScoped key); [rewrite decide_True by done|]; by case_decide.
  - intros app' Hne Hs. apply map_eq. intros k. rewrite !lookup_For, Hsh, Hs, apps_withValue.
    by rewrite decide_False by (intros [_ ?]; done).
Qed.
End laws.
End Preferences.
