(* ===== verification/ReaderStores.v ===== *)
(** * The four documents of a reader together

    Progress, history, statistics and preferences: what any file reads as, and
    that what is written reads back. *)

From S2P Require Import Prelude Utf8 Strings Float64 Json Fs FsSpec Atomic BookMeta Source Frame Documents LockedFile ReadingProgress ReadHistory ReadingStats Preferences.

Module ReaderStores.

Section documents.
Context `{MapOrderLaws}.

(** Claim C40: the reader's documents are well typed whatever their files
    hold, and survive them. Every text, damaged or foreign ones included,
    reads as a well-formed document (names trimmed and not empty, offsets and
    times integers a JSON number carries exactly, histories without a book
    twice and within their limit, days valid and of at most 86400 seconds,
    preferences with valid keys and no empty value); and a well-formed
    document that can be written reads back as itself. *)
Theorem reader_documents text :
  (ReadingProgress.normal (ReadingProgress.Parse text) ∧
   ∀ d c, ReadingProgress.normal d → ReadingProgress.Serialize d = Ok c → ReadingProgress.Parse c = d) ∧
  (ReadHistory.normal (ReadHistory.Parse text) ∧
   ∀ d c, ReadHistory.normal d → ReadHistory.Serialize d = Ok c → ReadHistory.Parse c = d) ∧
  (ReadingStats.normal (ReadingStats.Parse text) ∧
   ∀ d c, ReadingStats.normal d → ReadingStats.Serialize d = Ok c → ReadingStats.Parse c = d) ∧
  (Preferences.normal (Preferences.Parse text) ∧
   ∀ d c, Preferences.normal d → Preferences.Serialize d = Ok c → Preferences.Parse c = d).
Proof.
  split; [|split; [|split]]; split.
  - apply ReadingProgress.Parse_normal.
  - apply ReadingProgress.Parse_Serialize.
  - apply ReadHistory.history_normal.
  - apply ReadHistory.history_back.
  - apply ReadingStats.stats_normal.
  - apply ReadingStats.stats_back.
  - apply Preferences.preferences_normal.
  - apply Preferences.preferences_back.
Qed.
End documents.
End ReaderStores.
