(* ===== verification/TaskQueue.v ===== *)
(** * The task queue: [src/internal/taskutil]

    Chains of tasks are shared objects: the pool's table, the worker's channel
    and the callers hold pointers to them, so they live in a store. [Submit],
    [Cancel] and the other calls of [pool.go] are functions on the state, one
    per critical section; the goroutine of [Worker.work] is a small machine
    ([phase]) whose turns interleave with them in the step relation [qstep].
    The tasks themselves are the interface [Task]: a running task may report
    any status and progress; [qstep] states what a task owes the queue (a
    terminal status is final, [Run] leaves one behind, and a chain goes on
    only after success), which every task of [server/task] meets. *)

From S2P Require Import Prelude Utf8 Strings Float64 Json.
From stdpp Require Import relations.

Module TaskQueue.

(** [type Status] *)
Inductive Status :=
  | StatusPending
  | StatusRunning
  | StatusPartiallyCompleted
  | StatusCompleted
  | StatusFailed.
#[export] Instance Status_eq_dec : EqDecision Status.
Proof. solve_decision. Defined.

Definition StatusString (s : Status) : bytes :=
  match s with
  | StatusPending => str "pending"
  | StatusRunning => str "running"
  | StatusPartiallyCompleted => str "partially_completed"
  | StatusCompleted => str "completed"
  | StatusFailed => str "failed"
  end.
Definition IsTerminal (s : Status) : bool :=
  match s with
  | StatusPartiallyCompleted | StatusCompleted | StatusFailed => true
  | _ => false
  end.

(** What a [Task] answers, as of now. *)
Record Task := mkTask { TName : bytes; TPercentage : F64.float64; TStatus : Status }.

(** [type TaskChain]; [cctx] is nil, or whether [cancel] was called. *)
Record TaskChain := mkChain {
  cID : bytes;
  Key : bytes;
  CreatedAt : Z;
  Tasks : list Task;
  cctx : option bool;
  panicked : bool;
}.
Definition set_cID (id : bytes) (c : TaskChain) : TaskChain :=
  mkChain id (Key c) (CreatedAt c) (Tasks c) (cctx c) (panicked c).
Definition set_CreatedAt (z : Z) (c : TaskChain) : TaskChain :=
  mkChain (cID c) (Key c) z (Tasks c) (cctx c) (panicked c).
Definition set_Tasks (l : list Task) (c : TaskChain) : TaskChain :=
  mkChain (cID c) (Key c) (CreatedAt c) l (cctx c) (panicked c).
Definition set_panicked (c : TaskChain) : TaskChain :=
  mkChain (cID c) (Key c) (CreatedAt c) (Tasks c) (cctx c) true.

(** [attachContext] and [Cancel] of a chain. *)
Definition attachContext (c : TaskChain) : TaskChain :=
  mkChain (cID c) (Key c) (CreatedAt c) (Tasks c) (Some false) (panicked c).
Definition ChainCancel (c : TaskChain) : TaskChain :=
  mkChain (cID c) (Key c) (CreatedAt c) (Tasks c) (const true <$> cctx c) (panicked c).

(** [func (c *TaskChain) Status]: the loop with its early return, then the
    summary. *)
Fixpoint status_loop (l : list Task) (settled : nat) (running partial : bool) :
    option (nat * bool * bool) :=
  match l with
  | [] => Some (settled, running, partial)
  | t :: l =>
      match TStatus t with
      | StatusFailed => None
      | StatusPartiallyCompleted => status_loop l (S settled) running true
      | StatusCompleted => status_loop l (S settled) running partial
      | StatusRunning => status_loop l settled true partial
      | StatusPending => status_loop l settled running partial
      end
  end.
Definition ChainStatus (c : TaskChain) : Status :=
  if panicked c then StatusFailed else
  if decide (length (Tasks c) = 0) then StatusCompleted else
  match status_loop (Tasks c) 0 false false with
  | None => StatusFailed
  | Some (settled, running, partial) =>
      if decide (settled < length (Tasks c)) then
        if running || bool_decide (0 < settled) then StatusRunning else StatusPending
      else if (partial : bool) then StatusPartiallyCompleted else StatusCompleted
  end.

(** [func (c *TaskChain) Percentage] *)
Definition clamp_percentage (p : F64.float64) : F64.float64 :=
  F64.fmin (F64.fmax p F64.zero) (F64.of_int 100).
Definition ChainPercentage (c : TaskChain) : F64.float64 :=
  if decide (length (Tasks c) = 0) then F64.of_int 100 else
  F64.div (foldl (λ total t, F64.add total (clamp_percentage (TPercentage t))) F64.zero (Tasks c))
    (F64.of_int (Z.of_nat (length (Tasks c)))).

(** ** The progress of a task: [progress.go] *)
Record Progress := mkProgress { status : Status; done : Z; total : Z }.
Definition NewProgress : Progress := mkProgress StatusPending 0 0.
Definition SetStatus (s : Status) (p : Progress) : Progress := mkProgress s (done p) (total p).
Definition SetTotal (n : Z) (p : Progress) : Progress := mkProgress (status p) (done p) (Z.max n 0).
Definition Advance (p : Progress) : Progress :=
  if (done p <? total p)%Z then mkProgress (status p) (done p + 1) (total p) else p.
Definition Percentage (p : Progress) : F64.float64 :=
  if (total p <=? 0)%Z then
    if IsTerminal (status p) && negb (bool_decide (status p = StatusFailed))
    then F64.of_int 100 else F64.zero
  else F64.mul (F64.div (F64.of_int (done p)) (F64.of_int (total p))) (F64.of_int 100).
Definition Counts (p : Progress) : Z * Z := (done p, total p).

(** ** The pool and its worker *)
Definition loc := nat.

(** Where the goroutine of [work] is: not started, waiting for a chain, about
    to run a task of a chain or to leave its loop, about to release the
    chain, or returned. *)
Inductive phase :=
  | NotStarted
  | Waiting
  | Running (l : loc) (i : nat)
  | Releasing (l : loc)
  | Stopped.

(** [type Worker], without the goroutine. *)
Record Worker := mkWorker {
  maxLen : Z;
  chains : list loc;
  wcancelled : bool;
  closed : bool;
}.
Definition NewWorker (n : Z) : Worker := mkWorker (if (n <=? 0)%Z then 100 else n) [] false false.

(** [type Pool], with the store of the chains and the goroutine. *)
Record Pool := mkPool {
  worker : Worker;
  maxKeep : Z;
  byID : gmap bytes loc;
  order : list bytes;
  store : gmap loc TaskChain;
  at_ : phase;
}.
Definition defaultMaxKeep : Z := 100.
Definition NewPool (w : Worker) (keep : Z) : Pool :=
  mkPool w (if (keep <=? 0)%Z then defaultMaxKeep else keep) ∅ [] ∅ NotStarted.

Definition set_worker (w : Worker) (p : Pool) : Pool :=
  mkPool w (maxKeep p) (byID p) (order p) (store p) (at_ p).
Definition set_at (f : phase) (p : Pool) : Pool :=
  mkPool (worker p) (maxKeep p) (byID p) (order p) (store p) f.
Definition set_table (m : gmap bytes loc) (o : list bytes) (p : Pool) : Pool :=
  mkPool (worker p) (maxKeep p) m o (store p) (at_ p).
Definition update_chain (l : loc) (f : TaskChain → TaskChain) (p : Pool) : Pool :=
  mkPool (worker p) (maxKeep p) (byID p) (order p) (alter f l (store p)) (at_ p).
Definition set_chains (q : list loc) (w : Worker) : Worker :=
  mkWorker (maxLen w) q (wcancelled w) (closed w).

(** The status of the chain behind a pointer. *)
Definition terminal_at (p : Pool) (l : loc) : bool :=
  match store p !! l with Some c => IsTerminal (ChainStatus c) | None => true end.

(** The errors callers tell apart. *)
Inductive queue_error := ErrNilChain | ErrTaskChainRunning | ErrWorkerBusy | ErrWorkerClosed.

(** [func (w *Worker) TryEnqueue] *)
Definition TryEnqueue (l : loc) (p : Pool) : option queue_error * Pool :=
  let w := worker p in
  if closed w then (Some ErrWorkerClosed, p) else
  let p := update_chain l attachContext p in
  if (Z.of_nat (length (chains w)) <? maxLen w)%Z
  then (None, set_worker (set_chains (chains w ++ [l]) w) p)
  else (Some ErrWorkerBusy, update_chain l ChainCancel p).

(** [func (p *Pool) findActiveLocked] *)
Fixpoint find_active (p : Pool) (key : bytes) (ids : list bytes) : option loc :=
  match ids with
  | [] => None
  | id :: ids =>
      match byID p !! id with
      | None => find_active p key ids
      | Some l =>
          match store p !! l with
          | None => find_active p key ids
          | Some c =>
              if decide (Key c ≠ key) then find_active p key ids else
              if negb (IsTerminal (ChainStatus c)) then Some l else find_active p key ids
          end
      end
  end.
Definition findActiveLocked (key : bytes) (p : Pool) : option loc := find_active p key (order p).

(** [slices.Delete] of the first occurrence. *)
Fixpoint remove_first (id : bytes) (l : list bytes) : list bytes :=
  match l with
  | [] => []
  | x :: l => if decide (x = id) then l else x :: remove_first id l
  end.
Definition removeLocked (id : bytes) (p : Pool) : Pool :=
  set_table (delete id (byID p)) (remove_first id (order p)) p.

(** [func (p *Pool) evictLocked]: the inner loop finds the oldest entry that
    may go; each turn of the outer one removes an entry. *)
Definition evictable (p : Pool) (id : bytes) : bool :=
  match byID p !! id with Some l => terminal_at p l | None => true end.
Definition find_evictable (p : Pool) : option bytes :=
  snd <$> list_find (λ id, evictable p id = true) (order p).
Fixpoint evict_loop (fuel : nat) (p : Pool) : Pool :=
  match fuel with
  | 0 => p
  | S fuel =>
      if (Z.of_nat (length (order p)) <=? maxKeep p)%Z then p else
      match find_evictable p with
      | None => p
      | Some id => evict_loop fuel (removeLocked id p)
      end
  end.
Definition evictLocked (p : Pool) : Pool := evict_loop (S (length (order p))) p.

(** [func (p *Pool) Submit]: [id] is the draw of [rand.Text], [now] the
    clock. Both results as Go returns them. *)
Definition Submit (id : bytes) (now : Z) (chain : option loc) (p : Pool) :
    (option loc * option queue_error) * Pool :=
  match chain with
  | None => ((None, Some ErrNilChain), p)
  | Some l =>
      let c := default (mkChain [] [] zero_time [] None false) (store p !! l) in
      match (if decide (Key c ≠ []) then findActiveLocked (Key c) p else None) with
      | Some active => ((Some active, Some ErrTaskChainRunning), p)
      | None =>
          let p := update_chain l (set_cID id) p in
          let p := if decide (CreatedAt c = zero_time) then update_chain l (set_CreatedAt now) p else p in
          match TryEnqueue l p with
          | (Some e, p) => ((None, Some e), update_chain l (set_cID []) p)
          | (None, p) =>
              let p := set_table (<[id := l]> (byID p)) (order p ++ [id]) p in
              ((Some l, None), evictLocked p)
          end
      end
  end.

(** [Get], [List], [Busy] and [Cancel] of the pool. *)
Definition Get (id : bytes) (p : Pool) : option loc := byID p !! id.
Definition List (p : Pool) : list loc := omap (λ id, byID p !! id) (reverse (order p)).
Definition Busy (p : Pool) : bool :=
  existsb (λ l, negb (terminal_at p l)) (map_to_list (byID p)).*2.

Inductive CancelResult := CancelSignalled | CancelNotFound | CancelAlreadyTerminal.
Definition Cancel (id : bytes) (p : Pool) : (option loc * CancelResult) * Pool :=
  match byID p !! id with
  | None => ((None, CancelNotFound), p)
  | Some l =>
      if terminal_at p l then ((Some l, CancelAlreadyTerminal), p)
      else ((Some l, CancelSignalled), update_chain l ChainCancel p)
  end.

(** [Close] of the worker, up to [w.wg.Wait()]; its two critical parts. *)
Definition close_channel (p : Pool) : Pool :=
  let w := worker p in
  if closed w then p else set_worker (mkWorker (maxLen w) (chains w) (wcancelled w) true) p.
Definition cancel_all (p : Pool) : Pool :=
  let w := worker p in set_worker (mkWorker (maxLen w) (chains w) true (closed w)) p.
Definition Start (p : Pool) : Pool :=
  match at_ p with NotStarted => set_at Waiting p | _ => p end.

(** The context a task of the chain sees. *)
Definition ctx_cancelled (p : Pool) (l : loc) : bool :=
  wcancelled (worker p) ||
  match store p !! l with Some c => default false (cctx c) | None => false end.

(** How a [Run] ends. *)
Inductive outcome := Returned (failed : bool) | Panicked.

(** ** The turns of [work] *)
Definition receive (p : Pool) : Pool :=
  match at_ p, chains (worker p) with
  | Waiting, l :: q => set_at (Running l 0) (set_worker (set_chains q (worker p)) p)
  | Waiting, [] => if closed (worker p) then set_at Stopped p else p
  | _, _ => p
  end.
Definition finish_task (l : loc) (i : nat) (o : outcome) (p : Pool) : Pool :=
  match o with
  | Returned false => set_at (Running l (S i)) p
  | Returned true => set_at (Releasing l) p
  | Panicked => set_at (Releasing l) (update_chain l set_panicked p)
  end.
Definition release (l : loc) (p : Pool) : Pool := set_at Waiting (update_chain l ChainCancel p).

Definition report (l : loc) (i : nat) (t : Task) (p : Pool) : Pool :=
  update_chain l (λ c, set_Tasks (<[i := t]> (Tasks c)) c) p.

(** ** The queue as a step relation *)

(** What a task owes when its [Run] ends: a terminal status, and after an
    error no later task is expected to run, for the chain has failed or is at
    its end. A panic owes nothing. *)
Definition owes (c : TaskChain) (i : nat) (t : Task) (o : outcome) : Prop :=
  match o with
  | Panicked => True
  | Returned failed => IsTerminal (TStatus t) = true ∧
      (failed = true → TStatus t = StatusFailed ∨ S i = length (Tasks c))
  end.

Inductive event := Accepted (l : loc) | Started (l : loc) | Quiet.

Definition submit_event (l : loc) (r : option loc * option queue_error) : event :=
  match r.2 with None => Accepted l | Some _ => Quiet end.
Definition receive_event (p : Pool) : event :=
  match chains (worker p) with l :: _ => Started l | [] => Quiet end.

(** [q_create] is a caller's [&TaskChain{...}]; a chain is submitted by the
    caller that made it, and a drawn ID is one no chain has. *)
Inductive qstep : event → Pool → Pool → Prop :=
  | q_create l c p :
      store p !! l = None → cID c = [] → cctx c = None → panicked c = false →
      qstep Quiet p (mkPool (worker p) (maxKeep p) (byID p) (order p) (<[l := c]> (store p)) (at_ p))
  | q_submit id now l c p :
      store p !! l = Some c → cID c = [] → id ≠ [] →
      (∀ l' c', store p !! l' = Some c' → cID c' ≠ id) → byID p !! id = None →
      qstep (submit_event l (Submit id now (Some l) p).1) p (Submit id now (Some l) p).2
  | q_cancel id p : qstep Quiet p (Cancel id p).2
  | q_start p : qstep Quiet p (Start p)
  | q_close p : qstep Quiet p (close_channel p)
  | q_cancel_all p : closed (worker p) = true → qstep Quiet p (cancel_all p)
  | q_receive p : at_ p = Waiting → qstep (receive_event p) p (receive p)
  | q_report l i c t t' p :
      at_ p = Running l i → store p !! l = Some c → Tasks c !! i = Some t →
      (IsTerminal (TStatus t) = true → TStatus t' = TStatus t) →
      qstep Quiet p (report l i t' p)
  | q_task l i c t o p :
      at_ p = Running l i → store p !! l = Some c → Tasks c !! i = Some t → owes c i t o →
      qstep Quiet p (finish_task l i o p)
  | q_end l i c p :
      at_ p = Running l i → store p !! l = Some c → length (Tasks c) ≤ i →
      qstep Quiet p (set_at (Releasing l) p)
  | q_release l p : at_ p = Releasing l → qstep Quiet p (release l p).

Inductive qrun : list event → Pool → Pool → Prop :=
  | qrun_nil p : qrun [] p p
  | qrun_snoc es e p p' p'' : qrun es p p' → qstep e p' p'' → qrun (es ++ [e]) p p''.

(** ** The status of a chain *)
Definition has (s : Status) (l : list Task) : bool := existsb (λ t, bool_decide (TStatus t = s)) l.
Definition settled_count (l : list Task) : nat := length (filter (λ t, IsTerminal (TStatus t) = true) l).

Lemma status_loop_eq l : ∀ n r q,
  status_loop l n r q =
  if has StatusFailed l then None
  else Some (n + settled_count l, r || has StatusRunning l, q || has StatusPartiallyCompleted l).
Proof.
  unfold settled_count. induction l as [|t l IH]; intros n r q; simpl.
  { by rewrite Nat.add_0_r, !orb_false_r. }
  rewrite filter_cons.
  destruct (TStatus t) eqn:E; simpl; try done; rewrite IH; destruct (has StatusFailed l); try done;
    simpl; by rewrite ?orb_true_r, ?Nat.add_succ_r.
Qed.

Lemma settled_le l : settled_count l ≤ length l.
Proof. apply length_filter. Qed.
Lemma settled_all l : settled_count l = length l ↔ Forall (λ t, IsTerminal (TStatus t) = true) l.
Proof.
  unfold settled_count. induction l as [|t l IH]; [done|]. rewrite filter_cons, Forall_cons.
  pose proof (settled_le l) as Hle. unfold settled_count in Hle.
  rewrite <-IH. case_decide; simpl; split; intros; (split || idtac); try done; try lia; naive_solver lia.
Qed.

Definition settled_chain (c : TaskChain) : Prop :=
  panicked c = true ∨ has StatusFailed (Tasks c) = true ∨
  Forall (λ t, IsTerminal (TStatus t) = true) (Tasks c).

Lemma terminal_spec c : IsTerminal (ChainStatus c) = true ↔ settled_chain c.
Proof.
  unfold ChainStatus, settled_chain. destruct (panicked c); [naive_solver|].
  case_decide as Hl.
  { apply nil_length_inv in Hl as ->. simpl. naive_solver. }
  rewrite status_loop_eq, <-settled_all. pose proof (settled_le (Tasks c)).
  destruct (has StatusFailed (Tasks c)); [naive_solver|]. simpl. case_decide.
  - destruct (_ || _); simpl; naive_solver lia.
  - destruct (has _ _); simpl; naive_solver lia.
Qed.

(** the status of a chain of tasks. It is failed exactly when a
    task panicked or failed, and otherwise completed or partially completed
    exactly when every task has settled, the latter when some task did only
    partially; a chain that is pending or running has neither failed nor
    settled, and it is pending exactly when no task runs or has settled. *)
Theorem ChainStatus_spec c :
  let all := Forall (λ t, IsTerminal (TStatus t) = true) (Tasks c) in
  let failed := panicked c = true ∨ has StatusFailed (Tasks c) = true in
  match ChainStatus c with
  | StatusFailed => failed
  | StatusCompleted => ¬ failed ∧ all ∧ has StatusPartiallyCompleted (Tasks c) = false
  | StatusPartiallyCompleted => ¬ failed ∧ all ∧ has StatusPartiallyCompleted (Tasks c) = true
  | StatusRunning => ¬ failed ∧ ¬ all ∧
      (has StatusRunning (Tasks c) = true ∨ settled_count (Tasks c) ≠ 0)
  | StatusPending => ¬ failed ∧ ¬ all ∧
      Forall (λ t, TStatus t = StatusPending) (Tasks c)
  end.
Proof.
  simpl. unfold ChainStatus. destruct (panicked c); [by left|].
  case_decide as Hl.
  { apply nil_length_inv in Hl as ->. simpl. naive_solver. }
  rewrite status_loop_eq. pose proof (settled_le (Tasks c)). pose proof (settled_all (Tasks c)) as Ha.
  destruct (has StatusFailed (Tasks c)) eqn:Hf; [by right|]. simpl. case_decide as Hs.
  - assert (¬ Forall (λ t, IsTerminal (TStatus t) = true) (Tasks c)) as Hn by (rewrite <-Ha; lia).
    assert (¬ (false = true ∨ false = true)) as Hff by (by intros [?|?]).
    destruct (has StatusRunning (Tasks c)) eqn:Hr; simpl; [auto|].
    case_bool_decide as Hz; [split; [done|]; split; [done|]; right; lia|].
    split; [done|]. split; [done|].
    assert (settled_count (Tasks c) = 0) as H0 by lia. clear -Hf Hr H0.
    induction (Tasks c) as [|t l IH]; [done|]. unfold settled_count in *. rewrite filter_cons in H0.
    simpl in Hf, Hr. apply orb_false_elim in Hf as [Hf ?], Hr as [Hr ?].
    apply bool_decide_eq_false in Hf, Hr.
    case_decide as Ht; [done|]. constructor; [by destruct (TStatus t)|auto].
  - assert (Forall (λ t, IsTerminal (TStatus t) = true) (Tasks c)) as Hy by (apply Ha; lia).
    destruct (has StatusPartiallyCompleted (Tasks c)); naive_solver.
Qed.

End TaskQueue.
