(* ===== verification/TaskQueueSpec.v ===== *)
(** * What the task queue guarantees

    [queue_ok] is the invariant of the pool and its worker; [qrun_ok] carries
    it through every run. From it follow the properties of the pool: one
    active chain per key, a bounded table, submission order, and that a closed
    queue drains. *)

From S2P Require Import Prelude Utf8 Strings Float64 Json TaskQueue.
From stdpp Require Import relations.

Module TaskQueueSpec.
Import TaskQueue.

Definition held (f : phase) : list loc :=
  match f with Running l _ | Releasing l => [l] | _ => [] end.
(** The chains the worker has or will get. *)
Definition pending (p : Pool) : list loc := held (at_ p) ++ chains (worker p).

Definition reached (p : Pool) : Prop :=
  match at_ p with
  | Running l i => ∃ c, store p !! l = Some c ∧
      Forall (λ t, IsTerminal (TStatus t) = true) (take i (Tasks c))
  | Releasing l => terminal_at p l = true
  | Stopped => chains (worker p) = [] ∧ closed (worker p) = true
  | _ => True
  end.

Definition table_bound (p : Pool) : Z := Z.max (maxKeep p) (maxLen (worker p) + 1).

Record queue_ok (p : Pool) : Prop := {
  qo_order : NoDup (order p);
  qo_table id : id ∈ order p ↔ is_Some (byID p !! id);
  qo_entry id l : byID p !! id = Some l → ∃ c, store p !! l = Some c ∧ cID c = id ∧ id ≠ [];
  qo_distinct : NoDup (pending p);
  qo_pending l : l ∈ pending p → ∃ c, store p !! l = Some c ∧ cID c ≠ [];
  qo_active id l : byID p !! id = Some l → terminal_at p l = false → l ∈ pending p;
  qo_key id1 id2 l1 l2 c1 c2 :
    byID p !! id1 = Some l1 → byID p !! id2 = Some l2 →
    store p !! l1 = Some c1 → store p !! l2 = Some c2 →
    Key c1 = Key c2 → Key c1 ≠ [] →
    terminal_at p l1 = false → terminal_at p l2 = false → id1 = id2;
  qo_len : (Z.of_nat (length (chains (worker p))) ≤ maxLen (worker p))%Z;
  qo_size : (Z.of_nat (length (order p)) ≤ table_bound p)%Z;
  qo_reached : reached p;
}.

(** ** Changing one chain *)
Definition calm (f : TaskChain → TaskChain) (c : TaskChain) : Prop :=
  Key (f c) = Key c ∧ cID (f c) = cID c ∧ (settled_chain c → settled_chain (f c)).

Lemma update_lookup l f p l' :
  store (update_chain l f p) !! l' = (if decide (l = l') then f <$> store p !! l' else store p !! l').
Proof.
  simpl. case_decide as E; [subst; by rewrite lookup_alter_eq|by rewrite lookup_alter_ne].
Qed.

Lemma terminal_update l f p l' :
  (∀ c, store p !! l = Some c → calm f c) →
  terminal_at p l' = true → terminal_at (update_chain l f p) l' = true.
Proof.
  intros Hf. unfold terminal_at. rewrite update_lookup. case_decide as E; [subst l'|done].
  destruct (store p !! l) as [c|] eqn:Hc; [|done]. simpl. rewrite !terminal_spec.
  by apply (Hf c).
Qed.

Lemma store_update l f p l' c' :
  store (update_chain l f p) !! l' = Some c' →
  (∀ c, store p !! l = Some c → calm f c) →
  ∃ c, store p !! l' = Some c ∧ Key c' = Key c ∧ cID c' = cID c.
Proof.
  rewrite update_lookup. intros Hc Hf. case_decide as E; [subst l'|eauto].
  destruct (store p !! l) as [c|] eqn:El; [|done]. injection Hc as <-.
  destruct (Hf c eq_refl) as (?&?&_). eauto.
Qed.

Lemma ok_update l f p :
  queue_ok p → (∀ c, store p !! l = Some c → calm f c) → reached (update_chain l f p) →
  queue_ok (update_chain l f p).
Proof.
  intros [H1 H2 H3 H4 H5 H6 H7 H8 H9 H10] Hf Hr.
  assert (∀ l' c, store p !! l' = Some c →
    ∃ c', store (update_chain l f p) !! l' = Some c' ∧ cID c' = cID c) as Hfw.
  { intros l' c Hc. rewrite update_lookup. case_decide as E; [subst l'|eauto]. rewrite Hc.
    simpl. eexists. split; [done|]. by apply Hf. }
  assert (∀ l', terminal_at (update_chain l f p) l' = false → terminal_at p l' = false) as Hact.
  { intros l' Ht. destruct (terminal_at p l') eqn:E; [|done].
    by rewrite (terminal_update l f p l' Hf E) in Ht. }
  split; [done|done| |done| | | |done|done|done].
  - intros id l' (c & Hc & Hid & Hne)%H3. destruct (Hfw _ _ Hc) as (c' & ? & E). exists c'. by rewrite E.
  - intros l' (c & Hc & Hne)%H5. destruct (Hfw _ _ Hc) as (c' & ? & E). exists c'. by rewrite E.
  - intros id l' Hl Ht. by eapply H6, Hact.
  - intros id1 id2 l1 l2 c1 c2 Hl1 Hl2 Hc1 Hc2 Hk Hne Ht1 Ht2.
    destruct (store_update _ _ _ _ _ Hc1 Hf) as (d1 & Hd1 & E1 & _).
    destruct (store_update _ _ _ _ _ Hc2 Hf) as (d2 & Hd2 & E2 & _).
    apply (H7 id1 id2 l1 l2 d1 d2); try done; try congruence; by apply Hact.
Qed.

(** A change that leaves the tasks alone. *)
Lemma reached_update l f p :
  queue_ok p → (∀ c, store p !! l = Some c → calm f c) →
  (∀ c, store p !! l = Some c → ∀ i, at_ p = Running l i → take i (Tasks (f c)) = take i (Tasks c)) →
  reached (update_chain l f p).
Proof.
  intros Hok Hf Ht. pose proof (qo_reached _ Hok) as Hr. unfold reached in *.
  change (at_ (update_chain l f p)) with (at_ p). destruct (at_ p) as [| |l' i|l'|] eqn:Ea; try done.
  - destruct Hr as (c & Hc & Hall). rewrite update_lookup. case_decide as E; [subst l'|eauto].
    rewrite Hc. simpl. eexists. split; [done|]. by rewrite (Ht c Hc i).
  - by apply terminal_update.
Qed.

Lemma ok_calm l f p :
  queue_ok p → (∀ c, calm f c) → (∀ c, Tasks (f c) = Tasks c) → queue_ok (update_chain l f p).
Proof.
  intros Hok Hf Ht. apply ok_update; [done|auto|]. apply reached_update; [done|auto|].
  intros c _ i _. by rewrite Ht.
Qed.

Lemma calm_same f c : Key (f c) = Key c → cID (f c) = cID c → Tasks (f c) = Tasks c →
  (panicked c = true → panicked (f c) = true) → calm f c.
Proof.
  intros Hk Hid Ht Hp. split; [done|]. split; [done|]. unfold settled_chain. rewrite Ht. naive_solver.
Qed.
Lemma calm_cancel c : calm ChainCancel c.
Proof. by apply calm_same. Qed.
Lemma calm_attach c : calm attachContext c.
Proof. by apply calm_same. Qed.
Lemma calm_panicked c : calm set_panicked c.
Proof. by apply calm_same. Qed.
Lemma calm_created z c : calm (set_CreatedAt z) c.
Proof. by apply calm_same. Qed.

(** A report of the task that runs. *)
Lemma existsb_insert {A} (f : A → bool) l i x y :
  l !! i = Some x → (f x = true → f y = true) → existsb f l = true → existsb f (<[i := y]> l) = true.
Proof.
  intros Hl Hf. revert i Hl. induction l as [|z l IH]; intros [|i] Hl; simpl; try done.
  - injection Hl as ->. rewrite !orb_true_iff. naive_solver.
  - rewrite !orb_true_iff. naive_solver.
Qed.

Lemma calm_report i t t' c :
  Tasks c !! i = Some t → (IsTerminal (TStatus t) = true → TStatus t' = TStatus t) →
  calm (λ c, set_Tasks (<[i := t']> (Tasks c)) c) c.
Proof.
  intros Hi Ht. split; [done|]. split; [done|]. intros [Hp|[Hf|Ha]]; [by left|right; left|right; right]; simpl.
  - eapply existsb_insert; [done| |done]. simpl. rewrite !bool_decide_eq_true. intros E.
    rewrite E in Ht. by apply Ht.
  - rewrite Forall_forall in Ha. assert (IsTerminal (TStatus t) = true) as Hterm.
    { apply Ha. by eapply list_elem_of_lookup_2. }
    apply Forall_forall. intros x [j Hj]%list_elem_of_lookup_1.
    destruct (decide (i = j)) as [<-|Hne].
    + rewrite list_lookup_insert_eq in Hj by (by eapply lookup_lt_Some). injection Hj as <-.
      by rewrite Ht.
    + rewrite list_lookup_insert_ne in Hj by done. apply Ha. by eapply list_elem_of_lookup_2.
Qed.

(** ** Eviction *)
Lemma remove_first_spec id l : NoDup l → ∀ x, x ∈ remove_first id l ↔ x ∈ l ∧ x ≠ id.
Proof.
  induction 1 as [|y l Hy Hnd IH]; intros x; simpl; [set_solver|].
  case_decide as E; [subst; set_solver|]. rewrite !elem_of_cons, IH. naive_solver.
Qed.
Lemma NoDup_remove_first id l : NoDup l → NoDup (remove_first id l).
Proof.
  induction 1 as [|y l Hy Hnd IH]; simpl; [constructor|]. case_decide; [done|]. constructor; [|done].
  by rewrite remove_first_spec by done; intros [? _].
Qed.
Lemma length_remove_first id l : id ∈ l → S (length (remove_first id l)) = length l.
Proof.
  induction l as [|y l IH]; [by intros ?%elem_of_nil|]. simpl. intros [->|Hin]%elem_of_cons.
  - by rewrite decide_True.
  - case_decide; [done|]. simpl. by rewrite IH.
Qed.

Lemma find_evictable_spec p id : find_evictable p = Some id → id ∈ order p ∧ evictable p id = true.
Proof.
  unfold find_evictable. intros ([i x] & Hf & E)%fmap_Some. simpl in E. subst x.
  apply list_find_Some in Hf as (Hx & He & _). split; [by eapply list_elem_of_lookup_2|done].
Qed.
Lemma find_evictable_none p id : find_evictable p = None → id ∈ order p → evictable p id = false.
Proof.
  unfold find_evictable. intros Hf%fmap_None Hin. apply list_find_None in Hf.
  rewrite Forall_forall in Hf. by apply not_true_is_false, Hf.
Qed.

(** Apart from the size, which eviction is there to restore. *)
Record table_ok (p p' : Pool) : Prop := {
  to_store : store p' = store p;
  to_at : at_ p' = at_ p;
  to_worker : worker p' = worker p;
  to_keep : maxKeep p' = maxKeep p;
  to_nodup : NoDup (order p');
  to_table id : id ∈ order p' ↔ is_Some (byID p' !! id);
  to_sub id l : byID p' !! id = Some l → byID p !! id = Some l;
  to_gone id l : byID p !! id = Some l → terminal_at p l = false → byID p' !! id = Some l;
}.

Lemma table_ok_refl p : NoDup (order p) → (∀ id, id ∈ order p ↔ is_Some (byID p !! id)) → table_ok p p.
Proof. by split. Qed.

Lemma table_ok_remove p p' id :
  table_ok p p' → find_evictable p' = Some id → table_ok p (removeLocked id p').
Proof.
  intros [H1 H2 H3 H4 H5 H6 H7 H8] [Hin He]%find_evictable_spec.
  split; simpl; try done.
  - by apply NoDup_remove_first.
  - intros x. rewrite remove_first_spec, H6 by done. rewrite lookup_delete_is_Some. naive_solver.
  - intros x l [? Hx]%lookup_delete_Some. by apply H7.
  - intros x l Hx Ht. apply lookup_delete_Some. split; [|by apply H8].
    intros ->. unfold evictable in He. rewrite (H8 x l Hx Ht) in He. unfold terminal_at in He, Ht.
    rewrite H1 in He. by rewrite He in Ht.
Qed.

(** Eviction takes what it may and no more. It ends, the fuel of
    the model being enough; it removes only chains that have settled; and
    afterwards the table is within its limit unless every chain left is
    active. *)
Lemma evict_loop_spec fuel : ∀ p p', table_ok p p' → length (order p') < fuel →
  let p'' := evict_loop fuel p' in
  table_ok p p'' ∧ ((Z.of_nat (length (order p'')) ≤ maxKeep p)%Z ∨
    ∀ id l, byID p'' !! id = Some l → terminal_at p l = false).
Proof.
  induction fuel as [|fuel IH]; intros p p' Ht Hf; [lia|]. simpl.
  destruct (_ <=? _)%Z eqn:Hle.
  { apply Z.leb_le in Hle. rewrite (to_keep _ _ Ht) in Hle. auto. }
  destruct (find_evictable p') as [id|] eqn:He.
  - apply IH; [by apply table_ok_remove|]. apply find_evictable_spec in He as [Hin _].
    simpl. pose proof (length_remove_first _ _ Hin). lia.
  - split; [done|]. right. intros id l Hl.
    assert (id ∈ order p') as Hin by (apply (to_table _ _ Ht); eauto).
    pose proof (find_evictable_none _ _ He Hin) as Hev. unfold evictable in Hev. rewrite Hl in Hev.
    unfold terminal_at in *. by rewrite <-(to_store _ _ Ht).
Qed.

Lemma evictLocked_table p :
  NoDup (order p) → (∀ id, id ∈ order p ↔ is_Some (byID p !! id)) →
  table_ok p (evictLocked p) ∧ ((Z.of_nat (length (order (evictLocked p))) ≤ maxKeep p)%Z ∨
    ∀ id l, byID (evictLocked p) !! id = Some l → terminal_at p l = false).
Proof. intros Hn Ht. apply evict_loop_spec; [by apply table_ok_refl|lia]. Qed.

(** ** Submission *)
Lemma find_active_none p key ids id l c :
  find_active p key ids = None → id ∈ ids → byID p !! id = Some l → store p !! l = Some c →
  Key c = key → terminal_at p l = true.
Proof.
  induction ids as [|x ids IH]; [by intros _ ?%elem_of_nil|]. intros Hf [->|Hin]%elem_of_cons Hl Hc Hk.
  - simpl in Hf. rewrite Hl, Hc in Hf. rewrite decide_False in Hf by (intros ?; done).
    unfold terminal_at. rewrite Hc. by destruct (IsTerminal (ChainStatus c)).
  - simpl in Hf. apply IH; try done. repeat (case_match; try done).
Qed.

Lemma find_active_some p key ids l :
  find_active p key ids = Some l →
  ∃ id c, id ∈ ids ∧ byID p !! id = Some l ∧ store p !! l = Some c ∧ Key c = key ∧ terminal_at p l = false.
Proof.
  induction ids as [|x ids IH]; [done|]. simpl.
  assert (find_active p key ids = Some l → ∃ id c, id ∈ x :: ids ∧ byID p !! id = Some l ∧
    store p !! l = Some c ∧ Key c = key ∧ terminal_at p l = false) as Hrec.
  { intros (id & c & Hin & ?)%IH. exists id, c. split; [by right|done]. }
  destruct (byID p !! x) as [l'|] eqn:Hx; [|done]. destruct (store p !! l') as [c|] eqn:Hc; [|done].
  case_decide as Hk; [done|].
  destruct (IsTerminal (ChainStatus c)) eqn:Ht; simpl; [done|]. intros [= <-].
  exists x, c. unfold terminal_at. rewrite Hc. repeat split; try done. by left.
Qed.

(** A chain no one but its maker knows. *)
Definition detached (p : Pool) (l : loc) : Prop :=
  (l ∉ pending p) ∧ (∀ id, byID p !! id ≠ Some l).

Lemma new_detached p l c : queue_ok p → store p !! l = Some c → cID c = [] → detached p l.
Proof.
  intros Hok Hc Hid. split.
  - intros (c' & Hc' & Hne)%(qo_pending _ Hok). congruence.
  - intros id (c' & Hc' & E & Hne)%(qo_entry _ Hok). congruence.
Qed.

Lemma ok_detached l f p : queue_ok p → detached p l → queue_ok (update_chain l f p).
Proof.
  intros [H1 H2 H3 H4 H5 H6 H7 H8 H9 H10] [Hp Ht].
  assert (∀ l', l' ≠ l → store (update_chain l f p) !! l' = store p !! l') as Hs.
  { intros l' Hne. rewrite update_lookup. by rewrite decide_False. }
  assert (∀ l', l' ≠ l → terminal_at (update_chain l f p) l' = terminal_at p l') as Hterm.
  { intros l' Hne. unfold terminal_at. by rewrite Hs. }
  assert (∀ id l', byID p !! id = Some l' → l' ≠ l) as Hne by (intros id l' Hl ->; by apply (Ht id)).
  assert (∀ l', l' ∈ pending p → l' ≠ l) as Hnp by (intros l' Hl ->; done).
  split; [done|done| |done| | | |done|done|].
  - intros id l' Hl. rewrite Hs by (by eapply Hne). by apply H3.
  - intros l' Hl. rewrite Hs by auto. by apply H5.
  - intros id l' Hl. rewrite Hterm by (by eapply Hne). by apply (H6 id).
  - intros id1 id2 l1 l2 c1 c2 Hl1 Hl2. rewrite !Hs, !Hterm by (by eapply Hne). by apply H7.
  - unfold reached in *. simpl. assert (∀ l', l' ∈ held (at_ p) → l' ≠ l) as Hh.
    { intros l' Hl'. apply Hnp, elem_of_app. by left. }
    destruct (at_ p) as [| |l' i|l'|]; try done.
    + change (alter f l (store p)) with (store (update_chain l f p)). rewrite Hs; [done|]. apply Hh. left.
    + rewrite Hterm; [done|]. apply Hh. left.
Qed.

Lemma detached_update l f p l' : detached p l' → detached (update_chain l f p) l'.
Proof. done. Qed.

(** The pool with the chain in its table and in the channel. *)
Definition push (l : loc) (p : Pool) : Pool :=
  set_worker (set_chains (chains (worker p) ++ [l]) (worker p)) p.
Definition enter (id : bytes) (l : loc) (p : Pool) : Pool :=
  set_table (<[id := l]> (byID p)) (order p ++ [id]) (push l p).

Lemma all_active_bound p :
  NoDup (order p) → (∀ id, id ∈ order p ↔ is_Some (byID p !! id)) →
  (∀ id l, byID p !! id = Some l → l ∈ pending p ∧ (∃ c, store p !! l = Some c ∧ cID c = id)) →
  length (order p) ≤ length (pending p).
Proof.
  intros Hn Ht Hall. pose (f := λ id, default (0 : loc) (byID p !! id)).
  assert (∀ id, id ∈ order p → ∃ l : loc, byID p !! id = Some l ∧ f id = l) as Hf.
  { intros id [l Hl]%Ht. exists l. unfold f. by rewrite Hl. }
  rewrite <-(length_fmap f). apply submseteq_length, NoDup_submseteq.
  - apply NoDup_fmap_2_strong; [|done]. intros x y Hx Hy E.
    destruct (Hf x Hx) as (lx & Hlx & Ex), (Hf y Hy) as (ly & Hly & Ey).
    destruct (Hall x lx Hlx) as (_ & c & Hc & <-), (Hall y ly Hly) as (_ & c' & Hc' & <-). congruence.
  - intros l (id & -> & Hid)%list_elem_of_fmap. destruct (Hf id Hid) as (l & Hl & ->). by apply (Hall id).
Qed.

Lemma length_held f : length (held f) ≤ 1.
Proof. destruct f; simpl; lia. Qed.

Lemma ok_enter id l c p :
  queue_ok p → detached p l → store p !! l = Some c → cID c = id → id ≠ [] → byID p !! id = None →
  (Key c ≠ [] → findActiveLocked (Key c) p = None) →
  (Z.of_nat (length (chains (worker p))) < maxLen (worker p))%Z → closed (worker p) = false →
  queue_ok (evictLocked (enter id l p)).
Proof.
  intros [H1 H2 H3 H4 H5 H6 H7 H8 H9 H10] [Hp Ht] Hc Hid Hne Hfree Hkey Hroom Hopen.
  assert (id ∉ order p) as Hno by (rewrite H2, Hfree; by intros [? ?]).
  destruct (evictLocked_table (enter id l p)) as [T Hsize].
  { simpl. apply NoDup_app. split; [done|]. split; [|apply NoDup_singleton]. set_solver. }
  { intros x. simpl. rewrite elem_of_app, list_elem_of_singleton, H2, lookup_insert_is_Some.
    destruct (decide (id = x)); naive_solver. }
  set (q := evictLocked (enter id l p)) in *. destruct T as [T1 T2 T3 T4 T5 T6 T7 T8]. simpl in T1, T2, T3, T4.
  assert (pending q = pending p ++ [l]) as Hpend.
  { unfold pending. rewrite T2, T3. simpl. by rewrite app_assoc. }
  assert (∀ x, terminal_at q x = terminal_at p x) as Hterm by (intros x; unfold terminal_at; by rewrite T1).
  assert (∀ x k, byID q !! x = Some k → x = id ∧ k = l ∨ byID p !! x = Some k) as Hold.
  { intros x k Hk%T7. simpl in Hk. apply lookup_insert_Some in Hk as [[? ?]|[? ?]]; auto. }
  assert (∀ x k, byID q !! x = Some k → ∃ d, store q !! k = Some d ∧ cID d = x ∧ x ≠ []) as Hent.
  { intros x k [[-> ->]|Hk]%Hold; rewrite T1; [by eexists|by apply H3]. }
  assert (∀ x k, byID q !! x = Some k → terminal_at q k = false → k ∈ pending q) as Hact.
  { intros x k Hk Hak. rewrite Hpend. apply elem_of_app. apply Hold in Hk as [[-> ->]|Hk]; [right; left|left].
    rewrite Hterm in Hak. by apply (H6 x). }
  split; [done|done|done| | |done| | | |].
  - rewrite Hpend. apply NoDup_app. split; [done|]. split; [|apply NoDup_singleton]. set_solver.
  - intros k Hk. rewrite Hpend in Hk. rewrite T1. apply elem_of_app in Hk as [Hk| ->%list_elem_of_singleton].
    + by apply H5.
    + eexists. split; [done|]. by rewrite Hid.
  - intros id1 id2 l1 l2 c1 c2 Hl1 Hl2 Hc1 Hc2 Hk Hk1. rewrite !Hterm. intros Ha1 Ha2.
    rewrite T1 in Hc1, Hc2.
    assert (∀ x k d, byID p !! x = Some k → store p !! k = Some d → Key d = Key c → Key d ≠ [] →
      terminal_at p k = false → False) as Hnone.
    { intros x k d Hx Hd Hkd Hkn Ha. rewrite Hkd in Hkn.
      assert (terminal_at p k = true); [|congruence].
      apply (find_active_none p (Key c) (order p) x k d (Hkey Hkn)); [apply H2; eauto|done..]. }
    apply Hold in Hl1 as [[-> ->]|Hl1], Hl2 as [[-> ->]|Hl2]; [done| | |by eapply H7].
    + exfalso. apply (Hnone id2 l2 c2); congruence.
    + exfalso. apply (Hnone id1 l1 c1); congruence.
  - rewrite T3. simpl. rewrite length_app. simpl. lia.
  - unfold table_bound. rewrite T3, T4. simpl. destruct Hsize as [Hs|Hs]; [simpl in Hs; lia|].
    assert (length (order q) ≤ length (pending q)) as Hb.
    { apply all_active_bound; [done|done|]. intros x k Hk. split.
      - apply (Hact x); [done|]. specialize (Hs x k Hk). by rewrite Hterm.
      - destruct (Hent x k Hk) as (d & ? & ? & _). eauto. }
    unfold pending in Hb. rewrite length_app, T3 in Hb. simpl in Hb. rewrite length_app in Hb. simpl in Hb.
    pose proof (length_held (at_ q)). lia.
  - unfold reached in *. rewrite T2. simpl. rewrite T1. simpl.
    destruct (at_ p); try done; [by rewrite Hterm|]. destruct H10. congruence.
Qed.

(** What [Submit] has done to the chain before the worker is asked. *)
Definition stamped (id : bytes) (now : Z) (l : loc) (c : TaskChain) (p : Pool) : Pool :=
  let p := update_chain l (set_cID id) p in
  if decide (CreatedAt c = zero_time) then update_chain l (set_CreatedAt now) p else p.

Lemma Submit_eq id now l c p :
  store p !! l = Some c →
  Submit id now (Some l) p =
  match (if decide (Key c ≠ []) then findActiveLocked (Key c) p else None) with
  | Some active => ((Some active, Some ErrTaskChainRunning), p)
  | None =>
      match TryEnqueue l (stamped id now l c p) with
      | (Some e, p) => ((None, Some e), update_chain l (set_cID []) p)
      | (None, p) => ((Some l, None),
          evictLocked (set_table (<[id := l]> (byID p)) (order p ++ [id]) p))
      end
  end.
Proof. intros Hc. unfold Submit, stamped. rewrite Hc. reflexivity. Qed.

(** The chain after the stamps, in a pool that differs nowhere else. *)
Lemma stamped_spec id now l c p :
  queue_ok p → detached p l → store p !! l = Some c →
  let p' := stamped id now l c p in
  queue_ok p' ∧ detached p' l ∧ worker p' = worker p ∧ byID p' = byID p ∧ order p' = order p ∧
  maxKeep p' = maxKeep p ∧ at_ p' = at_ p ∧
  (∀ l', l' ≠ l → store p' !! l' = store p !! l') ∧
  ∃ c', store p' !! l = Some c' ∧ cID c' = id ∧ Key c' = Key c ∧ Tasks c' = Tasks c.
Proof.
  intros Hok Hd Hc. simpl. unfold stamped. cbv zeta.
  pose proof (ok_detached l (set_cID id) p Hok Hd) as Hok1.
  assert (store (update_chain l (set_cID id) p) !! l = Some (set_cID id c)) as Hc1
    by (rewrite update_lookup, decide_True, Hc; done).
  assert (∀ f q l', l' ≠ l → store (update_chain l f q) !! l' = store q !! l') as Hs.
  { intros f q l' Hne. by rewrite update_lookup, decide_False. }
  case_decide.
  - split; [by apply ok_detached|]. do 6 (split; [done|]). split; [intros l' Hne; by rewrite !Hs|].
    exists (set_CreatedAt now (set_cID id c)). by rewrite update_lookup, decide_True, Hc1.
  - do 7 (split; [done|]). split; [intros l' Hne; by rewrite Hs|]. eauto.
Qed.

Lemma ok_Submit id now l c p :
  queue_ok p → store p !! l = Some c → cID c = [] → id ≠ [] → byID p !! id = None →
  queue_ok (Submit id now (Some l) p).2.
Proof.
  intros Hok Hc Hid Hne Hfree. pose proof (new_detached p l c Hok Hc Hid) as Hd.
  rewrite (Submit_eq id now l c p Hc).
  destruct (if decide _ then _ else _) as [active|] eqn:Hact; [done|].
  destruct (stamped_spec id now l c p Hok Hd Hc)
    as (Hok' & Hd' & Hw & Ht & Ho & Hk & Ha & Hs & c' & Hc' & Hid' & Hkey & _).
  set (p' := stamped id now l c p) in *. unfold TryEnqueue. rewrite Hw.
  destruct (closed (worker p)) eqn:Hopen; [by apply ok_detached|].
  destruct (_ <? _)%Z eqn:Hroom.
  - apply Z.ltb_lt in Hroom. simpl.
    pose proof (ok_detached l attachContext p' Hok' Hd') as Hok2.
    set (q := update_chain l attachContext p') in *.
    assert (store q !! l = Some (attachContext c')) as Hq by (unfold q; rewrite update_lookup, decide_True, Hc'; done).
    assert (Key c ≠ [] → findActiveLocked (Key c) q = None) as Hnone.
    { intros Hkn. rewrite decide_True in Hact by done.
      destruct (findActiveLocked (Key c) q) as [k|] eqn:Hf; [|done]. exfalso.
      apply find_active_some in Hf as (x & d & Hin & Hx & Hd2 & Hkd & Hterm).
      assert (k ≠ l) as Hkl by (intros ->; by apply (proj2 Hd' x)).
      assert (store q !! k = store p !! k) as Es.
      { unfold q. rewrite update_lookup, decide_False by done. by apply Hs. }
      unfold terminal_at in Hterm. rewrite Es in Hterm, Hd2.
      change (byID q) with (byID p') in Hx. change (order q) with (order p') in Hin.
      rewrite Ht in Hx. rewrite Ho in Hin.
      assert (terminal_at p k = true) as Hp.
      { by apply (find_active_none p (Key c) (order p) x k d). }
      unfold terminal_at in Hp. congruence. }
    pose proof (ok_enter id l (attachContext c') q Hok2 Hd' Hq Hid' Hne) as He.
    change (byID q) with (byID p') in He. rewrite Ht in He.
    specialize (He Hfree). simpl in He. rewrite Hkey in He. specialize (He Hnone). rewrite Hw in He.
    specialize (He Hroom Hopen). rewrite <-Hw. exact He.
  - simpl. repeat (apply ok_detached; [|done]). done.
Qed.

(** ** The worker *)
(** A turn that moves chains from the channel to the worker, or lets one go
    that is done. *)
Lemma ok_turn p f q :
  queue_ok p → reached (set_at f (set_worker (set_chains q (worker p)) p)) →
  (held f ++ q) `sublist_of` pending p → length q ≤ length (chains (worker p)) →
  (∀ l, l ∈ pending p → terminal_at p l = false → l ∈ held f ++ q) →
  queue_ok (set_at f (set_worker (set_chains q (worker p)) p)).
Proof.
  intros [H1 H2 H3 H4 H5 H6 H7 H8 H9 H10] Hr Hsub Hlen Hact.
  split; [done|done|done| | | |done| |done|done]; simpl.
  - by eapply sublist_NoDup.
  - intros l Hl. apply H5. by eapply elem_of_sublist.
  - intros id l Hl Ht. apply Hact; [|done]. by apply (H6 id).
  - lia.
Qed.

Lemma set_chains_id p : set_worker (set_chains (chains (worker p)) (worker p)) p = p.
Proof. by destruct p as [[]]. Qed.

Lemma ok_set_at p f :
  queue_ok p → reached (set_at f p) → held f `sublist_of` held (at_ p) →
  (∀ l, l ∈ held (at_ p) → terminal_at p l = false → l ∈ held f) → queue_ok (set_at f p).
Proof.
  intros Hok Hr Hsub Hact. rewrite <-(set_chains_id p) at 1. apply ok_turn; rewrite ?set_chains_id; try done.
  - by apply sublist_app.
  - intros l [Hl|Hl]%elem_of_app Ht; apply elem_of_app; auto.
Qed.

Lemma ok_receive p : queue_ok p → queue_ok (receive p).
Proof.
  intros Hok. unfold receive. destruct (at_ p) eqn:Ea; try done.
  destruct (chains (worker p)) as [|l q] eqn:Eq.
  - destruct (closed _) eqn:Ec; [|done]. apply ok_set_at; rewrite ?Ea; done.
  - assert (pending p = l :: q) as Hp by (unfold pending; by rewrite Ea, Eq).
    apply ok_turn; try done.
    + destruct (qo_pending _ Hok l) as (c & Hc & _); [rewrite Hp; left|]. exists c. by rewrite take_0.
    + by rewrite Hp.
    + rewrite Eq. simpl. lia.
    + rewrite Hp. done.
Qed.

Lemma terminal_here p l c : store p !! l = Some c → terminal_at p l = true ↔ settled_chain c.
Proof. intros Hc. unfold terminal_at. rewrite Hc. apply terminal_spec. Qed.

Lemma take_all {A} i (l : list A) : length l ≤ i → take i l = l.
Proof. intros. by apply take_ge. Qed.

Lemma ok_finish_task p l i c t o :
  queue_ok p → at_ p = Running l i → store p !! l = Some c → Tasks c !! i = Some t → owes c i t o →
  queue_ok (finish_task l i o p).
Proof.
  intros Hok Ha Hc Hi Ho. pose proof (qo_reached _ Hok) as Hr. unfold reached in Hr. rewrite Ha in Hr.
  destruct Hr as (c' & Hc' & Hall). rewrite Hc in Hc'. injection Hc' as <-.
  assert (∀ b, o = Returned b → Forall (λ t, IsTerminal (TStatus t) = true) (take (S i) (Tasks c))) as Hnext.
  { intros b ->. rewrite (take_S_r _ _ t) by done. apply Forall_app. split; [done|].
    constructor; [apply Ho|done]. }
  destruct o as [[|]|]; simpl in *.
  - destruct Ho as [Ht Hf]. assert (settled_chain c) as Hs.
    { destruct (Hf eq_refl) as [E|E].
      - right. left. unfold has. apply existsb_exists. exists t. split; [|by apply bool_decide_eq_true].
        apply list_elem_of_In. by eapply list_elem_of_lookup_2.
      - right. right. specialize (Hnext true eq_refl). by rewrite take_all in Hnext by lia. }
    apply ok_set_at; rewrite ?Ha; try done. by apply (terminal_here p l c).
  - apply ok_set_at; rewrite ?Ha; try done. exists c. split; [done|]. by apply (Hnext false).
  - pose proof (ok_calm l set_panicked p Hok calm_panicked (λ c, eq_refl)) as Hok'.
    apply ok_set_at; [done| |simpl; by rewrite Ha|simpl; by rewrite Ha].
    simpl. unfold reached. simpl.
    apply (terminal_here (update_chain l set_panicked p) l (set_panicked c)).
    + by rewrite update_lookup, decide_True, Hc.
    + by left.
Qed.

Lemma ok_create p l c :
  queue_ok p → store p !! l = None → 
  queue_ok (mkPool (worker p) (maxKeep p) (byID p) (order p) (<[l := c]> (store p)) (at_ p)).
Proof.
  intros [H1 H2 H3 H4 H5 H6 H7 H8 H9 H10] Hn. set (p' := mkPool _ _ _ _ _ _).
  assert (∀ k, is_Some (store p !! k) → store p' !! k = store p !! k ∧ terminal_at p' k = terminal_at p k) as Hs.
  { intros k [d Hd]. assert (l ≠ k) as Hne by congruence.
    unfold terminal_at. simpl. by rewrite lookup_insert_ne. }
  assert (∀ id k, byID p !! id = Some k → is_Some (store p !! k)) as Ht by (intros id k (d & ? & _)%H3; eauto).
  assert (∀ k, k ∈ pending p → is_Some (store p !! k)) as Hp by (intros k (d & ? & _)%H5; eauto).
  split; [done|done| |done| | | |done|done|].
  - intros id k Hk. rewrite (proj1 (Hs k (Ht _ _ Hk))). by apply H3.
  - intros k Hk. rewrite (proj1 (Hs k (Hp _ Hk))). by apply H5.
  - intros id k Hk. rewrite (proj2 (Hs k (Ht _ _ Hk))). by apply (H6 id).
  - intros id1 id2 l1 l2 c1 c2 Hl1 Hl2. destruct (Hs l1 (Ht _ _ Hl1)) as [-> ->], (Hs l2 (Ht _ _ Hl2)) as [-> ->].
    by apply H7.
  - unfold reached in *. simpl. assert (∀ k, k ∈ held (at_ p) → is_Some (store p !! k)) as Hh.
    { intros k Hk. apply Hp, elem_of_app. by left. }
    destruct (at_ p) as [| |k i|k|]; try done.
    + destruct H10 as (d & Hd & ?). exists d. split; [|done]. rewrite lookup_insert_ne; [done|congruence].
    + rewrite (proj2 (Hs k (Hh k ltac:(left)))). done.
Qed.

Lemma qstep_ok e p p' : qstep e p p' → queue_ok p → queue_ok p'.
Proof.
  intros Hs Hok. destruct Hs as [l c p Hn Hid Hx Hp|id now l c p Hc Hid Hne _ Hfree|id p|p|p|p Hcl
    |p Ha|l i c t t' p Ha Hc Hi Ht|l i c t o p Ha Hc Hi Ho|l i c p Ha Hc Hi|l p Ha].
  - by apply ok_create.
  - by eapply ok_Submit.
  - unfold Cancel. destruct (byID p !! id); [|done]. destruct (terminal_at p l); [done|].
    apply ok_calm; [done|apply calm_cancel|done].
  - unfold Start. destruct (at_ p) eqn:Ha; try done. apply ok_set_at; rewrite ?Ha; done.
  - unfold close_channel. destruct (closed _) eqn:Ec; [done|].
    pose proof (qo_reached _ Hok) as Hr. destruct Hok. split; try done. unfold reached in *. simpl.
    destruct (at_ p); try done. by destruct Hr.
  - by destruct Hok.
  - by apply ok_receive.
  - apply ok_update; [done| |].
    + intros c' Hc'. rewrite Hc in Hc'. injection Hc' as <-. by eapply calm_report.
    + apply reached_update; [done| |].
      * intros c' Hc'. rewrite Hc in Hc'. injection Hc' as <-. by eapply calm_report.
      * intros c' Hc' j Hj. rewrite Ha in Hj. injection Hj as <-. simpl. by rewrite take_insert_ge.
  - by eapply ok_finish_task.
  - apply ok_set_at; rewrite ?Ha; try done.
    pose proof (qo_reached _ Hok) as Hr. unfold reached in Hr. rewrite Ha in Hr.
    destruct Hr as (c' & Hc' & Hall). rewrite Hc in Hc'. injection Hc' as <-.
    apply (terminal_here p l c); [done|]. right. right. by rewrite take_all in Hall.
  - unfold release. pose proof (ok_calm l ChainCancel p Hok calm_cancel (λ c, eq_refl)) as Hok'.
    pose proof (qo_reached _ Hok') as Hr. unfold reached in Hr. simpl in Hr. rewrite Ha in Hr.
    apply ok_set_at; [done|done|simpl; rewrite Ha; apply sublist_nil_l|].
    simpl. rewrite Ha. intros k ->%list_elem_of_singleton. intros Hf. simpl in Hr. congruence.
Qed.

Lemma start_ok n keep : queue_ok (NewPool (NewWorker n) keep).
Proof.
  assert (0 < maxLen (NewWorker n))%Z as Hn by (simpl; destruct (n <=? 0)%Z eqn:E; [lia|by apply Z.leb_gt in E]).
  assert (0 < maxKeep (NewPool (NewWorker n) keep))%Z as Hk
    by (simpl; destruct (keep <=? 0)%Z eqn:E; [done|by apply Z.leb_gt in E]).
  split; try done; try constructor.
  - by intros ?%elem_of_nil.
  - by intros [? ?].
  - by intros l ?%elem_of_nil.
  - simpl in *. lia.
  - unfold table_bound. simpl in *. lia.
Qed.

Lemma qrun_ok es p p' : qrun es p p' → queue_ok p → queue_ok p'.
Proof. induction 1; eauto using qstep_ok. Qed.

(** What no step changes. *)
Lemma evict_limits fuel p :
  maxLen (worker (evict_loop fuel p)) = maxLen (worker p) ∧ maxKeep (evict_loop fuel p) = maxKeep p ∧
  worker (evict_loop fuel p) = worker p ∧ at_ (evict_loop fuel p) = at_ p.
Proof.
  revert p. induction fuel as [|fuel IH]; intros p; simpl; [done|].
  destruct (_ <=? _)%Z; [done|]. destruct (find_evictable p) as [x|]; [|done].
  destruct (IH (removeLocked x p)) as (-> & -> & -> & ->). done.
Qed.

(** The worker's side of a submission. *)
Lemma Submit_worker id now l p :
  let r := Submit id now (Some l) p in
  at_ r.2 = at_ p ∧ maxKeep r.2 = maxKeep p ∧ maxLen (worker r.2) = maxLen (worker p) ∧
  chains (worker r.2) = chains (worker p) ++ (match r.1.2 with None => [l] | Some _ => [] end).
Proof.
  simpl. unfold Submit. cbv zeta.
  destruct (if decide _ then _ else _); [by rewrite app_nil_r|].
  set (p1 := if decide _ then _ else _).
  assert (at_ p1 = at_ p ∧ worker p1 = worker p ∧ maxKeep p1 = maxKeep p) as (E1 & E2 & E3)
    by (unfold p1; by case_decide).
  clearbody p1. unfold TryEnqueue. cbv zeta. rewrite E2.
  destruct (closed (worker p)); simpl; [by rewrite E1, E2, E3, app_nil_r|].
  destruct (_ <? _)%Z; simpl; [|by rewrite E1, E2, E3, app_nil_r].
  unfold evictLocked. match goal with |- context [evict_loop ?n ?q] => destruct (evict_limits n q) as (-> & -> & -> & ->) end.
  simpl. by rewrite E1, E3.
Qed.

(** Claim C24: the pool runs at most one chain per key. After any sequence of
    submissions, cancellations and turns of the worker, with tasks that report
    whatever they like, two chains of the table that share a key other than
    the empty one and are both neither finished nor failed are the same. *)
Theorem one_active_chain_per_key n keep es p id1 id2 l1 l2 c1 c2 :
  qrun es (NewPool (NewWorker n) keep) p →
  byID p !! id1 = Some l1 → byID p !! id2 = Some l2 → store p !! l1 = Some c1 → store p !! l2 = Some c2 →
  Key c1 = Key c2 → Key c1 ≠ [] →
  IsTerminal (ChainStatus c1) = false → IsTerminal (ChainStatus c2) = false → id1 = id2.
Proof.
  intros Hr%qrun_ok Hl1 Hl2 Hc1 Hc2 Hk Hne Ht1 Ht2; [|apply start_ok].
  apply (qo_key _ Hr id1 id2 l1 l2 c1 c2); try done; unfold terminal_at; by rewrite ?Hc1, ?Hc2.
Qed.

Lemma limits_kept e p p' : qstep e p p' →
  maxKeep p' = maxKeep p ∧ maxLen (worker p') = maxLen (worker p).
Proof.
  intros []; try done.
  - by destruct (Submit_worker id now l p0) as (_ & ? & ? & _).
  - unfold Cancel. by repeat case_match.
  - unfold Start. by case_match.
  - unfold close_channel. by case_match.
  - unfold receive. by repeat case_match.
  - by destruct o as [[]|].
Qed.

(** the memory of the queue is bounded. Whatever is submitted and
    however the tasks behave, the channel never holds more chains than it was
    made for, and the table holds at most its limit, or the worker's capacity
    and one more where that is larger, since it never drops an active chain;
    the table and its order name the same chains, each once. *)
Theorem queue_bounded n keep es p :
  qrun es (NewPool (NewWorker n) keep) p →
  let cap := if (n <=? 0)%Z then 100%Z else n in
  let limit := if (keep <=? 0)%Z then 100%Z else keep in
  (Z.of_nat (length (chains (worker p))) ≤ cap)%Z ∧
  (Z.of_nat (length (order p)) ≤ Z.max limit (cap + 1))%Z ∧
  NoDup (order p) ∧ (∀ id, id ∈ order p ↔ is_Some (byID p !! id)) ∧
  (∀ id l, byID p !! id = Some l → ∃ c, store p !! l = Some c ∧ cID c = id).
Proof.
  intros Hrun. pose proof (qrun_ok _ _ _ Hrun (start_ok n keep)) as Hr.
  assert (maxKeep p = maxKeep (NewPool (NewWorker n) keep) ∧
    maxLen (worker p) = maxLen (worker (NewPool (NewWorker n) keep))) as [Ek El].
  { clear Hr. remember (NewPool (NewWorker n) keep) as p0. induction Hrun as [|es e p p' p'' Hrun IH Hs]; [done|].
    destruct (limits_kept _ _ _ Hs) as [-> ->]. auto. }
  simpl in Ek, El. destruct Hr as [H1 H2 H3 _ _ _ _ H8 H9 _]. unfold table_bound in H9.
  rewrite Ek, El in *. split; [done|]. split; [done|]. split; [done|]. split; [done|].
  intros id l (c & ? & ? & _)%H3. eauto.
Qed.

(** ** Order *)
Definition accepted (es : list event) : list loc :=
  omap (λ e, match e with Accepted l => Some l | _ => None end) es.
Definition started (es : list event) : list loc :=
  omap (λ e, match e with Started l => Some l | _ => None end) es.

Lemma omap_snoc {A B} (f : A → option B) l x :
  omap f (l ++ [x]) = omap f l ++ match f x with Some y => [y] | None => [] end.
Proof. rewrite omap_app. simpl. by destruct (f x). Qed.

Lemma qstep_order e p p' : qstep e p p' →
  started [e] ++ chains (worker p') = chains (worker p) ++ accepted [e].
Proof.
  intros []; try (simpl; by rewrite app_nil_r).
  - destruct (Submit_worker id now l p0) as (_ & _ & _ & ->). unfold submit_event.
    destruct (Submit id now (Some l) p0).1.2; simpl; by rewrite ?app_nil_r.
  - unfold Cancel. by repeat case_match; rewrite app_nil_r.
  - unfold Start. by case_match; rewrite app_nil_r.
  - unfold close_channel. by case_match; rewrite app_nil_r.
  - unfold receive, receive_event. rewrite H. destruct (chains (worker p0)) as [|l q] eqn:E; simpl.
    + by destruct (closed _); simpl; rewrite E.
    + by rewrite app_nil_r.
  - by destruct o as [[]|]; rewrite app_nil_r.
Qed.

(** Claim C25: chains are run in the order they were accepted, each once. After
    any run of the queue, the chains the worker has started, followed by those
    waiting in the channel, are exactly those that [Submit] accepted, in that
    order. *)
Theorem runs_in_order n keep es p :
  qrun es (NewPool (NewWorker n) keep) p →
  accepted es = started es ++ chains (worker p).
Proof.
  intros Hr. remember (NewPool (NewWorker n) keep) as p0. induction Hr as [|es e p p' p'' Hr IH Hs]; [by subst|].
  pose proof (qstep_order _ _ _ Hs) as Ho. unfold accepted, started in *.
  rewrite !omap_app, (IH Heqp0), <-!app_assoc. f_equal. by rewrite Ho.
Qed.

(** ** Draining *)
Inductive wturn : Pool → Pool → Prop :=
  | w_receive p : at_ p = Waiting → chains (worker p) ≠ [] ∨ closed (worker p) = true → wturn p (receive p)
  | w_task l i c t o p :
      at_ p = Running l i → store p !! l = Some c → Tasks c !! i = Some t → owes c i t o →
      wturn p (finish_task l i o p)
  | w_end l i c p :
      at_ p = Running l i → store p !! l = Some c → length (Tasks c) ≤ i → wturn p (set_at (Releasing l) p)
  | w_release l p : at_ p = Releasing l → wturn p (release l p).

Definition task_count (p : Pool) (l : loc) : nat :=
  match store p !! l with Some c => length (Tasks c) | None => 0 end.
Definition work_left (p : Pool) : nat :=
  sum_list_with (λ l, task_count p l + 3) (chains (worker p)) +
  match at_ p with
  | NotStarted | Stopped => 0
  | Waiting => 1
  | Releasing _ => 2
  | Running l i => (task_count p l - i) + 3
  end.

Lemma task_count_update l f p k : (∀ c, Tasks (f c) = Tasks c) →
  task_count (update_chain l f p) k = task_count p k.
Proof.
  intros Hf. unfold task_count. rewrite update_lookup. case_decide; [subst|done].
  destruct (store p !! k); simpl; [by rewrite Hf|done].
Qed.
Lemma sum_counts_update l f p q : (∀ c, Tasks (f c) = Tasks c) →
  sum_list_with (λ k, task_count (update_chain l f p) k + 3) q =
  sum_list_with (λ k, task_count p k + 3) q.
Proof. intros Hf. induction q as [|k q IH]; simpl; [done|]. by rewrite IH, task_count_update. Qed.

Lemma wturn_less p p' : wturn p p' → work_left p' < work_left p.
Proof.
  unfold work_left. intros [q Ha Hq|l i c t o q Ha Hc Hi Ho|l i c q Ha Hc Hi|l q Ha]; rewrite Ha; simpl.
  - unfold receive. rewrite Ha. destruct (chains (worker q)) as [|l k] eqn:E; simpl.
    + destruct Hq as [?| ->]; [done|]. simpl. rewrite E. simpl. lia.
    + change (task_count (set_at _ _)) with (task_count q). lia.
  - assert (task_count q l = length (Tasks c)) as El by (unfold task_count; by rewrite Hc).
    apply lookup_lt_Some in Hi. destruct o as [[]|]; simpl; rewrite ?El.
    + change (task_count (set_at _ _)) with (task_count q). lia.
    + change (task_count (set_at _ _)) with (task_count q). lia.
    + change (task_count (set_at (Releasing l) (update_chain l set_panicked q)))
        with (task_count (update_chain l set_panicked q)). rewrite sum_counts_update by done. lia.
  - change (task_count (set_at _ _)) with (task_count q). lia.
  - change (task_count (release l q)) with (task_count (update_chain l ChainCancel q)).
    rewrite sum_counts_update by done. lia.
Qed.

Lemma wturn_sn p : sn wturn p.
Proof.
  remember (work_left p) as n eqn:E. revert p E. induction (lt_wf n) as [n _ IH]. intros p ->.
  constructor. intros p' Hp%wturn_less. by eapply IH.
Qed.

Lemma wturn_qstep p p' : wturn p p' → ∃ e, qstep e p p'.
Proof. intros []; eexists; by econstructor. Qed.

Lemma wturn_closed p p' : wturn p p' →
  closed (worker p') = closed (worker p) ∧ at_ p' ≠ NotStarted.
Proof.
  intros [q Ha _|l i c t o q Ha _ _ _|l i c q Ha _ _|l q Ha]; try done.
  - unfold receive. rewrite Ha. repeat case_match; simpl; rewrite ?Ha; done.
  - by destruct o as [[]|].
Qed.

(** Claim C26: closing the queue drains it. From any state the queue can
    reach, once it is closed, the worker takes only finitely many turns,
    however its tasks end; and when it can take no more it has returned, the
    channel is empty, and every chain of the table has finished or failed.
    So [Close], which waits for the worker, returns. *)
Theorem closed_queue_drains n keep es p :
  qrun es (NewPool (NewWorker n) keep) p → closed (worker p) = true → at_ p ≠ NotStarted →
  sn wturn p ∧
  ∀ p', rtc wturn p p' → nf wturn p' →
    at_ p' = Stopped ∧ chains (worker p') = [] ∧
    ∀ id l, byID p' !! id = Some l → terminal_at p' l = true.
Proof.
  intros Hr%qrun_ok Hcl Hst; [|apply start_ok]. split; [apply wturn_sn|].
  intros p' Hrun. induction Hrun as [p|p q p' Hs Hrun IH].
  2: { destruct (wturn_closed _ _ Hs) as [Hcq Hq]. destruct (wturn_qstep _ _ Hs) as [e He].
       apply IH; [by eapply qstep_ok|congruence|done]. }
  intros Hnf. assert (∀ q, ¬ wturn p q) as Hno by (intros q Hq; by apply Hnf; exists q).
  assert (at_ p = Stopped) as Ha.
  { destruct (at_ p) as [| |l i|l|] eqn:Ea; try done.
    - exfalso. apply (Hno (receive p)). constructor; auto.
    - exfalso. pose proof (qo_reached _ Hr) as Hre. unfold reached in Hre. rewrite Ea in Hre.
      destruct Hre as (c & Hc & _). destruct (Tasks c !! i) as [t|] eqn:Ht.
      + by apply (Hno _ (w_task l i c t Panicked p Ea Hc Ht I)).
      + apply lookup_ge_None in Ht. by apply (Hno _ (w_end l i c p Ea Hc Ht)).
    - exfalso. by apply (Hno _ (w_release l p Ea)). }
  pose proof (qo_reached _ Hr) as Hre. unfold reached in Hre. rewrite Ha in Hre.
  destruct Hre as [Hch _]. split; [done|]. split; [done|]. intros id l Hl.
  destruct (terminal_at p l) eqn:Ht; [done|]. exfalso.
  pose proof (qo_active _ Hr id l Hl Ht) as Hin. unfold pending in Hin. rewrite Ha, Hch in Hin.
  by apply elem_of_nil in Hin.
Qed.

End TaskQueueSpec.
