(* ===== verification/ServerTasks.v ===== *)
(** * Background tasks of the server: [src/server/task]

    The tasks the queue runs over a shelf: emptying the trash, batches of
    moves and deletions, transfers of a book or a folder to another shelf, and
    the refresh of content statistics. A task's state is its progress and its
    result; [Run] returns it with the error it reports, whose effects on the
    shelf are the state monad's. [ctx_done i] is whether the context is
    cancelled when [ctx.Err] is asked before the [i]-th item. *)

From S2P Require Import Prelude Utf8 Strings Float64 Json Fs FsSpec Atomic ShelfUtil BookMeta Source Frame ScanCache FolderMeta Book ShelfState Trash Folder ShelfBook Listing Visibility TaskQueue.

Module ServerTasks.
Import ShelfUtil BookMeta Book FolderMeta Shelf Listing Visibility.

Abbreviation Progress := TaskQueue.Progress.
Abbreviation Status := TaskQueue.Status.
Abbreviation SetStatus := TaskQueue.SetStatus.
Abbreviation SetTotal := TaskQueue.SetTotal.
Abbreviation Advance := TaskQueue.Advance.
Definition Cancelled : error := Msg "context canceled".

(** What [Run] leaves: the task and the error returned. *)
Definition outcome (T : Type) : Type := T * option error.

Section tasks.
Context `{UnicodeCase, TimeText, Machine, Digest, ShelfEnv} (ctx_done : nat → bool).

(** ** [task_empty_trash.go] *)
Record emptyTrashTask := mkEmptyTrash { et_progress : Progress; deleted : nat; failed : nat }.
Definition newEmptyTrashTask : emptyTrashTask := mkEmptyTrash TaskQueue.NewProgress 0 0.
Definition et_with (f : Progress → Progress) (t : emptyTrashTask) : emptyTrashTask :=
  mkEmptyTrash (f (et_progress t)) (deleted t) (failed t).

Fixpoint empty_loop (i : nat) (l : list bytes) (t : emptyTrashTask) : M Shelf (outcome emptyTrashTask) :=
  match l with
  | [] =>
      mret (if 0 <? failed t then et_with (SetStatus TaskQueue.StatusPartiallyCompleted) t
            else et_with (SetStatus TaskQueue.StatusCompleted) t, None)
  | id :: l =>
      if ctx_done i
      then mret (et_with (SetStatus TaskQueue.StatusPartiallyCompleted) t, Some Cancelled) else
      r ← try (Trash.DeleteTrashedBook id);
      let t := match r with
               | Err _ => mkEmptyTrash (et_progress t) (deleted t) (failed t + 1)
               | Ok _ => mkEmptyTrash (et_progress t) (deleted t + 1) (failed t)
               end in
      empty_loop (S i) l (et_with Advance t)
  end.
Definition RunEmptyTrash (t : emptyTrashTask) : M Shelf (outcome emptyTrashTask) :=
  let t := et_with (SetStatus TaskQueue.StatusRunning) t in
  listed ← try Trash.ListTrashedBookIDs;
  match listed with
  | Err e => mret (et_with (SetStatus TaskQueue.StatusFailed) t, Some e)
  | Ok l =>
      let t := et_with (SetTotal (Z.of_nat (length l))) t in
      if decide (l = []) then mret (et_with (SetStatus TaskQueue.StatusCompleted) t, None)
      else empty_loop 0 l t
  end.

(** ** Tasks with a result of succeeded and failed books *)
Record batch := mkBatch { b_progress : Progress; SucceededIDs : list bytes; Failures : list (bytes * bytes); FolderFailures : nat }.
Definition newBatch : batch := mkBatch TaskQueue.NewProgress [] [] 0.
Definition b_with (f : Progress → Progress) (t : batch) : batch :=
  mkBatch (f (b_progress t)) (SucceededIDs t) (Failures t) (FolderFailures t).
Definition recordSuccess (bookID : bytes) (t : batch) : batch :=
  mkBatch (b_progress t) (SucceededIDs t ++ [bookID]) (Failures t) (FolderFailures t).
Definition record_code (bookID code : bytes) (t : batch) : batch :=
  mkBatch (b_progress t) (SucceededIDs t) (Failures t ++ [(bookID, code)]) (FolderFailures t).
(** [interruptedStatus] and [finishStatus] of both tasks; a batch has no
    folder failures. *)
Definition interruptedStatus (t : batch) : Status :=
  if (length (SucceededIDs t) + length (Failures t) =? 0)%nat then TaskQueue.StatusFailed
  else TaskQueue.StatusPartiallyCompleted.
Definition finishStatus (t : batch) : Status :=
  if ((length (Failures t) =? 0) && (FolderFailures t =? 0))%nat then TaskQueue.StatusCompleted
  else if (length (SucceededIDs t) =? 0)%nat then TaskQueue.StatusFailed
  else TaskQueue.StatusPartiallyCompleted.

(** ** [task_book_batch.go] *)
Definition BookBatchOperationMove : bytes := str "move".
Definition BookBatchOperationTrash : bytes := str "trash".
Definition batch_code (operation : bytes) (e : error) : bytes :=
  if errors_Is e ErrBookNotFound then str "not_found"
  else if errors_Is e ErrUnsupportedBookSchemaVersion then str "unsupported_schema"
  else operation ++ str "_failed".
(** One turn of the loop, for a book the client may see. *)
Definition batch_item (operation : bytes) (targetFolder : FolderPath) (bookID : bytes) : M Shelf unit :=
  if decide (operation = BookBatchOperationMove) then
    listing ← GetBookListing bookID;
    if Equal (LFolders listing) targetFolder then mret tt
    else ShelfBook.MoveBook bookID targetFolder;; mret tt
  else if decide (operation = BookBatchOperationTrash) then ShelfBook.DeleteBook bookID
  else mret tt.
Definition settle_item (operation bookID : bytes) (r : result error unit) (t : batch) : batch :=
  match r with
  | Ok _ => recordSuccess bookID t
  | Err e => record_code bookID (batch_code operation e) t
  end.
Fixpoint batch_loop (operation : bytes) (targetFolder : FolderPath) (visible : VisibleBooks) (i : nat)
    (l : list bytes) (t : batch) : M Shelf (outcome batch) :=
  match l with
  | [] => mret (b_with (SetStatus (finishStatus t)) t, None)
  | bookID :: l =>
      if ctx_done i then mret (b_with (SetStatus (interruptedStatus t)) t, Some Cancelled) else
      if negb (Allows visible bookID) then
        batch_loop operation targetFolder visible (S i) l
          (b_with Advance (record_code bookID (batch_code operation ErrBookNotFound) t))
      else
        r ← try (batch_item operation targetFolder bookID);
        batch_loop operation targetFolder visible (S i) l (b_with Advance (settle_item operation bookID r t))
  end.
Definition RunBookBatch (operation : bytes) (targetFolder : FolderPath) (visible : VisibleBooks) (bookIDs : list bytes)
    (t : batch) : M Shelf (outcome batch) :=
  batch_loop operation targetFolder visible 0 bookIDs
    (b_with (SetStatus TaskQueue.StatusRunning) (b_with (SetTotal (Z.of_nat (length bookIDs))) t)).

(** ** [task_book_transfer.go] *)
Definition failureCode (operation : bytes) (e : error) : bytes :=
  if errors_Is e ErrBookNotFound then str "not_found"
  else if errors_Is e ErrBookIDConflict then str "id_conflict"
  else if errors_Is e ErrUnsupportedBookSchemaVersion then str "unsupported_schema"
  else operation ++ str "_failed".
Definition transferAtomically (operation bookID : bytes) (targetFolder : FolderPath) : M (Shelf * Shelf) Book :=
  if decide (operation = BookBatchOperationMove) then ShelfBook.MoveBookFrom bookID targetFolder
  else ShelfBook.CopyBookFrom bookID targetFolder false.
Record bookTransferTask := mkTransfer { x_progress : Progress; x_book : bytes; x_folder : FolderPath; x_code : bytes }.
Definition newBookTransferTask : bookTransferTask := mkTransfer TaskQueue.NewProgress [] [] [].
Definition x_with (f : Progress → Progress) (t : bookTransferTask) : bookTransferTask :=
  mkTransfer (f (x_progress t)) (x_book t) (x_folder t) (x_code t).
Definition RunBookTransfer (operation bookID : bytes) (targetFolder : FolderPath) (t : bookTransferTask) :
    M (Shelf * Shelf) (outcome bookTransferTask) :=
  let t := x_with (SetStatus TaskQueue.StatusRunning) (x_with (SetTotal 1) t) in
  if ctx_done 0 then mret (x_with (SetStatus TaskQueue.StatusFailed) t, Some Cancelled) else
  r ← try (transferAtomically operation bookID targetFolder);
  match r with
  | Err e =>
      let t := x_with Advance (mkTransfer (x_progress t) (x_book t) (x_folder t) (failureCode operation e)) in
      mret (x_with (SetStatus TaskQueue.StatusFailed) t, None)
  | Ok b =>
      let t := x_with Advance (mkTransfer (x_progress t) (ID (meta b)) targetFolder (x_code t)) in
      mret (x_with (SetStatus TaskQueue.StatusCompleted) t, None)
  end.

(** ** [task_folder_transfer.go] *)
Definition remapFolder (folder sourceFolder targetFolder : FolderPath) : FolderPath :=
  targetFolder ++ drop (length sourceFolder) folder.
Record folderTransfer := mkFolderTransfer {
  f_operation : bytes;
  f_source : FolderPath;
  createFolders : list (FolderPath * FolderPath);
  planned : list (bytes * FolderPath);
}.
Definition planned_le (a b : bytes * FolderPath) : Prop := str_le a.1 b.1.
#[global] Instance planned_le_dec : RelDecision planned_le.
Proof. intros a b. unfold planned_le. apply _. Defined.
(** [newFolderTransferTask]; [SortFunc] by ID, which are distinct. *)
Definition newFolderTransferTask (operation : bytes) (sourceFolder targetFolder : FolderPath)
    (books : list (bytes * FolderPath)) (subfolders : list FolderPath) : folderTransfer :=
  mkFolderTransfer operation sourceFolder
    ((λ sl, (sl, remapFolder sl sourceFolder targetFolder)) <$> subfolders)
    (merge_sort planned_le ((λ b : bytes * FolderPath, (b.1, remapFolder b.2 sourceFolder targetFolder)) <$> books)).

(** [createFolder]; the parent and the name of the target, which is not the
    root. *)
Definition createFolder (folder : FolderPath * FolderPath) : M (Shelf * Shelf) bytes :=
  let target := folder.2 in
  Folder.on_target (Folder.NewFolder (take (length target - 1) target) (default [] (last target)));;
  Folder.CopyFolderMetaFrom folder.1 target.
(** [reproduceFolderTree], with the versions it carries. *)
Fixpoint reproduceFolderTree (l : list (FolderPath * FolderPath)) (carried : gmap bytes bytes) (t : batch) :
    M (Shelf * Shelf) (gmap bytes bytes * batch) :=
  match l with
  | [] => mret (carried, t)
  | folder :: l =>
      r ← try (createFolder folder);
      match r with
      | Err _ => reproduceFolderTree l carried
                   (mkBatch (b_progress t) (SucceededIDs t) (Failures t) (FolderFailures t + 1))
      | Ok version => reproduceFolderTree l (<[String folder.1 := version]> carried) t
      end
  end.
(** [transferBooks]; the error when the context was cancelled. *)
Fixpoint transferBooks (operation : bytes) (i : nat) (l : list (bytes * FolderPath)) (t : batch) :
    M (Shelf * Shelf) (outcome batch) :=
  match l with
  | [] => mret (t, None)
  | b :: l =>
      if ctx_done i then mret (t, Some Cancelled) else
      r ← try (transferAtomically operation b.1 b.2);
      let t := match r with
               | Ok _ => recordSuccess b.1 t
               | Err e => record_code b.1 (failureCode operation e) t
               end in
      transferBooks operation (S i) l (b_with Advance t)
  end.
(** [deepestFirst] and [pruneEmptiedSource] *)
Definition deeper_le (a b : FolderPath) : Prop :=
  length b < length a ∨ length a = length b ∧ str_le (String a) (String b).
#[global] Instance deeper_le_dec : RelDecision deeper_le.
Proof. intros a b. unfold deeper_le. apply _. Defined.
Definition deepestFirst (l : list FolderPath) : list FolderPath := merge_sort deeper_le l.
Fixpoint prune_loop (l : list FolderPath) (carried : gmap bytes bytes) : M (Shelf * Shelf) unit :=
  match l with
  | [] => mret tt
  | f :: l =>
      ignore (Folder.on_source (Folder.PruneFolder f (default [] (carried !! String f))));;
      prune_loop l carried
  end.
Definition pruneEmptiedSource (source : FolderPath) (carried : gmap bytes bytes) : M (Shelf * Shelf) unit :=
  listed ← try (Folder.on_source GetAllFolders);
  match listed with
  | Err _ => mret tt
  | Ok folders => prune_loop (deepestFirst (filter (λ l, FPHasPrefix l source = true) folders)) carried
  end.
Definition RunFolderTransfer (f : folderTransfer) (t : batch) : M (Shelf * Shelf) (outcome batch) :=
  let t := b_with (SetStatus TaskQueue.StatusRunning) (b_with (SetTotal (Z.of_nat (length (planned f)))) t) in
  if ctx_done 0 then mret (b_with (SetStatus (interruptedStatus t)) t, Some Cancelled) else
  '(carried, t) ← reproduceFolderTree (createFolders f) ∅ t;
  '(t, stopped) ← transferBooks (f_operation f) 1 (planned f) t;
  match (stopped : option error) with
  | Some e => mret (b_with (SetStatus (interruptedStatus t)) t, Some e)
  | None =>
      (if decide (f_operation f = BookBatchOperationMove) then pruneEmptiedSource (f_source f) carried else mret tt);;
      mret (b_with (SetStatus (finishStatus t)) t, None)
  end.

(** ** [task_refresh_content_stats.go] *)
Record refreshTask := mkRefresh { r_progress : Progress; refreshed : nat; r_failures : list (bytes * bytes) }.
Definition newRefreshTask : refreshTask := mkRefresh TaskQueue.NewProgress 0 [].
Definition r_with (f : Progress → Progress) (t : refreshTask) : refreshTask :=
  mkRefresh (f (r_progress t)) (refreshed t) (r_failures t).
Definition refresh_code (e : error) : bytes :=
  if errors_Is e ErrBookNotFound || errors_Is e ErrSourceNotFound then str "not_found"
  else if errors_Is e ErrUnsupportedBookSchemaVersion || errors_Is e ErrUnsupportedSourceSchemaVersion
  then str "unsupported_schema" else str "refresh_failed".
Definition HoldsText (s : Source.Source) : bool :=
  negb (bool_decide (SourceMeta.Format (Source.meta s) = BookFormatImages)).
Fixpoint collectBookIDsNeedingContentStats (books : list Book) : M world (list bytes) :=
  match books with
  | [] => mret []
  | b :: books =>
      got ← try (GetSource b (CurrentSource (meta b)));
      rest ← collectBookIDsNeedingContentStats books;
      mret (match got with
            | Err _ => ID (meta b) :: rest
            | Ok src => if HoldsText src && (SourceMeta.CharCount (Source.meta src) =? 0)%Z
                        then ID (meta b) :: rest else rest
            end)
  end.
Definition refreshCurrentSourceContentStats (bookID : bytes) : M Shelf unit :=
  b ← GetBook bookID;
  src ← lift (GetSource b (CurrentSource (meta b)));
  lift (Source.refreshContentMetadata src);;
  RefreshBookCharCount bookID.
Definition settleFinishedSweep (nfailed : nat) (p : Progress) : Progress :=
  SetStatus (if 0 <? nfailed then TaskQueue.StatusPartiallyCompleted else TaskQueue.StatusCompleted) p.
Fixpoint refresh_loop (i : nat) (l : list bytes) (t : refreshTask) : M Shelf (outcome refreshTask) :=
  match l with
  | [] => mret (r_with (settleFinishedSweep (length (r_failures t))) t, None)
  | bookID :: l =>
      if ctx_done i
      then mret (r_with (SetStatus TaskQueue.StatusPartiallyCompleted) t, Some Cancelled) else
      r ← try (refreshCurrentSourceContentStats bookID);
      let t := match r with
               | Err e => mkRefresh (r_progress t) (refreshed t) (r_failures t ++ [(bookID, refresh_code e)])
               | Ok _ => mkRefresh (r_progress t) (refreshed t + 1) (r_failures t)
               end in
      refresh_loop (S i) l (r_with Advance t)
  end.
Definition RunRefreshContentStats (visible : VisibleBooks) (t : refreshTask) : M Shelf (outcome refreshTask) :=
  let t := r_with (SetStatus TaskQueue.StatusRunning) t in
  listed ← try ListBooks;
  match listed with
  | Err e => mret (r_with (SetStatus TaskQueue.StatusFailed) t, Some e)
  | Ok books =>
      l ← lift (collectBookIDsNeedingContentStats (Only visible books));
      let t := r_with (SetTotal (Z.of_nat (length l))) t in
      if decide (l = []) then mret (r_with (SetStatus TaskQueue.StatusCompleted) t, None)
      else refresh_loop 0 l t
  end.
End tasks.

(** ** Every task settles *)
Section settled.
Context `{UnicodeCase, TimeText, Machine, Digest, ShelfEnv} (ctx_done : nat → bool).

(** What a task owes the queue: it comes back, settled, whether it reports an
    error or not. *)
Definition settles {S T : Type} (progress : T → Progress) (m : M S (outcome T)) : Prop :=
  ∀ s, ∃ t e, (m s).1 = Ok (t, e) ∧ TaskQueue.IsTerminal (TaskQueue.status (progress t)) = true.

Lemma settles_ret {S T : Type} (progress : T → Progress) (t : T) e :
  TaskQueue.IsTerminal (TaskQueue.status (progress t)) = true → settles (S := S) progress (mret (t, e)).
Proof. intros Ht s. by exists t, e. Qed.
Lemma settles_try {S A T : Type} (progress : T → Progress) (m : M S A) (k : result error A → M S (outcome T)) :
  (∀ r, settles progress (k r)) → settles progress (r ← try m; k r).
Proof.
  intros Hk s. unfold try, mbind, M_bind. destruct (m s) as [r s']. apply (Hk r s').
Qed.
Lemma settles_bind {S A T : Type} (progress : T → Progress) (m : M S A) (k : A → M S (outcome T)) :
  (∀ s, is_ok (m s).1 = true) → (∀ a, settles progress (k a)) → settles progress (a ← m; k a).
Proof.
  intros Hm Hk s. unfold mbind, M_bind. specialize (Hm s). destruct (m s) as [[a|e] s']; [|done]. apply (Hk a s').
Qed.

Lemma finish_terminal t : TaskQueue.IsTerminal (finishStatus t) = true.
Proof. unfold finishStatus. by repeat case_match. Qed.
Lemma interrupted_terminal t : TaskQueue.IsTerminal (interruptedStatus t) = true.
Proof. unfold interruptedStatus. by case_match. Qed.

Lemma empty_loop_settles i l t : settles et_progress (empty_loop ctx_done i l t).
Proof.
  revert i t. induction l as [|id l IH]; intros i t; simpl; [apply settles_ret; by case_match|].
  destruct (ctx_done i); [by apply settles_ret|]. apply settles_try. intros r. apply IH.
Qed.
Lemma batch_loop_settles op f v i l t : settles b_progress (batch_loop ctx_done op f v i l t).
Proof.
  revert i t. induction l as [|id l IH]; intros i t; simpl; [apply settles_ret, finish_terminal|].
  destruct (ctx_done i); [apply settles_ret, interrupted_terminal|]. destruct (negb _); [apply IH|].
  apply settles_try. intros r. apply IH.
Qed.
Lemma refresh_loop_settles i l t : settles r_progress (refresh_loop ctx_done i l t).
Proof.
  revert i t. induction l as [|id l IH]; intros i t; simpl.
  { apply settles_ret. simpl. unfold settleFinishedSweep. simpl. by case_match. }
  destruct (ctx_done i); [by apply settles_ret|]. apply settles_try. intros r. apply IH.
Qed.
Lemma transferBooks_ok op i l t s : is_ok (transferBooks ctx_done op i l t s).1 = true.
Proof.
  revert i t s. induction l as [|b l IH]; intros i t s; simpl; [done|]. destruct (ctx_done i); [done|].
  unfold try, mbind, M_bind. destruct (transferAtomically op b.1 b.2 s) as [r s']. apply IH.
Qed.
Lemma reproduce_ok l carried t s : is_ok (reproduceFolderTree l carried t s).1 = true.
Proof.
  revert carried t s. induction l as [|f l IH]; intros carried t s; simpl; [done|].
  unfold try, mbind, M_bind. destruct (createFolder f s) as [[v|e] s']; apply IH.
Qed.
Lemma prune_ok l carried s : is_ok (prune_loop l carried s).1 = true.
Proof. revert s. induction l as [|f l IH]; intros s; simpl; [done|]. apply IH. Qed.
Lemma pruneEmptiedSource_ok f carried s : is_ok (pruneEmptiedSource f carried s).1 = true.
Proof.
  unfold pruneEmptiedSource, try, mbind, M_bind. destruct (Folder.on_source GetAllFolders s) as [[l|e] s']; [|done].
  apply prune_ok.
Qed.
Lemma collect_ok books s : is_ok (collectBookIDsNeedingContentStats books s).1 = true.
Proof.
  revert s. induction books as [|b l IH]; intros s; simpl; [done|].
  unfold try, mbind, M_bind. destruct (GetSource _ _ s) as [r s']. specialize (IH s').
  by destruct (collectBookIDsNeedingContentStats l s') as [[x|e] s''].
Qed.


(** ** What a batch reports *)

(** The operations of a batch on the books of a list, errors dropped. *)
Fixpoint batch_effect (op : bytes) (f : FolderPath) (l : list bytes) : M Shelf unit :=
  match l with
  | [] => mret tt
  | id :: l => ignore (batch_item op f id);; batch_effect op f l
  end.

Record reports (v : VisibleBooks) (done_ : list bytes) (t0 t : batch) : Prop := {
  rp_each : SucceededIDs t ++ (Failures t).*1 ≡ₚ (SucceededIDs t0 ++ (Failures t0).*1) ++ done_;
  rp_shown : Forall (λ id, Allows v id = true) (SucceededIDs t0) → Forall (λ id, Allows v id = true) (SucceededIDs t);
  rp_hidden id : id ∈ done_ → Allows v id = false → (id, str "not_found") ∈ Failures t;
  rp_kept x : x ∈ Failures t0 → x ∈ Failures t;
  rp_folders : FolderFailures t = FolderFailures t0;
}.

Lemma reports_trans v l1 l2 t0 t1 t : reports v l1 t0 t1 → reports v l2 t1 t → reports v (l1 ++ l2) t0 t.
Proof.
  intros [E1 S1 Hh1 K1 F1] [E2 S2 Hh2 K2 F2]. split; auto; [| |congruence].
  - by rewrite E2, E1, <-app_assoc.
  - intros id [Hin|Hin]%elem_of_app Ha; auto.
Qed.
Lemma reports_with f v l t0 t : reports v l t0 t → reports v l t0 (b_with f t).
Proof. by intros [E S Hh K F]; split. Qed.
Lemma reports_success v id t : Allows v id = true → reports v [id] t (recordSuccess id t).
Proof.
  intros Ha. split; simpl; auto.
  - rewrite <-!app_assoc. apply Permutation_app_head, Permutation_app_comm.
  - intros Hs. apply Forall_app. split; [done|by apply Forall_singleton].
  - intros id' ->%list_elem_of_singleton Hn. congruence.
Qed.
Lemma reports_failure v id code t : (Allows v id = false → code = str "not_found") → reports v [id] t (record_code id code t).
Proof.
  intros Hc. split; simpl; auto.
  - by rewrite fmap_app, app_assoc.
  - intros id' ->%list_elem_of_singleton Hn. rewrite Hc by done. set_solver.
  - set_solver.
Qed.

Lemma batch_loop_spec op f v i l t s t' e s' :
  batch_loop ctx_done op f v i l t s = (Ok (t', e), s') →
  ∃ k tk, k ≤ length l ∧ reports v (take k l) t tk ∧
    s' = (batch_effect op f (filter (λ id, Allows v id = true) (take k l)) s).2 ∧
    (e = None ∧ k = length l ∧ t' = b_with (SetStatus (finishStatus tk)) tk ∨
     e = Some Cancelled ∧ k < length l ∧ ctx_done (i + k) = true ∧ t' = b_with (SetStatus (interruptedStatus tk)) tk).
Proof.
  revert i t s. induction l as [|id l IH]; intros i t s; simpl.
  { intros [= <- <- <-]. exists 0, t. split; [done|]. split; [by split; simpl; rewrite ?app_nil_r; set_solver|].
    split; [done|]. by left. }
  destruct (ctx_done i) eqn:Ec.
  { intros [= <- <- <-]. exists 0, t. split; [lia|]. split; [by split; simpl; rewrite ?app_nil_r; set_solver|].
    split; [done|]. right. rewrite Nat.add_0_r. split; [done|split; [lia|done]]. }
  destruct (Allows v id) eqn:Ea; simpl.
  - unfold try, mbind, M_bind. destruct (batch_item op f id s) as [r s1] eqn:Eb.
    intros (k & tk & Hk & Hr & -> & He)%IH. exists (S k), tk. split; [lia|].
    split; [|split].
    + apply (reports_trans v [id] (take k l) t (b_with Advance (settle_item op id r t))); [|done].
      apply reports_with. destruct r as [[]|err]; [by apply reports_success|]. apply reports_failure. congruence.
    + change (take (S k) (id :: l)) with (id :: take k l). rewrite filter_cons_True by done. simpl. unfold ignore, mbind, M_bind. by rewrite Eb.
    + destruct He as [(-> & -> & ->)|(-> & ? & ? & ->)]; [by left|right].
      rewrite Nat.add_succ_r. split; [done|]. split; [lia|done].
  - intros (k & tk & Hk & Hr & -> & He)%IH. exists (S k), tk. split; [lia|].
    split; [|split].
    + apply (reports_trans v [id] (take k l) t (b_with Advance (record_code id (batch_code op ErrBookNotFound) t))); [|done].
      apply reports_with, reports_failure. done.
    + change (take (S k) (id :: l)) with (id :: take k l). by rewrite filter_cons_False by (by rewrite Ea).
    + destruct He as [(-> & -> & ->)|(-> & ? & ? & ->)]; [by left|right].
      rewrite Nat.add_succ_r. split; [done|]. split; [lia|done].
Qed.

(** a batch does what it reports and touches no hidden book. The
    shelf is left as if the operation had been run on the books the client may
    see among the first [k] it named, in order, and on no other; each of those
    [k] is listed once, as succeeded or as failed, hidden ones as not found;
    [k] is all of them unless the context was cancelled before one, and the
    batch is completed exactly when it ran to its end and nothing failed. *)
Theorem RunBookBatch_reports op f v bookIDs s t e s' :
  RunBookBatch ctx_done op f v bookIDs newBatch s = (Ok (t, e), s') →
  ∃ k, k ≤ length bookIDs ∧
    s' = (batch_effect op f (filter (λ id, Allows v id = true) (take k bookIDs)) s).2 ∧
    SucceededIDs t ++ (Failures t).*1 ≡ₚ take k bookIDs ∧
    Forall (λ id, Allows v id = true) (SucceededIDs t) ∧
    (∀ id, id ∈ take k bookIDs → Allows v id = false → (id, str "not_found") ∈ Failures t) ∧
    (e = None ∧ k = length bookIDs ∨ e = Some Cancelled ∧ k < length bookIDs ∧ ctx_done k = true) ∧
    (TaskQueue.status (b_progress t) = TaskQueue.StatusCompleted ↔ e = None ∧ Failures t = []).
Proof.
  unfold RunBookBatch. intros (k & tk & Hk & [Hr Hs Hh _ Hff] & -> & He)%batch_loop_spec. exists k.
  simpl in Hr. simpl in Hs.
  assert (SucceededIDs t = SucceededIDs tk ∧ Failures t = Failures tk) as [-> ->]
    by (by destruct He as [(_ & _ & ->)|(_ & _ & _ & ->)]).
  split; [done|]. split; [done|]. split; [done|]. split; [by apply Hs|]. split; [done|]. split.
  { destruct He as [(-> & -> & _)|(-> & ? & ? & _)]; auto. }
  destruct He as [(-> & _ & ->)|(-> & _ & _ & ->)]; simpl.
  - unfold finishStatus. rewrite Hff. simpl. destruct (Failures tk) as [|x l]; simpl; [done|]. case_match; naive_solver.
  - unfold interruptedStatus. case_match; naive_solver.
Qed.
End settled.
End ServerTasks.
