(* ===== verification/Server.v ===== *)
(** * The server around the shelves: [src/server/apicore.go], [tasksubmit.go],
    [settings.go] and [app.go]

    The state of the application and what every handler shares: resolving a
    shelf and a book the client may see, the settings, and submitting tasks.
    A handler runs in a monad whose error is the response already written, so
    the early returns of the Go handlers are its bind. A request is handled
    from start to end: handlers do not interleave with each other here, only
    their tasks do (TaskQueue). *)

From S2P Require Import Prelude Utf8 Strings Float64 Json Fs FsSpec Atomic ShelfUtil BookMeta Source Frame ScanCache FolderMeta Book ShelfState Trash Listing Visibility Http TaskQueue.

(** What the application takes from elsewhere: the settings database
    (badger), which may fail at a call, the identifiers of chains and the
    clock. *)
Class AppEnv := {
  db_fails : nat → bool;
  chain_id : nat → bytes;
  app_clock : nat → Z;
}.

Module Server.
Import ShelfUtil BookMeta Book FolderMeta Shelf Listing Rescan Visibility Http.

(** A task chain the handlers submit: the constructors of [server/task] with
    their arguments. *)
Inductive Job :=
  | JEmptyTrash (shelfID : bytes)
  | JBookBatch (shelfID operation : bytes) (ids : list bytes) (target : option FolderPath) (visible : VisibleBooks)
  | JRefreshStats (shelfID : bytes) (visible : VisibleBooks)
  | JBookTransfer (sourceID targetID operation bookID : bytes) (target : FolderPath)
  | JFolderTransfer (sourceID targetID operation : bytes) (source target : FolderPath)
      (books : list (bytes * FolderPath)) (subFolders : list FolderPath).
Definition chain_key (j : Job) : bytes :=
  let key l := Join l (str ":") in
  match j with
  | JEmptyTrash s => key [str "empty_trash"; s]
  | JBookBatch s op ids target _ =>
      key [str "book_batch"; s; op; ShelfUtil.String (default [] target); Join (sort_strings ids) (str ",")]
  | JRefreshStats s _ => key [str "refresh_content_stats"; s]
  | JBookTransfer s t op b f => key [str "book_transfer"; s; t; op; b; ShelfUtil.String f]
  | JFolderTransfer s t op f g _ _ => key [str "folder_transfer"; s; t; op; ShelfUtil.String f; ShelfUtil.String g]
  end.

(** [type App]: its shelves ([ShelfManager]), its pool with the jobs behind
    the chains, its settings. *)
Record App := mkApp {
  shelves : gmap bytes Shelf;
  taskChains : TaskQueue.Pool;
  jobs : gmap TaskQueue.loc Job;
  storeDB : gmap bytes content;
  appReadOnly : bool;
  confCoverToJPG : bool;
  confRetentionDays : Z;
  retention : option Z;
  showNSFWByShelf : gmap bytes bool;
  calls : nat;
}.
Definition set_shelves (m : gmap bytes Shelf) (a : App) : App :=
  mkApp m (taskChains a) (jobs a) (storeDB a) (appReadOnly a) (confCoverToJPG a)
    (confRetentionDays a) (retention a) (showNSFWByShelf a) (calls a).
Definition set_pool (p : TaskQueue.Pool) (j : gmap TaskQueue.loc Job) (a : App) : App :=
  mkApp (shelves a) p j (storeDB a) (appReadOnly a) (confCoverToJPG a)
    (confRetentionDays a) (retention a) (showNSFWByShelf a) (calls a).
Definition set_db (m : gmap bytes content) (a : App) : App :=
  mkApp (shelves a) (taskChains a) (jobs a) m (appReadOnly a) (confCoverToJPG a)
    (confRetentionDays a) (retention a) (showNSFWByShelf a) (calls a).
Definition set_retention (d : option Z) (a : App) : App :=
  mkApp (shelves a) (taskChains a) (jobs a) (storeDB a) (appReadOnly a) (confCoverToJPG a)
    (confRetentionDays a) d (showNSFWByShelf a) (calls a).
Definition count_call (a : App) : App :=
  mkApp (shelves a) (taskChains a) (jobs a) (storeDB a) (appReadOnly a) (confCoverToJPG a)
    (confRetentionDays a) (retention a) (showNSFWByShelf a) (S (calls a)).

(** ** The monad of handlers *)
Definition H (A : Type) : Type := App → result Response A * App.
#[export] Instance H_ret : MRet H := λ A a s, (Ok a, s).
#[export] Instance H_bind : MBind H := λ A B k m s,
  let '(r, s') := m s in match r with Ok a => k a s' | Err e => (Err e, s') end.
Definition answer {A : Type} (r : Response) : H A := λ s, (Err r, s).
Definition of_decoded {A : Type} (r : result Response A) : H A := λ s, (r, s).
Definition or_answer {A : Type} (o : option A) (r : Response) : H A :=
  match o with Some a => mret a | None => answer r end.
(** [if err != nil { h.writeErr(w, r, err, ...); return }] *)
Definition or_err {A : Type} (r : result error A) : H A :=
  match r with Ok a => mret a | Err e => answer (writeErr e) end.
Definition or_err_status {A : Type} (status : Z) (r : result error A) : H A :=
  match r with Ok a => mret a | Err e => answer (writeErrStatus e status) end.
Definition handler : Type := H Response.
Definition respond (h : handler) (s : App) : Response * App :=
  let '(r, s') := h s in (match r with Ok resp | Err resp => resp end, s').

(** A step on the application itself. *)
Definition with_app {A : Type} (f : App → A * App) : H A := λ s, let '(x, s') := f s in (Ok x, s').

(** A call on a shelf of the application. *)
Definition on_shelf {A : Type} (shelfID : bytes) (m : M Shelf A) : H (result error A) := λ a,
  match shelves a !! shelfID with
  | None => (Err (http_Error StatusNotFound), a)
  | Some s => let '(r, s') := m s in (Ok r, set_shelves (<[shelfID := s']> (shelves a)) a)
  end.
Definition ask_shelf {A : Type} (shelfID : bytes) (f : Shelf → A) : H A := λ a,
  match shelves a !! shelfID with
  | None => (Err (http_Error StatusNotFound), a)
  | Some s => (Ok (f s), a)
  end.

Section ops.
Context `{UnicodeCase, TimeText, Machine, Digest, ShelfEnv, AppEnv}.

(** ** Settings: [settings.go] over [store.DB] *)
Definition settingKeyShowNSFW : bytes := str "show_nsfw".
Definition GetSetting (key : bytes) : H (result error (option content)) := λ a,
  (Ok (if db_fails (calls a) then Err EIO else Ok (storeDB a !! key)), count_call a).
Definition SetSetting (key : bytes) (value : content) : H (result error unit) := λ a,
  if db_fails (calls a) then (Ok (Err EIO), count_call a)
  else (Ok (Ok tt), count_call (set_db (<[key := value]> (storeDB a)) a)).
Definition DeleteSetting (key : bytes) : H (result error unit) := λ a,
  if db_fails (calls a) then (Ok (Err EIO), count_call a)
  else (Ok (Ok tt), count_call (set_db (delete key (storeDB a)) a)).

(** [func (s *settings) readShowNSFW] *)
Definition readShowNSFW : H bool :=
  r ← GetSetting settingKeyShowNSFW;
  mret (match r with Ok (Some c) => bool_decide (content_bytes c = str "true") | _ => false end).

(** [func (s *settings) coverToJPG] *)
Definition settingKeyCoverToJPG : bytes := str "cover_to_jpg".
Definition coverToJPG : H bool := λ a,
  let '(r, a') := GetSetting settingKeyCoverToJPG a in
  (Ok (match r with Ok (Ok (Some c)) => bool_decide (content_bytes c = str "true") | _ => confCoverToJPG a end), a').

(** ** What every handler does first: [apicore.go] *)

(** [func (c *apiCore) resolveShelf] *)
Definition resolveShelf (raw : bytes) : H bytes :=
  id ← or_answer (decodePathID raw) (http_Error StatusBadRequest);
  _ ← ask_shelf id (λ s, s);
  mret id.
Definition resolveID (raw : bytes) : H bytes := or_answer (decodePathID raw) (http_Error StatusBadRequest).

(** [func (c *apiCore) visibility]: whether marked content is shown. *)
Definition visibility (shelfID : bytes) : H bool := λ a,
  match showNSFWByShelf a !! shelfID with
  | Some show => (Ok show, a)
  | None => readShowNSFW a
  end.

(** [func (c *apiCore) rejectReadOnlyShelf] *)
Definition rejectReadOnlyShelf (shelfID : bytes) : H unit :=
  ro ← ask_shelf shelfID readOnly;
  if (ro : bool) then answer (writeErr ErrReadOnly) else mret tt.

(** [func (c *apiCore) lookupVisibleBookListing] and [lookupVisibleBook] *)
Definition lookupVisibleBookListing (shelfID bookID : bytes) : H BookListing :=
  r ← on_shelf shelfID (GetBookListing bookID);
  listing ← or_err r;
  show ← visibility shelfID;
  ok ← ask_shelf shelfID (λ s, allowsListing s show listing);
  if (ok : bool) then mret listing else answer (writeErr ErrBookNotFound).
Definition lookupVisibleBook (shelfID bookID : bytes) : H Book :=
  listing ← lookupVisibleBookListing shelfID bookID; mret (LBook listing).

(** A call on the files of a shelf, as the methods of [Book] and [Source]
    make them. *)
Definition on_files {A : Type} (shelfID : bytes) (m : M world A) : H (result error A) :=
  on_shelf shelfID (lift m).

(** [func (c *apiCore) lookupSource] *)
Definition lookupSource (shelfID : bytes) (b : Book) (sourceID : bytes) : H Source.Source :=
  r ← on_files shelfID (GetSource b sourceID); or_err r.

(** The book a handler looked up is the one the cache holds: what a method
    changes in it, later lookups see. *)
#[local] Instance stat_eq_dec : EqDecision FileStat.FileStat.
Proof. solve_decision. Defined.
#[export] Instance Book_eq_dec : EqDecision Book.
Proof. solve_decision. Defined.
Definition share (bookID : bytes) (b b' : Book) (c : bookCache) : bookCache :=
  match cache c !! bookID with
  | Some e =>
      if decide (book e = b) then
        with_entries (<[bookID := mkEntry (folders e) (epath e) b' (charCount e) (sourceMD5 e)
          (sourceFormat e) (charCountAt e)]> (cache c)) c
      else c
  | None => c
  end.
Definition change_book (shelfID bookID : bytes) (b : Book) (m : Book → M world Book) : H (result error Book) :=
  r ← on_files shelfID (m b);
  match r with
  | Err e => mret (Err e)
  | Ok b' => _ ← on_shelf shelfID (update_cache (share bookID b b')); mret (Ok b')
  end.

(** ** Tasks: [tasksubmit.go] *)
Definition new_chain (j : Job) : TaskQueue.TaskChain :=
  TaskQueue.mkChain [] (chain_key j) zero_time
    [TaskQueue.mkTask [] F64.zero TaskQueue.StatusPending] None false.
Definition with_chain (l : TaskQueue.loc) (c : TaskQueue.TaskChain) (p : TaskQueue.Pool) : TaskQueue.Pool :=
  TaskQueue.mkPool (TaskQueue.worker p) (TaskQueue.maxKeep p) (TaskQueue.byID p) (TaskQueue.order p)
    (<[l := c]> (TaskQueue.store p)) (TaskQueue.at_ p).
Definition chain_name (p : TaskQueue.Pool) (l : TaskQueue.loc) : bytes :=
  from_option TaskQueue.cID [] (TaskQueue.store p !! l).

(** [func (t *taskSubmitter) submitTaskChain] *)
Definition submitTaskChain (j : Job) : handler := λ a,
  let l := fresh (dom (TaskQueue.store (taskChains a))) in
  let '((submitted, err), p) := TaskQueue.Submit (chain_id (calls a)) (app_clock (calls a)) (Some l)
    (with_chain l (new_chain j) (taskChains a)) in
  let name := from_option (chain_name p) [] submitted in
  (Ok match err with
      | Some TaskQueue.ErrTaskChainRunning => writeJSON StatusConflict (PTaskChain name)
      | Some TaskQueue.ErrWorkerBusy => WorkerBusy
      | Some _ => writeErr EIO
      | None => writeJSON StatusAccepted (PTaskChain name)
      end,
   count_call (set_pool p (<[l := j]> (jobs a)) a)).

(** [func newBookResponse]; a local shelf has nothing to download. *)
Definition newBookResponse (shelfID : bytes) (m : BookMeta) (folder : FolderPath) (count : Z) : H BookResponse :=
  ask_shelf shelfID (λ s, mkBookResponse m folder count (ShelfUtil.Match (nsfw s) folder)).
End ops.
End Server.
