(* ===== verification/ServerBooks.v ===== *)
(** * The handlers of books, their covers and the trash:
    [src/server/handle_books.go], [handle_book_cover.go] and [handle_trash.go]

    Each handler is given the values of its path ([r.PathValue]) and the
    request. Conditional requests ([ETag]) are left out. *)

From S2P Require Import Prelude Utf8 Strings Float64 Json Fs FsSpec Atomic ShelfUtil BookMeta Source Frame ScanCache FolderMeta Book ShelfState Trash Folder ShelfBook Listing Visibility Http TaskQueue Server.

(** [imgutil.AnyToJPG]: [Err true] when the image has too many pixels. *)
Class Images := {
  AnyToJPG : bytes → result bool bytes;
  (** [image.DecodeConfig]: format, width and height *)
  DecodeConfig : bytes → option (bytes * Z * Z);
}.

Module ServerBooks.
Import Json ShelfUtil BookMeta Book FolderMeta Shelf Trash ShelfBook Listing Visibility Http Server.

Section ops.
Context `{UnicodeCase, TimeText, Machine, Digest, ShelfEnv, AppEnv, Images}.
Implicit Types (r : Request) (shelf_id book_id : bytes).

(** [func readBookID]: the path value, or the query's. *)
Definition readBookID r book_id : bytes :=
  if decide (TrimSpace book_id = []) then Query r (str "book_id") else book_id.
Definition resolveBookID r book_id : H bytes := resolveID (readBookID r book_id).

(** [loadBook] and [loadBookListing] of [apicore.go] *)
Definition loadBookListing r shelf_id book_id : H (bytes * BookListing) :=
  shelfID ← resolveShelf shelf_id;
  bookID ← resolveBookID r book_id;
  listing ← lookupVisibleBookListing shelfID bookID;
  mret (shelfID, listing).
Definition loadBook r shelf_id book_id : H (bytes * bytes * Book) :=
  shelfID ← resolveShelf shelf_id;
  bookID ← resolveBookID r book_id;
  b ← lookupVisibleBook shelfID bookID;
  mret (shelfID, bookID, b).

(** ** Listings *)

(** [func requestsCharCount] *)
Definition requestsCharCount r : bool :=
  existsb (λ inc, bool_decide (TrimSpace inc = str "char_count")) (Split (Query r (str "include")) ","%char).

Fixpoint book_responses (shelfID : bytes) (counts : bool) (l : list BookListing) : H (list BookResponse) :=
  match l with
  | [] => mret []
  | b :: l =>
      resp ← newBookResponse shelfID (meta (LBook b)) (LFolders b) (if counts then LCharCount b else 0);
      rest ← book_responses shelfID counts l;
      mret (resp :: rest)
  end.
Definition list_visible (shelfID : bytes) : H (list BookListing) :=
  show ← visibility shelfID;
  res ← on_shelf shelfID (listBooks show);
  or_err res.
Definition getBooks r shelf_id : handler :=
  shelfID ← resolveShelf shelf_id;
  listings ← list_visible shelfID;
  resp ← book_responses shelfID (requestsCharCount r) listings;
  mret (writeJSON StatusOK (PBooks resp)).

Definition getBook r shelf_id book_id : handler :=
  '(shelfID, listing) ← loadBookListing r shelf_id book_id;
  resp ← newBookResponse shelfID (meta (LBook listing)) (LFolders listing) 0;
  mret (writeJSON StatusOK (PBook resp)).

(** [func findDuplicateBooks]: groups of books whose texts have one hash; Go
    ranges over the groups in any order. *)
Fixpoint md5_groups (l : list Book) (groups : gmap bytes (list bytes)) : M world (gmap bytes (list bytes)) :=
  match l with
  | [] => mret groups
  | b :: l =>
      source ← try (GetSource b (CurrentSource (meta b)));
      match source with
      | Err _ => md5_groups l groups
      | Ok s =>
          if bool_decide (SourceMeta.Format (Source.meta s) = BookFormatImages) then md5_groups l groups else
          let md5 := SourceMeta.MD5Hash (Source.meta s) in
          md5_groups l (<[md5 := default [] (groups !! md5) ++ [ID (meta b)]]> groups)
      end
  end.
Definition findDuplicateBooks r shelf_id : handler :=
  shelfID ← resolveShelf shelf_id;
  listings ← list_visible shelfID;
  res ← on_files shelfID (md5_groups (LBook <$> listings) ∅);
  groups ← or_err res;
  mret (writeJSON StatusOK (PGroups (filter (λ ids : list bytes, 1 < length ids) (map_to_list groups).*2))).

(** ** Creating and copying *)

(** The requests' decoders. A pointer member is nil when it is absent or
    null. *)
Definition dec_opt {A : Type} (dec : json → option A) (j : json) : option (option A) :=
  match j with JNull => Some None | _ => Some <$> dec j end.
Definition dec_folder : json → option FolderPath := dec_list dec_string.

Definition dec_createBook (j : json) : option (bytes * FolderPath) :=
  o ← dec_object j;
  title ← dec_string (member (str "title") o);
  folder ← dec_folder (member (str "folder") o);
  Some (title, folder).

(** The new book starts with an empty current source. *)
Definition init_source (b : Book) : M world Book :=
  source ← NewSource b None; SetCurrentSource b (source_id source).
Definition createBook r shelf_id : handler :=
  shelfID ← resolveShelf shelf_id;
  match RBody r with
  | Body c =>
      '(title, folder) ← or_answer (unmarshal dec_createBook c) (http_Error StatusBadRequest);
      made ← on_shelf shelfID (NewBookWith folder title (Some init_source));
      b ← or_err made;
      resp ← newBookResponse shelfID (meta b) folder 0;
      mret (writeJSON StatusCreated (PBook resp))
  | _ => mret (http_Error StatusInternalServerError)
  end.

Definition dec_copyBook (j : json) : option (option FolderPath) :=
  o ← dec_object j; dec_opt dec_folder (member (str "folder") o).
Definition copyBook r shelf_id book_id : handler :=
  shelfID ← resolveShelf shelf_id;
  bookID ← resolveBookID r book_id;
  folder ← of_decoded (decodeJSONBody [str "folder"] dec_copyBook (Some None) (RBody r));
  listing ← lookupVisibleBookListing shelfID bookID;
  let target := default (LFolders listing) folder in
  made ← on_shelf shelfID (CopyBook bookID target);
  b ← or_err made;
  resp ← newBookResponse shelfID (meta b) target 0;
  mret (writeJSON StatusCreated (PBook resp)).

(** ** Updating: [UpdateBookRequest] and [applyBookPatch] *)
Record UpdateBookRequest := mkUpdate {
  uTitle : option bytes;
  uAuthors : option (list bytes);
  uTags : option (list bytes);
  uIdentifiers : option (gmap bytes bytes);
  uLanguage : option bytes;
  uComment : option bytes;
  uStar : option Z;
  uFormat : option bytes;
  uPublishedAt : option Z;
  uFolder : option FolderPath;
  uNSFW : option bool;
}.
Definition update_names : list bytes :=
  [str "title"; str "authors"; str "tags"; str "identifiers"; str "language"; str "comment"; str "star";
   str "format"; str "published_at"; str "folder"; str "nsfw"].
Definition dec_update (j : json) : option UpdateBookRequest :=
  o ← dec_object j;
  let get k := member (str k) o in
  title ← dec_opt dec_string (get "title");
  authors ← dec_opt (dec_list dec_string) (get "authors");
  tags ← dec_opt (dec_list dec_string) (get "tags");
  identifiers ← dec_opt (dec_map dec_string) (get "identifiers");
  language ← dec_opt dec_string (get "language");
  comment ← dec_opt dec_string (get "comment");
  star ← dec_opt dec_int (get "star");
  format ← dec_opt dec_string (get "format");
  published ← dec_opt JSONDate.UnmarshalJSON (get "published_at");
  folder ← dec_opt dec_folder (get "folder");
  nsfw ← dec_opt dec_bool (get "nsfw");
  Some (mkUpdate title authors tags identifiers language comment star format published folder nsfw).

Definition applyBookPatch (req : UpdateBookRequest) (now : Z) (m : BookMeta) : BookMeta :=
  mkBookMeta (SchemaVersion m) (ID m) (default (Title m) (uTitle req)) (default (Format m) (uFormat req))
    (default (Tags m) (uTags req)) (default (Identifiers m) (uIdentifiers req)) (Cover m)
    (default (Authors m) (uAuthors req)) (default (Language m) (uLanguage req))
    (default (Comments m) (uComment req)) (default (Star m) (uStar req)) (default (NSFW m) (uNSFW req))
    (CreatedAt m) now (default (PublishedAt m) (uPublishedAt req)) (CurrentSource m).

Definition update_folder (shelfID bookID : bytes) (listing : BookListing) (folder : option FolderPath) :
    H (Book * FolderPath) :=
  match folder with
  | None => mret (LBook listing, LFolders listing)
  | Some moveTo =>
      moved ← on_shelf shelfID (MoveBook bookID moveTo);
      b ← or_err moved;
      mret (b, moveTo)
  end.
Definition updateBook r shelf_id book_id : handler :=
  shelfID ← resolveShelf shelf_id;
  bookID ← resolveBookID r book_id;
  req ← of_decoded (decodeJSONBody update_names dec_update None (RBody r));
  listing ← lookupVisibleBookListing shelfID bookID;
  _ ← or_err (EnsureWritable (LBook listing) tt).1;
  '(b, folder) ← update_folder shelfID bookID listing (uFolder req);
  now ← on_files shelfID now;
  now ← or_err now;
  let m := applyBookPatch req now (meta b) in
  changed ← change_book shelfID bookID b (λ b, SetMeta b m);
  _ ← or_err changed;
  resp ← newBookResponse shelfID m folder 0;
  mret (writeJSON StatusOK (PBook resp)).

(** ** Contents and covers *)
Definition stream (c : content) : Response := mkResponse StatusOK [] (PRaw c).
Definition getBookContent r shelf_id book_id : handler :=
  '(shelfID, _, b) ← loadBook r shelf_id book_id;
  source ← on_files shelfID (ResolveCurrentSource b);
  source ← or_err source;
  text ← on_files shelfID (Open (Source.source_path source));
  text ← or_err text;
  mret (stream text).

Definition getCover r shelf_id book_id : handler :=
  '(shelfID, _, b) ← loadBook r shelf_id book_id;
  cover ← on_files shelfID (OpenCover b);
  cover ← or_err cover;
  mret (match cover with Some c => stream c | None => http_Error StatusNotFound end).

Definition cover_ext (contentType : bytes) : bytes :=
  if decide (contentType = str "image/png") then str ".png" else
  if decide (contentType = str "image/jpeg") then str ".jpg" else
  if decide (contentType = str "image/webp") then str ".webp" else
  if decide (contentType = str "image/gif") then str ".gif" else [].
Definition updateCover r shelf_id book_id : handler :=
  '(shelfID, bookID, b) ← loadBook r shelf_id book_id;
  toJPG ← coverToJPG;
  let ext := cover_ext (Header r (str "Content-Type")) in
  if negb toJPG && bool_decide (ext = []) then mret (http_Error StatusBadRequest) else
  match RBody r with
  | TooLarge => mret (http_Error StatusRequestEntityTooLarge)
  | Broken => mret (http_Error StatusInternalServerError)
  | Body c =>
      '(data, ext) ← match (if (toJPG : bool) then AnyToJPG (content_bytes c) else Ok (content_bytes c)) with
                     | Err true => answer (http_Error StatusRequestEntityTooLarge)
                     | Err false => answer (http_Error StatusInternalServerError)
                     | Ok data => mret (data, if (toJPG : bool) then str ".jpg" else ext)
                     end;
      changed ← change_book shelfID bookID b (λ b, SetCover b data ext);
      _ ← or_err changed;
      mret (bare StatusNoContent)
  end.
Definition deleteCover r shelf_id book_id : handler :=
  '(shelfID, bookID, b) ← loadBook r shelf_id book_id;
  changed ← change_book shelfID bookID b DeleteCover;
  _ ← or_err changed;
  mret (bare StatusNoContent).

(** ** The trash: [handle_trash.go] *)
Definition trashBook r shelf_id book_id : handler :=
  shelfID ← resolveShelf shelf_id;
  bookID ← resolveBookID r book_id;
  _ ← lookupVisibleBookListing shelfID bookID;
  res ← on_shelf shelfID (MoveBookToTrash bookID);
  _ ← or_err res;
  mret (bare StatusNoContent).

Definition TrashListingPartialHeader : bytes := str "X-PlainShelf-Trash-Partial".
Definition getTrashedBooks r shelf_id : handler :=
  shelfID ← resolveShelf shelf_id;
  res ← on_shelf shelfID ListTrashedBooks;
  books ← or_err res;
  show ← visibility shelfID;
  let visible := filter (λ b, allowsTrashed show b = true) books in
  mret (mkResponse StatusOK
    (if decide (length visible < length books) then [(TrashListingPartialHeader, str "true")] else [])
    (PTrashed visible)).

Definition emptyTrash r shelf_id : handler :=
  shelfID ← resolveShelf shelf_id;
  rejectReadOnlyShelf shelfID;;
  submitTaskChain (JEmptyTrash shelfID).

Definition lookupTrashedBook (shelfID bookID : bytes) : H unit :=
  res ← on_shelf shelfID (GetTrashedBook bookID);
  b ← or_err res;
  show ← visibility shelfID;
  if allowsTrashed show b then mret tt else answer (writeErr ErrTrashedBookNotFound).
Definition actOnTrashedBook r shelf_id book_id (act : bytes → M Shelf unit) : handler :=
  shelfID ← resolveShelf shelf_id;
  bookID ← resolveBookID r book_id;
  lookupTrashedBook shelfID bookID;;
  res ← on_shelf shelfID (act bookID);
  _ ← or_err res;
  mret (bare StatusNoContent).
Definition restoreTrashedBook r shelf_id book_id : handler := actOnTrashedBook r shelf_id book_id RestoreTrashedBook.
Definition deleteTrashedBook r shelf_id book_id : handler := actOnTrashedBook r shelf_id book_id DeleteTrashedBook.
End ops.
End ServerBooks.
