(* ===== verification/ServerFolders.v ===== *)
(** * The handlers of folders: [src/server/handle_folders.go]

    Renaming and moving a folder out of a marked place asks for a
    confirmation ([refuseUnconfirmedReveal]); its metadata is read and written
    only where the client may see the folder. *)

From S2P Require Import Prelude Utf8 Strings Float64 Json Fs FsSpec Atomic ShelfUtil BookMeta Source Frame ScanCache FolderMeta Book ShelfState Trash Folder ShelfBook Listing Visibility Http TaskQueue Server ServerBooks.

Module ServerFolders.
Import Json ShelfUtil BookMeta Book FolderMeta Shelf Folder Listing Visibility Http Server ServerBooks.

Section ops.
Context `{UnicodeCase, TimeText, Machine, Digest, ShelfEnv, AppEnv}.
Implicit Types (r : Request) (shelf_id folder_path : bytes).

(** ** Reading *)

(** The folders the client may see. *)
Definition shown_folders (shelfID : bytes) : H (list FolderPath) :=
  res ← on_shelf shelfID GetAllFolders;
  folders ← or_err res;
  show ← visibility shelfID;
  res ← on_shelf shelfID (filterFolders show folders);
  or_err res.
Definition getFolders r shelf_id : handler :=
  shelfID ← resolveShelf shelf_id;
  folders ← shown_folders shelfID;
  mret (writeJSON StatusOK (PFolders folders)).

(** [func (h *folderHandlers) visibleFolders] *)
Definition visibleFolders (shelfID : bytes) : H (gset bytes) :=
  folders ← shown_folders shelfID; mret (list_to_set (String <$> folders)).

Definition folder_meta_json (m : FolderMeta) : folderMetaJSON :=
  mkFolderMetaJSON (if HasSortKey m then Some (SortKey m) else None) (DisplayIcon m) (Version m) (ReadOnly m).
Definition getFolderMeta r shelf_id : handler :=
  shelfID ← resolveShelf shelf_id;
  visible ← visibleFolders shelfID;
  res ← on_shelf shelfID ListFolderMeta;
  metas ← or_err res;
  mret (writeJSON StatusOK (PFolderMeta
    (map_imap (λ name m, if decide (name ∈ visible) then Some (folder_meta_json m) else None) metas))).

(** ** Creating and deleting *)
Definition last_part (parts : list bytes) : bytes := default [] (last parts).
Definition parent_parts (parts : list bytes) : FolderPath := take (length parts - 1) parts.

Definition createFolder r shelf_id folder_path : handler :=
  shelfID ← resolveShelf shelf_id;
  parts ← or_answer (readFolderParts folder_path) (http_Error StatusBadRequest);
  res ← on_shelf shelfID (NewFolder (parent_parts parts) (last_part parts));
  _ ← or_err res;
  mret (bare StatusNoContent).
Definition deleteFolder r shelf_id folder_path : handler :=
  shelfID ← resolveShelf shelf_id;
  parts ← or_answer (readFolderParts folder_path) (http_Error StatusBadRequest);
  res ← on_shelf shelfID (DeleteFolder parts);
  _ ← or_err res;
  mret (bare StatusNoContent).

(** ** Renaming and moving *)
Definition confirmedReveal r : bool := bool_decide (Query r (str "confirm") = str "1").

(** [func (c *apiCore) validFolderPaths] *)
Fixpoint validFolderPaths (shelfID : bytes) (paths : list FolderPath) : H unit :=
  match paths with
  | [] => mret tt
  | path :: paths =>
      res ← ask_shelf shelfID (λ s, ValidateFolderPath s path);
      _ ← or_err_status StatusBadRequest res;
      validFolderPaths shelfID paths
  end.

(** [bestEffortRescanForPreflight] and [func (c *apiCore) refreshBeforeReveal] *)
Definition bestEffortRescanForPreflight (shelfID : bytes) : H unit :=
  _ ← on_shelf shelfID Rescan.RescanUnthrottled; mret tt.
Definition refreshBeforeReveal r (shelfID : bytes) : H unit :=
  if confirmedReveal r then mret tt else
  show ← visibility shelfID;
  could ← ask_shelf shelfID (λ s, couldReveal s show);
  if (could : bool) then bestEffortRescanForPreflight shelfID else mret tt.

(** [func (c *apiCore) refuseUnconfirmedReveal] *)
Definition refuseUnconfirmedReveal r (shelfID : bytes) (change : folderChange) : H unit :=
  if confirmedReveal r then mret tt else
  show ← visibility shelfID;
  res ← on_shelf shelfID (revealedBy show change);
  reveal ← or_err res;
  if any reveal then answer (writeJSON StatusConflict (PReveal (Books reveal))) else mret tt.

(** [func (h *folderHandlers) refuseFolderRelocation] *)
Definition refuseFolderRelocation r (shelfID : bytes) (from to : FolderPath) : H unit :=
  rejectReadOnlyShelf shelfID;;
  refreshBeforeReveal r shelfID;;
  refuseUnconfirmedReveal r shelfID (folderMovedTo from to).

Definition no_folder (parts : list bytes) : bool := bool_decide (parts = [] ∨ Join parts [] = []).
Definition read_folder (folder_path : bytes) : H FolderPath :=
  match readFolderParts folder_path with
  | None => answer (http_Error StatusBadRequest)
  | Some parts => if no_folder parts then answer (http_Error StatusBadRequest) else mret parts
  end.

Definition dec_rename (j : json) : option bytes :=
  o ← dec_object j; dec_string (member (str "name") o).
Definition renameFolder r shelf_id folder_path : handler :=
  shelfID ← resolveShelf shelf_id;
  parts ← read_folder folder_path;
  name ← or_answer (unmarshalRead dec_rename (RBody r)) (http_Error StatusBadRequest);
  let newName := TrimSpace name in
  if bool_decide (newName = []) || Contains newName slash then mret (http_Error StatusBadRequest) else
  let renamed := parent_parts parts ++ [newName] in
  validFolderPaths shelfID [parts; renamed];;
  refuseFolderRelocation r shelfID parts renamed;;
  res ← on_shelf shelfID (RenameFolder parts newName);
  _ ← or_err_status StatusConflict res;
  mret (bare StatusNoContent).

Definition dec_move (j : json) : option (FolderPath * FolderPath) :=
  o ← dec_object j;
  folder ← dec_folder (member (str "folder") o);
  target ← dec_folder (member (str "target_folder") o);
  Some (folder, target).
Definition moveFolder r shelf_id : handler :=
  shelfID ← resolveShelf shelf_id;
  '(folder, target) ← or_answer (unmarshalRead dec_move (RBody r)) (http_Error StatusBadRequest);
  if decide (folder = []) then mret (http_Error StatusBadRequest) else
  let moved := target ++ [last_part folder] in
  validFolderPaths shelfID [folder; target];;
  refuseFolderRelocation r shelfID folder moved;;
  res ← on_shelf shelfID (MoveFolder folder target);
  _ ← or_err_status StatusConflict res;
  mret (bare StatusNoContent).

(** ** Setting metadata *)

(** [func decodeFolderMetaEdit]: a member is raw JSON, absent as [None]. *)
Inductive folderMetaEdit := EditSortKey (key : F64.float64) | EditIcon (icon : bytes).
Definition decodeFolderMetaEdit (sortKey icon : option json) : option folderMetaEdit :=
  match sortKey with
  | Some j =>
      match icon, j with
      | Some _, _ => None
      | None, JNull => None
      | None, j => EditSortKey <$> dec_float j
      end
  | None =>
      match icon with
      | Some j => EditIcon <$> dec_string j
      | None => Some (EditIcon [])
      end
  end.
Definition dec_setFolderMeta (j : json) : option (option json * option json * bytes) :=
  o ← dec_object j;
  version ← dec_string (member (str "version") o);
  Some (find_member (str "sort_key") o, find_member (str "icon") o, version).

Definition setFolderMeta r shelf_id folder_path : handler :=
  shelfID ← resolveShelf shelf_id;
  parts ← read_folder folder_path;
  '(sortKey, icon, version) ← or_answer (unmarshalRead dec_setFolderMeta (RBody r)) (http_Error StatusBadRequest);
  edit ← or_answer (decodeFolderMetaEdit sortKey icon) (http_Error StatusBadRequest);
  validFolderPaths shelfID [parts];;
  rejectReadOnlyShelf shelfID;;
  visible ← visibleFolders shelfID;
  if decide (String parts ∉ visible) then answer (writeErr ErrFolderNotFound) else
  res ← on_shelf shelfID (match edit with
                          | EditSortKey key => SetFolderSortKey parts key version
                          | EditIcon icon => SetFolderIcon parts icon version
                          end);
  _ ← or_err res;
  mret (bare StatusNoContent).
End ops.
End ServerFolders.
