(* ===== verification/ServerSources.v ===== *)
(** * The handlers of sources, pages and assets:
    [src/server/handle_book_sources.go], [handle_source_pages.go] and
    [handle_source_assets.go]

    Bundles of assets and conditional requests are left out;
    [util.ReEncodeToUTF8], [image.DecodeConfig] and the parsing of multipart
    forms are parameters. *)

From S2P Require Import Prelude Utf8 Strings Float64 Json Fs FsSpec Atomic ShelfUtil BookMeta Source Frame ScanCache FolderMeta Book ShelfState Trash Folder ShelfBook Listing Visibility Http TaskQueue Server ServerBooks.

(** [util.ReEncodeToUTF8] (charset detection is third-party), [rand.Text],
    [strconv.Atoi], and a multipart form of [createSource]: its content,
    format, comment and [set_current], or the status it is refused with. *)
Class SourceInput := {
  ReEncodeToUTF8 : bytes → result error bytes;
  rand_Text : nat → bytes;
  Atoi : bytes → option Z;
  read_form : Http.body → result Z (bytes * bytes * bytes * bool);
}.

Module ServerSources.
Import Json ShelfUtil Atomic BookMeta Book FolderMeta Shelf Listing Visibility Http Server ServerBooks.

Section ops.
Context `{UnicodeCase, TimeText, Machine, Digest, ShelfEnv, AppEnv, Images, SourceInput}.
Implicit Types (r : Request) (shelf_id book_id source_id asset_name : bytes).

(** [func (c *apiCore) loadBookSource] *)
Definition loadBookSource r shelf_id book_id source_id : H (bytes * bytes * Book * Source.Source) :=
  shelfID ← resolveShelf shelf_id;
  bookID ← resolveBookID r book_id;
  sourceID ← resolveID source_id;
  b ← lookupVisibleBook shelfID bookID;
  s ← lookupSource shelfID b sourceID;
  mret (shelfID, bookID, b, s).
Definition refresh_count (shelfID : bytes) (b : Book) : H unit :=
  _ ← on_shelf shelfID (RefreshBookCharCount (ID (meta b))); mret tt.

(** ** Reading *)
Definition listSources r shelf_id book_id : handler :=
  '(shelfID, _, b) ← loadBook r shelf_id book_id;
  res ← on_files shelfID (ListSource b);
  mret (match res with
        | Ok l => writeJSON StatusOK (PSources (Source.meta <$> l))
        | Err _ => http_Error StatusInternalServerError
        end).
(** [func (r *Source) SizeBytes] *)
Definition SizeBytes (s : Source.Source) : M world Z :=
  '(n, (_, size)) ← StatInfo (Source.source_path s);
  guard_err (is_dir n) (Msg "invalid source file size");;
  t ← gets wtree;
  assets ← Source.assetSize (walk_fuel t) (Source.assets_path s);
  mret (size + assets)%Z.
Definition getSource r shelf_id book_id source_id : handler :=
  '(shelfID, _, _, s) ← loadBookSource r shelf_id book_id source_id;
  size ← on_files shelfID (SizeBytes s);
  mret (writeJSON StatusOK (PSource (Source.meta s) (match size with Ok z => Some z | Err _ => None end))).
Definition getPages r shelf_id book_id source_id : handler :=
  '(shelfID, _, _, s) ← loadBookSource r shelf_id book_id source_id;
  res ← on_files shelfID (Source.Pages s);
  pages ← or_err res;
  mret (writeJSON StatusOK (PPages pages)).
Definition getSourceContent r shelf_id book_id source_id : handler :=
  '(shelfID, _, _, s) ← loadBookSource r shelf_id book_id source_id;
  res ← on_files shelfID (Open (Source.source_path s));
  mret (match res with Ok c => stream c | Err _ => http_Error StatusInternalServerError end).
Definition getAsset r shelf_id book_id source_id asset_name : handler :=
  '(shelfID, _, _, s) ← loadBookSource r shelf_id book_id source_id;
  if decide (asset_name = []) then mret (http_Error StatusBadRequest) else
  res ← on_files shelfID (Source.OpenAsset s asset_name);
  c ← or_err res;
  mret (stream c).

(** ** Creating and changing *)
Record createSourceJSONRequest := mkCreateSource {
  csContent : bytes;
  csFormat : bytes;
  csComment : bytes;
  csSetCurrent : bool;
}.
Definition dec_createSource (j : json) : option createSourceJSONRequest :=
  o ← dec_object j;
  content ← dec_string (member (str "content") o);
  format ← dec_string (member (str "format") o);
  comment ← dec_string (member (str "comment") o);
  current ← dec_bool (member (str "set_current") o);
  Some (mkCreateSource content format comment current).
(** A request that is neither a form nor JSON makes an empty text source. *)
Definition create_request r : result Response createSourceJSONRequest :=
  let contentType := lower (Header r (str "Content-Type")) in
  if HasPrefix contentType (str "multipart/form-data") then
    match read_form (RBody r) with
    | Ok (content, format, comment, current) => Ok (mkCreateSource content format comment current)
    | Err status => Err (http_Error status)
    end
  else if HasPrefix contentType (str "application/json")
  then decodeJSONBody [str "content"; str "format"; str "comment"; str "set_current"] dec_createSource None (RBody r)
  else Ok (mkCreateSource [] [] [] false).
(** Making the new source the current one; when that fails it is deleted. *)
Definition activate (b : Book) (id : bytes) : M world (result error Book) :=
  set ← try (SetCurrentSource b id);
  match set with
  | Ok b' => mret (Ok b')
  | Err e => _ ← try (DeleteSource b id); mret (Err e)
  end.
Definition createSource r shelf_id book_id : handler :=
  '(shelfID, bookID, b) ← loadBook r shelf_id book_id;
  _ ← or_err (EnsureWritable b tt).1;
  req ← of_decoded (create_request r);
  let format := TrimSpace (csFormat req) in
  let options := Source.mkNewSourceOptions (if decide (format ≠ []) then format else BookFormatText)
                   (csComment req) [] in
  made ← on_files shelfID (NewSourceWithOptions b (Some (mkReader (csContent req) None)) options);
  s ← or_err made;
  (if csSetCurrent req then
     res ← on_files shelfID (activate b (source_id s));
     res ← or_err res;
     b' ← or_err res;
     _ ← on_shelf shelfID (update_cache (share bookID b b'));
     refresh_count shelfID b'
   else mret tt);;
  mret (writeJSON StatusOK (PSource (Source.meta s) None)).

Definition deleteSource r shelf_id book_id source_id : handler :=
  shelfID ← resolveShelf shelf_id;
  bookID ← resolveBookID r book_id;
  sourceID ← resolveID source_id;
  b ← lookupVisibleBook shelfID bookID;
  res ← change_book shelfID bookID b (λ b, DeleteSource b sourceID);
  b' ← or_err res;
  refresh_count shelfID b';;
  mret (bare StatusNoContent).
Definition deleteSourceComment r shelf_id book_id source_id : handler :=
  '(shelfID, _, _, s) ← loadBookSource r shelf_id book_id source_id;
  res ← on_files shelfID (Source.UpdateComment s []);
  _ ← or_err res;
  mret (bare StatusNoContent).
Definition setCurrentSource r shelf_id book_id source_id : handler :=
  '(shelfID, bookID, b, _) ← loadBookSource r shelf_id book_id source_id;
  sourceID ← resolveID source_id;
  res ← change_book shelfID bookID b (λ b, SetCurrentSource b sourceID);
  b' ← or_err res;
  refresh_count shelfID b';;
  mret (bare StatusNoContent).
Definition refreshSourceMeta r shelf_id book_id source_id : handler :=
  '(shelfID, _, b, s) ← loadBookSource r shelf_id book_id source_id;
  res ← on_files shelfID (Source.refreshContentMetadata s);
  s' ← or_err res;
  refresh_count shelfID b;;
  mret (writeJSON StatusOK (PSource (Source.meta s') None)).
Definition updateSourceContent r shelf_id book_id source_id : handler :=
  '(shelfID, _, b, s) ← loadBookSource r shelf_id book_id source_id;
  match RBody r with
  | TooLarge => mret (http_Error StatusRequestEntityTooLarge)
  | Broken => mret (http_Error StatusInternalServerError)
  | Body c =>
      text ← match ReEncodeToUTF8 (content_bytes c) with
             | Ok text => mret text
             | Err _ => answer (http_Error StatusInternalServerError)
             end;
      res ← on_files shelfID (Source.UpdateContent s (mkReader text None));
      _ ← or_err res;
      refresh_count shelfID b;;
      mret (bare StatusNoContent)
  end.

(** ** Assets *)
Definition updateAsset r shelf_id book_id source_id asset_name : handler :=
  '(shelfID, _, b, s) ← loadBookSource r shelf_id book_id source_id;
  if decide (asset_name = []) then mret (http_Error StatusBadRequest) else
  _ ← or_err (EnsureWritable b tt).1;
  match RBody r with
  | TooLarge => mret (http_Error StatusRequestEntityTooLarge)
  | Broken => mret (http_Error StatusInternalServerError)
  | Body c =>
      res ← on_files shelfID (Source.WriteAsset s asset_name (content_bytes c));
      _ ← or_err res;
      mret (bare StatusNoContent)
  end.
Definition deleteAsset r shelf_id book_id source_id asset_name : handler :=
  '(shelfID, _, b, s) ← loadBookSource r shelf_id book_id source_id;
  if decide (asset_name = []) then mret (http_Error StatusBadRequest) else
  _ ← or_err (EnsureWritable b tt).1;
  res ← on_files shelfID (Source.DeleteAsset s asset_name);
  _ ← or_err res;
  mret (bare StatusNoContent).

(** ** Pages: one edit at a time ([pageEdits]) *)

(** [func (h *sourceHandlers) loadWritableSource] *)
Definition loadWritableSource r shelf_id book_id source_id : H (bytes * Source.Source) :=
  '(shelfID, _, b, s) ← loadBookSource r shelf_id book_id source_id;
  _ ← or_err (EnsureWritable b tt).1;
  mret (shelfID, s).
(** [writePageEdit] and [requirePageListMD5] *)
Definition writePageEdit (res : result error (Source.PageList * Source.Source)) : handler :=
  '(pages, _) ← or_err res; mret (writeJSON StatusOK (PPages pages)).
Definition requirePageListMD5 (md5Hash : bytes) : H unit :=
  if decide (md5Hash = []) then answer (http_Error StatusBadRequest) else mret tt.

Definition dec_replacePages (j : json) : option (list bytes * bytes) :=
  o ← dec_object j;
  pages ← dec_list dec_string (member (str "pages") o);
  md5 ← dec_string (member (str "md5_hash") o);
  Some (pages, md5).
Definition replacePages r shelf_id book_id source_id : handler :=
  '(shelfID, s) ← loadWritableSource r shelf_id book_id source_id;
  '(pages, md5) ← of_decoded (decodeJSONBody [str "pages"; str "md5_hash"] dec_replacePages None (RBody r));
  requirePageListMD5 md5;;
  res ← on_files shelfID (Source.ReplacePages s md5 pages);
  writePageEdit res.

Definition maxPagePixels : Z := 100000000.
Definition pageImageExts (format : bytes) : option bytes :=
  if decide (format = str "jpeg") then Some (str ".jpg") else
  if decide (format = str "png") then Some (str ".png") else
  if decide (format = str "gif") then Some (str ".gif") else
  if decide (format = str "webp") then Some (str ".webp") else None.
(** [func pageImageExt]: the extension, or the status of the refusal. *)
Definition pageImageExt (data : bytes) : result Z bytes :=
  match DecodeConfig data with
  | None => Err StatusBadRequest
  | Some (format, width, height) =>
      match pageImageExts format with
      | None => Err StatusBadRequest
      | Some ext =>
          if ((width <=? 0) || (height <=? 0) || (maxPagePixels / height <? width))%Z
          then Err StatusRequestEntityTooLarge else Ok ext
      end
  end.
Definition insertPage r shelf_id book_id source_id : handler :=
  '(shelfID, s) ← loadWritableSource r shelf_id book_id source_id;
  let md5 := Query r (str "md5_hash") in
  requirePageListMD5 md5;;
  position ← or_answer (Atoi (Query r (str "position"))) (http_Error StatusBadRequest);
  match RBody r with
  | TooLarge => mret (http_Error StatusRequestEntityTooLarge)
  | Broken => mret (http_Error StatusInternalServerError)
  | Body c =>
      let data := content_bytes c in
      match pageImageExt data with
      | Err status => mret (http_Error status)
      | Ok ext =>
          k ← ask_shelf shelfID (λ s, tick (sworld s));
          res ← on_files shelfID (Source.InsertPage s md5 position data ext (rand_Text k));
          writePageEdit res
      end
  end.
Definition deletePage r shelf_id book_id source_id asset_name : handler :=
  '(shelfID, s) ← loadWritableSource r shelf_id book_id source_id;
  if decide (asset_name = []) then mret (http_Error StatusBadRequest) else
  let md5 := Query r (str "md5_hash") in
  requirePageListMD5 md5;;
  res ← on_files shelfID (Source.DeletePage s md5 asset_name);
  writePageEdit res.
Definition dec_pageDirection (j : json) : option bytes :=
  o ← dec_object j; dec_string (member (str "page_direction") o).
Definition setPageDirection r shelf_id book_id source_id : handler :=
  '(shelfID, s) ← loadWritableSource r shelf_id book_id source_id;
  direction ← of_decoded (decodeJSONBody [str "page_direction"] dec_pageDirection None (RBody r));
  res ← on_files shelfID (Source.SetPageDirection s direction);
  s' ← or_err res;
  mret (writeJSON StatusOK (PSource (Source.meta s') None)).
End ops.
End ServerSources.
