(* ===== verification/ServerTransfers.v ===== *)
(** * The handlers that submit tasks, and the settings:
    [src/server/handle_book_batches.go], [handle_content_stats.go],
    [handle_book_transfers.go], [handle_folder_transfers.go],
    [handle_taskchains.go], [handle_scans.go] and [handle_setting.go]

    A handler checks a request as far as it can before a task is submitted;
    the tasks themselves are ServerTasks. *)

From S2P Require Import Prelude Utf8 Strings Float64 Json Fs FsSpec Atomic ShelfUtil BookMeta Source Frame ScanCache FolderMeta Book ShelfState Trash Folder ShelfBook Listing Visibility Http TaskQueue Server ServerBooks ServerFolders.

Module ServerTransfers.
Import Json ShelfUtil BookMeta Book FolderMeta Shelf Trash Listing Visibility Http Server ServerBooks ServerFolders.

Section ops.
Context `{UnicodeCase, TimeText, Machine, Digest, ShelfEnv, AppEnv}.
Implicit Types (r : Request) (shelf_id book_id : bytes).

(** ** Batches *)
Definition maxBookBatchSize : nat := 200.

(** [func normalizeBookBatchIDs]: trimmed, without repetitions. *)
Fixpoint normalize_loop (l : list bytes) (seen : gset bytes) (acc : list bytes) : option (list bytes) :=
  match l with
  | [] => Some acc
  | raw :: l =>
      let id := TrimSpace raw in
      if decide (id = []) then None else
      if decide (id ∈ seen) then normalize_loop l seen acc
      else normalize_loop l ({[id]} ∪ seen) (acc ++ [id])
  end.
Definition normalizeBookBatchIDs (l : list bytes) : option (list bytes) :=
  result ← normalize_loop l ∅ [];
  if decide (result = []) then None else
  if decide (maxBookBatchSize < length result) then None else Some result.

Definition visible_books (shelfID : bytes) : H VisibleBooks :=
  show ← visibility shelfID;
  res ← on_shelf shelfID (visibleBooks show);
  or_err res.

Definition dec_bookBatch (j : json) : option (bytes * list bytes * option FolderPath) :=
  o ← dec_object j;
  operation ← dec_string (member (str "operation") o);
  ids ← dec_list dec_string (member (str "book_ids") o);
  target ← dec_opt dec_folder (member (str "target_folder") o);
  Some (operation, ids, target).
Definition check_batch_target (shelfID operation : bytes) (target : option FolderPath) : H unit :=
  if decide (operation = str "move") then
    match target with
    | None => answer (http_Error StatusBadRequest)
    | Some f =>
        res ← ask_shelf shelfID (λ s, ValidateFolderPath s f);
        match res with Ok _ => mret tt | Err _ => answer (http_Error StatusBadRequest) end
    end
  else match target with None => mret tt | Some _ => answer (http_Error StatusBadRequest) end.
Definition bookBatch r shelf_id : handler :=
  shelfID ← resolveShelf shelf_id;
  rejectReadOnlyShelf shelfID;;
  '(operation, ids, target) ← of_decoded (decodeJSONBody
    [str "operation"; str "book_ids"; str "target_folder"] dec_bookBatch None (RBody r));
  let operation := TrimSpace operation in
  if negb (bool_decide (operation = str "move")) && negb (bool_decide (operation = str "trash"))
  then mret (http_Error StatusBadRequest) else
  ids ← or_answer (normalizeBookBatchIDs ids) (http_Error StatusBadRequest);
  check_batch_target shelfID operation target;;
  visible ← visible_books shelfID;
  submitTaskChain (JBookBatch shelfID operation ids target visible).

Definition refreshContentStats r shelf_id : handler :=
  shelfID ← resolveShelf shelf_id;
  rejectReadOnlyShelf shelfID;;
  visible ← visible_books shelfID;
  submitTaskChain (JRefreshStats shelfID visible).

(** ** Transfers of a book *)
Definition copy_mode : bytes := str "copy".
Definition move_mode : bytes := str "move".
Definition check_mode (mode : bytes) : H bytes :=
  let operation := TrimSpace mode in
  if decide (operation = copy_mode ∨ operation = move_mode) then mret operation
  else answer (http_Error StatusBadRequest).
(** The shelf a transfer goes to: named, another one, and there. *)
Definition target_shelf (shelfID target : bytes) : H bytes :=
  let targetID := TrimSpace target in
  if decide (targetID = []) then answer (http_Error StatusBadRequest) else
  if decide (targetID = shelfID) then answer (http_Error StatusBadRequest) else
  ask_shelf targetID (λ _, targetID).
(** The target is written to; a move writes to the source too. *)
Definition reject_read_only_transfer (operation shelfID targetID : bytes) : H unit :=
  rejectReadOnlyShelf targetID;;
  (if decide (operation = move_mode) then rejectReadOnlyShelf shelfID else mret tt).

(** [func targetLacksBook] *)
Definition targetLacksBook (targetID bookID : bytes) : H (result error unit) :=
  res ← on_shelf targetID (GetBook bookID);
  mret (match res with
        | Ok _ => Err ErrBookIDConflict
        | Err e => if errors_Is e ErrBookNotFound then Ok tt else Err e
        end).

Definition dec_bookTransfer (j : json) : option (bytes * bytes * option FolderPath) :=
  o ← dec_object j;
  mode ← dec_string (member (str "mode") o);
  target ← dec_string (member (str "target_shelf") o);
  folder ← dec_opt dec_folder (member (str "target_folder") o);
  Some (mode, target, folder).
Definition transferBook r shelf_id book_id : handler :=
  shelfID ← resolveShelf shelf_id;
  bookID ← resolveBookID r book_id;
  '(mode, target, folder) ← of_decoded (decodeJSONBody
    [str "mode"; str "target_shelf"; str "target_folder"] dec_bookTransfer None (RBody r));
  operation ← check_mode mode;
  targetID ← target_shelf shelfID target;
  listing ← lookupVisibleBookListing shelfID bookID;
  let targetFolder := default (LFolders listing) folder in
  res ← ask_shelf targetID (λ s, ValidateFolderPath s targetFolder);
  _ ← or_err_status StatusBadRequest res;
  reject_read_only_transfer operation shelfID targetID;;
  (if decide (operation = move_mode) then
     res ← targetLacksBook targetID bookID; _ ← or_err res; mret tt
   else mret tt);;
  submitTaskChain (JBookTransfer shelfID targetID operation bookID targetFolder).

(** ** Transfers of a folder *)

(** [func foldersUnder] *)
Definition foldersUnder (l : list FolderPath) (root : FolderPath) : list FolderPath :=
  filter (λ f, FPHasPrefix f root = true) l.

(** [func snapshotFolderTransfer] *)
Definition snapshotFolderTransfer (shelfID : bytes) (root : FolderPath) :
    H (list FolderPath * list (bytes * FolderPath)) :=
  res ← on_shelf shelfID GetAllFolders;
  folders ← or_err res;
  res ← on_shelf shelfID ListBooksWithCharCount;
  listings ← or_err res;
  mret (foldersUnder folders root,
        (λ l, (ID (meta (LBook l)), LFolders l)) <$> filter (λ l, FPHasPrefix (LFolders l) root = true) listings).

(** [func targetBookIDs] *)
Definition targetBookIDs (targetID : bytes) : H (gset bytes) :=
  res ← on_shelf targetID ListBooks;
  books ← or_err res;
  res ← on_shelf targetID ListTrashedBookIDs;
  trashed ← or_err res;
  mret (list_to_set ((λ b, ID (meta b)) <$> books) ∪ list_to_set trashed).

(** [func folderTransferConflictAt]: a refusal, if there is a conflict. *)
Definition folderTransferConflictAt (targetID : bytes) (targetFolder : FolderPath) (operation : bytes)
    (books : list (bytes * FolderPath)) : H unit :=
  res ← on_shelf targetID GetAllFolders;
  folders ← or_err res;
  if decide (foldersUnder folders targetFolder ≠ [])
  then answer (writeJSON StatusConflict (PConflict (str "target_folder_conflict") [])) else
  if decide (operation ≠ move_mode) then mret tt else
  existing ← targetBookIDs targetID;
  let conflicts := filter (λ id, id ∈ existing) books.*1 in
  if decide (conflicts = []) then mret tt
  else answer (writeJSON StatusConflict (PConflict (str "book_id_conflict") (sort_strings conflicts))).

Definition dec_folderTransfer (j : json) : option (bytes * FolderPath * bytes * option FolderPath) :=
  o ← dec_object j;
  mode ← dec_string (member (str "mode") o);
  source ← dec_folder (member (str "source_folder") o);
  target ← dec_string (member (str "target_shelf") o);
  folder ← dec_opt dec_folder (member (str "target_folder") o);
  Some (mode, source, target, folder).
Definition valid_folder_at (shelfID : bytes) (folder : FolderPath) : H unit :=
  if decide (folder = []) then answer (http_Error StatusBadRequest) else validFolderPaths shelfID [folder].
Definition transferFolder r shelf_id : handler :=
  shelfID ← resolveShelf shelf_id;
  '(mode, sourceFolder, target, folder) ← of_decoded (decodeJSONBody
    [str "mode"; str "source_folder"; str "target_shelf"; str "target_folder"] dec_folderTransfer None (RBody r));
  operation ← check_mode mode;
  valid_folder_at shelfID sourceFolder;;
  targetID ← target_shelf shelfID target;
  let targetFolder := default sourceFolder folder in
  valid_folder_at targetID targetFolder;;
  reject_read_only_transfer operation shelfID targetID;;
  bestEffortRescanForPreflight shelfID;;
  bestEffortRescanForPreflight targetID;;
  '(subFolders, books) ← snapshotFolderTransfer shelfID sourceFolder;
  if decide (subFolders = [] ∧ books = []) then mret (http_Error StatusNotFound) else
  folderTransferConflictAt targetID targetFolder operation books;;
  refuseUnconfirmedReveal r shelfID (folderLeavingTheShelf sourceFolder);;
  submitTaskChain (JFolderTransfer shelfID targetID operation sourceFolder targetFolder books subFolders).

(** ** Chains, rescans and status *)
Definition chain_response (p : TaskQueue.Pool) (l : TaskQueue.loc) : Response :=
  match TaskQueue.store p !! l with
  | Some c => writeJSON StatusOK (PTaskStatus (TaskQueue.cID c)
      (TaskQueue.StatusString (TaskQueue.ChainStatus c)) (TaskQueue.ChainPercentage c))
  | None => http_Error StatusNotFound
  end.
Definition getTaskChain r (taskchain_id : bytes) : handler :=
  id ← resolveID taskchain_id;
  with_app (λ a, (match TaskQueue.Get id (taskChains a) with
                  | Some l => chain_response (taskChains a) l
                  | None => http_Error StatusNotFound
                  end, a)).
Definition cancelTaskChain r (taskchain_id : bytes) : handler :=
  id ← resolveID taskchain_id;
  with_app (λ a,
    let '((chain, _), p) := TaskQueue.Cancel id (taskChains a) in
    (match chain with Some l => chain_response p l | None => http_Error StatusNotFound end,
     set_pool p (jobs a) a)).

(** [Retry-After] in whole seconds, rounded up, at least one. *)
Definition retry_seconds (wait : Z) : Z := Z.max 1 ((wait + second - 1) / second).
Definition rescanShelf r shelf_id : handler :=
  shelfID ← resolveShelf shelf_id;
  res ← on_shelf shelfID Rescan.Rescan;
  '(scan, err) ← or_err res;
  mret (match err with
        | None => writeJSON StatusOK (PScan (Rescan.RID scan) (Rescan.BookCount scan) (Rescan.FolderCount scan))
        | Some ErrRescanInProgress => writeJSON StatusConflict (PScan (Rescan.RID scan) 0 0)
        | Some ErrRescanRateLimited =>
            writeJSON StatusTooManyRequests (PRetry (retry_seconds (Rescan.RetryAfter scan)))
        | Some e => writeErr e
        end).
Definition getShelfStatus r shelf_id : handler :=
  shelfID ← resolveShelf shelf_id;
  ok ← ask_shelf shelfID ready;
  mret (writeJSON StatusOK (PBool ok)).

(** ** Settings *)

(** [func readJSONSetting] and [setJSONSetting] *)
Definition readJSONSetting {A : Type} (key : bytes) (dec : json → option A) (valid : A → bool) : H (option A) :=
  res ← GetSetting key;
  mret (match res with
        | Ok (Some c) => match unmarshal dec c with
                         | Some v => if valid v then Some v else None
                         | None => None
                         end
        | _ => None
        end).
Definition setJSONSetting {A : Type} (key : bytes) (dec : json → option A) (enc : A → json)
    (valid : A → bool) (b : body) : H (option Response) :=
  match b with
  | Body c =>
      match decodeRequestJSON [] dec c with
      | None => mret (Some (http_Error StatusBadRequest))
      | Some v =>
          if negb (valid v) then mret (Some (http_Error StatusBadRequest)) else
          res ← SetSetting key (Doc (enc v));
          mret (match res with Ok _ => None | Err _ => Some (http_Error StatusInternalServerError) end)
      end
  | _ => mret (Some (http_Error StatusBadRequest))
  end.

Definition settingKeyLogRetentionDays : bytes := str "log_retention_days".
Definition maxLogRetentionDays : Z := 3650.
(** [func checkLogRetentionDays] *)
Definition checkLogRetentionDays (days : Z) : bool := ((0 <=? days) && (days <=? maxLogRetentionDays))%Z.
Definition stored_retention : H (option Z) :=
  readJSONSetting settingKeyLogRetentionDays dec_int checkLogRetentionDays.
Definition logRetentionDays : H Z := λ a,
  let '(r, a') := stored_retention a in
  (Ok (match r with Ok (Some days) => days | _ => confRetentionDays a end), a').
(** [func (s *settings) applyLogRetention] *)
Definition applyLogRetention : H unit :=
  days ← stored_retention; with_app (λ a, (tt, set_retention days a)).

Definition setBoolSetting (key : bytes) (b : body) : handler :=
  match b with
  | Body c =>
      if decide (content_bytes c = str "true" ∨ content_bytes c = str "false") then
        res ← SetSetting key c;
        mret (match res with Ok _ => bare StatusNoContent | Err _ => http_Error StatusInternalServerError end)
      else mret (http_Error StatusBadRequest)
  | _ => mret (http_Error StatusBadRequest)
  end.
Definition deleteSetting (key : bytes) : H bool :=
  res ← DeleteSetting key; mret (match res with Ok _ => true | Err _ => false end).
Definition deleted_response (ok : bool) : Response :=
  if ok then bare StatusNoContent else http_Error StatusInternalServerError.

Definition getCoverToJPG : handler := b ← coverToJPG; mret (writeJSON StatusOK (PBool b)).
Definition setCoverToJPG r : handler := setBoolSetting settingKeyCoverToJPG (RBody r).
Definition deleteCoverToJPG : handler := ok ← deleteSetting settingKeyCoverToJPG; mret (deleted_response ok).
Definition getShowNSFW : handler := b ← readShowNSFW; mret (writeJSON StatusOK (PBool b)).
Definition setShowNSFW r : handler := setBoolSetting settingKeyShowNSFW (RBody r).
Definition deleteShowNSFW : handler := ok ← deleteSetting settingKeyShowNSFW; mret (deleted_response ok).
Definition getLogRetentionDays : handler := d ← logRetentionDays; mret (writeJSON StatusOK (PInt d)).
Definition setLogRetentionDays r : handler :=
  refused ← setJSONSetting settingKeyLogRetentionDays dec_int JInt checkLogRetentionDays (RBody r);
  match refused with
  | Some resp => mret resp
  | None => applyLogRetention;; mret (bare StatusNoContent)
  end.
Definition deleteLogRetentionDays : handler :=
  ok ← deleteSetting settingKeyLogRetentionDays;
  (if (ok : bool) then applyLogRetention else mret tt);;
  mret (deleted_response ok).
End ops.
End ServerTransfers.
