(* ===== verification/Routes.v ===== *)
(** * The routes of the server and the handler in front of them:
    [src/server/routes.go], [app.go] ([Handler]) and [handle_meta.go]

    The table of [mux.HandleFunc] calls, the dispatch of [http.ServeMux] over
    it and the chain of handlers a request passes: security, the read-only
    server, the multiplexer. Handlers that are not modelled (imports,
    downloads, fingerprints, logs, the EPUB setting, exports, bundles and the
    web application) are one parameter. *)

From S2P Require Import Prelude Utf8 Strings Float64 Json Fs FsSpec Atomic ShelfUtil BookMeta Source Frame ScanCache FolderMeta Book ShelfState Trash Folder ShelfBook Listing Visibility Http Security TaskQueue Server ServerBooks ServerFolders ServerSources ServerTransfers.

Module Routes.
Import Http Security Server ServerBooks ServerFolders ServerSources ServerTransfers.

Inductive Endpoint :=
  | Health | GetMode | GetVersion | GetShelves | GetShelfStatus | RescanShelf
  | GetBooks | CreateBook | BookBatch | RefreshContentStats | FindDuplicateBooks
  | GetBook | UpdateBook | CopyBook | TransferBook | TrashBook
  | ListSources | GetSource | CreateSource | DeleteSource | DeleteSourceComment | SetCurrentSource
  | GetSourceContent | UpdateSourceContent | RefreshSourceMeta
  | GetPages | ReplacePages | InsertPage | DeletePage | SetPageDirection
  | GetAsset | UpdateAsset | DeleteAsset
  | GetCover | UpdateCover | DeleteCover | GetBookContent
  | GetTrashedBooks | EmptyTrash | RestoreTrashedBook | DeleteTrashedBook
  | GetFolders | MoveFolder | GetFolderMeta | SetFolderMeta | TransferFolder
  | CreateFolder | RenameFolder | DeleteFolder
  | GetTaskChain | CancelTaskChain
  | GetCoverToJPG | SetCoverToJPG | DeleteCoverToJPG
  | GetShowNSFW | SetShowNSFW | DeleteShowNSFW
  | GetLogRetentionDays | SetLogRetentionDays | DeleteLogRetentionDays
  | NotFound
  | Other (name : bytes).
#[export] Instance Endpoint_eq_dec : EqDecision Endpoint.
Proof. solve_decision. Defined.

(** ** Patterns *)
Inductive pat := Lit (s : bytes) | Wild | Rest.
Record route := mkRoute { rmethod : bytes; rpath : list pat; rendpoint : Endpoint }.

Definition lits (l : list string) : list pat := Lit ∘ String.list_ascii_of_string <$> l.
Definition of_shelf : list pat := lits ["api"; "shelves"]%string ++ [Wild].
Definition of_book : list pat := of_shelf ++ lits ["books"]%string ++ [Wild].
Definition of_source : list pat := of_book ++ lits ["sources"]%string ++ [Wild].
Definition of_trash : list pat := of_shelf ++ lits ["trash"]%string.
Definition setting (name : string) : list pat := lits ["api"; "setting"; name]%string.

Definition routes : list route := [
  mkRoute GET (lits ["health"]) Health;
  mkRoute GET (lits ["api"; "mode"]) GetMode;
  mkRoute GET (lits ["api"; "version"]) GetVersion;
  mkRoute GET (lits ["api"; "shelves"]) GetShelves;
  mkRoute GET (of_shelf ++ lits ["status"]) GetShelfStatus;
  mkRoute POST (of_shelf ++ lits ["scans"]) RescanShelf;
  mkRoute GET (of_shelf ++ lits ["books"]) GetBooks;
  mkRoute POST (of_shelf ++ lits ["books"]) CreateBook;
  mkRoute POST (of_shelf ++ lits ["book-batches"]) BookBatch;
  mkRoute POST (of_shelf ++ lits ["content-stat-refreshes"]) RefreshContentStats;
  mkRoute POST (of_shelf ++ lits ["source-fingerprints"]) (Other (str "source-fingerprints"));
  mkRoute GET (of_shelf ++ lits ["fingerprints"; "status"]) (Other (str "fingerprints"));
  mkRoute POST (of_shelf ++ lits ["book-cache-exports"]) (Other (str "book-cache-exports"));
  mkRoute POST (of_shelf ++ lits ["books"; "import"]) (Other (str "import"));
  mkRoute GET (of_shelf ++ lits ["books"; "duplicate"]) FindDuplicateBooks;
  mkRoute GET (of_shelf ++ lits ["books"; "similar"]) (Other (str "similar"));
  mkRoute GET of_book GetBook;
  mkRoute PATCH of_book UpdateBook;
  mkRoute POST (of_book ++ lits ["copies"]) CopyBook;
  mkRoute POST (of_book ++ lits ["transfers"]) TransferBook;
  mkRoute DELETE of_book TrashBook;
  mkRoute POST (of_book ++ lits ["trash"]) TrashBook;
  mkRoute GET (of_book ++ lits ["sources"]) ListSources;
  mkRoute GET of_source GetSource;
  mkRoute POST (of_book ++ lits ["sources"]) CreateSource;
  mkRoute DELETE of_source DeleteSource;
  mkRoute DELETE (of_source ++ lits ["comment"]) DeleteSourceComment;
  mkRoute PUT (of_source ++ lits ["current"]) SetCurrentSource;
  mkRoute GET (of_source ++ lits ["content"]) GetSourceContent;
  mkRoute PATCH (of_source ++ lits ["content"]) UpdateSourceContent;
  mkRoute POST (of_source ++ lits ["refresh"]) RefreshSourceMeta;
  mkRoute GET (of_source ++ lits ["pages"]) GetPages;
  mkRoute PUT (of_source ++ lits ["pages"]) ReplacePages;
  mkRoute POST (of_source ++ lits ["pages"]) InsertPage;
  mkRoute DELETE (of_source ++ lits ["pages"] ++ [Wild]) DeletePage;
  mkRoute PUT (of_source ++ lits ["page-direction"]) SetPageDirection;
  mkRoute GET (of_source ++ lits ["assets.zip"]) (Other (str "assets.zip"));
  mkRoute GET (of_source ++ lits ["assets"] ++ [Wild]) GetAsset;
  mkRoute PUT (of_source ++ lits ["assets"] ++ [Wild]) UpdateAsset;
  mkRoute DELETE (of_source ++ lits ["assets"] ++ [Wild]) DeleteAsset;
  mkRoute GET (of_book ++ lits ["cover"]) GetCover;
  mkRoute PUT (of_book ++ lits ["cover"]) UpdateCover;
  mkRoute DELETE (of_book ++ lits ["cover"]) DeleteCover;
  mkRoute GET (of_book ++ lits ["content"]) GetBookContent;
  mkRoute GET (of_shelf ++ lits ["downloads"]) (Other (str "downloads"));
  mkRoute PUT (of_book ++ lits ["download"]) (Other (str "download"));
  mkRoute DELETE (of_book ++ lits ["download"]) (Other (str "download"));
  mkRoute GET (of_trash ++ lits ["books"]) GetTrashedBooks;
  mkRoute POST (of_trash ++ lits ["empty"]) EmptyTrash;
  mkRoute POST (of_trash ++ lits ["books"] ++ [Wild] ++ lits ["restore"]) RestoreTrashedBook;
  mkRoute DELETE (of_trash ++ lits ["books"] ++ [Wild]) DeleteTrashedBook;
  mkRoute GET (of_shelf ++ lits ["folders"]) GetFolders;
  mkRoute POST (of_shelf ++ lits ["folder-moves"]) MoveFolder;
  mkRoute GET (of_shelf ++ lits ["folder-meta"]) GetFolderMeta;
  mkRoute PUT (of_shelf ++ lits ["folder-meta"] ++ [Rest]) SetFolderMeta;
  mkRoute POST (of_shelf ++ lits ["folder-transfers"]) TransferFolder;
  mkRoute POST (of_shelf ++ lits ["folders"] ++ [Rest]) CreateFolder;
  mkRoute PATCH (of_shelf ++ lits ["folders"] ++ [Rest]) RenameFolder;
  mkRoute DELETE (of_shelf ++ lits ["folders"] ++ [Rest]) DeleteFolder;
  mkRoute GET (lits ["api"; "taskchains"] ++ [Wild]) GetTaskChain;
  mkRoute POST (lits ["api"; "taskchains"] ++ [Wild] ++ lits ["cancel"]) CancelTaskChain;
  mkRoute GET (lits ["api"; "logs"]) (Other (str "logs"));
  mkRoute GET (lits ["api"; "logs"] ++ [Wild] ++ lits ["content"]) (Other (str "log"));
  mkRoute GET (setting "cover_to_jpg") GetCoverToJPG;
  mkRoute POST (setting "cover_to_jpg") SetCoverToJPG;
  mkRoute DELETE (setting "cover_to_jpg") DeleteCoverToJPG;
  mkRoute GET (setting "epub_import_strategy") (Other (str "epub_import_strategy"));
  mkRoute POST (setting "epub_import_strategy") (Other (str "epub_import_strategy"));
  mkRoute DELETE (setting "epub_import_strategy") (Other (str "epub_import_strategy"));
  mkRoute GET (setting "show_nsfw") GetShowNSFW;
  mkRoute POST (setting "show_nsfw") SetShowNSFW;
  mkRoute DELETE (setting "show_nsfw") DeleteShowNSFW;
  mkRoute GET (setting "log_retention_days") GetLogRetentionDays;
  mkRoute POST (setting "log_retention_days") SetLogRetentionDays;
  mkRoute DELETE (setting "log_retention_days") DeleteLogRetentionDays;
  mkRoute GET (lits ["api"] ++ [Rest]) NotFound;
  mkRoute GET [Rest] (Other (str "spa"))
]%string.

(** ** Dispatch

    A pattern matches the segments of a path; its wildcards take their
    values. A [GET] pattern also takes [HEAD]. Of the patterns that match,
    [ServeMux] takes the most specific; in [routes] that is the first
    ([routes_specific]). *)
Fixpoint match_path (ps : list pat) (segs : list bytes) : option (list bytes) :=
  match ps, segs with
  | [], [] => Some []
  | [Rest], segs => if decide (segs = []) then None else Some [Join segs slash]
  | Lit s :: ps, x :: segs => if decide (s = x) then match_path ps segs else None
  | Wild :: ps, x :: segs => if decide (x = []) then None else cons x <$> match_path ps segs
  | _, _ => None
  end.
Definition takes_method (m : bytes) (rt : route) : bool :=
  bool_decide (rmethod rt = m) || bool_decide (rmethod rt = GET ∧ m = HEAD).
Fixpoint find_route (rs : list route) (m : bytes) (segs : list bytes) : option (Endpoint * list bytes) :=
  match rs with
  | [] => None
  | rt :: rs =>
      match (if takes_method m rt then match_path (rpath rt) segs else None) with
      | Some vals => Some (rendpoint rt, vals)
      | None => find_route rs m segs
      end
  end.

(** Precedence: [within ps qs] when every path [ps] matches [qs] matches too;
    [overlap] when some path may match both. *)
Fixpoint within (ps qs : list pat) : bool :=
  match ps, qs with
  | [], [] => true
  | [], _ => false
  | _ :: _, [Rest] => true
  | Lit a :: ps, Lit b :: qs => bool_decide (a = b) && within ps qs
  | Lit a :: ps, Wild :: qs => bool_decide (a ≠ []) && within ps qs
  | Wild :: ps, Wild :: qs => within ps qs
  | _, _ => false
  end.
Fixpoint overlap (ps qs : list pat) : bool :=
  match ps, qs with
  | [], [] => true
  | [Rest], _ :: _ | _ :: _, [Rest] => true
  | Lit a :: ps, Lit b :: qs => bool_decide (a = b) && overlap ps qs
  | Lit _ :: ps, Wild :: qs | Wild :: ps, Lit _ :: qs | Wild :: ps, Wild :: qs => overlap ps qs
  | _, _ => false
  end.
Lemma within_sound ps : ∀ qs segs, within ps qs = true →
  is_Some (match_path ps segs) → is_Some (match_path qs segs).
Proof.
  induction ps as [|p ps IH]; intros [|q qs] segs Hw Hs; try done; [by destruct p|].
  destruct q as [b| |]; last first.
  { destruct qs; [|destruct p; done]. destruct segs as [|x segs]; [|by eexists].
    destruct p, ps; simpl in Hs; repeat case_decide; by destruct Hs. }
  all: destruct p as [a| |]; try done; destruct segs as [|x segs]; simpl in *; try (by destruct Hs).
  all: try apply andb_true_iff in Hw as [Hx%bool_decide_eq_true Hw]; repeat case_decide; subst; try done;
    rewrite ?fmap_is_Some in *; auto; by destruct Hs.
Qed.
Lemma overlap_sound ps : ∀ qs segs, is_Some (match_path ps segs) → is_Some (match_path qs segs) →
  overlap ps qs = true.
Proof.
  induction ps as [|p ps IH]; intros [|q qs] segs Hp Hq; try (destruct segs; simpl in *; by destruct Hp, Hq).
  - destruct segs; [|by destruct Hp]. destruct q, qs; simpl in *; repeat case_decide; by destruct Hq.
  - destruct segs; [|by destruct Hq]. destruct p, ps; simpl in *; repeat case_decide; by destruct Hp.
  - destruct p as [a| |], q as [b| |]; try (destruct ps; done); try (destruct qs; done); destruct segs as [|x segs];
      simpl in *; try (by destruct Hp); repeat case_decide; subst; try (by destruct Hp); try (by destruct Hq);
      rewrite ?fmap_is_Some in *; rewrite ?bool_decide_true by done; eauto.
    all: destruct ps, qs; try done; simpl in *; by destruct Hp, Hq.
Qed.
(** In the table the first pattern that matches a request is the most
    specific of those that do. *)
Fixpoint precedence (rs : list route) : bool :=
  match rs with
  | [] => true
  | rt :: rs => forallb (λ qt, negb (bool_decide (rmethod rt = rmethod qt)) ||
                               negb (overlap (rpath rt) (rpath qt)) || within (rpath rt) (rpath qt)) rs && precedence rs
  end.
Lemma routes_precedence : precedence routes = true.
Proof. vm_compute. reflexivity. Qed.
Lemma precedence_sound rs l rt l' qt segs : precedence rs = true → rs = l ++ rt :: l' → qt ∈ l' → rmethod rt = rmethod qt →
  is_Some (match_path (rpath rt) segs) → is_Some (match_path (rpath qt) segs) → within (rpath rt) (rpath qt) = true.
Proof.
  revert rs. induction l as [|x l IH]; intros rs Hp -> Hq Hm Hr Hs; simpl in Hp; apply andb_true_iff in Hp as [Hp Hps].
  - rewrite forallb_forall in Hp. specialize (Hp qt ltac:(by apply list_elem_of_In)).
    rewrite (bool_decide_true (rmethod rt = _)) in Hp by done. by rewrite (overlap_sound _ _ segs Hr Hs) in Hp.
  - by eapply IH.
Qed.
(** Of the patterns of [routes] that match a request, [find_route] takes the
    one within all the others. *)
Lemma routes_specific l rt l' qt segs : routes = l ++ rt :: l' → qt ∈ l' → rmethod rt = rmethod qt →
  is_Some (match_path (rpath rt) segs) → is_Some (match_path (rpath qt) segs) → within (rpath rt) (rpath qt) = true.
Proof. intros. by eapply precedence_sound; [apply routes_precedence|..]. Qed.
(** A path that is not clean is redirected to its clean form. *)
Definition clean_segment (last : bool) (s : bytes) : bool :=
  (last || negb (bool_decide (s = []))) && negb (bool_decide (s = str "." ∨ s = str "..")).
Fixpoint clean (segs : list bytes) : bool :=
  match segs with
  | [] => false
  | [s] => clean_segment true s
  | s :: segs => clean_segment false s && clean segs
  end.

(** A path without its last slash is redirected when a pattern that ends in a
    rest matches the path with the slash, the rest being empty, and no other
    pattern matches the path as it is. *)
Definition exact (ps : list pat) : bool := match last ps with Some Rest => false | _ => true end.
Definition adds_slash (m : bytes) (segs : list bytes) : bool :=
  match last segs with
  | None | Some [] => false
  | Some _ =>
      negb (existsb (λ rt, takes_method m rt && exact (rpath rt) &&
                           bool_decide (is_Some (match_path (rpath rt) segs))) routes) &&
      existsb (λ rt, takes_method m rt && negb (exact (rpath rt)) &&
                     bool_decide (is_Some (match_path (take (length (rpath rt) - 1) (rpath rt)) segs))) routes
  end.

(** The handlers of [routes] this development does not model. *)
Class OtherHandlers := other_handler : bytes → Request → list bytes → handler.

Section serve.
Context `{UnicodeCase, TimeText, Machine, Digest, ShelfEnv, AppEnv, Images, SourceInput, OtherHandlers, NetText}.

Definition serve (ep : Endpoint) (vals : list bytes) (r : Request) : handler :=
  match ep, vals with
  | Health, _ => mret (mkResponse StatusOK [] PText)
  | GetMode, _ => with_app (λ a, (writeJSON StatusOK (PBool (appReadOnly a)), a))
  | GetVersion, _ => mret (writeJSON StatusOK PText)
  | GetShelves, _ => with_app (λ a, (writeJSON StatusOK (PConflict [] (sort_strings (elements (dom (shelves a))))), a))
  | GetShelfStatus, [s] => getShelfStatus r s
  | RescanShelf, [s] => rescanShelf r s
  | GetBooks, [s] => getBooks r s
  | CreateBook, [s] => createBook r s
  | BookBatch, [s] => bookBatch r s
  | RefreshContentStats, [s] => refreshContentStats r s
  | FindDuplicateBooks, [s] => findDuplicateBooks r s
  | GetBook, [s; b] => getBook r s b
  | UpdateBook, [s; b] => updateBook r s b
  | CopyBook, [s; b] => copyBook r s b
  | TransferBook, [s; b] => transferBook r s b
  | TrashBook, [s; b] => trashBook r s b
  | ListSources, [s; b] => listSources r s b
  | GetSource, [s; b; c] => getSource r s b c
  | CreateSource, [s; b] => createSource r s b
  | DeleteSource, [s; b; c] => deleteSource r s b c
  | DeleteSourceComment, [s; b; c] => deleteSourceComment r s b c
  | SetCurrentSource, [s; b; c] => setCurrentSource r s b c
  | GetSourceContent, [s; b; c] => getSourceContent r s b c
  | UpdateSourceContent, [s; b; c] => updateSourceContent r s b c
  | RefreshSourceMeta, [s; b; c] => refreshSourceMeta r s b c
  | GetPages, [s; b; c] => getPages r s b c
  | ReplacePages, [s; b; c] => replacePages r s b c
  | InsertPage, [s; b; c] => insertPage r s b c
  | DeletePage, [s; b; c; n] => deletePage r s b c n
  | SetPageDirection, [s; b; c] => setPageDirection r s b c
  | GetAsset, [s; b; c; n] => getAsset r s b c n
  | UpdateAsset, [s; b; c; n] => updateAsset r s b c n
  | DeleteAsset, [s; b; c; n] => deleteAsset r s b c n
  | GetCover, [s; b] => getCover r s b
  | UpdateCover, [s; b] => updateCover r s b
  | DeleteCover, [s; b] => deleteCover r s b
  | GetBookContent, [s; b] => getBookContent r s b
  | GetTrashedBooks, [s] => getTrashedBooks r s
  | EmptyTrash, [s] => emptyTrash r s
  | RestoreTrashedBook, [s; b] => restoreTrashedBook r s b
  | DeleteTrashedBook, [s; b] => deleteTrashedBook r s b
  | GetFolders, [s] => getFolders r s
  | MoveFolder, [s] => moveFolder r s
  | GetFolderMeta, [s] => getFolderMeta r s
  | SetFolderMeta, [s; f] => setFolderMeta r s f
  | TransferFolder, [s] => transferFolder r s
  | CreateFolder, [s; f] => createFolder r s f
  | RenameFolder, [s; f] => renameFolder r s f
  | DeleteFolder, [s; f] => deleteFolder r s f
  | GetTaskChain, [t] => getTaskChain r t
  | CancelTaskChain, [t] => cancelTaskChain r t
  | GetCoverToJPG, _ => getCoverToJPG
  | SetCoverToJPG, _ => setCoverToJPG r
  | DeleteCoverToJPG, _ => deleteCoverToJPG
  | GetShowNSFW, _ => getShowNSFW
  | SetShowNSFW, _ => setShowNSFW r
  | DeleteShowNSFW, _ => deleteShowNSFW
  | GetLogRetentionDays, _ => getLogRetentionDays
  | SetLogRetentionDays, _ => setLogRetentionDays r
  | DeleteLogRetentionDays, _ => deleteLogRetentionDays
  | Other name, vals => other_handler name r vals
  | _, _ => mret (http_Error StatusNotFound)
  end.

(** [ServeMux.ServeHTTP] *)
Definition mux (r : Request) : handler :=
  if adds_slash (Method r) (Segments r) || negb (clean (Segments r)) then mret (bare StatusMovedPermanently) else
  match find_route routes (Method r) (Segments r) with
  | Some (ep, vals) => serve ep vals r
  | None =>
      mret (http_Error (if existsb (λ rt, bool_decide (is_Some (match_path (rpath rt) (Segments r)))) routes
                        then StatusMethodNotAllowed else StatusNotFound))
  end.

(** [func (app *App) rejectReadOnlyWrite] *)
Definition rejectReadOnlyWrite (r : Request) (a : App) : bool :=
  appReadOnly a && IsMutatingMethod (Method r) && negb (isReadOnlySafeRequest r).

(** [func (app *App) Handler] *)
Definition app_handler (r : Request) (a : App) : Response * App :=
  if rejectReadOnlyWrite r a then (http_Error StatusForbidden, a) else respond (mux r) a.
Definition Handler (sec : option Security) (r : Request) (a : App) : Response * App :=
  Middleware sec app_handler r a.
End serve.
End Routes.
