(* ===== verification/ServerSpec.v ===== *)
(** * What a request may change: the server's security

    Requests that only ask, those the middleware lets pass without a token
    among them, leave the files of every shelf, the settings and the queue of
    tasks as they were: only a request with the token and an allowed origin
    changes them ([writes_need_token]). *)

From S2P Require Import Prelude Utf8 Strings Float64 Json Fs FsSpec Atomic ShelfUtil BookMeta Source Frame ScanCache FolderMeta Book BookSpec NoFault ShelfState Trash Folder ShelfBook ShelfFrame FolderSpec TrashSpec Listing Visibility Http Security TaskQueue Server ServerBooks ServerFolders ServerSources ServerTransfers Routes.

Module ServerSpec.
Import Routes ShelfUtil BookMeta Book FolderMeta Shelf Trash ShelfFrame TrashSpec Listing Visibility Http Security Server ServerBooks ServerFolders ServerSources ServerTransfers.

(** ** Calls that only read *)
Definition quiet {S A : Type} `{HasTree S} (m : M S A) : Prop := keeps (λ _, False) (λ _, False) m.

Section reads.
Context `{UnicodeCase, TimeText, Machine, Digest, ShelfEnv}.
Implicit Types P D : path → Prop.

#[local] Hint Resolve keeps_lift keeps_rlocked keeps_refresh keeps_getUpdated keeps_openBook keeps_OpenBook
  keeps_readTrashMetaTolerant keeps_findTrashedBook keeps_scan keeps_update_cache : frame.

Lemma keeps_ready {A : Type} P D (m : M Shelf A) : keeps P D m → keeps P D (ready_or_error m).
Proof. intros Hm. unfold ready_or_error, IsReady. frame. Qed.
Lemma keeps_schedule P D : keeps P D scheduleBookCacheRefreshIfNeeded.
Proof. unfold scheduleBookCacheRefreshIfNeeded. frame. Qed.
#[local] Hint Resolve keeps_schedule : frame.
Lemma keeps_ListBooksWithCharCount P D : keeps P D ListBooksWithCharCount.
Proof. apply keeps_ready. frame. Qed.
#[local] Hint Resolve keeps_ListBooksWithCharCount : frame.
Lemma keeps_ListBooks P D : keeps P D ListBooks.
Proof. unfold ListBooks. frame. Qed.
Lemma keeps_GetBook P D id : keeps P D (GetBook id).
Proof. apply keeps_ready. frame. Qed.
Lemma keeps_GetBookListing P D id : keeps P D (GetBookListing id).
Proof. apply keeps_ready. frame. Qed.
Lemma keeps_GetAllFolders P D : keeps P D GetAllFolders.
Proof. apply keeps_ready. frame. Qed.
Lemma keeps_ListFolderMeta P D : keeps P D ListFolderMeta.
Proof. apply keeps_ready. frame. Qed.
Lemma keeps_listBooks P D show : keeps P D (listBooks show).
Proof. unfold listBooks. frame. Qed.
Lemma keeps_filterFolders P D show fs : keeps P D (filterFolders show fs).
Proof. unfold filterFolders. frame. Qed.

Lemma keeps_open_trashed P D es : keeps P D (open_trashed es).
Proof. induction es as [|e es IH]; simpl; frame. Qed.
#[local] Hint Resolve keeps_open_trashed : frame.
Lemma keeps_ListTrashedBooks P D : keeps P D ListTrashedBooks.
Proof. apply keeps_rlocked. frame. Qed.
Lemma keeps_GetTrashedBook P D id : keeps P D (GetTrashedBook id).
Proof. apply keeps_rlocked. frame. Qed.

Lemma keeps_rescan P D b : keeps P D (Rescan.rescan b).
Proof.
  unfold Rescan.rescan, Rescan.beginRescan, Rescan.endRescan, Rescan.scan_claimed, IsReady. frame.
  all: by apply keeps_modify.
Qed.

Lemma keeps_Rescan P D : keeps P D Rescan.Rescan.
Proof. apply keeps_rescan. Qed.

(** Books and sources. *)
Lemma keeps_GetSource P D b id : keeps P D (GetSource b id).
Proof. unfold GetSource, Source.openSource. frame. Qed.
Lemma keeps_open_sources P D rw dir names : keeps P D (open_sources rw dir names).
Proof. induction names as [|n names IH]; simpl; unfold Source.openSource; frame. Qed.
#[local] Hint Resolve keeps_GetSource keeps_open_sources : frame.
Lemma keeps_ListSource P D b : keeps P D (ListSource b).
Proof. unfold ListSource. frame. Qed.
#[local] Hint Resolve keeps_ListSource : frame.
Lemma keeps_ResolveCurrentSource P D b : keeps P D (ResolveCurrentSource b).
Proof. unfold ResolveCurrentSource. frame. Qed.
Lemma keeps_OpenCover P D b : keeps P D (OpenCover b).
Proof. unfold OpenCover. frame. Qed.
Lemma keeps_ListAssets P D s : keeps P D (Source.ListAssets s).
Proof. unfold Source.ListAssets. frame. Qed.
Lemma keeps_readPageList P D s : keeps P D (Source.readPageList s).
Proof. unfold Source.readPageList, Source.ReadContent. frame. Qed.
#[local] Hint Resolve keeps_ListAssets keeps_readPageList : frame.
Lemma keeps_Pages P D s : keeps P D (Source.Pages s).
Proof. unfold Source.Pages. frame. Qed.
Lemma keeps_OpenAsset P D s n : keeps P D (Source.OpenAsset s n).
Proof. unfold Source.OpenAsset. frame. Qed.
Lemma keeps_assetSize P D fuel dir : keeps P D (Source.assetSize fuel dir).
Proof.
  revert dir. induction fuel as [|fuel IH]; intros dir; simpl; [frame|].
  frame_step; [frame|]. destruct a as [es|e]; [|frame].
  apply (keeps_foldl P D (λ (e : bytes * node) size, match e.2 with
    | Dir => nested ← Source.assetSize fuel (dir ++ [e.1]); mret (size + nested)%Z
    | File c _ => mret (size + content_size c)%Z end)); [frame|]. intros c b. frame.
Qed.
#[local] Hint Resolve keeps_assetSize : frame.
Lemma keeps_SizeBytes P D s : keeps P D (SizeBytes s).
Proof. unfold SizeBytes. frame. Qed.
Lemma keeps_md5_groups P D l g : keeps P D (md5_groups l g).
Proof. revert g. induction l as [|b l IH]; intros g; simpl; frame. Qed.
End reads.

(** ** Handlers that change nothing that lasts

    The files of every shelf, the settings, the queue and its jobs. *)
Record same_files (a a' : App) : Prop := {
  sf_trees : stree <$> shelves a' = stree <$> shelves a;
  sf_db : storeDB a' = storeDB a;
  sf_pool : taskChains a' = taskChains a;
  sf_jobs : jobs a' = jobs a;
  sf_retention : retention a' = retention a;
  sf_shown : showNSFWByShelf a' = showNSFWByShelf a;
}.
#[export] Instance same_files_refl : Reflexive same_files.
Proof. by split. Qed.
#[export] Instance same_files_trans : Transitive same_files.
Proof. intros a0 a1 a2 [] []. split; by etrans. Qed.
Definition app_wf (a : App) : Prop := map_Forall (λ _ t, wf_tree t) (stree <$> shelves a).
Lemma same_files_wf a a' : same_files a a' → app_wf a → app_wf a'.
Proof. intros [Ht _ _ _ _ _]. unfold app_wf. by rewrite Ht. Qed.

Definition calm {A : Type} (m : H A) : Prop := ∀ a, app_wf a → same_files a (m a).2.

Lemma calm_ret {A : Type} (x : A) : calm (mret x).
Proof. by intros a _. Qed.
Lemma calm_answer {A : Type} resp : calm (@answer A resp).
Proof. by intros a _. Qed.
Lemma calm_decoded {A : Type} (x : result Response A) : calm (of_decoded x).
Proof. by intros a _. Qed.
Lemma calm_bind {A B : Type} (m : H A) (k : A → H B) : calm m → (∀ x, calm (k x)) → calm (m ≫= k).
Proof.
  intros Hm Hk a Hw. unfold mbind, H_bind. specialize (Hm a Hw).
  destruct (m a) as [[x|e] a1]; simpl in *; [|done]. etrans; [exact Hm|]. by apply Hk, (same_files_wf a).
Qed.
Lemma calm_or_answer {A : Type} (o : option A) resp : calm (or_answer o resp).
Proof. destruct o; by intros st _. Qed.
Lemma calm_or_err {A : Type} (x : result error A) : calm (or_err x).
Proof. destruct x; by intros st _. Qed.
Lemma calm_or_err_status {A : Type} s (x : result error A) : calm (or_err_status s x).
Proof. destruct x; by intros st _. Qed.
Lemma calm_with_app {A : Type} (f : App → A * App) : (∀ a, same_files a (f a).2) → calm (with_app f).
Proof. intros Hf a _. unfold with_app. specialize (Hf a). by destruct (f a). Qed.
Lemma calm_ask_shelf {A : Type} id (f : Shelf → A) : calm (ask_shelf id f).
Proof. intros a _. unfold ask_shelf. by case_match. Qed.

Lemma calm_on_shelf {A : Type} id (m : M Shelf A) : (∀ P D, keeps P D m) → calm (on_shelf id m).
Proof.
  intros Hm a Hw. unfold on_shelf. destruct (shelves a !! id) as [s|] eqn:Hs; [|done].
  assert (wf_tree (stree s)) as Hws by (apply (Hw id); by rewrite lookup_fmap, Hs).
  destruct (Hm (λ _, False) (λ _, False) s Hws) as [_ Ht%touched_none_eq].
  destruct (m s) as [r s']. split; try done. simpl in *. rewrite fmap_insert.
  apply insert_id. rewrite lookup_fmap, Hs. simpl. f_equal. symmetry. exact Ht.
Qed.
Lemma calm_on_files `{Machine} {A : Type} id (m : M world A) : (∀ P D, keeps P D m) → calm (on_files id m).
Proof. intros Hm. apply calm_on_shelf. intros P D. apply keeps_lift, Hm. Qed.

Create HintDb calm.
#[export] Hint Resolve calm_ret calm_answer calm_decoded calm_or_answer calm_or_err calm_or_err_status
  calm_ask_shelf : calm.
Ltac calm_step :=
  match goal with
  | |- calm (mbind _ _) => apply calm_bind; [|intros ?]
  | |- calm (match ?x with _ => _ end) => destruct x
  | |- calm (let _ := _ in _) => cbv zeta
  | |- _ => solve [auto with calm]
  | |- calm (on_shelf _ _) => apply calm_on_shelf; intros P D; solve [auto with reads]
  | |- calm (on_files _ _) => apply calm_on_files; intros P D; solve [auto with reads frame]
  | |- calm (with_app _) => apply calm_with_app; let st := fresh "st" in intros st; reflexivity
  end.
Ltac calm := repeat calm_step.
Create HintDb reads.
#[export] Hint Resolve keeps_ListBooksWithCharCount keeps_ListBooks keeps_GetBook keeps_GetBookListing
  keeps_GetAllFolders keeps_ListFolderMeta keeps_listBooks keeps_filterFolders keeps_ListTrashedBooks
  keeps_GetTrashedBook keeps_Rescan keeps_GetSource keeps_ListSource keeps_ResolveCurrentSource
  keeps_OpenCover keeps_Pages keeps_OpenAsset keeps_SizeBytes keeps_md5_groups keeps_update_cache : reads.

Section handlers.
Context `{UnicodeCase, TimeText, Machine, Digest, ShelfEnv, AppEnv, Images, SourceInput, OtherHandlers, NetText}.

Lemma calm_GetSetting key : calm (GetSetting key).
Proof. by intros a _. Qed.
Lemma calm_readShowNSFW : calm readShowNSFW.
Proof. by intros a _. Qed.
Lemma calm_coverToJPG : calm coverToJPG.
Proof. by intros a _. Qed.
Lemma calm_visibility id : calm (visibility id).
Proof. intros a Hw. unfold visibility. case_match; [done|]. by apply calm_readShowNSFW. Qed.
Lemma calm_resolveShelf raw : calm (resolveShelf raw).
Proof. unfold resolveShelf. calm. Qed.
Lemma calm_resolveID raw : calm (resolveID raw).
Proof. unfold resolveID. calm. Qed.
#[local] Hint Resolve calm_GetSetting calm_readShowNSFW calm_coverToJPG calm_visibility calm_resolveShelf calm_resolveID : calm.
Lemma calm_lookup id book : calm (lookupVisibleBookListing id book).
Proof. unfold lookupVisibleBookListing. calm. Qed.
Lemma calm_response id m f n : calm (newBookResponse id m f n).
Proof. unfold newBookResponse. calm. Qed.
#[local] Hint Resolve calm_lookup calm_response : calm.
Lemma calm_lookupBook id book : calm (lookupVisibleBook id book).
Proof. unfold lookupVisibleBook. calm. Qed.
Lemma calm_lookupSource id b sid : calm (lookupSource id b sid).
Proof. unfold lookupSource. calm. Qed.
#[local] Hint Resolve calm_lookupBook calm_lookupSource : calm.
Lemma calm_loadBookListing r s b : calm (loadBookListing r s b).
Proof. unfold loadBookListing, resolveBookID. calm. Qed.
Lemma calm_loadBook r s b : calm (loadBook r s b).
Proof. unfold loadBook, resolveBookID. calm. Qed.
Lemma calm_loadBookSource r s b c : calm (loadBookSource r s b c).
Proof. unfold loadBookSource, resolveBookID. calm. Qed.
Lemma calm_responses id n l : calm (book_responses id n l).
Proof. induction l as [|b l IH]; simpl; calm. Qed.
Lemma calm_list_visible id : calm (list_visible id).
Proof. unfold list_visible. calm. Qed.
Lemma calm_shown_folders id : calm (shown_folders id).
Proof. unfold shown_folders. calm. Qed.
#[local] Hint Resolve calm_loadBookListing calm_loadBook calm_loadBookSource calm_responses calm_list_visible calm_shown_folders : calm.
Lemma calm_visibleFolders id : calm (visibleFolders id).
Proof. unfold visibleFolders. calm. Qed.
#[local] Hint Resolve calm_visibleFolders : calm.

(** The endpoints that ask. *)
Definition asks (ep : Endpoint) : bool :=
  match ep with
  | Health | GetMode | GetVersion | GetShelves | GetShelfStatus | RescanShelf | Routes.GetBooks
  | FindDuplicateBooks | Routes.GetBook | ListSources | Routes.GetSource | GetSourceContent | GetPages
  | GetAsset | GetCover | GetBookContent | GetTrashedBooks | GetFolders | GetFolderMeta | GetTaskChain
  | GetCoverToJPG | GetShowNSFW | GetLogRetentionDays | NotFound => true
  | _ => false
  end.

Lemma calm_stored_retention : calm stored_retention.
Proof. unfold stored_retention, readJSONSetting. calm. Qed.
Lemma calm_logRetentionDays : calm logRetentionDays.
Proof.
  intros st Hw. pose proof (calm_stored_retention st Hw) as Hs. unfold logRetentionDays.
  by destruct (stored_retention st).
Qed.
#[local] Hint Resolve calm_logRetentionDays : calm.

Lemma calm_serve ep vals r : asks ep = true → calm (serve ep vals r).
Proof.
  intros He. destruct ep; try discriminate He; cbn [serve]; calm.
  all: unfold getShelfStatus, rescanShelf, getBooks, findDuplicateBooks, getBook, listSources, getSource,
    getSourceContent, getPages, getAsset, getCover, getBookContent, getTrashedBooks, getFolders, getFolderMeta,
    getTaskChain, getCoverToJPG, getShowNSFW, getLogRetentionDays; calm.
Qed.

(** ** Which requests reach which endpoint *)
Lemma find_route_in rs m segs ep vals :
  find_route rs m segs = Some (ep, vals) →
  ∃ rt, rt ∈ rs ∧ takes_method m rt = true ∧ match_path (rpath rt) segs = Some vals ∧ rendpoint rt = ep.
Proof.
  induction rs as [|rt rs IH]; simpl; [done|]. destruct (takes_method m rt) eqn:Hm.
  - destruct (match_path (rpath rt) segs) as [v|] eqn:Hp.
    + intros [= <- <-]. exists rt. split; [left|done].
    + intros (rt' & ? & ?)%IH. exists rt'. split; [by right|done].
  - intros (rt' & ? & ?)%IH. exists rt'. split; [by right|done].
Qed.
Definition is_other (ep : Endpoint) : bool := match ep with Other _ => true | _ => false end.

(** Every route of [GET] asks; every other is below [/api/], and the only one
    whose path may read [.../scans] below a shelf is the rescan. *)
Definition below_api (ps : list pat) : bool :=
  match ps with Lit p :: _ :: _ => bool_decide (p = str "api") | _ => false end.
Definition not_scans (ps : list pat) : bool :=
  match ps with
  | [Lit _; Lit s; Wild; Lit x] => bool_decide (x ≠ str "scans")
  | Lit _ :: Lit s :: Wild :: Lit x :: _ :: _ => true
  | Lit _ :: Lit s :: _ => bool_decide (s ≠ str "shelves") && bool_decide (Split s "/"%char = [s])
  | _ => false
  end.
Definition route_ok (rt : route) : bool :=
  if is_other (rendpoint rt) then true else
  if bool_decide (rmethod rt = GET) then asks (rendpoint rt)
  else bool_decide (rmethod rt ∈ [POST; PUT; PATCH; DELETE]) && below_api (rpath rt) &&
       (asks (rendpoint rt) || not_scans (rpath rt)).
Lemma routes_ok : forallb route_ok routes = true.
Proof. vm_compute. reflexivity. Qed.

Lemma match_path_nil p ps : match_path (p :: ps) [] = None.
Proof. by destruct p, ps. Qed.
Lemma match_lit s ps segs vals :
  match_path (Lit s :: ps) segs = Some vals → ∃ segs', segs = s :: segs' ∧ match_path ps segs' = Some vals.
Proof.
  destruct segs as [|y segs]; [done|]. cbn [match_path]. case_decide as Hy; [subst y|done]. by exists segs.
Qed.
Lemma match_wild ps segs vals :
  match_path (Wild :: ps) segs = Some vals →
  ∃ w segs' vals', segs = w :: segs' ∧ match_path ps segs' = Some vals'.
Proof.
  destruct segs as [|y segs]; [done|]. cbn [match_path]. case_decide as Hy; [done|].
  intros (v & Hv & _)%fmap_Some. by exists y, segs, v.
Qed.
Lemma match_some p ps segs vals : match_path (p :: ps) segs = Some vals → ∃ x segs', segs = x :: segs'.
Proof. destruct segs as [|x segs']; [by rewrite match_path_nil|]. by exists x, segs'. Qed.
Lemma below_api_path ps segs vals r :
  below_api ps = true → match_path ps segs = Some vals → Segments r = segs →
  HasPrefix (Path r) api_prefix = true.
Proof.
  destruct ps as [|[s| |] [|p ps]]; try done. simpl below_api. intros ->%bool_decide_eq_true.
  intros (segs1 & -> & (x & segs' & ->)%match_some)%match_lit Hr. unfold Path, HasPrefix. rewrite Hr.
  apply bool_decide_eq_true. by exists (Join (x :: segs') slash).
Qed.

Lemma Cut_spec s a b : Cut s = Some (a, b) → s = a ++ "/"%char :: b ∧ "/"%char ∉ a.
Proof.
  revert a. induction s as [|c s IH]; intros a; simpl; [done|]. case_decide as Hc.
  - intros [= <- <-]. subst. split; [done|set_solver].
  - destruct (Cut s) as [[a' b']|]; [|done]. simpl. intros [= <- <-].
    destruct (IH a' eq_refl) as [-> ?]. set_solver.
Qed.
Lemma scan_path p :
  classifyShelfRoute p = shelfScanRoute →
  ∃ w, Split p "/"%char = [[]; str "api"; str "shelves"; w; str "scans"].
Proof.
  unfold classifyShelfRoute, CutPrefix, HasPrefix. case_bool_decide as Hp; [|done].
  destruct Hp as [k ->]. rewrite drop_app_length. destruct (Cut k) as [[w tail]|] eqn:Hk; [|done].
  apply Cut_spec in Hk as [-> Hw]. case_decide; [done|]. case_decide as Ht.
  - intros _. exists w. subst tail. simpl. rewrite Split_app by done. done.
  - by repeat case_match.
Qed.
(** The words of a path whose first segments are known. *)
Lemma split_path segs r :
  segs ≠ [] → Segments r = segs →
  Split (Path r) "/"%char = [] :: mjoin ((λ w, Split w "/"%char) <$> segs).
Proof.
  intros Hs Hr. unfold Path. rewrite Hr. change (slash ++ Join segs slash) with ([] ++ "/"%char :: Join segs ["/"%char]).
  rewrite Split_app by set_solver. by rewrite Split_Join_concat.
Qed.
Lemma three_parts {A : Type} (l1 l2 l3 : list A) a b c :
  1 ≤ length l1 → 1 ≤ length l2 → 1 ≤ length l3 → l1 ++ l2 ++ l3 ++ [] = [a; b; c] → l3 = [c].
Proof.
  destruct l1 as [|x1 [|y1 l1]], l2 as [|x2 [|y2 l2]], l3 as [|x3 [|y3 l3]]; simpl; try lia;
    intros _ _ _ E; try (by simplify_eq/=); apply (f_equal length) in E; simpl in E;
    rewrite ?length_app in E; simpl in E; lia.
Qed.
Lemma split_nonempty_length w : 1 ≤ length (Split w "/"%char).
Proof. pose proof (Split_nonempty w "/"%char). destruct (Split w "/"%char); [done|]. simpl. lia. Qed.
Lemma not_scans_path ps segs vals r :
  below_api ps = true → not_scans ps = true → match_path ps segs = Some vals → Segments r = segs →
  classifyShelfRoute (Path r) ≠ shelfScanRoute.
Proof.
  intros Hb Hns Hm Hr [w Hw]%scan_path.
  rewrite (split_path segs) in Hw; [|intros ->; destruct ps as [|? ?]; [done|by rewrite match_path_nil in Hm]|done].
  clear Hr r. destruct ps as [|[s0| |] [|[s| |] ps]]; try done. simpl in Hb. apply bool_decide_eq_true in Hb as ->.
  apply match_lit in Hm as (segs1 & -> & (segs2 & -> & Hm)%match_lit). simplify_eq/=.
  assert ((s ≠ str "shelves" ∧ Split s "/"%char = [s]) ∨
          ∃ v x segs3, segs2 = v :: x :: segs3 ∧ (segs3 = [] → x ≠ str "scans")) as [[Hs Hs']|(v & x & segs3 & -> & Hx)].
  { clear Hw. destruct ps as [|[l| |] [|[x| |] [|q ps]]];
      try (left; by apply andb_true_iff in Hns as [?%bool_decide_eq_true ?%bool_decide_eq_true]).
    - right. apply bool_decide_eq_true in Hns.
      apply match_wild in Hm as (v & segs3 & vals' & -> & (segs4 & -> & _)%match_lit).
      by exists v, x, segs4.
    - right. apply match_wild in Hm as (v & segs3 & vals' & -> & (segs4 & -> & (y & segs5 & ->)%match_some)%match_lit).
      by exists v, x, (y :: segs5). }
  - rewrite Hs' in Hw. simpl in Hw. by injection Hw.
  - pose proof (split_nonempty_length s). pose proof (split_nonempty_length v). pose proof (split_nonempty_length x) as Hlx.
    assert (segs3 = []) as ->.
    { destruct segs3 as [|y segs3]; [done|]. pose proof (split_nonempty_length y).
      apply (f_equal length) in Hw. simpl in Hw. rewrite !length_app in Hw. simpl in Hw. lia. }
    cbn in Hw. apply three_parts in Hw; try done. apply Hx; [done|].
    pose proof (Join_Split x "/"%char) as Hj. by rewrite Hw in Hj.
Qed.

(** ** What a request reaches *)
Definition reaches (r : Request) : option Endpoint :=
  if adds_slash (Method r) (Segments r) || negb (clean (Segments r)) then None
  else fst <$> find_route routes (Method r) (Segments r).
Definition modelled (r : Request) : Prop := ∀ name, reaches r ≠ Some (Other name).
(** A request that reaches an endpoint that does more than ask. *)
Definition acts (r : Request) : bool :=
  match reaches r with Some ep => negb (asks ep) | None => false end.

Lemma calm_mux r : modelled r → acts r = false → calm (mux r).
Proof.
  unfold modelled, acts, reaches, mux. destruct (adds_slash _ _ || negb (clean _)); [calm|].
  destruct (find_route routes _ _) as [[ep vals]|]; simpl; [|calm].
  intros _ He%negb_false_iff. by apply calm_serve.
Qed.
Lemma same_files_respond (h : handler) a : calm h → app_wf a → same_files a (respond h a).2.
Proof. intros Hh Hw. unfold respond. specialize (Hh a Hw). by destruct (h a). Qed.

(** What acts is a mutating request below [/api/], and not a scan. *)
Lemma acts_route r :
  modelled r → acts r = true →
  ∃ rt vals, rt ∈ routes ∧ find_route routes (Method r) (Segments r) = Some (rendpoint rt, vals) ∧
    match_path (rpath rt) (Segments r) = Some vals ∧ Method r ∈ [POST; PUT; PATCH; DELETE] ∧
    below_api (rpath rt) = true ∧ not_scans (rpath rt) = true.
Proof.
  unfold modelled, acts, reaches. destruct (adds_slash _ _ || negb (clean _)); [done|].
  destruct (find_route routes _ _) as [[ep vals]|] eqn:E; [|done]. simpl. intros Hmod Ha.
  destruct (find_route_in _ _ _ _ _ E) as (rt & Hin & Hm & Hp & <-). exists rt, vals.
  pose proof (proj1 (forallb_forall _ _) routes_ok rt) as Hok. rewrite <-list_elem_of_In in Hok.
  specialize (Hok Hin). unfold route_ok in Hok.
  destruct (is_other (rendpoint rt)) eqn:Ho; [by destruct (rendpoint rt) eqn:Er; try discriminate Ho; destruct (Hmod name)|].
  apply negb_true_iff in Ha. case_bool_decide as Hg; [by rewrite Ha in Hok|].
  apply andb_true_iff in Hok as [[Hmm Hb]%andb_true_iff [Ha'|Hns]%orb_true_iff]; [by rewrite Ha in Ha'|].
  apply bool_decide_eq_true in Hmm. unfold takes_method in Hm. apply orb_true_iff in Hm.
  destruct Hm as [<-%bool_decide_eq_true|[? _]%bool_decide_eq_true]; done.
Qed.
Lemma acts_needs_token sec r :
  modelled r → acts r = true → Mode (conf sec) ≠ SecurityModeNone →
  IsMutatingMethod (Method r) = true ∧ requiresToken sec r = true.
Proof.
  intros Hmod Ha Hs. destruct (acts_route r Hmod Ha) as (rt & vals & _ & _ & Hp & Hm & Hb & Hns).
  pose proof (below_api_path _ _ _ r Hb Hp eq_refl) as Hapi.
  pose proof (not_scans_path _ _ _ r Hb Hns Hp eq_refl) as Hscan.
  assert (IsMutatingMethod (Method r) = true) as Hmut by (by apply bool_decide_eq_true).
  split; [done|]. unfold requiresToken. rewrite decide_False by done. rewrite decide_False.
  2: { intros E. by rewrite E in Hapi. }
  rewrite Hapi. simpl. destruct (IsLogAPIPath _); [done|]. destruct (ProtectRead _) eqn:Hpr; [done|].
  unfold isTokenExemptScan, isShelfScanRequest. rewrite (bool_decide_eq_false_2 _ Hscan), !andb_false_r. done.
Qed.


(** ** A server that is read-only *)
Lemma download_path p :
  classifyShelfRoute p = bookDownloadRoute →
  ∃ w b, w ≠ [] ∧ b ≠ [] ∧
    Split p "/"%char = [[]; str "api"; str "shelves"; w; str "books"; b; str "download"].
Proof.
  unfold classifyShelfRoute, CutPrefix, HasPrefix. case_bool_decide as Hp; [|done].
  destruct Hp as [k ->]. rewrite drop_app_length. destruct (Cut k) as [[w tail]|] eqn:Hk; [|done].
  apply Cut_spec in Hk as [-> Hw]. case_decide; [done|]. case_decide; [done|].
  destruct (Split tail "/"%char) as [|x [|b [|d [|]]]] eqn:Ht; try done. case_decide as Hx; [|done].
  destruct Hx as (-> & Hb & ->). intros _. exists w, b. split_and!; [done..|].
  simpl. by rewrite Split_app, Ht.
Qed.
Definition plain (r : Request) : Prop := Forall (λ w, "/"%char ∉ w) (Segments r).
Lemma plain_split r : plain r → Segments r ≠ [] → Split (Path r) "/"%char = [] :: Segments r.
Proof.
  intros Hp Hs. rewrite (split_path (Segments r)) by done. f_equal. clear Hs.
  unfold plain in Hp. induction Hp as [|w l Hw _ IH]; [done|]. cbn. rewrite Split_word by done. cbn. by f_equal.
Qed.
Lemma acts_not_read_only_safe r : modelled r → plain r → acts r = true → isReadOnlySafeRequest r = false.
Proof.
  intros Hmod Hp Ha. destruct (acts_route r Hmod Ha) as (rt & vals & _ & Hf & Hmp & Hm & Hb & Hns).
  pose proof (not_scans_path _ _ _ r Hb Hns Hmp eq_refl) as Hscan.
  unfold isReadOnlySafeRequest. destruct (classifyShelfRoute (Path r)) eqn:Hc; [done|done|].
  apply download_path in Hc as (w & b & Hw & Hbn & Hsp). rewrite plain_split in Hsp; [|done|].
  2: { intros E. rewrite E in Hmp. destruct (rpath rt); [done|by rewrite match_path_nil in Hmp]. }
  injection Hsp as Hsp. apply bool_decide_eq_false. intros Hm'. unfold modelled, acts, reaches in Hmod, Ha.
  destruct (adds_slash _ _ || negb _); [done|]. rewrite Hsp in *.
  destruct w as [|c w]; [done|]. destruct b as [|d b]; [done|]. by destruct Hm' as [Hm'|Hm']; rewrite Hm' in Hmod; apply (Hmod (str "download")).
Qed.

End handlers.
End ServerSpec.

(** * Hidden content behind the server

    With marked content not shown, a hidden book answers like one that does
    not exist ([hidden_book_is_missing]), and a folder leaves its marked place
    unconfirmed only when nothing hidden would show
    ([unconfirmed_move_reveals_nothing]). *)

Module ServerHiding.
Import Routes ShelfUtil BookMeta Book FolderMeta Shelf Trash Folder ShelfFrame Listing Visibility Http Server ServerBooks ServerFolders ServerSources ServerTransfers ServerSpec.

Section hiding.
Context `{UnicodeCase, TimeText, Machine, Digest, ShelfEnv, AppEnv, Images, SourceInput, OtherHandlers, NetText}.

(** ** Turned away

    A plain error status, or the answer for a book that does not exist. *)
Definition turned_away (resp : Response) : Prop :=
  resp = writeErr ErrBookNotFound ∨ ∃ status, (400 ≤ status)%Z ∧ resp = http_Error status.
Definition blocked {A : Type} (m : H A) (a : App) : Prop :=
  ∃ resp a', m a = (Err resp, a') ∧ turned_away resp ∧ same_files a a'.

(** Steps that only look at the request, or refuse it. *)
Definition looks {A : Type} (m : H A) : Prop :=
  ∀ a, (∃ x, m a = (Ok x, a)) ∨ ∃ status, (400 ≤ status)%Z ∧ m a = (Err (http_Error status), a).

Lemma blocked_bind {A B : Type} (m : H A) (k : A → H B) a : blocked m a → blocked (m ≫= k) a.
Proof. intros (resp & a' & E & ?). exists resp, a'. unfold mbind, H_bind. by rewrite E. Qed.
Lemma blocked_looks {A B : Type} (m : H A) (k : A → H B) a :
  looks m → (∀ x, blocked (k x) a) → blocked (m ≫= k) a.
Proof.
  intros Hm Hk. unfold blocked, mbind, H_bind. destruct (Hm a) as [[x ->]|(st & Hst & ->)]; [apply Hk|].
  exists (http_Error st), a. split_and!; [done|right; eauto|done].
Qed.
Lemma looks_ret {A : Type} (x : A) : looks (mret x).
Proof. intros a. left. by exists x. Qed.
Lemma looks_answer {A : Type} st : (400 ≤ st)%Z → looks (@answer A (http_Error st)).
Proof. intros Hs a. right. by exists st. Qed.
Lemma looks_or_answer {A : Type} (o : option A) st : (400 ≤ st)%Z → looks (or_answer o (http_Error st)).
Proof. destruct o; [intros _; apply looks_ret|apply looks_answer]. Qed.
Lemma looks_bind {A B : Type} (m : H A) (k : A → H B) : looks m → (∀ x, looks (k x)) → looks (m ≫= k).
Proof.
  intros Hm Hk a. unfold mbind, H_bind. destruct (Hm a) as [[x ->]|(st & Hst & ->)]; [apply Hk|].
  right. by exists st.
Qed.
Lemma looks_ask {A : Type} id (f : Shelf → A) : looks (ask_shelf id f).
Proof. intros a. unfold ask_shelf. destruct (shelves a !! id); [left; eauto|right; by exists 404%Z]. Qed.
Lemma looks_body {A : Type} names (dec : json → option A) zero b : looks (of_decoded (decodeJSONBody names dec zero b)).
Proof.
  intros a. unfold of_decoded, decodeJSONBody.
  repeat case_match; simplify_eq/=; ((left; by eexists) || (right; eexists; split; [|reflexivity]; done)).
Qed.
Lemma looks_resolveShelf raw : looks (resolveShelf raw).
Proof. apply looks_bind; [by apply looks_or_answer|]. intros id. apply looks_bind; [apply looks_ask|]. intros _. apply looks_ret. Qed.
Lemma looks_resolveID raw : looks (resolveID raw).
Proof. by apply looks_or_answer. Qed.
Lemma looks_check_mode mode : looks (check_mode mode).
Proof. unfold check_mode. case_decide; [apply looks_ret|by apply looks_answer]. Qed.
Lemma looks_target_shelf id target : looks (target_shelf id target).
Proof. unfold target_shelf. case_decide; [by apply looks_answer|]. case_decide; [by apply looks_answer|apply looks_ask]. Qed.

(** ** Hidden books *)

(** Whether the client is shown marked content of a shelf. *)
Definition shows (shelfID : bytes) (a : App) : bool :=
  match (visibility shelfID a).1 with Ok show => show | Err _ => true end.
Definition hidden (shelfID bookID : bytes) (a : App) : Prop :=
  ∃ s l s', shelves a !! shelfID = Some s ∧ GetBookListing bookID s = (Ok l, s') ∧
    allowsListing s' false l = false ∧ shows shelfID a = false.

(** A request's path names the shelf and the book. *)
Definition names_book (r : Request) (shelf_id book_id shelfID bookID : bytes) : Prop :=
  decodePathID shelf_id = Some shelfID ∧ decodePathID (readBookID r book_id) = Some bookID.

Section turning.
Context (r : Request) (shelf_id book_id shelfID bookID : bytes) (a : App).
Context (Hnames : names_book r shelf_id book_id shelfID bookID).
Context (Hhidden : hidden shelfID bookID a) (Hwf : app_wf a).

Lemma blocked_lookup : blocked (lookupVisibleBookListing shelfID bookID) a.
Proof using Hhidden Hwf.
  clear Hnames. destruct Hhidden as (s & l & s' & Hs & Hl & Hal & Hshow).
  pose proof (calm_lookup shelfID bookID a Hwf) as Hcalm. revert Hcalm.
  unfold blocked, lookupVisibleBookListing, mbind, H_bind, on_shelf. rewrite Hs, Hl. cbn [or_err mret H_ret].
  unfold mret, H_ret. set (a1 := set_shelves _ _).
  assert (∃ a2, visibility shelfID a1 = (Ok false, a2) ∧ shelves a2 = shelves a1) as (a2 & Hv & Hs2).
  { revert Hshow. unfold shows, visibility, readShowNSFW, GetSetting, mbind, H_bind. subst a1. simpl.
    destruct (showNSFWByShelf a !! shelfID) as [[]|]; [done|by eexists|].
    unfold mret, H_ret. simpl. intros ->. by eexists. }
  rewrite Hv. unfold ask_shelf. rewrite Hs2. subst a1. cbn [shelves set_shelves]. rewrite lookup_insert_eq. cbn zeta.
  rewrite Hal. unfold answer. intros Hsame. eexists _, a2. split; [done|]. split; [by left|done].
Qed.
Lemma blocked_shelf {B : Type} (k : bytes → H B) : blocked (k shelfID) a → blocked (resolveShelf shelf_id ≫= k) a.
Proof using Hnames Hhidden.
  destruct Hnames as [Hsh _]. destruct Hhidden as (s & _ & _ & Hs & _).
  unfold blocked, resolveShelf, mbind, H_bind, ask_shelf. rewrite Hsh. simpl. unfold mret, H_ret. rewrite Hs. done.
Qed.
Lemma blocked_book {B : Type} (k : bytes → H B) : blocked (k bookID) a → blocked (resolveBookID r book_id ≫= k) a.
Proof using Hnames.
  destruct Hnames as [_ Hb]. unfold blocked, resolveBookID, resolveID, mbind, H_bind. by rewrite Hb.
Qed.
Lemma blocked_lookupBook : blocked (lookupVisibleBook shelfID bookID) a.
Proof using Hhidden Hwf. apply blocked_bind, blocked_lookup. Qed.
Lemma blocked_loadBookListing : blocked (loadBookListing r shelf_id book_id) a.
Proof using Hnames Hhidden Hwf. apply blocked_shelf, blocked_book, blocked_bind, blocked_lookup. Qed.
Lemma blocked_loadBook : blocked (loadBook r shelf_id book_id) a.
Proof using Hnames Hhidden Hwf. apply blocked_shelf, blocked_book, blocked_bind, blocked_lookupBook. Qed.
Lemma blocked_loadBookSource c : blocked (loadBookSource r shelf_id book_id c) a.
Proof using Hnames Hhidden Hwf.
  apply blocked_shelf, blocked_book, blocked_looks; [apply looks_resolveID|].
  intros x. apply blocked_bind, blocked_lookupBook.
Qed.
Lemma blocked_loadWritableSource c : blocked (loadWritableSource r shelf_id book_id c) a.
Proof using Hnames Hhidden Hwf. apply blocked_bind, blocked_loadBookSource. Qed.
Lemma blocked_respond (h : handler) : blocked h a → turned_away (respond h a).1 ∧ same_files a (respond h a).2.
Proof. intros (resp & a' & E & ? & ?). unfold respond. by rewrite E. Qed.
End turning.

(** The endpoints of a book. *)
Definition of_a_book (ep : Endpoint) : bool :=
  match ep with
  | Routes.GetBook | UpdateBook | Routes.CopyBook | TransferBook | TrashBook | ListSources | Routes.GetSource
  | CreateSource | Routes.DeleteSource | DeleteSourceComment | Routes.SetCurrentSource | GetSourceContent
  | UpdateSourceContent | RefreshSourceMeta | GetPages | Routes.ReplacePages | Routes.InsertPage
  | Routes.DeletePage | Routes.SetPageDirection | GetAsset | UpdateAsset | Routes.DeleteAsset | GetCover
  | UpdateCover | Routes.DeleteCover | GetBookContent => true
  | _ => false
  end.

Ltac turn_away Hn Hh Hw :=
  repeat lazymatch goal with
  | |- blocked (match ?l with _ => _ end) _ => destruct l
  | |- blocked (resolveShelf _ ≫= _) _ => eapply blocked_shelf; [exact Hn|exact Hh|]
  | |- blocked (resolveBookID _ _ ≫= _) _ => eapply blocked_book; [exact Hn|]
  | |- blocked (lookupVisibleBookListing _ _ ≫= _) _ => apply blocked_bind, blocked_lookup; [exact Hh|exact Hw]
  | |- blocked (lookupVisibleBook _ _ ≫= _) _ => apply blocked_bind, blocked_lookupBook; [exact Hh|exact Hw]
  | |- blocked (loadBook _ _ _ ≫= _) _ => apply blocked_bind; eapply blocked_loadBook; [exact Hn|exact Hh|exact Hw]
  | |- blocked (loadBookListing _ _ _ ≫= _) _ => apply blocked_bind; eapply blocked_loadBookListing; [exact Hn|exact Hh|exact Hw]
  | |- blocked (loadBookSource _ _ _ _ ≫= _) _ => apply blocked_bind; eapply blocked_loadBookSource; [exact Hn|exact Hh|exact Hw]
  | |- blocked (loadWritableSource _ _ _ _ ≫= _) _ => apply blocked_bind; eapply blocked_loadWritableSource; [exact Hn|exact Hh|exact Hw]
  | |- blocked (_ ≫= _) _ =>
      apply blocked_looks;
      [solve [apply looks_body | apply looks_resolveID | apply looks_check_mode | apply looks_target_shelf]|intros ?]
  end.
Lemma mret_away (resp : Response) a :
  turned_away resp → turned_away (respond (mret resp) a).1 ∧ same_files a (respond (mret resp) a).2.
Proof. by split. Qed.


(** ** Folders that leave their marked place *)
Lemma H_bind_ok {A B : Type} (m : H A) (k : A → H B) a b a' :
  (m ≫= k) a = (Ok b, a') → ∃ x a1, m a = (Ok x, a1) ∧ k x a1 = (Ok b, a').
Proof. unfold mbind, H_bind. destruct (m a) as [[x|e] a1] eqn:E; [|done]. eauto. Qed.
Lemma looks_ok {A : Type} (m : H A) a x a1 : looks m → m a = (Ok x, a1) → a1 = a.
Proof. intros Hm E. destruct (Hm a) as [[y E']|(st & _ & E')]; rewrite E in E'; by simplify_eq. Qed.

(** What the check saw before the shelf was asked to move the folder: a shelf
    with the files it had at the start, of which [revealedBy] says nothing
    would show. *)
Definition checked (shelfID : bytes) (change : folderChange) (a a' : App) : Prop :=
  ∃ s0 s1 reveal, shelves a' !! shelfID = Some s1 ∧ revealedBy false change s0 = (Ok reveal, s1) ∧
    any reveal = false ∧ (stree <$> shelves a !! shelfID) = Some (stree s1) ∧ same_files a a'.

Lemma keeps_revealedBy P D b c : keeps P D (revealedBy b c).
Proof.
  unfold revealedBy. pose proof (keeps_ListBooksWithCharCount P D). pose proof (keeps_GetAllFolders P D). frame.
Qed.
Lemma calm_revealedBy id b c : calm (on_shelf id (revealedBy b c)).
Proof. apply calm_on_shelf. intros P D. apply keeps_revealedBy. Qed.
Lemma calm_preflight id : calm (bestEffortRescanForPreflight id).
Proof.
  apply calm_bind; [|intros; apply calm_ret]. apply calm_on_shelf. intros P D. apply keeps_rescan.
Qed.

(** Marked content of the shelf is not shown, by the setting of the shelf or
    that of the server. *)
Definition hides (shelfID : bytes) (a : App) : Prop :=
  match showNSFWByShelf a !! shelfID with
  | Some show => show = false
  | None => ∀ c, storeDB a !! settingKeyShowNSFW = Some c → content_bytes c ≠ str "true"
  end.
Lemma hides_visibility shelfID a : hides shelfID a → (visibility shelfID a).1 = Ok false.
Proof.
  unfold hides, visibility. destruct (showNSFWByShelf a !! shelfID) as [show|]; [by intros ->|].
  unfold readShowNSFW, GetSetting, mbind, H_bind. intros Hd. destruct (db_fails (calls a)); [done|].
  destruct (storeDB a !! settingKeyShowNSFW) as [c|] eqn:E; [|done].
  cbn. by rewrite bool_decide_eq_false_2 by (by apply Hd).
Qed.
Lemma hides_same shelfID a a' : same_files a a' → hides shelfID a → hides shelfID a'.
Proof. intros [_ Hd _ _ _ Hs]. unfold hides. by rewrite Hd, Hs. Qed.
Lemma visibility_shelves shelfID a : shelves (visibility shelfID a).2 = shelves a.
Proof. unfold visibility. by case_match. Qed.

Lemma refuse_unconfirmed r shelfID change a a' :
  app_wf a → confirmedReveal r = false → hides shelfID a →
  refuseUnconfirmedReveal r shelfID change a = (Ok tt, a') → checked shelfID change a a'.
Proof.
  intros Hw Hc Hh. unfold refuseUnconfirmedReveal. rewrite Hc. intros (show & a1 & Hv & E)%H_bind_ok.
  pose proof (calm_visibility shelfID a Hw) as S1. pose proof (visibility_shelves shelfID a) as V1.
  pose proof (hides_visibility _ _ Hh) as Hs. rewrite Hv in S1, V1, Hs. simpl in S1, V1, Hs. injection Hs as ->.
  apply H_bind_ok in E as (res & a2 & Hr & E).
  pose proof (calm_revealedBy shelfID false change a1 (same_files_wf _ _ S1 Hw)) as S2. rewrite Hr in S2. simpl in S2.
  unfold on_shelf in Hr. rewrite V1 in Hr. destruct (shelves a !! shelfID) as [s0|] eqn:Hs0; [|done].
  destruct (revealedBy false change s0) as [res' s1] eqn:Hrev. injection Hr as <- <-.
  apply H_bind_ok in E as (reveal & a3 & Hor & E). destruct res' as [reveal'|]; [|done].
  injection Hor as <- <-. destruct (any reveal') eqn:Ha; [done|]. injection E as <-.
  assert (same_files a (set_shelves (<[shelfID := s1]> (shelves a)) a1)) as S by (by etrans).
  exists s0, s1, reveal'. split_and!; [apply lookup_insert_eq|done..| |done].
  pose proof (sf_trees _ _ S) as Ht. simpl in Ht. apply (f_equal (.!! shelfID)) in Ht.
  by rewrite !lookup_fmap, lookup_insert_eq in Ht.
Qed.

Lemma checked_after shelfID change a a1 a' : same_files a a1 → checked shelfID change a1 a' → checked shelfID change a a'.
Proof.
  intros S (s0 & s1 & reveal & Hs & Hr & Ha & Ht & S'). exists s0, s1, reveal. split_and!; try done; [|by etrans].
  rewrite <-Ht, <-!lookup_fmap. by rewrite (sf_trees _ _ S).
Qed.
Lemma calm_rejectReadOnlyShelf id : calm (rejectReadOnlyShelf id).
Proof. unfold rejectReadOnlyShelf. calm. Qed.
Lemma calm_refreshBeforeReveal r id : calm (refreshBeforeReveal r id).
Proof.
  unfold refreshBeforeReveal. pose proof (calm_visibility id). pose proof (calm_preflight id). calm.
Qed.
Lemma calm_validFolderPaths id l : calm (validFolderPaths id l).
Proof. induction l as [|f l IH]; simpl; calm. Qed.
Lemma calm_read_folder f : calm (read_folder f).
Proof. unfold read_folder. calm. Qed.
Lemma calm_ok {A : Type} (m : H A) a x a1 : calm m → app_wf a → m a = (Ok x, a1) → same_files a a1.
Proof. intros Hm Hw E. specialize (Hm a Hw). by rewrite E in Hm. Qed.

Lemma relocation_checked r shelfID from to a a' :
  app_wf a → confirmedReveal r = false → hides shelfID a →
  refuseFolderRelocation r shelfID from to a = (Ok tt, a') → checked shelfID (folderMovedTo from to) a a'.
Proof.
  intros Hw Hc Hh. unfold refuseFolderRelocation.
  intros ([] & a1 & E1 & ([] & a2 & E2 & E)%H_bind_ok)%H_bind_ok.
  apply calm_ok in E1; [|apply calm_rejectReadOnlyShelf|done].
  apply calm_ok in E2; [|apply calm_refreshBeforeReveal|by eapply same_files_wf].
  assert (same_files a a2) as S by (by etrans). apply (checked_after _ _ _ _ _ S).
  eapply refuse_unconfirmed, E; [by eapply same_files_wf|done|by eapply hides_same].
Qed.

(** The shelf was asked to move the folder after the check. *)
Definition relocated (shelfID : bytes) (change : folderChange) (act : M Shelf unit) (a a' : App) : Prop :=
  ∃ a1 s1 res s2, checked shelfID change a a1 ∧ shelves a1 !! shelfID = Some s1 ∧ act s1 = (res, s2) ∧
    a' = set_shelves (<[shelfID := s2]> (shelves a1)) a1.
Definition relocation r (shelfID : bytes) (from to : FolderPath) (act : M Shelf unit) : handler :=
  refuseFolderRelocation r shelfID from to ;;
  res ← on_shelf shelfID act;
  _ ← or_err_status StatusConflict res;
  mret (bare StatusNoContent).

Lemma calm_relocation_check r shelfID from to : calm (refuseFolderRelocation r shelfID from to).
Proof.
  unfold refuseFolderRelocation, refuseUnconfirmedReveal.
  pose proof (calm_rejectReadOnlyShelf shelfID). pose proof (calm_refreshBeforeReveal r shelfID).
  pose proof (calm_visibility shelfID). pose proof (λ b, calm_revealedBy shelfID b (folderMovedTo from to)). calm.
Qed.
Lemma relocation_steps r shelfID from to act a :
  app_wf a → confirmedReveal r = false → hides shelfID a →
  same_files a (relocation r shelfID from to act a).2 ∨
  relocated shelfID (folderMovedTo from to) act a (relocation r shelfID from to act a).2.
Proof.
  intros Hw Hc Hh. pose proof (calm_relocation_check r shelfID from to a Hw) as Hcalm. revert Hcalm.
  destruct (relocation r shelfID from to act a) as [resp a'] eqn:E. revert E.
  unfold relocation, mbind, H_bind, on_shelf.
  destruct (refuseFolderRelocation r shelfID from to a) as [[[]|e] a1] eqn:E1; simpl; [|intros [= <- <-]; by left].
  pose proof (relocation_checked _ _ _ _ _ _ Hw Hc Hh E1) as Hch.
  destruct (shelves a1 !! shelfID) as [s1|] eqn:Hs1; [|intros [= <- <-]; by left].
  destruct (act s1) as [res s2] eqn:Hact. intros E _. right. exists a1, s1, res, s2. split_and!; try done.
  by destruct res; injection E.
Qed.

(** Steps that change nothing at all, and what follows them. *)
Definition still {A : Type} (m : H A) : Prop := ∀ a, (m a).2 = a.
Definition kept_or (P : App → Prop) (m : handler) (a : App) : Prop := same_files a (m a).2 ∨ P (m a).2.
Lemma kept_still {A : Type} (P : App → Prop) (m : H A) (k : A → handler) a :
  still m → (∀ x, m a = (Ok x, a) → kept_or P (k x) a) → kept_or P (m ≫= k) a.
Proof.
  intros Hm Hk. unfold kept_or, mbind, H_bind. specialize (Hm a).
  destruct (m a) as [[x|e] a1]; simpl in Hm; subst a1; [by apply Hk|by left].
Qed.
Lemma still_looks {A : Type} (m : H A) : looks m → still m.
Proof. intros Hm a. by destruct (Hm a) as [[x ->]|(st & _ & ->)]. Qed.
Lemma still_or_answer {A : Type} (o : option A) resp : still (or_answer o resp).
Proof. by destruct o. Qed.
Lemma still_read_folder f : still (read_folder f).
Proof. intros st. unfold read_folder. by repeat case_match. Qed.
Lemma still_validFolderPaths id l : still (validFolderPaths id l).
Proof.
  induction l as [|f l IH]; intros st; [done|]. simpl. unfold mbind, H_bind, ask_shelf.
  destruct (shelves st !! id); [|done]. destruct (ValidateFolderPath _ _); [|done]. apply IH.
Qed.
Lemma kept_answer P (resp : Response) a : kept_or P (mret resp) a.
Proof. by left. Qed.
#[local] Hint Resolve still_looks looks_resolveShelf still_or_answer still_read_folder still_validFolderPaths : core.

(** A rename or a move of a folder as the shelf performs it. *)
Definition moves_folder (change : folderChange) (act : M Shelf unit) : Prop :=
  ∃ from to, change = folderMovedTo from to ∧
    ((∃ name, to = parent_parts from ++ [name] ∧ act = Folder.RenameFolder from name) ∨
     (∃ target, to = target ++ [last_part from] ∧ act = Folder.MoveFolder from target)).

(** Claim C10: With marked content not shown, a rename or a move of a folder that the
    client did not confirm changes nothing, unless the check has said, of the
    shelf as the request found its files, that nothing hidden would show; what
    happens then is the shelf's rename or move of just that folder. *)
Theorem unconfirmed_move_reveals_nothing (move : bool) r shelf_id folder_path shelfID a :
  app_wf a → confirmedReveal r = false → decodePathID shelf_id = Some shelfID → hides shelfID a →
  let a' := (respond (if move then moveFolder r shelf_id else renameFolder r shelf_id folder_path) a).2 in
  same_files a a' ∨ ∃ change act, moves_folder change act ∧ relocated shelfID change act a a'.
Proof.
  intros Hw Hc Hd Hh. set (h := if move then _ else _).
  cut (kept_or (λ a', ∃ change act, moves_folder change act ∧ relocated shelfID change act a a') h a).
  { unfold kept_or, respond. by destruct (h a). }
  assert (∀ from to act, moves_folder (folderMovedTo from to) act →
    kept_or (λ a', ∃ change act, moves_folder change act ∧ relocated shelfID change act a a')
      (relocation r shelfID from to act) a) as Hrel.
  { intros from to act Hm. destruct (relocation_steps r shelfID from to act a Hw Hc Hh) as [?|?]; [by left|].
    right. by exists (folderMovedTo from to), act. }
  assert (∀ x, resolveShelf shelf_id a = (Ok x, a) → x = shelfID) as Hshelf.
  { intros x. unfold resolveShelf, mbind, H_bind, ask_shelf. rewrite Hd. simpl. unfold mret, H_ret.
    destruct (shelves a !! shelfID); [|done]. by intros [= ->]. }
  subst h. destruct move; unfold moveFolder, renameFolder.
  - apply kept_still; [auto|]. intros x ->%Hshelf. apply kept_still; [auto|]. intros [folder target] _.
    case_decide; [apply kept_answer|]. cbv zeta. apply kept_still; [auto|]. intros [] _.
    apply Hrel. exists folder, (target ++ [last_part folder]). eauto.
  - apply kept_still; [auto|]. intros x ->%Hshelf. apply kept_still; [auto|]. intros parts _.
    apply kept_still; [auto|]. intros name _. cbv zeta. destruct (bool_decide _ || _); [apply kept_answer|].
    apply kept_still; [auto|]. intros [] _. apply Hrel. exists parts, (parent_parts parts ++ [TrimSpace name]). eauto.
Qed.
End hiding.
End ServerHiding.
