(* ===== verification/Heap.v ===== *)
(** * The binary heap of [src/internal/container/heap.go]

    [Heap T] is the Go struct: a slice and a comparison. The loops [up] and
    [down] run with fuel [length items], which is always enough: the
    index grows or shrinks in each turn ([down_loop_ordered], [up_loop_inv]).
    The order laws the correctness theorems need are the class
    [HeapOrder], with instances for the two orders the program uses. *)

From S2P Require Import Prelude.

Module Heap.

Record Heap (T : Type) := mkHeap { items : list T; less : T → T → bool }.
Arguments mkHeap {T} items less.
Arguments items {T} h.
Arguments less {T} h.

(** The comparison of a heap is a strict weak order. *)
Class HeapOrder {T} (less : T → T → bool) : Prop := {
  heap_asym x y : less x y = true → less y x = false;
  heap_trans x y z : less y x = false → less z y = false → less z x = false;
}.

(** [func Less] and [func Greater], at the integer types. *)
Definition Less (a b : Z) : bool := (a <? b)%Z.
Definition Greater (a b : Z) : bool := (b <? a)%Z.

#[export] Instance Less_order : HeapOrder Less.
Proof. split; unfold Less; intros; lia. Qed.
#[export] Instance Greater_order : HeapOrder Greater.
Proof. split; unfold Greater; intros; lia. Qed.

Section ops.
Context {T : Type}.
Implicit Types (h : Heap T) (l : list T).

Definition NewHeap (less : T → T → bool) : Heap T := mkHeap [] less.
Definition Len h : nat := length (items h).
Definition Items h : list T := items h.

(** [h.less(h.items[i], h.items[j])] guarded by the bound test on [i]. *)
Definition lt_at (less : T → T → bool) l (i j : nat) : bool :=
  match l !! i, l !! j with
  | Some x, Some y => less x y
  | _, _ => false
  end.

Definition parent (i : nat) : nat := (i - 1) / 2.

(** [func (h *Heap[T]) up(i int)] *)
Fixpoint up_loop (fuel : nat) (less : T → T → bool) l (i : nat) : list T :=
  match fuel with
  | 0 => l
  | S fuel =>
      if decide (0 < i) then
        if negb (lt_at less l i (parent i)) then l
        else up_loop fuel less (swap l (parent i) i) (parent i)
      else l
  end.

Definition up h (i : nat) : Heap T :=
  mkHeap (up_loop i (less h) (items h) i) (less h).

(** The index the two child tests of [down] select. *)
Definition smallest_of (less : T → T → bool) l (i : nat) : nat :=
  let left := 2 * i + 1 in
  let smallest := if lt_at less l left i then left else i in
  let right := 2 * i + 2 in
  if lt_at less l right smallest then right else smallest.

(** [func (h *Heap[T]) down(i int)] *)
Fixpoint down_loop (fuel : nat) (less : T → T → bool) l (i : nat) : list T :=
  match fuel with
  | 0 => l
  | S fuel =>
      let smallest := smallest_of less l i in
      if decide (smallest = i) then l
      else down_loop fuel less (swap l smallest i) smallest
  end.

Definition down h (i : nat) : Heap T :=
  mkHeap (down_loop (length (items h)) (less h) (items h) i) (less h).

(** The loop [for i := len(items)/2 - 1; i >= 0; i--] of [HeapFrom]. *)
Fixpoint heapify h (n : nat) : Heap T :=
  match n with 0 => h | S i => heapify (down h i) i end.

Definition HeapFrom l (less : T → T → bool) : Heap T :=
  let heap := mkHeap l less in heapify heap (length l / 2).

Definition Peek h : option T := head (items h).

Definition Push h (v : T) : Heap T :=
  let h' := mkHeap (items h ++ [v]) (less h) in
  up h' (length (items h') - 1).

Definition Pop h : Heap T * option T :=
  match Peek h with
  | None => (h, None)
  | Some root =>
      let last := length (items h) - 1 in
      let l := match items h !! last with
               | Some x => <[0 := x]> (items h)
               | None => items h
               end in
      (down (mkHeap (take last l) (less h)) 0, Some root)
  end.

Definition Replace h (v : T) : Heap T * option T :=
  match Peek h with
  | None => (Push h v, None)
  | Some root => (down (mkHeap (<[0 := v]> (items h)) (less h)) 0, Some root)
  end.
End ops.

(** ** The heap order *)
Section order.
Context {T : Type} (less : T → T → bool) `{!HeapOrder less}.
Implicit Types (l : list T).

(** [l[j]] does not sort before [l[i]]; true when [j] is out of range. *)
Definition le_at l (i j : nat) : Prop := lt_at less l j i = false.

(** Every element is in order with its parent. *)
Definition heap_inv l : Prop := ∀ j, 0 < j → le_at l (parent j) j.

(** In order with its parent, for parents from [k] on, except at [e]. *)
Definition ordered_except (k e : nat) l : Prop :=
  ∀ j, 0 < j → k ≤ parent j → parent j ≠ e → le_at l (parent j) j.

(** The children of [e] are in order with the parent of [e]. *)
Definition bridged (k e : nat) l : Prop :=
  ∀ j, 0 < j → 0 < e → k ≤ parent e → parent j = e → le_at l (parent e) j.

(** In order except between [i] and its parent, whose children stay in
    order with the parent of [i]: the invariant of [up]. *)
Definition rising (i : nat) l : Prop :=
  (∀ j, 0 < j → j ≠ i → le_at l (parent j) j) ∧
  (∀ j, 0 < j → 0 < i → parent j = i → le_at l (parent i) j).

Lemma lt_at_Some l i j :
  lt_at less l i j = true ↔
  ∃ x y, l !! i = Some x ∧ l !! j = Some y ∧ less x y = true.
Proof. unfold lt_at. repeat case_match; naive_solver. Qed.

Lemma le_at_asym l i j : lt_at less l i j = true → le_at l i j.
Proof.
  intros (x & y & Hi & Hj & Hl)%lt_at_Some.
  unfold le_at, lt_at. rewrite Hi, Hj. by apply heap_asym.
Qed.

Lemma le_at_refl l i : le_at l i i.
Proof.
  unfold le_at, lt_at. destruct (l !! i) as [x|]; [|done].
  destruct (less x x) eqn:E; [|done]. by rewrite (heap_asym _ _ E) in E.
Qed.

Lemma le_at_trans l i j k :
  is_Some (l !! j) → le_at l i j → le_at l j k → le_at l i k.
Proof.
  unfold le_at, lt_at. intros [y Hy]. rewrite Hy.
  repeat case_match; eauto using heap_trans.
Qed.

Lemma le_at_ge l i j : length l ≤ j → le_at l i j.
Proof. intros H%lookup_ge_None. unfold le_at, lt_at. by rewrite H. Qed.

Lemma lt_at_lt l i j : lt_at less l i j = true → i < length l ∧ j < length l.
Proof.
  intros (x & y & Hi & Hj & _)%lt_at_Some. eauto using lookup_lt_Some.
Qed.

Lemma parent_lt j : 0 < j → parent j < j.
Proof. unfold parent. intros. apply Nat.Div0.div_lt_upper_bound. lia. Qed.

Lemma parent_child j e : 0 < j → parent j = e ↔ j = 2 * e + 1 ∨ j = 2 * e + 2.
Proof.
  unfold parent. intros Hj. split.
  - intros <-. pose proof (Nat.div_mod_eq (j - 1) 2).
    pose proof (Nat.mod_upper_bound (j - 1) 2). lia.
  - intros [-> | ->].
    + replace (2 * e + 1 - 1) with (e * 2) by lia. by apply Nat.div_mul.
    + replace (2 * e + 2 - 1) with (1 + e * 2) by lia.
      by rewrite Nat.div_add.
Qed.

(** The comparison of two positions after a swap. *)
Lemma le_at_swap l s e i j (f := λ k, if decide (k = e) then s
                                     else if decide (k = s) then e else k) :
  is_Some (l !! s) → is_Some (l !! e) →
  le_at l (f i) (f j) → le_at (swap l s e) i j.
Proof.
  intros [x Hx] [y Hy]. unfold le_at, lt_at, f.
  rewrite !(swap_lookup l s e _ x y Hx Hy).
  repeat case_decide; subst; rewrite ?Hx, ?Hy; done.
Qed.

Lemma smallest_spec l e (s := smallest_of less l e) :
  (s = e ∨ parent s = e ∧ 0 < s ∧ lt_at less l s e = true) ∧
  (∀ c, 0 < c → parent c = e → le_at l s c).
Proof.
  subst s. unfold smallest_of.
  destruct (lt_at less l (2 * e + 1) e) eqn:HL.
  - destruct (lt_at less l (2 * e + 2) (2 * e + 1)) eqn:HR; split.
    + right. rewrite parent_child by lia. split_and!; [lia|lia|].
      apply lt_at_Some in HL as (x & y & Hx & Hy & HL).
      apply lt_at_Some in HR as (z & x' & Hz & Hx' & HR). simplify_eq.
      apply lt_at_Some. exists z, y. repeat split; try done.
      destruct (less z y) eqn:E; [done|]. exfalso.
      pose proof (heap_trans y z x E (heap_asym _ _ HR)) as H1.
      apply heap_asym in HR. congruence.
    + intros c Hc [-> | ->]%parent_child; [by apply le_at_asym| |lia].
      apply le_at_refl.
    + right. rewrite parent_child by lia. split_and!; done || lia.
    + intros c Hc [-> | ->]%parent_child; [|done|lia].
      apply le_at_refl.
  - destruct (lt_at less l (2 * e + 2) e) eqn:HR; split.
    + right. rewrite parent_child by lia. split_and!; done || lia.
    + intros c Hc [-> | ->]%parent_child; [| |lia].
      * apply (le_at_trans _ _ e); [|by apply le_at_asym|done].
        apply lookup_lt_is_Some. apply lt_at_lt in HR. lia.
      * apply le_at_refl.
    + by left.
    + by intros c Hc [-> | ->]%parent_child; [| |lia].
Qed.

(** One step of [down]: the hole moves to the smallest child. *)
Lemma down_step k e l (s := smallest_of less l e) :
  k ≤ e → s ≠ e → ordered_except k e l → bridged k e l →
  ordered_except k s (swap l s e) ∧ bridged k s (swap l s e).
Proof.
  intros Hk Hne Hord Hbr.
  destruct (smallest_spec l e) as [[?|(Hp & Hs & Hlt)] Hmin]; [done|].
  fold s in Hp, Hs, Hlt, Hmin. clearbody s.
  destruct (lt_at_lt _ _ _ Hlt) as [?%lookup_lt_is_Some ?%lookup_lt_is_Some].
  pose proof (parent_lt s Hs).
  split; intros j Hj; intros; pose proof (parent_lt j Hj);
    (apply le_at_swap; [done|done|]).
  - destruct (decide (parent j = e)) as [He|He].
    + repeat case_decide; subst; try lia.
      * by apply le_at_asym.
      * by apply Hmin.
    + repeat case_decide; subst; try done.
      * by apply Hbr.
      * by apply Hord.
  - rewrite Hp, (decide_True (P := e = e)) by done.
    assert (j ≠ e ∧ j ≠ s) as [??] by lia.
    rewrite !decide_False by done.
    replace s with (parent j) by done. apply Hord; try done; lia.
Qed.

Lemma down_loop_ordered fuel k e l :
  length l ≤ fuel + e → k ≤ e → ordered_except k e l → bridged k e l →
  ∀ j, 0 < j → k ≤ parent j → le_at (down_loop fuel less l e) (parent j) j.
Proof.
  revert e l. induction fuel as [|fuel IH]; intros e l Hf Hk Hord Hbr j Hj Hkj.
  - simpl. destruct (decide (parent j = e)) as [He|]; [|by apply Hord].
    apply le_at_ge. pose proof (parent_lt j Hj). lia.
  - simpl. case_decide as Hs.
    + destruct (decide (parent j = e)) as [He|]; [|by apply Hord].
      rewrite He. rewrite <-Hs at 1. by apply smallest_spec.
    + destruct (down_step k e l) as [??]; [done..|].
      destruct (smallest_spec l e) as [[?|(Hp & Hs' & _)] _]; [done|].
      pose proof (parent_lt _ Hs').
      apply IH; rewrite ?length_swap; try done; lia.
Qed.

Lemma up_loop_inv i l fuel :
  i ≤ fuel → rising i l → heap_inv (up_loop fuel less l i).
Proof.
  revert i l. induction fuel as [|fuel IH]; intros i l Hf [Hord Hbr]; simpl.
  { intros j Hj. apply Hord; lia. }
  case_decide as Hi.
  2: { intros j Hj. apply Hord; lia. }
  destruct (lt_at less l i (parent i)) eqn:Hlt; simpl.
  2: { intros j Hj. destruct (decide (j = i)) as [->|]; [done|by apply Hord]. }
  pose proof (parent_lt i Hi) as Hp.
  destruct (lt_at_lt _ _ _ Hlt) as [?%lookup_lt_is_Some ?%lookup_lt_is_Some].
  apply IH; [lia|]. split.
  - intros j Hj Hjp. pose proof (parent_lt j Hj).
    apply le_at_swap; [done..|]. repeat case_decide; subst; try lia.
    + by apply Hbr.
    + by apply le_at_asym.
    + apply (le_at_trans _ _ (parent i)); [done|by apply le_at_asym|].
      replace (parent i) with (parent j) by done. by apply Hord.
    + by apply Hord.
  - intros j Hj Hpp Hjp. pose proof (parent_lt j Hj).
    pose proof (parent_lt _ Hpp).
    assert (le_at l (parent (parent i)) (parent i)) by (apply Hord; lia).
    apply le_at_swap; [done..|]. repeat case_decide; subst; try lia; try done.
    apply (le_at_trans _ _ (parent i)); [done..|].
    rewrite <-Hjp. by apply Hord.
Qed.

Lemma le_at_ext l l' i j :
  l !! i = l' !! i → l !! j = l' !! j → le_at l i j → le_at l' i j.
Proof. unfold le_at, lt_at. by intros -> ->. Qed.

Lemma heap_inv_root l j : heap_inv l → le_at l 0 j.
Proof.
  intros Hinv. induction j as [j IH] using lt_wf_ind.
  destruct (decide (j = 0)) as [->|Hj]; [apply le_at_refl|].
  destruct (decide (j < length l)) as [Hlt|]; [|apply le_at_ge; lia].
  pose proof (parent_lt j). apply (le_at_trans _ _ (parent j)).
  - apply lookup_lt_is_Some. lia.
  - apply IH. lia.
  - apply Hinv. lia.
Qed.

Lemma down_loop_perm fuel l e : down_loop fuel less l e ≡ₚ l.
Proof.
  revert l e. induction fuel as [|fuel IH]; intros l e; simpl; [done|].
  case_decide; [done|]. by rewrite IH, swap_perm.
Qed.

Lemma up_loop_perm fuel l i : up_loop fuel less l i ≡ₚ l.
Proof.
  revert l i. induction fuel as [|fuel IH]; intros l i; simpl; [done|].
  repeat case_match; try done. by rewrite IH, swap_perm.
Qed.

(** [down] from a root whose subtrees are heaps. *)
Lemma down_loop_root l :
  ordered_except 0 0 l → heap_inv (down_loop (length l) less l 0).
Proof.
  intros Hord j Hj. apply (down_loop_ordered _ 0); try done; try lia.
  intros k ? ?. lia.
Qed.

Lemma ordered_except_insert_root l x :
  heap_inv l → ordered_except 0 0 (<[0 := x]> l).
Proof.
  intros Hinv j Hj _ Hp. apply (le_at_ext l); [..|by apply Hinv];
    by rewrite list_lookup_insert_ne by lia.
Qed.

Lemma ordered_except_take n e l :
  ordered_except 0 e l → ordered_except 0 e (take n l).
Proof.
  intros Hord j Hj Hk Hp. pose proof (parent_lt j Hj).
  destruct (decide (j < n)); [|apply le_at_ge; rewrite length_take; lia].
  apply (le_at_ext l); [..|by apply Hord]; rewrite lookup_take_lt by lia; done.
Qed.

Lemma rising_snoc l v : heap_inv l → rising (length l) (l ++ [v]).
Proof.
  intros Hinv. split.
  - intros j Hj Hne. pose proof (parent_lt j Hj).
    destruct (decide (j < length l)).
    + apply (le_at_ext l); [..|by apply Hinv]; rewrite lookup_app_l by lia; done.
    + apply le_at_ge. rewrite length_app. simpl. lia.
  - intros j Hj Hl Hp. pose proof (parent_lt j Hj).
    apply le_at_ge. rewrite length_app. simpl. lia.
Qed.

Lemma heapify_spec l n :
  (∀ j, 0 < j → n ≤ parent j → le_at l (parent j) j) →
  heap_inv (items (heapify (mkHeap l less) n)) ∧
  items (heapify (mkHeap l less) n) ≡ₚ l ∧
  Heap.less (heapify (mkHeap l less) n) = less.
Proof.
  revert l. induction n as [|i IH]; intros l Hord; simpl.
  { split_and!; [|done..]. intros j Hj. apply Hord; lia. }
  unfold down; simpl. edestruct (IH (down_loop (length l) less l i))
    as (Hinv & Hperm & Hless).
  - intros j Hj Hp. apply (down_loop_ordered _ i); try done; try lia.
    + intros j' Hj' ? ?. apply Hord; lia.
    + intros j' Hj' ? ? _. pose proof (parent_lt i). lia.
  - split_and!; try done. by rewrite Hperm, down_loop_perm.
Qed.
End order.

(** [inv h]: the slice of [h] is in heap order. *)
Definition inv {T} (h : Heap T) : Prop := heap_inv (less h) (items h).

Section correct.
Context {T : Type}.
Implicit Types (h : Heap T) (l : list T).

Lemma NewHeap_inv (less : T → T → bool) : inv (NewHeap less).
Proof. intros j Hj. by apply le_at_ge; simpl; lia. Qed.

Lemma HeapFrom_inv l less `{!HeapOrder less} :
  inv (HeapFrom l less) ∧ items (HeapFrom l less) ≡ₚ l ∧
  Heap.less (HeapFrom l less) = less.
Proof.
  unfold HeapFrom, inv.
  destruct (heapify_spec less l (length l / 2)) as (Hinv & Hperm & Hless).
  - intros j Hj Hp. apply le_at_ge.
    destruct (proj1 (parent_child j (parent j) Hj) eq_refl);
      pose proof (Nat.div_mod_eq (length l) 2);
      pose proof (Nat.mod_upper_bound (length l) 2); lia.
  - by rewrite Hless.
Qed.

Lemma Peek_min h r x :
  HeapOrder (less h) → inv h → Peek h = Some r → x ∈ items h →
  less h x r = false.
Proof.
  intros Ho Hinv Hp [j Hj]%list_elem_of_lookup.
  pose proof (heap_inv_root _ _ j Hinv) as Hle. unfold le_at, lt_at in Hle.
  rewrite Hj in Hle. unfold Peek in Hp. rewrite head_lookup in Hp.
  by rewrite Hp in Hle.
Qed.

Lemma Push_inv h v :
  HeapOrder (less h) → inv h →
  inv (Push h v) ∧ items (Push h v) ≡ₚ v :: items h ∧ less (Push h v) = less h.
Proof.
  intros Ho Hinv. unfold Push, up, inv. simpl. rewrite length_app. simpl.
  replace (length (items h) + 1 - 1) with (length (items h)) by lia.
  split_and!; [|by rewrite up_loop_perm, Permutation_app_comm|done].
  apply up_loop_inv; [done..|]. by apply rising_snoc.
Qed.

Lemma Replace_inv h v r :
  HeapOrder (less h) → inv h → Peek h = Some r →
  inv (Replace h v).1 ∧ v :: items h ≡ₚ r :: items (Replace h v).1 ∧
  less (Replace h v).1 = less h ∧ (Replace h v).2 = Some r.
Proof.
  intros Ho Hinv Hp. unfold Replace. rewrite Hp.
  unfold down, inv; simpl. split_and!; try done.
  - apply down_loop_root, ordered_except_insert_root; done.
  - rewrite down_loop_perm. unfold Peek in Hp.
    destruct (items h) as [|x l]; simplify_eq/=. by constructor.
Qed.

Lemma Pop_inv h r :
  HeapOrder (less h) → inv h → Peek h = Some r →
  inv (Pop h).1 ∧ items h ≡ₚ r :: items (Pop h).1 ∧
  less (Pop h).1 = less h ∧ (Pop h).2 = Some r.
Proof.
  intros Ho Hinv Hp. unfold Pop. rewrite Hp. unfold Peek in Hp.
  destruct (items h !! (length (items h) - 1)) as [x|] eqn:Hx.
  2: { apply lookup_ge_None in Hx. destruct (items h); simpl in *; [done|lia]. }
  unfold down, inv; simpl. split_and!; try done.
  - apply down_loop_root; [done|]. apply ordered_except_take.
    by apply ordered_except_insert_root.
  - rewrite down_loop_perm. destruct (items h) as [|y l] eqn:Hl; simplify_eq/=.
    rewrite Nat.sub_0_r in Hx |- *. clear Hl.
    destruct l as [|z l _] using rev_ind; simplify_eq/=; [done|].
    rewrite length_app, Nat.add_1_r in *. simpl in *.
    rewrite lookup_app_r, Nat.sub_diag in Hx by lia. simplify_eq/=.
    rewrite take_app_length. by rewrite Permutation_app_comm.
Qed.
End correct.

End Heap.
