(* ===== verification/Sketch.v ===== *)
(** * Text sketches: [src/internal/sketch]

    A sketch keeps the smallest hashes of the shingles (windows of [n] runes)
    of a text. This file models the shingler ([shingle.go]), the bottom-k
    construction on the heap of [Heap.v] ([sketch.go]) and the comparison of
    two sketches ([compare.go]). The hash [xxhash.Sum64String] is a parameter,
    [Sum64]. The codec is in [SketchCodec.v]. *)

From S2P Require Import Prelude Utf8 Float64 Heap.
From Stdlib Require Import Floats.SpecFloat.

Module Sketch.
Import Heap.

Definition DefaultN : Z := 5.
Definition DefaultK : Z := 128.
Definition ExactShingleLimit : Z := 5000.

Record Sketch := mkSketch { N : Z; Distinct : Z; Values : list Z }.

#[export] Instance Sketch_eq_dec : EqDecision Sketch.
Proof. solve_decision. Defined.

(** [func (s Sketch) complete() bool] *)
Definition complete (s : Sketch) : bool := (Z.of_nat (length (Values s)) =? Distinct s)%Z.

(** [s[a:b]] *)
Definition substr (s : bytes) (a b : nat) : bytes := take (b - a) (drop a s).

Section build.
Context (Sum64 : bytes → Z).

(** One turn of the loop of [eachShingle] at a rune offset: [ring] is
    [runeStartRing], [out] the hashes passed to [fn] so far. *)
Definition shingle_step (s : bytes) (n : nat)
    (st : list nat * nat * list Z) (offset : nat) : list nat * nat * list Z :=
  let '(ring, count, out) := st in
  let out := if decide (n ≤ count)
             then out ++ [Sum64 (substr s (ring !!! ((count - n) mod n)) offset)]
             else out in
  (<[count mod n := offset]> ring, S count, out).

(** [func eachShingle]: the hashes [fn] is called with, in order. *)
Definition eachShingle (s : bytes) (n : Z) : list Z :=
  if (n <? 1)%Z || bool_decide (s = []) then [] else
  let n := Z.to_nat n in
  let '(ring, count, out) :=
    foldl (shingle_step s n) (replicate n 0, 0, []) (Utf8.rune_offsets s) in
  if decide (n ≤ count)
  then out ++ [Sum64 (substr s (ring !!! ((count - n) mod n)) (length s))]
  else out.

(** The callback [Build] passes to [eachShingle]. *)
Definition build_step (k : nat) (st : gset Z * Heap Z) (hash : Z) : gset Z * Heap Z :=
  let '(seen, bottom) := st in
  if decide (hash ∈ seen) then st else
  let seen := {[hash]} ∪ seen in
  if decide (Len bottom < k) then (seen, Push bottom hash) else
  if (hash <? default 0%Z (Peek bottom))%Z
  then (seen, (Replace bottom hash).1) else (seen, bottom).

(** [func Build] *)
Definition Build (normalized : bytes) (n k : Z) : Sketch :=
  let n := if (n <? 1)%Z then DefaultN else n in
  let k := if (k <? 1)%Z then DefaultK else k in
  let '(seen, bottom) :=
    foldl (build_step (Z.to_nat k)) (∅, HeapFrom [] Greater)
      (eachShingle normalized n) in
  mkSketch n (Z.of_nat (size seen)) (merge_sort Z.le (Items bottom)).

(** [func BuildDefault] *)
Definition BuildDefault (normalized : bytes) : Sketch :=
  let size := Z.of_nat (Utf8.RuneCount normalized) in
  let k := if (size <? ExactShingleLimit)%Z then (size + 1)%Z else DefaultK in
  Build normalized DefaultN k.
End build.

(** ** Comparison ([compare.go]) *)
Definition exhaustiveLimit (a b : Sketch) : Z :=
  let limit := MaxUint64 in
  let limit := if complete a then limit
               else Z.min limit (default 0%Z (last (Values a))) in
  if complete b then limit else Z.min limit (default 0%Z (last (Values b))).

(** [i < len(vs) && vs[i] <= limit] *)
Definition within (vs : list Z) (i : nat) (limit : Z) : bool :=
  match vs !! i with Some v => (v <=? limit)%Z | None => false end.

(** The loop of [Jaccard]: the counters [(union, intersection)] at its end. *)
Fixpoint jaccard_loop (fuel : nat) (va vb : list Z) (limit : Z)
    (i j : nat) (union intersection : Z) : Z * Z :=
  match fuel with
  | 0 => (union, intersection)
  | S fuel =>
      if within va i limit || within vb j limit then
        if negb (within vb j limit) then
          jaccard_loop fuel va vb limit (S i) j (union + 1) intersection
        else if negb (within va i limit) then
          jaccard_loop fuel va vb limit i (S j) (union + 1) intersection
        else if (va !!! i =? vb !!! j)%Z then
          jaccard_loop fuel va vb limit (S i) (S j) (union + 1) (intersection + 1)
        else if (va !!! i <? vb !!! j)%Z then
          jaccard_loop fuel va vb limit (S i) j (union + 1) intersection
        else jaccard_loop fuel va vb limit i (S j) (union + 1) intersection
      else (union, intersection)
  end.

(** [func Jaccard] *)
Definition Jaccard (a b : Sketch) : F64.float64 :=
  if negb (N a =? N b)%Z || bool_decide (Values a = []) || bool_decide (Values b = [])
  then F64.zero else
  let limit := exhaustiveLimit a b in
  let '(union, intersection) :=
    jaccard_loop (length (Values a) + length (Values b)) (Values a) (Values b)
      limit 0 0 0 0 in
  if (union =? 0)%Z then F64.zero
  else F64.div (F64.of_int intersection) (F64.of_int union).

(** [func clamp01] *)
Definition clamp01 (value : F64.float64) : F64.float64 :=
  F64.fmin (F64.fmax value F64.zero) F64.one.

(** [func ContainmentFrom] *)
Definition ContainmentFrom (a b : Sketch) (jaccard : F64.float64) :
    F64.float64 * F64.float64 :=
  if (Distinct a <=? 0)%Z || (Distinct b <=? 0)%Z then (F64.zero, F64.zero) else
  if F64.leb jaccard F64.zero then (F64.zero, F64.zero) else
  let intersection :=
    F64.div (F64.mul jaccard (F64.of_int (wrap64 (Distinct a + Distinct b))))
      (F64.add F64.one jaccard) in
  (clamp01 (F64.div intersection (F64.of_int (Distinct a))),
   clamp01 (F64.div intersection (F64.of_int (Distinct b)))).

(** [func MaxJaccard] *)
Definition MaxJaccard (na nb : Z) : F64.float64 :=
  let na := Z.max na 0 in let nb := Z.max nb 0 in
  if (na =? 0)%Z && (nb =? 0)%Z then F64.one
  else F64.div (F64.of_int (Z.min na nb)) (F64.of_int (Z.max na nb)).

(** ** The shingler visits the windows of [n] runes *)

(** Reference definition: the runes [i .. i+n-1], for every [i] they exist. *)
Definition window (rs : list bytes) (n i : nat) : bytes := concat (take n (drop i rs)).
Definition windows (rs : list bytes) (n : nat) : list bytes :=
  window rs n <$> seq 0 (S (length rs) - n).

(** The byte offset of rune [i]. *)
Definition off (rs : list bytes) (i : nat) : nat := length (concat (take i rs)).

Lemma concat_take_drop n (rs : list bytes) :
  concat (take n rs) ++ concat (drop n rs) = concat rs.
Proof. by rewrite <-concat_app, take_drop. Qed.

Lemma off_app rs i n : off rs (i + n) = off rs i + length (window rs n i).
Proof.
  unfold off, window. by rewrite <-take_take_drop, concat_app, length_app.
Qed.

Lemma substr_window rs n i :
  substr (concat rs) (off rs i) (off rs (i + n)) = window rs n i.
Proof.
  rewrite off_app. unfold substr.
  replace (off rs i + length (window rs n i) - off rs i)
    with (length (window rs n i)) by lia.
  rewrite <-(concat_take_drop i rs), <-(concat_take_drop n (drop i rs)).
  unfold off. rewrite drop_app_length. unfold window. by rewrite take_app_length.
Qed.

Lemma rune_offsets_lookup o rs i :
  i < length rs → Utf8.offsets_from o rs !! i = Some (o + off rs i).
Proof.
  revert o i. induction rs as [|r rs IH]; intros o i Hi; simpl in *; [lia|].
  destruct i as [|i]; simpl; [by rewrite Nat.add_0_r|].
  rewrite IH by lia. unfold off. simpl. rewrite length_app. f_equal. lia.
Qed.

Lemma length_offsets o rs : length (Utf8.offsets_from o rs) = length rs.
Proof. revert o. induction rs; intros; simpl; auto. Qed.

Section shingles.
Context (Sum64 : bytes → Z).

(** The state of the loop after [k] runes. *)
Definition shingle_inv (rs : list bytes) (n k : nat)
    (st : list nat * nat * list Z) : Prop :=
  let '(ring, count, out) := st in
  length ring = n ∧ count = k ∧
  (∀ i, i < k → k ≤ i + n → ring !! (i mod n) = Some (off rs i)) ∧
  out = (Sum64 ∘ window rs n) <$> seq 0 (k - n).

Lemma mod_distinct n i k : 0 < n → i < k → k < i + n → i mod n ≠ k mod n.
Proof.
  intros Hn Hi Hk Heq.
  pose proof (Nat.div_mod_eq i n). pose proof (Nat.div_mod_eq k n).
  pose proof (Nat.mod_upper_bound i n ltac:(lia)).
  assert (n * (k / n) - n * (i / n) = k - i) as E by lia.
  rewrite <-Nat.mul_sub_distr_l in E.
  destruct (k / n - i / n) as [|q]; lia.
Qed.

Lemma shingle_emit rs n k ring out :
  0 < n → shingle_inv rs n k (ring, k, out) → n ≤ k →
  out ++ [Sum64 (substr (concat rs) (ring !!! ((k - n) mod n)) (off rs k))] =
  (Sum64 ∘ window rs n) <$> seq 0 (S k - n).
Proof.
  intros Hn (Hlen & _ & Hring & ->) Hk.
  rewrite (list_lookup_total_correct ring _ (off rs (k - n)))
    by (apply Hring; lia).
  replace k with (k - n + n) at 3 by lia. rewrite substr_window.
  rewrite Nat.sub_succ_l by done. rewrite seq_S, fmap_app. done.
Qed.

Lemma shingle_step_inv rs n k st :
  0 < n → shingle_inv rs n k st →
  shingle_inv rs n (S k) (shingle_step Sum64 (concat rs) n st (off rs k)).
Proof.
  intros Hn Hinv. destruct st as [[ring count] out].
  pose proof Hinv as (Hlen & -> & Hring & Hout). unfold shingle_step, shingle_inv.
  rewrite length_insert. split_and!; [done..| |].
  - intros i Hi Hin. destruct (decide (i = k)) as [->|Hne].
    + apply list_lookup_insert_eq. rewrite Hlen. apply Nat.mod_upper_bound. lia.
    + rewrite list_lookup_insert_ne; [apply Hring; lia|].
      apply not_eq_sym, mod_distinct; lia.
  - case_decide; [by eapply shingle_emit|].
    rewrite Hout. by replace (S k - n) with (k - n) by lia.
Qed.

Lemma shingle_fold rs n k :
  0 < n → k ≤ length rs →
  shingle_inv rs n k
    (foldl (shingle_step Sum64 (concat rs) n) (replicate n 0, 0, [])
       (take k (Utf8.offsets_from 0 rs))).
Proof.
  intros Hn. induction k as [|k IH]; intros Hk.
  - simpl. split_and!; [apply length_replicate|done|intros; lia|done].
  - rewrite (take_S_r _ _ (off rs k)) by (rewrite rune_offsets_lookup; [done|lia]).
    rewrite foldl_app. simpl. apply shingle_step_inv; [done|]. apply IH. lia.
Qed.

Lemma eachShingle_windows s n :
  (1 ≤ n)%Z →
  eachShingle Sum64 s n = Sum64 <$> windows (Utf8.runes s) (Z.to_nat n).
Proof.
  intros Hn. unfold eachShingle, windows.
  destruct (Z.ltb_spec n 1); [lia|]. simpl.
  case_bool_decide as Hs.
  { subst s. simpl. by replace (1 - Z.to_nat n) with 0 by lia. }
  remember (Utf8.runes s) as rs eqn:Hrs. remember (Z.to_nat n) as m eqn:Hm.
  pose proof (shingle_fold rs m (length rs) ltac:(lia) ltac:(lia)) as Hinv.
  rewrite take_ge in Hinv by (rewrite length_offsets; lia).
  unfold Utf8.rune_offsets. rewrite <-Hrs.
  replace s with (concat rs) by (subst; apply Utf8.runes_concat).
  destruct (foldl _ _ _) as [[ring count] out].
  pose proof Hinv as (Hlen & -> & _ & Hout).
  rewrite <-list_fmap_compose. case_decide.
  - replace (length (concat rs)) with (off rs (length rs))
      by (unfold off; by rewrite firstn_all).
    apply shingle_emit; [lia|done..].
  - rewrite Hout. by replace (S (length rs) - m) with (length rs - m) by lia.
Qed.
End shingles.

(** ** [Build] keeps the [k] smallest distinct hashes *)

(** After the hashes [hs], [bottom] holds the [k] smallest of [seen]. *)
Record bottom_k (k : nat) (hs : list Z) (st : gset Z * Heap Z) : Prop := {
  bk_seen : st.1 = list_to_set hs;
  bk_less : less st.2 = Greater;
  bk_inv : inv st.2;
  bk_nodup : NoDup (items st.2);
  bk_sub x : x ∈ items st.2 → x ∈ st.1;
  bk_small x y : x ∈ items st.2 → y ∈ st.1 → y ∉ items st.2 → (x < y)%Z;
  bk_len : length (items st.2) = k `min` size st.1;
}.

Lemma bottom_k_init k : bottom_k k [] (∅, HeapFrom [] Greater).
Proof.
  destruct (HeapFrom_inv [] Greater) as (Hinv & Hperm & Hl).
  apply Permutation_nil_r in Hperm.
  split; simpl; rewrite ?Hperm; try done.
  - constructor.
  - by intros x ?%elem_of_nil.
  - change (0 = k `min` size (∅ : gset Z)). by rewrite size_empty, Nat.min_0_r.
Qed.

(** A full list of distinct members of a set holds all of them. *)
Lemma nodup_full (l : list Z) (X : gset Z) y :
  NoDup l → (∀ x, x ∈ l → x ∈ X) → size X ≤ length l → y ∈ X → y ∈ l.
Proof.
  intros Hnd Hsub Hsz Hy.
  assert (list_to_set l = X) as <-; [|by apply elem_of_list_to_set in Hy].
  apply set_subseteq_size_eq.
  - intros x ?%elem_of_list_to_set. auto.
  - by rewrite size_list_to_set.
Qed.

Lemma bottom_k_step k hs st h :
  0 < k → bottom_k k hs st → bottom_k k (hs ++ [h]) (build_step k st h).
Proof.
  intros Hk [Hseen Hless Hinv Hnd Hsub Hsmall Hlen]. destruct st as [seen b]; simpl in *.
  assert (HeapOrder (less b)) as Hord by (rewrite Hless; apply _).
  assert (list_to_set (hs ++ [h]) = {[h]} ∪ seen) as Hset.
  { rewrite list_to_set_app_L, Hseen. set_solver. }
  unfold build_step. case_decide as Hin.
  { split; simpl; try done. rewrite Hset. set_solver. }
  assert (size ({[h]} ∪ seen) = S (size seen)) as Hsz.
  { rewrite size_union by set_solver. by rewrite size_singleton. }
  assert (h ∉ items b) as Hnb by (intros ?; auto).
  unfold Len. case_decide as Hl.
  - destruct (Push_inv b h Hord Hinv) as (Hi & Hp & Hl').
    assert (∀ y, y ∈ seen → y ∈ items b) as Hall.
    { intros y. apply nodup_full; [done..|]. lia. }
    split; simpl; rewrite ?Hp, ?Hl'; try done.
    + by constructor.
    + intros x. rewrite Hp. set_solver.
    + intros x y. rewrite !Hp. set_solver.
    + simpl. lia.
  - destruct (Peek b) as [g|] eqn:Hpk.
    2: { unfold Peek in Hpk. destruct (items b); simpl in *; [lia|done]. }
    assert (∀ x, x ∈ items b → (x ≤ g)%Z) as Hmax.
    { intros x Hx. pose proof (Peek_min b g x Hord Hinv Hpk Hx) as Hm.
      rewrite Hless in Hm. unfold Greater in Hm. lia. }
    assert (g ∈ items b) as Hg.
    { unfold Peek in Hpk. destruct (items b); simplify_eq/=. set_solver. }
    simpl. destruct (Z.ltb_spec h g) as [Hlt|Hge].
    + destruct (Replace_inv b h g Hord Hinv Hpk) as (Hi & Hp & Hl' & _).
      assert (∀ x, x ∈ items (Replace b h).1 ↔ x = h ∨ x ∈ items b ∧ x ≠ g) as Hmem.
      { assert (NoDup (g :: items (Replace b h).1)) as [Hng _]%NoDup_cons.
        { rewrite <-Hp. by constructor. }
        assert (∀ x, x ∈ h :: items b ↔ x ∈ g :: items (Replace b h).1) as Hx.
        { intros x. by rewrite Hp. }
        intros x. specialize (Hx x). rewrite !elem_of_cons in Hx.
        destruct (decide (x = g)) as [->|]; [|naive_solver].
        split; [done|]. intros [->|[_ ?]]; [lia|done]. }
      split; simpl; try done.
      * congruence.
      * assert (NoDup (g :: items (Replace b h).1)) as [_ ?]%NoDup_cons; [|done].
        rewrite <-Hp. by constructor.
      * intros x [->|[? _]]%Hmem; set_solver.
      * intros x y Hx Hy Hny. rewrite Hmem in Hx, Hny.
        apply elem_of_union in Hy as [->%elem_of_singleton|Hy]; [naive_solver|].
        destruct (decide (y = g)) as [->|Hyg].
        -- destruct Hx as [->|[Hx ?]]; [done|]. pose proof (Hmax x Hx). lia.
        -- assert (y ∉ items b) as Hyb by naive_solver.
           pose proof (Hsmall g y Hg Hy Hyb).
           destruct Hx as [->|[Hx ?]]; [lia|by apply Hsmall].
      * apply Permutation_length in Hp. simpl in Hp. lia.
    + split; simpl; try done.
      * set_solver.
      * intros x y Hx Hy Hny. apply elem_of_union in Hy as [->%elem_of_singleton|Hy].
        -- pose proof (Hmax x Hx). assert (h ≠ g) by set_solver. lia.
        -- by apply Hsmall.
      * lia.
Qed.

Lemma bottom_k_fold k hs :
  0 < k → bottom_k k hs (foldl (build_step k) (∅, HeapFrom [] Greater) hs).
Proof.
  intros Hk. induction hs as [|h hs IH] using rev_ind; [apply bottom_k_init|].
  rewrite foldl_app. by apply bottom_k_step.
Qed.

(** Sorting the [k] smallest is the first [k] of the sorted whole. *)
Lemma bottom_k_sorted k hs st :
  bottom_k k hs st →
  merge_sort Z.le (items st.2) = take k (merge_sort Z.le (elements (list_to_set hs : gset Z))).
Proof.
  intros [Hseen _ _ Hnd Hsub Hsmall Hlen]. destruct st as [seen b]; simpl in *.
  rewrite <-Hseen. set (B := merge_sort Z.le (items b)).
  set (rest := merge_sort Z.le (elements (seen ∖ list_to_set (items b)))).
  assert (merge_sort Z.le (elements seen) = B ++ rest) as ->.
  { apply (Sorted_unique Z.le); [apply Sorted_merge_sort, _| |].
    - apply StronglySorted_Sorted, StronglySorted_app; split_and!.
      + intros x y. unfold B, rest. rewrite !merge_sort_Permutation, elem_of_elements.
        intros Hx [Hy Hn]%elem_of_difference. rewrite elem_of_list_to_set in Hn.
        pose proof (Hsmall x y Hx Hy Hn). lia.
      + apply (Sorted_StronglySorted Z.le), Sorted_merge_sort, _.
      + apply (Sorted_StronglySorted Z.le), Sorted_merge_sort, _.
    - unfold B, rest. rewrite !merge_sort_Permutation.
      rewrite <-(elements_list_to_set (C := gset Z) (items b)) at 1 by done.
      rewrite <-elements_disj_union by set_solver. f_equiv. intros x.
      rewrite elem_of_union, elem_of_difference, elem_of_list_to_set.
      destruct (decide (x ∈ items b)); naive_solver. }
  assert (length B = k `min` size seen) as HB
    by (unfold B; by rewrite merge_sort_Permutation).
  assert (length rest = size seen - length B) as Hr.
  { unfold rest, B. rewrite !merge_sort_Permutation.
    rewrite <-(size_list_to_set (C := gset Z) (items b)) by done.
    rewrite <-size_difference; [done|]. intros x ?%elem_of_list_to_set. auto. }
  destruct (decide (k ≤ size seen)).
  - rewrite take_app_le by lia. by rewrite take_ge by lia.
  - rewrite take_ge by (rewrite length_app; lia).
    destruct rest; [by rewrite app_nil_r|simpl in Hr; lia].
Qed.

(** Reference definition: sort the distinct hashes of all windows, keep [k]. *)
Definition reference_sketch (Sum64 : bytes → Z) (s : bytes) (n k : Z) : Sketch :=
  let all : gset Z := list_to_set (Sum64 <$> windows (Utf8.runes s) (Z.to_nat n)) in
  mkSketch n (Z.of_nat (size all)) (take (Z.to_nat k) (merge_sort Z.le (elements all))).

(** the heap-based construction computes the reference sketch. For
    every text, [Build] returns the [k] smallest distinct hashes of its windows
    of [n] runes in ascending order, with the number of distinct hashes, a
    window or a capacity below one being replaced by its default. *)
Theorem Build_reference Sum64 s n k :
  Build Sum64 s n k =
  reference_sketch Sum64 s (if (n <? 1)%Z then DefaultN else n)
    (if (k <? 1)%Z then DefaultK else k).
Proof.
  unfold Build, reference_sketch.
  set (n' := if (n <? 1)%Z then DefaultN else n).
  set (k' := if (k <? 1)%Z then DefaultK else k).
  assert (1 ≤ n')%Z by (subst n'; unfold DefaultN; destruct (Z.ltb_spec n 1); lia).
  assert (1 ≤ k')%Z by (subst k'; unfold DefaultK; destruct (Z.ltb_spec k 1); lia).
  rewrite eachShingle_windows by done.
  set (hs := Sum64 <$> _).
  pose proof (bottom_k_fold (Z.to_nat k') hs ltac:(lia)) as Hb.
  pose proof (bottom_k_sorted _ _ _ Hb) as Hs. pose proof (bk_seen _ _ _ Hb) as He.
  destruct (foldl _ _ _) as [seen b]; simpl in *.
  unfold Items. by rewrite Hs, He.
Qed.

(** ** The comparison counts a union and an intersection *)

(** The retained hashes up to [limit]. *)
Definition upto (limit : Z) (vs : list Z) : gset Z :=
  list_to_set (filter (λ v, (v ≤ limit)%Z) vs).

Lemma elem_of_upto limit vs x : x ∈ upto limit vs ↔ x ∈ vs ∧ (x ≤ limit)%Z.
Proof. unfold upto. rewrite elem_of_list_to_set, list_elem_of_filter. naive_solver. Qed.

Lemma sorted_drop_lt (vs : list Z) i x y :
  StronglySorted Z.lt vs → vs !! i = Some x → y ∈ drop (S i) vs → (x < y)%Z.
Proof.
  intros Hs Hx Hy. rewrite <-(take_drop_middle vs i x Hx) in Hs.
  apply StronglySorted_app in Hs as (_ & _ & Hs).
  apply StronglySorted_inv in Hs as [_ Hall].
  by apply (proj1 (Forall_forall _ _) Hall).
Qed.

Lemma upto_within limit vs i :
  StronglySorted Z.lt vs → within vs i limit = true →
  ∃ x, vs !! i = Some x ∧ vs !!! i = x ∧ (x ∉ upto limit (drop (S i) vs)) ∧
    upto limit (drop i vs) = {[x]} ∪ upto limit (drop (S i) vs) ∧
    (∀ y, y ∈ upto limit (drop (S i) vs) → (x < y)%Z).
Proof.
  unfold within. intros Hs Hw. destruct (vs !! i) as [x|] eqn:Hx; [|done].
  exists x. split_and!; [done|by apply list_lookup_total_correct| | |].
  - intros [Hy _]%elem_of_upto. pose proof (sorted_drop_lt _ _ _ _ Hs Hx Hy). lia.
  - apply set_eq. intros y. rewrite elem_of_union, !elem_of_upto, elem_of_singleton.
    rewrite (drop_S vs x i Hx), elem_of_cons. split; [naive_solver|].
    intros [->|?]; [split; [by left|lia]|naive_solver].
  - intros y [Hy _]%elem_of_upto. by eapply sorted_drop_lt.
Qed.

Lemma upto_not_within limit vs i :
  StronglySorted Z.lt vs → within vs i limit = false → upto limit (drop i vs) = ∅.
Proof.
  unfold within. intros Hs Hw. apply set_eq. intros y. rewrite elem_of_upto.
  destruct (vs !! i) as [x|] eqn:Hx.
  - rewrite (drop_S vs x i Hx), elem_of_cons. split; [|set_solver].
    intros [[->|Hy] Hl]; [lia|]. pose proof (sorted_drop_lt _ _ _ _ Hs Hx Hy). lia.
  - rewrite drop_ge by (by apply lookup_ge_None). set_solver.
Qed.

Lemma size_insert_Z (x : Z) (X : gset Z) :
  x ∉ X → Z.of_nat (size ({[x]} ∪ X)) = (Z.of_nat (size X) + 1)%Z.
Proof. intros. rewrite size_union by set_solver. rewrite size_singleton. lia. Qed.

Lemma jaccard_loop_spec fuel va vb limit i j u t :
  StronglySorted Z.lt va → StronglySorted Z.lt vb →
  length va - i + (length vb - j) ≤ fuel →
  let A := upto limit (drop i va) in let B := upto limit (drop j vb) in
  jaccard_loop fuel va vb limit i j u t =
  ((u + Z.of_nat (size (A ∪ B)))%Z, (t + Z.of_nat (size (A ∩ B)))%Z).
Proof.
  intros Ha Hb. simpl. revert i j u t.
  induction fuel as [|fuel IH]; intros i j u t Hf; simpl.
  { rewrite !drop_ge by lia. change (upto limit []) with (∅ : gset Z).
    replace (∅ ∪ ∅ : gset Z) with (∅ : gset Z) by set_solver.
    replace (∅ ∩ ∅ : gset Z) with (∅ : gset Z) by set_solver.
    rewrite size_empty. f_equal; lia. }
  destruct (within va i limit) eqn:Hwa, (within vb j limit) eqn:Hwb; simpl.
  all: try (pose proof (upto_not_within _ _ _ Ha Hwa) as Hea; rewrite Hea).
  all: try (pose proof (upto_not_within _ _ _ Hb Hwb) as Heb; rewrite Heb).
  all: try (destruct (upto_within _ _ _ Ha Hwa) as (x & Hx & Hxt & Hnx & Hua & Hla);
            pose proof (lookup_lt_Some _ _ _ Hx)).
  all: try (destruct (upto_within _ _ _ Hb Hwb) as (y & Hy & Hyt & Hny & Hub & Hlb);
            pose proof (lookup_lt_Some _ _ _ Hy)).
  - rewrite Hxt, Hyt. destruct (Z.eqb_spec x y) as [<-|Hne].
    + rewrite IH by lia. rewrite Hua, Hub.
      set (A := upto limit (drop (S i) va)) in *. set (B := upto limit (drop (S j) vb)) in *.
      replace ({[x]} ∪ A ∪ ({[x]} ∪ B)) with ({[x]} ∪ (A ∪ B)) by set_solver.
      replace (({[x]} ∪ A) ∩ ({[x]} ∪ B)) with ({[x]} ∪ (A ∩ B)) by set_solver.
      rewrite !size_insert_Z by set_solver. f_equal; lia.
    + destruct (Z.ltb_spec x y) as [Hlt|Hge]; rewrite IH by lia.
      * rewrite Hua. set (A := upto limit (drop (S i) va)) in *.
        assert (x ∉ upto limit (drop j vb)) as Hxb.
        { rewrite Hub. intros [?%elem_of_singleton|Hin]%elem_of_union; [done|].
          specialize (Hlb _ Hin). lia. }
        set (B := upto limit (drop j vb)) in *.
        rewrite <-union_assoc_L, size_insert_Z by set_solver.
        replace (({[x]} ∪ A) ∩ B) with (A ∩ B) by set_solver. f_equal; lia.
      * rewrite Hub. set (B := upto limit (drop (S j) vb)) in *.
        assert (y ∉ upto limit (drop i va)) as Hya.
        { rewrite Hua. intros [?%elem_of_singleton|Hin]%elem_of_union; [congruence|].
          specialize (Hla _ Hin). lia. }
        set (A := upto limit (drop i va)) in *.
        replace (A ∪ ({[y]} ∪ B)) with ({[y]} ∪ (A ∪ B)) by set_solver.
        rewrite size_insert_Z by set_solver.
        replace (A ∩ ({[y]} ∪ B)) with (A ∩ B) by set_solver. f_equal; lia.
  - rewrite IH by lia. rewrite Hua, Heb, !union_empty_r_L.
    rewrite size_insert_Z by set_solver. rewrite !intersection_empty_r_L, size_empty.
    f_equal; lia.
  - rewrite IH by lia. rewrite Hub, Hea, !union_empty_l_L.
    rewrite size_insert_Z by set_solver.
    rewrite !intersection_empty_l_L, size_empty. f_equal; lia.
  - rewrite union_empty_l_L, intersection_empty_l_L, size_empty. f_equal; lia.
Qed.

(** What every sketch the package makes or decodes satisfies. *)
Record wf (s : Sketch) : Prop := {
  wf_n : (1 ≤ N s)%Z;
  wf_sorted : StronglySorted Z.lt (Values s);
  wf_range : Forall (λ v, (0 ≤ v ≤ MaxUint64)%Z) (Values s);
  wf_count : (Z.of_nat (length (Values s)) ≤ Distinct s)%Z;
  wf_retains : Values s = [] → Distinct s = 0%Z;
}.

Lemma exhaustiveLimit_comm a b : exhaustiveLimit a b = exhaustiveLimit b a.
Proof. unfold exhaustiveLimit. repeat case_match; lia. Qed.

(** The counters of [Jaccard] as set sizes. *)
Lemma Jaccard_sizes a b :
  wf a → wf b → N a = N b → Values a ≠ [] → Values b ≠ [] →
  let A := upto (exhaustiveLimit a b) (Values a) in
  let B := upto (exhaustiveLimit a b) (Values b) in
  Jaccard a b =
  if (Z.of_nat (size (A ∪ B)) =? 0)%Z then F64.zero
  else F64.div (F64.of_int (Z.of_nat (size (A ∩ B)))) (F64.of_int (Z.of_nat (size (A ∪ B)))).
Proof.
  intros Ha Hb Hn Hva Hvb A B. unfold Jaccard.
  rewrite Hn, Z.eqb_refl, !bool_decide_false by done. simpl negb. cbv iota beta.
  simpl orb. cbv iota.
  rewrite jaccard_loop_spec; [|apply Ha|apply Hb|lia].
  rewrite !drop_0, !Z.add_0_l. done.
Qed.

(** the similarity of two sketches does not depend on the order
    they are given in. *)
Theorem Jaccard_symmetric a b : wf a → wf b → Jaccard a b = Jaccard b a.
Proof.
  intros Ha Hb. destruct (decide (N a = N b)) as [Hn|Hn].
  2: { unfold Jaccard. destruct (Z.eqb_spec (N a) (N b)), (Z.eqb_spec (N b) (N a)); done. }
  destruct (decide (Values a = [])) as [Hva|Hva].
  { unfold Jaccard. rewrite Hva. by rewrite !(bool_decide_true ([] = [])), !orb_true_r. }
  destruct (decide (Values b = [])) as [Hvb|Hvb].
  { unfold Jaccard. rewrite Hvb. by rewrite !(bool_decide_true ([] = [])), !orb_true_r. }
  rewrite !Jaccard_sizes by done. rewrite exhaustiveLimit_comm.
  by rewrite union_comm_L, (intersection_comm_L (upto _ (Values a))).
Qed.

Section default.
Context (Sum64 : bytes → Z).
Hypothesis Sum64_range : ∀ b, (0 ≤ Sum64 b ≤ MaxUint64)%Z.

(** All hashes of the windows of five runes. *)
Definition shingle_set (s : bytes) : gset Z :=
  list_to_set (Sum64 <$> windows (Utf8.runes s) 5).

Lemma shingle_set_size s : size (shingle_set s) ≤ Utf8.RuneCount s.
Proof.
  unfold shingle_set. etrans; [apply size_list_to_set_le|].
  unfold windows. rewrite !length_fmap, length_seq. unfold Utf8.RuneCount. lia.
Qed.

Lemma BuildDefault_reference s :
  BuildDefault Sum64 s =
  mkSketch 5 (Z.of_nat (size (shingle_set s)))
    (take (Z.to_nat (if (Z.of_nat (Utf8.RuneCount s) <? ExactShingleLimit)%Z
                     then Z.of_nat (Utf8.RuneCount s) + 1 else DefaultK))
       (merge_sort Z.le (elements (shingle_set s)))).
Proof.
  unfold BuildDefault. rewrite Build_reference. unfold reference_sketch.
  assert (∀ k, (1 ≤ k)%Z → (if (k <? 1)%Z then DefaultK else k) = k) as Hk.
  { intros k Hk. destruct (Z.ltb_spec k 1); [lia|done]. }
  rewrite Hk; [done|]. unfold ExactShingleLimit, DefaultK.
  destruct (Z.ltb_spec (Z.of_nat (Utf8.RuneCount s)) 5000); lia.
Qed.

Lemma sorted_elements (X : gset Z) : StronglySorted Z.lt (merge_sort Z.le (elements X)).
Proof.
  assert (StronglySorted Z.le (merge_sort Z.le (elements X))) as Hs
    by apply (Sorted_StronglySorted Z.le), Sorted_merge_sort, _.
  assert (NoDup (merge_sort Z.le (elements X))) as Hn
    by (rewrite merge_sort_Permutation; apply NoDup_elements).
  induction Hs as [|x l Hs IH Hx]; [constructor|].
  apply NoDup_cons in Hn as [Hx' Hn]. constructor; [auto|].
  apply Forall_forall. intros y Hy. rewrite Forall_forall in Hx.
  specialize (Hx y Hy). assert (x ≠ y) by (intros ->; done). lia.
Qed.

Lemma StronglySorted_take (l : list Z) n :
  StronglySorted Z.lt l → StronglySorted Z.lt (take n l).
Proof.
  rewrite <-(take_drop n l) at 1. by intros (_ & ? & _)%StronglySorted_app.
Qed.

Lemma BuildDefault_wf s : wf (BuildDefault Sum64 s).
Proof.
  rewrite BuildDefault_reference. split; simpl.
  - lia.
  - apply StronglySorted_take, sorted_elements.
  - apply Forall_take. rewrite Forall_forall. intros x.
    rewrite merge_sort_Permutation, elem_of_elements. unfold shingle_set.
    rewrite elem_of_list_to_set, list_elem_of_fmap. intros (b & -> & _). apply Sum64_range.
  - rewrite length_take, merge_sort_Permutation. change (length (elements ?X)) with (size X). lia.
  - intros Hnil. apply (f_equal length) in Hnil.
    rewrite length_take, merge_sort_Permutation in Hnil.
    change (length (elements ?X)) with (size X) in Hnil. simpl in Hnil.
    unfold DefaultK in Hnil. case_match; lia.
Qed.

Lemma BuildDefault_short s :
  (Z.of_nat (Utf8.RuneCount s) < ExactShingleLimit)%Z →
  Values (BuildDefault Sum64 s) = merge_sort Z.le (elements (shingle_set s)).
Proof.
  intros Hs. rewrite BuildDefault_reference. simpl.
  apply Z.ltb_lt in Hs. rewrite Hs. apply take_ge.
  rewrite merge_sort_Permutation. change (length (elements ?X)) with (size X).
  pose proof (shingle_set_size s). lia.
Qed.

Lemma BuildDefault_complete s :
  (Z.of_nat (Utf8.RuneCount s) < ExactShingleLimit)%Z →
  complete (BuildDefault Sum64 s) = true.
Proof.
  intros Hs. unfold complete. rewrite BuildDefault_short by done.
  rewrite merge_sort_Permutation, BuildDefault_reference. simpl.
  apply Z.eqb_eq. done.
Qed.

(** for texts of fewer than 5000 runes the similarity is exact:
    the number of shared distinct shingle hashes over the number of all of
    them, and zero when a text is too short to have a shingle. *)
Theorem Jaccard_exact s t :
  (Z.of_nat (Utf8.RuneCount s) < ExactShingleLimit)%Z →
  (Z.of_nat (Utf8.RuneCount t) < ExactShingleLimit)%Z →
  Jaccard (BuildDefault Sum64 s) (BuildDefault Sum64 t) =
  if bool_decide (shingle_set s = ∅) || bool_decide (shingle_set t = ∅) then F64.zero
  else F64.div (F64.of_int (Z.of_nat (size (shingle_set s ∩ shingle_set t))))
         (F64.of_int (Z.of_nat (size (shingle_set s ∪ shingle_set t)))).
Proof.
  intros Hs Ht.
  assert (∀ u, (Z.of_nat (Utf8.RuneCount u) < ExactShingleLimit)%Z →
    (Values (BuildDefault Sum64 u) = [] ↔ shingle_set u = ∅) ∧
    upto MaxUint64 (Values (BuildDefault Sum64 u)) = shingle_set u) as Hv.
  { intros u Hu. pose proof (BuildDefault_wf u) as Hwf.
    pose proof (wf_range _ Hwf) as Hr. rewrite (BuildDefault_short u Hu) in *. split.
    - split; intros He.
      + apply leibniz_equiv, elements_empty_iff, Permutation_nil_r.
        by rewrite <-(merge_sort_Permutation Z.le), He.
      + by rewrite He, elements_empty.
    - apply set_eq. intros x. rewrite elem_of_upto, merge_sort_Permutation, elem_of_elements.
      split; [naive_solver|]. intros Hx. split; [done|]. rewrite Forall_forall in Hr.
      apply Hr. by rewrite merge_sort_Permutation, elem_of_elements. }
  destruct (Hv s Hs) as [Hes Hus], (Hv t Ht) as [Het Hut].
  assert (exhaustiveLimit (BuildDefault Sum64 s) (BuildDefault Sum64 t) = MaxUint64) as Hlim.
  { unfold exhaustiveLimit. by rewrite !BuildDefault_complete. }
  case_bool_decide as H1.
  { unfold Jaccard. rewrite (bool_decide_true (Values (BuildDefault Sum64 s) = [])) by tauto.
    by rewrite orb_true_r. }
  case_bool_decide as H2.
  { unfold Jaccard. rewrite (bool_decide_true (Values (BuildDefault Sum64 t) = [])) by tauto.
    by rewrite orb_true_r. }
  rewrite Jaccard_sizes; [|apply BuildDefault_wf|apply BuildDefault_wf
    |by rewrite !BuildDefault_reference|tauto|tauto].
  rewrite Hlim, Hus, Hut. simpl orb. cbv iota.
  destruct (Z.eqb_spec (Z.of_nat (size (shingle_set s ∪ shingle_set t))) 0) as [E|]; [|done].
  assert (shingle_set s ∪ shingle_set t = ∅) as Hu.
  { apply leibniz_equiv, size_empty_inv. lia. }
  set_solver.
Qed.
End default.

Definition sample (vs : list Z) (d : Z) : Sketch := mkSketch 5 d vs.

Lemma sample_wf_123 : wf (sample [1; 2; 9]%Z 7).
Proof. split; simpl; [lia|repeat constructor..|lia|done]; unfold MaxUint64; lia. Qed.
Lemma sample_wf_29 : wf (sample [2; 9]%Z 2).
Proof. split; simpl; [lia|repeat constructor..|lia|done]; unfold MaxUint64; lia. Qed.

Lemma Jaccard_symmetric_witness :
  Jaccard (sample [1; 2; 9]%Z 7) (sample [2; 9]%Z 2) =
  Jaccard (sample [2; 9]%Z 2) (sample [1; 2; 9]%Z 7).
Proof. exact (Jaccard_symmetric _ _ sample_wf_123 sample_wf_29). Defined.

(** A hash for the witness: the bytes read as a number, modulo 2^64. *)
Definition sample_hash (b : bytes) : Z := ((foldl (λ n c, n * 256 + byte_val c) 0 b) mod 2 ^ 64)%Z.
Lemma sample_hash_range b : (0 ≤ sample_hash b ≤ MaxUint64)%Z.
Proof. unfold sample_hash, MaxUint64. pose proof (Z.mod_pos_bound (foldl (λ n c, n * 256 + byte_val c) 0 b)%Z (2 ^ 64)). lia. Qed.

Lemma Jaccard_exact_witness :
  Jaccard (BuildDefault sample_hash (to_bytes "the shelf"))
    (BuildDefault sample_hash (to_bytes "the shell")) =
  if bool_decide (shingle_set sample_hash (to_bytes "the shelf") = ∅)
     || bool_decide (shingle_set sample_hash (to_bytes "the shell") = ∅) then F64.zero
  else F64.div
    (F64.of_int (Z.of_nat (size (shingle_set sample_hash (to_bytes "the shelf")
       ∩ shingle_set sample_hash (to_bytes "the shell")))))
    (F64.of_int (Z.of_nat (size (shingle_set sample_hash (to_bytes "the shelf")
       ∪ shingle_set sample_hash (to_bytes "the shell"))))).
Proof. apply (Jaccard_exact sample_hash sample_hash_range); vm_compute; reflexivity. Defined.

End Sketch.
