(* ===== verification/SketchCodec.v ===== *)
(** * The sketch codec: [src/internal/sketch/codec.go]

    A sketch is stored as base64 of a little-endian record: a version byte,
    the shingle width (4 bytes), the distinct count (8 bytes), the number of
    hashes (4 bytes) and the hashes (8 bytes each). [Base64] models the
    standard encoding of [encoding/base64]; the little-endian helpers model
    [encoding/binary]. *)

From S2P Require Import Prelude Utf8 Sketch.

Definition byte_of (z : Z) : ascii := Stdlib.Strings.Ascii.ascii_of_N (Z.to_N (z mod 256)).

Lemma byte_val_range a : (0 ≤ byte_val a < 256)%Z.
Proof.
  unfold byte_val. pose proof (Stdlib.Strings.Ascii.N_ascii_bounded a). lia.
Qed.

Lemma byte_of_val a : byte_of (byte_val a) = a.
Proof.
  unfold byte_of. rewrite Z.mod_small by apply byte_val_range.
  unfold byte_val. rewrite N2Z.id. apply Stdlib.Strings.Ascii.ascii_N_embedding.
Qed.

Lemma byte_of_eq a z : z = byte_val a → byte_of z = a.
Proof. intros ->. apply byte_of_val. Qed.

Lemma byte_val_of z : byte_val (byte_of z) = (z mod 256)%Z.
Proof.
  unfold byte_val, byte_of. pose proof (Z.mod_pos_bound z 256 ltac:(lia)).
  rewrite Stdlib.Strings.Ascii.N_ascii_embedding by lia. lia.
Qed.

Module LE.
Open Scope Z_scope.

(** [binary.LittleEndian.PutUint8n] and [Uint8n]. *)
Fixpoint put (n : nat) (z : Z) : bytes :=
  match n with O => [] | S n => byte_of z :: put n (z / 256) end.
Fixpoint get (b : bytes) : Z :=
  match b with [] => 0 | a :: b => byte_val a + 256 * get b end.

Lemma length_put n z : length (put n z) = n.
Proof. revert z. induction n; intros; simpl; auto. Qed.

Lemma get_put n z : get (put n z) = z mod 256 ^ Z.of_nat n.
Proof.
  revert z. induction n as [|n IH]; intros z; [by rewrite Z.mod_1_r|].
  simpl. rewrite IH, byte_val_of, Nat2Z.inj_succ, Z.pow_succ_r by lia.
  rewrite Z.rem_mul_r by lia. lia.
Qed.

Lemma get_put_small n z : 0 ≤ z < 256 ^ Z.of_nat n → get (put n z) = z.
Proof. intros. by rewrite get_put, Z.mod_small. Qed.

Lemma get_range b : 0 ≤ get b < 256 ^ Z.of_nat (length b).
Proof.
  induction b as [|a b IH]; [done|]. simpl get.
  pose proof (byte_val_range a). simpl length.
  rewrite Nat2Z.inj_succ, Z.pow_succ_r by lia. lia.
Qed.
End LE.
Arguments LE.put : simpl never.
Arguments LE.get : simpl never.

Module Base64.
Open Scope Z_scope.

(** The alphabet of [base64.StdEncoding]. *)
Definition enc_char (v : Z) : ascii :=
  if v <? 26 then byte_of (65 + v)
  else if v <? 52 then byte_of (97 + (v - 26))
  else if v <? 62 then byte_of (48 + (v - 52))
  else if v =? 62 then "+"%char else "/"%char.

Definition dec_char (a : ascii) : option Z :=
  let c := byte_val a in
  if (65 <=? c) && (c <=? 90) then Some (c - 65)
  else if (97 <=? c) && (c <=? 122) then Some (c - 97 + 26)
  else if (48 <=? c) && (c <=? 57) then Some (c - 48 + 52)
  else if c =? 43 then Some 62
  else if c =? 47 then Some 63
  else None.

Definition pad : ascii := "="%char.
Definition is_newline (a : ascii) : bool := (byte_val a =? 10) || (byte_val a =? 13).

(** [EncodeToString]: three bytes become four characters. *)
Fixpoint encode (b : bytes) : bytes :=
  match b with
  | a :: b :: c :: r =>
      let '(x, y, z) := (byte_val a, byte_val b, byte_val c) in
      enc_char (x / 4) :: enc_char (x mod 4 * 16 + y / 16) ::
      enc_char (y mod 16 * 4 + z / 64) :: enc_char (z mod 64) :: encode r
  | [a; b] =>
      let '(x, y) := (byte_val a, byte_val b) in
      [enc_char (x / 4); enc_char (x mod 4 * 16 + y / 16); enc_char (y mod 16 * 4); pad]
  | [a] =>
      let x := byte_val a in [enc_char (x / 4); enc_char (x mod 4 * 16); pad; pad]
  | [] => []
  end.

(** Groups of four characters, padding only at the end. The unused low bits
    of a padded group are ignored, as in Go's non-strict decoder. *)
Fixpoint decode_groups (s : bytes) : option bytes :=
  match s with
  | [] => Some []
  | c1 :: c2 :: c3 :: c4 :: r =>
      v1 ← dec_char c1; v2 ← dec_char c2;
      if bool_decide (c4 = pad) then
        if bool_decide (r = []) then
          if bool_decide (c3 = pad) then Some [byte_of (v1 * 4 + v2 / 16)]
          else v3 ← dec_char c3;
               Some [byte_of (v1 * 4 + v2 / 16); byte_of (v2 mod 16 * 16 + v3 / 4)]
        else None
      else
        v3 ← dec_char c3; v4 ← dec_char c4; rest ← decode_groups r;
        Some (byte_of (v1 * 4 + v2 / 16) :: byte_of (v2 mod 16 * 16 + v3 / 4)
              :: byte_of (v3 mod 4 * 64 + v4) :: rest)
  | _ => None
  end.

(** [DecodeString]: newlines are skipped wherever they stand. *)
Definition decode (s : bytes) : option bytes :=
  decode_groups (filter (λ a, is_newline a = false) s).

Definition alphabet_ok (v : Z) : bool :=
  bool_decide (dec_char (enc_char v) = Some v) &&
  negb (bool_decide (enc_char v = pad)) && negb (is_newline (enc_char v)).

Lemma alphabet_all : forallb (alphabet_ok ∘ Z.of_nat) (seq 0 64) = true.
Proof. by vm_compute. Qed.

Lemma enc_char_ok v :
  0 ≤ v < 64 →
  dec_char (enc_char v) = Some v ∧ enc_char v ≠ pad ∧ is_newline (enc_char v) = false.
Proof.
  intros Hv. pose proof alphabet_all as Hall. rewrite forallb_forall in Hall.
  specialize (Hall (Z.to_nat v)). unfold alphabet_ok in Hall. simpl in Hall.
  rewrite Z2Nat.id in Hall by lia.
  assert (In (Z.to_nat v) (seq 0 64)) as Hin by (apply in_seq; lia).
  specialize (Hall Hin). rewrite !andb_true_iff, !negb_true_iff in Hall.
  destruct Hall as [[H1 H2] H3].
  apply bool_decide_eq_true in H1. by apply bool_decide_eq_false in H2.
Qed.

Lemma dec_enc v : 0 ≤ v < 64 → dec_char (enc_char v) = Some v.
Proof. intros. by apply enc_char_ok. Qed.

Lemma pad_not_newline : is_newline pad = false.
Proof. done. Qed.

(** Induction three bytes at a time. *)
Lemma bytes3_ind (P : bytes → Prop) :
  P [] → (∀ a, P [a]) → (∀ a b, P [a; b]) →
  (∀ a b c r, P r → P (a :: b :: c :: r)) → ∀ l, P l.
Proof.
  intros H0 H1 H2 H3. fix IH 1.
  intros [|a [|b [|c r]]]; [apply H0|apply H1|apply H2|apply H3, IH].
Qed.

Lemma encode_no_newline b : filter (λ a, is_newline a = false) (encode b) = encode b.
Proof.
  induction b as [|a|a b|a b c r IH] using bytes3_ind; [done|..]; simpl;
    pose proof (byte_val_range a);
    try pose proof (byte_val_range b); try pose proof (byte_val_range c);
    repeat (rewrite filter_cons_True by (try apply pad_not_newline; apply enc_char_ok;
      Z.to_euclidean_division_equations; lia)); try done.
  by rewrite IH.
Qed.

Ltac regroup_byte a :=
  apply byte_of_eq; pose proof (byte_val_range a);
  Z.to_euclidean_division_equations; lia.

Lemma base64_decode_encode b : decode (encode b) = Some b.
Proof.
  unfold decode. rewrite encode_no_newline.
  induction b as [|a|a b|a b c r IH] using bytes3_ind; [done|..]; simpl;
    pose proof (byte_val_range a) as Ha;
    try pose proof (byte_val_range b) as Hb; try pose proof (byte_val_range c) as Hc;
    repeat (rewrite dec_enc by (Z.to_euclidean_division_equations; lia));
    simpl.
  - do 2 f_equal. regroup_byte a.
  - rewrite bool_decide_false by (apply enc_char_ok; Z.to_euclidean_division_equations; lia).
    simpl.
    do 2 f_equal; [regroup_byte a|f_equal; regroup_byte b].
  - rewrite bool_decide_false by (apply enc_char_ok; Z.to_euclidean_division_equations; lia).
    rewrite IH. simpl. do 2 f_equal; [regroup_byte a|f_equal; [regroup_byte b|]].
    f_equal. regroup_byte c.
Qed.
End Base64.

Module SketchCodec.
Import Sketch.
Open Scope Z_scope.

Definition codecVersion : Z := 1.
Definition headerLen : nat := 17.

(** The record before base64. *)
Definition encode_raw (s : Sketch) : bytes :=
  byte_of codecVersion :: LE.put 4 (N s) ++ LE.put 8 (Distinct s) ++
  LE.put 4 (Z.of_nat (length (Values s))) ++ concat (LE.put 8 <$> Values s).

(** [func (s Sketch) Encode] *)
Definition Encode (s : Sketch) : bytes := Base64.encode (encode_raw s).

(** The refusals of [Decode], in the order of its tests. *)
Inductive DecodeError :=
  | ErrBase64
  | ErrTruncated (len : nat)
  | ErrVersion (version : Z)
  | ErrZeroWidth
  | ErrDistinctRange (distinct : Z)
  | ErrMoreHashes (count distinct : Z)
  | ErrRetainsNone (distinct : Z)
  | ErrLength (count : Z) (len : nat)
  | ErrNotAscending (index : nat).

(** The loop over [values]: [prev] is [values[i-1]]. *)
Fixpoint read_values (raw : bytes) (i n : nat) (prev : option Z) :
    result DecodeError (list Z) :=
  match n with
  | O => Ok []
  | S n =>
      let offset := (headerLen + i * 8)%nat in
      let v := LE.get (substr raw offset (offset + 8)) in
      if match prev with Some p => v <=? p | None => false end
      then Err (ErrNotAscending i)
      else rest ← read_values raw (S i) n (Some v) ;;! Ok (v :: rest)
  end.

(** [func Decode], after base64. *)
Definition decode_raw (raw : bytes) : result DecodeError Sketch :=
  if decide (length raw < headerLen)%nat then Err (ErrTruncated (length raw)) else
  let version := byte_val (default "000"%char (raw !! 0%nat)) in
  if negb (version =? codecVersion) then Err (ErrVersion version) else
  let n := LE.get (substr raw 1 5) in
  let distinct := LE.get (substr raw 5 13) in
  let count := LE.get (substr raw 13 17) in
  if n <? 1 then Err ErrZeroWidth else
  if MaxInt <? distinct then Err (ErrDistinctRange distinct) else
  if distinct <? count then Err (ErrMoreHashes count distinct) else
  if (count =? 0) && (0 <? distinct) then Err (ErrRetainsNone distinct) else
  if negb (Z.of_nat (length raw) =? Z.of_nat headerLen + count * 8)
  then Err (ErrLength count (length raw)) else
  values ← read_values raw 0 (Z.to_nat count) None ;;!
  Ok (mkSketch n distinct values).

(** [func Decode] *)
Definition Decode (encoded : bytes) : result DecodeError Sketch :=
  match Base64.decode encoded with
  | None => Err ErrBase64
  | Some raw => decode_raw raw
  end.

(** The sketches the record can hold. *)
Record encodable (s : Sketch) : Prop := {
  enc_wf : wf s;
  enc_n : N s < 2 ^ 32;
  enc_distinct : Distinct s <= MaxInt;
  enc_length : Z.of_nat (length (Values s)) < 2 ^ 32;
}.

(** The 17 header bytes. *)
Definition header (s : Sketch) : bytes :=
  byte_of codecVersion :: LE.put 4 (N s) ++ LE.put 8 (Distinct s) ++
  LE.put 4 (Z.of_nat (length (Values s))).

Lemma length_header s : length (header s) = headerLen.
Proof. done. Qed.

Lemma encode_raw_header s : encode_raw s = header s ++ concat (LE.put 8 <$> Values s).
Proof. unfold encode_raw, header. by rewrite <-!app_comm_cons, <-!app_assoc. Qed.

Lemma length_concat_put vs : length (concat (LE.put 8 <$> vs)) = (8 * length vs)%nat.
Proof.
  induction vs as [|v vs IH]; [done|]. rewrite fmap_cons. cbn [concat].
  rewrite length_app, LE.length_put, IH. simpl. lia.
Qed.

Lemma substr_app_skip (a b : bytes) x y :
  (length a <= x)%nat → (x <= y)%nat →
  substr (a ++ b) x y = substr b (x - length a) (y - length a).
Proof.
  intros. unfold substr. rewrite drop_app_ge by lia. f_equal. lia.
Qed.

Lemma substr_app_exact (a b c : bytes) :
  substr (a ++ b ++ c) (length a) (length a + length b) = b.
Proof.
  unfold substr. rewrite drop_app_length.
  replace (length a + length b - length a)%nat with (length b) by lia.
  apply take_app_length.
Qed.

Lemma read_values_put h pre vs prev :
  length h = headerLen → StronglySorted Z.lt vs →
  Forall (λ v, 0 <= v <= MaxUint64) vs →
  (∀ p v, prev = Some p → v ∈ vs → p < v) →
  read_values (h ++ concat (LE.put 8 <$> (pre ++ vs))) (length pre) (length vs) prev
    = Ok vs.
Proof.
  intros Hh. revert pre prev. induction vs as [|v vs IH]; intros pre prev Hs Hr Hp; [done|].
  simpl. apply StronglySorted_inv in Hs as [Hs Hlt]. apply Forall_cons in Hr as [Hv Hr].
  assert (LE.get (substr (h ++ concat (LE.put 8 <$> (pre ++ v :: vs)))
    (headerLen + length pre * 8) (headerLen + length pre * 8 + 8)) = v) as Hget.
  { rewrite fmap_app, concat_app, fmap_cons. cbn [concat].
    rewrite app_assoc, <-Hh.
    replace (length h + length pre * 8)%nat
      with (length (h ++ concat (LE.put 8 <$> pre))).
    2: { rewrite length_app, length_concat_put. lia. }
    replace 8%nat with (length (LE.put 8 v)) at 2 by apply LE.length_put.
    rewrite substr_app_exact. apply LE.get_put_small.
    rewrite LE.length_put. unfold MaxUint64 in Hv.
    change (256 ^ Z.of_nat 8) with (2 ^ 64). lia. }
  simpl in Hget. rewrite Hget.
  assert (match prev with Some p => v <=? p | None => false end = false) as ->.
  { destruct prev as [p|]; [|done]. assert (p < v) by (apply Hp; [done|apply elem_of_cons; by left]). lia. }
  specialize (IH (pre ++ [v]) (Some v)).
  rewrite <-app_assoc, length_app, Nat.add_1_r in IH. simpl in IH. rewrite IH; [done..|].
  intros p w [= <-] Hw. by apply (proj1 (Forall_forall _ _) Hlt).
Qed.


Lemma substr_header s rest x y :
  (x <= y <= headerLen)%nat → substr (header s ++ rest) x y = substr (header s) x y.
Proof.
  intros Hy. unfold substr. rewrite drop_app_le by (rewrite length_header; lia).
  apply take_app_le. rewrite length_drop, length_header. lia.
Qed.

Lemma header_n s : substr (header s) 1 5 = LE.put 4 (N s).
Proof. done. Qed.
Lemma header_distinct s : substr (header s) 5 13 = LE.put 8 (Distinct s).
Proof. done. Qed.
Lemma header_count s : substr (header s) 13 17 = LE.put 4 (Z.of_nat (length (Values s))).
Proof. done. Qed.

(** [Decode] undoes [Encode] on every sketch whose fields fit the
    record: width below [2^32], distinct count within an [int], fewer than
    [2^32] hashes, strictly ascending. *)
Theorem Decode_Encode s : encodable s → Decode (Encode s) = Ok s.
Proof.
  intros [[Hn Hs Hr Hc He] Hn32 Hd Hl]. unfold Decode, Encode.
  rewrite Base64.base64_decode_encode, encode_raw_header.
  set (body := concat _).
  assert (length (header s ++ body) = headerLen + 8 * length (Values s))%nat as Hlen.
  { unfold body. by rewrite length_app, length_header, length_concat_put. }
  assert (0 <= Z.of_nat (length (Values s))) by lia.
  unfold decode_raw. rewrite Hlen. rewrite decide_False by lia.
  replace (byte_val _) with codecVersion by done.
  change (negb (codecVersion =? codecVersion)) with false. cbv iota.
  rewrite !substr_header by (unfold headerLen; lia).
  rewrite header_n, header_distinct, header_count.
  rewrite !LE.get_put_small by (simpl; unfold MaxInt in *; lia).
  destruct (Z.ltb_spec (N s) 1); [lia|].
  destruct (Z.ltb_spec MaxInt (Distinct s)); [lia|].
  destruct (Z.ltb_spec (Distinct s) (Z.of_nat (length (Values s)))); [lia|].
  assert (((Z.of_nat (length (Values s)) =? 0) && (0 <? Distinct s)) = false) as ->.
  { destruct (Z.eqb_spec (Z.of_nat (length (Values s))) 0); [|done].
    rewrite He; [done|]. apply length_zero_iff_nil. lia. }
  assert ((Z.of_nat (headerLen + 8 * length (Values s)) =?
    Z.of_nat headerLen + Z.of_nat (length (Values s)) * 8) = true) as ->
    by (apply Z.eqb_eq; unfold headerLen; lia).
  cbv iota. change (negb true) with false. cbv iota. rewrite Nat2Z.id. unfold body.
  pose proof (read_values_put (header s) [] (Values s) None) as Hread.
  cbn [app length] in Hread. rewrite Hread; [by destruct s|done..].
Qed.

Lemma get_substr_range raw x n :
  0 <= LE.get (substr raw x (x + n)) < 256 ^ Z.of_nat n.
Proof.
  pose proof (LE.get_range (substr raw x (x + n))) as [H0 H1]. split; [done|].
  eapply Z.lt_le_trans; [done|]. apply Z.pow_le_mono_r; [lia|].
  unfold substr. rewrite length_take. lia.
Qed.

Lemma read_values_sound raw n : ∀ i prev vs,
  read_values raw i n prev = Ok vs →
  length vs = n ∧ StronglySorted Z.lt vs ∧
  Forall (λ v, 0 <= v <= MaxUint64) vs ∧
  (∀ p v, prev = Some p → v ∈ vs → p < v).
Proof.
  induction n as [|n IH]; intros i prev vs H; simpl in H.
  { simplify_eq. split_and!; [done|constructor|constructor|].
    intros p v _ Hv. by apply elem_of_nil in Hv. }
  match type of H with (if ?b then _ else _) = _ => destruct b eqn:Hb; [done|] end.
  apply res_bind_ok in H as (rest & Hrest & [= <-]).
  apply IH in Hrest as (Hlen & Hs & Hr & Hp).
  pose proof (get_substr_range raw (headerLen + i * 8) 8) as Hv.
  change (256 ^ Z.of_nat 8) with (2 ^ 64) in Hv.
  set (v := LE.get _) in *. split_and!.
  - by rewrite <-Hlen.
  - constructor; [done|]. apply Forall_forall. intros w Hw. by apply (Hp v).
  - constructor; [unfold MaxUint64; lia|done].
  - intros p w -> [->|Hw]%elem_of_cons; [lia|].
    specialize (Hp v w eq_refl Hw). lia.
Qed.

(** whatever [Decode] accepts is a well-formed sketch the codec can
    write back: no input, however corrupt, yields unsorted or repeated
    hashes, an out-of-range count or a width of zero. *)
Theorem Decode_sound encoded s : Decode encoded = Ok s → encodable s.
Proof.
  unfold Decode, decode_raw. destruct (Base64.decode encoded) as [raw|]; [|done].
  pose proof (get_substr_range raw 1 4) as Hn. pose proof (get_substr_range raw 13 4) as Hc.
  change (256 ^ Z.of_nat 4) with (2 ^ 32) in *. simpl Nat.add in *.
  set (n := LE.get (substr raw 1 5)) in *. set (d := LE.get (substr raw 5 13)).
  set (c := LE.get (substr raw 13 17)) in *.
  case_decide; [done|]. destruct (negb _); [done|].
  destruct (Z.ltb_spec n 1); [done|]. destruct (Z.ltb_spec MaxInt d); [done|].
  destruct (Z.ltb_spec d c); [done|].
  destruct ((c =? 0) && (0 <? d)) eqn:Hret; [done|]. destruct (negb _); [done|].
  intros (vs & Hvs & [= <-])%res_bind_ok.
  apply read_values_sound in Hvs as (Hlen & Hs & Hr & _).
  split; simpl; [split; simpl|..]; try done; try lia.
  intros ->. simpl in Hlen. assert (c = 0) as Hc0 by lia.
  rewrite Hc0 in *. simpl in Hret. lia.
Qed.

Lemma sample_encodable : encodable (sample [1; 2; 9]%Z 7).
Proof. split; [apply sample_wf_123|..]; simpl; unfold MaxInt; lia. Qed.

Lemma Decode_Encode_witness :
  Decode (Encode (sample [1; 2; 9]%Z 7)) = Ok (sample [1; 2; 9]%Z 7).
Proof. exact (Decode_Encode _ sample_encodable). Defined.

Lemma Decode_sound_witness : encodable (sample [1; 2; 9]%Z 7).
Proof.
  apply (Decode_sound (Encode (sample [1; 2; 9]%Z 7))). vm_compute. reflexivity.
Defined.

End SketchCodec.
