(* ===== verification/Similar.v ===== *)
(** * Similar books: [src/internal/textnorm/normalize.go],
    [src/server/task/task_fingerprint_sources.go],
    [src/server/handle_fingerprints.go]

    A task brings the fingerprint of every source up to date, and a handler
    compares the recorded ones in pairs. Unicode's tables ([norm.NFKC],
    [unicode.In]), the hash of a shingle and [strconv.ParseFloat] are
    parameters. The handler returns what it answers as a value; deadlines of
    the connection and log messages are left out.

    [similar_pairs_exact] says which pairs are listed; [RunFingerprint_accounts]
    that the task accounts for every source and settles. *)

From S2P Require Import Prelude Utf8 Strings Float64 Json Fs FsSpec Atomic ShelfUtil BookMeta Source Frame ScanCache FolderMeta Book NoFault ShelfState Trash Folder ShelfBook ShelfFrame Listing Visibility Http Documents Fingerprint TaskQueue ServerTasks Server ServerBooks Heap Sketch SketchCodec.

Module Similar.
Import BookMeta Book ShelfUtil Shelf Listing Visibility Http TaskQueue ServerTasks Server ServerBooks Fingerprint.

(** ** Normalising a text *)
Class TextNorm := {
  NFKC : bytes → bytes;
  (** [unicode.IsSpace], and [unicode.In] with the categories of
      punctuation, symbols and separators *)
  layout_rune : Z → bool;
  Sum64 : bytes → Z;
}.
Section normalize.
Context `{TextNorm}.
(** [func isLayout], [func stripLayout]: [WriteRune] writes U+FFFD for what
    is no rune. *)
Definition replacement : bytes := Stdlib.Strings.Ascii.ascii_of_nat <$> [239; 191; 189].
Definition written_rune (r : bytes) : bytes := if Utf8.valid_rune r then r else replacement.
Definition isLayout (r : bytes) : bool := layout_rune (Utf8.decode_rune r).1.
Definition stripLayout (s : bytes) : bytes :=
  concat (written_rune <$> List.filter (λ r, negb (isLayout r)) (Utf8.runes s)).
(** [func normalizeToFixpoint] *)
Fixpoint normalizeToFixpoint (rounds : nat) (s : bytes) : bytes :=
  match rounds with
  | 0 => s
  | S rounds =>
      let stripped := stripLayout (NFKC s) in
      if decide (stripped = s) then s else normalizeToFixpoint rounds stripped
  end.
Definition maxNormalizeRounds : nat := 4.
Definition Normalize (s : bytes) : bytes := normalizeToFixpoint maxNormalizeRounds s.

(** ** The builder of fingerprints *)
Context `{Digest}.
Definition FingerprintAlgo : Algo :=
  mkAlgo (str "nfkc-strip-space-punct-v2") (str "char-" ++ Itoa Sketch.DefaultN ++ str "gram") (str "xxhash64-v1") Sketch.DefaultK.
Definition BuildFingerprint (content : bytes) : result error Entry :=
  let normalized := Normalize content in
  let built := Sketch.BuildDefault Sum64 normalized in
  Ok (mkEntry (md5_hex normalized) (Z.of_nat (Utf8.RuneCount normalized)) (Sketch.Distinct built) (SketchCodec.Encode built)).
End normalize.

(** ** The task *)
Record fingerprintTask := mkFingerprint {
  f_progress : Progress;
  f_sources : nat;
  f_done : nat;
  f_stats : Stats;
  (** the book, the source or nothing, and the code *)
  f_failures : list (bytes * option bytes * bytes);
}.
Definition newFingerprintTask : fingerprintTask := mkFingerprint NewProgress 0 0 (mkStats 0 0 0 0) [].
Definition f_with (f : Progress → Progress) (t : fingerprintTask) : fingerprintTask :=
  mkFingerprint (f (f_progress t)) (f_sources t) (f_done t) (f_stats t) (f_failures t).
Definition count_source (t : fingerprintTask) : fingerprintTask :=
  mkFingerprint (f_progress t) (S (f_sources t)) (f_done t) (f_stats t) (f_failures t).
Definition count_done (t : fingerprintTask) : fingerprintTask :=
  mkFingerprint (f_progress t) (f_sources t) (S (f_done t)) (f_stats t) (f_failures t).
Definition keep_stats (c : Cache) (t : fingerprintTask) : fingerprintTask :=
  mkFingerprint (f_progress t) (f_sources t) (f_done t) (stats c) (f_failures t).
Definition fingerprint_code (e : error) : bytes :=
  if errors_Is e ErrBookNotFound || errors_Is e ErrSourceNotFound then str "not_found"
  else if errors_Is e ErrUnsupportedBookSchemaVersion || errors_Is e ErrUnsupportedSourceSchemaVersion
  then str "unsupported_schema" else str "fingerprint_failed".
(** [func (t *fingerprintSourcesTask) recordFailure] *)
Definition recordFailure (bookID : bytes) (sourceID : option bytes) (e : error) (t : fingerprintTask) : fingerprintTask :=
  mkFingerprint (f_progress t) (f_sources t) (f_done t) (f_stats t) (f_failures t ++ [(bookID, sourceID, fingerprint_code e)]).

Section task.
Context `{UnicodeCase, TimeText, TimeNano, Machine, Digest, ShelfEnv, AppVersion, TextNorm} (ctx_done : nat → bool).
(** [func (t *fingerprintSourcesTask) fingerprintBook]: each source is opened
    again when its turn comes. *)
Fixpoint fingerprint_sources (force : bool) (bookID : bytes) (b : Book) (sourceIDs : list bytes) (t : fingerprintTask) (c : Cache) :
    M Shelf (fingerprintTask * Cache) :=
  match sourceIDs with
  | [] => mret (t, c)
  | sourceID :: rest =>
      got ← try (lift (GetSource b sourceID));
      match got with
      | Err e => fingerprint_sources force bookID b rest (recordFailure bookID (Some sourceID) e (count_source t)) c
      | Ok source =>
          if negb (HoldsText source) then fingerprint_sources force bookID b rest t c else
          let t := count_source t in
          resolved ← try (lift (resolve b source BuildFingerprint force c));
          match resolved with
          | Ok (Ok _, c) => fingerprint_sources force bookID b rest (count_done t) c
          | Ok (Err e, c) => fingerprint_sources force bookID b rest (recordFailure bookID (Some sourceID) e t) c
          | Err e => fingerprint_sources force bookID b rest (recordFailure bookID (Some sourceID) e t) c
          end
      end
  end.
Definition fingerprintBook (force : bool) (bookID : bytes) (t : fingerprintTask) (c : Cache) : M Shelf (fingerprintTask * Cache) :=
  got ← try (GetBook bookID);
  match got with
  | Err e => mret (recordFailure bookID None e t, c)
  | Ok b =>
      listed ← try (lift (ListSource b));
      match listed with
      | Err e => mret (recordFailure bookID None e t, c)
      | Ok sources => fingerprint_sources force bookID b (source_id <$> sources) t c
      end
  end.
(** [func (t *fingerprintSourcesTask) Run], with [save] and
    [cancelKeepingWork] *)
Fixpoint fingerprint_loop (force : bool) (i : nat) (l : list bytes) (t : fingerprintTask) (c : Cache) : M Shelf (outcome fingerprintTask) :=
  match l with
  | [] =>
      let t := keep_stats c t in
      saved ← try (SaveFingerprintCache c);
      match saved with
      | Err e => mret (f_with (SetStatus StatusFailed) t, Some e)
      | Ok _ => mret (f_with (settleFinishedSweep (length (f_failures t))) t, None)
      end
  | bookID :: l =>
      if ctx_done i then
        saved ← try (SaveFingerprintCache c);
        mret (f_with (SetStatus StatusPartiallyCompleted) (keep_stats c t), Some Cancelled)
      else
        tc ← fingerprintBook force bookID t c;
        fingerprint_loop force (S i) l (f_with Advance tc.1) tc.2
  end.
Definition RunFingerprintSources (force : bool) (visible : VisibleBooks) (t : fingerprintTask) : M Shelf (outcome fingerprintTask) :=
  let t := f_with (SetStatus StatusRunning) t in
  listed ← try ListBooks;
  match listed with
  | Err e => mret (f_with (SetStatus StatusFailed) t, Some e)
  | Ok books =>
      opened ← try (OpenFingerprintCache FingerprintAlgo);
      match opened with
      | Err e => mret (f_with (SetStatus StatusFailed) t, Some e)
      | Ok c =>
          let l := (λ b, ID (meta b)) <$> Only visible books in
          fingerprint_loop force 0 l (f_with (SetTotal (Z.of_nat (length l))) t) c
      end
  end.
End task.

(** ** Comparing what is recorded *)
Record bookSketch := mkBookSketch { bookID : bytes; normMD5 : bytes; normChars : Z; sketch : Sketch.Sketch }.
Record similarPair := mkPair {
  pA : bytes; pB : bytes; pJaccard : F64.float64; ContainmentA : F64.float64; ContainmentB : F64.float64;
  NormCharsA : Z; NormCharsB : Z; Relation : bytes;
}.
Definition ratio (n d : Z) : F64.float64 := F64.div (F64.of_int n) (F64.of_int d).
Definition defaultSimilarFloor : F64.float64 := ratio 15 100.
Definition subsetContainmentThreshold : F64.float64 := ratio 95 100.
Definition subsetJaccardCeiling : F64.float64 := ratio 9 10.
Definition nearIdenticalThreshold : F64.float64 := ratio 85 100.
(** [func classifyRelation] *)
Definition classifyRelation (sameNormMD5 : bool) (jaccard maxContainment : F64.float64) : bytes :=
  if sameNormMD5 then str "identical_after_normalize" else
  if F64.leb subsetContainmentThreshold maxContainment && F64.ltb jaccard subsetJaccardCeiling then str "subset" else
  if F64.leb nearIdenticalThreshold jaccard then str "near_identical" else str "same_source".
(** [func buildSimilarPairs] *)
Definition print_le (a b : bookSketch) : Prop := str_le (bookID a) (bookID b).
#[export] Instance print_le_dec a b : Decision (print_le a b).
Proof. unfold print_le, str_le. apply _. Defined.
Definition compare_pair (floor : F64.float64) (a b : bookSketch) : option similarPair :=
  if F64.ltb (Sketch.MaxJaccard (Sketch.Distinct (sketch a)) (Sketch.Distinct (sketch b))) floor then None else
  let jaccard := Sketch.Jaccard (sketch a) (sketch b) in
  if F64.ltb jaccard floor then None else
  let '(ca, cb) := Sketch.ContainmentFrom (sketch a) (sketch b) jaccard in
  Some (mkPair (bookID a) (bookID b) jaccard ca cb (normChars a) (normChars b)
          (classifyRelation (bool_decide (normMD5 a = normMD5 b)) jaccard (F64.fmax ca cb))).
Fixpoint pairs_of (floor : F64.float64) (l : list bookSketch) : list similarPair :=
  match l with
  | [] => []
  | a :: l => omap (compare_pair floor a) l ++ pairs_of floor l
  end.
Definition buildSimilarPairs (prints : list bookSketch) (floor : F64.float64) : list similarPair :=
  pairs_of floor (merge_sort print_le prints).
(** [func pairwiseMergeWork] *)
Definition pairwiseMergeWork (prints : list bookSketch) : Z :=
  (Z.of_nat (length prints) - 1) * foldr (λ p n, Z.of_nat (length (Sketch.Values (sketch p))) + n)%Z 0%Z prints.
Definition similarWorkBudget : Z := 2 ^ 30.
Definition similarMergeStepsPerSecond : Z := 2 ^ 25.

(** [func withoutImageBooks], [func recordedSketches] *)
Definition withoutImageBooks (books : list BookListing) : list BookListing :=
  filter (λ l, LSourceFormat l ≠ BookFormatImages) books.
Definition recorded_sketch (c : Cache) (l : BookListing) : option bookSketch :=
  let m := meta (LBook l) in
  match LookupRecorded c (ID m) (CurrentSource m) with
  | None => None
  | Some entry =>
      match SketchCodec.Decode (ESketch entry) with
      | Err _ => None
      | Ok decoded => Some (mkBookSketch (ID m) (NormMD5 entry) (NormChars entry) decoded)
      end
  end.
Definition recordedSketches (c : Cache) (books : list BookListing) : list bookSketch := omap (recorded_sketch c) books.

(** What the handler answers. *)
Inductive similarAnswer :=
  | SimilarPairs (l : list similarPair)
  | TooLarge (total fingerprinted : nat) (pairs work seconds : Z).
Class FloatText := ParseFloat : bytes → option F64.float64.

Section handlers.
Context `{UnicodeCase, TimeText, TimeNano, Machine, Digest, ShelfEnv, AppEnv, AppVersion, TextNorm, FloatText}.
(** [func parseSimilarFloor] *)
Definition parseSimilarFloor (r : Request) : option F64.float64 :=
  let raw := Query r (str "floor") in
  if decide (raw = []) then Some defaultSimilarFloor else
  match ParseFloat raw with
  | None => None
  | Some floor =>
      if F64.is_nan floor || F64.is_inf floor || F64.ltb floor F64.zero || F64.ltb F64.one floor then None else Some floor
  end.
Definition findSimilarBooks (r : Request) (shelf_id : bytes) : H similarAnswer :=
  shelfID ← resolveShelf shelf_id;
  floor ← or_answer (parseSimilarFloor r) (http_Error StatusBadRequest);
  let confirmed := bool_decide (Query r (str "confirm") = str "1") in
  listings ← list_visible shelfID;
  let books := withoutImageBooks listings in
  opened ← on_shelf shelfID (OpenFingerprintCache FingerprintAlgo);
  c ← or_err opened;
  let prints := recordedSketches c books in
  let work := pairwiseMergeWork prints in
  if (similarWorkBudget <? work)%Z && negb confirmed then
    let n := Z.of_nat (length prints) in
    mret (TooLarge (length books) (length prints) (n * (n - 1) / 2)%Z work
            ((work + similarMergeStepsPerSecond - 1) / similarMergeStepsPerSecond)%Z)
  else mret (SimilarPairs (buildSimilarPairs prints floor)).
Definition getFingerprintStatus (shelf_id : bytes) : H Coverage :=
  shelfID ← resolveShelf shelf_id;
  listings ← list_visible shelfID;
  let refs := (λ l, (ID (meta (LBook l)), CurrentSource (meta (LBook l)))) <$> withoutImageBooks listings in
  got ← on_shelf shelfID (FingerprintCoverageFor FingerprintAlgo refs);
  or_err got.
End handlers.

(** ** The task accounts for every source *)
Section accounts.
Context `{UnicodeCase, TimeText, TimeNano, Machine, Digest, ShelfEnv, AppVersion, TextNorm} (ctx_done : nat → bool).

(** Every source the task took up was fingerprinted or is among the failures,
    and these name books its client may see only. *)
Record accounts (v : VisibleBooks) (t : fingerprintTask) : Prop := {
  ac_sources : f_sources t = f_done t + length (filter (λ f : bytes * option bytes * bytes, is_Some f.1.2) (f_failures t));
  ac_visible : Forall (λ f : bytes * option bytes * bytes, Allows v f.1.1 = true) (f_failures t);
}.
Lemma accounts_with v f t : accounts v t → accounts v (f_with f t).
Proof. intros [? ?]. by split. Qed.
Lemma accounts_stats v c t : accounts v t → accounts v (keep_stats c t).
Proof. intros [? ?]. by split. Qed.
Lemma accounts_done v t : accounts v t → accounts v (count_done (count_source t)).
Proof. intros [E ?]. split; simpl; [by rewrite E|done]. Qed.
Lemma accounts_failed v id sid e t : Allows v id = true → accounts v t → accounts v (recordFailure id (Some sid) e (count_source t)).
Proof.
  intros Hv [E Hf]. split; simpl.
  - rewrite filter_app, length_app, filter_cons_True by eauto. rewrite filter_nil, E. simpl. lia.
  - apply Forall_app. split; [done|]. by repeat constructor.
Qed.
Lemma accounts_book_failed v id e t : Allows v id = true → accounts v t → accounts v (recordFailure id None e t).
Proof.
  intros Hv [E Hf]. split; simpl.
  - rewrite filter_app, length_app, filter_cons_False by (by intros [? [=]]). rewrite filter_nil, E. simpl. lia.
  - apply Forall_app. split; [done|]. by repeat constructor.
Qed.
#[local] Hint Resolve accounts_with accounts_stats accounts_done accounts_failed accounts_book_failed : core.

Definition counted {S : Type} (v : VisibleBooks) (t : fingerprintTask) (m : M S (fingerprintTask * Cache)) : Prop :=
  ∀ s, ∃ t' c', (m s).1 = Ok (t', c') ∧ accounts v t' ∧ f_progress t' = f_progress t.
Lemma counted_ret {S : Type} v t t' c : accounts v t' → f_progress t' = f_progress t → counted (S := S) v t (mret (t', c)).
Proof. intros ? ? s. by exists t', c. Qed.
Lemma counted_try {S A : Type} v t (m : M S A) (k : result error A → M S (fingerprintTask * Cache)) :
  (∀ r, counted v t (k r)) → counted v t (r ← try m; k r).
Proof. intros Hk s. unfold try, mbind, M_bind. destruct (m s) as [r s']. apply (Hk r s'). Qed.
Lemma counted_sources v force id b l : Allows v id = true → ∀ t t0 c, accounts v t → f_progress t = f_progress t0 →
  counted v t0 (fingerprint_sources force id b l t c).
Proof.
  intros Hv. induction l as [|sid l IH]; intros t t0 c Ht Hp; simpl; [by apply counted_ret|].
  apply counted_try. intros [src|e]; [|apply IH; auto].
  destruct (negb (HoldsText src)); [by apply IH|]. apply counted_try. intros [[[entry|e] c']|e]; apply IH; auto.
Qed.
Lemma counted_book v force id t c : Allows v id = true → accounts v t → counted v t (fingerprintBook force id t c).
Proof.
  intros Hv Ht. apply counted_try. intros [b|e]; [|apply counted_ret; auto].
  apply counted_try. intros [l|e]; [by apply counted_sources|apply counted_ret; auto].
Qed.

(** How a run of the task ends. *)
Definition accounted (v : VisibleBooks) (m : M Shelf (outcome fingerprintTask)) : Prop :=
  ∀ s, ∃ t e, (m s).1 = Ok (t, e) ∧ accounts v t ∧ IsTerminal (status (f_progress t)) = true ∧
    (e = None → done (f_progress t) = total (f_progress t) ∧ (status (f_progress t) = StatusCompleted ↔ f_failures t = [])).
Lemma accounted_try {A : Type} v (m : M Shelf A) (k : result error A → M Shelf (outcome fingerprintTask)) :
  (∀ r, accounted v (k r)) → accounted v (r ← try m; k r).
Proof. intros Hk s. unfold try, mbind, M_bind. destruct (m s) as [r s']. apply (Hk r s'). Qed.
Lemma accounted_failed v t e : accounts v t → accounted v (mret (f_with (SetStatus StatusFailed) t, Some e)).
Proof. intros Ht s. eexists _, _. split; [done|]. split; [by apply accounts_with|]. split; [done|]. by intros [=]. Qed.
Lemma accounted_loop v force l : Forall (λ id, Allows v id = true) l → ∀ i t c, accounts v t →
  (done (f_progress t) + Z.of_nat (length l) = total (f_progress t))%Z →
  accounted v (fingerprint_loop ctx_done force i l t c).
Proof.
  induction 1 as [|id l Hid Hl IH]; intros i t c Ht Hn; simpl.
  - apply accounted_try. intros [c'|e]; [|apply accounted_failed; auto].
    intros s. eexists _, _. split; [done|]. split; [auto|]. simpl. unfold settleFinishedSweep. simpl. split; [by case_match|].
    intros _. split; [simpl in Hn; lia|]. destruct (f_failures t); simpl; [done|]. split; by intros.
  - destruct (ctx_done i).
    + apply accounted_try. intros r s. eexists _, _. split; [done|]. split; [auto|]. split; [done|]. by intros [=].
    + intros s. destruct (counted_book v force id t c Hid Ht s) as (t' & c' & E & Ht' & Hp).
      unfold mbind at 1, M_bind at 1. destruct (fingerprintBook force id t c s) as [r s']. simpl in E. subst r. simpl.
      apply (IH (S i) (f_with Advance t') c'); [auto|]. simpl in Hn |- *. rewrite Hp. unfold Advance.
      destruct (Z.ltb_spec (done (f_progress t)) (total (f_progress t))); simpl; lia.
Qed.
Lemma Only_allowed v books : Forall (λ id, Allows v id = true) ((λ b, ID (meta b)) <$> Only v books).
Proof.
  unfold Only, Allows. destruct (all v) eqn:Ha; [by apply Forall_true; intros|]. apply Forall_fmap, Forall_forall. simpl.
  intros b [Hb _]%list_elem_of_filter. exact Hb.
Qed.

(** Bringing the fingerprints up to date comes to an end that says what was
    done. On any shelf, whatever fails or is cancelled: the task settles; each
    source it took up was fingerprinted or is reported with a code, once; only
    books its client may see are reported; and when it ran to the end, all of
    them were worked off, and it is completed exactly when nothing failed. *)
Theorem RunFingerprint_accounts force v : accounted v (RunFingerprintSources ctx_done force v newFingerprintTask).
Proof.
  assert (accounts v (f_with (SetStatus StatusRunning) newFingerprintTask)) as Hstart by (split; [done|constructor]).
  apply accounted_try. intros [books|e]; [|by apply accounted_failed].
  apply accounted_try. intros [c|e]; [|by apply accounted_failed].
  apply accounted_loop; [apply Only_allowed|auto|]. simpl. rewrite length_fmap. lia.
Qed.
End accounts.

(** ** The pairs that are listed *)
Definition print_lt (a b : bookSketch) : Prop := str_lt (bookID a) (bookID b).
Lemma sorted_prints l : NoDup (bookID <$> l) → StronglySorted print_lt (merge_sort print_le l).
Proof. by apply sorted_by_key. Qed.
Lemma compare_pair_ids floor a b p : compare_pair floor a b = Some p → pA p = bookID a ∧ pB p = bookID b.
Proof. unfold compare_pair. repeat case_match; try done. by intros [= <-]. Qed.
Lemma elem_of_pairs floor l p : StronglySorted print_lt l →
  p ∈ pairs_of floor l ↔ ∃ a b, a ∈ l ∧ b ∈ l ∧ print_lt a b ∧ compare_pair floor a b = Some p.
Proof.
  induction 1 as [|a l Hs IH Ha]; simpl; [set_solver|]. rewrite elem_of_app, list_elem_of_omap, IH. rewrite Forall_forall in Ha. split.
  - intros [(b & Hb & Hp)|(x & y & Hx & Hy & Hlt & Hp)].
    + exists a, b. split_and!; [left|by right|by apply Ha|done].
    + exists x, y. split_and!; [by right|by right|done|done].
  - assert (∀ x y, print_lt x y → ¬ print_lt y x) as Hanti by (intros x y; apply str_lt_asymm).
    intros (x & y & Hx & Hy & Hlt & Hp). apply elem_of_cons in Hx as [->|Hx]; apply elem_of_cons in Hy as [->|Hy].
    + by destruct (Hanti a a).
    + left. by exists y.
    + destruct (Hanti x a Hlt). by apply Ha.
    + right. by exists x, y.
Qed.
Definition ids_of (p : similarPair) : bytes * bytes := (pA p, pB p).
Lemma NoDup_pairs floor l : StronglySorted print_lt l → NoDup (ids_of <$> pairs_of floor l).
Proof.
  assert (∀ x y, print_lt x y → bookID x ≠ bookID y) as Hne.
  { unfold print_lt. intros x y Hlt E. rewrite E in Hlt. by apply str_lt_irrefl in Hlt. }
  induction 1 as [|a l Hs IH Ha]; simpl; [constructor|]. rewrite fmap_app. apply NoDup_app. rewrite Forall_forall in Ha. split_and!; [| |done].
  - clear IH. induction Hs as [|b l Hs IH Hb]; [constructor|]. rewrite Forall_forall in Hb. simpl.
    assert (NoDup (ids_of <$> omap (compare_pair floor a) l)) as IHl by (apply IH; intros; apply Ha; by right).
    destruct (compare_pair floor a b) as [p|] eqn:Hp; [|done]. rewrite fmap_cons. constructor; [|done].
    intros (q & Eq & (c & Hc & Hq)%list_elem_of_omap)%list_elem_of_fmap.
    apply compare_pair_ids in Hp as [_ Ep], Hq as [_ Ec]. unfold ids_of in Eq. injection Eq as _ E.
    apply (Hne b c); [by apply Hb|congruence].
  - intros i (p & -> & (b & Hb & Hp)%list_elem_of_omap)%list_elem_of_fmap (q & Eq & Hq)%list_elem_of_fmap.
    apply elem_of_pairs in Hq as (x & y & Hx & _ & _ & Hq); [|done]. apply compare_pair_ids in Hp as [Ep _], Hq as [Eq' _].
    unfold ids_of in Eq. injection Eq as E _. apply (Hne a x); [by apply Ha|congruence].
Qed.

(** Which books are said to be alike. Over books with IDs of their own the
    list holds, once for each two books, in the order of their IDs, exactly
    the pairs whose sizes and whose sketches reach the floor, with the values
    [compare_pair] gives; it does not depend on the order in which the books
    came. *)
Theorem similar_pairs_exact prints floor : NoDup (bookID <$> prints) →
  (∀ p, p ∈ buildSimilarPairs prints floor ↔
     ∃ a b, a ∈ prints ∧ b ∈ prints ∧ str_lt (bookID a) (bookID b) ∧ compare_pair floor a b = Some p) ∧
  NoDup (ids_of <$> buildSimilarPairs prints floor) ∧
  ∀ prints', prints ≡ₚ prints' → buildSimilarPairs prints' floor = buildSimilarPairs prints floor.
Proof.
  intros Hn. pose proof (sorted_prints prints Hn) as Hs. unfold buildSimilarPairs. split_and!.
  - intros p. rewrite elem_of_pairs by done. by setoid_rewrite merge_sort_Permutation.
  - by apply NoDup_pairs.
  - intros prints' Hp. f_equal. apply (key_sorted_unique bookID); [|done|by rewrite !merge_sort_Permutation, Hp].
    apply sorted_prints. by rewrite <-Hp.
Qed.
(** Three books, given in another order than that of their IDs: two of them
    share half their shingles, the third shares nothing. *)
Definition example_prints : list bookSketch :=
  [mkBookSketch (str "c") (str "m3") 8 (Sketch.mkSketch 6 3 [7; 8; 9]%Z);
   mkBookSketch (str "b") (str "m2") 8 (Sketch.mkSketch 6 3 [1; 2; 4]%Z);
   mkBookSketch (str "a") (str "m1") 8 (Sketch.mkSketch 6 3 [1; 2; 3]%Z)].
Example example_pairs : ids_of <$> buildSimilarPairs example_prints defaultSimilarFloor = [(str "a", str "b")].
Proof. vm_compute. reflexivity. Qed.
Lemma similar_pairs_exact_witness :
  length (buildSimilarPairs example_prints defaultSimilarFloor) = 1 ∧
  (∀ p, p ∈ buildSimilarPairs example_prints defaultSimilarFloor ↔
     ∃ a b, a ∈ example_prints ∧ b ∈ example_prints ∧ str_lt (bookID a) (bookID b) ∧
       compare_pair defaultSimilarFloor a b = Some p) ∧
  NoDup (ids_of <$> buildSimilarPairs example_prints defaultSimilarFloor) ∧
  ∀ prints', example_prints ≡ₚ prints' →
    buildSimilarPairs prints' defaultSimilarFloor = buildSimilarPairs example_prints defaultSimilarFloor.
Proof.
  split; [vm_compute; reflexivity|]. apply (similar_pairs_exact example_prints defaultSimilarFloor).
  apply (bool_decide_unpack _). vm_compute. exact I.
Defined.
End Similar.
