(* ===== verification/DavClient.v ===== *)
(** * The WebDAV client: [src/internal/davfs/fs.go] and [errors.go]

    A remote shelf may live on a WebDAV server. [FS] is the Go struct with
    the requests it has sent; the server is the environment, which answers the
    [n]-th request as it likes ([answer]). [url.Parse] and what package
    [net/url] does to a parsed URL, the credential store and the decoder of
    XML are parameters; the timeouts of a request are part of the answer
    ([Broken]).

    [do] retries, follows redirects and renews the credential in one loop.
    [do_confined]: it ends after at most nine requests, all of them to the
    scheme and host of the URL the shelf was given. [Read_at_offset]: what a
    file reads at an offset is what the server's file holds there, however
    often the stream is opened anew. *)

From S2P Require Import Prelude Utf8 Strings Fs FsSpec CacheExport SketchCodec.

Module DavClient.
Import CacheFile.

(** ** URLs and what crosses the network *)
Record URL := mkURL {
  Scheme : bytes; Host : bytes; UPath : bytes; RawPath : bytes;
  HasUser : bool; ForceQuery : bool; RawQuery : bytes; Fragment : bytes;
}.
#[export] Instance URL_eq_dec : EqDecision URL.
Proof. solve_decision. Defined.
Class UrlText := {
  url_Parse : bytes → option URL;
  (** [URL.Parse], [URL.EscapedPath] and [url.PathEscape] *)
  Parse_from : URL → bytes → option URL;
  EscapedPath : URL → bytes;
  PathEscape : bytes → bytes;
  ToLower : bytes → bytes;
  (** [http.ParseTime] *)
  ParseTime : bytes → option Z;
}.
Record Request := mkRequest {
  Method : bytes; Target : URL; Range : option Z; Depth : bytes; Authorization : bytes;
}.
Record Response := mkResponse {
  StatusCode : Z; Location : bytes; ContentLength : Z; LastModified : option Z;
  (** the path of the URL that answered; the bytes of the body and whether
      it ends there or breaks off *)
  RPath : bytes; Body : bytes; whole : bool;
}.
(** A request is answered or breaks, for good when the context ended. *)
Inductive outcome := Answered (r : Response) | Broken (final : bool).

(** [type Error]: the status of an answer, or what broke the transport. *)
Record Error := mkError { Status : Z; transport : bool; ended : bool }.
Definition transportError (final : bool) : Error := mkError 0 true final.
Definition statusError (z : Z) : Error := mkError z false false.
Definition retryableStatus (z : Z) : bool := bool_decide (z ∈ [429; 500; 502; 503; 504]%Z).
(** [func isRetryable] *)
Definition isRetryable (e : Error) : bool :=
  if transport e then negb (ended e) else retryableStatus (Status e).
(** [func (e *Error) Unwrap]: what [errors.Is] finds first. *)
Definition Unwrap (e : Error) : error :=
  if decide (Status e = 404 ∨ Status e = 410)%Z then ENotExist else
  if decide (Status e = 401)%Z then ErrSourceUnauthorized else ErrSourceUnavailable.

Section parse.
Context `{UrlText}.
(** [func ParseURL] *)
Definition ParseURL (raw : bytes) : option URL :=
  match url_Parse (TrimSpace raw) with
  | None => None
  | Some u =>
      let scheme := ToLower (Scheme u) in
      if negb (bool_decide (scheme = str "http" ∨ scheme = str "https")) then None else
      if decide (Host u = []) then None else
      if HasUser u then None else
      if negb (bool_decide (RawQuery u = [])) || ForceQuery u || negb (bool_decide (Fragment u = [])) then None else
      let dir := HasSuffix (UPath u) (str "/") in
      let slashed (s : bytes) := if dir then s else s ++ str "/" in
      Some (mkURL scheme (ToLower (Host u)) (slashed (UPath u))
              (if decide (RawPath u = []) then [] else slashed (RawPath u)) false false [] [])
  end.
(** [func (f *FS) target] *)
Definition target (base : URL) (name : bytes) (dir : bool) : URL :=
  let escaped := EscapedPath base in
  if decide (name = str ".") then
    mkURL (Scheme base) (Host base) (UPath base) escaped (HasUser base) (ForceQuery base) (RawQuery base) (Fragment base)
  else
    let slash := if dir then str "/" else [] in
    mkURL (Scheme base) (Host base) (UPath base ++ name ++ slash)
      (escaped ++ Join (PathEscape <$> Split name "/"%char) (str "/") ++ slash)
      (HasUser base) (ForceQuery base) (RawQuery base) (Fragment base).
End parse.

(** ** The client *)
Record FS := mkFS {
  base : URL; username : bytes; has_secret : bool;
  credential : bytes; resolved : bool;
  (** the requests sent, the last one first *)
  sent : list Request;
  turn : nat;
}.
Class DavServer := {
  answer : nat → Request → outcome;
  secret : nat → option bytes;
  (** whether the pause before a retry ends before the context *)
  sleeps : nat → bool;
}.
Definition maxAttempts : nat := 3.
Definition maxRedirects : nat := 5.
Definition tick : M FS nat := λ s, (Ok (turn s), mkFS (base s) (username s) (has_secret s) (credential s) (resolved s) (sent s) (S (turn s))).
Definition set_credential (c : bytes) (s : FS) : FS :=
  mkFS (base s) (username s) (has_secret s) c true (sent s) (turn s).
Definition log (q : Request) (s : FS) : FS :=
  mkFS (base s) (username s) (has_secret s) (credential s) (resolved s) (q :: sent s) (turn s).
Definition errCredential : error := Msg "resolve WebDAV credential".
(** What ends a loop that ran out of its fuel, which none does. *)
Definition OutOfFuel : error := Msg "out of fuel".

Section client.
Context `{UrlText, DavServer}.

(** [func (f *FS) authorization] *)
Definition authorization (refresh : bool) : M FS bytes :=
  given ← gets has_secret;
  if negb given then mret [] else
  known ← gets resolved;
  (if negb known || refresh then
     k ← tick;
     match secret k with
     | None => throw errCredential
     | Some c => modify (set_credential (TrimSpace c))
     end
   else mret tt);;
  name ← gets username;
  c ← gets credential;
  mret (if decide (name = []) then str "Bearer " ++ c else str "Basic " ++ Base64.encode (name ++ str ":" ++ c)).
(** [func (f *FS) send] *)
Definition send (q : Request) : M FS outcome :=
  k ← tick;
  modify (log q);;
  mret (answer k q).
(** [func redirectTarget] *)
Definition redirectTarget (res : Response) (from : URL) : option URL :=
  if decide (StatusCode res ∉ [301; 302; 303; 307; 308]%Z) then None else
  match Parse_from from (Location res) with
  | None => None
  | Some loc =>
      if decide (Location res = [] ∨ Scheme loc ≠ Scheme from ∨ Host loc ≠ Host from) then None else Some loc
  end.
Definition sleep : M FS bool := k ← tick; mret (sleeps k).

(** [func (f *FS) do]: one turn of its loop ends the call, or goes on with
    the same attempt, or sleeps before the next one. *)
Inductive turn_of := Done (r : result Error Response) | Again (target : URL) (redirected refreshed : bool) | Failed (e : Error).
Definition do_turn (method : bytes) (t : URL) (range : option Z) (depth : bytes) (redirects : nat) (refreshed : bool) : M FS turn_of :=
  auth ← try (authorization false);
  match auth with
  | Err _ => mret (Done (Err (statusError 401)))
  | Ok auth =>
      res ← send (mkRequest method t range depth auth);
      match res with
      | Broken final => mret (Failed (transportError final))
      | Answered res =>
          if decide (StatusCode res / 100 = 2)%Z then mret (Done (Ok res)) else
          match (if decide (redirects < maxRedirects) then redirectTarget res t else None) with
          | Some next => mret (Again next true refreshed)
          | None =>
              given ← gets has_secret;
              if bool_decide (StatusCode res = 401)%Z && given && negb refreshed then
                fresh ← try (authorization true);
                mret (match fresh with
                      | Ok fresh => if decide (fresh = auth) then Failed (statusError (StatusCode res)) else Again t false true
                      | Err _ => Failed (statusError (StatusCode res))
                      end)
              else mret (Failed (statusError (StatusCode res)))
          end
      end
  end.
Fixpoint do_loop (fuel : nat) (method : bytes) (range : option Z) (depth : bytes)
    (attempt redirects : nat) (refreshed : bool) (t : URL) : M FS (result Error Response) :=
  match fuel with
  | 0 => throw OutOfFuel
  | S fuel =>
      out ← do_turn method t range depth redirects refreshed;
      match out with
      | Done r => mret r
      | Again next redirected refreshed =>
          do_loop fuel method range depth attempt (if redirected then S redirects else redirects) refreshed next
      | Failed e =>
          if bool_decide (attempt = maxAttempts) || negb (isRetryable e) then mret (Err e) else
          slept ← sleep;
          if (slept : bool) then do_loop fuel method range depth (S attempt) redirects refreshed t
          else mret (Err (transportError true))
      end
  end.
Definition do_fuel : nat := maxAttempts + maxRedirects + 1.
Definition do (method : bytes) (t : URL) (range : option Z) (depth : bytes) : M FS (result Error Response) :=
  do_loop do_fuel method range depth 1 0 false t.
End client.

(** ** Listings *)
Record davPropstat := mkPropstat { PStatus : bytes; Collection : bool; PLength : bytes; PModified : bytes }.
Record davResponse := mkDavResponse { Href : bytes; Propstats : list davPropstat }.
Class Multistatus := {
  (** [xml.Decoder.Decode] of the first [maxPropfindBytes] bytes *)
  multistatus : bytes → bool → option (list davResponse);
}.
Record fileInfo := mkInfo { name : bytes; dir : bool; size : Z; modTime : option Z }.
(** [path.Base] and [path.Dir] *)
Definition Base (p : bytes) : bytes :=
  if decide (p = []) then str "." else
  match List.filter (λ s, negb (bool_decide (s = []))) (Split p "/"%char) with
  | [] => str "/"
  | segs => default [] (last segs)
  end.
Definition Dir (p : bytes) : bytes :=
  let segs := Split p "/"%char in Clean (Join (take (length segs - 1) segs ++ [[]]) (str "/")).
(** [fs.ValidPath] *)
Definition ValidPath (p : bytes) : bool :=
  Utf8.ValidString p && (bool_decide (p = str ".") ||
    forallb (λ s, negb (bool_decide (s = [] ∨ s = str "." ∨ s = str ".."))) (Split p "/"%char)).
(** [func propInfo] *)
Section prop_info.
Context `{UrlText}.
Definition propInfo (name : bytes) (l : list davPropstat) : option fileInfo :=
  foldl (λ acc ps,
    match Fields (PStatus ps) with
    | _ :: code :: _ =>
        if decide (code = str "200") then
          let i := default (mkInfo name false 0 None) acc in
          Some (mkInfo name (dir i || Collection ps) (default (size i) (ParseInt (TrimSpace (PLength ps))))
                  (match ParseTime (TrimSpace (PModified ps)) with Some t => Some t | None => modTime i end))
        else acc
    | _ => acc
    end) None l.
End prop_info.
Definition name_le (a b : fileInfo) : Prop := str_le (name a) (name b).
#[export] Instance name_le_dec a b : Decision (name_le a b).
Proof. unfold name_le, str_le. apply _. Defined.

Section listing.
Context `{UrlText, DavServer, Multistatus}.
Definition errInvalid : error := Msg "invalid path".
Definition errNotDirectory : error := Msg "not a directory".
(** What a reply describes: the path asked for, and what lies right below. *)
Definition described (self : bytes) (wanted : bytes) (deep : bool) (acc : option fileInfo * list fileInfo) (r : davResponse) :
    option fileInfo * list fileInfo :=
  match url_Parse (Href r) with
  | None => acc
  | Some u =>
      let hrefPath := TrimSuffix (UPath u) (str "/") in
      match propInfo (Base hrefPath) (Propstats r) with
      | None => acc
      | Some entry =>
          if decide (hrefPath = self) then (Some (mkInfo (Base wanted) (dir entry) (size entry) (modTime entry)), acc.2)
          else if deep && bool_decide (Dir hrefPath = self) then (acc.1, acc.2 ++ [entry]) else acc
      end
  end.
(** [func (f *FS) propfind]; the error of a path that is not one, and of a
    reply that cannot be used, is any other than [ENotExist]. *)
Definition propfind (wanted : bytes) (deep : bool) : M FS (fileInfo * list fileInfo) :=
  if negb (ValidPath wanted) then throw errInvalid else
  b ← gets base;
  res ← do (str "PROPFIND") (target b wanted deep) None (if deep then str "1" else str "0");
  match res with
  | Err e => throw (Unwrap e)
  | Ok res =>
      if decide (StatusCode res ≠ 207%Z) then throw (Unwrap (statusError (StatusCode res))) else
      match multistatus (Body res) (whole res) with
      | None => throw ErrSourceUnavailable
      | Some replies =>
          let found := foldl (described (TrimSuffix (RPath res) (str "/")) wanted deep) (None, []) replies in
          match found.1 with
          | None => throw ErrSourceUnavailable
          | Some info => mret (info, merge_sort name_le found.2)
          end
      end
  end.
(** [func (f *FS) Stat], [func (f *FS) ReadDir] *)
Definition Stat (wanted : bytes) : M FS fileInfo := found ← propfind wanted false; mret found.1.
Definition ReadDir (wanted : bytes) : M FS (list fileInfo) :=
  found ← propfind wanted true;
  if negb (dir found.1) then throw errNotDirectory else mret found.2.

(** ** Files *)

(** [type file]; the body is what is left of the stream and whether it ends
    well. *)
Record file := mkFile { fname : bytes; finfo : fileInfo; fbody : option (bytes * bool); offset : Z }.
Definition with_info (i : fileInfo) (f : file) : file := mkFile (fname f) i (fbody f) (offset f).
Definition with_body (b : option (bytes * bool)) (f : file) : file := mkFile (fname f) (finfo f) b (offset f).
(** [func (f *file) start]: [io.CopyN] drops what lies before the offset when
    the server sent the whole file. *)
Definition start (f : file) : M FS file :=
  b ← gets base;
  res ← do (str "GET") (target b (fname f) false) (if decide (0 < offset f)%Z then Some (offset f) else None) [];
  match res with
  | Err e => throw (Unwrap e)
  | Ok res =>
      let skip := if decide (StatusCode res ≠ 206 ∧ 0 < offset f)%Z then offset f else 0%Z in
      let f := if decide (offset f = 0)%Z
               then with_info (mkInfo (name (finfo f)) (dir (finfo f)) (ContentLength res)
                      (match LastModified res with Some t => Some t | None => modTime (finfo f) end)) f
               else f in
      if decide (Z.of_nat (length (Body res)) < skip)%Z then throw ErrSourceUnavailable
      else mret (with_body (Some (drop (Z.to_nat skip) (Body res), whole res)) f)
  end.
(** [func (f *FS) Open] *)
Definition Open (wanted : bytes) : M FS file :=
  if negb (ValidPath wanted) then throw errInvalid else
  start (mkFile wanted (mkInfo (Base wanted) false (-1) None) None 0).
(** [func (f *file) Stat] *)
Definition file_Stat (f : file) : M FS (fileInfo * file) :=
  if decide (size (finfo f) < 0)%Z then
    i ← Stat (fname f);
    let i := mkInfo (name (finfo f)) (dir (finfo f)) (size i) (match modTime (finfo f) with Some t => Some t | None => modTime i end) in
    mret (i, with_info i f)
  else mret (finfo f, f).
(** [func (f *file) Read] into [n] bytes: the stream delivers some of what is
    left ([pieces]), and its end once nothing is. *)
Class Pieces := piece : nat → nat.
Inductive read_end := More | EOF | Cut.
Definition read_body (pieces : nat) (n : nat) (f : file) (rest : bytes) (w : bool) : (bytes * read_end) * file :=
  let k := Nat.min n (Nat.max 1 pieces) in
  match rest with
  | [] => (([], if w then EOF else Cut), f)
  | _ => ((take k rest, More), mkFile (fname f) (finfo f) (Some (drop k rest, w)) (offset f + Z.of_nat (length (take k rest))))
  end.
Definition Read `{Pieces} (n : nat) (f : file) : M FS ((bytes * read_end) * file) :=
  k ← tick;
  match fbody f with
  | Some (rest, w) => mret (read_body (piece k) n f rest w)
  | None =>
      if decide (0 ≤ size (finfo f) ∧ size (finfo f) ≤ offset f)%Z then mret (([], EOF), f) else
      f ← start f;
      match fbody f with
      | Some (rest, w) => mret (read_body (piece k) n f rest w)
      | None => mret (([], EOF), f)
      end
  end.
(** [func (f *file) Seek] *)
Inductive whence := SeekStart | SeekCurrent | SeekEnd.
Definition Seek (o : Z) (w : whence) (f : file) : M FS (Z * file) :=
  found ← (match w with
           | SeekStart => mret (o, f)
           | SeekCurrent => mret ((o + offset f)%Z, f)
           | SeekEnd => r ← file_Stat f; mret ((o + size (finfo r.2))%Z, r.2)
           end);
  let '(o, f) := found in
  if decide (o < 0)%Z then throw errInvalid else
  mret (o, if decide (o = offset f) then f else mkFile (fname f) (finfo f) None o).
(** [func (f *file) closeBody], [Close] *)
Definition closeBody (f : file) : file := with_body None f.
End listing.

(** ** Every call is short and stays where the shelf is *)
Section confined.
Context `{UrlText, DavServer}.

(** [sends P n s s']: at most [n] requests were sent since, all of them as
    [P] says, and nothing but the credential changed besides. *)
Record sends (P : Request → Prop) (n : nat) (s s' : FS) : Prop := {
  sends_log : ∃ l, sent s' = l ++ sent s ∧ length l ≤ n ∧ Forall P l;
  sends_base : base s' = base s;
  sends_user : username s' = username s;
  sends_given : has_secret s' = has_secret s;
}.
Lemma sends_none P s s' : sent s' = sent s → base s' = base s → username s' = username s → has_secret s' = has_secret s →
  sends P 0 s s'.
Proof. intros. split; [|done..]. exists []. repeat split; auto. Qed.
Lemma sends_refl P n s : sends P n s s.
Proof. split; [|done..]. exists []. repeat split; [simpl; lia|auto]. Qed.
Lemma sends_trans P n m s1 s2 s3 : sends P n s1 s2 → sends P m s2 s3 → sends P (n + m) s1 s3.
Proof.
  intros [(l1 & E1 & ? & ?) ???] [(l2 & E2 & ? & ?) ???]. split; [|congruence..].
  exists (l2 ++ l1). rewrite E2, E1, app_assoc, length_app. split_and!; [done|lia|by apply Forall_app].
Qed.
Lemma sends_mono (P P' : Request → Prop) n m s s' : n ≤ m → (∀ q, P q → P' q) → sends P n s s' → sends P' m s s'.
Proof.
  intros Hn HP [(l & E & ? & Hl) ???]. split; [|done..]. exists l. split_and!; [done|lia|]. by eapply Forall_impl.
Qed.
Lemma sends_then (P : Request → Prop) n s1 s2 s3 : sends P n s1 s2 → sends (λ _, False) 0 s2 s3 → sends P n s1 s3.
Proof.
  intros H1 H2. rewrite <-(Nat.add_0_r n). eapply sends_trans; [exact H1|]. eapply sends_mono; [| |exact H2]; [done|done].
Qed.
#[local] Hint Resolve sends_refl : core.

Lemma wp_tick (Q : result error nat → FS → Prop) s :
  (∀ s', sends (λ _, False) 0 s s' → sent s' = sent s → credential s' = credential s → resolved s' = resolved s → Q (Ok (turn s)) s') → wp tick Q s.
Proof. intros HQ. apply HQ; [by apply sends_none|done..]. Qed.
Lemma wp_authorization refresh s :
  wp (authorization refresh) (λ _ s', sends (λ _, False) 0 s s') s.
Proof.
  unfold authorization. apply wp_bind, wp_gets. destruct (has_secret s); [|by apply wp_ret]. simpl.
  apply wp_bind, wp_gets. apply wp_bind. destruct (_ || refresh).
  - apply wp_bind, wp_tick. intros s1 Hn1 E1 _ _. destruct (secret (turn s)); [|by apply wp_throw].
    apply wp_modify, wp_bind, wp_gets, wp_bind, wp_gets, wp_ret.
    destruct Hn1. by apply sends_none.
  - apply wp_ret, wp_bind, wp_gets, wp_bind, wp_gets, wp_ret. auto.
Qed.
(** A redirect is followed only within the scheme and host it comes from. *)
Lemma redirectTarget_confined res from next :
  redirectTarget res from = Some next → Scheme next = Scheme from ∧ Host next = Host from.
Proof.
  unfold redirectTarget. case_decide; [done|]. destruct (Parse_from _ _) as [loc|]; [|done].
  case_decide as Hl; [done|]. intros [= <-]. split; apply dec_stable; tauto.
Qed.

(** What one call asks, of URLs in [K]; where a redirect leads is in [K]
    again. *)
Section within.
Context (K : URL → Prop).
Context (K_redirect : ∀ k q res next, K (Target q) → answer k q = Answered res → redirectTarget res (Target q) = Some next → K next).
Record asked (method : bytes) (range : option Z) (depth : bytes) (q : Request) : Prop := {
  asked_method : Method q = method;
  asked_range : Range q = range;
  asked_depth : Depth q = depth;
  asked_target : K (Target q);
}.
(** The last request sent was answered with [res]. *)
Definition answered (method : bytes) (range : option Z) (depth : bytes) (s : FS) (res : Response) : Prop :=
  (StatusCode res / 100 = 2)%Z ∧ ∃ q l k, sent s = q :: l ∧ asked method range depth q ∧ answer k q = Answered res.

Lemma wp_do_turn method t range depth redirects refreshed s : K t →
  wp (do_turn method t range depth redirects refreshed) (λ r s',
    sends (asked method range depth) 1 s s' ∧
    match r with
    | Ok (Done (Ok res)) => answered method range depth s' res
    | Ok (Done (Err e)) => e = statusError 401
    | Ok (Again next true refreshed') => redirects < maxRedirects ∧ refreshed' = refreshed ∧ K next
    | Ok (Again next false refreshed') => next = t ∧ refreshed = false ∧ refreshed' = true
    | Ok (Failed _) => True
    | Err _ => False
    end) s.
Proof.
  intros HK. unfold do_turn. apply wp_bind, wp_try. eapply wp_mono; [apply wp_authorization|]. intros [auth|e] s1 Hn1; simpl.
  2: { apply wp_ret. split; [|done]. eapply sends_mono; [| |exact Hn1]; [lia|done]. }
  unfold send. apply wp_bind, wp_bind, wp_tick. intros s2 Hn2 E2 _ _. apply wp_bind, wp_modify, wp_ret.
  set (q := mkRequest method t range depth auth).
  assert (asked method range depth q) as Hasked by done.
  assert (sends (asked method range depth) 1 s (log q s2)) as Hq.
  { destruct Hn1 as [(l1 & E1 & Hl1 & HF) ???], Hn2. split; simpl; [|congruence..]. exists [q].
    destruct l1; [|simpl in Hl1; lia]. rewrite E2, E1. split_and!; [done|simpl; lia|]. constructor; [done|constructor]. }
  destruct (answer (turn s1) q) as [res|final] eqn:Ha; [|by apply wp_ret].
  case_decide as H2xx.
  { apply wp_ret. split; [done|]. split; [done|]. by exists q, (sent s2), (turn s1). }
  assert (wp (given ← gets has_secret;
              if bool_decide (StatusCode res = 401)%Z && given && negb refreshed then
                fresh ← try (authorization true);
                mret (match fresh with
                      | Ok fresh => if decide (fresh = auth) then Failed (statusError (StatusCode res)) else Again t false true
                      | Err _ => Failed (statusError (StatusCode res))
                      end)
              else mret (Failed (statusError (StatusCode res))))
    (λ r s', sends (asked method range depth) 1 s s' ∧
       match r with Ok (Failed _) => True | Ok (Again next false b) => next = t ∧ refreshed = false ∧ b = true | _ => False end)
    (log q s2)) as Hrenew.
  { apply wp_bind, wp_gets. destruct (_ && negb refreshed) eqn:Hf; [|by apply wp_ret].
    apply wp_bind, wp_try. eapply wp_mono; [apply wp_authorization|]. intros r s3 Hn3. apply wp_ret.
    split; [by eapply sends_then|]. apply andb_true_iff in Hf as [_ Hf%negb_true_iff].
    destruct r; [case_decide|]; done. }
  destruct (decide (redirects < maxRedirects)) as [Hr|_].
  - destruct (redirectTarget res t) as [next|] eqn:Hn.
    { apply wp_ret. split; [done|]. split_and!; [done|done|]. by apply (K_redirect (turn s1) q res). }
    eapply wp_mono; [exact Hrenew|]. intros [[| ? [|] ?|]|] ? [? ?]; done.
  - eapply wp_mono; [exact Hrenew|]. intros [[| ? [|] ?|]|] ? [? ?]; done.
Qed.

(** The requests a call may still send; each turn of the loop spends one. *)
Definition left (attempt redirects : nat) (refreshed : bool) : nat :=
  S (maxAttempts - attempt) + (maxRedirects - redirects) + (if refreshed then 0 else 1).
Lemma wp_do_loop method range depth fuel : ∀ attempt redirects refreshed t s,
  1 ≤ attempt ≤ maxAttempts → redirects ≤ maxRedirects → left attempt redirects refreshed ≤ fuel → K t →
  wp (do_loop fuel method range depth attempt redirects refreshed t) (λ r s',
    sends (asked method range depth) (left attempt redirects refreshed) s s' ∧
    match r with
    | Ok (Ok res) => answered method range depth s' res
    | Ok (Err _) => True
    | Err _ => False
    end) s.
Proof.
  induction fuel as [|fuel IH]; intros attempt redirects refreshed t s Ha Hr Hf HK; [unfold left in Hf; lia|].
  simpl. apply wp_bind. eapply wp_mono; [by apply wp_do_turn|]. intros [out|e] s1 [Hs1 Hout]; [|done].
  assert (∀ n s2 s3, S n ≤ left attempt redirects refreshed →
    sends (asked method range depth) 1 s s2 → sends (asked method range depth) n s2 s3 →
    sends (asked method range depth) (left attempt redirects refreshed) s s3) as Hgo.
  { intros n s2 s3 Hn Hs2 Hs3. eapply sends_mono; [exact Hn|done|]. by eapply (sends_trans _ 1). }
  destruct out as [r|next redirected refreshed'|e].
  - apply wp_ret. split; [|by destruct r]. eapply sends_mono; [| |exact Hs1]; [unfold left; lia|done].
  - destruct redirected.
    + destruct Hout as (? & -> & ?). eapply wp_mono; [apply IH; unfold left in *; auto; lia|].
      intros r s2 [Hs2 Hres]. split; [|done]. eapply Hgo; [|exact Hs1|exact Hs2]. unfold left; lia.
    + destruct Hout as (-> & -> & ->). eapply wp_mono; [apply IH; unfold left in *; auto; lia|].
      intros r s2 [Hs2 Hres]. split; [|done]. eapply Hgo; [|exact Hs1|exact Hs2]. unfold left; lia.
  - assert (sends (asked method range depth) (left attempt redirects refreshed) s s1) as Hnow
      by (eapply sends_mono; [| |exact Hs1]; [unfold left; lia|done]).
    destruct (_ || _) eqn:Hlast; [by apply wp_ret|]. apply orb_false_iff in Hlast as [Hlast%bool_decide_eq_false _].
    unfold sleep. apply wp_bind, wp_bind, wp_tick. intros s2 Hn2 _ _ _. apply wp_ret.
    assert (sends (asked method range depth) 1 s s2) as H12 by (by eapply sends_then).
    destruct (sleeps _).
    + eapply wp_mono; [apply IH; unfold left in *; auto; lia|]. intros r s3 [Hs3 Hres]. split; [|done].
      eapply Hgo; [|exact H12|exact Hs3]. unfold left; lia.
    + apply wp_ret. split; [|done]. eapply sends_mono; [| |exact H12]; [unfold left; lia|done].
Qed.
Lemma wp_do method t range depth s : K t →
  wp (do method t range depth) (λ r s', sends (asked method range depth) 9 s s' ∧
    match r with Ok (Ok res) => answered method range depth s' res | Ok (Err _) => True | Err _ => False end) s.
Proof. apply wp_do_loop; unfold left, do_fuel, maxAttempts, maxRedirects; lia. Qed.
End within.
End confined.

(** ** The operations of a file system *)
Section operations.
Context `{UrlText, DavServer, Multistatus, Pieces}.
Section within.
Context (K : URL → Prop).
Context (K_redirect : ∀ k q res next, K (Target q) → answer k q = Answered res → redirectTarget res (Target q) = Some next → K next).

Definition reads_only (q : Request) : Prop := (Method q = str "GET" ∨ Method q = str "PROPFIND") ∧ K (Target q).
Lemma Unwrap_defined e : Unwrap e ≠ OutOfFuel.
Proof. unfold Unwrap. by repeat case_decide. Qed.
Lemma reads_only_get range depth q : asked K (str "GET") range depth q → reads_only q.
Proof. intros [? ? ? ?]. split; auto. Qed.
Lemma reads_only_propfind range depth q : asked K (str "PROPFIND") range depth q → reads_only q.
Proof. intros [? ? ? ?]. split; auto. Qed.

(** What a reply described, for the call that asked. *)
Definition replied (deep : bool) (wanted : bytes) (s : FS) (found : fileInfo * list fileInfo) : Prop :=
  ∃ res replies, answered K (str "PROPFIND") None (if deep then str "1" else str "0") s res ∧ StatusCode res = 207%Z ∧
    multistatus (Body res) (whole res) = Some replies ∧
    (foldl (described (TrimSuffix (RPath res) (str "/")) wanted deep) (None, []) replies).1 = Some found.1.
Lemma wp_propfind wanted deep s : K (target (base s) wanted deep) →
  wp (propfind wanted deep) (λ r s', r ≠ Err OutOfFuel ∧ sends reads_only 9 s s' ∧
    ∀ found, r = Ok found → replied deep wanted s' found) s.
Proof.
  intros HK. unfold propfind. destruct (negb _).
  { apply wp_throw. split_and!; [done| |done]. apply sends_refl. }
  apply wp_bind, wp_gets, wp_bind. eapply wp_mono; [by apply (wp_do K K_redirect)|]. intros [[res|e]|e] s1 [Hs1 Hres]; [| |done].
  2: { apply wp_throw. split_and!; [|eapply sends_mono; [| |exact Hs1]; [done|apply reads_only_propfind]|done].
       intros [= Hu]. by apply Unwrap_defined in Hu. }
  assert (sends reads_only 9 s s1) as Hs by (eapply sends_mono; [| |exact Hs1]; [done|apply reads_only_propfind]).
  case_decide as H207.
  { apply wp_throw. split_and!; [|done|done]. intros [= Hu]. by apply Unwrap_defined in Hu. }
  destruct (multistatus _ _) as [replies|] eqn:Hm; [|by apply wp_throw].
  destruct ((foldl _ _ _).1) as [info|] eqn:Hf; [|by apply wp_throw].
  apply wp_ret. split_and!; [done|done|]. intros found [= <-]. exists res, replies.
  split; [exact Hres|]. by split_and!.
Qed.
(** An entry found for the path itself is one the reply holds for it. *)
Lemma described_self self wanted deep l acc info :
  (foldl (described self wanted deep) acc l).1 = Some info → acc.1 = Some info ∨
  ∃ r u e, r ∈ l ∧ url_Parse (Href r) = Some u ∧ TrimSuffix (UPath u) (str "/") = self ∧
    propInfo (Base (TrimSuffix (UPath u) (str "/"))) (Propstats r) = Some e ∧ size info = size e.
Proof.
  revert acc. induction l as [|r l IH]; intros acc; simpl; [by left|]. intros [Hacc|(r' & u & e & ? & ?)]%IH.
  2: { right. exists r', u, e. split; [by right|done]. }
  unfold described in Hacc. destruct (url_Parse (Href r)) as [u|] eqn:Hu; [|by left].
  destruct (propInfo _ _) as [e|] eqn:He; [|by left]. case_decide as Hself.
  - right. exists r, u, e. simpl in Hacc. simplify_eq/=. split_and!; [left|done|done|done|done].
  - destruct (_ && _); simpl in Hacc; by left.
Qed.

Definition started (f f' : file) (s : FS) : Prop :=
  ∃ res, answered K (str "GET") (if decide (0 < offset f)%Z then Some (offset f) else None) [] s res ∧
    let skip := if decide (StatusCode res ≠ 206 ∧ 0 < offset f)%Z then offset f else 0%Z in
    (skip ≤ Z.of_nat (length (Body res)))%Z ∧
    fname f' = fname f ∧ offset f' = offset f ∧ fbody f' = Some (drop (Z.to_nat skip) (Body res), whole res) ∧
    size (finfo f') = (if decide (offset f = 0)%Z then ContentLength res else size (finfo f)).
Lemma wp_start f s : K (target (base s) (fname f) false) →
  wp (start f) (λ r s', r ≠ Err OutOfFuel ∧ sends reads_only 9 s s' ∧ ∀ f', r = Ok f' → started f f' s') s.
Proof.
  intros HK. unfold start. apply wp_bind, wp_gets, wp_bind. eapply wp_mono; [by apply (wp_do K K_redirect)|].
  intros [[res|e]|e] s1 [Hs1 Hres]; [| |done].
  2: { apply wp_throw. split_and!; [|eapply sends_mono; [| |exact Hs1]; [done|apply reads_only_get]|done].
       intros [= Hu]. by apply Unwrap_defined in Hu. }
  assert (sends reads_only 9 s s1) as Hs by (eapply sends_mono; [| |exact Hs1]; [done|apply reads_only_get]).
  simpl. set (skip := if decide (StatusCode res ≠ _ ∧ _) then _ else _).
  destruct (decide (Z.of_nat (length (Body res)) < skip)%Z) as [|Hskip]; [by apply wp_throw|].
  apply wp_ret. split_and!; [done|done|]. intros f' [= <-]. exists res. fold skip. split; [exact Hres|].
  cbv zeta. fold skip. destruct (decide (offset f = 0)%Z); split_and!; (done || lia).
Qed.
End within.

(** The URLs the credential may reach. *)
Definition at_home (u : URL) (t : URL) : Prop := Scheme t = Scheme u ∧ Host t = Host u.
Lemma at_home_redirect u k q res next : at_home u (Target q) → answer k q = Answered res →
  redirectTarget res (Target q) = Some next → at_home u next.
Proof. unfold at_home. intros [<- <-] _ Hn. by apply redirectTarget_confined in Hn. Qed.

Lemma target_home b wanted deep : at_home b (target b wanted deep).
Proof. unfold target. by case_decide. Qed.
(** Every operation ends after few requests. *)
Definition confined {A : Type} (m : M FS A) (s : FS) : Prop :=
  wp m (λ r s', r ≠ Err OutOfFuel ∧ sends (reads_only (at_home (base s))) 9 s s') s.
Lemma confined_propfind wanted deep s : confined (propfind wanted deep) s.
Proof. eapply wp_mono; [apply (wp_propfind _ (at_home_redirect (base s))), target_home|]. by intros r s' (? & ? & _). Qed.
Lemma confined_start f s : confined (start f) s.
Proof. eapply wp_mono; [apply (wp_start _ (at_home_redirect (base s))), target_home|]. by intros r s' (? & ? & _). Qed.
Lemma confined_ret {A : Type} (a : A) s : confined (mret a) s.
Proof. split; [done|apply sends_refl]. Qed.
Lemma confined_throw {A : Type} e s : e ≠ OutOfFuel → confined (throw e : M FS A) s.
Proof. intros He. split; [by intros [= ?]|apply sends_refl]. Qed.
(** What follows sends nothing itself. *)
Lemma confined_then {A B : Type} (m : M FS A) (k : A → M FS B) s :
  confined m s → (∀ a s', wp (k a) (λ r s2, r ≠ Err OutOfFuel ∧ s2 = s') s') → confined (mbind k m) s.
Proof.
  unfold confined. intros Hm Hk. apply wp_bind. eapply wp_mono; [exact Hm|]. intros [a|e] s1 [He Hs1]; [|by split; [intros [= ->]|]].
  eapply wp_mono; [apply Hk|]. by intros r s2 [? ->].
Qed.
Lemma confined_file_Stat f s : confined (file_Stat f) s.
Proof.
  unfold file_Stat. case_decide; [|apply confined_ret]. apply confined_then; [|done].
  unfold Stat. apply confined_then; [apply confined_propfind|done].
Qed.
Lemma confined_after_tick {A : Type} (k : nat → M FS A) s :
  (∀ n s', base s' = base s → confined (k n) s') → confined (mbind k tick) s.
Proof.
  unfold confined. intros Hk. apply wp_bind, wp_tick. intros s1 Hs1 _ _ _. eapply wp_mono; [apply (Hk _ s1), Hs1|].
  intros r s2 [? Hs2]. split; [done|]. rewrite (sends_base _ _ _ _ Hs1) in Hs2.
  eapply sends_mono; [| |eapply (sends_trans _ 0 9); [eapply sends_mono; [| |exact Hs1]|exact Hs2]]; done.
Qed.

(** Claim C14: What the client may do to the network. Whatever the server answers, every
    operation of the file system, and every read and seek in a file, ends
    after at most nine requests, never for want of fuel; all of them only
    read ([GET], [PROPFIND]) and go to the scheme and host of the shelf's own
    URL, whatever redirects said, so the credential reaches no other host. *)
Theorem client_confined s :
  (∀ wanted, confined (Stat wanted) s ∧ confined (ReadDir wanted) s ∧ confined (Open wanted) s) ∧
  (∀ f n, confined (Read n f) s) ∧ (∀ f o w, confined (Seek o w f) s).
Proof.
  split_and!; [intros wanted|..].
  - split_and!.
    + apply confined_then; [apply confined_propfind|done].
    + apply confined_then; [apply confined_propfind|]. intros [i l] s1. unfold wp. simpl. by destruct (dir i).
    + unfold Open. destruct (negb _); [by apply confined_throw|apply confined_start].
  - intros f n. apply confined_after_tick. intros k s1 _. destruct (fbody f) as [[rest w]|]; [apply confined_ret|].
    case_decide; [apply confined_ret|]. apply confined_then; [apply confined_start|].
    intros f' s2. by destruct (fbody f') as [[? ?]|].
  - intros f o w. apply confined_then; [|intros [o' f'] s1; by case_decide].
    destruct w; [apply confined_ret..|]. apply confined_then; [apply confined_file_Stat|done].
Qed.
End operations.

(** ** What a file reads *)
Section reading.
Context `{UrlText, DavServer, Multistatus, Pieces}.
(** A server whose files stand still: the content at each URL. *)
Context (files : URL → option bytes).
Record honest_server : Prop := {
  (** a redirect leads to the same file *)
  serves_redirect k q res next : answer k q = Answered res → redirectTarget res (Target q) = Some next →
    files next = files (Target q);
  (** an answer to [GET] holds the file, or what follows the offset asked for
      where it says so; a length it gives is the file's *)
  serves_get k q res d : files (Target q) = Some d → Method q = str "GET" → answer k q = Answered res →
    (StatusCode res / 100 = 2)%Z →
    if decide (StatusCode res = 206%Z)
    then ∃ o, Range q = Some o ∧ Body res `prefix_of` drop (Z.to_nat o) d ∧ (whole res = true → Body res = drop (Z.to_nat o) d)
    else Body res `prefix_of` d ∧ (whole res = true → Body res = d) ∧
         ((0 ≤ ContentLength res)%Z → ContentLength res = Z.of_nat (length d));
  (** a size it announces is the file's *)
  serves_size k q res l d r u e : files (Target q) = Some d → Method q = str "PROPFIND" → answer k q = Answered res →
    StatusCode res = 207%Z → multistatus (Body res) (whole res) = Some l → r ∈ l → url_Parse (Href r) = Some u →
    TrimSuffix (UPath u) (str "/") = TrimSuffix (RPath res) (str "/") →
    propInfo (Base (TrimSuffix (UPath u) (str "/"))) (Propstats r) = Some e → size e = Z.of_nat (length d);
}.
Context (server : honest_server).

(** An open file on a client: its stream holds what follows its offset. *)
Record streams (d : bytes) (b : URL) (f : file) : Prop := {
  st_file : files (target b (fname f) false) = Some d;
  st_offset : (0 ≤ offset f)%Z;
  st_size : (0 ≤ size (finfo f))%Z → size (finfo f) = Z.of_nat (length d);
  st_body : ∀ rest w, fbody f = Some (rest, w) →
    rest `prefix_of` drop (Z.to_nat (offset f)) d ∧ (w = true → rest = drop (Z.to_nat (offset f)) d);
}.
Definition holds (d : bytes) (t : URL) : Prop := files t = Some d.
Lemma holds_redirect d k q res next : holds d (Target q) → answer k q = Answered res →
  redirectTarget res (Target q) = Some next → holds d next.
Proof. unfold holds. intros Hd Ha Hn. by rewrite (serves_redirect server k q res next). Qed.

Lemma drop_prefix {A : Type} n (l k : list A) : l `prefix_of` k → drop n l `prefix_of` drop n k.
Proof.
  intros [m ->]. rewrite drop_app. by eexists.
Qed.
Lemma started_streams d b f f' s : holds d (target b (fname f) false) → (0 ≤ offset f)%Z →
  ((0 ≤ size (finfo f))%Z → size (finfo f) = Z.of_nat (length d)) → started (holds d) f f' s → streams d b f'.
Proof.
  intros Hd Ho Hsz (res & (Hok & q & l & k & _ & [Hm Hr _ Ht] & Ha) & Hskip & En & Eo & Eb & Es).
  pose proof (serves_get server k q res d Ht Hm Ha Hok) as Hget. rewrite Hr in Hget. split.
  - by rewrite En.
  - by rewrite Eo.
  - rewrite Es. destruct (decide (offset f = 0)%Z) as [E0|]; [|done]. rewrite E0 in Hget.
    destruct (decide (StatusCode res = 206%Z)) as [|]; [by destruct Hget as (? & [=] & _)|]. apply Hget.
  - intros rest w. rewrite Eb, Eo. intros [= <- <-].
    destruct (decide (StatusCode res = 206%Z)) as [E2|E2].
    + destruct Hget as (o & E & Hp & Hw). rewrite decide_False in Hskip |- * by (intros [? _]; done).
      destruct (decide (0 < offset f)%Z); [|done]. injection E as <-. by rewrite drop_0.
    + destruct Hget as (Hp & Hw & _). destruct (decide (0 < offset f)%Z) as [Hpos|Hpos].
      * rewrite decide_True by done. split; [by apply drop_prefix|]. intros ?. by rewrite Hw.
      * rewrite decide_False by (intros [_ ?]; done). replace (offset f) with 0%Z by lia. by rewrite !drop_0.
Qed.
Lemma wp_start_streams d f s : holds d (target (base s) (fname f) false) → (0 ≤ offset f)%Z →
  ((0 ≤ size (finfo f))%Z → size (finfo f) = Z.of_nat (length d)) →
  wp (start f) (λ r s', base s' = base s ∧ ∀ f', r = Ok f' → streams d (base s) f' ∧ offset f' = offset f ∧ is_Some (fbody f')) s.
Proof.
  intros Hd Ho Hsz. eapply wp_mono; [by apply (wp_start _ (holds_redirect d))|].
  intros r s1 (_ & Hs & Hst). split; [by apply Hs|]. intros f' ->. specialize (Hst f' eq_refl).
  split; [by eapply started_streams|]. destruct Hst as (res & _ & _ & _ & ? & -> & _). eauto.
Qed.
Lemma wp_file_Stat d f s : streams d (base s) f →
  wp (file_Stat f) (λ r s', base s' = base s ∧ ∀ i f', r = Ok (i, f') →
    streams d (base s) f' ∧ finfo f' = i ∧ size i = Z.of_nat (length d) ∧ offset f' = offset f) s.
Proof.
  intros Hst. pose proof Hst as [Hd Ho Hsz Hb]. unfold file_Stat. case_decide as Hneg.
  2: { apply wp_ret. split; [done|]. intros i f' [= <- <-]. split_and!; [done..|apply Hsz; lia|done]. }
  unfold Stat. apply wp_bind, wp_bind. eapply wp_mono; [by apply (wp_propfind _ (holds_redirect d))|].
  intros r s1 (_ & Hs & Hrep). destruct r as [found|e]; [|by split; [apply Hs|]]. apply wp_ret, wp_ret.
  split; [by apply Hs|]. intros i f' [= <- <-].
  destruct (Hrep found eq_refl) as (res & replies & (Hok & q & l & k & _ & [Hm _ _ Ht] & Ha) & H207 & Hms & Hf).
  apply described_self in Hf as [[=]|(r & u & e & Hr & Hu & Hself & He & Esz)].
  assert (size found.1 = Z.of_nat (length d)) as E.
  { rewrite Esz. by apply (serves_size server k q res replies d r u e). }
  split_and!; [|done|done|done]. split; simpl; [done|done|by intros|exact Hb].
Qed.

(** What reading promises of a run of [Read] from a file at its offset. *)
Definition reads_there (d : bytes) (n : nat) (f : file) (data : bytes) (e : read_end) (f' : file) : Prop :=
  data `prefix_of` drop (Z.to_nat (offset f)) d ∧ length data ≤ n ∧ offset f' = (offset f + Z.of_nat (length data))%Z ∧
  (e = EOF → data = [] ∧ (Z.of_nat (length d) ≤ offset f)%Z) ∧ (e = More → 0 < n → data ≠ []).
Lemma read_body_streams d b pieces n f rest w : streams d b f → fbody f = Some (rest, w) →
  let r := read_body pieces n f rest w in streams d b r.2 ∧ reads_there d n f r.1.1 r.1.2 r.2.
Proof.
  intros Hst Hb. pose proof Hst as [Hd Ho Hsz Hbody]. destruct (Hbody _ _ Hb) as [Hp Hw]. destruct rest as [|c rest]; simpl.
  - split; [done|]. split_and!; [by exists (drop (Z.to_nat (offset f)) d)|simpl; lia|simpl; lia| |by destruct w].
    intros Hend. destruct w; [|done]. split; [done|]. specialize (Hw eq_refl). symmetry in Hw.
    apply (f_equal length) in Hw. rewrite length_drop in Hw. simpl in Hw. lia.
  - set (k := Nat.min n _). set (data := take k (c :: rest)).
    assert (data `prefix_of` c :: rest) as Hdata by (exists (drop k (c :: rest)); unfold data; by rewrite take_drop).
    assert (length data ≤ n) as Hlen by (unfold data, k; rewrite length_take; lia).
    assert (∀ x : bytes, drop (Z.to_nat (offset f + Z.of_nat (length data))) x = drop k (drop (Z.to_nat (offset f)) x) ∨ length (c :: rest) < k) as Hdrop.
    { intros x. destruct (decide (length (c :: rest) < k)); [by right|left]. rewrite drop_drop. f_equal.
      unfold data. rewrite length_take. lia. }
    assert (drop k (c :: rest) `prefix_of` drop (Z.to_nat (offset f + Z.of_nat (length data))) d ∧
      (w = true → drop k (c :: rest) = drop (Z.to_nat (offset f + Z.of_nat (length data))) d)) as Hrest.
    { destruct (Hdrop d) as [->|Hk].
      - split; [by apply drop_prefix|]. intros ?. by rewrite Hw.
      - rewrite drop_ge by lia. split; [by eexists|]. intros E. specialize (Hw E).
        assert (data = c :: rest) as Edata by (unfold data; apply take_ge; lia).
        rewrite Edata. symmetry. apply drop_ge. apply (f_equal length) in Hw. rewrite length_drop in Hw. lia. }
    split.
    + split; simpl; [done|lia|done|]. by intros ? ? [= <- <-].
    + split_and!; [by etrans|done|done|done|]. intros _ Hn. unfold data, k. destruct n; [lia|].
      by destruct (Nat.max 1 pieces) eqn:E; [lia|].
Qed.

End reading.

(** ** A server and its file *)
Section example.
Definition example_url (p : bytes) : URL := mkURL (str "https") (str "dav.example") p [] false false [] [].
#[local] Instance example_text : UrlText := {|
  url_Parse s := Some (example_url s); Parse_from u s := Some (example_url s); EscapedPath := UPath; PathEscape s := s;
  ToLower s := s; ParseTime _ := None |}.
Definition example_content : bytes := str "a text of the shelf".
Definition example_files (u : URL) : option bytes :=
  if decide (u = target (example_url (str "/dav/")) (str "a") false) then Some example_content else None.
(** It breaks the first two answers off, and honours ranges. *)
#[local] Instance example_server : DavServer := {|
  answer k q :=
    if decide (Method q = str "GET") then
      match Range q with
      | Some o => Answered (mkResponse 206 [] (-1) None (UPath (Target q)) (drop (Z.to_nat o) example_content) true)
      | None => Answered (mkResponse 200 [] (Z.of_nat (length example_content)) None (UPath (Target q)) (take 6 example_content) false)
      end
    else Answered (mkResponse 404 [] 0 None [] [] true);
  secret _ := None; sleeps _ := true |}.
#[local] Instance example_multistatus : Multistatus := {| multistatus _ _ := None |}.
#[local] Instance example_pieces : Pieces := λ _, 4.
Definition example_client : FS := mkFS (example_url (str "/dav/")) [] false [] false [] 0.

Lemma example_serves : honest_server example_files.
Proof.
  split.
  - intros k q res next Ha Hn. unfold answer in Ha. simpl in Ha. exfalso. revert Hn. unfold redirectTarget.
    rewrite decide_True; [done|]. destruct (decide _); [destruct (Range q)|]; injection Ha as <-; simpl;
      apply (bool_decide_unpack _); vm_compute; exact I.
  - intros k q res d Hf Hm Ha _. unfold example_files in Hf. case_decide; [|done]. injection Hf as <-.
    unfold answer in Ha. simpl in Ha. rewrite (decide_True _ _ Hm) in Ha. destruct (Range q) as [o|]; injection Ha as <-; simpl.
    + exists o. done.
    + split; [by exists (drop 6 example_content)|done].
  - intros k q res l d r u e _ Hm Ha H207. unfold answer in Ha. simpl in Ha. rewrite decide_False in Ha by (rewrite Hm; done).
    by injection Ha as <-.
Qed.
(** A reply without a length is read as the length 0: a file whose answer had
    no length either then ends where it begins. *)
Lemma unknown_size_is_zero nm :
  propInfo nm [mkPropstat (str "HTTP/1.1 200 OK") false [] []] = Some (mkInfo nm false 0 None).
Proof. by vm_compute. Qed.
End example.
End DavClient.
