(* ===== verification/DavExport.v ===== *)
(** * Exporting shelves over WebDAV: [src/server/dav_export.go],
    [src/shelf/shelf_files.go], and [OpenNoFollow] of
    [src/internal/fsutil/root.go]

    A second server lets other installations read the files of the local
    shelves. It checks the token, the path and the method, and hands the
    request to [golang.org/x/net/webdav] over a file system that shows the
    files of a shelf only ([IsShelfFile]). That handler is not part of the
    source: it is any program over the file system's interface ([prog]), and
    [dav_export_confined] holds of all of them. Symbolic links are not in the
    model's trees, so what refuses them leaves no trace; the sending of
    bodies, the kinds of content and log messages are left out. *)

From S2P Require Import Prelude Utf8 Strings Float64 Json Fs FsSpec Atomic ShelfUtil BookMeta Source Trash ShelfState CacheExport ShelfConfig Http Security.

Module DavExport.
Import CacheFile CacheExport ShelfConfig Shelf Http Security.

(** ** The files of a shelf *)

(** [func IsShelfFile] *)
Definition IsShelfFile (name : bytes) : bool :=
  if decide (name = str ".") then true else
  let '(top, rest) := match Cut name with Some (top, rest) => (top, Some rest) | None => (name, None) end in
  if decide (top = booksFolder ∨ top = trashFolder) then
    match rest with None => true | Some rest => negb (existsb Atomic.IsTempName (Split rest "/"%char)) end
  else if decide (top = shelfConfigFile) then negb (bool_decide (is_Some rest))
  else if decide (top = appFolder) then
    match rest with
    | None => true
    | Some rest => negb (bool_decide ("/"%char ∈ rest)) && HasPrefix rest bookCacheFilePrefix && HasSuffix rest bookCacheFileSuffix
    end
  else false.

(** [func (davFS) rel]: the name within the shelf and whether it shows. *)
Definition rel (name : bytes) : bytes * bool :=
  let r := TrimPrefix (Clean (str "/" ++ name)) (str "/") in
  let r := if decide (r = []) then str "." else r in
  (r, IsShelfFile r).
Definition path_of (r : bytes) : path := if decide (r = str ".") then [] else Split r "/"%char.
Definition rel_of (p : path) : bytes := if decide (p = []) then str "." else Join p (str "/").

(** ** The file system a WebDAV handler sees *)
Record info := mkInfo { iname : bytes; idir : bool; isize : Z; imtime : Z }.
Definition info_of (name : bytes) (n : node) (zs : Z * Z) : info := mkInfo name (is_dir n) zs.2 zs.1.
Definition ErrPermission : error := Msg "permission denied".
(** [func davErr] *)
Definition davErr (e : error) : error := if decide (e = ENotExist ∨ e = ENotDir) then ENotExist else e.
Definition mapped {A : Type} (m : M world A) : M world A :=
  r ← try m;
  match r with Ok a => mret a | Err e => throw (davErr e) end.
(** [type davFile]: an open file, and of a directory what was listed and how
    far it was read. *)
Record davFile := mkFile { frel : bytes; fnode : node; entries_ : list info; pos : nat; listed : bool }.

Section fs.
Context `{Machine}.
(** [func (l *RootFS) OpenNoFollow]: each directory on the way is looked at,
    opened, and looked at again. *)
Fixpoint open_parents (pre rest : path) : M world unit :=
  match rest with
  | [] | [_] => mret tt
  | x :: rest =>
      let dir := pre ++ [x] in
      checked ← Stat dir;
      if negb (is_dir checked) then throw ENotExist else
      ignore_node ← Stat dir;
      opened ← try (Stat dir);
      match opened with Err _ => throw ENotExist | Ok _ => open_parents dir rest end
  end.
Definition OpenNoFollow (p : path) : M world node :=
  if decide (p = []) then Stat [] else
  open_parents [] p;;
  checked ← Stat p;
  n ← Stat p;
  opened ← try (Stat p);
  match opened with Err _ => throw ENotExist | Ok _ => mret n end.
(** [func (d davFS) open] *)
Definition dav_open (name : bytes) : M world (node * bytes) :=
  let '(r, ok) := rel name in
  if negb ok then throw ENotExist else
  n ← mapped (OpenNoFollow (path_of r));
  mret (n, r).
(** [func (d davFS) OpenFile], [Stat] *)
Definition OpenFile (name : bytes) (writes : bool) : M world davFile :=
  if writes then throw ErrPermission else
  found ← dav_open name;
  mret (mkFile found.2 found.1 [] 0 false).
Definition dav_Stat (name : bytes) : M world info :=
  found ← dav_open name;
  let p := path_of found.2 in
  got ← mapped (StatInfo p);
  mret (info_of (base p) got.1 got.2).
(** [func readOpenedDAVDirectory]; [path.Join] of a clean path and the name of
    an entry. *)
Definition Join_name (r name : bytes) : bytes := if decide (r = str ".") then name else r ++ str "/" ++ name.
Fixpoint entry_infos (r : bytes) (l : list (bytes * node)) : M world (list info) :=
  match l with
  | [] => mret []
  | e :: l =>
      if negb (IsShelfFile (Join_name r e.1)) then entry_infos r l else
      got ← try (StatInfo (path_of (Join_name r e.1)));
      infos ← entry_infos r l;
      mret (match got with Ok (n, zs) => info_of e.1 n zs :: infos | Err _ => infos end)
  end.
Definition readOpenedDAVDirectory (r : bytes) : M world (list info) :=
  l ← mapped (ReadDir (path_of r));
  entry_infos r l.
(** [func (f *davFile) Readdir] *)
Definition ErrEOF : error := Msg "EOF".
Definition Readdir (f : davFile) (count : Z) : M world (result error (list info) * davFile) :=
  got ← try (if listed f then mret (entries_ f) else readOpenedDAVDirectory (frel f));
  mret (match got with
        | Err e => (Err e, f)
        | Ok infos =>
            let at_ n := mkFile (frel f) (fnode f) infos n true in
            if decide (count <= 0)%Z then (Ok (drop (pos f) infos), at_ (length infos))
            else if decide (length infos <= pos f) then (Err ErrEOF, at_ (pos f))
            else let n := Nat.min (pos f + Z.to_nat count) (length infos) in
              (Ok (take (n - pos f) (drop (pos f) infos)), at_ n)
        end).

(** ** A WebDAV handler

    Any program over the interface [webdav.FileSystem] that ends: it opens and
    looks at names, lists what it opened, and may ask for changes. An opened
    file is a handle with its kind and, unless it is a directory, its
    content. *)
Inductive prog :=
  | Reply (r : Response)
  | CallStat (name : bytes) (k : result error info → prog)
  | CallOpen (name : bytes) (writes : bool) (k : result error (nat * option bytes) → prog)
  | CallReaddir (handle : nat) (count : Z) (k : result error (list info) → prog)
  (** [Mkdir], [RemoveAll], [Rename], and [Write] to a file *)
  | CallChange (k : error → prog).

Fixpoint run (p : prog) (opened : list davFile) : M world Response :=
  match p with
  | Reply r => mret r
  | CallStat name k => got ← try (dav_Stat name); run (k got) opened
  | CallOpen name writes k =>
      got ← try (OpenFile name writes);
      match got with
      | Err e => run (k (Err e)) opened
      | Ok f => run (k (Ok (length opened, match fnode f with File c _ => Some (content_bytes c) | Dir => None end))) (opened ++ [f])
      end
  | CallReaddir h count k =>
      match opened !! h with
      | None => run (k (Err EInval)) opened
      | Some f =>
          got ← Readdir f count;
          run (k got.1) (<[h := got.2]> opened)
      end
  | CallChange k => run (k ErrPermission) opened
  end.
End fs.

(** ** The handler in front of it *)

(** What the manager's table gives for an ID: the shelf, unless its entry has
    none, and its files where they are local. *)
Record exportedShelf := mkExported { has_shelf : bool; remote : bool; eworld : world }.
Record DavState := mkDavState { eshelves : gmap bytes exportedShelf; token_text : option bytes }.
Record davExport := mkDavExport { exported : option (bytes → bool); origins : option (gset bytes) }.
(** The handler of [golang.org/x/net/webdav] with its prefix. *)
Class WebdavHandler := webdav_serve : bytes → Request → prog.

Definition PROPFIND : bytes := str "PROPFIND".
Definition davExportAllow : bytes := str "OPTIONS, GET, HEAD, PROPFIND".
Definition davExportPrefix : bytes := str "/dav/".
Definition davCORSAllowHeaders : bytes := str "Authorization, Content-Type, Depth, Range".
Definition with_headers (hs : list (bytes * bytes)) (r : Response) : Response :=
  mkResponse (Status r) (hs ++ Headers r) (Payload_ r).

(** [func davPathSafe] *)
Definition nul : ascii := Ascii false false false false false false false false.
Definition quote : ascii := Ascii false true false false false true false false.
Definition backslash : ascii := Ascii false false true true true false true false.
Definition davPathSafe (p : bytes) : bool :=
  negb (ContainsAny p [backslash; nul]) && negb (existsb (λ seg, bool_decide (seg = str "..")) (Split p "/"%char)).

Section handler.
Context `{UnicodeCase, Machine, Digest, NetText, WebdavHandler}.
(** [func davOriginSet] *)
Definition davOriginSet (l : list bytes) : option (option (gset bytes)) :=
  if decide (l = []) then Some None else
  s ← mapM normalizeOrigin l; Some (Some (list_to_set s)).
(** [func (d *davExport) applyCORS]: the headers it sets, and its answer to a
    preflight. *)
Definition applyCORS (d : davExport) (r : Request) : list (bytes * bytes) * option Response :=
  match origins d with
  | None => ([], None)
  | Some allowed =>
      let vary := (str "Vary", str "Origin") in
      match normalizeOrigin (Header r (str "Origin")) with
      | None => ([vary], None)
      | Some origin =>
          if negb (bool_decide (origin ∈ allowed)) then ([vary], None) else
          let hs := [vary; (str "Access-Control-Allow-Origin", Header r (str "Origin"))] in
          if bool_decide (Method r ≠ OPTIONS) || bool_decide (Header r (str "Access-Control-Request-Method") = [])
          then (hs, None)
          else (hs, Some (mkResponse StatusNoContent [(str "Access-Control-Allow-Methods", davExportAllow);
                            (str "Access-Control-Allow-Headers", davCORSAllowHeaders)] PEmpty))
      end
  end.
(** [func constantTimeDAVTokenEqual], [func (d *davExport) authorized] *)
Definition constantTimeDAVTokenEqual (got want : bytes) : bool := bool_decide (sha256_hex got = sha256_hex want).
Definition authorized (r : Request) (s : DavState) : bool :=
  let got := bearerToken (Header r (str "Authorization")) in
  if decide (got = []) then false else
  match token_text s with
  | None => false
  | Some text => let want := TrimSpace text in
      if decide (want = []) then false else constantTimeDAVTokenEqual got want
  end.
Definition set_shelf_world (id : bytes) (w : world) (s : DavState) : DavState :=
  mkDavState (alter (λ e, mkExported (has_shelf e) (remote e) w) id (eshelves s)) (token_text s).
(** [func (d *davExport) ServeHTTP], after its [applyCORS] *)
Definition serve_files (d : davExport) (r : Request) (s : DavState) : Response * DavState :=
  if negb (bool_decide (Method r ∈ [OPTIONS; GET; HEAD; PROPFIND])) then
    (mkResponse StatusMethodNotAllowed [(str "Allow", davExportAllow)] PText, s) else
  match CutPrefix (Path r) davExportPrefix with
  | None => (http_Error StatusNotFound, s)
  | Some rest =>
      if negb (authorized r s) then (mkResponse StatusUnauthorized [(str "WWW-Authenticate", str "Bearer realm=" ++ [quote] ++ str "PlainShelf" ++ [quote])] PText, s) else
      if negb (davPathSafe rest) then (http_Error StatusBadRequest, s) else
      let shelfID := match Cut rest with Some (a, _) => a | None => rest end in
      if negb (match exported d with Some f => f shelfID | None => true end) then (http_Error StatusNotFound, s) else
      match eshelves s !! shelfID with
      | None => (http_Error StatusNotFound, s)
      | Some e =>
          if negb (has_shelf e) || remote e then (http_Error StatusNotFound, s) else
          if decide (Method r = OPTIONS) then (mkResponse StatusOK [(str "Allow", davExportAllow); (str "DAV", str "1")] PEmpty, s) else
          let depth := Header r (str "Depth") in
          if bool_decide (Method r = PROPFIND) && negb (bool_decide (depth = str "0" ∨ depth = str "1")) then (http_Error StatusForbidden, s) else
          let '(answer, w) := run (webdav_serve (davExportPrefix ++ shelfID) r) [] (eworld e) in
          (match answer with Ok response => response | Err _ => http_Error StatusInternalServerError end, set_shelf_world shelfID w s)
      end
  end.
Definition ServeHTTP (d : davExport) (r : Request) (s : DavState) : Response * DavState :=
  let '(hs, preflight) := applyCORS d r in
  match preflight with
  | Some response => (with_headers hs response, s)
  | None => let '(response, s) := serve_files d r s in (with_headers hs response, s)
  end.
End handler.

(** ** The token's own file *)

(** [func davCanonicalPath], where the host says it: the segments of the
    absolute path behind all links. *)
Class HostPaths := davCanonicalPath : bytes → option path.
Definition errCanonical : error := Msg "no canonical path".
Definition errExposed : error := Msg "the token file is inside a shelf".
Section token.
Context `{ConfigEnv, HostPaths}.
(** [func (conf *DAVExportConf) checkTokenFileNotExported]: [filepath.Rel] of
    canonical paths is local when the one lies below the other. *)
Fixpoint check_shelves (tokenFile : path) (l : list ShelfConf) : result error unit :=
  match l with
  | [] => Ok tt
  | c :: l =>
      match ResolveSource c with
      | Err _ => check_shelves tokenFile l
      | Ok src =>
          if IsVirtual src then check_shelves tokenFile l else
          match davCanonicalPath (SPath src) with
          | None => Err errCanonical
          | Some root =>
              if decide (root `prefix_of` tokenFile) then
                if IsShelfFile (rel_of (drop (length root) tokenFile)) then Err errExposed else check_shelves tokenFile l
              else check_shelves tokenFile l
          end
      end
  end.
Definition checkTokenFileNotExported (tokenFile : bytes) (l : list ShelfConf) : result error unit :=
  match davCanonicalPath tokenFile with
  | None => Err errCanonical
  | Some p => check_shelves p l
  end.
End token.

(** ** Which paths show *)
Definition plain (p : path) : Prop := Forall (λ s, "/"%char ∉ s) p.
Definition shown (p : path) : bool := IsShelfFile (rel_of p).

Lemma Cut_app a b : "/"%char ∉ a → Cut (a ++ "/"%char :: b) = Some (a, b).
Proof.
  induction a as [|c a IH]; simpl; [done|]. rewrite not_elem_of_cons. intros [Hc Ha].
  rewrite decide_False by congruence. by rewrite IH.
Qed.
Lemma Cut_none a : "/"%char ∉ a → Cut a = None.
Proof.
  induction a as [|c a IH]; simpl; [done|]. rewrite not_elem_of_cons. intros [Hc Ha].
  rewrite decide_False by congruence. by rewrite IH.
Qed.
Lemma Join_slash x y l : Join (x :: y :: l) (str "/") = x ++ "/"%char :: Join (y :: l) (str "/").
Proof. done. Qed.
(** What shows by the segments of a path. *)
Definition shows (top : bytes) (rest : list bytes) : bool :=
  if decide (top = booksFolder ∨ top = trashFolder) then negb (existsb Atomic.IsTempName rest)
  else if decide (top = shelfConfigFile) then bool_decide (rest = [])
  else if decide (top = appFolder) then
    match rest with
    | [] => true
    | [n] => HasPrefix n bookCacheFilePrefix && HasSuffix n bookCacheFileSuffix
    | _ => false
    end
  else false.
Lemma shown_cons top rest : plain (top :: rest) → (top :: rest) ≠ [str "."] → shown (top :: rest) = shows top rest.
Proof.
  intros Hp Hdot. unfold shown, rel_of. rewrite decide_False by done. unfold IsShelfFile. inversion_clear Hp as [|? ? Ht Hr].
  destruct rest as [|x rest].
  - change (Join [top] (str "/")) with top. rewrite decide_False by congruence. rewrite Cut_none by done.
    unfold shows. by repeat case_decide.
  - rewrite Join_slash. rewrite decide_False.
    2: { intros E. assert ("/"%char ∈ str ".") as Hin by (rewrite <-E; set_solver). revert Hin. change (str ".") with ["."%char]. set_solver. }
    rewrite Cut_app by done. unfold shows. change (str "/") with ["/"%char]. rewrite Split_Join by done.
    destruct rest as [|y rest].
    + simpl. inversion_clear Hr. rewrite (bool_decide_false ("/"%char ∈ x)) by done. done.
    + rewrite (bool_decide_true ("/"%char ∈ _)) by (change ["/"%char] with (str "/"); rewrite Join_slash; set_solver).
      simpl. by repeat case_decide.
Qed.

Lemma shows_prefix top r r' : shows top (r ++ r') = true → shows top r = true.
Proof.
  unfold shows. repeat case_decide; try done.
  - rewrite existsb_app. intros Hn%negb_true_iff. apply orb_false_iff in Hn as [-> _]. done.
  - intros Hr%bool_decide_eq_true. apply app_eq_nil in Hr as [-> _]. done.
  - destruct r as [|n r]; [done|]. destruct r as [|m r]; [|done]. by destruct r'.
Qed.
Lemma shown_prefix p q : plain (p ++ q) → shown (p ++ q) = true → shown p = true.
Proof.
  intros Hp Hs. destruct p as [|top rest]; [done|]. destruct (decide ((top :: rest) = [str "."])) as [->|Hd]; [done|].
  assert ((top :: rest) ++ q ≠ [str "."]) as Hd' by (destruct rest, q; naive_solver).
  rewrite <-app_comm_cons in Hp, Hs, Hd'. rewrite shown_cons in Hs by done.
  rewrite shown_cons; [by eapply shows_prefix| |done]. rewrite app_comm_cons in Hp. by apply Forall_app in Hp as [? _].
Qed.
(** A rooted path is cleaned of all dots. *)
Lemma clean_rooted stack l : Forall segment stack → plain l → Forall segment (foldl (clean_step true) stack l).
Proof.
  revert stack. induction l as [|s l IH]; intros stack Hs Hl; [done|]. apply Forall_cons in Hl as [Hn Hl]. simpl. apply IH; [|done].
  unfold clean_step. case_decide as H1; [done|]. case_decide as H2.
  - destruct stack as [|top stack]; [done|]. apply Forall_cons in Hs as [(_ & _ & Hdd & _) Hs]. by rewrite decide_False.
  - constructor; [|done]. split_and!; [naive_solver..|done].
Qed.
Lemma rel_spec name : ∃ p, Forall segment p ∧ rel name = (rel_of p, shown p) ∧ path_of (rel_of p) = p.
Proof.
  set (out := reverse (foldl (clean_step true) [] (Split (str "/" ++ name) "/"%char))).
  assert (Forall segment out) as Hout by (apply Forall_reverse, clean_rooted; [constructor|apply Split_no_sep]).
  assert (TrimPrefix (Clean (str "/" ++ name)) (str "/") = Join out (str "/")) as E.
  { unfold Clean. assert (IsAbs (str "/" ++ name) = true) as -> by (apply bool_decide_true; by eexists).
    fold out. unfold TrimPrefix, HasPrefix. rewrite bool_decide_true by (by eexists). by rewrite drop_app_length. }
  exists out. split; [done|].
  assert ((if decide (Join out (str "/") = []) then str "." else Join out (str "/")) = rel_of out) as Er.
  { unfold rel_of. destruct (decide (out = [])) as [->|Hn]; [done|]. rewrite decide_False; [done|].
    destruct out as [|s out]; [done|]. apply Forall_cons in Hout as [(Hs & _) _]. destruct s; [done|]. by destruct out. }
  split; [unfold rel; by rewrite E, Er|].
  unfold path_of, rel_of. destruct (decide (out = [])) as [->|Hn]; [done|].
  rewrite decide_False.
  - change (str "/") with ["/"%char]. apply Split_Join; [done|]. eapply Forall_impl; [exact Hout|]. by intros s (_ & _ & _ & ?).
  - intros Edot. apply (f_equal (λ s, Split s "/"%char)) in Edot. change (str "/") with ["/"%char] in Edot.
    rewrite Split_Join in Edot; [|done|eapply Forall_impl; [exact Hout|]; by intros s (_ & _ & _ & ?)].
    rewrite Edot in Hout. apply Forall_cons in Hout as [(_ & Hdot & _) _]. done.
Qed.
Lemma plain_segments p : Forall segment p → plain p.
Proof. intros Hp. eapply Forall_impl; [exact Hp|]. by intros s (_ & _ & _ & ?). Qed.

(** ** A program that cannot tell two trees apart *)

(** Trees that agree on the files of the shelf. *)
Definition agree (t1 t2 : tree) : Prop := ∀ p, plain p → shown p = true → t1 !! p = t2 !! p.
Section blind.
Context `{Machine}.
(** [m] answers the same on both, at the same time, and changes neither. *)
Definition blind {A : Type} (m : M world A) : Prop :=
  ∀ w1 w2, agree (wtree w1) (wtree w2) → tick w1 = tick w2 →
    (m w1).1 = (m w2).1 ∧ tick (m w1).2 = tick (m w2).2 ∧ wtree (m w1).2 = wtree w1 ∧ wtree (m w2).2 = wtree w2.
Lemma blind_ret {A : Type} (a : A) : blind (mret a).
Proof. done. Qed.
Lemma blind_throw {A : Type} e : blind (throw e : M world A).
Proof. done. Qed.
Lemma blind_bind {A B : Type} (m : M world A) (k : A → M world B) : blind m → (∀ a, blind (k a)) → blind (mbind k m).
Proof.
  intros Hm Hk w1 w2 Ha Ht. destruct (Hm w1 w2 Ha Ht) as (E & Et & E1 & E2). unfold mbind, M_bind.
  destruct (m w1) as [r1 v1], (m w2) as [r2 v2]. simpl in *. subst r2. destruct r1 as [a|e]; [|done].
  destruct (Hk a v1 v2) as (? & ? & ? & ?); [by rewrite E1, E2|done|]. split_and!; congruence.
Qed.
Lemma blind_try {A : Type} (m : M world A) : blind m → blind (try m).
Proof.
  intros Hm w1 w2 Ha Ht. destruct (Hm w1 w2 Ha Ht) as (E & Et & E1 & E2). unfold try.
  destruct (m w1), (m w2). simpl in *. by subst.
Qed.
Lemma blind_read {A : Type} (act : tree → result error A) :
  (∀ t1 t2, agree t1 t2 → act t1 = act t2) → blind (read_step act).
Proof.
  intros Hact w1 w2 Ha Ht. unfold read_step. rewrite Ht. by destruct (fault (tick w2)); simpl; rewrite ?(Hact _ _ Ha).
Qed.
Lemma blind_mapped {A : Type} (m : M world A) : blind m → blind (mapped m).
Proof. intros Hm. apply blind_bind; [by apply blind_try|]. by intros [?|?]. Qed.
#[local] Hint Resolve blind_ret blind_throw blind_try blind_bind blind_mapped : core.

Lemma walk_agree t1 t2 rest : ∀ pre, agree t1 t2 → plain (pre ++ rest) → shown (pre ++ rest) = true →
  Fs.walk t1 pre rest = Fs.walk t2 pre rest.
Proof.
  induction rest as [|x rest IH]; intros pre Ha Hp Hs; [done|]. destruct rest as [|y rest]; [done|].
  rewrite (cons_middle x pre (y :: rest)), app_assoc in Hp, Hs. cbn [Fs.walk].
  rewrite <-(Ha (pre ++ [x])); [|by apply Forall_app in Hp as [? _]|by apply (shown_prefix _ (y :: rest))].
  destruct (t1 !! (pre ++ [x])) as [[|]|]; [|done|done]. by apply IH.
Qed.
Lemma find_node_agree t1 t2 p : agree t1 t2 → plain p → shown p = true → find_node t1 p = find_node t2 p.
Proof.
  intros Ha Hp Hs. unfold find_node, resolve. case_decide; [done|]. rewrite (walk_agree t1 t2 p []) by done.
  destruct (Fs.walk t2 [] p); [done|]. by rewrite (Ha p).
Qed.
Lemma blind_Stat p : plain p → shown p = true → blind (Stat p).
Proof. intros Hp Hs. apply blind_read. intros t1 t2 Ha. by apply find_node_agree. Qed.
Lemma blind_StatInfo p : plain p → shown p = true → blind (StatInfo p).
Proof.
  intros Hp Hs w1 w2 Ha Ht. destruct (blind_Stat p Hp Hs w1 w2 Ha Ht) as (E & Et & E1 & E2).
  unfold StatInfo, mbind, M_bind, gets. rewrite Ht. destruct (Stat p w1), (Stat p w2). simpl in *. subst. by case_match.
Qed.
Lemma blind_open_parents rest : ∀ pre, plain (pre ++ rest) → shown (pre ++ rest) = true → blind (open_parents pre rest).
Proof.
  induction rest as [|x rest IH]; intros pre Hp Hs; [apply blind_ret|]. destruct rest as [|y rest]; [apply blind_ret|].
  rewrite (cons_middle x pre (y :: rest)), app_assoc in Hp, Hs.
  assert (blind (Stat (pre ++ [x]))) as Hst.
  { apply blind_Stat; [by apply Forall_app in Hp as [? _]|by apply (shown_prefix _ (y :: rest))]. }
  cbn [open_parents]. apply blind_bind; [done|]. intros n. destruct (negb _); [apply blind_throw|].
  apply blind_bind; [done|]. intros _. apply blind_bind; [by apply blind_try|]. intros [?|?]; [by apply IH|apply blind_throw].
Qed.
Lemma blind_OpenNoFollow p : plain p → shown p = true → blind (OpenNoFollow p).
Proof.
  intros Hp Hs. pose proof (blind_Stat p Hp Hs) as Hst. unfold OpenNoFollow. case_decide as E; [by rewrite E in Hst|].
  apply blind_bind; [by apply blind_open_parents|]. intros _. apply blind_bind; [done|]. intros _.
  apply blind_bind; [done|]. intros n. apply blind_bind; [by apply blind_try|]. by intros [?|?].
Qed.

(** *** Listings *)
Lemma path_of_plain q : plain q → q ≠ [str "."] → path_of (rel_of q) = q.
Proof.
  intros Hp Hd. unfold path_of, rel_of. destruct (decide (q = [])) as [->|Hn]; [done|].
  rewrite decide_False; [by apply Split_Join|]. intros E. apply (f_equal (λ s, Split s "/"%char)) in E.
  change (str "/") with ["/"%char] in E. rewrite Split_Join in E by done. by rewrite E in Hd.
Qed.
Lemma Join_name_rel p s : Forall segment p → Join_name (rel_of p) s = rel_of (p ++ [s]).
Proof.
  intros Hp. unfold Join_name. destruct (decide (p = [])) as [->|Hn]; [done|]. rewrite decide_False.
  - unfold rel_of. rewrite (decide_False (P := p = [])) by done. rewrite decide_False by (by destruct p).
    by rewrite ShelfUtil.Join_snoc, decide_False.
  - intros E. apply (f_equal path_of) in E. rewrite path_of_plain in E; [done|by apply plain_segments|].
    intros ->. apply Forall_cons in Hp as [(_ & Hdot & _) _]. done.
Qed.
Definition listed_names (t : tree) (p : path) : list bytes := sort_strings (omap (child_of p) (elements (dom t))).
Lemma elem_of_listed_names t p s : s ∈ listed_names t p ↔ is_Some (t !! (p ++ [s])) ∧ "/"%char ∉ s.
Proof.
  transitivity (∃ n, (s, n) ∈ entries t p).
  - unfold entries. fold (listed_names t p). setoid_rewrite list_elem_of_fmap. naive_solver.
  - setoid_rewrite elem_of_entries. unfold is_Some. naive_solver.
Qed.
Lemma NoDup_listed_names t p : NoDup (listed_names t p).
Proof.
  unfold listed_names, sort_strings. rewrite merge_sort_Permutation. pose proof (NoDup_elements (dom t)) as Hn.
  induction (elements (dom t)) as [|q l IH]; [constructor|]. inversion_clear Hn as [|? ? Hq Hl]. simpl.
  destruct (child_of p q) as [s|] eqn:Hs; [|by apply IH]. constructor; [|by apply IH].
  rewrite list_elem_of_omap. intros (q' & Hq' & Hs'). assert (∀ q s, child_of p q = Some s → q = p ++ [s]) as Hc.
  { intros x y. unfold child_of. destruct (last x) as [z|]; [|done]. case_decide as Hz; [|done]. destruct Hz as [-> _]. by intros [= ->]. }
  apply Hq. by rewrite (Hc _ _ Hs), <-(Hc _ _ Hs').
Qed.
Lemma filter_names_agree (P : bytes → Prop) `{∀ s, Decision (P s)} t1 t2 p :
  (∀ s, P s → "/"%char ∉ s → t1 !! (p ++ [s]) = t2 !! (p ++ [s])) →
  filter P (listed_names t1 p) = filter P (listed_names t2 p).
Proof.
  intros Ha. assert (∀ t, StronglySorted str_le (filter P (listed_names t p))) as Hs.
  { intros t. apply filter_sorted, (StronglySorted_merge_sort str_le). }
  apply (StronglySorted_unique_strong str_le); [|done|done|].
  - intros x y _ _. apply (anti_symm str_le).
  - apply NoDup_Permutation; [apply NoDup_filter, NoDup_listed_names..|].
    intros s. rewrite !list_elem_of_filter, !elem_of_listed_names.
    split; intros (HP & Hi & Hn); (split; [done|split; [|done]]); [by rewrite <-Ha|by rewrite Ha].
Qed.
Definition shows_entry (r : bytes) (e : bytes * node) : Prop := IsShelfFile (Join_name r e.1) = true.
#[local] Instance shows_entry_dec r e : Decision (shows_entry r e).
Proof. unfold shows_entry. apply _. Defined.
Lemma entries_agree t1 t2 p : agree t1 t2 → Forall segment p →
  filter (shows_entry (rel_of p)) (entries t1 p) = filter (shows_entry (rel_of p)) (entries t2 p).
Proof.
  intros Ha Hp. set (P := λ s, IsShelfFile (Join_name (rel_of p) s) = true).
  assert (∀ s, P s → "/"%char ∉ s → t1 !! (p ++ [s]) = t2 !! (p ++ [s])) as Heq.
  { unfold P. intros s Hs Hn. rewrite Join_name_rel in Hs by done. apply Ha; [|done].
    apply Forall_app. split; [by apply plain_segments|by repeat constructor]. }
  assert (∀ t, filter (shows_entry (rel_of p)) (entries t p) =
    (λ s, (s, default Dir (t !! (p ++ [s])))) <$> filter P (listed_names t p)) as E.
  { intros t. unfold entries. fold (listed_names t p). induction (listed_names t p) as [|s l IH]; [done|].
rewrite fmap_cons. destruct (decide (P s)) as [HP|HP].
    - by rewrite !filter_cons_True, fmap_cons, IH.
    - by rewrite !filter_cons_False. }
  rewrite !E, <-(filter_names_agree P t1 t2 p Heq). apply list_fmap_ext. intros i s Hs. f_equal. f_equal.
  apply list_elem_of_lookup_2, list_elem_of_filter in Hs as [HP [_ Hn]%elem_of_listed_names]. by apply Heq.
Qed.
Lemma entry_infos_filter r l : entry_infos r l = entry_infos r (filter (shows_entry r) l).
Proof.
  induction l as [|e l IH]; [done|]. rewrite filter_cons. simpl. unfold shows_entry at 1. case_decide as Hs.
  - rewrite Hs. simpl. by rewrite Hs, <-IH.
  - destruct (IsShelfFile _); [done|]. simpl. done.
Qed.
Lemma blind_entry_infos p l : Forall segment p → (∀ e, e ∈ l → "/"%char ∉ e.1) → blind (entry_infos (rel_of p) l).
Proof.
  intros Hp Hl. induction l as [|e l IH]; [apply blind_ret|]. simpl.
  assert (blind (entry_infos (rel_of p) l)) as Hrest by (apply IH; intros; apply Hl; by right).
  destruct (IsShelfFile (Join_name _ _)) eqn:Hs; [|done]. simpl. rewrite Join_name_rel in Hs |- * by done.
  assert (plain (p ++ [e.1])) as Hpl.
  { apply Forall_app. split; [by apply plain_segments|]. constructor; [apply Hl; left|constructor]. }
  assert (blind (StatInfo (path_of (rel_of (p ++ [e.1]))))) as Hst.
  { destruct (decide (p ++ [e.1] = [str "."])) as [->|]; [by apply blind_StatInfo; [constructor|]|].
    rewrite path_of_plain by done. by apply blind_StatInfo. }
  apply blind_bind; [by apply blind_try|]. intros got. apply blind_bind; [done|]. intros; apply blind_ret.
Qed.
Lemma blind_listing p : Forall segment p → shown p = true → blind (readOpenedDAVDirectory (rel_of p)).
Proof.
  intros Hp Hs w1 w2 Ha Ht. unfold readOpenedDAVDirectory. rewrite path_of_plain; [|by apply plain_segments|].
  2: { intros ->. apply Forall_cons in Hp as [(_ & Hdot & _) _]. done. }
  set (v1 := mkWorld (wtree w1) (S (tick w1))). set (v2 := mkWorld (wtree w2) (S (tick w1))).
  assert ((∃ e, mapped (ReadDir p) w1 = (Err e, v1) ∧ mapped (ReadDir p) w2 = (Err e, v2)) ∨
    mapped (ReadDir p) w1 = (Ok (entries (wtree w1) p), v1) ∧ mapped (ReadDir p) w2 = (Ok (entries (wtree w2) p), v2)) as Hr.
  { unfold mapped, mbind, M_bind, try, ReadDir, read_step. rewrite <-Ht. destruct (fault (tick w1)); [|left; eexists; split; reflexivity..].
    rewrite (find_node_agree (wtree w1) (wtree w2) p) by (done || by apply plain_segments).
    destruct (find_node (wtree w2) p) as [[|c z]|e]; [right; split; reflexivity|left; eexists; split; reflexivity..]. }
  unfold mbind, M_bind. destruct Hr as [(e & -> & ->)|[-> ->]]; [done|].
  rewrite (entry_infos_filter (rel_of p) (entries (wtree w1) p)), (entry_infos_filter (rel_of p) (entries (wtree w2) p)).
  rewrite <-(entries_agree (wtree w1) (wtree w2) p Ha Hp). refine (blind_entry_infos p _ Hp _ v1 v2 Ha eq_refl).
  intros [s n] [_ [_ He]%elem_of_entries]%list_elem_of_filter. done.
Qed.

(** *** Handlers *)
Lemma blind_then {A B : Type} (P : A → Prop) (m : M world A) (k : A → M world B) : blind m →
  (∀ w a, (m w).1 = Ok a → P a) → (∀ a, P a → blind (k a)) → blind (mbind k m).
Proof.
  intros Hm HP Hk w1 w2 Ha Ht. destruct (Hm w1 w2 Ha Ht) as (E & Et & E1 & E2). pose proof (HP w1) as Hp1. unfold mbind, M_bind.
  destruct (m w1) as [r1 v1], (m w2) as [r2 v2]. simpl in *. subst r2. destruct r1 as [a|e]; [|done].
  destruct (Hk a (Hp1 a eq_refl) v1 v2) as (? & ? & ? & ?); [by rewrite E1, E2|done|]. split_and!; congruence.
Qed.
(** An open file lies among those that show. *)
Definition shown_file (f : davFile) : Prop := ∃ p, Forall segment p ∧ shown p = true ∧ frel f = rel_of p.
Definition shown_rel (r : bytes) : Prop := ∃ p, Forall segment p ∧ shown p = true ∧ r = rel_of p.
Lemma blind_dav_open name : blind (dav_open name) ∧ ∀ w n r, (dav_open name w).1 = Ok (n, r) → shown_rel r.
Proof.
  unfold dav_open. destruct (rel_spec name) as (p & Hp & -> & Ep). destruct (shown p) eqn:Hs; simpl; [|done].
  rewrite Ep. split.
  - apply blind_bind; [apply blind_mapped, blind_OpenNoFollow; [by apply plain_segments|done]|]. intros; apply blind_ret.
  - intros w n r. unfold mbind, M_bind. destruct (mapped _ w) as [[m|e] w']; [|done]. intros [= <- <-]. by exists p.
Qed.
Lemma blind_OpenFile name writes : blind (OpenFile name writes) ∧ ∀ w f, (OpenFile name writes w).1 = Ok f → shown_file f.
Proof.
  destruct (blind_dav_open name) as [Hb Hr]. unfold OpenFile. destruct writes; [done|]. split.
  - apply blind_bind; [done|]. intros; apply blind_ret.
  - intros w f. unfold mbind, M_bind. specialize (Hr w). destruct (dav_open name w) as [[[n r]|e] w']; [|done].
    intros [= <-]. exact (Hr n r eq_refl).
Qed.
Lemma blind_dav_Stat name : blind (dav_Stat name).
Proof.
  destruct (blind_dav_open name) as [Hb Hr]. unfold dav_Stat.
  apply (blind_then (λ nr, shown_rel nr.2)); [done|intros w [n r]; apply Hr|]. intros [n r] (p & Hp & Hs & E). cbn [snd] in E |- *.
  rewrite E, path_of_plain; [|by apply plain_segments|intros ->; by apply Forall_cons in Hp as [(_ & ? & _) _]].
  apply blind_bind; [apply blind_mapped, blind_StatInfo; [by apply plain_segments|done]|]. intros; apply blind_ret.
Qed.
Lemma blind_Readdir f count : shown_file f → blind (Readdir f count) ∧ ∀ w r f', (Readdir f count w).1 = Ok (r, f') → shown_file f'.
Proof.
  intros (p & Hp & Hs & E). unfold Readdir. split.
  - apply blind_bind; [|intros; apply blind_ret]. apply blind_try. destruct (listed f); [apply blind_ret|].
    rewrite E. by apply blind_listing.
  - intros w r f'. set (m := if listed f then mret (entries_ f) else readOpenedDAVDirectory (frel f)).
    unfold mbind, M_bind, try. destruct (m w) as [[infos|e] w']; simpl; [|by intros [= <- <-]; exists p].
    repeat case_decide; intros [= <- <-]; by exists p.
Qed.
(** Whatever the handler does, it cannot tell two trees apart that agree on
    the files of the shelf, and it changes neither. *)
Lemma blind_run pr : ∀ opened, Forall shown_file opened → blind (run pr opened).
Proof.
  induction pr as [r|name k IH|name writes k IH|h count k IH|k IH]; intros opened Ho; simpl.
  - apply blind_ret.
  - apply blind_bind; [apply blind_try, blind_dav_Stat|]. intros got. by apply IH.
  - destruct (blind_OpenFile name writes) as [Hb Hf].
    apply (blind_then (λ got, ∀ f, got = Ok f → shown_file f)); [by apply blind_try| |].
    + intros w got. unfold try. pose proof (Hf w) as Hw. destruct (OpenFile name writes w) as [r w']. by intros [= <-] f ->; apply Hw.
    + intros [f|e] Hgot; [|by apply IH]. apply IH. apply Forall_app. split; [done|]. by repeat constructor; apply Hgot.
  - destruct (opened !! h) as [f|] eqn:Hh; [|by apply IH]. rewrite Forall_lookup in Ho.
    destruct (blind_Readdir f count (Ho h f Hh)) as [Hb Hf].
    apply (blind_then (λ got, shown_file got.2)); [done|intros w [r f']; apply Hf|]. intros [r f'] Hs. apply IH.
    apply Forall_insert; [by apply Forall_lookup|done].
  - by apply IH.
Qed.
End blind.

(** ** What the export shows *)
Section confined.
Context `{UnicodeCase, Machine, Digest, NetText, WebdavHandler}.

(** Two states a client of the export may not tell apart: the exported shelves
    are the same kind, and the local ones agree on the files of a shelf. *)
Inductive alike_shelf : option exportedShelf → option exportedShelf → Prop :=
  | alike_none : alike_shelf None None
  | alike_some e1 e2 : has_shelf e1 = has_shelf e2 → remote e1 = remote e2 →
      (remote e1 = false → agree (wtree (eworld e1)) (wtree (eworld e2)) ∧ tick (eworld e1) = tick (eworld e2)) →
      alike_shelf (Some e1) (Some e2).
Definition alike (d : davExport) (s1 s2 : DavState) : Prop :=
  ∀ id, match exported d with Some f => f id | None => true end = true → alike_shelf (eshelves s1 !! id) (eshelves s2 !! id).
Definition files_of (s : DavState) : gmap bytes tree := (λ e, wtree (eworld e)) <$> eshelves s.

Lemma files_of_set id w s e : eshelves s !! id = Some e → wtree w = wtree (eworld e) → files_of (set_shelf_world id w s) = files_of s.
Proof.
  intros He Hw. apply map_eq. intros id'. unfold files_of. simpl. rewrite !lookup_fmap.
  destruct (decide (id' = id)) as [->|Hn]; [|by rewrite lookup_alter_ne]. rewrite lookup_alter_eq, He. simpl. by rewrite Hw.
Qed.
Lemma serve_files_alike d r s1 s2 : token_text s1 = token_text s2 → (authorized r s1 = true → alike d s1 s2) →
  (serve_files d r s1).1 = (serve_files d r s2).1.
Proof.
  intros Et Ha. unfold serve_files. assert (authorized r s1 = authorized r s2) as Eauth by (unfold authorized; by rewrite Et).
  destruct (negb (bool_decide _)); [done|]. destruct (CutPrefix _ _) as [rest|]; [|done].
  rewrite <-Eauth. destruct (authorized r s1) eqn:Hauth; [|done]. simpl. destruct (negb (davPathSafe rest)); [done|].
  set (id := match Cut rest with Some (a, _) => a | None => rest end).
  destruct (match exported d with Some f => f id | None => true end) eqn:Hx; [|done]. simpl.
  destruct (Ha eq_refl id Hx) as [|e1 e2 Eh Er Hagree]; [done|]. rewrite <-Eh, <-Er.
  destruct (has_shelf e1); [|done]. destruct (remote e1); [done|]. simpl. destruct (Hagree eq_refl) as [Hagr Htick].
  case_decide; [done|]. destruct (_ && _); [done|].
  destruct (blind_run (webdav_serve (davExportPrefix ++ id) r) [] ltac:(constructor) (eworld e1) (eworld e2) Hagr Htick) as (E & _).
  destruct (run _ _ (eworld e1)), (run _ _ (eworld e2)). simpl in *. by rewrite E.
Qed.
Lemma serve_files_keeps d r s : files_of (serve_files d r s).2 = files_of s ∧ token_text (serve_files d r s).2 = token_text s.
Proof.
  unfold serve_files. destruct (negb (bool_decide _)); [done|]. destruct (CutPrefix _ _) as [rest|]; [|done].
  destruct (negb (authorized r s)); [done|]. destruct (negb (davPathSafe rest)); [done|].
  set (id := match Cut rest with Some (a, _) => a | None => rest end).
  destruct (negb (match exported d with Some f => f id | None => true end)); [done|].
  destruct (eshelves s !! id) as [e|] eqn:He; [|done]. destruct (_ || _); [done|]. case_decide; [done|]. destruct (_ && _); [done|].
  destruct (blind_run (webdav_serve (davExportPrefix ++ id) r) [] ltac:(constructor) (eworld e) (eworld e) ltac:(done) eq_refl) as (_ & _ & E & _).
  destruct (run _ _ (eworld e)) as [a w]. simpl in *. split; [|done]. by eapply files_of_set.
Qed.

End confined.

(** ** The token is not served *)
Section exposed.
Context `{ConfigEnv, HostPaths}.
Lemma check_shelves_ok tokenFile l : check_shelves tokenFile l = Ok tt → ∀ c src root p, c ∈ l → ResolveSource c = Ok src →
  IsVirtual src = false → davCanonicalPath (SPath src) = Some root → tokenFile = root ++ p → shown p = false.
Proof.
  induction l as [|c' l IH]; simpl; [by intros _ ? ? ? ? []%elem_of_nil|]. intros Hc c src root p [->|Hin]%elem_of_cons Hsrc Hv Hroot Hp.
  - rewrite Hsrc, Hv, Hroot in Hc. rewrite decide_True in Hc by (rewrite Hp; by eexists). rewrite Hp, drop_app_length in Hc.
    unfold shown. by destruct (IsShelfFile _).
  - eapply IH; try done. destruct (ResolveSource c') as [src'|]; [|done]. destruct (IsVirtual src'); [done|].
    destruct (davCanonicalPath (SPath src')) as [root'|]; [|done]. case_decide; [|done]. by destruct (IsShelfFile _).
Qed.
(** The file that holds the token is never served: once the configuration
    passed its check, no name within a configured local shelf leads the
    export to it. *)
Theorem token_file_not_served tokenFile l c src root token name :
  checkTokenFileNotExported tokenFile l = Ok tt → c ∈ l → ResolveSource c = Ok src → IsVirtual src = false →
  davCanonicalPath (SPath src) = Some root → davCanonicalPath tokenFile = Some token →
  (rel name).2 = true → root ++ path_of (rel name).1 ≠ token.
Proof.
  unfold checkTokenFileNotExported. intros Hc Hin Hsrc Hv Hroot Htok Hs E. rewrite Htok in Hc.
  destruct (rel_spec name) as (p & Hp & Er & Ep). rewrite Er in Hs, E. simpl in Hs, E. rewrite Ep in E.
  pose proof (check_shelves_ok token l Hc c src root p Hin Hsrc Hv Hroot (eq_sym E)) as Hn. congruence.
Qed.
End exposed.
End DavExport.
