(* ===== verification/Witnesses.v ===== *)
(** * Concrete runs

    A library with one book of two sources, in the environment of Sample:
    the properties that have hypotheses are applied there, to runs of the
    program that succeed. *)

From S2P Require Import Prelude Utf8 Strings Json Fs FsSpec Atomic ShelfUtil BookMeta Source Book BookSpec Sample.

Module Witnesses.
Import Sample Atomic Book.
#[local] Existing Instance ShelfUtil.AsciiCase.

Definition source_meta (id text : bytes) : SourceMeta.SourceMeta :=
  SourceMeta.mkSourceMeta 1 id 0 [] ShelfUtil.BookFormatText [] text 0 (Z.of_nat (length text)).
Definition book_meta : BookMeta.BookMeta :=
  BookMeta.mkBookMeta 1 (str "b1") (str "Title") ShelfUtil.BookFormatText [] ∅ [] [] (str "en") [] 3 false
    0 zero_time zero_time (str "s1").

Definition shelf_dir : path := [str "books"].
Definition book_dir : path := shelf_dir ++ [str "t (b1).bookpkg"].
Definition source_dir (id : bytes) : path := sources_path book_dir ++ [id].

Definition source_files (id text : bytes) : list (path * node) :=
  [(source_dir id, Dir);
   (source_dir id ++ [Source.SourceFile], File (Raw text) 0);
   (source_dir id ++ [Source.SourceMetaFile],
    File (Doc (SourceMeta.encode (source_meta id text))) 0)].
Definition library : tree := list_to_map (
  [([], Dir); (shelf_dir, Dir); (book_dir, Dir);
   (meta_path book_dir, File (Doc (BookMeta.encode book_meta)) 0);
   (sources_path book_dir, Dir)]
  ++ source_files (str "s1") (str "one") ++ source_files (str "s2") (str "two")).

Lemma library_wf : wf_tree library.
Proof. apply wf_treeb_ok. vm_compute. reflexivity. Qed.

Definition book : Book := mkBook true book_dir book_meta None.
Definition source : Source.Source :=
  Source.mkSource true (source_dir (str "s1")) (source_meta (str "s1") (str "one")).
Definition succeeds {A} (o : result error A * world) : bool := is_ok o.1.

Lemma WriteFileAtomic_old_or_new_witness :
  succeeds (WriteFileAtomic (meta_path book_dir) (Raw (str "x")) (start library)) = true ∧
  let '(r, w') := WriteFileAtomic (meta_path book_dir) (Raw (str "x")) (start library) in
  (wtree w' !! meta_path book_dir = library !! meta_path book_dir ∨
   ∃ z, wtree w' !! meta_path book_dir = Some (File (Raw (str "x")) z)) ∧
  (r = Ok tt → ∃ z, wtree w' !! meta_path book_dir = Some (File (Raw (str "x")) z)) ∧
  (∀ q, q ≠ meta_path book_dir → ¬ temp_of (meta_path book_dir) q → wtree w' !! q = library !! q).
Proof.
  split; [vm_compute; reflexivity|].
  apply (WriteFileAtomic_old_or_new (meta_path book_dir) (Raw (str "x")) (start library));
    [apply library_wf|discriminate|discriminate].
Defined.

Lemma UpdateContent_spec_witness :
  let rd := mkReader (str "new text") None in
  succeeds (Source.UpdateContent source rd (start library)) = true ∧
  wp (Source.UpdateContent source rd) (Source.update_outcome source rd (start library))
    (start library).
Proof.
  intros rd. split; [vm_compute; reflexivity|].
  apply (Source.UpdateContent_spec source rd (start library)). apply library_wf.
Defined.

Lemma setMeta_spec_witness :
  let m := BookMeta.set_ID (str "b2") book_meta in
  succeeds (setMeta book m (start library)) = true ∧
  wp (setMeta book m) (BookSpec.setMeta_outcome book m (start library)) (start library).
Proof.
  intros m. split; [vm_compute; reflexivity|].
  apply (BookSpec.setMeta_spec book m (start library)). apply library_wf.
Defined.

Lemma DeleteSource_spec_witness :
  succeeds (DeleteSource book (str "s1") (start library)) = true ∧
  wp (DeleteSource book (str "s1")) (BookSpec.delete_outcome book (str "s1") (start library))
    (start library).
Proof.
  split; [vm_compute; reflexivity|].
  apply (BookSpec.DeleteSource_spec book (str "s1") (start library)). apply library_wf.
Defined.

Lemma freeSourceID_terminates_witness :
  ∃ j n, freeSourceID book (str "s1") (mkWorld library 0) =
      (Ok (BookSpec.candidate (str "s1") j), mkWorld library n) ∧
    library !! (sources_path book_dir ++ [BookSpec.candidate (str "s1") j]) = None.
Proof.
  apply (BookSpec.freeSourceID_terminates book (str "s1") library 0);
    [reflexivity|apply library_wf|discriminate|vm_compute; reflexivity].
Defined.

End Witnesses.
