(* ===== verification/ShelfWitnesses.v ===== *)
(** * Concrete runs of a shelf

    The library of Witnesses, served by a shelf: the properties of the shelf's
    handlers are applied to runs that succeed. *)

From S2P Require Import Prelude Utf8 Strings Json Fs FsSpec Atomic ShelfUtil BookMeta Source Frame Relocate ScanCache FolderMeta Book NoFault ShelfState Trash Folder ShelfBook ShelfFrame ShelfInv TrashSpec TrashRoundtrip Sample Witnesses.

Module ShelfWitnesses.
Import Sample BookMeta Book Shelf Trash Folder ShelfBook TrashSpec TrashRoundtrip ShelfInv Witnesses.
#[local] Existing Instance ShelfUtil.AsciiCase.

Definition scan_cache : ScanCache.Cache :=
  ScanCache.mkCache true [FolderMeta.FolderMeta.FolderMetaFile] ∅ (ScanCache.mkStats 0 0 0).
Definition served (t : tree) : Shelf :=
  mkShelf (start t) false true ∅ ∅ (newBookCache (60 * second) (5 * second)) scan_cache Unlocked.
Definition disk : tree := <[[trashFolder] := Dir]> (<[trashBooksFolder := Dir]> library).
Definition shelf : Shelf := served disk.
Lemma disk_wf : wf_tree disk.
Proof. apply wf_treeb_ok. vm_compute. reflexivity. Qed.
Definition id1 : bytes := str "b1".

(** Whether a handler succeeds, and the shelf afterwards. *)
Definition works {A : Type} (o : result error A * Shelf) : bool := is_ok o.1.
Definition trashed_shelf : Shelf := (MoveBookToTrash id1 shelf).2.

Lemma trashed_wf : wf_tree (stree trashed_shelf).
Proof. apply wf_treeb_ok. vm_compute. reflexivity. Qed.

Lemma MoveBookToTrash_keeps_the_book_witness :
  works (MoveBookToTrash id1 shelf) = true ∧
  wp (MoveBookToTrash id1) (λ r s',
    stree s' = stree shelf ∧ is_ok r = false ∨
    ∃ b fs, found Exclusive id1 shelf b fs ∧
      move_outcome id1 (folderPath b) (trashPathOf id1) fs (stree shelf) r s') shelf.
Proof.
  split; [vm_compute; reflexivity|].
  apply (MoveBookToTrash_keeps_the_book id1 shelf). apply disk_wf.
Defined.


Lemma DeleteTrashedBook_only_it_witness :
  works (DeleteTrashedBook id1 trashed_shelf) = true ∧
  wp (DeleteTrashedBook id1) (λ r s',
    (∀ q, ¬ under (trashBooksFolder ++ [id1 ++ bookExtension]) q →
       stree s' !! q = stree trashed_shelf !! q) ∧
    (validateBookID id1 ≠ Ok tt → is_ok r = false ∧ stree s' = stree trashed_shelf) ∧
    (r = Ok tt → ∀ q, under (trashBooksFolder ++ [id1 ++ bookExtension]) q →
      stree s' !! q = None)) trashed_shelf.
Proof.
  split; [vm_compute; reflexivity|].
  apply (DeleteTrashedBook_only_it id1 trashed_shelf). apply trashed_wf.
Defined.

(** A trash of the older layout beside a newer one. *)
Definition legacy : tree := list_to_map
  [([], Dir); ([trashFolder], Dir); ([legacyTrashFolder], Dir); (legacyTrashBooksFolder, Dir);
   (legacyTrashBooksFolder ++ [str "a.bookpkg"], Dir);
   (legacyTrashBooksFolder ++ [str "a.bookpkg"; str "book.json"], File (Raw (str "x")) 0)].
Lemma legacy_wf : wf_tree legacy.
Proof. apply wf_treeb_ok. vm_compute. reflexivity. Qed.

Lemma ensureTrashFolder_keeps_files_witness :
  wtree (ensureTrashFolder (start legacy)).2 !!
    (trashBooksFolder ++ [str "a.bookpkg"; str "book.json"]) = Some (File (Raw (str "x")) 0) ∧
  wp ensureTrashFolder (λ _ w', wf_tree (wtree w') ∧ ∃ f,
    (∀ q1 q2, file_at legacy q1 → file_at legacy q2 → f q1 = f q2 → q1 = q2) ∧
    (∀ q c z, legacy !! q = Some (File c z) → wtree w' !! f q = Some (File c z)) ∧
    (∀ q, f q ≠ q → under [legacyTrashFolder] q)) (start legacy).
Proof.
  split; [vm_compute; reflexivity|].
  apply (ensureTrashFolder_keeps_files (start legacy)). apply legacy_wf.
Defined.

Definition opened : Book := default book (
  match (getUpdatedBookFromBookID id1 (ShelfFrame.after_lock Exclusive shelf)).1 with
  | Ok (b, _) => Some b | Err _ => None end).

Lemma opened_at_home : at_home shelf (folderPath opened) [] (str "t (b1).bookpkg").
Proof.
  split.
  - vm_compute. reflexivity.
  - split; [|vm_compute; reflexivity]. split; [discriminate|]. split; [discriminate|].
    split; [discriminate|]. apply (bool_decide_unpack _). vm_compute. exact I.
  - vm_compute. reflexivity.
  - vm_compute. reflexivity.
  - exists (Doc (BookMeta.encode book_meta)), 0%Z, book_meta.
    split; vm_compute; reflexivity.
  - vm_compute. reflexivity.
Qed.

Lemma moved_it : MoveBookToTrash id1 shelf = (Ok tt, trashed_shelf).
Proof.
  assert ((MoveBookToTrash id1 shelf).1 = Ok tt) as E by (vm_compute; reflexivity).
  rewrite (surjective_pairing (MoveBookToTrash id1 shelf)), E. reflexivity.
Qed.
Lemma found_it : found Exclusive id1 shelf opened [].
Proof.
  assert (match (getUpdatedBookFromBookID id1 (ShelfFrame.after_lock Exclusive shelf)).1 with
          | Ok (_, fs) => bool_decide (fs = []) | Err _ => false end = true) as Hf
    by (vm_compute; reflexivity).
  unfold found, opened. destruct (getUpdatedBookFromBookID _ _).1 as [[b fs]|e]; [|discriminate Hf].
  apply bool_decide_eq_true in Hf. subst. reflexivity.
Qed.

Lemma restore_undoes_trash_witness :
  wp (RestoreTrashedBook id1) (λ r s2, r = Ok tt ∧
    ∀ q, ¬ (∃ n, q = folderPath opened ++ [n] ∧ Atomic.Atomic.isTempFileName n = true) →
      stree s2 !! q = stree shelf !! q) trashed_shelf.
Proof.
  assert (∀ n, lock_times_out n = false) as Hl by done.
  apply (restore_undoes_trash Hl id1 shelf opened [] (str "t (b1).bookpkg")).
  - apply disk_wf.
  - apply moved_it.
  - apply found_it.
  - vm_compute. reflexivity.
  - apply opened_at_home.
Defined.

Lemma slugs_plain : slug_plain.
Proof. intros s. unfold Slugify. simpl. rewrite list_elem_of_filter. tauto. Qed.

Lemma book_cache_invariant_witness :
  match cache (bcache (getUpdatedBookFromBookID id1 shelf).2) !! id1 with
  | Some e => package_at (epath e) (folders e) ∧ folderPath (Shelf.book e) = epath e
  | None => False
  end.
Proof.
  destruct (cache _ !! id1) as [e|] eqn:E.
  - apply (book_cache_invariant shelf (getUpdatedBookFromBookID id1 shelf).2 id1 e).
    + apply slugs_plain.
    + reflexivity.
    + reflexivity.
    + eapply rtc_l; [apply step_lookup|apply rtc_refl].
    + exact E.
  - vm_compute in E. discriminate E.
Defined.

Lemma ReadDir_sound_witness :
  let w := ScanCache.NewWalk scan_cache in
  wp (ScanCache.WReadDir w shelf_dir false) (λ r s', ∃ res w', r = Ok (res, w') ∧
    wtree s' = library ∧
    (∀ children trusted, res = Ok (children, trusted) →
      library !! shelf_dir = Some Dir ∧
      children = ScanCache.dirChildren (entries library shelf_dir) (ScanCache.wkeep w)) ∧
    ScanCache.coherent (ScanCache.wkeep w) library (ScanCache.next w')) (start library).
Proof.
  intros w. apply (ScanCache.ReadDir_sound w shelf_dir false (start library)).
  - intros p s k n Hs. change ((∅ : gmap path ScanCache.dirSnapshot) !! p = Some s) in Hs. rewrite lookup_empty in Hs. discriminate Hs.
  - intros p s k n Hs. change ((∅ : gmap path ScanCache.dirSnapshot) !! p = Some s) in Hs. rewrite lookup_empty in Hs. discriminate Hs.
Defined.

End ShelfWitnesses.
