(* ===== verification/HandlerWitnesses.v ===== *)
(** * Concrete runs of the folder and book handlers

    The shelf of ShelfWitnesses with three more folders, and a second shelf
    beside it: the properties of the handlers that move, copy, rename and
    delete are applied to runs that succeed. *)

From S2P Require Import Prelude Utf8 Strings Float64 Json Fs FsSpec Atomic ShelfUtil BookMeta Source Frame Relocate ScanCache FolderMeta Book NoFault ShelfState Trash Folder ShelfBook ShelfFrame FolderSpec FolderMetaSpec ShelfInv Lookup TrashSpec BookMoveSpec CopySpec TrashRoundtrip ScanComplete Sample Witnesses ShelfWitnesses.

Module HandlerWitnesses.
Import Sample BookMeta Book FolderMeta Shelf Trash Folder ShelfBook ShelfFrame TrashSpec ShelfInv Witnesses ShelfWitnesses.
Import FolderSpec FolderMetaSpec Lookup BookMoveSpec CopySpec ScanComplete.
#[local] Existing Instance ShelfUtil.AsciiCase.

(** Folders [a], [a/b] and [c], the last with a [folder.json]. *)
Definition name_a : bytes := str "a".
Definition name_b : bytes := str "b".
Definition name_c : bytes := str "c".
Definition foldered : tree :=
  <[take 1 booksTmp := Dir]> (<[booksTmp := Dir]>
  (<[shelf_dir ++ [name_a] := Dir]> (<[shelf_dir ++ [name_a; name_b] := Dir]>
  (<[shelf_dir ++ [name_c] := Dir]>
  (<[shelf_dir ++ [name_c; FolderMetaFile] := File (Doc (JObj [])) 0]> disk))))).
Definition fshelf : Shelf := served foldered.
Lemma foldered_wf : wf_tree (stree fshelf).
Proof. apply wf_treeb_ok. vm_compute. reflexivity. Qed.
Lemma fshelf_ok : shelf_ok fshelf.
Proof. by apply empty_ok. Qed.

Lemma RenameFolder_moves_whole_witness :
  works (RenameFolder [name_a] (str "z") fshelf) = true ∧
  wp (RenameFolder [name_a] (str "z")) (λ r s',
    relocated (folderDir [name_a]) (folderDir [str "z"]) r fshelf s' ∧
    (r = Ok tt → [name_a] ≠ [] ∧ ValidateFolderPath fshelf [name_a] = Ok tt ∧
      ValidateFolderPath fshelf [str "z"] = Ok tt ∧
      validateNewFolderName (str "z") = Ok tt ∧ readOnly fshelf = false)) fshelf.
Proof.
  split; [vm_compute; reflexivity|].
  apply (RenameFolder_moves_whole [name_a] (str "z") fshelf). apply foldered_wf.
Defined.

Lemma MoveFolder_moves_whole_witness :
  works (MoveFolder [name_a] [name_c] fshelf) = true ∧
  wp (MoveFolder [name_a] [name_c]) (λ r s',
    relocated (folderDir [name_a]) (folderDir [name_c; name_a]) r fshelf s' ∧
    (r = Ok tt → [name_a] ≠ [] ∧ ValidateFolderPath fshelf [name_a] = Ok tt ∧
      ValidateFolderPath fshelf [name_c] = Ok tt ∧ is_Some (stree fshelf !! folderDir [name_c]) ∧
      readOnly fshelf = false)) fshelf.
Proof.
  split; [vm_compute; reflexivity|].
  apply (MoveFolder_moves_whole [name_a] [name_c] fshelf). apply foldered_wf.
Defined.


Lemma deleteFolder_only_empty_witness :
  works (deleteFolder [name_c] None fshelf) = true ∧
  wp (deleteFolder [name_c] None) (λ r s', delete_outcome (folderDir [name_c]) r fshelf s') fshelf.
Proof.
  split; [vm_compute; reflexivity|].
  apply (deleteFolder_only_empty [name_c] None fshelf). apply foldered_wf.
Defined.

Definition icon_update (obj : Object.Object) : Object.Object :=
  Object.SetMember obj folderMetaIconKey (JStr (str "star")).
Lemma updateFolderMeta_refines_witness :
  let mp := folderDir [name_c] ++ [FolderMetaFile] in
  let v := folderMetaVersion (data_at foldered mp) in
  works (updateFolderMeta [name_c] v icon_update fshelf) = true ∧
  wp (updateFolderMeta [name_c] v icon_update) (λ r s',
    update_outcome mp (member_update v icon_update (data_at (stree fshelf) mp)) r
      (stree fshelf) (stree s')) fshelf.
Proof.
  split; [vm_compute; reflexivity|].
  apply (updateFolderMeta_refines [name_c] _ icon_update fshelf). apply foldered_wf.
Defined.

Lemma SetFolderSortKey_reads_back_witness :
  let mp := folderDir [name_c] ++ [FolderMetaFile] in
  let v := folderMetaVersion (data_at foldered mp) in
  let key := F64.of_int 3 in
  works (SetFolderSortKey [name_c] key v fshelf) = true ∧
  wp (SetFolderSortKey [name_c] key v) (λ r s', r = Ok tt →
    finite key = true ∧ folderMetaVersion (data_at (stree fshelf) mp) = v ∧
    ∃ obj c, members_of (data_at (stree fshelf) mp) = Ok obj ∧ data_at (stree s') mp = Some c ∧
      sort_key_written key obj c) fshelf.
Proof.
  split; [vm_compute; reflexivity|].
  apply (SetFolderSortKey_reads_back [name_c] _ _ fshelf). apply foldered_wf.
Defined.

Definition found1 : Book * ShelfUtil.FolderPath :=
  match (getUpdatedBookFromBookID id1 fshelf).1 with
  | Ok bf => bf | Err _ => (book, []) end.
Lemma lookup_is_in_library_witness :
  package_at (folderPath found1.1) found1.2 ∧ stree fshelf !! folderPath found1.1 = Some Dir ∧
  is_Some (stree fshelf !! meta_path (folderPath found1.1)).
Proof.
  apply (lookup_is_in_library fshelf fshelf id1 found1.1 found1.2).
  - apply slugs_plain.
  - reflexivity.
  - reflexivity.
  - apply rtc_refl.
  - apply foldered_wf.
  - unfold found1. destruct (getUpdatedBookFromBookID id1 fshelf).1 as [[b fs]|e] eqn:E; [reflexivity|].
    vm_compute in E. discriminate E.
Defined.

Lemma MoveBook_keeps_files_witness :
  works (MoveBook id1 [name_a] fshelf) = true ∧
  wp (MoveBook id1 [name_a]) (book_moved id1 [name_a] fshelf) fshelf.
Proof.
  split; [vm_compute; reflexivity|].
  apply (MoveBook_keeps_files id1 [name_a] fshelf); [apply foldered_wf|apply fshelf_ok].
Defined.

Lemma NewBookWith_adds_a_book_witness :
  works (NewBookWith [name_a] (str "New") None fshelf) = true ∧
  wp (NewBookWith [name_a] (str "New") None)
    (λ r s', published [name_a] (stree fshelf) r (stree s')) fshelf.
Proof.
  split; [vm_compute; reflexivity|].
  apply (NewBookWith_adds_a_book [name_a] (str "New") None fshelf);
    [apply slugs_plain|discriminate|apply foldered_wf].
Defined.

Lemma CopyBook_adds_a_book_witness :
  works (CopyBook id1 [name_a] fshelf) = true ∧
  wp (CopyBook id1 [name_a]) (λ r s', published [name_a] (stree fshelf) r (stree s')) fshelf.
Proof.
  split; [vm_compute; reflexivity|].
  apply (CopyBook_adds_a_book id1 [name_a] fshelf); [apply slugs_plain|apply foldered_wf].
Defined.

Lemma CopyBook_copies_files_witness :
  works (CopyBook id1 [name_a] fshelf) = true ∧
  wp (CopyBook id1 [name_a]) (λ r s', ∀ b', r = Ok b' → ∃ b fs0, found Exclusive id1 fshelf b fs0 ∧
    copy_holds (folderPath b) false (stree fshelf) (stree s') (folderPath b')) fshelf.
Proof.
  split; [vm_compute; reflexivity|].
  apply (CopyBook_copies_files id1 [name_a] fshelf);
    [apply slugs_plain|apply foldered_wf|apply fshelf_ok].
Defined.

(** Two shelves: the second has no books. *)
Definition empty_disk : tree := list_to_map
  [([], Dir); (shelf_dir, Dir); (take 1 booksTmp, Dir); (booksTmp, Dir); ([trashFolder], Dir); (trashBooksFolder, Dir)].
Definition shelves : Shelf * Shelf := (fshelf, served empty_disk).
Lemma MoveBookFrom_keeps_the_book_witness :
  is_ok (MoveBookFrom id1 [name_a] shelves).1 = true ∧
  wp (MoveBookFrom id1 [name_a]) (cross_moved id1 [name_a] shelves) shelves.
Proof.
  split; [vm_compute; reflexivity|].
  apply (MoveBookFrom_keeps_the_book id1 [name_a] shelves);
    [apply slugs_plain|apply foldered_wf|apply wf_treeb_ok; vm_compute; reflexivity|apply fshelf_ok].
Defined.

Lemma scan_finds_every_book_witness :
  wp scanToBookCache (λ r s', r = Ok tt ∧ stree s' = stree fshelf ∧
    is_Some (cache (bcache s') !! ID (normalizeMetaVersion book_meta))) fshelf.
Proof.
  apply (scan_finds_every_book fshelf [] (str "t (b1).bookpkg") (Doc (BookMeta.encode book_meta)) 0%Z book_meta).
  - apply foldered_wf.
  - intros q sn k n Hq. change ((∅ : gmap path ScanCache.dirSnapshot) !! q = Some sn) in Hq.
    rewrite lookup_empty in Hq. discriminate Hq.
  - split.
    + apply (bool_decide_unpack _). vm_compute. exact I.
    + apply (bool_decide_unpack _). vm_compute. exact I.
    + constructor.
    + vm_compute. reflexivity.
    + vm_compute. reflexivity.
    + vm_compute. reflexivity.
    + vm_compute. reflexivity.
Defined.

End HandlerWitnesses.
