(* ===== verification/RemoteWitnesses.v ===== *)
(** * Concrete runs of the caches a shelf keeps on disk

    The fingerprint cache of the library of Witnesses: a source found by its
    file's time and size, and a cache saved over what another run left. *)

From stdpp Require Import countable.
From S2P Require Import Prelude Utf8 Strings Float64 Json Fs FsSpec Atomic ShelfUtil BookMeta Source Frame ScanCache FolderMeta Book NoFault ShelfState Trash Folder ShelfBook ShelfFrame FolderSpec ShelfInv Sample Documents Fingerprint CacheExport CacheSnapshot ShelfConfig Manager Offline OfflineSpec Witnesses ShelfWitnesses HandlerWitnesses.

Module CacheWitnesses.
Import Sample BookMeta Book Shelf Fingerprint Witnesses.

#[local] Instance time_nano : TimeNano := {
  format_nano t := bits (countable.encode t);
  parse_nano s := countable.decode (of_bits s);
}.
#[local] Instance time_nano_laws : TimeNanoLaws.
Proof. intros t. simpl. by rewrite of_bits_bits, decode_encode. Qed.
#[local] Instance version : AppVersion := str "1".

(** A builder whose sketch is the text itself. *)
Definition build : Builder := λ data, Ok (mkEntry data (Z.of_nat (length data)) 1 (str "sketch of " ++ data)).
Definition rules : Algo := mkAlgo (str "n") (str "s") (str "h") 3.
Definition text : bytes := str "one".
Definition key : bytes := indexKey (ID (meta book)) (source_id source).
Definition known : Entry := mkEntry text 3 1 (str "sketch of one").
(** A cache that saw the source a while after it was written. *)
Definition warm : Cache := mkCache true rules
  {[ key := mkIndex 3 0 text (10 * second)%Z ]} {[ text := known ]} (mkStats 0 0 0 0) ∅.

Definition answer_of (o : result error (result error Entry * Cache) * world) : option Entry :=
  match o.1 with Ok (Ok e, _) => Some e | _ => None end.

(** Another run has left what it knows of the source, older, and of a source
    of a book that is gone. *)
Definition other_key : bytes := indexKey (str "b2") (str "s1").
Definition other : Entry := mkEntry (str "two") 3 1 (str "sketch of two").
Definition left_behind : cacheFile := to_file rules
  {[ key := mkIndex 2 0 (str "on") (5 * second)%Z; other_key := mkIndex 3 0 (str "two") (20 * second)%Z ]}
  {[ str "two" := other ]}.
Definition cached : tree := <[[appFolder] := Dir]> (<[file_path := File (Doc (enc_file left_behind)) 0]> library).
Lemma cached_wf : wf_tree cached.
Proof. apply wf_treeb_ok. vm_compute. reflexivity. Qed.
Definition live : gset bytes := {[ str "b1" ]}.
Definition saved_cache : Cache := default warm (match (Save (Some live) warm (start cached)).1 with Ok c => Some c | Err _ => None end).

Lemma Save_keeps_newest_witness :
  index saved_cache = index warm ∧ entries saved_cache = entries warm ∧
  wp (Save (Some live) warm) (λ r w', only_cache_file cached (wtree w') ∧
    ∀ c', r = Ok c' → saved (Some live) warm cached c' ∧ recorded c' (wtree w')) (start cached).
Proof.
  split; [vm_compute; reflexivity|]. split; [vm_compute; reflexivity|].
  apply (Save_keeps_newest (Some live) warm (start cached)).
  - apply cached_wf.
  - split; [split; done|split; done| |].
    + apply map_Forall_singleton. split; done.
    + apply map_Forall_singleton. split; split; done.
Defined.
End CacheWitnesses.

(** * Concrete runs of exports

    The shelf of HandlerWitnesses scans its folders and its book and exports
    what it lists; another shelf opens the same files and lists it. *)

Module ExportWitnesses.
Import Sample BookMeta Book Shelf Witnesses CacheFile CacheExport CacheSnapshot.
#[local] Existing Instance ShelfUtil.AsciiCase.
#[local] Instance version : AppVersion := str "1".
#[local] Instance compact : CompactText := λ _, [].
#[local] Instance conf : ExportConf := {| bookCacheWriterID := str "laptop"; bookCacheInterval := defaultBookCacheInterval |}.
#[local] Instance remote_source : RemoteSource := λ _, true.

(** A shelf that has scanned its folders and one book, and another that has
    just opened what the first one wrote. *)
Definition marked_c : json := JObj [(str "icon", JStr (str "book")); (str "sort_key", JInt 2)].
Definition files : tree :=
  <[[appFolder] := Dir]> (<[shelf_dir ++ [HandlerWitnesses.name_c; FolderMeta.FolderMeta.FolderMetaFile] := File (Doc marked_c) 0]>
    HandlerWitnesses.foldered).
Definition before : Shelf := set_world (mkWorld files 7) HandlerWitnesses.fshelf.
Definition scanned : Shelf := (scanToBookCache before).2.
Definition after_run : result error unit * Shelf := exportBookCache true scanned.
Definition reader : Shelf := set_world (mkWorld (stree after_run.2) 100) (ShelfWitnesses.served ∅).
Definition entry : bookIDCacheEntry := default (mkEntry [] [] book 0 [] [] 0) (cache (bcache scanned) !! str "b1").

Lemma scanned_cache : cache (bcache scanned) = {[ str "b1" := entry ]}.
Proof. vm_compute. reflexivity. Qed.
Definition mark : FolderMeta.FolderMeta.FolderMeta := default FolderMeta.FolderMeta.emptyMeta (folderMeta (bcache scanned) !! str "c").
Lemma scanned_exportable : exportable (bcache scanned).
Proof.
  split.
  - rewrite scanned_cache. apply map_Forall_singleton. split.
    + exists (str "t (b1).bookpkg"). split; [vm_compute; reflexivity|]. split; [vm_compute; reflexivity|].
      apply (bool_decide_unpack _). vm_compute. exact I.
    + apply (bool_decide_unpack _). vm_compute. exact I.
    + vm_compute. reflexivity.
    + vm_compute. discriminate.
  - apply (bool_decide_unpack _). vm_compute. exact I.
  - assert (cfolders (bcache scanned) = [[]; [str "a"]; [str "a"; str "b"]; [str "c"]]) as -> by (vm_compute; reflexivity).
    repeat constructor; vm_compute; discriminate.
  - assert (folderMeta (bcache scanned) = {[ str "c" := mark ]}) as -> by (vm_compute; reflexivity).
    apply map_Forall_singleton. split; [|vm_compute; reflexivity].
    exists [str "c"]. split; [|split; [discriminate|vm_compute; reflexivity]].
    apply (bool_decide_unpack _). vm_compute. exact I.
Qed.
Lemma scanned_storable : storable_cache (payload_of scanned).
Proof.
  split; [split; vm_compute; discriminate|split; vm_compute; discriminate|]. intros id e He.
  change (collectExportBooks scanned !! id = Some e) in He. unfold collectExportBooks in He.
  rewrite scanned_cache, lookup_fmap in He. apply fmap_Some in He as (x & [_ <-]%lookup_singleton_Some & ->).
  assert (meta (Shelf.book entry) = book_meta) as E by (vm_compute; reflexivity).
  unfold storable_cache_entry, exportEntry. cbn [XMeta from_option]. rewrite E.
  split; first [split; vm_compute; discriminate|vm_compute; reflexivity].
Qed.
Lemma set_world_tree t n (s : Shelf) : stree (set_world (mkWorld t n) s) = t.
Proof. reflexivity. Qed.
Definition in_app (e : path * node) : bool :=
  match e with ([a; _], File _ _) => bool_decide (a = appFolder) | _ => false end.
Lemma no_app_file (t : tree) name c z :
  existsb in_app (map_to_list t) = false → t !! [appFolder; name] = Some (File c z) → False.
Proof.
  intros E%not_true_iff_false Hf. apply E, existsb_exists. exists ([appFolder; name], File c z). split.
  - by apply list_elem_of_In, elem_of_map_to_list.
  - by apply bool_decide_true.
Qed.
Lemma no_caches name c z : stree scanned !! [appFolder; name] = Some (File c z) → False.
Proof. apply no_app_file. vm_compute. reflexivity. Qed.
Lemma scanned_wf : wf_tree (stree scanned).
Proof. apply wf_treeb_ok. vm_compute. reflexivity. Qed.

Lemma exportBookCache_only_prunes_stale_witness :
  is_ok after_run.1 = true ∧ wp (exportBookCache true) (exported true scanned) scanned.
Proof.
  split; [vm_compute; reflexivity|].
  apply (exportBookCache_only_prunes_stale true scanned). apply scanned_wf.
Defined.

Lemma bookCacheSnapshot_contained_witness :
  map_Forall remote_ok (remote_of <$> cache (bcache scanned)).
Proof.
  destruct (bookCacheSnapshot_contained (payload_of scanned) (remote_of <$> cache (bcache scanned)) (cfolders (bcache scanned))
    (omap shown_meta (folderMeta (bcache scanned)))) as [H _].
  - apply snapshot_of_export, scanned_exportable.
  - exact H.
Defined.

Lemma remote_lists_the_export_witness :
  wp (refreshRemoteFromSource None) (λ r r1, r = Ok tt ∧ stree r1 = stree reader ∧
    cache (bcache r1) = remote_of <$> cache (bcache scanned) ∧ cfolders (bcache r1) = cfolders (bcache scanned) ∧
    folderMeta (bcache r1) = omap shown_meta (folderMeta (bcache scanned)) ∧
    lastScanStart (bcache r1) = time_Unix (Unix (lastScanStart (bcache scanned)))) reader.
Proof.
  assert (after_run.1 = Ok tt) as E by (vm_compute; reflexivity).
  apply (remote_lists_the_export scanned after_run.2 reader None).
  - apply scanned_wf.
  - apply scanned_exportable.
  - apply scanned_storable.
  - split; [vm_compute; reflexivity|split; vm_compute; discriminate].
  - apply (bool_decide_unpack _). vm_compute. exact I.
  - exact (pair_eta _ _ E).
  - intros name f (_ & _ & c & z & Hf & _) _. destruct (no_caches name c z Hf).
  - unfold reader. apply set_world_tree.
  - vm_compute. reflexivity.
Defined.
End ExportWitnesses.

(** * Concrete configurations and runs of the manager *)

Module ConfigWitnesses.
Import Sample BookMeta Book Shelf Witnesses CacheFile CacheExport ShelfConfig Manager.
#[local] Existing Instance ShelfUtil.AsciiCase.
(** The reading of [time.ParseDuration] on the texts used here. *)
#[local] Instance plain : ConfigEnv := {|
  ParseDuration t := if decide (t = str "5s") then Some 5000000000%Z else if decide (t = str "2m") then Some 120000000000%Z else None;
  url_parses _ := true;
  logger_opens := true |}.
(** Every root opens but that of shelves called ["missing"], and closing
    fails at the sixth step. *)
#[local] Instance env : ManagerEnv := {|
  opens_local _ root := if decide (root = str "missing") then Err (Msg "no such directory") else Ok tt;
  opens_remote _ _ := Ok tt;
  closes k := if decide (k = 5) then Err (Msg "close") else Ok tt |}.

Definition conf (root interval : bytes) (ro : bool) : ShelfConf :=
  mkShelfConf root None ro interval [] [] [] None (str "laptop") [].
Definition named (id root interval : bytes) (ro : bool) : ShelfConfWithID := mkConfID id id (conf root interval ro).

Lemma parseShelfSettings_export_witness :
  ∃ st, parseShelfSettings (conf (str "shelf") (str "5s") false) = Ok st ∧ st_bookCacheWriterID st = str "laptop" ∧
    segment (bookCacheFilePrefix ++ st_bookCacheWriterID st ++ bookCacheFileSuffix).
Proof.
  eexists. split; [vm_compute; reflexivity|]. split; [reflexivity|].
  assert (parseShelfSettings (conf (str "shelf") (str "5s") false) =
    Ok (mkSettings 5000000000 30000000000 5000000000 defaultBookCacheInterval true (str "laptop"))) as E by (vm_compute; reflexivity).
  exact (proj1 (parseShelfSettings_export _ _ E)).
Defined.

(** A run of the manager: two shelves are added, one of them is made
    read-only, and a third one does not open. *)
Definition m1 : Manager := (AddShelf (named (str "a") (str "first") [] false) NewShelfManager).2.
Definition m2 : Manager := (AddShelf (named (str "b") (str "second") (str "5s") false) m1).2.
Definition m3 : Manager := (UpdateShelf (named (str "a") (str "first") (str "2m") true) m2).2.
Definition m4 : Manager := (AddShelf (named (str "c") (str "missing") [] false) m3).2.
Lemma m4_reached : rtc mstep NewShelfManager m4.
Proof.
  eapply rtc_l; [apply (step_add env)|]. eapply rtc_l; [apply (step_add env)|].
  eapply rtc_l; [apply (step_update env)|]. eapply rtc_l; [apply (step_add env)|]. apply rtc_refl.
Qed.

Lemma m2_good : good m2.
Proof. apply wp_AddShelf, wp_AddShelf, good_new. Qed.
(** An update that fails leaves the shelf as it was; one to another folder
    is refused. *)
Lemma UpdateShelf_exact_witness :
  is_ok (UpdateShelf (named (str "a") (str "elsewhere") [] false) m2).1 = false ∧
  is_ok (UpdateShelf (named (str "a") (str "first") (str "2m") true) m2).1 = true ∧
  update_post (named (str "a") (str "first") (str "2m") true) m2
    (UpdateShelf (named (str "a") (str "first") (str "2m") true) m2).1 m3.
Proof.
  split; [vm_compute; reflexivity|]. split; [vm_compute; reflexivity|].
  exact (UpdateShelf_exact (named (str "a") (str "first") (str "2m") true) m2 m2_good).
Defined.

(** A shelf whose closing failed stays in the table with nothing open behind
    it: [Close] went on after the error, [RemoveShelf] did not. *)
Definition m5 : Manager := (RemoveShelf (str "b") m4).2.
Lemma failed_close_stays_listed :
  rtc mstep NewShelfManager m5 ∧ (RemoveShelf (str "b") m4).1 = Err (Msg "close") ∧
  ∃ d, shelves m5 !! str "b" = Some d ∧ opened m5 !! handle d = None.
Proof.
  split; [eapply rtc_r; [apply m4_reached|apply (step_remove env)]|]. split; [vm_compute; reflexivity|].
  eexists. split; [vm_compute; reflexivity|]. vm_compute. reflexivity.
Qed.

(** Opening a shelf on an empty directory makes its folders. *)
Definition empty_root : world := mkWorld {[ [] := Dir ]} 3.
Definition local_settings : shelfSettings := mkSettings 1 2 3 4 true (str "laptop").
Lemma startShelf_keeps_files_witness :
  is_ok (startShelf false local_settings empty_root).1 = true ∧
  wtree (startShelf false local_settings empty_root).2 !! [str "books"] = Some Dir ∧
  started (wtree empty_root) (wtree (startShelf false local_settings empty_root).2).
Proof.
  split; [vm_compute; reflexivity|]. split; [vm_compute; reflexivity|].
  assert (wf_tree (wtree empty_root)) as Hw by (apply wf_treeb_ok; vm_compute; reflexivity).
  exact (proj1 (startShelf_keeps_files false local_settings empty_root Hw)).
Defined.
End ConfigWitnesses.

(** * Concrete runs of offline copies

    A remote shelf over the files of ExportWitnesses downloads its book into
    an empty store, removes it again, is opened again on what the store left,
    and opens on the snapshot while its source is gone. *)

Module OfflineWitnesses.
Import Sample BookMeta Book Shelf Witnesses CacheFile CacheExport CacheSnapshot Offline OfflineSpec DownloadSpec OfflineRestart.
#[local] Existing Instance ShelfUtil.AsciiCase.
#[local] Instance version : AppVersion := str "1".
#[local] Instance compact : CompactText := λ _, str "text".
#[local] Instance conf : ExportConf := {| bookCacheWriterID := str "laptop"; bookCacheInterval := defaultBookCacheInterval |}.
#[local] Instance remote_source : RemoteSource := λ _, true.
#[local] Instance map_order : MapOrder := λ A m, map_to_list m.
#[local] Instance map_order_laws : MapOrderLaws.
Proof. by intros A m. Qed.

Definition empty_store : world := mkWorld {[ [] := Dir ]} 5.
Definition opened : result error offlineStore * world := openOfflineStore empty_store.
Definition store : offlineStore := match opened.1 with Ok o => o | Err _ => mkStore empty_store ∅ ∅ None [] end.
Definition remote : RemoteShelf :=
  mkRemote (ShelfConfig.set_ready true ExportWitnesses.scanned) store None false 0%Z.
Definition fetched : result error Download * RemoteShelf := DownloadBook (str "b1") remote.
Definition entry : bookIDCacheEntry := ExportWitnesses.entry.

Lemma source_of (s : Shelf) b o e a t : source_tree (mkRemote (ShelfConfig.set_ready b s) o e a t) = stree s.
Proof. reflexivity. Qed.
Lemma listing_of_remote (s : Shelf) b o e a t : listing_of (mkRemote (ShelfConfig.set_ready b s) o e a t) = cache (bcache s).
Proof. reflexivity. Qed.
Lemma fetched_ok : is_ok fetched.1 = true.
Proof. vm_compute. reflexivity. Qed.
Lemma remote_downloadable : downloadable remote.
Proof.
  split.
  - apply wf_treeb_ok. vm_compute. reflexivity.
  - unfold remote. rewrite source_of. apply ExportWitnesses.scanned_wf.
  - assert (forallb (λ e : path * node, bool_decide (Forall segment e.1)) (map_to_list (source_tree remote)) = true) as Hb by (vm_compute; reflexivity).
    intros q [n Hn]. rewrite forallb_forall in Hb. specialize (Hb (q, n)). rewrite <-list_elem_of_In, elem_of_map_to_list in Hb.
    specialize (Hb Hn). by apply bool_decide_eq_true in Hb.
  - unfold remote. rewrite listing_of_remote, ExportWitnesses.scanned_cache.
    apply map_Forall_singleton. split.
    + exists (str "t (b1).bookpkg"). split; [vm_compute; reflexivity|]. split; [vm_compute; reflexivity|].
      apply (bool_decide_unpack _). vm_compute. exact I.
    + apply (bool_decide_unpack _). vm_compute. exact I.
    + vm_compute. reflexivity.
  - assert (downloads (offline remote) = ∅) as -> by (vm_compute; reflexivity). apply map_Forall_empty.
Qed.
Lemma remote_opened : openOfflineStore empty_store = (Ok (offline remote), opened.2).
Proof.
  assert (is_ok opened.1 = true) as E by (vm_compute; reflexivity).
  change (offline remote) with store. unfold store. fold opened. destruct opened as [[o|e] w]; [done|done].
Qed.

Lemma DownloadBook_copies_the_package_witness :
  is_ok fetched.1 = true ∧ dom (downloads (offline fetched.2)) = {[ str "b1" ]} ∧
  wp (DownloadBook (str "b1")) (λ r s', is_ok r = false ∧ otree s' = otree remote ∧ view s' = view remote ∨
    ∃ e, listing_of remote !! str "b1" = Some e ∧ download_post (str "b1") e remote r s') remote.
Proof.
  split; [exact fetched_ok|]. split; [apply (bool_decide_unpack _); vm_compute; exact I|].
  apply (DownloadBook_copies_the_package (str "b1") remote remote_downloadable).
Defined.

(** A shelf that has not listed anything yet, its first listing, and a
    download *)
Definition fresh : RemoteShelf := mkRemote ExportWitnesses.reader store None false 0%Z.
Definition ready_shelf : RemoteShelf := (initCache Shelf.scanToBookCache fresh).2.
Definition with_copy : RemoteShelf := (DownloadBook (str "b1") ready_shelf).2.
Definition book_file : path := epath entry ++ [str "book.json"].
Lemma with_copy_reached : rtc (rstep Shelf.scanToBookCache) fresh with_copy.
Proof.
  assert (rstep Shelf.scanToBookCache fresh ready_shelf) as H1 by exact (rs_init Shelf.scanToBookCache fresh).
  assert (rstep Shelf.scanToBookCache ready_shelf with_copy) as H2 by exact (rs_download Shelf.scanToBookCache (str "b1") ready_shelf).
  exact (rtc_l _ _ _ _ H1 (rtc_once _ _ H2)).
Qed.
Lemma offline_copies_are_the_listed_books_witness :
  route with_copy book_file = true ∧
  ∃ p id r, bookPackageOf book_file = Some p ∧ downloads (offline with_copy) !! id = Some r ∧ OPath r = p ∧
    (listed_at (listing_of with_copy) p id ∨ listing_of with_copy !! id = None ∧ ∀ other, ¬ listed_at (listing_of with_copy) p other).
Proof.
  assert (route with_copy book_file = true) as E by (vm_compute; reflexivity). split; [exact E|].
  apply (offline_copies_are_the_listed_books Shelf.scanToBookCache scanToBookCache_fails empty_store opened.2 fresh with_copy book_file).
  - exact remote_opened.
  - vm_compute. reflexivity.
  - exact with_copy_reached.
  - exact E.
Defined.

(** The record a download left *)
Definition record : offlineDownload := default (mkRecord [] 0 0 [] None) (downloads (offline fetched.2) !! str "b1").
Lemma fetched_downloads : downloads (offline fetched.2) = {[ str "b1" := record ]}.
Proof. vm_compute. reflexivity. Qed.
Lemma record_usable : usable (str "b1") record.
Proof. split; vm_compute; reflexivity. Qed.
Lemma record_storable : storable_download record.
Proof.
  split; [vm_compute; reflexivity|split; vm_compute; discriminate|].
  assert (OMeta record = Some book_meta) as -> by (vm_compute; reflexivity).
  split; first [split; vm_compute; discriminate|vm_compute; reflexivity].
Qed.
Lemma record_outermost : outermost (segments_of (OPath record)).
Proof. vm_compute. reflexivity. Qed.
Lemma fetched_wf : wf_tree (otree fetched.2).
Proof. apply wf_treeb_ok. vm_compute. reflexivity. Qed.

Lemma RemoveDownload_only_it_witness :
  is_ok (RemoveDownload (str "b1") fetched.2).1 = true ∧
  wp (RemoveDownload (str "b1")) (λ r s', match downloads (offline fetched.2) !! str "b1" with
    | Some rec => removed (str "b1") rec fetched.2 r s'
    | None => r = Ok tt ∧ s' = fetched.2
    end) fetched.2.
Proof.
  split; [vm_compute; reflexivity|]. apply (RemoveDownload_only_it (str "b1") fetched.2 fetched_wf).
  rewrite fetched_downloads. apply map_Forall_singleton. split; [apply record_usable|apply record_outermost].
Defined.

Lemma download_survives_restart_witness :
  ∃ e, listing_of remote !! str "b1" = Some e ∧ ∀ n, wp openOfflineStore (λ r w, ∃ o, r = Ok o ∧ downloads o = downloads (offline fetched.2) ∧
    ∀ k c z, CopySpec.CopySpec.plain_path k → source_tree remote !! (epath e ++ k) = Some (File c z) →
      ∀ s2, offline s2 = o → wp (OfflineOpen (epath e ++ k)) (λ r _, r = Ok c) s2) (mkWorld (otree fetched.2) n).
Proof.
  assert (∃ d, fetched.1 = Ok d) as [d E] by (pose proof fetched_ok; destruct fetched as [[d|e] s']; [by exists d|done]).
  assert (DownloadBook (str "b1") remote = (Ok d, fetched.2)) as Hrun by (change (DownloadBook (str "b1") remote) with fetched; apply pair_eta, E).
  apply (download_survives_restart (str "b1") remote d fetched.2 remote_downloadable Hrun);
    rewrite fetched_downloads; apply map_Forall_singleton; [apply record_storable|apply record_usable].
Defined.

(** The snapshot of what ExportWitnesses scanned, and a shelf that opens with
    it when nothing reaches its source *)
Definition taken : BookCacheFile := collectExportSnapshot bookCacheWriterID ExportWitnesses.scanned.
Definition saved : result error unit * RemoteShelf := saveSnapshot taken remote.
Lemma snapshot_survives_restart_witness :
  wp openOfflineStore (λ r w, ∃ o, r = Ok o ∧ snapshot o = Some taken ∧ bookCacheDigest taken = Ok (snapshotDigest o))
    (mkWorld (otree saved.2) 50).
Proof.
  assert (saved.1 = Ok tt) as E by (vm_compute; reflexivity).
  assert (saveSnapshot taken remote = (Ok tt, saved.2)) as Hrun by (change (saveSnapshot taken remote) with saved; apply pair_eta, E).
  apply (snapshot_survives_restart taken remote saved.2 50).
  - apply (da_wf _ remote_downloadable).
  - exact ExportWitnesses.scanned_storable.
  - vm_compute. discriminate.
  - exact Hrun.
Defined.

(** A machine on which no step works *)
Section gone.
#[local, refine] Instance unplugged : Machine := {|
  fault _ := FailBefore; clock n := (Z.of_nat n * second)%Z; Intn _ _ := 0; doc_text _ := []; dir_info _ _ := (0, 0)%Z |}.
Proof. done. Defined.
Definition with_snapshot_only : RemoteShelf :=
  mkRemote ExportWitnesses.reader (mkStore empty_store ∅ ∅ (Some taken) []) None false 0%Z.
Lemma offline_shelf_becomes_ready_witness :
  wp (initCache Shelf.scanToBookCache) (λ r s', r = Ok tt ∧ ready (rshelf s') = true ∧
    shows ExportWitnesses.scanned (bcache (rshelf s')) ∧
    downloads (offline s') = downloads (offline with_snapshot_only) ∧ otree s' = otree with_snapshot_only) with_snapshot_only.
Proof.
  apply (offline_shelf_becomes_ready Shelf.scanToBookCache bookCacheWriterID ExportWitnesses.scanned with_snapshot_only).
  - apply ExportWitnesses.scanned_exportable.
  - reflexivity.
  - vm_compute. reflexivity.
  - vm_compute. reflexivity.
Defined.
End gone.

(** A machine on which one read fails: that of the list of downloads while
    the store is opened *)
Section unread.
#[local, refine] Instance one_read_fails : Machine := {|
  fault n := if decide (n = 52) then FailBefore else NoFault; clock n := (Z.of_nat n * second)%Z; Intn _ _ := 0;
  doc_text _ := []; dir_info _ _ := (0, 0)%Z |}.
Proof. done. Defined.
(** The store opens as if nothing had been downloaded; the next list that is
    written forgets what was. *)
Lemma unread_list_is_forgotten :
  dom (downloads (offline fetched.2)) = {[ str "b1" ]} ∧
  match (openOfflineStore (mkWorld (otree fetched.2) 50)).1 with Ok o => downloads o = ∅ | Err _ => False end.
Proof. split; [apply (bool_decide_unpack _); vm_compute; exact I|]. vm_compute. reflexivity. Qed.
End unread.

(** A package inside another is one an export may name, and one whose copy is
    never read: the package on the way to its files is the outer one. *)
Lemma inner_package_not_served k :
  isBookPackagePath (str "books/a.bookpkg/b.bookpkg") = true ∧
  bookPackageOf (segments_of (str "books/a.bookpkg/b.bookpkg") ++ k) = Some (str "books/a.bookpkg").
Proof. split; vm_compute; reflexivity. Qed.
End OfflineWitnesses.
