(* ===== verification/ServerWitnesses.v ===== *)
(** * Concrete runs of the server's parts

    The shelf of HandlerWitnesses seen by a client: its listings, the check
    before a folder is moved, and a batch of deletions. *)

From S2P Require Import Prelude Utf8 Strings Float64 Json Fs FsSpec Atomic ShelfUtil BookMeta Source Frame Relocate ScanCache FolderMeta Book NoFault ShelfState Trash Folder ShelfBook ShelfInv Listing Visibility Http Security Sample CacheExport ShelfConfig TaskQueue ServerTasks Server ServerBooks ServerFolders ServerSources ServerTransfers Routes ServerSpec SketchCodec DavExport Witnesses ShelfWitnesses HandlerWitnesses.

Module ServerWitnesses.
Import Sample BookMeta Book FolderMeta Shelf Listing Visibility ServerTasks Witnesses ShelfWitnesses HandlerWitnesses.
#[local] Existing Instance ShelfUtil.AsciiCase.

(** [a/b] before [a], which has a key, as a client could find them. *)
Definition cached_folders : list ShelfUtil.FolderPath := [[]; [name_a; name_b]; [name_a]; [name_c]].
Definition keyed : gmap bytes FolderMeta :=
  {[ ShelfUtil.String [name_c] := mkFolderMeta (F64.of_int 1) true [] false [] ]}.
Lemma plain_folders : Forall plain cached_folders.
Proof. repeat constructor; (discriminate || (apply (bool_decide_unpack _); vm_compute; exact I)). Qed.
Lemma sortFolderSiblings_permutes_witness :
  sortFolderSiblings cached_folders keyed = [[]; [name_c]; [name_a]; [name_a; name_b]] ∧
  sortFolderSiblings cached_folders keyed ≡ₚ cached_folders.
Proof.
  split; [vm_compute; reflexivity|].
  apply (sortFolderSiblings_permutes cached_folders keyed plain_folders).
  apply (bool_decide_unpack _). vm_compute. exact I.
Defined.

(** The same shelf with folder [a] marked. *)
Definition marked : Shelf :=
  mkShelf (sworld fshelf) (readOnly fshelf) true (ignoreRules fshelf)
    (ShelfUtil.NewNSFWRules [ShelfUtil.mkNSFWFolder (str "a") []]) (bcache fshelf) (scanCache fshelf) Unlocked.
Definition asked : list ShelfUtil.FolderPath := [[]; [name_a]; [name_c]].
Definition answer : list ShelfUtil.FolderPath := [[]; [name_c]].
Lemma plain_asked : Forall plain asked.
Proof. repeat constructor; (discriminate || (apply (bool_decide_unpack _); vm_compute; exact I)). Qed.

Definition filtered := filterFolders false asked marked.
Lemma filterFolders_shown_witness :
  filtered.1 = Ok answer ∧ answer `sublist_of` asked ∧
  (∀ f, f ∈ answer ↔ f ∈ asked ∧ shown filtered.2 (listBookListingsFromCache (bcache filtered.2)) f).
Proof.
  assert (filtered.1 = Ok answer) as E by (vm_compute; reflexivity). split; [exact E|].
  destruct (filterFolders_shown asked marked answer filtered.2 (pair_eta _ _ E)) as (H1 & H2 & _).
  - assert (LFolders <$> listBookListingsFromCache (bcache filtered.2) = [[]]) as -> by (vm_compute; reflexivity).
    repeat constructor.
  - apply plain_asked.
  - exact (conj H1 H2).
Defined.

Definition change : folderChange := folderMovedTo [name_a] [str "z"].
Definition checked := revealedBy false change marked.
Lemma revealedBy_exact_witness :
  checked.1 = Ok (mkReveal 0 2) ∧ MarksFolders marked = true ∧
  ∃ listings folders s1, ListBooksWithCharCount marked = (Ok listings, s1) ∧
    GetAllFolders s1 = (Ok folders, checked.2).
Proof.
  assert (checked.1 = Ok (mkReveal 0 2)) as E by (vm_compute; reflexivity). split; [exact E|].
  assert (MarksFolders marked = true) as Em by (vm_compute; reflexivity). split; [exact Em|].
  destruct (revealedBy_exact change marked (mkReveal 0 2) checked.2 (pair_eta _ _ E)) as [(Hf & _)|(ls & fs & s1 & H1 & H2 & _)].
  - destruct (diff_true_false (eq_trans (eq_sym Em) Hf)).
  - exists ls, fs, s1. exact (conj H1 H2).
Defined.

(** A batch over a book the client may see and one it may not. *)
Definition batch_ids : list bytes := [id1; str "hidden"].
Definition seen_books : VisibleBooks := OnlyBooks [id1].
Definition never (i : nat) : bool := false.
Definition ran := RunBookBatch never BookBatchOperationTrash [] seen_books batch_ids newBatch fshelf.
Definition report : batch := match ran.1 with Ok (t, _) => t | Err _ => newBatch end.
Lemma RunBookBatch_reports_witness :
  SucceededIDs report = [id1] ∧ Failures report = [(str "hidden", str "not_found")] ∧
  ∃ k, k ≤ 2 ∧ ran.2 = (batch_effect BookBatchOperationTrash []
    (filter (λ id, Allows seen_books id = true) (take k batch_ids)) fshelf).2.
Proof.
  split; [vm_compute; reflexivity|]. split; [vm_compute; reflexivity|].
  assert (ran.1 = Ok (report, None)) as E by (vm_compute; reflexivity).
  destruct (RunBookBatch_reports never BookBatchOperationTrash [] seen_books batch_ids fshelf report None ran.2 (pair_eta _ _ E))
    as (k & Hk & Hs & _).
  exists k. exact (conj Hk Hs).
Defined.

End ServerWitnesses.

(** * Concrete requests

    A server with the library of Witnesses, the book of it marked: the
    properties of the server are applied to requests. *)

Module HttpWitnesses.
Import Routes Sample BookMeta Book FolderMeta Shelf Listing Visibility Http Security Server ServerSpec ServerHiding Witnesses ShelfWitnesses HandlerWitnesses.
#[local] Existing Instance ShelfUtil.AsciiCase.

(** What the server takes from elsewhere. *)
#[local] Instance app_env : AppEnv :=
  {| db_fails _ := false; chain_id n := str "chain-" ++ Itoa (Z.of_nat n); app_clock n := (Z.of_nat n * second)%Z |}.
#[local] Instance images : ServerBooks.Images :=
  {| ServerBooks.AnyToJPG b := Ok b; ServerBooks.DecodeConfig _ := None |}.
#[local] Instance source_input : ServerSources.SourceInput :=
  {| ServerSources.ReEncodeToUTF8 b := Ok b; ServerSources.rand_Text n := Itoa (Z.of_nat n);
     ServerSources.Atoi _ := Some 0%Z; ServerSources.read_form _ := Err 400%Z |}.
#[local] Instance others : OtherHandlers := λ _ _ _, mret (http_Error StatusNotFound).
#[local] Instance net_text : NetText :=
  {| url_Parse s := if HasPrefix s (str "http://") then Some (mkURL (str "http") (drop 7 s) [] [] [] false) else None;
     SplitHostPort s := Some s; loopback_ip s := bool_decide (s = str "127.0.0.1") |}.

(** The library with its book marked. *)
Definition marked_meta : BookMeta.BookMeta :=
  BookMeta.mkBookMeta 1 (str "b1") (str "Title") ShelfUtil.BookFormatText [] ∅ [] [] (str "en") [] 3 true
    0 zero_time zero_time (str "s1").
Definition marked_disk : tree := <[meta_path book_dir := File (Doc (BookMeta.encode marked_meta)) 0]> disk.
Definition main : bytes := str "main".
Definition app (readonly : bool) (s : Shelf) : App :=
  mkApp {[main := s]} (TaskQueue.NewPool (TaskQueue.NewWorker 4) 10) ∅ ∅ readonly false 30 None ∅ 0.
Lemma app_wf_one ro s : wf_tree (stree s) → app_wf (app ro s).
Proof. intros Hs id t. unfold app. simpl. rewrite map_fmap_singleton, lookup_singleton_Some. by intros [_ <-]. Qed.

Definition sec : Security :=
  mkSecurity (normalizeSecurityConf None) (str "secret") (list_to_set defaultAllowedOrigins).
Definition no_header (_ : bytes) : bytes := [].
Definition with_token (h : bytes) : bytes := if decide (h = str "Authorization") then str "bearer secret" else [].
Definition request (method : bytes) (segs : list bytes) (headers : bytes → bytes) (b : content) : Request :=
  mkRequest method segs headers (λ _, []) (Body b).
Definition book_path : list bytes := [str "api"; str "shelves"; main; str "books"; id1].
Definition trash_it (headers : bytes → bytes) : Request := request DELETE book_path headers (Raw []).
Lemma modelled_trash headers : modelled (trash_it headers).
Proof. intros name E. vm_compute in E. discriminate E. Qed.



(** The marked book. *)
Definition hiding_app : App := app false (served marked_disk).
Definition ask_book : Request := request GET book_path no_header (Raw []).
Definition found_marked := GetBookListing id1 (served marked_disk).
Definition marked_listing : BookListing :=
  match found_marked.1 with Ok l => l | Err _ => mkListing (mkBook false [] marked_meta None) [] 0 [] end.
Lemma marked_disk_wf : wf_tree (stree (served marked_disk)).
Proof. apply wf_treeb_ok. vm_compute. reflexivity. Qed.
Lemma marked_found : found_marked.1 = Ok marked_listing.
Proof. vm_compute. reflexivity. Qed.
Lemma marked_book_hidden : hidden main id1 hiding_app.
Proof.
  exists (served marked_disk), marked_listing, found_marked.2.
  assert (Server.shelves hiding_app !! main = Some (served marked_disk)) as E1 by (apply lookup_singleton_eq).
  assert (allowsListing found_marked.2 false marked_listing = false) as E2 by (vm_compute; reflexivity).
  assert (shows main hiding_app = false) as E3 by (vm_compute; reflexivity).
  exact (conj E1 (conj (pair_eta found_marked _ marked_found) (conj E2 E3))).
Qed.

(** The shelf of HandlerWitnesses with folder [a] marked: its move is refused
    without a confirmation. *)
Definition marked : Shelf :=
  mkShelf (sworld fshelf) (readOnly fshelf) true (ignoreRules fshelf)
    (ShelfUtil.NewNSFWRules [ShelfUtil.mkNSFWFolder (str "a") []]) (bcache fshelf) (scanCache fshelf) Unlocked.
Lemma hides_by_default ro s : hides main (app ro s).
Proof. unfold hides, app. simpl. rewrite lookup_empty. intros c. by rewrite lookup_empty. Qed.
Definition rename_it (folder : bytes) : Request :=
  request PATCH [str "api"; str "shelves"; main; str "folders"; folder] with_token (Doc (JObj [(str "name", JStr (str "z"))])).
Definition rename_run (folder : bytes) := respond (mux (rename_it folder)) (app false marked).
Lemma unconfirmed_move_reveals_nothing_witness :
  Status (rename_run name_a).1 = StatusConflict ∧ Status (rename_run name_c).1 = StatusNoContent ∧
  let a' := (respond (ServerFolders.renameFolder (rename_it name_c) main name_c) (app false marked)).2 in
  same_files (app false marked) a' ∨
  ∃ change act, moves_folder change act ∧ relocated main change act (app false marked) a'.
Proof.
  split; [vm_compute; reflexivity|]. split; [vm_compute; reflexivity|].
  apply (unconfirmed_move_reveals_nothing false (rename_it name_c) main name_c main (app false marked)).
  - apply app_wf_one, foldered_wf.
  - reflexivity.
  - vm_compute. reflexivity.
  - apply hides_by_default.
Defined.
End HttpWitnesses.

(** * Concrete requests to the WebDAV export *)
Module DavWitnesses.
Import Sample Book Shelf Http Security ShelfConfig DavExport Witnesses ShelfWitnesses HttpWitnesses.
#[local] Existing Instance ShelfUtil.AsciiCase.
#[local] Existing Instance net_text.
(** A handler that lists a directory and says how many entries it shows. *)
#[local] Instance lister : WebdavHandler := λ prefix r,
  CallOpen (drop (length prefix) (Path r)) false (λ got,
    match got with
    | Err _ => Reply (http_Error StatusNotFound)
    | Ok (h, _) => CallReaddir h 0 (λ l, match l with
        | Ok infos => Reply (writeJSON StatusOK (PInt (Z.of_nat (length infos))))
        | Err _ => Reply (http_Error StatusInternalServerError)
        end)
    end).
Definition private : path := [appFolder; str "tasks.json"].
Definition with_private : tree := <[private := File (Raw (str "private")) 0]> (<[[appFolder] := Dir]> disk).
Definition without_private : tree := <[[appFolder] := Dir]> disk.
Definition state (t : tree) : DavState :=
  mkDavState {[main := mkExported true false (mkWorld t 0)]} (Some (str "secret ")).
Definition dav : davExport := mkDavExport None None.
Definition list_it (p : list bytes) : Request := request GET ([str "dav"; main] ++ p) with_token (Raw []).
Lemma private_apart : agree without_private with_private.
Proof.
  intros p _ Hs. unfold with_private. destruct (decide (p = private)) as [->|Hn]; [by vm_compute in Hs|].
  by rewrite lookup_insert_ne.
Qed.

#[local] Instance plain_conf : ConfigEnv := {| ParseDuration _ := Some 0%Z; url_parses _ := true; logger_opens := true |}.
#[local] Instance plain_paths : HostPaths := λ s, Some (List.filter (λ x, negb (bool_decide (x = []))) (Split s "/"%char)).
Definition local_conf : ShelfConf := mkShelfConf (str "/srv/shelf") None false [] [] [] [] None [] [].
Lemma token_file_not_served_witness :
  checkTokenFileNotExported (str "/srv/shelf/app/token") [local_conf] = Ok tt ∧
  checkTokenFileNotExported (str "/srv/shelf/books/token") [local_conf] = Err errExposed ∧
  [str "srv"; str "shelf"] ++ path_of (rel (str "/books/a")).1 ≠ [str "srv"; str "shelf"; str "app"; str "token"].
Proof.
  split; [vm_compute; reflexivity|]. split; [vm_compute; reflexivity|].
  apply (token_file_not_served (str "/srv/shelf/app/token") [local_conf] local_conf (localSource (str "/srv/shelf")) [str "srv"; str "shelf"]
    [str "srv"; str "shelf"; str "app"; str "token"] (str "/books/a")); first [left|vm_compute; reflexivity].
Defined.
End DavWitnesses.
