(* ===== verification/StoreWitnesses.v ===== *)
(** * Concrete runs of the task queue

    A pool that keeps one chain, with a worker of capacity one: a chain is
    made, submitted, and the queue is closed. *)

From stdpp Require Import relations.
From stdpp Require Import countable.
From S2P Require Import Prelude Utf8 Strings Float64 Json Fs FsSpec Atomic BookMeta Source Frame Sample Documents LockedFile ReadingProgress ReadHistory ReadingStats Preferences ReaderStores TaskQueue TaskQueueSpec.

Module QueueWitnesses.
Import TaskQueue TaskQueueSpec.

Definition made : TaskChain :=
  mkChain [] (str "key") zero_time [mkTask (str "t") F64.zero StatusPending] None false.
Definition p0 : Pool := NewPool (NewWorker 1) 1.
Definition p1 : Pool :=
  mkPool (worker p0) (maxKeep p0) (byID p0) (order p0) (<[1 := made]> (store p0)) (at_ p0).
Definition p2 : Pool := Start p1.
Definition id_a : bytes := str "a".
Definition p3 : Pool := (Submit id_a 5 (Some 1) p2).2.
Definition p4 : Pool := close_channel p3.
Definition events : list event := [Quiet; Quiet; Accepted 1; Quiet].

Lemma run3 : qrun [Quiet; Quiet; Accepted 1] p0 p3.
Proof.
  apply (qrun_snoc [Quiet; Quiet] (Accepted 1) p0 p2 p3).
  - apply (qrun_snoc [Quiet] Quiet p0 p1 p2); [|apply q_start].
    apply (qrun_snoc [] Quiet p0 p0 p1); [apply qrun_nil|]. by apply q_create.
  - apply (q_submit id_a 5 1 made p2); try reflexivity; [discriminate|].
    intros l' c' Hl'. change (<[1 := made]> (∅ : gmap loc TaskChain) !! l' = Some c') in Hl'.
    apply lookup_insert_Some in Hl' as [[_ <-]|[_ Hl']]; [discriminate|].
    rewrite lookup_empty in Hl'. discriminate.
Qed.
Lemma run4 : qrun events p0 p4.
Proof. apply (qrun_snoc [Quiet; Quiet; Accepted 1] Quiet p0 p3 p4); [apply run3|apply q_close]. Qed.

Definition chain_a : TaskChain := default made (store p3 !! 1).
Lemma one_active_chain_per_key_witness :
  IsTerminal (ChainStatus chain_a) = false ∧ id_a = id_a.
Proof.
  split; [vm_compute; reflexivity|].
  apply (one_active_chain_per_key 1 1 _ p3 id_a id_a 1 1 chain_a chain_a run3);
    try (vm_compute; reflexivity). discriminate.
Defined.

Lemma queue_bounded_witness :
  (Z.of_nat (length (chains (worker p3))) ≤ 1)%Z ∧ (Z.of_nat (length (order p3)) ≤ Z.max 1 (1 + 1))%Z ∧
  NoDup (order p3) ∧ (∀ id, id ∈ order p3 ↔ is_Some (byID p3 !! id)) ∧
  (∀ id l, byID p3 !! id = Some l → ∃ c, store p3 !! l = Some c ∧ cID c = id).
Proof. apply (queue_bounded 1 1 [Quiet; Quiet; Accepted 1] p3 run3). Defined.

Lemma runs_in_order_witness : accepted events = started events ++ chains (worker p4).
Proof. apply (runs_in_order 1 1 events p4 run4). Defined.

Lemma closed_queue_drains_witness :
  sn wturn p4 ∧
  ∀ p', rtc wturn p4 p' → nf wturn p' →
    at_ p' = Stopped ∧ chains (worker p') = [] ∧
    ∀ id l, byID p' !! id = Some l → terminal_at p' l = true.
Proof.
  apply (closed_queue_drains 1 1 events p4 run4); [vm_compute; reflexivity|vm_compute; discriminate].
Defined.

End QueueWitnesses.

(** * Concrete runs of the stores

    A machine whose JSON text is injective, a directory with a store's file,
    and documents to write there: the properties of the locked documents and
    of the reader's state hold at them. *)

Module StoreWitnesses.

(** ** An injective text *)
Fixpoint to_tree (j : json) : gen_tree (Z + bytes) :=
  match j with
  | JNull => GenNode 0 []
  | JBool b => GenNode (if b then 1 else 2) []
  | JInt z => GenLeaf (inl z)
  | JStr s => GenLeaf (inr s)
  | JArr l => GenNode 3 (to_tree <$> l)
  | JObj l => GenNode 4 ((λ m : bytes * json, GenNode 5 [GenLeaf (inr m.1); to_tree m.2]) <$> l)
  | JNum _ => GenNode 6 []
  end.

Lemma map_inj_on {A B : Type} (f : A → B) (P : A → bool) (l l' : list A) :
  Forall (λ a, ∀ a', P a = true → P a' = true → f a = f a' → a = a') l →
  forallb P l = true → forallb P l' = true → f <$> l = f <$> l' → l = l'.
Proof.
  intros Hl. revert l'. induction Hl as [|a l Ha Hl IH]; intros [|a' l']; try done.
  cbn [forallb]. rewrite !andb_true_iff. intros [Pa Pl] [Pa' Pl'] E. rewrite !fmap_cons in E.
  injection E as E1 E2. f_equal; [by apply Ha|by apply IH].
Qed.

Lemma to_tree_inj j : ∀ j', Documents.printable j = true → Documents.printable j' = true →
  to_tree j = to_tree j' → j = j'.
Proof.
  revert j. fix IH 1. intros [|b|z|f|s|l|l] [|b'|z'|f'|s'|l'|l'] P P' E; try done;
    try (by destruct b); try (by destruct b'); try (by injection E as ->).
  - by destruct b, b'.
  - f_equal. injection E as E. apply (map_inj_on to_tree Documents.printable); [|done..].
    clear P P' E. induction l as [|j l IHl]; constructor; [apply IH|done].
  - f_equal. injection E as E. apply (map_inj_on
      (λ m : bytes * json, GenNode 5 [GenLeaf (inr m.1); to_tree m.2])
      (λ m, Utf8.ValidString m.1 && Documents.printable m.2)); [|done..].
    clear P P' E. induction l as [|[k j] l IHl]; constructor; [|done].
    intros [k' j'] Pk Pk' E. simpl in *. apply andb_prop in Pk as [_ Pk], Pk' as [_ Pk'].
    injection E as -> E. f_equal. by apply IH.
Qed.

#[refine] Instance store_machine : Machine := {
  fault _ := NoFault;
  clock n := (Z.of_nat n * second)%Z;
  Intn i n := i mod n;
  doc_text j := Sample.bits (encode (to_tree j));
  dir_info _ _ := (0, 0)%Z;
}.
Proof. intros i n Hn. apply Nat.mod_upper_bound. lia. Defined.

Lemma bits_inj p q : Sample.bits p = Sample.bits q → p = q.
Proof. intros E. by rewrite <-(Sample.of_bits_bits p), E, Sample.of_bits_bits. Qed.

#[export] Instance store_text : Documents.JsonText.
Proof. intros j j' P P' E. apply bits_inj, encode_inj in E. by apply to_tree_inj. Qed.

#[export] Instance sorted_order : MapOrder := λ A m, map_to_list m.
#[export] Instance sorted_order_laws : MapOrderLaws.
Proof. intros A m. done. Qed.

#[export] Instance host : LockedFile.HostEnv := {|
  LockedFile.flock _ := Ok true;
  LockedFile.temp_text n := Itoa (Z.of_nat n);
|}.

(** ** A store's file *)
Import LockedFile.
Definition data : tree := list_to_map [([], Dir); ([str "data"], Dir)].
Lemma data_wf : wf_tree data.
Proof. apply wf_treeb_ok. vm_compute. reflexivity. Qed.
Definition store (name prefix : bytes) : LockedFile :=
  NewLocked [str "data"; name] prefix (str ".json").
Definition history : LockedFile := store (str "read_history.json") (str ".read_history-").
Definition progress : LockedFile := store (str "reading_progress.json") (str ".reading_progress-").

Lemma history_named : well_named history.
Proof. split; [done| |done|done]. intros (x & E). discriminate. Qed.
Lemma progress_named : well_named progress.
Proof. split; [done| |done|done]. intros (x & E). discriminate. Qed.

Definition record_entry := ReadHistory.withEntry (str "shelf") (str "b").
Lemma record_good d : ReadHistory.normal d → ReadHistory.normal (record_entry d).
Proof. apply ReadHistory.withEntry_normal. Qed.
Definition succeeded {A} (o : result error A * world) : bool := is_ok o.1.

Lemma Mutate_refines_witness :
  succeeded (Mutate ReadHistory.Parse ReadHistory.Serialize history record_entry (mkWorld data 0)) = true ∧
  wp (Mutate ReadHistory.Parse ReadHistory.Serialize history record_entry)
    (λ r w', mutated history ReadHistory.Parse ReadHistory.Serialize record_entry data r (wtree w'))
    (mkWorld data 0).
Proof.
  split; [vm_compute; reflexivity|].
  apply (Mutate_refines history ReadHistory.Parse ReadHistory.Serialize ReadHistory.normal record_entry (mkWorld data 0));
    [apply history_named|apply ReadHistory.history_codec|apply record_good|apply data_wf].
Defined.

(** ** The documents *)
Definition entry (offset at_ : Z) : ReadingProgress.Entry := ReadingProgress.mkEntry offset at_.
Definition staged : gmap bytes (gmap bytes ReadingProgress.Entry) := {[ str "shelf" := {[ str "b" := entry 5 9 ]} ]}.
Definition staged_doc : ReadingProgress.Document := ReadingProgress.snapshot staged.
Lemma map_single {A : Type} (P : bytes → A → Prop) (k : bytes) (a : A) : P k a →
  map_Forall P ({[ k := a ]} : gmap bytes A).
Proof. intros Hp. by apply map_Forall_singleton. Qed.
Lemma trimmed_b : Documents.trimmed (str "b").
Proof. split; [vm_compute; reflexivity|discriminate]. Qed.
Lemma staged_normal : ReadingProgress.normal staged_doc.
Proof.
  split; [reflexivity|]. change (ReadingProgress.Shelves staged_doc) with staged. apply map_single.
  split; [split; [vm_compute; reflexivity|discriminate]|]. split; [discriminate|].
  apply map_single. split; [apply trimmed_b|]. split; [split; done|split; [split; done|]]. by intros [? ?].
Qed.

Definition on_disk : ReadingProgress.Document :=
  ReadingProgress.mkDocument 2 {[ str "shelf" := {[ str "b" := entry 3 4 ]} ]}.
Lemma MergeNewest_newest_witness :
  ReadingProgress.entry_at (ReadingProgress.MergeNewest on_disk staged_doc) (str "shelf") (str "b") = Some (entry 5 9) ∧
  (∀ s id, ReadingProgress.entry_at (ReadingProgress.MergeNewest on_disk staged_doc) s id =
    ReadingProgress.newest (ReadingProgress.entry_at on_disk s id) (ReadingProgress.entry_at staged_doc s id)).
Proof.
  split; [vm_compute; reflexivity|].
  exact (proj1 (ReadingProgress.MergeNewest_newest on_disk staged_doc staged_normal)).
Defined.

Lemma persist_keeps_newest_witness :
  succeeded (ReadingProgress.persist progress staged (mkWorld data 0)) = true ∧
  wp (ReadingProgress.persist progress staged) (λ _ w',
    touched (store_files progress) (store_dirs progress) data (wtree w') ∧
    let old := ReadingProgress.Parse (text_at data (fpath progress)) in
    let new := ReadingProgress.Parse (text_at (wtree w') (fpath progress)) in
    new = old ∨ ∀ s id, ReadingProgress.entry_at new s id =
      ReadingProgress.newest (ReadingProgress.entry_at old s id) (staged !! s ≫= (.!! id))) (mkWorld data 0).
Proof.
  split; [vm_compute; reflexivity|].
  apply (ReadingProgress.persist_keeps_newest progress staged (mkWorld data 0));
    [apply progress_named|apply staged_normal|apply data_wf].
Defined.

Definition read_list : list bytes := [str "a"; str "b"; str "c"].
Definition read_doc : ReadHistory.Document :=
  ReadHistory.mkDocument 1 3 {[ str "book" := read_list ]}.
Lemma read_normal : ReadHistory.normal read_doc.
Proof.
  split; [reflexivity|by vm_compute|]. apply map_single. split; [discriminate| | |by vm_compute].
  - apply (bool_decide_unpack _). vm_compute. exact I.
  - repeat constructor; by vm_compute.
Qed.

Lemma withEntry_front_witness :
  ReadHistory.listed (ReadHistory.withEntry (str "book") (str "b ") read_doc) (str "book") =
    [str "b"; str "a"; str "c"] ∧
  ReadHistory.normal (ReadHistory.withEntry (str "book") (str "b ") read_doc).
Proof.
  split; [vm_compute; reflexivity|].
  exact (proj1 (ReadHistory.withEntry_front (str "book") (str "b ") read_doc read_normal)).
Defined.

Definition placed (b : bytes) : option bytes := if decide (b = str "b") then Some (str "shelf") else None.
Lemma Project_spec_witness :
  ReadHistory.listed (ReadHistory.Project (str "book") (Some placed) read_doc) (str "book") = [str "a"; str "c"] ∧
  str "b" ∈ ReadHistory.listed (ReadHistory.Project (str "book") (Some placed) read_doc) (str "shelf").
Proof.
  split; [vm_compute; reflexivity|].
  apply (ReadHistory.Project_spec (str "book") placed read_doc read_normal ltac:(discriminate)).
  apply (bool_decide_unpack _). vm_compute. exact I.
Defined.

(** ** Statistics *)
Definition today : Dates.Date := Dates.mkDate 2026 3 1.
Lemma today_valid : Dates.valid today.
Proof. apply (bool_decide_unpack _). vm_compute. exact I. Qed.
Definition stats_doc : ReadingStats.Document :=
  ReadingStats.mkDocument 1 {[ str "book/b" := {[ str "2026-02-28" := 40%Z ]} ]}.
Lemma stats_doc_normal : ReadingStats.normal stats_doc.
Proof.
  split; [reflexivity|]. apply map_single. split; [discriminate|]. apply map_single.
  split; [vm_compute; reflexivity|by vm_compute].
Qed.
Lemma withSeconds_bounded_witness :
  ReadingStats.seconds_of (ReadingStats.withSeconds (str "book/b") (str "2026-02-28") (F64.of_int 500) today stats_doc)
    (str "book/b") (str "2026-02-28") = 160%Z ∧
  ReadingStats.normal (ReadingStats.withSeconds (str "book/b") (str "2026-02-28") (F64.of_int 500) today stats_doc).
Proof.
  split; [vm_compute; reflexivity|].
  apply (ReadingStats.withSeconds_bounded (str "book/b") (str "2026-02-28") (F64.of_int 500) today stats_doc);
    [apply stats_doc_normal|apply today_valid|apply (bool_decide_unpack _); vm_compute; exact I].
Defined.

Lemma stats_Project_conserves_witness :
  let d' := ReadingStats.Project (str "book") (Some placed) stats_doc in
  ReadingStats.seconds_of d' (str "shelf") (str "2026-02-28") = 40%Z ∧ ReadingStats.normal d'.
Proof.
  split; [vm_compute; reflexivity|].
  apply (ReadingStats.stats_Project_conserves (str "book") placed stats_doc stats_doc_normal ltac:(discriminate)).
  intros key t. unfold ReadingStats.target_of, placed. destruct (ReadingStats.CutPrefix key _) as [[|c b]|]; try discriminate.
  case_decide; [|discriminate]. change (TrimSpace (str "shelf")) with (str "shelf") at 1 2 3.
  case_decide; [discriminate|]. intros [= <-]. reflexivity.
Defined.

Definition prefs : Preferences.Document := Preferences.mkDocument 1 {[ str "theme" := str "dark" ]} ∅.
Lemma prefs_normal : Preferences.normal prefs.
Proof.
  split; [reflexivity| |apply map_Forall_empty]. apply map_single. split; [vm_compute; reflexivity|discriminate].
Qed.
Lemma withValue_reads_back_witness :
  Preferences.validKey (str "plainshelf.shelf") = true ∧
  Preferences.For (Preferences.withValue (str "reader") (str "plainshelf.shelf") (str "s1") prefs) (str "reader")
    !! str "plainshelf.shelf" = Some (str "s1").
Proof.
  split; [vm_compute; reflexivity|].
  destruct (Preferences.withValue_reads_back (str "reader") (str "plainshelf.shelf") (str "s1") prefs eq_refl prefs_normal)
    as (_ & _ & H & _). exact H.
Defined.

(** One document of each kind, written and read back. *)
Lemma reader_documents_witness :
  match ReadHistory.Serialize read_doc with
  | Ok c => ReadHistory.Parse c = read_doc
  | Err _ => False
  end.
Proof.
  assert (is_ok (ReadHistory.Serialize read_doc) = true) as Hok by (vm_compute; reflexivity).
  destruct (ReadHistory.Serialize read_doc) as [c|e] eqn:E; [|discriminate].
  apply (ReaderStores.reader_documents c); [apply read_normal|exact E].
Defined.

End StoreWitnesses.
