(* ===== verification/Findings.v ===== *)
(** * What the model shows of the code

    A run of a shelf beside another program: a lookup that reopens a stale
    entry does not compare the ID of the book it finds. *)

From S2P Require Import Prelude Utf8 Strings Json Fs FsSpec Atomic ShelfUtil BookMeta Source Frame Relocate ScanCache FolderMeta Book NoFault ShelfState Trash Folder ShelfBook ShelfFrame ShelfInv Sample Witnesses ShelfWitnesses.

Module Findings.
Import Sample BookMeta Book Shelf Trash ShelfInv Witnesses ShelfWitnesses.
#[local] Existing Instance ShelfUtil.AsciiCase.

Definition id2 : bytes := str "b2".
(** Another program puts the book [b2] where [b1] was. *)
Definition swapped_file : node := File (Doc (BookMeta.encode (set_ID id2 book_meta))) (7 * second).
Definition looked_up : Shelf := (getUpdatedBookFromBookID id1 shelf).2.
Definition swapped : Shelf :=
  set_world (mkWorld (<[meta_path book_dir := swapped_file]> (stree looked_up)) (tick (sworld looked_up)))
    looked_up.

Lemma swapped_reached : rtc step shelf swapped.
Proof. eapply rtc_l; [apply (step_lookup _ id1)|]. eapply rtc_l; [apply step_outside|]. apply rtc_refl. Qed.

(** a lookup can serve another book under the ID asked for. A shelf
    that knows the book [b1], after another program put the book [b2] at its
    path, answers a lookup of [b1] with [b2]; moving [b1] to the trash then
    succeeds and takes [b2] away, under the name [b1.bookpkg]. The refresh of
    the whole cache drops such an entry; the lookup of one book does not. *)
Theorem stale_lookup_serves_another_book :
  rtc step shelf swapped ∧
  match (getUpdatedBookFromBookID id1 swapped).1 with
  | Ok (b, _) => ID (meta b) = id2
  | Err _ => False
  end ∧
  (MoveBookToTrash id1 swapped).1 = Ok tt ∧
  stree swapped !! meta_path book_dir = Some swapped_file ∧
  stree (MoveBookToTrash id1 swapped).2 !! meta_path book_dir = None ∧
  stree (MoveBookToTrash id1 swapped).2 !! meta_path (trashBooksFolder ++ [id1 ++ bookExtension]) =
    Some swapped_file.
Proof.
  split; [apply swapped_reached|]. split; [vm_compute; reflexivity|].
  split; [vm_compute; reflexivity|]. split; [vm_compute; reflexivity|].
  split; vm_compute; reflexivity.
Qed.
End Findings.
