(* ===== verification/Logs.v ===== *)
(** * Log files: [src/internal/logutil], [src/server/handle_logs.go]

    The writer that begins a file every day and removes the expired ones, the
    list of log files, and the handlers that answer with it and with the end
    of one of them. Paths are absolute in the file system of the machine;
    there are no symbolic links and no other programs in it. A log that is
    read is taken as it was when it was opened. Loggers themselves
    ([log/slog]), standard output and the wording of errors are left out.

    [Write_prunes] and [Write_prunes_all] say what writing a line removes;
    [SeekTail_bounds] where the answer with a log begins; [getLogContent_listed]
    that only files that the configuration names are read. *)

From S2P Require Import Prelude Utf8 Strings Json Fs FsSpec Frame NoFault BookMeta Source Http ReadingStats ShelfState Sample.

Module Logs.
Import Http.

(** ** Paths of the machine *)
Class LogEnv := {
  cwd : path;
  cwd_segments : Forall segment cwd;
  (** [time.Time.Format] with the layout of a day, in local time; the clock
      shows years of four digits *)
  local_date : Z → Dates.Date;
  local_date_valid z : Dates.valid (local_date z);
}.
(** [filepath.Clean] of an absolute path, segment by segment. *)
Definition clean_segment (p : path) (s : bytes) : path :=
  if decide (s = [] ∨ s = str ".") then p else
  if decide (s = str "..") then take (length p - 1) p else p ++ [s].
(** [filepath.Base] *)
Definition Base (s : bytes) : bytes :=
  match last (List.filter (λ w, negb (bool_decide (w = []))) (Split s "/"%char)) with
  | Some w => w
  | None => if decide (s = []) then str "." else str "/"
  end.
(** [filepath.Join], up to [Clean] *)
Definition join (dir name : bytes) : bytes := if decide (dir = []) then name else dir ++ str "/" ++ name.
Definition path_text (p : path) : bytes := str "/" ++ Join p (str "/").

(** ** Configuration *)
Inductive LogFileType := LogFileTypeDefault | LogFileTypeStderr | LogFileTypeStdout | LogFileTypeNone | LogFileTypeName | LogFileTypeNameRotate | LogFileTypeOther (s : bytes).
Record LogFileConf := mkConf { Type_ : LogFileType; Filename : bytes; LDir : bytes; Prefix : bytes; RetentionDays : option Z }.
Definition DefaultRetentionDays : Z := 30.
Definition ResolvedRetentionDays (conf : LogFileConf) : Z := default DefaultRetentionDays (RetentionDays conf).
(** [type Retention]: its cell. A nil pointer is nothing. *)
Definition retentionUnset : Z := -1.
Definition Set_ (days : Z) (r : option Z) : option Z := (λ _, Z.max days 0) <$> r.
Definition Clear (r : option Z) : option Z := (λ _, retentionUnset) <$> r.
Definition Days (r : option Z) (configured : Z) : Z :=
  match r with
  | Some days => if decide (days ≠ retentionUnset) then days else configured
  | None => configured
  end.

Record SourceConf := mkSource { SName : bytes; SLogFile : LogFileConf }.
Record Entry := mkEntry { EID : bytes; ESource : bytes; EFilename : bytes; EDate : bytes; ESize : Z; epath : path }.

(** [func sortEntries] *)
Definition entry_le (a b : Entry) : Prop :=
  match Compare (EDate b) (EDate a) with
  | Lt => True
  | Gt => False
  | Eq =>
      match Compare (EFilename a) (EFilename b) with
      | Lt => True
      | Gt => False
      | Eq =>
          match Compare (ESource a) (ESource b) with
          | Lt => True
          | Gt => False
          | Eq => str_le (EID a) (EID b)
          end
      end
  end.
#[export] Instance entry_le_dec a b : Decision (entry_le a b).
Proof. unfold entry_le, str_le. repeat case_match; apply _. Defined.
Definition sortEntries (l : list Entry) : list Entry := merge_sort entry_le l.

Definition log_suffix : bytes := str ".log".
Definition prefix_part (prefix : bytes) : bytes := (if decide (prefix = []) then str "log" else prefix) ++ str "-".
(** The day a name stands for in the logs of a prefix. *)
Definition log_date (prefix name : bytes) : option bytes :=
  if negb (HasPrefix name (prefix_part prefix)) || negb (HasSuffix name log_suffix) then None else
  let date := TrimSuffix (TrimPrefix name (prefix_part prefix)) log_suffix in
  match Dates.Parse date with None => None | Some _ => Some date end.

Section logs.
Context `{Machine, LogEnv, Digest}.

Definition os_path (s : bytes) : path :=
  foldl clean_segment (if HasPrefix s (str "/") then [] else cwd) (Split s "/"%char).
(** A call of package os: the empty name is no file. *)
Definition named {A : Type} (s : bytes) (f : path → M world A) : M world A :=
  if decide (s = []) then throw ENotExist else f (os_path s).
(** [os.OpenFile] with [O_CREATE|O_WRONLY|O_APPEND], and a write to such a
    file. *)
Definition fs_open_append (t : tree) (p : path) (z : Z) : result error unit * tree :=
  match find_node t p with Ok (File _ _) => (Ok tt, t) | _ => fs_write t p (Raw []) z end.
Definition OpenAppend (p : path) : M world unit := λ w,
  write_step (λ t, fs_open_append t p (clock (tick w))) (λ _ _ t, t) w.
Definition append_to (t : tree) (p : path) (data : bytes) (z : Z) : tree :=
  match t !! p with Some (File c _) => <[p := File (Raw (content_bytes c ++ data)) z]> t | _ => t end.
Definition Append (p : path) (data : bytes) : M world unit := λ w,
  write_step (λ t, (Ok tt, append_to t p data (clock (tick w))))
    (λ n _ t, append_to t p (take n data) (clock (tick w))) w.

(** ** Listing *)
Definition makeEntryID (source : bytes) (p : path) : bytes := sha256_hex (source ++ [Stdlib.Strings.Ascii.ascii_of_nat 0] ++ path_text p).
Definition newEntry (source filename date : bytes) (p : path) (size : Z) : Entry :=
  mkEntry (makeEntryID source p) source filename date size p.
(** The loop of [listRotatedLogFiles] *)
Fixpoint rotated_entries (source dir prefix : bytes) (l : list (bytes * node)) : M world (list Entry) :=
  match l with
  | [] => mret []
  | (name, n) :: l =>
      match (if is_dir n then None else log_date prefix name) with
      | None => rotated_entries source dir prefix l
      | Some date =>
          let p := os_path (join dir name) in
          info ← try (StatInfo p);
          rest ← rotated_entries source dir prefix l;
          mret (match info with Ok i => newEntry source name date p i.2.2 :: rest | Err _ => rest end)
      end
  end.
Definition listRotatedLogFiles (source : bytes) (conf : LogFileConf) : M world (list Entry) :=
  listed ← try (named (LDir conf) ReadDir);
  match listed with
  | Err e => if decide (e = ENotExist) then mret [] else throw e
  | Ok l =>
      logs ← rotated_entries source (LDir conf) (Prefix conf) l;
      mret (sortEntries logs)
  end.
Definition listNamedLogFile (source : bytes) (conf : LogFileConf) : M world (list Entry) :=
  if decide (Filename conf = []) then mret [] else
  let p := os_path (Filename conf) in
  got ← try (StatInfo p);
  match got with
  | Err e => if decide (e = ENotExist) then mret [] else throw e
  | Ok (n, i) =>
      if is_dir n then mret [] else
      mret [newEntry source (Base (Filename conf)) (Dates.Format (local_date i.1)) p i.2]
  end.
Definition listLogFilesForSource (c : SourceConf) : M world (list Entry) :=
  match Type_ (SLogFile c) with
  | LogFileTypeNameRotate => listRotatedLogFiles (SName c) (SLogFile c)
  | LogFileTypeName => listNamedLogFile (SName c) (SLogFile c)
  | _ => mret []
  end.
(** Keeping the first entry of an ID; [logs] are those kept before. *)
Fixpoint add_unseen (logs : list Entry) (l : list Entry) : list Entry :=
  match l with
  | [] => logs
  | e :: l => if decide (EID e ∈ EID <$> logs) then add_unseen logs l else add_unseen (logs ++ [e]) l
  end.
Fixpoint list_sources (logs : list Entry) (confs : list SourceConf) : M world (list Entry) :=
  match confs with
  | [] => mret logs
  | c :: confs =>
      l ← listLogFilesForSource c;
      list_sources (add_unseen logs l) confs
  end.
Definition ListLogFilesForSources (confs : list SourceConf) : M world (list Entry) :=
  logs ← list_sources [] confs;
  mret (sortEntries logs).
Definition OpenLogFileByID (confs : list SourceConf) (id : bytes) : M world (Entry * content) :=
  logs ← ListLogFilesForSources confs;
  match List.find (λ e, bool_decide (EID e = id)) logs with
  | None => throw ENotExist
  | Some e => c ← Open (epath e); mret (e, c)
  end.

(** ** The writer of a day *)
Record DailyFileWriter := mkWriter {
  wdir : bytes;
  wprefix : bytes;
  configuredRetentionDays : Z;
  curDate : bytes;
  (** the open file, and whether it was closed *)
  wfile : option (path * bool);
}.
Definition NewDailyFileWriter (conf : LogFileConf) : DailyFileWriter :=
  mkWriter (LDir conf) (if decide (Prefix conf = []) then str "log" else Prefix conf) (Z.max (ResolvedRetentionDays conf) 0) [] None.
(** [func (w *DailyFileWriter) removeExpiredLocked]; [r] is the cell the
    settings write, read once. *)
Definition before_dec a b : {Dates.before a b} + {¬ Dates.before a b}.
Proof. unfold Dates.before. apply (decide _). Defined.
Definition expired (cutoff : Dates.Date) (date : bytes) : bool :=
  match Dates.Parse date with
  | None => false
  | Some d => if before_dec d cutoff then true else false
  end.
Fixpoint remove_entries (cutoff : Dates.Date) (current : option path) (l : list Entry) : M world unit :=
  match l with
  | [] => mret tt
  | e :: l =>
      if decide (Some (epath e) = current) then remove_entries cutoff current l else
      if negb (expired cutoff (EDate e)) then remove_entries cutoff current l else
      ignore (Remove (epath e));;
      remove_entries cutoff current l
  end.
Definition removeExpiredLocked (date : bytes) (r : option Z) (w : DailyFileWriter) : M world unit :=
  let retentionDays := Days r (configuredRetentionDays w) in
  if decide (retentionDays ≤ 0)%Z then mret tt else
  match Dates.Parse date with
  | None => mret tt
  | Some today =>
      let cutoff := Dates.back (Z.to_nat retentionDays) today in
      listed ← try (listRotatedLogFiles [] (mkConf LogFileTypeNameRotate [] (wdir w) (wprefix w) None));
      match listed with
      | Err _ => mret tt
      | Ok l => remove_entries cutoff (fst <$> wfile w) l
      end
  end.
(** [func (w *DailyFileWriter) rotate]; closing the old file is not looked
    at. *)
Definition log_name (prefix date : bytes) : bytes := prefix ++ str "-" ++ date ++ log_suffix.
Definition rotate (date : bytes) (r : option Z) (w : DailyFileWriter) : M world DailyFileWriter :=
  named (wdir w) MkdirAll;;
  let p := os_path (join (wdir w) (log_name (wprefix w) date)) in
  OpenAppend p;;
  let w := mkWriter (wdir w) (wprefix w) (configuredRetentionDays w) date (Some (p, true)) in
  removeExpiredLocked date r w;;
  mret w.
(** [func (w *DailyFileWriter) Write]: the writer goes on with what it became,
    also when the write fails. *)
Definition ErrClosed : error := Msg "file already closed".
Definition write_file (data : bytes) (w : DailyFileWriter) : M world nat :=
  match wfile w with
  | Some (p, true) => Append p data;; mret (length data)
  | _ => throw ErrClosed
  end.
Definition Write (data : bytes) (r : option Z) (w : DailyFileWriter) : M world (result error nat * DailyFileWriter) :=
  z ← now;
  let today := Dates.Format (local_date z) in
  if decide (today ≠ curDate w) then
    rotated ← try (rotate today r w);
    match rotated with
    | Err e => mret (Err e, w)
    | Ok w => n ← try (write_file data w); mret (n, w)
    end
  else n ← try (write_file data w); mret (n, w).
Definition CloseWriter (w : DailyFileWriter) : result error unit * DailyFileWriter :=
  match wfile w with
  | None => (Ok tt, w)
  | Some (p, true) => (Ok tt, mkWriter (wdir w) (wprefix w) (configuredRetentionDays w) (curDate w) (Some (p, false)))
  | Some (p, false) => (Err ErrClosed, w)
  end.
(** [func NewLogFile] *)
Inductive LogWriter := Stderr | Stdout | Discard | Named (p : path) | Daily (w : DailyFileWriter).
Definition NewLogFile (conf : LogFileConf) : M world LogWriter :=
  match Type_ conf with
  | LogFileTypeStderr | LogFileTypeDefault => mret Stderr
  | LogFileTypeStdout => mret Stdout
  | LogFileTypeNone => mret Discard
  | LogFileTypeName => named (Filename conf) OpenAppend;; mret (Named (os_path (Filename conf)))
  | LogFileTypeNameRotate =>
      if decide (TrimSpace (LDir conf) = []) then throw (Msg "missing log dir") else
      if match RetentionDays conf with Some days => (days <? 0)%Z | None => false end then throw (Msg "invalid log retention days")
      else mret (Daily (NewDailyFileWriter conf))
  | LogFileTypeOther _ => throw (Msg "invalid log file type")
  end.

(** ** The end of a log *)
Definition DefaultTailBytes : Z := 256 * 2 ^ 10.
Definition maxLineScanBytes : Z := 64 * 2 ^ 10.
(** [bytes.IndexByte] *)
Fixpoint IndexByte (s : bytes) (c : Stdlib.Strings.Ascii.ascii) : option nat :=
  match s with
  | [] => None
  | x :: s => if decide (x = c) then Some 0 else S <$> IndexByte s c
  end.
Definition newline : Stdlib.Strings.Ascii.ascii := "010"%char.
(** [ReadAt], whose error is not looked at: a fault may cut it short. *)
Definition ReadAt (data : bytes) (start limit : Z) : M world bytes := λ w,
  let buf := take (Z.to_nat limit) (drop (Z.to_nat start) data) in
  (Ok match fault (tick w) with NoFault | FailAfter => buf | FailBefore => [] | FailMidway n _ => take n buf end,
   mkWorld (wtree w) (S (tick w))).
Definition lineStartAfter (data : bytes) (start size : Z) : M world Z :=
  let limit := Z.min (size - start) maxLineScanBytes in
  buf ← ReadAt data start limit;
  match IndexByte buf newline with
  | None => mret start
  | Some i =>
      let aligned := (start + Z.of_nat i + 1)%Z in
      mret (if decide (size ≤ aligned)%Z then start else aligned)
  end.
Definition SeekTail (data : bytes) (maxBytes : Z) : M world Z :=
  size ← read_step (λ _, Ok (Z.of_nat (length data)));
  if decide (maxBytes ≤ 0 ∨ size ≤ maxBytes)%Z then mret 0%Z else
  start ← lineStartAfter data (size - maxBytes) size;
  read_step (λ _, Ok start).

(** ** The handlers *)
Definition parseLogTailBytes (r : Request) : option Z :=
  let raw := TrimSpace (Query r (str "tail_bytes")) in
  if decide (raw = []) then Some DefaultTailBytes else
  match ParseInt raw with
  | None => None
  | Some n => if decide (n < 0)%Z then None else Some n
  end.
Definition getLogs (sources : list SourceConf) : M world (Response + list Entry) :=
  listed ← try (ListLogFilesForSources sources);
  mret (match listed with Err _ => inl (http_Error StatusInternalServerError) | Ok l => inr l end).
Definition getLogContent (sources : list SourceConf) (r : Request) (log_id : bytes) : M world Response :=
  match decodePathID log_id, parseLogTailBytes r with
  | None, _ | _, None => mret (http_Error StatusBadRequest)
  | Some logID, Some tailBytes =>
      got ← try (OpenLogFileByID sources logID);
      match got with
      | Err e => mret (http_Error (if decide (e = ENotExist) then StatusNotFound else StatusInternalServerError))
      | Ok (_, c) =>
          start ← try (SeekTail (content_bytes c) tailBytes);
          match start with
          | Err _ => mret (http_Error StatusInternalServerError)
          | Ok start => mret (mkResponse StatusOK [] (PRaw (Raw (drop (Z.to_nat start) (content_bytes c)))))
          end
      end
  end.
End logs.

(** ** The sources of the configuration

    [collectLogSources] walks the configuration by reflection. *)
Inductive value :=
  | VNil
  | VPointer (v : value)
  | VLog (conf : LogFileConf)
  | VSlice (l : list value)
  | VStruct (fields : list (bytes * bytes * bool * value))
  | VOther.
Definition joinLogSource (prefix name : bytes) : bytes :=
  if decide (name = []) then prefix else if decide (prefix = []) then name else prefix ++ str "." ++ name.
Definition indexedLogSource (prefix : bytes) (i : nat) : bytes := prefix ++ str "[" ++ Itoa (Z.of_nat i) ++ str "]".
(** [strings.ToLower] of an ASCII field name *)
Definition lower_ascii (s : bytes) : bytes :=
  (λ c, let v := byte_val c in if ((65 <=? v) && (v <=? 90))%Z then Stdlib.Strings.Ascii.ascii_of_nat (Z.to_nat (v + 32)) else c) <$> s.
Definition logSourceFieldName (name yaml : bytes) : bytes :=
  let yamlTag := TrimSpace (default [] (head (Split yaml ","%char))) in
  if decide (yamlTag = [] ∨ yamlTag = str "-") then lower_ascii name else yamlTag.
Fixpoint collectLogSources (v : value) (prefix : bytes) : list SourceConf :=
  match v with
  | VNil | VOther => []
  | VPointer v => collectLogSources v prefix
  | VLog conf => [mkSource prefix conf]
  | VSlice l =>
      (fix go (i : nat) (l : list value) : list SourceConf :=
        match l with [] => [] | v :: l => collectLogSources v (indexedLogSource prefix i) ++ go (S i) l end) 0 l
  | VStruct fields =>
      (fix go (l : list (bytes * bytes * bool * value)) : list SourceConf :=
        match l with
        | [] => []
        | (name, yaml, exported, v) :: l =>
            (if exported then collectLogSources v (joinLogSource prefix (logSourceFieldName name yaml)) else []) ++ go l
        end) fields
  end.

(** ** Paths *)
Section paths.
Context `{LogEnv}.
Lemma cleaned_segments p l : Forall segment p → Forall (λ s, "/"%char ∉ s) l → Forall segment (foldl clean_segment p l).
Proof.
  intros Hp Hl. revert p Hp. induction Hl as [|s l Hs Hl IH]; intros p Hp; [done|]. apply IH. unfold clean_segment.
  repeat case_decide; [done|by apply Forall_take|]. apply Forall_app. split; [done|]. constructor; [|done]. split_and!; naive_solver.
Qed.
Lemma os_path_segments s : Forall segment (os_path s).
Proof.
  apply cleaned_segments; [destruct (HasPrefix _ _); [constructor|apply cwd_segments]|]. apply Split_no_sep.
Qed.
Lemma os_path_join dir name : dir ≠ [] → segment name → os_path (join dir name) = os_path dir ++ [name].
Proof.
  intros Hd Hn. unfold join. rewrite decide_False by done.
  assert (HasPrefix (dir ++ str "/" ++ name) (str "/") = HasPrefix dir (str "/")) as Ep.
  { destruct dir as [|c dir]; [done|]. apply bool_decide_ext. split; intros [k E]; injection E as -> _; by eexists. }
  unfold os_path. rewrite Ep. change (str "/" ++ name) with ("/"%char :: name).
  rewrite Split_app_gen, foldl_app. set (p := foldl clean_segment _ (Split dir "/")). destruct Hn as (Hne & Hdot & Hdd & Hs).
  rewrite Split_word by done. simpl. unfold clean_segment. rewrite decide_False by naive_solver. by rewrite decide_False.
Qed.
End paths.

(** ** Names *)
Lemma Parse_length s d : Dates.Parse s = Some d → length s = 10.
Proof. intros [_ <-]%Dates.Format_Parse. done. Qed.
Lemma log_date_name prefix name date : log_date prefix name = Some date →
  name = prefix_part prefix ++ date ++ log_suffix ∧ is_Some (Dates.Parse date).
Proof.
  unfold log_date. destruct (HasPrefix name (prefix_part prefix)) eqn:Hp; [|done].
  destruct (HasSuffix name log_suffix) eqn:Hs; [|done]. simpl. destruct (Dates.Parse _) as [d|] eqn:Hd; [|done]. intros [= <-].
  split; [|by eexists]. apply bool_decide_eq_true in Hp as [k ->]. apply bool_decide_eq_true in Hs as [l Hl].
  unfold TrimPrefix, HasPrefix in *. rewrite bool_decide_true in * by (by eexists). rewrite drop_app_length in *. f_equal.
  destruct (app_eq_inv _ _ _ _ Hl) as [(k' & _ & Hk)|(k' & _ & ->)]; [|by rewrite TrimSuffix_app].
  assert (length k ≤ 4) as Hlen by (apply (f_equal length) in Hk; rewrite length_app in Hk; simpl in Hk; lia).
  apply Parse_length in Hd. unfold TrimSuffix, CutSuffix in Hd. destruct (HasSuffix k log_suffix); simpl in Hd; [|lia].
  rewrite length_take in Hd. lia.
Qed.
Lemma log_date_segment prefix name date : "/"%char ∉ name → log_date prefix name = Some date → segment name.
Proof.
  intros Hs [-> [d Hd%Parse_length]]%log_date_name. split_and!; [..|done]; intros E%(f_equal length);
    rewrite !length_app in E; simpl in E; lia.
Qed.
Lemma log_date_log_name prefix d : Dates.valid d → log_date prefix (prefix_part prefix ++ Dates.Format d ++ log_suffix) = Some (Dates.Format d).
Proof.
  intros Hd. unfold log_date, HasPrefix, HasSuffix. rewrite bool_decide_true by (by eexists).
  rewrite bool_decide_true by (rewrite app_assoc; by eexists). cbn [negb orb]. cbv zeta. unfold TrimPrefix, HasPrefix.
  rewrite bool_decide_true by (by eexists). by rewrite drop_app_length, TrimSuffix_app, Dates.Parse_Format.
Qed.

(** ** Steps on log files *)
Section steps.
Context `{Machine, LogEnv, Digest}.
Definition opened_at (p : path) (t t' : tree) : Prop :=
  t' = t ∨ ∃ z, t !! p = None ∧ p ≠ [] ∧ resolve t p = None ∧ t' = <[p := File (Raw []) z]> t.
Lemma fs_open_append_ok t p z t' : fs_open_append t p z = (Ok tt, t') → opened_at p t t' ∧ ∃ c z, t' !! p = Some (File c z).
Proof.
  unfold fs_open_append. destruct (find_node t p) as [[|c z']|e] eqn:Ef.
  - unfold fs_write. apply find_node_ok in Ef as [Ef ->]. by rewrite Ef.
  - intros [= <-]. apply find_node_ok in Ef as [Ef _]. split; [by left|eauto].
  - intros (-> & Hd & Hne & Hr)%fs_write_ok. split; [|rewrite lookup_insert_eq; eauto]. right. eexists. split_and!; try done.
    unfold find_node in Ef. rewrite Hr in Ef. by destruct (_ !! _).
Qed.
Lemma fs_open_append_atomic p z : atomic_act (λ t, fs_open_append t p z).
Proof.
  intros t e t'. unfold fs_open_append. destruct (find_node t p) as [[|c z']|]; intros E; [by eapply fs_write_atomic|done|by eapply fs_write_atomic].
Qed.
Lemma wp_OpenAppend p (Q : result error unit → world → Prop) w :
  (∀ r t' n, opened_at p (wtree w) t' → (r = Ok tt → ∃ c z, t' !! p = Some (File c z)) → Q r (mkWorld t' n)) →
  wp (OpenAppend p) Q w.
Proof.
  intros HQ. unfold OpenAppend. apply wp_write; [apply fs_open_append_atomic|].
  intros r t' n [e He|t'' E|t'' E|k keep E]; apply HQ; try (by left); try done; by apply fs_open_append_ok in E as [??].
Qed.
Lemma wp_Append p data (Q : result error unit → world → Prop) w :
  (∀ r t' n, t' = wtree w ∨ (∃ k z, t' = append_to (wtree w) p (take k data) z) →
     (r = Ok tt → ∃ z, t' = append_to (wtree w) p data z) → Q r (mkWorld t' n)) →
  wp (Append p data) Q w.
Proof.
  intros HQ. unfold Append. apply wp_write; [by intros t e t' [=]|].
  intros r t' n [e He|t'' E|t'' E|k keep E]; apply HQ; try done; auto.
  - injection E as <-. right. exists (length data). rewrite take_ge by done. by eexists.
  - injection E as <-. by eexists.
  - injection E as <-. right. exists (length data). rewrite take_ge by done. by eexists.
  - right. by eexists _, _.
Qed.

(** What a listing of rotated logs holds. *)
Definition is_file (o : option node) : Prop := ∃ c z, o = Some (File c z).
Definition listed_in (dir prefix : bytes) (t : tree) (e : Entry) : Prop :=
  ∃ name, epath e = os_path (join dir name) ∧ ("/"%char ∉ name) ∧ log_date prefix name = Some (EDate e) ∧
    is_file (t !! (os_path dir ++ [name])).
Lemma wp_rotated_entries source dir prefix t l (Q : result error (list Entry) → world → Prop) :
  (∀ name n, (name, n) ∈ l → (name, n) ∈ entries t (os_path dir)) →
  (∀ es n, Forall (listed_in dir prefix t) es → Q (Ok es) (mkWorld t n)) →
  ∀ k, wp (rotated_entries source dir prefix l) Q (mkWorld t k).
Proof.
  revert Q. induction l as [|[name n] l IH]; intros Q Hl HQ k; simpl; [by apply wp_ret, HQ|].
  assert (∀ name n, (name, n) ∈ l → (name, n) ∈ entries t (os_path dir)) as Hl' by (intros; apply Hl; by right).
  destruct (is_dir n) eqn:Hd; [by apply IH|]. destruct (log_date prefix name) as [date|] eqn:Hdate; [|by apply IH].
  apply wp_bind, wp_try, wp_StatInfo. intros info k' _ _. apply wp_bind, IH; [done|]. intros es k'' Hes. apply wp_ret, HQ.
  destruct info as [i|e]; [|done]. constructor; [|done].
  destruct (proj1 (elem_of_entries _ _ _ _) (Hl name n ltac:(left))) as [Hn Hs]. exists name. simpl. split_and!; try done.
  rewrite Hn. destruct n as [|c z]; [done|]. by eexists _, _.
Qed.
Lemma wp_named {A : Type} s (f : path → M world A) (Q : result error A → world → Prop) w :
  (s = [] → Q (Err ENotExist) w) → (s ≠ [] → wp (f (os_path s)) Q w) → wp (named s f) Q w.
Proof. intros Hn Hf. unfold named. case_decide; [by apply Hn|by apply Hf]. Qed.
Lemma wp_ReadDir_entries p (Q : result error (list (bytes * node)) → world → Prop) w :
  (∀ r n, (∀ l, r = Ok l → l = entries (wtree w) p) → Q r (mkWorld (wtree w) n)) → wp (ReadDir p) Q w.
Proof.
  intros HQ. apply wp_read. intros r n [-> | ->]; apply HQ; [|done].
  intros l. destruct (find_node _ _) as [[|]|]; [|done|done]. by intros [= <-].
Qed.
Lemma wp_listRotated source conf (Q : result error (list Entry) → world → Prop) w :
  (∀ r n, (∀ l, r = Ok l → Forall (listed_in (LDir conf) (Prefix conf) (wtree w)) l ∧ (LDir conf = [] → l = [])) →
     Q r (mkWorld (wtree w) n)) →
  wp (listRotatedLogFiles source conf) Q w.
Proof.
  intros HQ. destruct w as [t k]. simpl in HQ. unfold listRotatedLogFiles.
  apply wp_bind, wp_try, wp_named; [|intros Hd; apply wp_ReadDir_entries; intros r n Hr].
  - intros Hd. apply wp_ret, HQ. by intros l [= <-].
  - destruct r as [l|e]; [|by case_decide; [apply wp_ret, HQ; intros l [= <-]|apply wp_throw, HQ]].
    apply wp_bind. apply (wp_rotated_entries _ _ _ t); [intros nm x Hin; by rewrite (Hr l eq_refl) in Hin|].
    intros es n' Hes. apply wp_ret, HQ. intros l' [= <-]. split; [|done]. unfold sortEntries. by rewrite merge_sort_Permutation.
Qed.

(** What removing the expired ones does. *)
Definition removed_some (P : path → Prop) (t t' : tree) : Prop :=
  ∀ q, t' !! q = t !! q ∨ t' !! q = None ∧ P q.
Lemma wp_remove_entries cutoff current P l : Forall (λ e, Some (epath e) ≠ current → expired cutoff (EDate e) = true → P (epath e)) l →
  ∀ (Q : result error unit → world → Prop) w, (∀ t' n, removed_some P (wtree w) t' → Q (Ok tt) (mkWorld t' n)) →
  wp (remove_entries cutoff current l) Q w.
Proof.
  induction 1 as [|e l He Hl IH]; intros Q [t k] HQ; simpl in *; [apply wp_ret, HQ; intros q; by left|].
  case_decide; [by apply IH|]. destruct (expired cutoff (EDate e)); [|by apply IH]. simpl.
  apply wp_bind, wp_ignore, wp_Remove.
  - intros er n _. by apply IH.
  - intros r t' n [-> _]%fs_remove_ok _. apply IH. intros t'' n' Hr. apply HQ. intros q.
    destruct (Hr q) as [->|[? ?]]; [|by right]. simpl. destruct (decide (q = epath e)) as [->|Hne].
    + right. rewrite lookup_delete_eq. split; [done|]. by apply He.
    + left. by rewrite lookup_delete_ne.
Qed.

(** ** What writing a line does to the files *)
Section write.
Variables (data : bytes) (r : option Z) (w : DailyFileWriter).
Definition day_log (date : bytes) : path := os_path (join (wdir w) (log_name (wprefix w) date)).
Definition retention : Z := Days r (configuredRetentionDays w).
(** An expired log of the writer: right in its directory, with its prefix and
    a day that lies more than the days kept before [today]. *)
Definition expired_log (today : Dates.Date) (q : path) : Prop :=
  ∃ name d, q = os_path (wdir w) ++ [name] ∧ log_date (wprefix w) name = Some (Dates.Format d) ∧ Dates.valid d ∧
    (0 < retention)%Z ∧ Dates.before d (Dates.back (Z.to_nat retention) today).
Definition old_bytes (o : option node) : bytes := match o with Some (File c _) => content_bytes c | _ => [] end.
(** A rotation makes the directory and the log of the day, and removes. *)
Definition rotated_to (today : Dates.Date) (t t' : tree) : Prop :=
  let p := day_log (Dates.Format today) in
  ∀ q, t' !! q = t !! q ∨ (t !! q = None ∧ t' !! q = Some Dir ∧ under q (os_path (wdir w))) ∨
    (q = p ∧ t !! q = None ∧ ∃ z, t' !! q = Some (File (Raw []) z)) ∨
    (q ≠ p ∧ is_file (t !! q) ∧ t' !! q = None ∧ expired_log today q).
Lemma expired_entry today t e :
  Dates.valid today → wdir w ≠ [] → (0 < retention)%Z → listed_in (wdir w) (wprefix w) t e →
  expired (Dates.back (Z.to_nat retention) today) (EDate e) = true → is_file (t !! epath e) ∧ expired_log today (epath e).
Proof.
  intros Ht Hd Hr (name & Hp & Hs & Hdate & Hf) He. pose proof (log_date_segment _ _ _ Hs Hdate) as Hseg.
  rewrite Hp, os_path_join by done. split; [done|]. unfold expired in He.
  destruct (Dates.Parse (EDate e)) as [d|] eqn:Ed; [|done]. apply Dates.Format_Parse in Ed as [Hv Ed].
  destruct (before_dec _ _) as [Hb|]; [|done]. exists name, d. by rewrite Ed.
Qed.
Lemma wp_rotate today (Q : result error DailyFileWriter → world → Prop) s : Dates.valid today →
  (∀ res t' n, rotated_to today (wtree s) t' →
     (∀ w', res = Ok w' → w' = mkWriter (wdir w) (wprefix w) (configuredRetentionDays w) (Dates.Format today) (Some (day_log (Dates.Format today), true)) ∧
        is_file (t' !! day_log (Dates.Format today))) → Q res (mkWorld t' n)) →
  wp (rotate (Dates.Format today) r w) Q s.
Proof.
  intros Hv HQ. unfold rotate. fold (day_log (Dates.Format today)). set (p := day_log _) in *.
  apply wp_bind, wp_named; [intros _; destruct s; apply HQ; [by left|done]|]. intros Hd. apply wp_MkdirAll. intros res t1 n1 Hmk _ _.
  assert (rotated_to today (wtree s) t1) as Hr1 by (intros q; destruct (Hmk q) as [?|?]; [by left|by right; left]).
  destruct res as [[]|e]; [|by apply HQ]. apply wp_bind, wp_OpenAppend. intros res t2 n2 Hop Hf2. simpl in Hop.
  assert (∀ q, q ≠ p → t2 !! q = t1 !! q) as Ho2.
  { destruct Hop as [->|(z & _ & _ & _ & ->)]; [done|]. intros. by rewrite lookup_insert_ne. }
  assert (rotated_to today (wtree s) t2) as Hr2.
  { intros q. destruct (decide (q = p)) as [->|Hne]; [|rewrite Ho2 by done; apply Hr1].
    destruct Hop as [->|(z & Hn & _ & _ & ->)]; [apply Hr1|]. rewrite lookup_insert_eq. right; right; left.
    destruct (Hmk p) as [E|(_ & E & _)]; [|congruence]. rewrite <-E. eauto. }
  destruct res as [[]|e]; [|by apply HQ]. specialize (Hf2 eq_refl).
  set (w' := mkWriter _ _ _ _ _). apply wp_bind. unfold removeExpiredLocked. change (Days r (configuredRetentionDays w')) with retention.
  assert (∀ t n, rotated_to today (wtree s) t → is_file (t !! p) → wp (mret w') Q (mkWorld t n)) as Hend.
  { intros t n Ht Hf. apply wp_ret, HQ; [done|]. by intros ? [= <-]. }
  case_decide as Hret; [by apply wp_ret, Hend|]. rewrite Dates.Parse_Format by done.
  apply wp_bind, wp_try, wp_listRotated. intros [l|e] n3 Hl; [|by apply wp_ret, Hend]. destruct (Hl l eq_refl) as [Hl' _]. simpl in Hl' |- *.
  apply (wp_remove_entries _ _ (λ q, q ≠ p ∧ is_file (t2 !! q) ∧ expired_log today q)).
  - eapply Forall_impl; [exact Hl'|]. intros e He Hne Hex. split; [congruence|]. apply expired_entry; [done..|lia|done|done].
  - intros t3 n4 Hr3. simpl in Hr3. apply Hend.
    + intros q. destruct (Hr3 q) as [->|(E & Hne & Hf & Hx)]; [apply Hr2|]. right; right; right. split_and!; try done.
      rewrite Ho2 in Hf by done. destruct (Hmk q) as [E'|(_ & E' & _)]; [by rewrite <-E'|]. destruct Hf as (? & ? & ?). congruence.
    + destruct (Hr3 p) as [->|(_ & Hne & _)]; [done|by destruct Hne].
Qed.

(** Writing a line: the files afterwards. *)
Definition written_to (today : Dates.Date) (t t' : tree) : Prop :=
  ∀ q, t' !! q = t !! q ∨ (t !! q = None ∧ t' !! q = Some Dir ∧ under q (os_path (wdir w))) ∨
    ((q = day_log (Dates.Format today) ∨ Some q = fst <$> wfile w) ∧ t !! q ≠ Some Dir ∧
       ∃ k c z, t' !! q = Some (File c z) ∧ content_bytes c = old_bytes (t !! q) ++ take k data) ∨
    (q ≠ day_log (Dates.Format today) ∧ is_file (t !! q) ∧ t' !! q = None ∧ curDate w ≠ Dates.Format today ∧ expired_log today q).
Lemma rotated_written today t t' : curDate w ≠ Dates.Format today → rotated_to today t t' → written_to today t t'.
Proof.
  intros Hc Hr q. destruct (Hr q) as [?|[?|[(-> & E & z & Ez)|(?&?&?&?)]]]; [by left|by right; left| |by right; right; right].
  right; right; left. rewrite E. split; [by left|]. split; [done|]. exists 0, (Raw []), z. done.
Qed.
Lemma append_to_lookup t p d z q : append_to t p d z !! q = t !! q ∨
  q = p ∧ ∃ c z', t !! p = Some (File c z') ∧ append_to t p d z !! q = Some (File (Raw (content_bytes c ++ d)) z).
Proof.
  unfold append_to. destruct (t !! p) as [[|c z']|] eqn:E; [by left| |by left].
  destruct (decide (q = p)) as [->|]; [right|left; by rewrite lookup_insert_ne]. rewrite lookup_insert_eq. eauto 6.
Qed.
Definition wrote (today : Dates.Date) (t : tree) (s' : world) (n : result error nat) (w' : DailyFileWriter) : Prop :=
  ∀ k, n = Ok k → k = length data ∧ curDate w' = Dates.Format today ∧
    (curDate w ≠ Dates.Format today → wfile w' = Some (day_log (Dates.Format today), true) ∧
       ∃ c z, wtree s' !! day_log (Dates.Format today) = Some (File c z) ∧
         content_bytes c = old_bytes (t !! day_log (Dates.Format today)) ++ data).
Lemma wp_append_same p today (Q : result error (result error nat) → world → Prop) s : fst <$> wfile w = Some p →
  (∀ n s', (∀ k, n = Ok k → k = length data) → written_to today (wtree s) (wtree s') → Q (Ok n) s') →
  wp (try (Append p data;; mret (length data))) Q s.
Proof.
  intros Hp HQ. apply wp_try, wp_bind, wp_Append. intros res t' n Ht' _.
  assert (written_to today (wtree s) t') as Hw.
  { destruct Ht' as [->|(k & z & ->)]; intros q; [by left|].
    destruct (append_to_lookup (wtree s) p (take k data) z q) as [?|(-> & c & z' & E & E')]; [by left|].
    right; right; left. rewrite E. split; [by right|]. split; [done|]. by eexists k, _, z. }
  destruct res as [[]|e]; [apply wp_ret|]; apply HQ; try done. by intros k [= <-].
Qed.
Lemma wp_append_new today t1 (Q : result error (result error nat) → world → Prop) s :
  let p := day_log (Dates.Format today) in
  curDate w ≠ Dates.Format today → rotated_to today t1 (wtree s) → is_file (wtree s !! p) →
  (∀ n s', (∀ k, n = Ok k → k = length data ∧ ∃ c z, wtree s' !! p = Some (File c z) ∧ content_bytes c = old_bytes (t1 !! p) ++ data) →
     written_to today t1 (wtree s') → Q (Ok n) s') →
  wp (try (Append p data;; mret (length data))) Q s.
Proof.
  intros p Hc Hr (c & z & Hf) HQ. pose proof (rotated_written _ _ _ Hc Hr) as Hw.
  assert (t1 !! p ≠ Some Dir ∧ content_bytes c = old_bytes (t1 !! p)) as [Hnd Hb].
  { destruct (Hr p) as [E|[(_ & E & _)|[(_ & E & z' & Ez)|(Hne & _)]]]; [rewrite <-E, Hf; done|congruence| |done].
    rewrite E. rewrite Hf in Ez. injection Ez as -> _. done. }
  assert (∀ k z', written_to today t1 (append_to (wtree s) p (take k data) z')) as Happ.
  { intros k z' q. unfold append_to. rewrite Hf. destruct (decide (q = p)) as [->|Hne]; [|rewrite lookup_insert_ne by done; apply Hw].
    rewrite lookup_insert_eq. right; right; left. split; [by left|]. split; [done|]. rewrite <-Hb. by eexists k, _, z'. }
  apply wp_try, wp_bind, wp_Append. intros res t' n Ht' Hok.
  assert (written_to today t1 t') as Hw' by (destruct Ht' as [->|(k & z' & ->)]; [done|apply Happ]).
  destruct res as [[]|e]; [apply wp_ret|]; apply HQ; try done. intros k [= <-]. split; [done|].
  destruct (Hok eq_refl) as [z' ->]. simpl. unfold append_to. rewrite Hf, lookup_insert_eq, <-Hb. eauto.
Qed.
End write.

End steps.

(** ** A rotation removes all that is expired *)
Section effective.
Context `{Machine, !NoFaults, LogEnv, Digest}.
Lemma os_path_rooted s : rooted (os_path s).
Proof. pose proof (os_path_segments s) as Hs. unfold rooted. destruct Hs as [|x l (_ & _ & Hx & _) _]; [done|]. simpl. intros E. apply Hx. by injection E. Qed.
Lemma nf_rotated_entries source dir prefix t l (Q : result error (list Entry) → world → Prop) :
  wf_tree t → dir ≠ [] → (∀ name n, (name, n) ∈ l → (name, n) ∈ entries t (os_path dir)) →
  (∀ es n, (∀ name c z date, (name, File c z) ∈ l → log_date prefix name = Some date → ∃ e, e ∈ es ∧ epath e = os_path (join dir name) ∧ EDate e = date) →
     Forall (λ e, rooted (epath e) ∧ is_file (t !! epath e)) es → Q (Ok es) (mkWorld t n)) →
  ∀ k, wp (rotated_entries source dir prefix l) Q (mkWorld t k).
Proof.
  intros Hwf Hd. revert Q. induction l as [|[name n] l IH]; intros Q Hl HQ k; simpl; [apply wp_ret, HQ; set_solver|].
  assert (∀ name n, (name, n) ∈ l → (name, n) ∈ entries t (os_path dir)) as Hl' by (intros; apply Hl; by right).
  destruct (proj1 (elem_of_entries _ _ _ _) (Hl name n ltac:(left))) as [Hn Hs].
  destruct (is_dir n) eqn:Hdir; [apply IH; [done|]; intros es k' Hes Hf; apply HQ; [|done]|].
  { intros nm c z date [E|?]%elem_of_cons Hdate; [|by eauto]. by simplify_eq. }
  destruct (log_date prefix name) as [date|] eqn:Hdate; [|apply IH; [done|]; intros es k' Hes Hf; apply HQ; [|done]].
  2: { intros nm c z date [E|?]%elem_of_cons Hdate'; [|by eauto]. simplify_eq. }
  assert (t !! os_path (join dir name) = Some n) as Hp by (by rewrite os_path_join by (done || by eapply log_date_segment)).
  apply wp_bind, wp_try, (nf_StatInfo_at _ n); [done|apply os_path_rooted|done|]. intros k'. apply wp_bind, IH; [done|].
  intros es k'' Hes Hf. apply wp_ret, HQ.
  - intros nm c z date' [E|?]%elem_of_cons Hdate'.
    + simplify_eq. eexists. split; [left|]. done.
    + destruct (Hes nm c z date') as (e & He & ?); [done..|]. exists e. split; [by right|done].
  - constructor; [|done]. simpl. split; [apply os_path_rooted|]. rewrite Hp. destruct n; [done|]. by eexists _, _.
Qed.
Lemma is_file_wf_delete t p : wf_tree t → is_file (t !! p) → wf_tree (delete p t).
Proof.
  intros Hwf (c & z & Hp). apply wf_delete; [done|intros ->; by rewrite (wf_root _ Hwf) in Hp|].
  intros q [k ->] Hs. destruct (decide (k = [])) as [->|Hk]; [by rewrite app_nil_r|].
  rewrite (wf_no_child t p k) in Hs by (done || congruence). by destruct Hs.
Qed.
(** Once gone, a log stays gone while others are removed. *)
Lemma nf_remove_entries cutoff current l :
  Forall (λ e, rooted (epath e)) l →
  ∀ (Q : result error unit → world → Prop) t n, wf_tree t → Forall (λ e, is_file (t !! epath e) ∨ t !! epath e = None) l →
  (∀ t' n, (∀ e, e ∈ l → Some (epath e) ≠ current → expired cutoff (EDate e) = true → t' !! epath e = None) →
     (∀ q, t' !! q = t !! q ∨ t' !! q = None) → Q (Ok tt) (mkWorld t' n)) →
  wp (remove_entries cutoff current l) Q (mkWorld t n).
Proof.
  induction 1 as [|e l He Hl IH]; intros Q t n Hwf Hf HQ; simpl; [apply wp_ret, HQ; [set_solver|by left]|].
  apply Forall_cons in Hf as [Hfe Hf]. case_decide as Hc; [|destruct (expired cutoff (EDate e)) eqn:Hx; simpl].
  - apply IH; [done..|]. intros t' n' Hgone Hkeep. apply HQ; [|done]. intros e' [->|?]%elem_of_cons; [done|by apply Hgone].
  - apply wp_bind, wp_ignore. destruct Hfe as [Hfe|Hfe].
    + pose proof (is_file_wf_delete _ _ Hwf Hfe) as Hwf'. destruct Hfe as (c & z & Hfe). apply (nf_Remove_file _ c z); [done..|]. simpl.
      apply IH; [done| |].
      * eapply Forall_impl; [exact Hf|]. intros e' Hfe'. simpl. destruct (decide (epath e' = epath e)) as [->|];
          [right; by rewrite lookup_delete_eq|by rewrite lookup_delete_ne].
      * intros t' n' Hgone Hkeep. apply HQ.
        -- intros e' [->|?]%elem_of_cons; [intros _ _; destruct (Hkeep (epath e)) as [->|?]; [by rewrite lookup_delete_eq|done]|by apply Hgone].
        -- intros q. destruct (Hkeep q) as [->|?]; [|by right]. destruct (decide (q = epath e)) as [->|];
             [right; by rewrite lookup_delete_eq|left; by rewrite lookup_delete_ne].
    + apply wp_Remove; [|intros r t' n' [_ [(E & _)|(c & z & E)]]%fs_remove_ok _; simpl in E; congruence].
      intros er n' _. simpl. apply IH; [done..|]. intros t' n'' Hgone Hkeep. apply HQ; [|done].
      intros e' [->|?]%elem_of_cons; [intros _ _; by destruct (Hkeep (epath e)) as [->|?]|by apply Hgone].
  - apply IH; [done..|]. intros t' n' Hgone Hkeep. apply HQ; [|done]. intros e' [->|?]%elem_of_cons; [congruence|by apply Hgone].
Qed.
Lemma nf_removeExpired date today r w t n (Q : result error unit → world → Prop) :
  Dates.Parse date = Some today → wf_tree t → wdir w ≠ [] → t !! os_path (wdir w) = Some Dir → (0 < retention r w)%Z →
  (∀ t' n', (∀ name d, ("/"%char ∉ name) → log_date (wprefix w) name = Some (Dates.Format d) → Dates.valid d →
       Dates.before d (Dates.back (Z.to_nat (retention r w)) today) → Some (os_path (wdir w) ++ [name]) ≠ fst <$> wfile w →
       ¬ is_file (t' !! (os_path (wdir w) ++ [name]))) → Q (Ok tt) (mkWorld t' n')) →
  wp (removeExpiredLocked date r w) Q (mkWorld t n).
Proof.
  intros Hp Hwf Hd Hdir Hr HQ. unfold removeExpiredLocked. change (Days r _) with (retention r w). rewrite decide_False by lia. rewrite Hp.
  apply wp_bind, wp_try. unfold listRotatedLogFiles. simpl. apply wp_bind, wp_try, wp_named; [done|]. intros _.
  apply nf_ReadDir_at; [done|apply os_path_rooted|done|]. apply wp_bind. simpl. apply (nf_rotated_entries _ _ _ t); [done..|].
  intros es n' Hes Hf. apply wp_ret. set (l := sortEntries es). assert (l ≡ₚ es) as Hl by apply merge_sort_Permutation.
  assert (Forall (λ e, rooted (epath e) ∧ is_file (t !! epath e)) l) as Hfl by (by rewrite Hl).
  apply nf_remove_entries; [by eapply Forall_impl; [exact Hfl|]; intros e [? ?]|done|eapply Forall_impl; [exact Hfl|]; intros e [? ?]; by left|].
  intros t' n'' Hgone Hkeep. apply HQ. intros name d Hs Hdate Hv Hb Hc. pose proof (log_date_segment _ _ _ Hs Hdate) as Hseg.
  intros (c & z & Hx). destruct (Hkeep (os_path (wdir w) ++ [name])) as [E|E]; rewrite Hx in E; [|done].
  - destruct (Hes name c z _ ltac:(by apply elem_of_entries) Hdate) as (e & He & Hpe & Hde). rewrite os_path_join in Hpe by done.
    rewrite <-Hpe, (Hgone e) in Hx; [done|by rewrite Hl|by rewrite Hpe|]. rewrite Hde. unfold expired. rewrite Dates.Parse_Format by done.
    by destruct (before_dec _ _).
Qed.
Lemma nf_rotate today r w (Q : result error DailyFileWriter → world → Prop) s :
  Dates.valid today → wf_tree (wtree s) → (0 < retention r w)%Z →
  (∀ e s', Q (Err e) s') →
  (∀ w' s', wfile w' = Some (day_log w (Dates.Format today), true) →
     (∀ name d, ("/"%char ∉ name) → log_date (wprefix w) name = Some (Dates.Format d) → Dates.valid d →
        Dates.before d (Dates.back (Z.to_nat (retention r w)) today) → os_path (wdir w) ++ [name] ≠ day_log w (Dates.Format today) →
        ¬ is_file (wtree s' !! (os_path (wdir w) ++ [name]))) → Q (Ok w') s') →
  wp (rotate (Dates.Format today) r w) Q s.
Proof.
  intros Hv Hwf Hr He HQ. unfold rotate. fold (day_log w (Dates.Format today)). set (p := day_log w _) in *.
  apply wp_bind, wp_named; [intros _; apply He|]. intros Hd. apply wp_wf; [auto with wf|done|].
  apply wp_MkdirAll. intros res t1 n1 _ Hmk _ Hwf1. destruct res as [[]|e]; [|apply He]. simpl in Hwf1.
  assert (t1 !! os_path (wdir w) = Some Dir) as Hdir.
  { destruct (decide (os_path (wdir w) = [])) as [->|Hne]; [apply Hwf1|]. specialize (Hmk eq_refl (length (os_path (wdir w)))).
    rewrite firstn_all in Hmk. apply Hmk. destruct (os_path (wdir w)); [done|simpl; lia]. }
  apply wp_bind, wp_OpenAppend. intros res t2 n2 Hop _. simpl in Hop. destruct res as [[]|e]; [|apply He].
  assert (wf_tree t2 ∧ t2 !! os_path (wdir w) = Some Dir) as [Hwf2 Hdir2].
  { destruct Hop as [->|(z & Hn & Hne & Hres & ->)]; [done|]. split; [apply wf_insert_file; try done; congruence|].
    rewrite lookup_insert_ne; [done|congruence]. }
  apply wp_bind. apply (nf_removeExpired _ today); [by apply Dates.Parse_Format|done..|]. intros t' n' Hgone. apply wp_ret, HQ; [done|].
  intros name d Hs Hdate Hvd Hb Hne. apply (Hgone name d); [done..|]. simpl. congruence.
Qed.

(** Expired logs do go. On a machine where no call fails, writing the first
    line of a day leaves no log of the writer's prefix in its directory that
    lies more than the days to be kept before that day, but the one it
    writes. *)
Theorem Write_prunes_all data r w s :
  let today := local_date (clock (tick s)) in
  wf_tree (wtree s) → curDate w ≠ Dates.Format today → (0 < retention r w)%Z →
  wp (Write data r w) (λ res s', ∀ n w', res = Ok (Ok n, w') → ∀ name d,
    ("/"%char ∉ name) → log_date (wprefix w) name = Some (Dates.Format d) → Dates.valid d →
    Dates.before d (Dates.back (Z.to_nat (retention r w)) today) →
    os_path (wdir w) ++ [name] ≠ day_log w (Dates.Format today) →
    ¬ is_file (wtree s' !! (os_path (wdir w) ++ [name]))) s.
Proof.
  intros today Hwf Hc Hr. pose proof (local_date_valid (clock (tick s))) as Hv. fold today in Hv. unfold Write.
  apply (wp_bind now). unfold wp at 1, now at 1. simpl. fold today. rewrite decide_True by done.
  apply wp_bind, wp_try, nf_rotate; [done|done|done|intros e s'; by apply wp_ret|]. intros w' s' Hf Hgone.
  apply wp_bind, wp_try. unfold write_file. rewrite Hf. apply wp_bind, wp_Append. intros res t' n Ht' _.
  assert (∀ q, q ≠ day_log w (Dates.Format today) → t' !! q = wtree s' !! q) as Ho.
  { intros q Hq. destruct Ht' as [->|(k & z & ->)]; [done|]. by destruct (append_to_lookup (wtree s') (day_log w (Dates.Format today)) (take k data) z q) as [?|[? _]]. }
  destruct res as [[]|e]; [apply wp_ret, wp_ret|by apply wp_ret]. intros k w'' _ name d Hs Hdate Hvd Hb Hne. simpl. rewrite Ho by done.
  by apply (Hgone name d).
Qed.
End effective.

(** ** What is read of the logs *)
Section reading.
Context `{Machine, LogEnv, Digest}.
(** A file the configuration names: the file itself, or a log of a day right
    in the directory. *)
Definition log_file_of (c : SourceConf) (p : path) : Prop :=
  match Type_ (SLogFile c) with
  | LogFileTypeNameRotate => ∃ name, LDir (SLogFile c) ≠ [] ∧ p = os_path (LDir (SLogFile c)) ++ [name] ∧
      is_Some (log_date (Prefix (SLogFile c)) name)
  | LogFileTypeName => Filename (SLogFile c) ≠ [] ∧ p = os_path (Filename (SLogFile c))
  | _ => False
  end.
Definition from_source (c : SourceConf) (e : Entry) : Prop := ESource e = SName c ∧ log_file_of c (epath e).
Lemma wp_source c (Q : result error (list Entry) → world → Prop) w :
  (∀ r n, (∀ l, r = Ok l → Forall (λ e, log_file_of c (epath e)) l) → Q r (mkWorld (wtree w) n)) → wp (listLogFilesForSource c) Q w.
Proof.
  intros HQ. unfold listLogFilesForSource, log_file_of in *. destruct w as [t k]. simpl in HQ.
  destruct (Type_ _); try (by apply wp_ret, HQ; intros l [= <-]).
  - unfold listNamedLogFile. case_decide as Hf; [by apply wp_ret, HQ; intros l [= <-]|].
    apply wp_bind, wp_try, wp_StatInfo. intros [[n i]|e] k' _ _; [|by case_decide; [apply wp_ret, HQ; intros l [= <-]|apply wp_throw, HQ]].
    destruct (is_dir n); [by apply wp_ret, HQ; intros l [= <-]|]. apply wp_ret, HQ. intros l [= <-]. by repeat constructor.
  - apply wp_listRotated. intros r n Hr. apply HQ. intros l ->. destruct (Hr l eq_refl) as [Hl Hnil].
    destruct (decide (LDir (SLogFile c) = [])) as [E|Hd]; [by rewrite Hnil|]. eapply Forall_impl; [exact Hl|].
    intros e (name & Hp & Hs & Hdate & _). exists name. split; [done|]. pose proof (log_date_segment _ _ _ Hs Hdate).
    rewrite Hp, os_path_join by done. split; [done|]. by eexists.
Qed.
Lemma add_unseen_forall (P : Entry → Prop) l : ∀ logs, Forall P logs → Forall P l → Forall P (add_unseen logs l).
Proof.
  induction l as [|e l IH]; intros logs Hlogs Hl; simpl; [done|]. apply Forall_cons in Hl as [He Hl].
  case_decide; [by apply IH|]. apply IH; [|done]. apply Forall_app. split; [done|]. by constructor.
Qed.
Definition of_sources (confs : list SourceConf) (e : Entry) : Prop := ∃ c, c ∈ confs ∧ log_file_of c (epath e).
Lemma wp_list_sources all confs (Q : result error (list Entry) → world → Prop) t :
  (∀ c, c ∈ confs → c ∈ all) →
  (∀ r n, (∀ l, r = Ok l → Forall (of_sources all) l) → Q r (mkWorld t n)) →
  ∀ logs k, Forall (of_sources all) logs → wp (list_sources logs confs) Q (mkWorld t k).
Proof.
  intros Hsub HQ. induction confs as [|c confs IH]; intros logs k Hlogs; simpl.
  - apply wp_ret, HQ. by intros l [= <-].
  - apply wp_bind, wp_source. intros r n Hr. destruct r as [l|e]; [|by apply HQ]. apply IH; [intros; apply Hsub; by right|].
    apply add_unseen_forall; [done|]. eapply Forall_impl; [by apply Hr|]. intros e He. exists c. split; [apply Hsub; left|done].
Qed.
Lemma wp_ListLogFiles confs (Q : result error (list Entry) → world → Prop) w :
  (∀ r n, (∀ l, r = Ok l → Forall (of_sources confs) l) → Q r (mkWorld (wtree w) n)) → wp (ListLogFilesForSources confs) Q w.
Proof.
  intros HQ. destruct w as [t k]. simpl in HQ. apply wp_bind. apply (wp_list_sources confs); [done| |done]. intros r n Hr.
  destruct r as [l|e]; [|by apply HQ]. apply wp_ret, HQ. intros l' [= <-]. unfold sortEntries. rewrite merge_sort_Permutation. by apply Hr.
Qed.

(** ** Where the answer begins *)
Record tail_of (max : Z) (data : bytes) (start : Z) : Prop := {
  tail_range : (0 ≤ start ≤ Z.of_nat (length data))%Z;
  tail_size : (0 < max → Z.of_nat (length data) - start ≤ max)%Z;
  tail_whole : (max ≤ 0 ∨ Z.of_nat (length data) ≤ max)%Z → start = 0%Z;
  tail_nonempty : data ≠ [] → (start < Z.of_nat (length data))%Z;
  tail_line : start = 0%Z ∨ start = (Z.of_nat (length data) - max)%Z ∨ data !! Z.to_nat (start - 1) = Some newline;
}.
(** The first line that begins in the window, if its start is looked at. *)
Definition first_line (max : Z) (data : bytes) (start : Z) : Prop :=
  let from := (Z.of_nat (length data) - max)%Z in
  ∀ i : nat, (0 < max ∧ 0 < from ∧ from ≤ Z.of_nat i < from + maxLineScanBytes ∧ Z.of_nat i + 1 < Z.of_nat (length data))%Z →
    data !! i = Some newline → (start ≤ Z.of_nat i + 1)%Z ∧ data !! Z.to_nat (start - 1) = Some newline.
Lemma IndexByte_Some s c i : IndexByte s c = Some i ↔ s !! i = Some c ∧ ∀ j, j < i → s !! j ≠ Some c.
Proof.
  revert i. induction s as [|x s IH]; intros i; simpl; [split; [done|by intros [? _]]|]. case_decide as Hx.
  - subst. split; [intros [= <-]; split; [done|lia]|]. intros [Hi Hj]. destruct i; [done|]. destruct (Hj 0); [lia|done].
  - rewrite fmap_Some. setoid_rewrite IH. split.
    + intros (k & [Hk Hj] & ->). split; [done|]. intros [|j] Hlt; simpl; [congruence|]. apply Hj. lia.
    + intros [Hi Hj]. destruct i as [|i]; [simpl in Hi; congruence|]. exists i. split; [|done]. split; [done|].
      intros j Hlt. apply (Hj (S j)). lia.
Qed.
Lemma IndexByte_None s c : IndexByte s c = None → c ∉ s.
Proof. induction s as [|x s IH]; simpl; [set_solver|]. case_decide; [done|]. intros Hn%fmap_None. set_solver. Qed.
Lemma wp_ReadAt data from limit (Q : result error bytes → world → Prop) w :
  (∀ buf n, buf `prefix_of` drop (Z.to_nat from) data →
     ((∀ k, fault k = NoFault) → buf = take (Z.to_nat limit) (drop (Z.to_nat from) data)) → Q (Ok buf) (mkWorld (wtree w) n)) →
  wp (ReadAt data from limit) Q w.
Proof.
  intros HQ. unfold wp, ReadAt. set (buf := take _ _). assert (buf `prefix_of` drop (Z.to_nat from) data) as Hb by apply prefix_take.
  cbn [fst snd]. apply HQ.
  - destruct (fault _); [done|apply prefix_nil|done|]. etrans; [apply prefix_take|done].
  - intros Hf. by rewrite Hf.
Qed.
Lemma wp_SeekTail data max (Q : result error Z → world → Prop) w :
  (∀ r n, (∀ start, r = Ok start → tail_of max data start ∧ ((∀ k, fault k = NoFault) → first_line max data start)) →
     Q r (mkWorld (wtree w) n)) → wp (SeekTail data max) Q w.
Proof.
  intros HQ. unfold SeekTail. apply wp_bind, wp_read. intros r n Hr. destruct r as [size|e]; [|by apply HQ].
  destruct Hr as [[= ->]|]; [|done]. set (size := Z.of_nat (length data)) in *. case_decide as Hm.
  { apply wp_ret, HQ. intros start [= <-]. split; [|intros _ i Hi; lia].
    split; fold size; [lia|intros; destruct Hm; lia|done| |by left]. intros Hd. destruct data; [done|]. subst size. simpl. lia. }
  assert (0 < max < size)%Z as Hms by lia. apply wp_bind. unfold lineStartAfter. apply wp_bind, wp_ReadAt. intros buf n' Hpre Hbuf. simpl.
  set (from := (size - max)%Z) in *.
  assert (∀ i, buf !! i = Some newline → data !! Z.to_nat (from + Z.of_nat i) = Some newline) as Hat.
  { intros i Hi. eapply prefix_lookup_Some in Hi; [|done]. rewrite lookup_drop in Hi. rewrite <-Hi. f_equal. lia. }
  assert (∀ i, (Z.of_nat i < size - from)%Z → (Z.of_nat i < maxLineScanBytes)%Z → (∀ k, fault k = NoFault) → buf !! i = data !! Z.to_nat (from + Z.of_nat i)) as Hin.
  { intros i Hi Hs Hnf. rewrite (Hbuf Hnf), lookup_take_lt by lia. rewrite lookup_drop. f_equal. lia. }
  assert (∀ start, (from ≤ start < size)%Z → (start = from ∨ data !! Z.to_nat (start - 1) = Some newline) → tail_of max data start) as Htail.
  { intros start Hs Hl. split; fold size; [lia|lia|lia|lia|]. fold from. by right. }
  assert (∀ start n, tail_of max data start → ((∀ k, fault k = NoFault) → first_line max data start) →
    wp (read_step (λ _ : tree, Ok start)) Q (mkWorld (wtree w) n)) as Hend.
  { intros start k Ht Hl. apply wp_read. intros r n'' [->| ->]; apply HQ; [|done]. by intros ? [= <-]. }
  assert (∀ i j, (∀ k, fault k = NoFault) → (∀ k, k < j → buf !! k ≠ Some newline) → (from ≤ Z.of_nat i < from + maxLineScanBytes)%Z →
    (Z.of_nat i + 1 < size)%Z → data !! i = Some newline → (from + Z.of_nat j ≤ Z.of_nat i)%Z) as Hfirst.
  { intros i j Hnf Hj Hi Hi' Hd. destruct (Z.le_gt_cases (from + Z.of_nat j) (Z.of_nat i)) as [?|Hlt]; [done|].
    destruct (Hj (Z.to_nat (Z.of_nat i - from))); [lia|]. rewrite Hin by (done || lia). rewrite <-Hd. f_equal. lia. }
  destruct (IndexByte buf newline) as [j|] eqn:Ej.
  - apply IndexByte_Some in Ej as [Hj Hbefore]. pose proof (Hat j Hj) as Hd. apply lookup_lt_Some in Hd as Hlt.
    assert (from + Z.of_nat j < size)%Z as Hjs by (subst size; lia). case_decide as Ha; apply wp_ret, Hend.
    + apply Htail; [lia|by left].
    + intros Hnf i (_ & _ & Hi & Hi') Hdi. fold size in Hi, Hi'. fold from in Hi. pose proof (Hfirst i j Hnf Hbefore Hi Hi' Hdi). lia.
    + apply Htail; [lia|right]. rewrite <-Hd. f_equal. lia.
    + intros Hnf i (_ & _ & Hi & Hi') Hdi. fold size in Hi, Hi'. fold from in Hi. pose proof (Hfirst i j Hnf Hbefore Hi Hi' Hdi).
      split; [lia|]. rewrite <-Hd. f_equal. lia.
  - apply IndexByte_None in Ej. apply wp_ret, Hend; [apply Htail; [lia|by left]|].
    intros Hnf i (_ & _ & Hi & Hi') Hdi. fold size in Hi, Hi'. fold from in Hi. exfalso.
    pose proof (Hfirst i (Z.to_nat (Z.of_nat i - from) + 1) Hnf) as Hc. cut (from + Z.of_nat (Z.to_nat (Z.of_nat i - from) + 1) ≤ Z.of_nat i)%Z; [lia|].
    apply Hc; [|done..]. intros k _ Hk. apply Ej. by eapply list_elem_of_lookup_2.
Qed.

(** Claim C37: Where the end of a log begins. Of a log, at most the asked number of
    bytes is given, and at least one unless it is empty; it is given from its
    beginning when it is that small or everything is asked for, and otherwise
    from the first byte of a line, or from the last bytes asked for. When
    nothing fails and a line begins within the first 64 KiB of these, the
    answer begins with a line. *)
Theorem SeekTail_bounds data max w :
  wp (SeekTail data max) (λ r w', wtree w' = wtree w ∧ ∀ start, r = Ok start →
    tail_of max data start ∧ ((∀ k, fault k = NoFault) → first_line max data start)) w.
Proof. by apply wp_SeekTail. Qed.

(** An answer with the end of a log of the configuration. *)
Definition log_answer (sources : list SourceConf) (q : Request) (t : tree) (a : Response) : Prop :=
  ∃ c p content z max start, c ∈ sources ∧ log_file_of c p ∧ t !! p = Some (File content z) ∧
    parseLogTailBytes q = Some max ∧ tail_of max (content_bytes content) start ∧
    Payload_ a = PRaw (Raw (drop (Z.to_nat start) (content_bytes content))).

(** What the server gives of its logs. Whatever the request, and whatever
    fails: reading a log changes no file; and what is answered is the end, of
    the size asked for, of a file that the configuration names or of a log of
    a day right in a directory it names, whatever the ID says. *)
Theorem getLogContent_listed sources q log_id w :
  wp (getLogContent sources q log_id) (λ res w', wtree w' = wtree w ∧ ∃ a, res = Ok a ∧
    (Status a = StatusOK → log_answer sources q (wtree w) a)) w.
Proof.
  unfold getLogContent. set (Q := λ res w', _).
  assert (∀ status w', wtree w' = wtree w → status ≠ StatusOK → wp (mret (http_Error status)) Q w') as Herr.
  { intros status w' Hw Hs. apply wp_ret. split; [done|]. by eexists. }
  destruct (decodePathID log_id) as [id|]; [|by apply Herr]. destruct (parseLogTailBytes q) as [max|] eqn:Hmax; [|by apply Herr].
  apply wp_bind, wp_try, wp_bind, wp_ListLogFiles. intros [logs|e] n Hl; [|by apply Herr; [|case_decide]]. specialize (Hl logs eq_refl).
  destruct (List.find _ logs) as [e|] eqn:Hfind; [|by apply wp_throw, Herr].
  apply List.find_some in Hfind as [Hin%list_elem_of_In _]. rewrite Forall_forall in Hl. destruct (Hl e Hin) as (c & Hc & Hp).
  apply wp_bind, wp_Open. intros r n' Ho _. destruct r as [content|er]; [|by apply Herr; [|case_decide]].
  destruct (Ho content eq_refl) as [z Hz]. apply wp_ret, wp_bind, wp_try, wp_SeekTail. intros [start|er] n'' Hs; [|by apply Herr].
  destruct (Hs start eq_refl) as [Ht _]. apply wp_ret. split; [done|]. eexists. split; [done|]. intros _.
  exists c, (epath e), content, z, max, start. by split_and!.
Qed.
End reading.

(** ** A directory of logs *)
Module example.
Import Sample.
#[export, refine] Instance log_env : LogEnv := {
  cwd := [str "srv"];
  local_date _ := Dates.mkDate 2026 3 5;
}.
Proof.
  - apply (bool_decide_unpack _). vm_compute. exact I.
  - intros _. apply (bool_decide_unpack _). vm_compute. exact I.
Defined.
Definition logs : path := [str "srv"; str "logs"].
Definition example_tree : tree :=
  <[logs ++ [str "log-2026-03-04.log"] := File (Raw (str "yesterday")) 0%Z]>
  (<[logs ++ [str "log-2026-01-31.log"] := File (Raw (str "old")) 0%Z]>
  (<[logs ++ [str "other-2026-01-31.log"] := File (Raw (str "kept")) 0%Z]>
  (<[logs := Dir]> (<[[str "srv"] := Dir]> (<[[] := Dir]> ∅))))).
Definition example_writer : DailyFileWriter :=
  NewDailyFileWriter (mkConf LogFileTypeNameRotate [] (str "logs") [] None).
(** The first line of the day begins its log and removes the old one only. *)
Example first_line_of_a_day :
  (λ p, match wtree (Write (str "line") None example_writer (start example_tree)).2 !! (logs ++ [p]) with
        | Some (File c _) => Some (content_bytes c) | _ => None end) <$>
    [str "log-2026-03-05.log"; str "log-2026-03-04.log"; str "log-2026-01-31.log"; str "other-2026-01-31.log"] =
  [Some (str "line"); Some (str "yesterday"); None; Some (str "kept")].
Proof. vm_compute. reflexivity. Qed.
Lemma Write_prunes_all_witness :
  (∃ n w', (Write (str "line") None example_writer (start example_tree)).1 = Ok (Ok n, w')) ∧
  wp (Write (str "line") None example_writer) (λ res s', ∀ n w', res = Ok (Ok n, w') → ∀ name d,
    ("/"%char ∉ name) → log_date (wprefix example_writer) name = Some (Dates.Format d) → Dates.valid d →
    Dates.before d (Dates.back (Z.to_nat (retention None example_writer)) (local_date (clock (tick (start example_tree))))) →
    os_path (wdir example_writer) ++ [name] ≠ day_log example_writer (Dates.Format (local_date (clock (tick (start example_tree))))) →
    ¬ is_file (wtree s' !! (os_path (wdir example_writer) ++ [name]))) (start example_tree).
Proof.
  split; [eexists _, _; vm_compute; reflexivity|].
  apply (Write_prunes_all (str "line") None example_writer (start example_tree)).
  - apply wf_treeb_ok. vm_compute. reflexivity.
  - intros E. vm_compute in E. discriminate.
  - vm_compute. reflexivity.
Defined.
(** The sources of a configuration: the log of the server and that of its
    second shelf. *)
Example sources_of_a_configuration :
  SName <$> collectLogSources (VPointer (VStruct
    [(str "Logger", str "logger", true, VLog (mkConf LogFileTypeNone [] [] [] None));
     (str "Port", [], true, VOther);
     (str "Shelves", str "shelves,omitempty", true, VSlice [VStruct [(str "Name", [], true, VOther)];
        VStruct [(str "Log", str "-", true, VLog (mkConf LogFileTypeNone [] [] [] None)); (str "cache", [], false, VNil)]])])) [] =
  [str "logger"; str "shelves[1].log"].
Proof. vm_compute. reflexivity. Qed.
End example.
End Logs.
