(* ===== verification/PCloud.v ===== *)
(** * A shelf on pCloud: [src/internal/pcloud]

    [Client] calls the web API of pCloud, and [FS] is a read-only file system
    over one folder of the account, which keeps the listings it was given. The
    server is the environment, which answers the [n]-th request as it likes;
    the decoder of JSON, [time.Parse] and what package [net/url] makes of a
    link are parameters. One call runs at a time; the timeout of a request is
    part of its answer; the wording of errors is left out. The folders of an
    account may lie arbitrarily deep: [listFolderRecursive] has fuel, and
    [pcloud_reads_account] says that more fuel than folders lie in one another
    is enough.

    [pcloud_token_confined] says where the access token goes;
    [pcloud_reads_account] that what the file system shows of an account that
    stands still is what is there, whichever way it was listed. *)

From S2P Require Import Prelude Utf8 Strings Fs FsSpec DavClient.

Module PCloud.

(** ** The web API *)
Definition HostUS : bytes := str "api.pcloud.com".
Definition HostEU : bytes := str "eapi.pcloud.com".
Definition HostForLocation (locationID : Z) : option bytes :=
  if decide (locationID = 1)%Z then Some HostUS else if decide (locationID = 2)%Z then Some HostEU else None.
Definition maxAttempts : nat := 3.
Definition maxReplyBytes : Z := 256 * 2 ^ 20.
Definition rootFolderID : Z := 0.
Definition resultRecursiveListingUnsupported : Z := 1101.
Definition resultParentNotFound : Z := 2002.
Definition resultDirectoryNotFound : Z := 2005.
Definition resultFileNotFound : Z := 2009.

(** [type item]; a nil slice of contents is nothing. *)
Inductive item := mkItem (Name : bytes) (IsFolder : bool) (FolderID FileID : option Z) (Size : Z) (Modified : bytes) (Contents : option (list item)).
Definition iName (i : item) : bytes := let '(mkItem n _ _ _ _ _ _) := i in n.
Definition IsFolder (i : item) : bool := let '(mkItem _ d _ _ _ _ _) := i in d.
Definition FolderID (i : item) : option Z := let '(mkItem _ _ f _ _ _ _) := i in f.
Definition FileID (i : item) : option Z := let '(mkItem _ _ _ f _ _ _) := i in f.
Definition Size (i : item) : Z := let '(mkItem _ _ _ _ z _ _) := i in z.
Definition Modified (i : item) : bytes := let '(mkItem _ _ _ _ _ m _) := i in m.
Definition Contents (i : item) : option (list item) := let '(mkItem _ _ _ _ _ _ c) := i in c.
Definition with_contents (c : option (list item)) (i : item) : item :=
  let '(mkItem n d f g z m _) := i in mkItem n d f g z m c.

Record Request := mkRequest { Host : bytes; Path : bytes; Params : list (bytes * bytes); Token : bytes }.
Record Response := mkResponse { StatusCode : Z; Body : bytes; whole : bool }.
(** A request is answered or breaks, for good when it was cancelled. *)
Inductive outcome := Answered (r : Response) | Broken (cancelled : bool).
Class PcloudServer := {
  answer : nat → Request → outcome;
  (** whether the pause before a retry ends before the context *)
  sleeps : nat → bool;
  clock : nat → Z;
}.
Class PcloudText := {
  (** [json.Unmarshal] into an [envelope], a [listFolderReply] and a
      [linkReply] *)
  decode_envelope : bytes → option (option Z * bytes);
  decode_listing : bytes → option (option item);
  decode_link : bytes → option (list bytes * bytes);
  (** [time.Parse] with [time.RFC1123Z] *)
  parse_time : bytes → option Z;
  (** [http.NewRequest] of the URL of a link *)
  url_valid : bytes → bytes → bool;
}.

(** ** Errors *)
Inductive Error := APIError (result status : Z) | TransportError (cancelled : bool) | PlainError.
(** [func (e *Error) notFound], [Unwrap]: what [errors.Is] finds first *)
Definition notFound (result : Z) : bool :=
  bool_decide (result = resultParentNotFound ∨ result = resultDirectoryNotFound ∨ result = resultFileNotFound).
Definition Unwrap (e : Error) : error :=
  match e with
  | APIError result _ => if notFound result then ENotExist else ErrSourceUnavailable
  | TransportError _ => ErrSourceUnavailable
  | PlainError => Msg "request"
  end.
Definition retryableStatus (z : Z) : bool := bool_decide (z ∈ [429; 500; 502; 503; 504; 509]%Z).
(** [func isRetryable]; integer division truncates. *)
Definition isRetryable (e : Error) : bool :=
  match e with
  | TransportError cancelled => negb cancelled
  | APIError result status =>
      if decide (result = resultRecursiveListingUnsupported) then false else
      let group := Z.quot result 1000 in
      if decide (group = 4 ∨ group = 5)%Z then true else retryableStatus status
  | PlainError => false
  end.
Definition badReply : Error := APIError 0 0.

(** ** The client *)
Record Client := mkClient { chost : bytes; ctoken : bytes }.
(** [func NewClient] *)
Definition TrimRight (s : bytes) (c : Stdlib.Strings.Ascii.ascii) : bytes :=
  rev ((fix go (l : bytes) := match l with x :: l' => if decide (x = c) then go l' else l | [] => [] end) (rev s)).
Definition NewClient (host token : bytes) : option Client :=
  let host := TrimRight (TrimPrefix (TrimPrefix (TrimSpace host) (str "https://")) (str "http://")) "/"%char in
  let token := TrimSpace token in
  if negb (bool_decide (host = HostUS)) && negb (bool_decide (host = HostEU)) then None else
  if decide (token = []) then None else Some (mkClient host token).

(** [type node]: a folder's listing is when it was taken and what it holds,
    by name. *)
Inductive node := mkNode (nname : bytes) (isDir : bool) (id size : Z) (modified : option Z) (listing : option (Z * list node)).
Definition nname (n : node) : bytes := let '(mkNode x _ _ _ _ _) := n in x.
Definition isDir (n : node) : bool := let '(mkNode _ d _ _ _ _) := n in d.
Definition id (n : node) : Z := let '(mkNode _ _ i _ _ _) := n in i.
Definition size (n : node) : Z := let '(mkNode _ _ _ z _ _) := n in z.
Definition modified (n : node) : option Z := let '(mkNode _ _ _ _ m _) := n in m.
Definition listing (n : node) : option (Z * list node) := let '(mkNode _ _ _ _ _ l) := n in l.
Definition with_listing (l : option (Z * list node)) (n : node) : node :=
  let '(mkNode x d i z m _) := n in mkNode x d i z m l.
Definition named (x : bytes) (n : node) : node := let '(mkNode _ d i z m l) := n in mkNode x d i z m l.

Record FS := mkFS {
  client : Client; root : bytes; ListingMaxAge : Z;
  tree : option node;
  (** the requests sent, the last one first *)
  sent : list Request;
  turn : nat;
}.
Definition DefaultListingMaxAge : Z := 10 * 10 ^ 9.
Definition NewFS (c : Client) (root : bytes) : FS := mkFS c root DefaultListingMaxAge None [] 0.
Definition tick : M FS nat := λ s, (Ok (turn s), mkFS (client s) (root s) (ListingMaxAge s) (tree s) (sent s) (S (turn s))).
Definition log (q : Request) (s : FS) : FS := mkFS (client s) (root s) (ListingMaxAge s) (tree s) (q :: sent s) (turn s).
Definition set_tree (n : node) (s : FS) : FS := mkFS (client s) (root s) (ListingMaxAge s) (Some n) (sent s) (turn s).
Definition OutOfFuel : error := Msg "out of fuel".

Section client.
Context `{PcloudServer, PcloudText}.
Definition send (q : Request) : M FS outcome :=
  k ← tick;
  modify (log q);;
  mret (answer k q).
Definition sleep : M FS bool := k ← tick; mret (sleeps k).
Definition now : M FS Z := k ← tick; mret (clock k).

(** [io.ReadAll] of an [io.LimitReader] *)
Definition read_limited (res : Response) : option bytes :=
  if decide (maxReplyBytes ≤ Z.of_nat (length (Body res)))%Z then Some (take (Z.to_nat maxReplyBytes) (Body res))
  else if whole res then Some (Body res) else None.
(** [func (c *Client) callOnce], decoding with [decode] *)
Definition callOnce {A : Type} (method : bytes) (params : list (bytes * bytes)) (decode : bytes → option A) : M FS (result Error A) :=
  c ← gets client;
  res ← send (mkRequest (chost c) (str "/" ++ method) params (ctoken c));
  match res with
  | Broken cancelled => mret (Err (TransportError cancelled))
  | Answered res =>
      if decide (StatusCode res ≠ 200)%Z then mret (Err (APIError 0 (StatusCode res))) else
      match read_limited res with
      | None => mret (Err (TransportError false))
      | Some body =>
          match decode_envelope body with
          | None | Some (None, _) => mret (Err badReply)
          | Some (Some result, _) =>
              if decide (result ≠ 0)%Z then mret (Err (APIError result 0)) else
              match decode body with
              | None => mret (Err badReply)
              | Some out => mret (Ok out)
              end
          end
      end
  end.
(** [func (c *Client) call] and the loop of [download]: [n] attempts more *)
Fixpoint attempts {A : Type} (n : nat) (once : M FS (result Error A)) : M FS (result Error A) :=
  r ← once;
  match r with
  | Ok a => mret (Ok a)
  | Err e =>
      match n with
      | 0 => mret (Err e)
      | S n =>
          if negb (isRetryable e) then mret (Err e) else
          slept ← sleep;
          if (slept : bool) then attempts n once else mret (Err (TransportError true))
      end
  end.
Definition call {A : Type} (method : bytes) (params : list (bytes * bytes)) (decode : bytes → option A) : M FS (result Error A) :=
  attempts (maxAttempts - 1) (callOnce method params decode).

(** ** Folders *)
Definition listFolder (folderID : Z) (recursive : bool) : M FS (result Error item) :=
  let params := (str "folderid", Itoa folderID) :: (if recursive then [(str "recursive", str "1")] else []) in
  reply ← call (str "listfolder") params decode_listing;
  mret (match reply with
        | Err e => Err e
        | Ok None => Err badReply
        | Ok (Some m) => if IsFolder m then Ok m else Err badReply
        end).
Definition orEmpty (c : option (list item)) : option (list item) := Some (default [] c).
(** [func (c *Client) listFolderRecursive]: where listing it all at once is
    refused, folder by folder. *)
Section sub.
Context (list_sub : Z → M FS (result Error item)).
Fixpoint list_children (l : list item) : M FS (result Error (list item)) :=
  match l with
  | [] => mret (Ok [])
  | child :: l =>
      filled ← (match (if IsFolder child then FolderID child else None) with
                | None => mret (Ok child)
                | Some fid =>
                    sub ← list_sub fid;
                    mret (match sub with Err e => Err e | Ok sub => Ok (with_contents (orEmpty (Contents sub)) child) end)
                end);
      match filled with
      | Err e => mret (Err e)
      | Ok child =>
          rest ← list_children l;
          mret (match rest with Err e => Err e | Ok rest => Ok (child :: rest) end)
      end
  end.
End sub.
Fixpoint listFolderRecursive (fuel : nat) (folderID : Z) : M FS (result Error item) :=
  match fuel with
  | 0 => throw OutOfFuel
  | S fuel =>
      all ← listFolder folderID true;
      match all with
      | Ok t => mret (Ok t)
      | Err (APIError result status) =>
          if decide (result ≠ resultRecursiveListingUnsupported) then mret (Err (APIError result status)) else
          one ← listFolder folderID false;
          match one with
          | Err e => mret (Err e)
          | Ok t =>
              match Contents t with
              | None => mret (Ok t)
              | Some l =>
                  filled ← list_children (listFolderRecursive fuel) l;
                  mret (match filled with Err e => Err e | Ok l => Ok (with_contents (Some l) t) end)
              end
          end
      | Err e => mret (Err e)
      end
  end.
(** [func (c *Client) resolveFolderID] *)
Definition is_child (segment : bytes) (child : item) : bool :=
  IsFolder child && bool_decide (is_Some (FolderID child)) && bool_decide (iName child = segment).
Fixpoint resolve_segments (id : Z) (segments : list bytes) : M FS (result Error Z) :=
  match segments with
  | [] => mret (Ok id)
  | segment :: segments =>
      if decide (segment = []) then resolve_segments id segments else
      listed ← listFolder id false;
      match listed with
      | Err e => mret (Err e)
      | Ok t =>
          match List.find (is_child segment) (default [] (Contents t)) with
          | None => mret (Err (APIError resultDirectoryNotFound 0))
          | Some child => resolve_segments (default 0%Z (FolderID child)) segments
          end
      end
  end.
Definition resolveFolderID (folderPath : bytes) : M FS (result Error Z) :=
  resolve_segments rootFolderID (Split folderPath "/"%char).
(** [func (c *Client) ListFolders] *)
Definition ListFolders (folderID : Z) : M FS (result Error (list (bytes * Z))) :=
  listed ← listFolder folderID false;
  mret (match listed with
        | Err e => Err e
        | Ok t => Ok (omap (λ child, if IsFolder child then (λ i, (iName child, i)) <$> FolderID child else None) (default [] (Contents t)))
        end).

(** ** Downloads *)
Definition link (method : bytes) (params : list (bytes * bytes)) : M FS (result Error (bytes * bytes)) :=
  reply ← callOnce method params decode_link;
  mret (match reply with
        | Err e => Err e
        | Ok (hosts, p) =>
            match hosts with
            | h :: _ => if decide (h = [] ∨ p = []) then Err badReply else Ok (h, p)
            | [] => Err badReply
            end
        end).
Definition fileLink (fileID : Z) : M FS (result Error (bytes * bytes)) :=
  link (str "getfilelink") [(str "fileid", Itoa fileID)].
Definition zipLink (fileIDs : list Z) : M FS (result Error (bytes * bytes)) :=
  link (str "getziplink") [(str "fileids", Join (Itoa <$> fileIDs) (str ","))].
(** [func (c *Client) downloadOnce]: the bytes that come, and whether they
    end there or break off *)
Definition downloadOnce (resolve : M FS (result Error (bytes * bytes))) : M FS (result Error (bytes * bool)) :=
  l ← resolve;
  match l with
  | Err e => mret (Err e)
  | Ok (h, p) =>
      if negb (url_valid h p) then mret (Err PlainError) else
      res ← send (mkRequest h p [] []);
      mret (match res with
            | Broken cancelled => Err (TransportError cancelled)
            | Answered res => if decide (StatusCode res ≠ 200)%Z then Err (APIError 0 (StatusCode res)) else Ok (Body res, whole res)
            end)
  end.
Definition download (resolve : M FS (result Error (bytes * bytes))) : M FS (result Error (bytes * bool)) :=
  attempts (maxAttempts - 1) (downloadOnce resolve).
End client.

(** ** The tree of listings *)
Definition child (name : bytes) (l : list node) : option node := List.find (λ c, bool_decide (nname c = name)) l.
(** [children[c.name] = c] *)
Definition put (l : list node) (c : node) : list node := List.filter (λ x, negb (bool_decide (nname x = nname c))) l ++ [c].
Definition item_id (it : item) : Z := default 0%Z (if IsFolder it then FolderID it else FileID it).

Section tree.
Context `{PcloudServer, PcloudText}.
(** [func newNode]; no listing is there to keep. *)
Fixpoint newNode (listedAt : Z) (recursive : bool) (it : item) : node :=
  let '(mkItem name folder _ _ size modified contents) := it in
  let children :=
    (fix go (l : list item) (m : list node) : list node :=
      match l with [] => m | x :: l => go l (put m (newNode listedAt recursive x)) end) in
  mkNode name folder (item_id it) size (parse_time modified)
    (if folder && (recursive || bool_decide (is_Some contents)) then Some (listedAt, match contents with Some l => children l [] | None => [] end) else None).
(** [func (n *node) setChildren]: a folder that is still the same keeps the
    listing it had. *)
Definition keep_listing (previous : list node) (c : node) : node :=
  match child (nname c) previous with
  | Some old =>
      if isDir old && isDir c && bool_decide (id old = id c) && negb (bool_decide (is_Some (listing c)))
      then with_listing (listing old) c else c
  | None => c
  end.
Definition setChildren (items : list item) (listedAt : Z) (recursive : bool) (previous : list node) (n : node) : node :=
  with_listing (Some (listedAt, foldl (λ m it, put m (keep_listing previous (newNode listedAt recursive it))) [] items)) n.
(** [func (f *FS) stale] *)
Definition stale (n : node) : M FS bool :=
  match listing n with
  | None => mret true
  | Some (listedAt, _) =>
      z ← now;
      maxAge ← gets ListingMaxAge;
      mret (bool_decide (z - listedAt > maxAge)%Z)
  end.
(** [func (f *FS) loadLocked], [relistLocked] *)
Definition loadLocked (fuel : nat) : M FS (result Error node) :=
  t ← gets tree;
  match t with
  | Some n => mret (Ok n)
  | None =>
      r ← gets root;
      found ← resolveFolderID r;
      match found with
      | Err e => mret (Err e)
      | Ok i =>
          all ← listFolderRecursive fuel i;
          match all with
          | Err e => mret (Err e)
          | Ok it =>
              z ← now;
              let n := named (str ".") (newNode z true it) in
              modify (set_tree n);;
              mret (Ok n)
          end
      end
  end.
Definition relistLocked (n : node) : M FS (result Error node) :=
  listed ← listFolder (id n) false;
  match listed with
  | Err e => mret (Err e)
  | Ok it =>
      z ← now;
      mret (Ok (setChildren (default [] (Contents it)) z false (match listing n with Some (_, l) => l | None => [] end) n))
  end.
(** The walk of [lookup]: what it finds, and the node it started from with
    the listings it took on the way. *)
Definition replace_child (c : node) (n : node) : node :=
  match listing n with
  | None => n
  | Some (z, l) => with_listing (Some (z, (λ x, if decide (nname x = nname c) then c else x) <$> l)) n
  end.
Definition children (n : node) : list node := match listing n with Some (_, l) => l | None => [] end.
Fixpoint walk (segments : list bytes) (n : node) : M FS (result error node * node) :=
  match segments with
  | [] => mret (Ok n, n)
  | segment :: segments =>
      if negb (isDir n) then mret (Err ENotExist, n) else
      listed ← (if bool_decide (is_Some (listing n)) then mret (Ok n) else relistLocked n);
      match listed with
      | Err e => mret (Err (Unwrap e), n)
      | Ok n =>
          again ← (if bool_decide (is_Some (child segment (children n))) then mret (Ok n) else
                     old ← stale n;
                     if (old : bool) then relistLocked n else mret (Ok n));
          match again with
          | Err e => mret (Err (Unwrap e), n)
          | Ok n =>
              match child segment (children n) with
              | None => mret (Err ENotExist, n)
              | Some c =>
                  below ← walk segments c;
                  mret (below.1, replace_child below.2 n)
              end
          end
      end
  end.
Definition lookup (fuel : nat) (name : bytes) : M FS node :=
  if negb (DavClient.ValidPath name) then throw EInval else
  loaded ← loadLocked fuel;
  match loaded with
  | Err e => throw (Unwrap e)
  | Ok n =>
      if decide (name = str ".") then mret n else
      found ← walk (Split name "/"%char) n;
      modify (set_tree found.2);;
      of_result found.1
  end.

(** ** The file system *)
Record fileInfo := mkInfo { fname : bytes; fdir : bool; fsize : Z; fmodified : option Z }.
Definition info_of (n : node) : fileInfo := mkInfo (DavClient.Base (nname n)) (isDir n) (size n) (modified n).
Definition Stat (fuel : nat) (name : bytes) : M FS fileInfo :=
  n ← lookup fuel name;
  mret (info_of n).
(** [func dirEntries] *)
Definition node_le (a b : node) : Prop := str_le (nname a) (nname b).
#[export] Instance node_le_dec a b : Decision (node_le a b).
Proof. unfold node_le, str_le. apply _. Defined.
Definition dirEntries (n : node) : list fileInfo := info_of <$> merge_sort node_le (children n).
(** What [ReadDir] lists of is the node at the path, and stays in the tree. *)
Fixpoint store (segments : list bytes) (m n : node) : node :=
  match segments with
  | [] => m
  | segment :: segments =>
      match child segment (children n) with
      | None => n
      | Some c => replace_child (store segments m c) n
      end
  end.
Definition segments_of (name : bytes) : list bytes := if decide (name = str ".") then [] else Split name "/"%char.
Definition errNotDirectory : error := Msg "not a directory".
Definition ReadDir (fuel : nat) (name : bytes) : M FS (list fileInfo) :=
  n ← lookup fuel name;
  if negb (isDir n) then throw errNotDirectory else
  old ← stale n;
  if (old : bool) then
    listed ← relistLocked n;
    match listed with
    | Err e => throw (Unwrap e)
    | Ok n =>
        t ← gets tree;
        modify (set_tree (store (segments_of name) n (default n t)));;
        mret (dirEntries n)
    end
  else mret (dirEntries n).
(** [func (f *FS) Open]: an open directory with what is listed of it, or an
    open file *)
Inductive opened := OpenDir (i : fileInfo) (entries : list fileInfo) | OpenFile (i : fileInfo) (body : bytes) (whole : bool).
Definition Open (fuel : nat) (name : bytes) : M FS opened :=
  n ← lookup fuel name;
  if isDir n then mret (OpenDir (info_of n) (dirEntries n)) else
  got ← download (fileLink (id n));
  match got with
  | Err e => throw (Unwrap e)
  | Ok (body, w) => mret (OpenFile (info_of n) body w)
  end.
(** [func (f *FS) OpenZip] *)
Definition errIsDirectory : error := Msg "is a directory".
Fixpoint zip_ids (fuel : nat) (names : list bytes) : M FS (list Z) :=
  match names with
  | [] => mret []
  | name :: names =>
      n ← lookup fuel name;
      if isDir n then throw errIsDirectory else
      rest ← zip_ids fuel names;
      mret (id n :: rest)
  end.
Definition OpenZip (fuel : nat) (names : list bytes) : M FS (bytes * bool) :=
  if decide (names = []) then throw (Msg "no files to zip") else
  ids ← zip_ids fuel names;
  got ← download (zipLink ids);
  match got with Err e => throw (Unwrap e) | Ok b => mret b end.
(** [func (d *dirFile) ReadDir]: the entries given, or the end, and those
    that are left *)
Definition dirFile_ReadDir (entries : list fileInfo) (count : Z) : option (list fileInfo) * list fileInfo :=
  if decide (count ≤ 0)%Z then (Some entries, []) else
  match entries with
  | [] => (None, [])
  | _ => (Some (take (Z.to_nat count) entries), drop (Z.to_nat count) entries)
  end.
End tree.

(** ** Where the token goes *)
Section confined.
Context `{PcloudServer, PcloudText}.
(** A request is one of three that only read, to the host of the client, with
    its token; or it has no token. *)
Definition proper (c : Client) (q : Request) : Prop :=
  (Host q = chost c ∧ Token q = ctoken c ∧ Path q ∈ [str "/listfolder"; str "/getfilelink"; str "/getziplink"]) ∨ Token q = [].
Record sends (s s' : FS) : Prop := {
  sends_log : ∃ l, sent s' = l ++ sent s ∧ Forall (proper (client s)) l;
  sends_client : client s' = client s;
}.
Definition confined {A : Type} (m : M FS A) : Prop := ∀ s, sends s (m s).2.
Lemma pc_sends_refl s : sends s s.
Proof. split; [by exists []|done]. Qed.
Lemma pc_sends_trans s1 s2 s3 : sends s1 s2 → sends s2 s3 → sends s1 s3.
Proof.
  intros [(l1 & E1 & P1) C1] [(l2 & E2 & P2) C2]. split; [|congruence]. exists (l2 ++ l1). rewrite E2, E1, app_assoc.
  split; [done|]. apply Forall_app. split; [by rewrite <-C1|done].
Qed.
Lemma pc_confined_ret {A} (a : A) : confined (mret a).
Proof. intros s. apply pc_sends_refl. Qed.
Lemma pc_confined_throw {A} e : confined (throw (A := A) e).
Proof. intros s. apply pc_sends_refl. Qed.
Lemma confined_of_result {A} (r : result error A) : confined (of_result r).
Proof. intros s. apply pc_sends_refl. Qed.
Lemma confined_gets {A} (f : FS → A) : confined (gets f).
Proof. intros s. apply pc_sends_refl. Qed.
Lemma confined_set_tree n : confined (modify (set_tree n)).
Proof. intros s. split; [by exists []|done]. Qed.
Lemma confined_tick : confined tick.
Proof. intros s. split; [by exists []|done]. Qed.
Lemma sends_bind {A B} (m : M FS A) (k : A → M FS B) s : sends s (m s).2 → (∀ a, confined (k a)) → sends s (mbind k m s).2.
Proof.
  intros Hm Hk. unfold mbind, M_bind. destruct (m s) as [[a|e] s']; simpl in *; [|done].
  eapply pc_sends_trans; [exact Hm|apply Hk].
Qed.
Lemma confined_bind {A B} (m : M FS A) (k : A → M FS B) : confined m → (∀ a, confined (k a)) → confined (mbind k m).
Proof. intros Hm Hk s. by apply sends_bind. Qed.
Create HintDb confined.
#[local] Hint Resolve pc_confined_ret pc_confined_throw confined_of_result confined_gets confined_set_tree confined_tick : confined.
Ltac confined_step :=
  match goal with
  | |- confined (mbind _ _) => apply confined_bind; [|intros ?]
  | |- confined (match ?x with _ => _ end) => destruct x
  | |- confined (let _ := _ in _) => cbv zeta
  | |- _ => solve [auto with confined]
  end.
Ltac confine := repeat confined_step.
Lemma confined_now : confined now.
Proof. unfold now. confine. Qed.
Lemma confined_sleep : confined sleep.
Proof. unfold sleep. confine. Qed.
#[local] Hint Resolve confined_now confined_sleep : confined.
Lemma sends_send q s : proper (client s) q → sends s (send q s).2.
Proof. intros Hq. split; [|done]. exists [q]. split; [done|]. by constructor. Qed.
Lemma confined_callOnce {A} method params (decode : bytes → option A) :
  str "/" ++ method ∈ [str "/listfolder"; str "/getfilelink"; str "/getziplink"] → confined (callOnce method params decode).
Proof.
  intros Hm s. unfold callOnce. set (k := λ res : outcome, _).
  apply (sends_bind (send (mkRequest (chost (client s)) (str "/" ++ method) params (ctoken (client s)))) k).
  - apply sends_send. by left.
  - intros res. subst k. simpl. confine.
Qed.
Lemma confined_attempts {A} n (once : M FS (result Error A)) : confined once → confined (attempts n once).
Proof. intros Ho. induction n as [|n IH]; simpl; confine. Qed.
Lemma confined_listFolder id recursive : confined (listFolder id recursive).
Proof. unfold listFolder, call. confine. apply confined_attempts, confined_callOnce. set_solver. Qed.
#[local] Hint Resolve confined_listFolder : confined.
Lemma confined_list_children sub l : (∀ id, confined (sub id)) → confined (list_children sub l).
Proof. intros Hs. induction l as [|c l IH]; simpl; confine. Qed.
Lemma confined_listFolderRecursive fuel : ∀ id, confined (listFolderRecursive fuel id).
Proof.
  induction fuel as [|fuel IH]; intros id; simpl; confine. by apply confined_list_children.
Qed.
Lemma confined_resolve segments : ∀ id, confined (resolve_segments id segments).
Proof. induction segments as [|x segments IH]; intros id; simpl; confine. Qed.
Lemma confined_link method params : str "/" ++ method ∈ [str "/listfolder"; str "/getfilelink"; str "/getziplink"] → confined (link method params).
Proof. intros Hm. unfold link. confine. by apply confined_callOnce. Qed.
Lemma confined_downloadOnce resolve : confined resolve → confined (downloadOnce resolve).
Proof. intros Hr. unfold downloadOnce. confine. intros s. apply sends_send. by right. Qed.
#[local] Hint Resolve confined_listFolderRecursive confined_resolve : confined.
Lemma confined_lookup fuel name : confined (lookup fuel name).
Proof.
  unfold lookup, loadLocked. assert (∀ n, confined (relistLocked n)) as Hr by (intros n; unfold relistLocked; confine).
  assert (∀ n, confined (stale n)) as Hs by (intros n; unfold stale; confine).
  assert (∀ segments n, confined (walk segments n)) as Hw by (induction segments as [|x segments IH]; intros n; simpl; confine).
  unfold resolveFolderID. confine.
Qed.
Lemma confined_download resolve : confined resolve → confined (download resolve).
Proof. intros Hr. by apply confined_attempts, confined_downloadOnce. Qed.
Lemma confined_zip fuel names : confined (zip_ids fuel names).
Proof. induction names as [|x names IH]; simpl; confine; apply confined_lookup. Qed.

(** Requests that a client may send: those with a token only read, and go to
    one of the two hosts of the API. *)
Definition only_api (token : bytes) (q : Request) : Prop :=
  Token q ≠ [] → (Host q = HostUS ∨ Host q = HostEU) ∧ Token q = token ∧
    Path q ∈ [str "/listfolder"; str "/getfilelink"; str "/getziplink"].
Definition keeps_token {A : Type} (c : Client) (m : M FS A) : Prop :=
  ∀ s, client s = c → client (m s).2 = c ∧ ∃ l, sent (m s).2 = l ++ sent s ∧ Forall (only_api (ctoken c)) l.
Lemma NewClient_host host token c : NewClient host token = Some c → chost c = HostUS ∨ chost c = HostEU.
Proof.
  unfold NewClient. cbv zeta. set (h := TrimRight _ _). destruct (_ && _) eqn:Hh; [done|]. destruct (decide (TrimSpace token = [])); [done|]. intros [= <-]. simpl.
  apply andb_false_iff in Hh as [Hh|Hh]; apply negb_false_iff, bool_decide_eq_true in Hh; auto.
Qed.
Lemma confined_keeps_token {A} c (m : M FS A) : chost c = HostUS ∨ chost c = HostEU → confined m → keeps_token c m.
Proof.
  intros Hh Hm s Hs. destruct (Hm s) as [(l & E & Hl) Hc]. split; [congruence|]. exists l. split; [done|].
  eapply Forall_impl; [exact Hl|]. rewrite Hs. intros q [(Eh & Et & Hp)|He] Hne; [|done]. by rewrite Eh.
Qed.

End confined.

(** ** What is seen of an account that stands still *)
Definition child_item (name : bytes) (it : item) : option item :=
  List.find (λ c, bool_decide (iName c = name)) (default [] (Contents it)).
Fixpoint item_at (it : item) (segments : list bytes) : option item :=
  match segments with
  | [] => Some it
  | s :: segments => match child_item s it with Some c => item_at c segments | None => None end
  end.
(** How deep the folders below an item lie. *)
Fixpoint height (it : item) : nat :=
  match it with
  | mkItem _ _ _ _ _ _ (Some l) => S ((fix go (l : list item) := match l with [] => 0 | x :: l => Nat.max (height x) (go l) end) l)
  | _ => 0
  end.
(** What a listing that is not recursive gives of a folder. *)
Definition strip (it : item) : item := with_contents None it.
Definition shallow (it : item) : item :=
  with_contents (match Contents it with Some l => Some (strip <$> l) | None => None end) it.
Definition list_request (c : Client) (i : Z) (recursive : bool) : Request :=
  mkRequest (chost c) (str "/listfolder")
    ((str "folderid", Itoa i) :: (if recursive then [(str "recursive", str "1")] else [])) (ctoken c).
Definition link_request (c : Client) (i : Z) : Request :=
  mkRequest (chost c) (str "/getfilelink") [(str "fileid", Itoa i)] (ctoken c).

(** Lists without two of a name *)
Section names.
Context {A : Type} (name : A → bytes).
Definition by_name (s : bytes) (l : list A) : option A := List.find (λ c, bool_decide (name c = s)) l.
Lemma by_name_Some s l c : by_name s l = Some c → c ∈ l ∧ name c = s.
Proof. intros [Hin Hb]%List.find_some. apply bool_decide_eq_true in Hb. split; [by apply list_elem_of_In|done]. Qed.
Lemma by_name_in l c : NoDup (name <$> l) → c ∈ l → by_name (name c) l = Some c.
Proof.
  induction l as [|x l IH]; [set_solver|]. intros [Hx Hn]%NoDup_cons [->|Hc]%elem_of_cons; unfold by_name; simpl.
  - by rewrite bool_decide_true.
  - rewrite bool_decide_false; [by apply IH|]. intros E. apply Hx. rewrite E. by apply list_elem_of_fmap_2.
Qed.
Lemma by_name_fmap {B} (f : B → A) (name' : B → bytes) s l : (∀ x, name (f x) = name' x) →
  by_name s (f <$> l) = f <$> List.find (λ c, bool_decide (name' c = s)) l.
Proof. intros Hf. unfold by_name. induction l as [|x l IH]; simpl; [done|]. rewrite Hf. by case_bool_decide. Qed.
End names.
Lemma puts_distinct l : ∀ m, NoDup (nname <$> (m ++ l)) → foldl put m l = m ++ l.
Proof.
  induction l as [|x l IH]; intros m Hn; simpl; [by rewrite app_nil_r|].
  assert (put m x = m ++ [x]) as ->.
  { unfold put. f_equal. rewrite fmap_app, fmap_cons in Hn. apply NoDup_app in Hn as (_ & Hd & _).
    clear IH. induction m as [|y m IHm]; simpl; [done|]. case_bool_decide as E; simpl.
    - exfalso. apply (Hd (nname y)); [rewrite fmap_cons; left|rewrite E; left].
    - f_equal. apply IHm. intros z Hz. apply Hd. by right. }
  rewrite IH; [by rewrite <-app_assoc|by rewrite <-app_assoc].
Qed.

Section still.
Context `{PcloudServer, PcloudText}.
Lemma newNode_unfold z recursive it : newNode z recursive it =
  mkNode (iName it) (IsFolder it) (item_id it) (Size it) (parse_time (Modified it))
    (if IsFolder it && (recursive || bool_decide (is_Some (Contents it)))
     then Some (z, foldl put [] (newNode z recursive <$> default [] (Contents it))) else None).
Proof.
  destruct it as [x d f g y m c]. simpl. destruct (d && _); [|done]. do 2 f_equal. f_equal.
  destruct c as [l|]; [|done]. simpl. generalize (@nil node). induction l as [|a l IH]; intros acc; simpl; [done|]. apply IH.
Qed.

(** The facts a node has of its item *)
Definition facts_of (n : node) : bool * Z * Z * option Z := (isDir n, id n, size n, modified n).
Definition item_facts (it : item) : bool * Z * Z * option Z := (IsFolder it, item_id it, Size it, parse_time (Modified it)).
(** What is known of a path: nothing, that nothing is there, or a node. *)
Fixpoint node_at (n : node) (segments : list bytes) : option (option node) :=
  match segments with
  | [] => Some (Some n)
  | s :: segments =>
      match listing n with
      | None => None
      | Some (_, l) => match child s l with None => Some None | Some c => node_at c segments end
      end
  end.
Definition agrees (n : node) (it : item) : Prop :=
  ∀ segments, match node_at n segments with
    | None => True
    | Some None => item_at it segments = None
    | Some (Some m) => ∃ j, item_at it segments = Some j ∧ facts_of m = item_facts j ∧ NoDup (nname <$> children m)
    end.
Definition children_agree (l : list node) (it : item) : Prop :=
  ∀ s, match child s l with
    | None => child_item s it = None
    | Some c => ∃ j, child_item s it = Some j ∧ agrees c j
    end.
Lemma agrees_iff n it : agrees n it ↔
  facts_of n = item_facts it ∧ NoDup (nname <$> children n) ∧ (∀ z l, listing n = Some (z, l) → children_agree l it).
Proof.
  split.
  - intros Ha. destruct (Ha []) as (j & [= <-] & Hf & Hn). split; [done|]. split; [done|]. intros z l Hl s.
    destruct (child s l) as [c|] eqn:Hc.
    + pose proof (Ha [s]) as H1s. simpl in H1s. rewrite Hl, Hc in H1s. destruct H1s as (j & Hj & _). exists j.
      destruct (child_item s it) as [j'|] eqn:Ej; [|done]. injection Hj as ->. split; [done|].
      intros segments. pose proof (Ha (s :: segments)) as Hs. simpl in Hs. by rewrite Hl, Hc, Ej in Hs.
    + pose proof (Ha [s]) as H1s. simpl in H1s. rewrite Hl, Hc in H1s. by destruct (child_item s it).
  - intros (Hf & Hn & Hl) [|s segments]; simpl; [by exists it|]. destruct (listing n) as [[z l]|] eqn:El; [|done].
    specialize (Hl z l eq_refl s). destruct (child s l) as [c|]; [|by rewrite Hl]. destruct Hl as (j & -> & Hj). apply Hj.
Qed.

(** An account: folders with IDs of their own and their contents, names told
    apart within a folder. *)
Variable acct : item.
Definition inside (f : item) : Prop := ∃ segments, item_at acct segments = Some f.
Record account_ok : Prop := {
  ok_folder f : inside f → IsFolder f = true →
    ∃ i l, FolderID f = Some i ∧ Contents f = Some l ∧ NoDup (iName <$> l);
  ok_file f : inside f → IsFolder f = false → Contents f = None;
  ok_ids f g : inside f → inside g → IsFolder f = true → IsFolder g = true → FolderID f = FolderID g → f = g;
  ok_root : IsFolder acct = true ∧ FolderID acct = Some rootFolderID;
}.
Hypothesis ok : account_ok.
Lemma item_at_app it s1 s2 : item_at it (s1 ++ s2) = match item_at it s1 with Some j => item_at j s2 | None => None end.
Proof. revert it. induction s1 as [|s s1 IH]; intros it; simpl; [done|]. by destruct (child_item s it). Qed.
Lemma inside_at f segments g : inside f → item_at f segments = Some g → inside g.
Proof. intros [l Hl] Hg. exists (l ++ segments). by rewrite item_at_app, Hl. Qed.
Lemma inside_child f c : inside f → c ∈ default [] (Contents f) → inside c.
Proof.
  intros Hf Hc. apply (inside_at f [iName c]); [done|]. simpl. destruct (IsFolder f) eqn:Hd.
  - destruct (ok_folder ok f Hf Hd) as (i & l & _ & El & Hn). rewrite El in Hc. simpl in Hc.
    pose proof (by_name_in iName l c Hn Hc) as Hb. unfold child_item. rewrite El. simpl. unfold by_name in Hb. by rewrite Hb.
  - rewrite (ok_file ok f Hf Hd) in Hc. set_solver.
Qed.
Lemma names_distinct f : inside f → NoDup (iName <$> default [] (Contents f)).
Proof.
  intros Hf. destruct (IsFolder f) eqn:Hd; [|rewrite (ok_file ok f Hf Hd); constructor].
  by destruct (ok_folder ok f Hf Hd) as (i & l & _ & -> & Hn).
Qed.
Lemma nname_newNode z r it : nname (newNode z r it) = iName it.
Proof. by rewrite newNode_unfold. Qed.
(** Nodes made of the contents of a folder. *)
Lemma children_of_contents (mk : item → node) f : inside f → (∀ x, nname (mk x) = iName x) →
  (∀ x, x ∈ default [] (Contents f) → agrees (mk x) x) →
  let l := foldl put [] (mk <$> default [] (Contents f)) in NoDup (nname <$> l) ∧ children_agree l f.
Proof.
  intros Hf Hn Ha l. assert (NoDup (nname <$> (mk <$> default [] (Contents f)))) as Hd.
  { rewrite <-list_fmap_compose. rewrite (list_fmap_ext _ iName); [by apply names_distinct|]. intros; apply Hn. }
  assert (l = mk <$> default [] (Contents f)) as -> by (unfold l; by rewrite puts_distinct). split; [done|].
  intros s. change (child s ?k) with (by_name nname s k). rewrite (by_name_fmap nname mk iName) by done.
  change (List.find _ (default [] (Contents f))) with (child_item s f). destruct (child_item s f) as [j|] eqn:Ej; [|done]. simpl.
  exists j. split; [done|]. apply Ha. by apply by_name_Some in Ej as [? _].
Qed.
Lemma newNode_agrees z f : inside f → agrees (newNode z true f) f.
Proof.
  assert (∀ segments f, inside f → match node_at (newNode z true f) segments with
    | None => True | Some None => item_at f segments = None
    | Some (Some m) => ∃ j, item_at f segments = Some j ∧ facts_of m = item_facts j ∧ NoDup (nname <$> children m) end) as Hall;
    [|intros Hf segments; by apply Hall].
  induction segments as [|s segments IH]; intros g Hg.
  - simpl. exists g. split; [done|]. rewrite newNode_unfold. split; [done|]. unfold children. simpl. rewrite andb_true_r.
    destruct (IsFolder g); [|constructor]. rewrite puts_distinct; simpl; rewrite <-list_fmap_compose, (list_fmap_ext _ iName);
      try (by apply names_distinct); intros; apply nname_newNode.
  - simpl. rewrite newNode_unfold. simpl. rewrite andb_true_r. destruct (IsFolder g); [|done].
    rewrite puts_distinct by (simpl; rewrite <-list_fmap_compose, (list_fmap_ext _ iName); [by apply names_distinct|intros; apply nname_newNode]).
    simpl. change (child s ?k) with (by_name nname s k). rewrite (by_name_fmap nname _ iName) by (intros; apply nname_newNode).
    change (List.find _ (default [] (Contents g))) with (child_item s g). destruct (child_item s g) as [j|] eqn:Ej; [|done]. simpl.
    apply IH. apply (inside_at g [s]); [done|]. simpl. by rewrite Ej.
Qed.
(** A node that was just named by a listing, with or without the listing it
    had before. *)
Lemma agrees_named z c : inside c → agrees (newNode z false (strip c)) c.
Proof.
  intros Hc. rewrite newNode_unfold. destruct c as [x d f g y m l]. unfold strip, with_contents. simpl. rewrite andb_false_r.
  apply agrees_iff. split; [done|]. split; [constructor|done].
Qed.
Lemma agrees_with_listing n it old : agrees n it → agrees old it → agrees (with_listing (listing old) n) it.
Proof.
  rewrite !agrees_iff. destruct n as [x d i z m l], old as [x' d' i' z' m' l']. simpl.
  intros (Hf & _ & _) (_ & Hn & Hl). split; [done|]. split; [done|exact Hl].
Qed.
Lemma relisted_agrees z n f : inside f → agrees n f →
  agrees (setChildren (default [] (Contents (shallow f))) z false (children n) n) f.
Proof.
  intros Hf Hn. unfold setChildren. set (mk := λ x, keep_listing (children n) (newNode z false (strip x))).
  assert (foldl (λ m it, put m (keep_listing (children n) (newNode z false it))) [] (default [] (Contents (shallow f))) =
    foldl put [] (mk <$> default [] (Contents f))) as ->.
  { assert (default [] (Contents (shallow f)) = strip <$> default [] (Contents f)) as ->.
    { destruct f as [? ? ? ? ? ? [l|]]; done. }
    generalize (@nil node). induction (default [] (Contents f)) as [|x l IH]; intros acc; simpl; [done|]. apply IH. }
  assert (∀ x, nname (newNode z false (strip x)) = iName x) as Hname by (intros x; rewrite nname_newNode; by destruct x).
  assert (∀ l k, nname (with_listing l k) = nname k) as Hwl by (by intros l []).
  destruct (children_of_contents mk f Hf) as [Hd Hc].
  - intros x. unfold mk, keep_listing. repeat case_match; by rewrite ?Hwl, Hname.
  - intros x Hx. pose proof (agrees_named z x (inside_child f x Hf Hx)) as Hx'. unfold mk, keep_listing. rewrite Hname.
    destruct (child (iName x) (children n)) as [old|] eqn:Hold; [|done]. destruct (_ && _); [|done]. apply agrees_with_listing; [done|].
    apply agrees_iff in Hn as (_ & _ & Hl). unfold children in Hold. destruct (listing n) as [[z' l]|]; [|done].
    pose proof (Hl z' l eq_refl (iName x)) as Hx2. rewrite Hold in Hx2. destruct Hx2 as (j & Hj & Ha).
    pose proof (by_name_in iName _ x (names_distinct f Hf) Hx) as Hb. change (by_name iName (iName x) _) with (child_item (iName x) f) in Hb.
    rewrite Hj in Hb. by injection Hb as ->.
  - apply agrees_iff in Hn as (Hfacts & _ & _). apply agrees_iff. destruct n as [x d i y m l]. unfold children. simpl.
    split; [done|]. split; [done|]. by intros z' l' [= <- <-].
Qed.
Lemma replaced_agrees n f c s j : agrees n f → nname c = s → child_item s f = Some j → agrees c j → agrees (replace_child c n) f.
Proof.
  rewrite (agrees_iff n f). intros (Hfacts & Hd & Hl) Hs Hj Hc. unfold replace_child. destruct (listing n) as [[z l]|] eqn:El.
  2: { apply agrees_iff. by rewrite El. }
  assert (∀ k, nname (if decide (nname k = nname c) then c else k) = nname k) as Hname by (intros k; by case_decide).
  apply agrees_iff. destruct n as [x d i y m l0]. simpl in *. subst l0. unfold children in *. simpl in *.
  split; [done|]. split.
  - rewrite <-list_fmap_compose, (list_fmap_ext _ nname); [done|]. intros; apply Hname.
  - intros z' l' [= <- <-] s'. specialize (Hl z l eq_refl s'). change (child s' ?k) with (by_name nname s' k) in *.
    rewrite (by_name_fmap nname _ nname) by done. change (List.find _ l) with (by_name nname s' l).
    destruct (by_name nname s' l) as [k|] eqn:Ek; [|done]. simpl. apply by_name_Some in Ek as [_ Ek]. case_decide as E; [|done].
    assert (s' = s) as -> by congruence. by exists j.
Qed.

(** ** A server of the account *)
Context (c : Client) (content : Z → bytes).
(** An answer of the API that reports success, and its body. *)
Definition succeeds (k : nat) (q : Request) (body : bytes) : Prop :=
  ∃ res m, answer k q = Answered res ∧ StatusCode res = 200%Z ∧ read_limited res = Some body ∧ decode_envelope body = Some (Some 0%Z, m).
(** It answers as it likes with errors, but for saying that something is not
    there; what it lists is the account, and what a link to a file gives is
    the file or a part of it. *)
Record serves : Prop := {
  serve_kind k q res body r m : answer k q = Answered res → read_limited res = Some body →
    decode_envelope body = Some (Some r, m) → notFound r = false;
  serve_list k i recursive body it : succeeds k (list_request c i recursive) body → decode_listing body = Some (Some it) →
    ∃ f, inside f ∧ IsFolder f = true ∧ FolderID f = Some i ∧ it = if recursive then f else shallow f;
  serve_link k k' i body h hs p res : succeeds k (link_request c i) body → decode_link body = Some (h :: hs, p) →
    answer k' (mkRequest h p [] []) = Answered res → StatusCode res = 200%Z →
    Body res `prefix_of` content i ∧ (whole res = true → Body res = content i);
}.
Hypothesis served : serves.
Definition same (s s' : FS) : Prop :=
  client s' = client s ∧ root s' = root s ∧ ListingMaxAge s' = ListingMaxAge s ∧ tree s' = tree s.
Lemma same_refl s : same s s.
Proof. by unfold same. Qed.
Lemma same_trans s1 s2 s3 : same s1 s2 → same s2 s3 → same s1 s3.
Proof. unfold same. intros (?&?&?&?) (?&?&?&?). split_and!; congruence. Qed.
Lemma same_client s s' x : same s s' → client s = x → client s' = x.
Proof. intros (-> & _). done. Qed.
#[local] Hint Resolve same_refl : core.
(** A call that leaves the file system as it is, with what it yields and how
    it fails. *)
Definition yields {A : Type} (P : A → Prop) (m : M FS (result Error A)) : Prop :=
  ∀ s, client s = c → wp m (λ r s', same s s' ∧ ∃ r', r = Ok r' ∧ match r' with Ok a => P a | Err e => Unwrap e ≠ ENotExist end) s.
Lemma yields_mono {A} (P P' : A → Prop) m : (∀ a, P a → P' a) → yields P m → yields P' m.
Proof.
  intros HP Hm s Hs. eapply wp_mono; [by apply Hm|]. intros r s' [? (r' & -> & Hr)]. split; [done|]. exists r'. split; [done|].
  destruct r'; auto.
Qed.
Lemma pc_wp_tick (Q : result error nat → FS → Prop) s : (∀ k s', same s s' → Q (Ok k) s') → wp tick Q s.
Proof. intros HQ. by apply HQ. Qed.
Lemma wp_send q (Q : result error outcome → FS → Prop) s : (∀ k s', same s s' → Q (Ok (answer k q)) s') → wp (send q) Q s.
Proof. intros HQ. by apply HQ. Qed.
Lemma yields_callOnce {A} method params (decode : bytes → option A) :
  yields (λ a, ∃ k body, succeeds k (mkRequest (chost c) (str "/" ++ method) params (ctoken c)) body ∧ decode body = Some a)
    (callOnce method params decode).
Proof.
  intros s Hs. unfold callOnce. apply wp_bind, wp_gets, wp_bind. rewrite Hs. apply wp_send. intros k s1 Hs1.
  set (Q := λ r s', _). assert (∀ e, Unwrap e ≠ ENotExist → wp (mret (Err e)) Q s1) as Herr.
  { intros e He. apply wp_ret. split; [done|]. by eexists. }
  destruct (answer _ _) as [res|cancelled] eqn:Ha; [|by apply Herr]. case_decide as Hst; [by apply Herr|].
  destruct (read_limited res) as [body|] eqn:Hb; [|by apply Herr]. destruct (decode_envelope body) as [[[r|] m]|] eqn:He; [|by apply Herr..].
  case_decide as Hr; [|destruct (decode body) as [a|] eqn:Hd; [|by apply Herr]].
  - apply Herr. simpl. by rewrite (serve_kind served _ _ _ _ _ _ Ha Hb He).
  - subst r. apply wp_ret. split; [done|]. eexists. split; [done|]. simpl. exists k, body. split; [|done].
    by exists res, m.
Qed.
Lemma yields_attempts {A} (P : A → Prop) n (once : M FS (result Error A)) : yields P once → yields P (attempts n once).
Proof.
  intros Ho. induction n as [|n IH]; intros s Hs; simpl; (apply wp_bind; eapply wp_mono; [by apply Ho|]); intros r s1 [H1s (r' & -> & Hr)].
  - destruct r' as [a|e]; apply wp_ret; (split; [done|]); by eexists.
  - destruct r' as [a|e]; [apply wp_ret; split; [done|]; by eexists|]. destruct (negb _); [apply wp_ret; split; [done|]; by eexists|].
    unfold sleep. apply wp_bind, wp_bind, pc_wp_tick. intros k s2 H2s. apply wp_ret. assert (same s s2) as Hs2 by (by eapply same_trans).
    destruct (sleeps k); [|apply wp_ret; split; [done|]; by eexists].
    eapply wp_mono; [apply IH; destruct Hs2; congruence|]. intros r s3 [H3s ?]. split; [by eapply same_trans|done].
Qed.
Definition folder_of (i : Z) (f : item) : Prop := inside f ∧ IsFolder f = true ∧ FolderID f = Some i.
Lemma folder_unique i f g : folder_of i f → folder_of i g → f = g.
Proof. intros (? & ? & ?) (? & ? & ?). apply (ok_ids ok); [done..|congruence]. Qed.
Lemma yields_listFolder i (recursive : bool) :
  yields (λ it, ∃ f, folder_of i f ∧ it = if recursive then f else shallow f) (listFolder i recursive).
Proof.
  intros s Hs. unfold listFolder, call. apply wp_bind. pose proof (yields_attempts _ (maxAttempts - 1) _ (yields_callOnce (str "listfolder")
    ((str "folderid", Itoa i) :: (if recursive then [(str "recursive", str "1")] else [])) decode_listing) s Hs) as Hcall.
  eapply wp_mono; [exact Hcall|].
  intros r s1 [H1s (r' & -> & Hr)]. apply wp_ret. split; [done|]. eexists. split; [done|]. destruct r' as [[m|]|e]; [|done|done].
  destruct Hr as (k & body & Hsucc & Hd). destruct (IsFolder m) eqn:Hm; [|done].
  destruct (serve_list served k i recursive body m Hsucc Hd) as (f & ? & ? & ? & ->). exists f. by unfold folder_of.
Qed.
Lemma shallow_contents f l : Contents f = Some l → Contents (shallow f) = Some (strip <$> l) ∧ with_contents (Some l) (shallow f) = f.
Proof. destruct f as [? ? ? ? ? ? o]. simpl. by intros ->. Qed.
Lemma height_child f x : x ∈ default [] (Contents f) → height x < height f.
Proof.
  destruct f as [? ? ? ? ? ? [l|]]; simpl; [|set_solver]. induction l as [|y l IH]; [set_solver|].
  intros [->|Hx]%elem_of_cons; [lia|]. specialize (IH Hx). lia.
Qed.
(** Listing folder by folder gives what listing all at once gives. *)
Definition whole_folder (fuel : nat) (i : Z) (m : M FS (result Error item)) : Prop :=
  ∀ s, client s = c → wp m (λ r s', same s s' ∧ match r with
    | Ok (Ok it) => folder_of i it
    | Ok (Err e) => Unwrap e ≠ ENotExist
    | Err e => e = OutOfFuel ∧ ∀ f, folder_of i f → fuel ≤ height f
    end) s.
Lemma list_children_whole fuel sub f l : inside f → (∀ i, whole_folder fuel i (sub i)) →
  (∀ x, x ∈ l → x ∈ default [] (Contents f)) → ∀ s, client s = c →
  wp (list_children sub (strip <$> l)) (λ r s', same s s' ∧ match r with
    | Ok (Ok l') => l' = l
    | Ok (Err e) => Unwrap e ≠ ENotExist
    | Err e => e = OutOfFuel ∧ fuel < height f
    end) s.
Proof.
  intros Hf Hsub. induction l as [|x l IH]; intros Hl s Hs; simpl; [by apply wp_ret|].
  assert (x ∈ default [] (Contents f)) as Hx by (apply Hl; left). pose proof (inside_child f x Hf Hx) as Hin.
  pose proof (height_child f x Hx) as Hh. apply wp_bind.
  assert (wp (match (if IsFolder (strip x) then FolderID (strip x) else None) with
     | None => mret (Ok (strip x))
     | Some fid => subtree ← sub fid; mret (match subtree with Err e => Err e | Ok t => Ok (with_contents (orEmpty (Contents t)) (strip x)) end)
     end) (λ r s', same s s' ∧ match r with
       | Ok (Ok x') => x' = x | Ok (Err e) => Unwrap e ≠ ENotExist | Err e => e = OutOfFuel ∧ fuel < height f end) s) as Hfill.
  { assert (IsFolder (strip x) = IsFolder x ∧ FolderID (strip x) = FolderID x) as [-> ->] by (by destruct x).
    destruct (IsFolder x) eqn:Hd.
    - destruct (ok_folder ok x Hin Hd) as (i & lx & Hi & Hlx & _). rewrite Hi. apply wp_bind.
      eapply wp_mono; [by apply Hsub|]. intros r s1 [H1s Hr].
      assert (folder_of i x) as Hfx by done. destruct r as [[t|e]|e].
      + apply wp_ret. split; [done|]. rewrite (folder_unique i t x) by done. rewrite Hlx. destruct x. simpl in *. by subst.
      + by apply wp_ret.
      + split; [done|]. destruct Hr as [-> Hr]. specialize (Hr x Hfx). split; [done|lia].
    - apply wp_ret. split; [done|]. pose proof (ok_file ok x Hin Hd) as Hn. destruct x. simpl in *. by subst. }
  eapply wp_mono; [exact Hfill|]. intros [[x'|e]|e] s1 [H1s Hr]; [|by apply wp_ret|done]. subst x'.
  apply wp_bind. eapply wp_mono; [apply IH; [intros y Hy; apply Hl; by right|destruct H1s; congruence]|].
  intros [[l'|e]|e] s2 [H2s Hr]; [apply wp_ret|by apply wp_ret; split; [by eapply same_trans|]|by split; [by eapply same_trans|]].
  subst l'. split; [by eapply same_trans|done].
Qed.
Lemma wp_listFolderRecursive fuel : ∀ i, whole_folder fuel i (listFolderRecursive fuel i).
Proof.
  induction fuel as [|fuel IH]; intros i s Hs; simpl.
  { apply wp_throw. split; [done|]. split; [done|lia]. }
  apply wp_bind. eapply wp_mono; [by apply (yields_listFolder i true)|]. intros r s1 [H1s (r' & -> & Hr)].
  destruct r' as [t|e]; [destruct Hr as (f & Hf & ->); by apply wp_ret|]. destruct e as [result status|b|]; [|by apply wp_ret..].
  case_decide; [by apply wp_ret|]. apply wp_bind.
  eapply wp_mono; [apply (yields_listFolder i false); destruct H1s; congruence|]. intros r s2 [H2s (r' & -> & Hr2)].
  assert (same s s2) as Hs2 by (by eapply same_trans). destruct r' as [t|e]; [|by apply wp_ret].
  destruct Hr2 as (f & (Hin & Hd & Hi) & ->). destruct (ok_folder ok f Hin Hd) as (i' & l & Hi' & Hl & _).
  destruct (shallow_contents f l Hl) as [-> Hback]. apply wp_bind.
  eapply wp_mono; [apply (list_children_whole fuel _ f l Hin IH)|].
  - intros x Hx. by rewrite Hl.
  - destruct Hs2; congruence.
  - intros r s3 [H3s Hr3]. assert (same s s3) as Hs3 by (by eapply same_trans). destruct r as [[l'|e]|e].
    + subst l'. apply wp_ret. rewrite Hback. by unfold folder_of.
    + by apply wp_ret.
    + split; [done|]. destruct Hr3 as [-> Hh]. split; [done|]. intros g Hg. rewrite (folder_unique i g f) by done. lia.
Qed.

(** ** The folder of the shelf *)
Context (rootPath : bytes) (R : item).
Definition not_empty (s : bytes) : bool := negb (bool_decide (s = [])).
Hypothesis R_at : item_at acct (List.filter not_empty (Split rootPath "/"%char)) = Some R.
Hypothesis R_folder : IsFolder R = true.
Lemma find_child s l g : by_name iName s l = Some g → IsFolder g = true → is_Some (FolderID g) →
  List.find (is_child s) (strip <$> l) = Some (strip g).
Proof.
  intros Hb Hd Hi. unfold by_name in Hb. induction l as [|x l IH]; [done|]. simpl in *.
  assert (is_child s (strip x) = IsFolder x && bool_decide (is_Some (FolderID x)) && bool_decide (iName x = s)) as -> by (by destruct x).
  case_bool_decide as E; [|rewrite andb_false_r; by apply IH]. injection Hb as ->. rewrite Hd. by rewrite bool_decide_true.
Qed.
Lemma yields_resolve segments : ∀ i f, folder_of i f → item_at f (List.filter not_empty segments) = Some R →
  yields (λ i', FolderID R = Some i') (resolve_segments i segments).
Proof.
  induction segments as [|x segments IH]; intros i f Hf HR s Hs; simpl in *.
  { injection HR as ->. apply wp_ret. split; [done|]. eexists. split; [done|]. by destruct Hf as (_ & _ & ->). }
  unfold not_empty in HR at 1. case_bool_decide as Hx; simpl in HR.
  { rewrite decide_True by done. by apply (IH i f). }
  rewrite decide_False by done. apply wp_bind. eapply wp_mono; [by apply (yields_listFolder i false)|].
  intros r s1 [H1s (r' & -> & Hr)]. destruct r' as [t|e]; [|apply wp_ret; split; [done|]; by eexists].
  destruct Hr as (f' & Hf' & ->). rewrite (folder_unique i f' f) by done. clear f' Hf'. pose proof Hf as (Hin & Hd & _).
  destruct (ok_folder ok f Hin Hd) as (j & l & _ & Hl & _). destruct (shallow_contents f l Hl) as [-> _]. simpl.
  unfold child_item in HR. rewrite Hl in HR. simpl in HR. destruct (List.find _ l) as [g|] eqn:Hg; [|done].
  assert (inside g) as Hing by (apply (inside_child f g Hin); rewrite Hl; by apply by_name_Some in Hg as [? _]).
  assert (IsFolder g = true) as Hdg.
  { destruct (IsFolder g) eqn:E; [done|]. destruct (List.filter _ segments) as [|y l']; simpl in HR; [congruence|].
    unfold child_item in HR. by rewrite (ok_file ok g Hing E) in HR. }
  destruct (ok_folder ok g Hing Hdg) as (i' & _ & Hi' & _ & _). rewrite (find_child x l g) by (done || by rewrite Hi').
  assert (FolderID (strip g) = Some i') as -> by (by destruct g).
  eapply wp_mono; [apply (IH i' g); [done|exact HR|destruct H1s; congruence]|].
  intros r s2 [H2s Hr]. split; [by eapply same_trans|done].
Qed.

(** The listings kept are those of the account. *)
Definition current (s : FS) : Prop :=
  client s = c ∧ root s = rootPath ∧ match tree s with None => True | Some n => agrees n R ∧ nname n = str "." end.
Lemma current_same s s' : current s → same s s' → current s'.
Proof. unfold current. intros (Hc & Hr & Ht) (-> & -> & _ & ->). done. Qed.
Lemma R_inside : inside R.
Proof. by eexists. Qed.
Lemma wp_loadLocked fuel s : current s →
  wp (loadLocked fuel) (λ r s', current s' ∧ match r with
    | Ok (Ok n) => tree s' = Some n ∧ agrees n R ∧ nname n = str "."
    | Ok (Err e) => Unwrap e ≠ ENotExist
    | Err e => e = OutOfFuel ∧ fuel ≤ height R
    end) s.
Proof.
  intros Hs. pose proof Hs as (Hc & Hr & Ht). unfold loadLocked. apply wp_bind, wp_gets. destruct (tree s) as [n|] eqn:Et.
  { apply wp_ret. split; [done|]. by destruct Ht. }
  apply wp_bind, wp_gets, wp_bind. rewrite Hr. destruct (ok_root ok) as [Hrd Hri].
  assert (folder_of rootFolderID acct) as Hroot by (split; [by exists []|done]).
  eapply wp_mono; [by apply (yields_resolve _ rootFolderID acct Hroot R_at)|]. intros r s1 [H1s (r' & -> & Hfound)].
  assert (current s1) as Hs1 by (by eapply current_same). destruct r' as [i|e]; [|by apply wp_ret].
  apply wp_bind. eapply wp_mono; [apply wp_listFolderRecursive; apply Hs1|]. intros r s2 [H2s Hall].
  assert (current s2) as Hs2 by (by eapply current_same).
  assert (folder_of i R) as HR by (split; [apply R_inside|done]). destruct r as [[it|e]|e]; [|by apply wp_ret|].
  2: { split; [done|]. destruct Hall as [-> Hh]. split; [done|]. by apply Hh. }
  rewrite (folder_unique i it R) by done. unfold now. apply wp_bind, wp_bind, pc_wp_tick. intros k s3 H3s. apply wp_ret, wp_bind, wp_modify, wp_ret.
  assert (agrees (named (str ".") (newNode (clock k) true R)) R) as Ha.
  { pose proof (newNode_agrees (clock k) R R_inside) as Hn. apply agrees_iff in Hn. apply agrees_iff.
    by destruct (newNode (clock k) true R). }
  assert (nname (named (str ".") (newNode (clock k) true R)) = str ".") as Hn by (by destruct (newNode (clock k) true R)).
  destruct (current_same _ _ Hs2 H3s) as (? & ? & _). split; [|done]. unfold current. done.
Qed.
Lemma yields_relist n f : inside f → IsFolder f = true → agrees n f →
  yields (λ n', agrees n' f ∧ nname n' = nname n ∧ is_Some (listing n')) (relistLocked n).
Proof.
  intros Hf Hd Ha s Hs. unfold relistLocked. destruct (ok_folder ok f Hf Hd) as (i & l & Hi & _ & _).
  assert (id n = i) as ->.
  { apply agrees_iff in Ha as (Hfacts & _ & _). unfold facts_of, item_facts, item_id in Hfacts. rewrite Hd, Hi in Hfacts. by injection Hfacts. }
  apply wp_bind. eapply wp_mono; [by apply (yields_listFolder i false)|]. intros r s1 [H1s (r' & -> & Hr)].
  destruct r' as [t|e]; [|apply wp_ret; split; [done|]; by eexists]. destruct Hr as (g & Hg & ->).
  rewrite (folder_unique i g f) by done. unfold now. apply wp_bind, wp_bind, pc_wp_tick. intros k s2 H2s. apply wp_ret, wp_ret.
  split; [by eapply same_trans|]. eexists. split; [done|]. simpl. change (match listing n with Some (_, l) => l | None => [] end) with (children n).
  split; [by apply relisted_agrees|]. unfold setChildren. destruct n. by split.
Qed.
Lemma wp_stale n (Q : result error bool → FS → Prop) s : (∀ b s', same s s' → Q (Ok b) s') → wp (stale n) Q s.
Proof.
  intros HQ. unfold stale. destruct (listing n) as [[z l]|]; [|by apply wp_ret, HQ]. unfold now.
  apply wp_bind, wp_bind, pc_wp_tick. intros k s1 H1s. by apply wp_ret, wp_bind, wp_gets, wp_ret, HQ.
Qed.

(** What a walk finds, and the node it goes on from. *)
Definition found_by (n : node) (f : item) (segments : list bytes) (res : result error node) (n' : node) : Prop :=
  agrees n' f ∧ nname n' = nname n ∧ match res with
  | Ok m => ∃ j, item_at f segments = Some j ∧ agrees m j ∧ nname m = default (nname n) (last segments)
  | Err e => e ≠ OutOfFuel ∧ (e = ENotExist → item_at f segments = None)
  end.
Lemma pc_Unwrap_defined e : Unwrap e ≠ OutOfFuel.
Proof. destruct e as [r z| |]; simpl; [by destruct (notFound r)|done|done]. Qed.
Lemma last_default {A} (d : A) x l : default d (last (x :: l)) = default x (last l).
Proof. revert d x. induction l as [|y l IH]; intros d x; [done|]. change (last (x :: y :: l)) with (last (y :: l)). by rewrite !IH. Qed.
Lemma wp_walk segments : ∀ n f s, client s = c → inside f → agrees n f →
  wp (walk segments n) (λ r s', same s s' ∧ ∃ res n', r = Ok (res, n') ∧ found_by n f segments res n') s.
Proof.
  induction segments as [|x segments IH]; intros n f s Hs Hf Ha; cbn [walk].
  { apply wp_ret. split; [done|]. eexists _, _. split; [done|]. split; [done|]. split; [done|]. by exists f. }
  set (Q := λ r s', _).
  assert (∀ e n' s', same s s' → agrees n' f → nname n' = nname n → e ≠ OutOfFuel → (e = ENotExist → item_at f (x :: segments) = None) →
    wp (mret (Err e, n')) Q s') as Herr.
  { intros e n' s' Hss Han Hn He Hne. apply wp_ret. split; [done|]. by eexists _, _. }
  assert (isDir n = IsFolder f) as Hdir by (apply agrees_iff in Ha as (Hfacts & _); unfold facts_of, item_facts in Hfacts; by simplify_eq).
  rewrite Hdir. destruct (IsFolder f) eqn:Hd; simpl.
  2: { apply Herr; [done..|]. intros _. simpl. unfold child_item. by rewrite (ok_file ok f Hf Hd). }
  apply wp_bind.
  assert (wp (if bool_decide (is_Some (listing n)) then mret (Ok n) else relistLocked n) (λ r s', same s s' ∧
    ∃ r', r = Ok r' ∧ match r' with Ok n' => agrees n' f ∧ nname n' = nname n ∧ is_Some (listing n') | Err e => Unwrap e ≠ ENotExist end) s) as Hl.
  { case_bool_decide as Hsome; [apply wp_ret; split; [done|]; by eexists|]. by apply (yields_relist n f). }
  eapply wp_mono; [exact Hl|]. clear Hl. intros r s1 [H1s (r' & -> & Hr)].
  destruct r' as [n1|e]; [|apply Herr; [done|done|done|apply pc_Unwrap_defined|done]]. destruct Hr as (Ha1 & Hn1 & Hl1).
  apply wp_bind.
  assert (wp (if bool_decide (is_Some (child x (children n1))) then mret (Ok n1) else
      old ← stale n1; if (old : bool) then relistLocked n1 else mret (Ok n1)) (λ r s', same s s' ∧
    ∃ r', r = Ok r' ∧ match r' with Ok n' => agrees n' f ∧ nname n' = nname n ∧ is_Some (listing n') | Err e => Unwrap e ≠ ENotExist end) s1) as Hl.
  { case_bool_decide as Hsome; [apply wp_ret; split; [done|]; by eexists|]. apply wp_bind, wp_stale. intros b s2 H2s.
    assert (same s s2) by (by eapply same_trans). destruct b; [|apply wp_ret; split; [done|]; by eexists].
    eapply wp_mono; [apply (yields_relist n1 f); [done..|by eapply same_client]|].
    intros r s3 [H3s (r' & -> & Hr)]. split; [by eapply same_trans|]. eexists. split; [done|]. destruct r' as [n2|e]; [|done].
    destruct Hr as (? & ? & ?). split; [done|]. split; [congruence|done]. }
  eapply wp_mono; [exact Hl|]. clear Hl. intros r s2 [H2s (r' & -> & Hr)].
  destruct r' as [n2|e]; [|apply Herr; [done|done|done|apply pc_Unwrap_defined|done]]. destruct Hr as (Ha2 & Hn2 & [[z l] Hl2]).
  pose proof (proj2 (proj2 (proj1 (agrees_iff _ _) Ha2)) z l Hl2 x) as Hx.
  assert (children n2 = l) as -> by (unfold children; by rewrite Hl2). destruct (child x l) as [k|] eqn:Ek.
  2: { apply Herr; [done..|]. intros _. simpl. by rewrite Hx. }
  destruct Hx as (j & Hj & Hk). apply by_name_Some in Ek as [_ Ek]. apply wp_bind.
  eapply wp_mono; [apply (IH k j); [by eapply same_client; [eapply same_trans|]| |done]|].
  { apply (inside_at f [x]); [done|]. simpl. by rewrite Hj. }
  intros r s3 [H3s (res & k' & -> & Hk' & Hname & Hres)]. apply wp_ret. split; [by eapply same_trans|]. eexists _, _. split; [done|].
  split; [apply (replaced_agrees _ _ _ x j); [done|simpl; congruence|done|done]|]. split; [unfold replace_child; rewrite Hl2; by destruct n2|].
  simpl. rewrite Hj. destruct res as [m|e]; [|done]. destruct Hres as (j' & ? & ? & Hm). exists j'. split; [done|]. split; [done|].
  rewrite Hm, Ek. by rewrite last_default.
Qed.
Definition found (fuel : nat) (name : bytes) (s' : FS) (r : result error node) : Prop :=
  match r with
  | Ok n => (∃ t, tree s' = Some t) ∧ ∃ j, item_at R (segments_of name) = Some j ∧ agrees n j ∧ nname n = default (str ".") (last (segments_of name))
  | Err e => (e = OutOfFuel → fuel ≤ height R) ∧ (e = ENotExist → item_at R (segments_of name) = None)
  end.
Lemma pc_wp_lookup fuel name s : current s → wp (lookup fuel name) (λ r s', current s' ∧ found fuel name s' r) s.
Proof.
  intros Hs. unfold lookup. destruct (negb _); [by apply wp_throw|]. apply wp_bind. eapply wp_mono; [by apply wp_loadLocked|].
  intros r s1 [Hs1 Hr]. destruct r as [[n|e]|e]; [| |split; [done|]; destruct Hr as [-> ?]; by split].
  2: { apply wp_throw. split; [done|]. split; [by intros ?%pc_Unwrap_defined|by intros ?%Hr]. }
  destruct Hr as (Ht & Ha & Hn). unfold found, segments_of. case_decide as Hdot.
  { apply wp_ret. split; [done|]. split; [by eexists|]. by exists R. }
  apply wp_bind. eapply wp_mono; [apply (wp_walk _ n R); [apply Hs1|apply R_inside|done]|].
  intros r s2 [H2s (res & n' & -> & Ha' & Hname & Hres)]. apply wp_bind, wp_modify, wp_of_result.
  destruct (current_same _ _ Hs1 H2s) as (Hc & Hroot & _). split; [split; [done|]; split; [done|]; simpl; split; [done|by rewrite Hname]|].
  destruct res as [m|e]; simpl.
  - split; [by eexists|]. by rewrite Hn in Hres.
  - by destruct Hres as [? ?].
Qed.

(** ** What the operations show *)
Definition shown : Type := bytes * (bool * Z * option Z).
Definition shown_node (n : node) : shown := (nname n, (isDir n, size n, modified n)).
Definition shown_item (x : item) : shown := (iName x, (IsFolder x, Size x, parse_time (Modified x))).
Definition info_shown (p : shown) : fileInfo := mkInfo (DavClient.Base p.1) p.2.1.1 p.2.1.2 p.2.2.
Definition shown_le (p q : shown) : Prop := str_le p.1 q.1.
#[local] Instance shown_le_dec p q : Decision (shown_le p q).
Proof. unfold shown_le, str_le. apply _. Defined.
(** The entries of a folder of the account, by name. *)
Definition entries_of (f : item) : list fileInfo := info_shown <$> merge_sort shown_le (shown_item <$> default [] (Contents f)).
Lemma agrees_shown n f : agrees n f → isDir n = IsFolder f ∧ size n = Size f ∧ modified n = parse_time (Modified f).
Proof. intros (Hf & _)%agrees_iff. unfold facts_of, item_facts in Hf. by simplify_eq. Qed.
Lemma children_shown f z n l : inside f → agrees n f → listing n = Some (z, l) →
  NoDup (nname <$> l) ∧ shown_node <$> l ≡ₚ shown_item <$> default [] (Contents f).
Proof.
  intros Hf (Hfacts & Hd & Hl)%agrees_iff El. specialize (Hl z l El). unfold children in Hd. rewrite El in Hd. split; [done|].
  pose proof (names_distinct f Hf) as Hn.
  assert (NoDup (shown_node <$> l)) as Hd1 by (apply (NoDup_fmap_1 fst); by rewrite <-list_fmap_compose).
  assert (NoDup (shown_item <$> default [] (Contents f))) as Hd2 by (apply (NoDup_fmap_1 fst); by rewrite <-list_fmap_compose).
  assert (∀ m j, agrees m j → nname m = iName j → shown_node m = shown_item j) as Hsame.
  { intros m j (E1 & E2 & E3)%agrees_shown En. unfold shown_node, shown_item. congruence. }
  apply NoDup_Permutation; [done..|]. intros p. rewrite !list_elem_of_fmap. split.
  - intros (m & -> & Hm). pose proof (by_name_in nname l m Hd Hm) as Hb. specialize (Hl (nname m)).
    change (child (nname m) l) with (by_name nname (nname m) l) in Hl. rewrite Hb in Hl. destruct Hl as (j & Hj & Ha).
    apply by_name_Some in Hj as [Hin Hname]. exists j. split; [by apply Hsame|done].
  - intros (x & -> & Hx). pose proof (by_name_in iName _ x Hn Hx) as Hb. change (by_name iName _ _) with (child_item (iName x) f) in Hb.
    specialize (Hl (iName x)). destruct (child (iName x) l) as [m|] eqn:Em; [|congruence]. destruct Hl as (j & Hj & Ha).
    apply by_name_Some in Em as [Hin Hname]. rewrite Hb in Hj. injection Hj as <-. exists m. split; [|done]. symmetry. by apply Hsame.
Qed.
Lemma dirEntries_agree n f z l : inside f → agrees n f → listing n = Some (z, l) → dirEntries n = entries_of f.
Proof.
  intros Hf Ha Hl. destruct (children_shown f z n l Hf Ha Hl) as [Hd Hp]. unfold dirEntries, entries_of.
  assert (children n = l) as -> by (unfold children; by rewrite Hl).
  assert (info_of <$> merge_sort node_le l = info_shown <$> (shown_node <$> merge_sort node_le l)) as -> by (by rewrite <-list_fmap_compose).
  f_equal. apply (key_sorted_unique fst).
  - pose proof (sorted_by_key nname node_le (λ a b, iff_refl _) l Hd) as Hs. induction Hs as [|a k Hs IH Ha']; constructor; [done|].
    apply Forall_fmap. eapply Forall_impl; [exact Ha'|]. done.
  - apply sorted_by_key; [intros; apply iff_refl|]. rewrite <-Hp. by rewrite <-list_fmap_compose.
  - by rewrite !merge_sort_Permutation.
Qed.
Lemma store_agrees segments : ∀ t f m j, inside f → agrees t f → item_at f segments = Some j → agrees m j →
  (nname m = default (nname t) (last segments)) → agrees (store segments m t) f ∧ nname (store segments m t) = nname t.
Proof.
  induction segments as [|x segments IH]; intros t f m j Hf Ht Hj Hm Hname; simpl in *; [injection Hj as <-; done|].
  destruct (child x (children t)) as [k|] eqn:Ek; [|done]. unfold children in Ek. destruct (listing t) as [[z l]|] eqn:El; [|done].
  pose proof (proj2 (proj2 (proj1 (agrees_iff _ _) Ht)) z l El x) as Hx. rewrite Ek in Hx. destruct Hx as (j' & Hj' & Hk). rewrite Hj' in Hj.
  apply by_name_Some in Ek as [_ Ek]. destruct (IH k j' m j) as [Hs Hn]; [|done|done|done|by rewrite Hname, Ek, last_default|].
  { apply (inside_at f [x]); [done|]. simpl. by rewrite Hj'. }
  split; [apply (replaced_agrees _ _ _ x j'); [done|congruence|done|done]|]. unfold replace_child. rewrite El. by destruct t.
Qed.
(** The node that a listing was taken for goes back where it was found. *)
Definition at_path (name : bytes) (j : item) : Prop := item_at R (segments_of name) = Some j.
Definition info_at (name : bytes) (j : item) : fileInfo :=
  mkInfo (DavClient.Base (default (str ".") (last (segments_of name)))) (IsFolder j) (Size j) (parse_time (Modified j)).
(** How an operation fails: for want of fuel only when folders lie deeper,
    and with [fs.ErrNotExist] only when nothing is there. *)
Definition fails_well (fuel : nat) (name : bytes) (e : error) : Prop :=
  (e = OutOfFuel → fuel ≤ height R) ∧ (e = ENotExist → item_at R (segments_of name) = None).
Lemma fails_unwrap fuel name e : Unwrap e ≠ ENotExist → fails_well fuel name (Unwrap e).
Proof. intros He. split; [by intros ?%pc_Unwrap_defined|done]. Qed.
Lemma pc_wp_Stat fuel name s : current s →
  wp (Stat fuel name) (λ r s', current s' ∧ match r with Ok i => ∃ j, at_path name j ∧ i = info_at name j | Err e => fails_well fuel name e end) s.
Proof.
  intros Hs. apply wp_bind. eapply wp_mono; [by apply pc_wp_lookup|]. intros [n|e] s1 [Hs1 Hr]; [|done].
  destruct Hr as (_ & j & Hj & Ha & Hn). apply wp_ret. split; [done|]. exists j. split; [done|].
  apply agrees_shown in Ha as (E1 & E2 & E3). unfold info_of, info_at. by rewrite E1, E2, E3, Hn.
Qed.
Lemma pc_wp_ReadDir fuel name s : current s →
  wp (ReadDir fuel name) (λ r s', current s' ∧ match r with
    | Ok l => ∃ j, at_path name j ∧ IsFolder j = true ∧ l = entries_of j
    | Err e => fails_well fuel name e
    end) s.
Proof.
  intros Hs. apply wp_bind. eapply wp_mono; [by apply pc_wp_lookup|]. intros [n|e] s1 [Hs1 Hr]; [|done].
  destruct Hr as ([t Ht] & j & Hj & Ha & Hn). assert (inside j) as Hinj by (eapply inside_at; [apply R_inside|exact Hj]).
  pose proof (agrees_shown n j Ha) as (Hd & _ & _). destruct (isDir n) eqn:Ed; simpl; [|by apply wp_throw].
  set (Q := λ r s', _).
  assert (∀ s', same s1 s' → wp (listed ← relistLocked n; match listed with
      | Err e => throw (Unwrap e)
      | Ok n => t ← gets tree; modify (set_tree (store (segments_of name) n (default n t)));; mret (dirEntries n)
      end) Q s') as Hrelist.
  { intros s' Hss. apply wp_bind. eapply wp_mono; [apply (yields_relist n j); [done|by rewrite <-Hd|done|by eapply same_client; [|apply Hs1]]|].
    intros r s2 [H2s (r' & -> & Hr)]. assert (same s1 s2) as Hss2 by (by eapply same_trans). destruct r' as [n'|e].
    2: { apply wp_throw. split; [by eapply current_same|]. by apply fails_unwrap. }
    destruct Hr as (Ha' & Hn' & [[z l] Hl]). apply wp_bind, wp_gets. destruct (current_same _ _ Hs1 Hss2) as (Hc & Hroot & Htree).
    assert (tree s2 = Some t) as Et by (destruct Hss2 as (_ & _ & _ & ->); done). rewrite Et in *. simpl. destruct Htree as [Hat Hnt].
    apply wp_bind, wp_modify, wp_ret.
    destruct (store_agrees (segments_of name) t R n' j R_inside Hat Hj Ha') as [Hst Hsn]; [by rewrite Hnt, Hn'|].
    split; [split; [done|]; split; [done|]; simpl; by rewrite Hsn|]. exists j. split; [done|]. split; [by rewrite <-Hd|]. by eapply dirEntries_agree. }
  apply wp_bind. destruct (listing n) as [[z l]|] eqn:El; [|unfold stale; rewrite El; by apply wp_ret, Hrelist].
  apply wp_stale. intros b s2 H2s. destruct b; [by apply Hrelist|]. apply wp_ret. split; [by eapply current_same|].
  exists j. split; [done|]. split; [by rewrite <-Hd|]. by eapply dirEntries_agree.
Qed.

(** ** Reading files *)
Definition part_of (i : Z) (b : bytes * bool) : Prop := b.1 `prefix_of` content i ∧ (b.2 = true → b.1 = content i).
Lemma yields_fileLink i : yields (λ l, ∃ k body hs, succeeds k (link_request c i) body ∧ decode_link body = Some (l.1 :: hs, l.2)) (fileLink i).
Proof.
  intros s Hs. unfold fileLink, link. apply wp_bind.
  eapply wp_mono; [by apply (yields_callOnce (str "getfilelink") [(str "fileid", Itoa i)] decode_link)|].
  intros r s1 [H1s (r' & -> & Hr)]. apply wp_ret. split; [done|]. eexists. split; [done|]. destruct r' as [[[|h hs] p]|e]; [done| |done].
  case_decide; [done|]. destruct Hr as (k & body & Hsucc & Hd). by exists k, body, hs.
Qed.
Lemma yields_download i : yields (part_of i) (download (fileLink i)).
Proof.
  apply yields_attempts. intros s Hs. unfold downloadOnce. apply wp_bind. eapply wp_mono; [by apply yields_fileLink|].
  intros r s1 [H1s (r' & -> & Hr)]. set (Q := λ r s', _).
  assert (∀ e s', same s s' → Unwrap e ≠ ENotExist → wp (mret (Err e)) Q s') as Herr.
  { intros e s' Hss He. apply wp_ret. split; [done|]. by eexists. }
  destruct r' as [[h p]|e]; [|by apply Herr]. destruct (negb _); [by apply Herr|]. destruct Hr as (k & body & hs & Hsucc & Hd). simpl in Hd.
  apply wp_bind, wp_send. intros k' s2 H2s. assert (same s s2) as Hs2 by (by eapply same_trans).
  destruct (answer k' _) as [res|b] eqn:Ha; [|by apply Herr]. case_decide as Hst; [by apply Herr|].
  apply wp_ret. split; [done|]. eexists. split; [done|]. by apply (serve_link served k k' i body h hs p).
Qed.
Lemma pc_wp_Open fuel name s : current s →
  wp (Open fuel name) (λ r s', current s' ∧ match r with
    | Ok (OpenFile i body w) => ∃ j, at_path name j ∧ IsFolder j = false ∧ i = info_at name j ∧ part_of (item_id j) (body, w)
    | Ok (OpenDir i _) => ∃ j, at_path name j ∧ IsFolder j = true ∧ i = info_at name j
    | Err e => fails_well fuel name e
    end) s.
Proof.
  intros Hs. apply wp_bind. eapply wp_mono; [by apply pc_wp_lookup|]. intros [n|e] s1 [Hs1 Hr]; [|done].
  destruct Hr as (_ & j & Hj & Ha & Hn). pose proof (agrees_shown n j Ha) as (E1 & E2 & E3).
  assert (info_of n = info_at name j) as Hi by (unfold info_of, info_at; by rewrite E1, E2, E3, Hn).
  assert (id n = item_id j) as Hid by (apply agrees_iff in Ha as (Hf & _); unfold facts_of, item_facts in Hf; by simplify_eq).
  destruct (isDir n) eqn:Ed; [apply wp_ret; split; [done|]; by exists j|]. rewrite Hid. apply wp_bind.
  eapply wp_mono; [apply (yields_download (item_id j)); apply Hs1|]. intros r s2 [H2s (r' & -> & Hr)].
  assert (current s2) as Hs2 by (by eapply current_same). destruct r' as [[body w]|e].
  - apply wp_ret. split; [done|]. by exists j.
  - apply wp_throw. split; [done|]. by apply fails_unwrap.
Qed.

End still.

(** ** A small account *)
Module example.
Definition the_file : item := mkItem (str "x.txt") false None (Some 3%Z) 5 (str "t") None.
Definition the_book : item := mkItem (str "a.book") true (Some 2%Z) None 0 [] (Some [the_file]).
Definition the_shelf : item := mkItem (str "shelf") true (Some 1%Z) None 0 [] (Some [the_book]).
Definition the_account : item := mkItem (str "/") true (Some 0%Z) None 0 [] (Some [the_shelf]).
(** The server refuses to list all at once, so it is listed folder by
    folder. *)
Definition folders : list (bytes * (bytes * item)) :=
  [(str "0", (str "L0", the_account)); (str "1", (str "L1", the_shelf)); (str "2", (str "L2", the_book))].
Definition fails : outcome := Answered (mkResponse 500 [] true).
Definition gives (body : bytes) : outcome := Answered (mkResponse 200 body true).
Definition the_answer (q : Request) : outcome :=
  if decide (Path q = str "/listfolder") then
    match Params q with
    | [(_, i)] => match List.find (λ f, bool_decide (f.1 = i)) folders with Some f => gives f.2.1 | None => fails end
    | _ => gives (str "E")
    end
  else if decide (Path q = str "/getfilelink") then
    match Params q with [(_, i)] => if decide (i = str "3") then gives (str "F") else fails | _ => fails end
  else if decide (Host q = str "h") then gives (str "hello") else fails.
#[local] Instance server : PcloudServer := { answer _ q := the_answer q; sleeps _ := true; clock k := Z.of_nat k }.
#[local] Instance text : PcloudText := {
  decode_envelope b := Some (Some (if decide (b = str "E") then 1101 else 0)%Z, []);
  decode_listing b := match List.find (λ f, bool_decide (f.2.1 = b)) folders with Some f => Some (Some (shallow f.2.2)) | None => None end;
  decode_link b := if decide (b = str "F") then Some ([str "h"], str "/p") else None;
  parse_time _ := None;
  url_valid _ _ := true;
}.
Definition the_client : Client := mkClient HostUS (str "secret").
Definition the_fs : FS := NewFS the_client (str "shelf").
Example lists_the_shelf : (ReadDir 3 (str "a.book") the_fs).1 = Ok [mkInfo (str "x.txt") false 5 None].
Proof. vm_compute. reflexivity. Qed.
Example reads_the_file : (Open 3 (str "a.book/x.txt") the_fs).1 = Ok (OpenFile (mkInfo (str "x.txt") false 5 None) (str "hello") true).
Proof. vm_compute. reflexivity. Qed.

Lemma item_at_cases segments f : item_at the_account segments = Some f →
  f = the_account ∨ f = the_shelf ∨ f = the_book ∨ f = the_file.
Proof.
  destruct segments as [|s1 l]; [intros [= <-]; auto|]. cbn [item_at]. unfold child_item. simpl. case_bool_decide; [|done].
  destruct l as [|s2 l]; [intros [= <-]; auto|]. cbn [item_at]. unfold child_item. simpl. case_bool_decide; [|done].
  destruct l as [|s3 l]; [intros [= <-]; auto|]. cbn [item_at]. unfold child_item. simpl. case_bool_decide; [|done].
  destruct l as [|s4 l]; [intros [= <-]; auto|]. done.
Qed.
Lemma the_account_ok : account_ok the_account.
Proof.
  assert (∀ s : bytes, NoDup [s]) as Hone by (intros s; apply NoDup_singleton).
  split.
  - intros f [l Hl%item_at_cases] Hd. destruct Hl as [->|[->|[->| ->]]]; [..|done]; eexists _, _; (split; [done|]); (split; [done|]); apply Hone.
  - intros f [l Hl%item_at_cases] Hd. destruct Hl as [->|[->|[->| ->]]]; done.
  - intros f g [l Hl%item_at_cases] [k Hk%item_at_cases] Hd Hd' E.
    destruct Hl as [->|[->|[->| ->]]], Hk as [->|[->|[->| ->]]]; done.
  - done.
Qed.
Lemma Itoa_is i c : c ∈ [0; 1; 2; 3]%Z → Itoa i = Itoa c → i = c.
Proof.
  intros Hc E. assert (0 ≤ c)%Z as Hpos by (rewrite !elem_of_cons, elem_of_nil in Hc; lia).
  destruct (Z.ltb_spec i 0) as [Hi|Hi]; [|by apply Itoa_inj]. exfalso. unfold Itoa in E at 1. rewrite (proj2 (Z.ltb_lt i 0) Hi) in E.
  rewrite !elem_of_cons, elem_of_nil in Hc. destruct Hc as [->|[->|[->|[->|[]]]]]; vm_compute in E; discriminate.
Qed.
Definition the_content (i : Z) : bytes := str "hello".
Lemma the_server_serves : serves the_account the_client the_content.
Proof.
  split.
  - intros k q res body r m _ _ E. simpl in E. injection E as <- _. by case_decide.
  - intros k i recursive body it (res & m & Ha & Hok & Hb & He) Hd. simpl in Ha. unfold the_answer in Ha. destruct recursive; simpl in Ha.
    + injection Ha as <-. unfold read_limited in Hb. simpl in Hb. injection Hb as <-. simpl in He. discriminate.
    + assert (∀ c f, c ∈ [0; 1; 2; 3]%Z → Itoa c = Itoa i → FolderID f = Some c → FolderID f = Some i) as Hid.
      { intros x f Hx E ->. f_equal. symmetry. by apply Itoa_is. }
      assert (∀ segments f, item_at the_account segments = Some f → inside the_account f) as Hin by (intros l f Hf; by exists l).
      pose proof (Hin [] the_account eq_refl) as Hin0. pose proof (Hin [str "shelf"] the_shelf eq_refl) as Hin1.
      pose proof (Hin [str "shelf"; str "a.book"] the_book eq_refl) as Hin2.
      case_bool_decide as E0; [|case_bool_decide as E1; [|case_bool_decide as E2; [|by injection Ha as <-]]]; injection Ha as <-;
        unfold read_limited in Hb; simpl in Hb; injection Hb as <-; simpl in Hd; injection Hd as <-.
      * exists the_account. split; [done|]. split; [done|]. split; [|done]. apply (Hid 0%Z); [set_solver|exact E0|done].
      * exists the_shelf. split; [done|]. split; [done|]. split; [|done]. apply (Hid 1%Z); [set_solver|exact E1|done].
      * exists the_book. split; [done|]. split; [done|]. split; [|done]. apply (Hid 2%Z); [set_solver|exact E2|done].
  - intros k k' i body h hs p res _ Hd Ha Hst. simpl in Hd. case_decide; [|done]. injection Hd as <- _ <-. simpl in Ha.
    injection Ha as <-. done.
Qed.
(** A folder that a listing only named is kept without a listing of its own,
    and opened as a directory it shows nothing although [ReadDir] would. *)
Definition named_only : FS := mkFS the_client (str "shelf") 100 (Some (mkNode (str ".") true 1 0 None
  (Some (0%Z, [mkNode (str "a.book") true 2 0 None None])))) [] 0.
Lemma open_shows_unlisted_empty :
  (Open 3 (str "a.book") named_only).1 = Ok (OpenDir (mkInfo (str "a.book") true 0 None) []) ∧
  (ReadDir 3 (str "a.book") named_only).1 = Ok [mkInfo (str "x.txt") false 5 None].
Proof. split; vm_compute; reflexivity. Qed.
End example.
End PCloud.
