(* ===== verification/EpubText.v ===== *)
(** * The text of an EPUB: [src/internal/epub/text.go] and [render.go]

    A document of the book is a tree of HTML nodes, which [html.Parse] makes
    (a parameter where it is called); the text of it is written out block by
    block and its white space put in order, and the chapters are laid out as
    one text. What an image in the text turns into depends on the images kept
    so far, so writing threads a state. The scripts of Unicode are a parameter.

    [extractText_tidy] says what the text of a chapter looks like;
    [Render_reference] that the layout is what it says, whatever the titles
    and texts hold. *)

From S2P Require Import Prelude Utf8 Strings Fs ShelfUtil FolderMeta Similar.

Module EpubText.

(** ** HTML *)
Record Attribute := mkAttribute { Namespace : bytes; Key : bytes; Val : bytes }.
Inductive Node :=
  | Text (data : bytes)
  | Element (tag : bytes) (attrs : list Attribute) (children : list Node)
  | Other (children : list Node).
Definition in_set (l : list string) (s : bytes) : bool := existsb (λ t, bool_decide (to_bytes t = s)) l.
Definition blockTags : list string :=
  ["address"; "article"; "aside"; "blockquote"; "dd"; "div"; "dl"; "dt"; "figcaption"; "figure"; "footer";
   "h1"; "h2"; "h3"; "h4"; "h5"; "h6"; "header"; "hr"; "li"; "main"; "nav"; "ol"; "p"; "pre"; "section"; "table"; "tr"; "ul"]%string.
Definition skipTags : list string := ["head"; "script"; "style"; "title"; "rt"; "rp"]%string.
Definition headingTags : list string := ["h1"; "h2"; "h3"; "h4"; "h5"; "h6"]%string.
Record Options := mkOptions { MarkdownInline : bool; KeepImages : bool }.

(** [func attr]: the first attribute of the name *)
Definition attr (attrs : list Attribute) (key : bytes) : bytes :=
  match List.find (λ a, bool_decide (Key a = key)) attrs with Some a => Val a | None => [] end.
(** [func findElement], [findFirstHeading], [findTOCNav]: the first node, in
    the order of the document, that a test picks *)
Fixpoint find_node (test : bytes → list Attribute → bool) (n : Node) : option Node :=
  let fix go (l : list Node) : option Node :=
    match l with
    | [] => None
    | c :: l => match find_node test c with Some m => Some m | None => go l end
    end in
  match n with
  | Text _ => None
  | Element tag attrs children => if test tag attrs then Some n else go children
  | Other children => go children
  end.
Definition findElement (n : Node) (tag : bytes) : option Node := find_node (λ t _, bool_decide (t = tag)) n.
Definition is_heading (tag : bytes) (attrs : list Attribute) : bool := in_set headingTags tag.
Definition findFirstHeading (n : Node) : option Node := find_node is_heading n.
(** [func textContent] *)
Fixpoint textContent (n : Node) : bytes :=
  let fix go (l : list Node) : bytes := match l with [] => [] | c :: l => textContent c ++ go l end in
  match n with
  | Text data => data
  | Element tag _ children => if in_set skipTags tag then [] else go children
  | Other children => go children
  end.
(** [RemoveChild] of the node [find_node] finds below *)
Fixpoint remove_node (test : bytes → list Attribute → bool) (n : Node) : Node * bool :=
  let fix go (l : list Node) : list Node * bool :=
    match l with
    | [] => ([], false)
    | c :: l =>
        match c with
        | Element tag attrs _ =>
            if test tag attrs then (l, true)
            else let '(c', removed) := remove_node test c in
                 if removed : bool then (c' :: l, true) else let '(l', r) := go l in (c :: l', r)
        | _ => let '(c', removed) := remove_node test c in
               if removed : bool then (c' :: l, true) else let '(l', r) := go l in (c :: l', r)
        end
    end in
  match n with
  | Text _ => (n, false)
  | Element tag attrs children => let '(l, r) := go children in (Element tag attrs l, r)
  | Other children => let '(l, r) := go children in (Other l, r)
  end.

(** ** White space *)
Definition space : bytes := str " ".
Definition nbsp : bytes := Stdlib.Strings.Ascii.ascii_of_nat <$> [194; 160].
Definition newline : Stdlib.Strings.Ascii.ascii := "010"%char.
Definition tab : bytes := ["009"%char].
Definition cr : bytes := ["013"%char].
(** [func collapseInlineSpaces]: the loop over the runes, [pending] telling
    whether a space is owed *)
Definition inline_space (r : bytes) : bool :=
  bool_decide (r ∈ [space; tab; [newline]; cr; ["012"%char]; ["011"%char]]).
Fixpoint collapse_inline (pending : bool) (rs : list bytes) : bytes :=
  match rs with
  | [] => if pending then space else []
  | r :: rs =>
      if inline_space r then collapse_inline true rs
      else (if pending then space else []) ++ Similar.written_rune r ++ collapse_inline false rs
  end.
Definition collapseInlineSpaces (s : bytes) : bytes := collapse_inline false (Utf8.runes s).
(** [func collapseSpaceRuns] *)
Fixpoint collapse_runs (prevSpace : bool) (rs : list bytes) : list bytes :=
  match rs with
  | [] => []
  | r :: rs =>
      if decide (r = space) then (if prevSpace then collapse_runs true rs else r :: collapse_runs true rs)
      else Similar.written_rune r :: collapse_runs false rs
  end.
Definition collapseSpaceRuns (s : bytes) : bytes :=
  if Contains s (str "  ") then concat (collapse_runs false (Utf8.runes s)) else s.
Definition collapseSpaces (s : bytes) : bytes := TrimSpace (collapseSpaceRuns (collapseInlineSpaces s)).
(** [strings.Trim] with a set of runes, on text that is well encoded *)
Fixpoint drop_set (set : list bytes) (rs : list bytes) : list bytes :=
  match rs with
  | [] => []
  | r :: rs' => if decide (r ∈ set) then drop_set set rs' else rs
  end.
Definition trim_set (set : list bytes) (rs : list bytes) : list bytes := reverse (drop_set set (reverse (drop_set set rs))).
Definition Trim (set : list bytes) (s : bytes) : bytes := concat (trim_set set (Utf8.runes s)).
Class Scripts := is_script_letter : Z → bool.
Section cjk.
Context `{Scripts}.
(** [func isCJK] *)
Definition isCJK (r : bytes) : bool :=
  let z := (Utf8.decode_rune r).1 in
  ((0x3000 <=? z) && (z <=? 0x303F))%Z || ((0xFF00 <=? z) && (z <=? 0xFFEF))%Z || is_script_letter z.
(** [func dropCJKJoinSpaces]: [before] is the rune in front *)
Fixpoint drop_joins (before : option bytes) (rs : list bytes) : list bytes :=
  match rs with
  | [] => []
  | r :: rs' =>
      let joins := match before, rs' with Some b, n :: _ => isCJK b && isCJK n | _, _ => false end in
      if bool_decide (r = space) && joins then drop_joins (Some r) rs' else Similar.written_rune r :: drop_joins (Some r) rs'
  end.
Definition dropCJKJoinSpaces (s : bytes) : bytes :=
  if Contains s space then concat (drop_joins None (Utf8.runes s)) else s.
(** [strings.ReplaceAll] of the no-break space, on text that is well encoded *)
Definition replace_nbsp (s : bytes) : bytes := concat ((λ r, if decide (r = nbsp) then space else r) <$> Utf8.runes s).
(** [func normalizeLine] *)
Definition normalizeLine (line : bytes) : bytes :=
  let line := Trim [space; tab; cr; nbsp] line in
  let line := collapseSpaceRuns line in
  let line := dropCJKJoinSpaces line in
  collapseSpaceRuns (replace_nbsp line).
(** [func normalizeText] and [normalizeBlock]: their loops differ in how a
    line is put in order *)
Fixpoint tidy_lines (norm : bytes → bytes) (pendingBlank : bool) (out lines : list bytes) : list bytes :=
  match lines with
  | [] => out
  | line :: lines =>
      let line := norm line in
      if decide (line = []) then tidy_lines norm true out lines else
      let out := if pendingBlank && negb (bool_decide (out = [])) then out ++ [[]] else out in
      tidy_lines norm false (out ++ [line]) lines
  end.
Definition normalizeText (s : bytes) : bytes := Join (tidy_lines normalizeLine false [] (Split s newline)) [newline].

(** ** Writing a document *)
Section write.
Context {St : Type} (resolveImage : option (bytes → St → bytes * St)) (opts : Options).
(** [func sanitizeImageAlt] *)
Definition sanitizeImageAlt (alt : bytes) : bytes :=
  collapseSpaces (concat ((λ c : Stdlib.Strings.Ascii.ascii,
    if decide (c = "["%char ∨ c = "]"%char) then [] else if decide (c = newline ∨ c = "013"%char) then space else [c]) <$> alt)).
(** [func emphasisMarker] *)
Definition emphasisMarker (tag : bytes) : bytes :=
  if negb (MarkdownInline opts) then [] else
  if in_set ["em"; "i"; "cite"]%string tag then str "*" else
  if in_set ["strong"; "b"]%string tag then str "**" else [].
(** [func writeEmphasis], given what is written inside *)
Definition emphasis (marker raw : bytes) : bytes :=
  let trimmed := Trim [space] raw in
  if decide (trimmed = []) then raw else
  (if HasPrefix raw space then space else []) ++ marker ++ trimmed ++ marker ++ (if HasSuffix raw space then space else []).
(** [func writeChildren], [writeNode] *)
Definition writeChildren (write : Node → St → bytes * St) : list Node → St → bytes * St :=
  fix go l st :=
    match l with
    | [] => ([], st)
    | c :: l => let '(a, st) := write c st in let '(b, st) := go l st in (a ++ b, st)
    end.
Fixpoint writeNode (n : Node) (st : St) : bytes * St :=
  match n with
  | Text data => (collapseInlineSpaces data, st)
  | Other children => writeChildren writeNode children st
  | Element tag attrs children =>
      if in_set skipTags tag then ([], st) else
      if decide (tag = str "br") then ([newline], st) else
      if decide (tag = str "img") then
        match resolveImage with
        | None => ([], st)
        | Some resolve =>
            let '(target, st) := resolve (attr attrs (str "src")) st in
            if decide (target = []) then ([], st) else
            (newline :: str "![" ++ sanitizeImageAlt (attr attrs (str "alt")) ++ str "](" ++ target ++ str ")" ++ [newline], st)
        end
      else if decide (tag = str "image" ∨ tag = str "svg") then ([], st) else
      let '(inner, st) := writeChildren writeNode children st in
      let inner := match emphasisMarker tag with [] => inner | marker => emphasis marker inner end in
      (if in_set blockTags tag then newline :: inner ++ [newline] else inner, st)
  end.
Definition extractText (root : Node) (st : St) : bytes * St :=
  let '(b, st) := writeNode root st in (normalizeText b, st).
End write.

(** [func takeFirstHeading], [collectImageHrefs], [documentToChapter]; the
    parsed document, or nothing when it cannot be parsed *)
Definition takeFirstHeading (root : Node) : bytes * Node :=
  match findFirstHeading root with
  | None => ([], root)
  | Some heading =>
      let title := collapseSpaces (textContent heading) in
      (title, if decide (title = []) then root else (remove_node is_heading root).1)
  end.
Fixpoint collectImageHrefs (n : Node) : list bytes :=
  let fix go (l : list Node) : list bytes := match l with [] => [] | c :: l => collectImageHrefs c ++ go l end in
  match n with
  | Text _ => []
  | Other children => go children
  | Element tag attrs children =>
      let href := TrimSpace (if decide (tag = str "img") then attr attrs (str "src")
                             else if decide (tag = str "image") then attr attrs (str "href") else []) in
      (if decide (href = []) then [] else [href]) ++ go children
  end.
Definition documentToChapter {St : Type} (doc : option Node) (opts : Options)
    (resolveImage : option (bytes → St → bytes * St)) (st : St) : (bytes * bytes * list bytes) * St :=
  match doc with
  | None => (([], [], []), st)
  | Some doc =>
      let root := default doc (findElement doc (str "body")) in
      let hrefs := collectImageHrefs root in
      let '(title, root) := takeFirstHeading root in
      let '(text, st) := extractText resolveImage opts root st in
      ((title, text, hrefs), st)
  end.
End cjk.

(** [func findTOCNav], [parseNavDocument]: the titles by reference, the first
    of a reference counting *)
Section nav.
Context `{UnicodeCase}.
Definition is_toc (tag : bytes) (attrs : list Attribute) : bool :=
  bool_decide (tag = str "nav") && existsb (λ a,
    (bool_decide (Key a = str "epub:type") || (bool_decide (Namespace a = str "epub") && bool_decide (Key a = str "type"))) &&
    existsb (λ v, FolderMeta.EqualFold v (str "toc")) (Fields (Val a))) attrs.
Fixpoint nav_titles (n : Node) : list (bytes * bytes) :=
  let fix go (l : list Node) : list (bytes * bytes) := match l with [] => [] | c :: l => nav_titles c ++ go l end in
  match n with
  | Text _ => []
  | Other children => go children
  | Element tag attrs children =>
      (if decide (tag = str "a") then
         let href := TrimSpace (attr attrs (str "href")) in
         let title := collapseSpaces (textContent n) in
         if decide (href = [] ∨ title = []) then [] else [(href, title)]
       else []) ++ go children
  end.
Definition parseNavDocument (doc : option Node) : gmap bytes bytes :=
  match doc with
  | None => ∅
  | Some doc =>
      match (match find_node is_toc doc with Some n => Some n | None => findElement doc (str "body") end) with
      | None => ∅
      | Some root => foldl (λ m '(href, title), match m !! href with Some _ => m | None => <[href := title]> m end) ∅ (nav_titles root)
      end
  end.
End nav.

(** ** Layout *)
Record Chapter := mkChapter { CTitle : bytes; CText : bytes }.
Definition PresetMarkdown : bytes := str "markdown".
Definition PresetPlain : bytes := str "plain".
Record Strategy := mkStrategy { Preset : bytes; IncludeDescription : bool; SKeepImages : option bool }.
Definition DefaultStrategy : Strategy := mkStrategy PresetMarkdown true None.
Definition Validate (s : Strategy) : option error :=
  if decide (Preset s = PresetMarkdown ∨ Preset s = PresetPlain) then None
  else Some (Msg "unknown epub import preset").
Definition Normalized (s : Strategy) : Strategy :=
  mkStrategy (if decide (Preset s = []) then Preset DefaultStrategy else Preset s) (IncludeDescription s) (Some (default true (SKeepImages s))).
Definition keepImages (s : Strategy) : bool :=
  default true (SKeepImages (Normalized s)) && negb (bool_decide (Preset (Normalized s) = PresetPlain)).
Definition ParseOptions (s : Strategy) : Options := mkOptions (bool_decide (Preset (Normalized s) = PresetMarkdown)) (keepImages s).
Definition Format (s : Strategy) : bytes := if decide (Preset (Normalized s) = PresetPlain) then str "txt" else str "md".
Definition break2 : bytes := [newline; newline].
Definition layout (s : Strategy) : bytes * bytes :=
  let description := if IncludeDescription s then break2 ++ str "{description}" else [] in
  if decide (Preset (Normalized s) = PresetPlain)
  then (str "{book_title}" ++ description, str "{chapter_title}" ++ break2 ++ str "{chapter_content}")
  else (str "# {book_title}" ++ description, str "## {chapter_title}" ++ break2 ++ str "{chapter_content}").
(** [func substitute]; the variables as a list by name *)
Definition var (vars : list (bytes * bytes)) (key : bytes) : option bytes :=
  match List.find (λ v, bool_decide (v.1 = key)) vars with Some v => Some v.2 | None => None end.
Fixpoint cut_brace (s : bytes) : option (bytes * bytes) :=
  match s with
  | [] => None
  | c :: s => if decide (c = "}"%char) then Some ([], s) else match cut_brace s with Some (a, b) => Some (c :: a, b) | None => None end
  end.
Fixpoint substitute_fuel (fuel : nat) (tmpl : bytes) (vars : list (bytes * bytes)) : bytes :=
  match fuel, tmpl with
  | 0, _ | _, [] => tmpl
  | S fuel, c :: rest =>
      if decide (c ≠ "{"%char) then c :: substitute_fuel fuel rest vars else
      match rest with
      | "{"%char :: rest' => "{"%char :: substitute_fuel fuel rest' vars
      | _ =>
          match cut_brace rest with
          | None => tmpl
          | Some (key, after) =>
              (match var vars key with Some value => value | None => "{"%char :: key ++ str "}" end) ++ substitute_fuel fuel after vars
          end
      end
  end.
Definition substitute (tmpl : bytes) (vars : list (bytes * bytes)) : bytes := substitute_fuel (length tmpl) tmpl vars.
(** [func normalizeBlock] *)
Definition TrimRight (set : list bytes) (s : bytes) : bytes := concat (reverse (drop_set set (reverse (Utf8.runes s)))).
Definition normalizeBlock (s : bytes) : bytes :=
  Join (tidy_lines (TrimRight [space; tab; cr]) false [] (Split s newline)) [newline].
(** [func (d *docBuilder) appendBlock] *)
Definition appendBlock (doc block : bytes) : bytes :=
  let block := Trim [[newline]] block in
  if decide (block = []) then doc else (if decide (doc = []) then [] else doc ++ break2) ++ block.
Definition chapter_title (i : nat) (c : Chapter) : bytes :=
  let t := TrimSpace (CTitle c) in if decide (t = []) then str "Part " ++ Itoa (Z.of_nat (S i)) else t.
Fixpoint append_chapters (template : bytes) (count : bytes) (i : nat) (l : list Chapter) (doc : bytes) : bytes :=
  match l with
  | [] => doc
  | c :: l =>
      let block := normalizeBlock (substitute template
        [(str "chapter_title", chapter_title i c); (str "chapter_content", CText c);
         (str "chapter_index", Itoa (Z.of_nat (S i))); (str "chapter_count", count)]) in
      append_chapters template count (S i) l (if decide (block = []) then doc else appendBlock doc block)
  end.
Record BookText := mkBookText { BTitle : bytes; BAuthors : list bytes; BLanguage : bytes; BDescription : bytes; BChapters : list Chapter }.
(** [func Render]: the text and its format *)
Definition Render (book : BookText) (strategy : Strategy) : bytes * bytes :=
  let strategy := Normalized strategy in
  let '(header, chapter) := layout strategy in
  let count := Itoa (Z.of_nat (length (BChapters book))) in
  let doc := appendBlock [] (substitute header
    [(str "book_title", BTitle book); (str "author", Join (BAuthors book) (str ", ")); (str "description", BDescription book);
     (str "language", BLanguage book); (str "chapter_count", count)]) in
  (append_chapters chapter count 0 (BChapters book) doc, Format strategy).

(** ** Runes *)
Definition is_rune (r : bytes) : Prop := Utf8.runes r = [r] ∧ Utf8.valid_rune r = true.
Definition encoded (s : bytes) : Prop := Forall is_rune (Utf8.runes s).
Lemma rune_start r : is_rune r → ∃ c t, r = c :: t ∧ Utf8.RuneStart c = true.
Proof.
  intros [E V]. destruct r as [|c t]; [done|]. exists c, t. split; [done|]. unfold Utf8.RuneStart.
  destruct (Utf8.is_cont (byte_val c)) eqn:C; [exfalso|done]. rewrite Utf8.runes_cons in E. apply (f_equal head) in E. simpl in E.
  assert (Utf8.decode_rune (c :: t) = (Utf8.RuneError, 1)) as D.
  { unfold Utf8.decode_rune. simpl. pose proof (Utf8.first_class_cont (byte_val c)) as F. unfold Utf8.is_cont, Utf8.in_range in C.
    destruct (Z.ltb_spec (byte_val c) 0x80); [lia|]. destruct (Utf8.first_class (byte_val c)) eqn:F'; [|done].
    apply Utf8.first_class_start in F'. unfold Utf8.is_cont, Utf8.in_range in F'. congruence. }
  unfold Utf8.valid_rune in V. unfold Utf8.rune_width in E. rewrite D in V, E. simpl in E. injection E as E. rewrite take_0 in E. subst t. done.
Qed.
Lemma runes_of rs : Forall is_rune rs → Utf8.runes (concat rs) = rs.
Proof.
  induction 1 as [|r rs Hr Hrs IH]; [done|]. simpl. destruct rs as [|r' rs]; [simpl; rewrite app_nil_r; apply Hr|].
  destruct (rune_start r' (Forall_inv Hrs)) as (c & t & -> & Hc). simpl. rewrite Utf8.runes_app_start by done.
  simpl in IH. rewrite IH. by rewrite (proj1 Hr).
Qed.
Lemma encoded_concat rs : Forall is_rune rs → encoded (concat rs).
Proof. intros. unfold encoded. by rewrite runes_of. Qed.
Lemma encoded_app a b : encoded a → encoded b → encoded (a ++ b).
Proof.
  intros Ha Hb. rewrite <-(Utf8.runes_concat a), <-(Utf8.runes_concat b), <-concat_app. apply encoded_concat. by apply Forall_app.
Qed.
Lemma runes_app a b : encoded a → encoded b → Utf8.runes (a ++ b) = Utf8.runes a ++ Utf8.runes b.
Proof.
  intros Ha Hb. rewrite <-(Utf8.runes_concat a) at 1. rewrite <-(Utf8.runes_concat b) at 1. rewrite <-concat_app. apply runes_of. by apply Forall_app.
Qed.
Lemma decode_take s : Utf8.decode_rune (take (Utf8.rune_width s) s) = Utf8.decode_rune s.
Proof.
  unfold Utf8.rune_width, Utf8.decode_rune. destruct s as [|a0 [|a1 [|a2 [|a3 s]]]]; simpl; [done|..];
    repeat (case_match; simplify_eq; simpl in *; try done; try congruence).
Qed.
Lemma is_rune_written s r : r ∈ Utf8.runes s → is_rune (Similar.written_rune r).
Proof.
  intros Hr. unfold Similar.written_rune. destruct (Utf8.valid_rune r) eqn:V; [split; [|done]|by vm_compute].
  clear V. induction s as [|s Hs IH] using Utf8.rune_ind; [by apply elem_of_nil in Hr|].
  destruct s as [|a s]; [done|]. rewrite Utf8.runes_cons in Hr. apply elem_of_cons in Hr as [->|Hr]; [|by apply IH].
  pose proof (Utf8.rune_width_bounds (a :: s) ltac:(done)) as B. set (r := take _ _).
  assert (r ≠ []) as Hne by (unfold r; destruct (Utf8.rune_width (a :: s)); [lia|done]).
  assert (Utf8.rune_width r = length r) as W.
  { unfold Utf8.rune_width at 1. unfold r at 1. rewrite decode_take. fold (Utf8.rune_width (a :: s)). unfold r. rewrite length_take. lia. }
  clearbody r. destruct r as [|c t]; [done|]. rewrite Utf8.runes_cons, W, take_ge, drop_ge by done. done.
Qed.

Lemma written_id r : is_rune r → Similar.written_rune r = r.
Proof. intros [_ V]. unfold Similar.written_rune. by rewrite V. Qed.
Lemma encoded_cons w s : encoded w → encoded s → encoded (w ++ newline :: s) ∧ Utf8.runes (w ++ newline :: s) = Utf8.runes w ++ [newline] :: Utf8.runes s.
Proof.
  intros Hw Hs. assert (encoded (newline :: s)) as E.
  { unfold encoded. rewrite Utf8.runes_cons. constructor; [by vm_compute|done]. }
  split; [by apply encoded_app|]. rewrite runes_app by done. by rewrite Utf8.runes_cons.
Qed.

(** ** White space put in order *)
Definition edge_set : list bytes := [space; tab; cr; nbsp].
Definition white : list bytes := edge_set ++ [[newline]].
(** What of a text is seen *)
Definition ink (s : bytes) : list bytes := filter (λ r, r ∉ white) (Utf8.runes s).
Definition no_double (rs : list bytes) : Prop := ∀ i, rs !! i = Some space → rs !! S i ≠ Some space.
Definition edges (P : bytes → Prop) (rs : list bytes) : Prop := (∀ r, head rs = Some r → P r) ∧ (∀ r, last rs = Some r → P r).
Definition plain_edge (r : bytes) : Prop := r ∉ edge_set.

Lemma collapse_id rs p : Forall is_rune rs → no_double rs → (p = true → head rs ≠ Some space) → collapse_runs p rs = rs.
Proof.
  intros Hr. revert p. induction Hr as [|r rs Hr Hrs IH]; intros p Hd Hp; [done|]. simpl.
  assert (no_double rs) as Hd' by (intros i; apply (Hd (S i))). case_decide as E.
  - subst. destruct p; [by destruct Hp|]. f_equal. apply IH; [done|]. intros _ Hh. apply (Hd 0); [done|]. by destruct rs.
  - rewrite written_id by done. f_equal. by apply IH.
Qed.
Lemma collapse_rune rs p : Forall is_rune rs → Forall is_rune (collapse_runs p rs).
Proof.
  intros Hr. revert p. induction Hr as [|r rs Hr Hrs IH]; intros p; simpl; [done|]. case_decide; [destruct p; [done|by constructor]|].
  constructor; [by rewrite written_id|done].
Qed.
Lemma collapse_no_double rs p : Forall is_rune rs → no_double (collapse_runs p rs) ∧ (p = true → head (collapse_runs p rs) ≠ Some space).
Proof.
  intros Hr. revert p. induction Hr as [|r rs Hr Hrs IH]; intros p; simpl; [by split|]. case_decide as E.
  - subst r. destruct (IH true) as [Hd Hh]. specialize (Hh eq_refl). destruct p; [by split|]. split; [|done]. intros [|i]; [|apply Hd].
    intros _ Hs. apply Hh. by destruct (collapse_runs true rs).
  - rewrite written_id by done. destruct (IH false) as [Hd _]. split; [|intros _ [= ?]; by apply E].
    intros [|i]; [intros [= ?]; by destruct E|apply Hd].
Qed.
Lemma collapse_ink rs p : Forall is_rune rs → filter (λ r, r ∉ white) (collapse_runs p rs) = filter (λ r, r ∉ white) rs.
Proof.
  assert (space ∈ white) as Hs by left. intros Hr. revert p. induction Hr as [|r rs Hr Hrs IH]; intros p; [done|]. cbn [collapse_runs]. case_decide as E.
  - subst. rewrite (filter_cons_False _ space rs) by (intros X; by apply X). destruct p; [done|]. rewrite filter_cons_False by (intros X; by apply X). done.
  - rewrite written_id by done. rewrite !filter_cons. by case_decide; rewrite IH.
Qed.
Lemma collapse_head rs p r : Forall is_rune rs → head rs = Some r → r ≠ space → head (collapse_runs p rs) = Some r.
Proof. intros Hr. destruct rs as [|x rs]; [done|]. intros [= ->] Hn. simpl. rewrite decide_False by done. simpl. by rewrite written_id by apply (Forall_inv Hr). Qed.
Lemma collapse_last rs p r : Forall is_rune rs → last rs = Some r → r ≠ space → last (collapse_runs p rs) = Some r.
Proof.
  intros Hr. revert p. induction Hr as [|x rs Hx Hrs IH]; intros p; [done|]. intros Hl Hn. destruct rs as [|y rs].
  - injection Hl as ->. simpl. rewrite decide_False by done. simpl. by rewrite written_id.
  - change (last (x :: y :: rs)) with (last (y :: rs)) in Hl. specialize (λ p, IH p Hl Hn).
    assert (∀ z p, last (z :: collapse_runs p (y :: rs)) = Some r) as K.
    { intros z q. specialize (IH q). rewrite last_cons, IH. done. }
    remember (y :: rs) as l. simpl. case_decide; [destruct p; [apply IH|apply K]|apply K].
Qed.
Lemma collapse_subset rs p r : Forall is_rune rs → r ∈ collapse_runs p rs → r ∈ rs.
Proof.
  intros Hr. revert p. induction Hr as [|x rs Hx Hrs IH]; intros p; [done|]. cbn [collapse_runs]. case_decide; [destruct p|rewrite written_id by done];
    rewrite ?elem_of_cons; naive_solver.
Qed.
Lemma Contains_mid a p b : Contains (a ++ p ++ b) p = true.
Proof.
  induction a as [|c a IH]; simpl.
  - assert (HasPrefix (p ++ b) p = true) as H by (apply bool_decide_eq_true; by exists b). generalize dependent (p ++ b). intros l H. destruct l; simpl; by rewrite H.
  - by rewrite IH, orb_true_r.
Qed.
Lemma single_spaces s : Contains s (str "  ") = false → no_double (Utf8.runes s).
Proof.
  intros Hc i H1 H2. apply take_drop_middle in H1 as M. apply (f_equal (@concat _)) in M. rewrite Utf8.runes_concat, concat_app in M. simpl in M.
  destruct (drop (S i) (Utf8.runes s)) as [|x l] eqn:D.
  - apply (f_equal length) in D. rewrite length_drop in D. apply lookup_lt_Some in H2. simpl in D. lia.
  - assert (x = space) as ->. { apply (f_equal head) in D. rewrite head_lookup, lookup_drop, Nat.add_0_r, H2 in D. by injection D. }
    rewrite <-M in Hc. simpl in Hc. pose proof (Contains_mid (concat (take i (Utf8.runes s))) (str "  ") (concat l)) as K. exact (eq_true_false_abs _ K Hc).
Qed.
Lemma collapseSpaceRuns_runes s : encoded s → Utf8.runes (collapseSpaceRuns s) = collapse_runs false (Utf8.runes s).
Proof.
  intros Hs. unfold collapseSpaceRuns. destruct (Contains s _) eqn:C; [by rewrite runes_of by by apply collapse_rune|].
  symmetry. apply collapse_id; [done|by apply single_spaces|done].
Qed.

Section lines.
Context `{Scripts}.
Lemma joins_rune rs b : Forall is_rune rs → Forall is_rune (drop_joins b rs).
Proof.
  intros Hr. revert b. induction Hr as [|r rs Hr Hrs IH]; intros b; [done|]. cbn [drop_joins].
  destruct (_ && _); [apply IH|]. rewrite written_id by done. by constructor.
Qed.
Lemma joins_ink rs b : Forall is_rune rs → filter (λ r, r ∉ white) (drop_joins b rs) = filter (λ r, r ∉ white) rs.
Proof.
  intros Hr. revert b. induction Hr as [|r rs Hr Hrs IH]; intros b; [done|]. cbn [drop_joins].
  destruct (bool_decide (r = space)) eqn:E; simpl; [apply bool_decide_eq_true in E; subst r|].
  - rewrite (filter_cons_False _ space rs) by (intros X; apply X; left). destruct (match b with Some _ => _ | None => _ end); [apply IH|].
    rewrite written_id by done. rewrite filter_cons_False by (intros X; apply X; left). apply IH.
  - rewrite written_id by done. rewrite !filter_cons. by case_decide; rewrite IH.
Qed.
Lemma joins_id rs b : Forall is_rune rs → space ∉ rs → drop_joins b rs = rs.
Proof.
  intros Hr. revert b. induction Hr as [|r rs Hr Hrs IH]; intros b; [done|]. rewrite not_elem_of_cons. intros [Hn Hns]. cbn [drop_joins].
  rewrite bool_decide_false by done. simpl. by rewrite written_id, IH.
Qed.
Lemma joins_last rs b : Forall is_rune rs → last (drop_joins b rs) = last rs.
Proof.
  intros Hr. revert b. induction Hr as [|r rs Hr Hrs IH]; intros b; [done|]. destruct rs as [|y rs].
  - simpl. assert ((bool_decide (r = space) && match b with Some _ => false | None => false end) = false) as -> by (destruct b; apply andb_false_r).
    simpl. by rewrite written_id.
  - change (last (r :: y :: rs)) with (last (y :: rs)). remember (y :: rs) as l. cbn [drop_joins]. destruct (_ && _); [apply IH|].
    rewrite last_cons, IH. subst. rewrite last_cons. by destruct (last rs).
Qed.
Lemma joins_head rs : Forall is_rune rs → head (drop_joins None rs) = head rs.
Proof. intros Hr. destruct rs as [|r rs]; [done|]. cbn [drop_joins]. rewrite andb_false_r. simpl. by rewrite written_id by apply (Forall_inv Hr). Qed.
Lemma joins_subset rs b r : Forall is_rune rs → r ∈ drop_joins b rs → r ∈ rs.
Proof.
  intros Hr. revert b. induction Hr as [|x rs Hx Hrs IH]; intros b; [done|]. cbn [drop_joins]. destruct (_ && _); [|rewrite written_id by done];
    rewrite ?elem_of_cons; naive_solver.
Qed.
Lemma dropCJKJoinSpaces_runes s : encoded s → Utf8.runes (dropCJKJoinSpaces s) = drop_joins None (Utf8.runes s).
Proof.
  intros Hs. unfold dropCJKJoinSpaces. destruct (Contains s space) eqn:C; [by rewrite runes_of by by apply joins_rune|].
  symmetry. apply joins_id; [done|]. intros Hin. apply list_elem_of_split in Hin as (a & b & E). apply (f_equal (@concat _)) in E.
  rewrite Utf8.runes_concat, concat_app in E. rewrite E in C. pose proof (Contains_mid (concat a) space (concat b)) as K. exact (eq_true_false_abs _ K C).
Qed.

Definition plain_nbsp (r : bytes) : bytes := if decide (r = nbsp) then space else r.
Lemma nbsp_rune rs : Forall is_rune rs → Forall is_rune (plain_nbsp <$> rs).
Proof. intros Hr. apply Forall_fmap. eapply Forall_impl; [exact Hr|]. intros r Hx. unfold compose, plain_nbsp. case_decide; [by vm_compute|done]. Qed.
Lemma nbsp_ink (rs : list bytes) : filter (λ r, r ∉ white) (plain_nbsp <$> rs) = filter (λ r, r ∉ white) rs.
Proof.
  induction rs as [|r rs IH]; [done|]. rewrite fmap_cons. unfold plain_nbsp at 1. destruct (decide (r = nbsp)) as [->|E].
  - rewrite !filter_cons_False, IH; [done|intros X; apply X..]; by eapply bool_decide_eq_true_1; vm_compute.
  - rewrite !filter_cons. by case_decide; rewrite IH.
Qed.

Lemma drop_set_split set rs : ∃ l, rs = l ++ drop_set set rs ∧ Forall (λ r, r ∈ set) l.
Proof.
  induction rs as [|r rs (l & E & Hl)]; simpl; [by exists []|]. case_decide; [|by exists []].
  exists (r :: l). simpl. rewrite <-E. by constructor; [|constructor].
Qed.
Lemma drop_set_head set rs r : head (drop_set set rs) = Some r → r ∉ set.
Proof. induction rs as [|x rs IH]; simpl; [done|]. case_decide; [done|]. by intros [= <-]. Qed.
Lemma trim_set_split set rs : ∃ a b, rs = a ++ trim_set set rs ++ b ∧ Forall (λ r, r ∈ set) a ∧ Forall (λ r, r ∈ set) b.
Proof.
  unfold trim_set. destruct (drop_set_split set rs) as (a & E & Ha). set (m := drop_set set rs) in *.
  destruct (drop_set_split set (reverse m)) as (b & Eb & Hb). exists a, (reverse b). split; [|by rewrite Forall_reverse].
  rewrite E at 1. f_equal. rewrite <-reverse_app, <-Eb. by rewrite reverse_involutive.
Qed.
Lemma trim_set_edges set rs : edges (λ r, r ∉ set) (trim_set set rs).
Proof.
  split; intros r Hr.
  - unfold trim_set in Hr. set (m := drop_set set rs) in *. destruct (drop_set_split set (reverse m)) as (b & Eb & _). set (t := reverse (drop_set set (reverse m))) in *.
    assert (m = t ++ reverse b) as Em. { unfold t. rewrite <-reverse_app, <-Eb. by rewrite reverse_involutive. }
    apply (drop_set_head set rs). fold m. rewrite Em. destruct t; [done|exact Hr].
  - unfold trim_set in Hr. rewrite last_reverse in Hr. by apply drop_set_head in Hr.
Qed.
Lemma trim_set_rune set rs : Forall is_rune rs → Forall is_rune (trim_set set rs).
Proof. destruct (trim_set_split set rs) as (a & b & E & _). rewrite E at 1. rewrite !Forall_app. tauto. Qed.
Lemma filter_white l : Forall (λ r, r ∈ edge_set) l → filter (λ r, r ∉ white) l = [].
Proof. induction 1 as [|r l Hr _ IH]; [done|]. rewrite filter_cons_False; [done|]. intros X. apply X. apply elem_of_app. by left. Qed.
Lemma trim_set_ink rs : filter (λ r, r ∉ white) (trim_set edge_set rs) = filter (λ r, r ∉ white) rs.
Proof.
  destruct (trim_set_split edge_set rs) as (a & b & E & Ha & Hb). rewrite E at 2. rewrite !filter_app, (filter_white a), (filter_white b), app_nil_r by done. done.
Qed.

(** A line put in order, rune by rune *)
Definition tidy_runes (rs : list bytes) : list bytes :=
  collapse_runs false (plain_nbsp <$> drop_joins None (collapse_runs false (trim_set edge_set rs))).
Lemma normalizeLine_runes s : encoded s → Utf8.runes (normalizeLine s) = tidy_runes (Utf8.runes s) ∧ encoded (normalizeLine s).
Proof.
  intros Hs. assert (Forall is_rune (trim_set edge_set (Utf8.runes s))) as H1 by by apply trim_set_rune.
  assert (Utf8.runes (Trim edge_set s) = trim_set edge_set (Utf8.runes s)) as E1 by by apply runes_of.
  assert (encoded (Trim edge_set s)) as H2 by (unfold encoded; by rewrite E1).
  pose proof (collapseSpaceRuns_runes _ H2) as E2. rewrite E1 in E2.
  assert (encoded (collapseSpaceRuns (Trim edge_set s))) as H3 by (unfold encoded; rewrite E2; by apply collapse_rune).
  pose proof (dropCJKJoinSpaces_runes _ H3) as E3. rewrite E2 in E3.
  set (u := dropCJKJoinSpaces _) in *.
  assert (Forall is_rune (Utf8.runes u)) as H4 by (rewrite E3; by apply joins_rune, collapse_rune).
  assert (Utf8.runes (replace_nbsp u) = plain_nbsp <$> Utf8.runes u) as E4 by (apply runes_of; by apply nbsp_rune).
  assert (encoded (replace_nbsp u)) as H5 by (unfold encoded; rewrite E4; by apply nbsp_rune).
  assert (Utf8.runes (normalizeLine s) = tidy_runes (Utf8.runes s)) as E5.
  { change (normalizeLine s) with (collapseSpaceRuns (replace_nbsp u)). rewrite collapseSpaceRuns_runes by done. by rewrite E4, E3. }
  split; [done|]. unfold encoded. rewrite E5. apply collapse_rune, nbsp_rune, joins_rune, collapse_rune. by apply trim_set_rune.
Qed.
Lemma tidy_runes_ink rs : Forall is_rune rs → filter (λ r, r ∉ white) (tidy_runes rs) = filter (λ r, r ∉ white) rs.
Proof.
  intros Hr. assert (Forall is_rune (trim_set edge_set rs)) as H1 by by apply trim_set_rune. unfold tidy_runes.
  rewrite collapse_ink by by apply nbsp_rune, joins_rune, collapse_rune. rewrite nbsp_ink, joins_ink by by apply collapse_rune.
  rewrite collapse_ink by done. apply trim_set_ink.
Qed.
Lemma edges_keep (P : bytes → Prop) rs rs' : edges P rs → (∀ r, head rs = Some r → P r → head rs' = Some r) →
  (∀ r, last rs = Some r → P r → last rs' = Some r) → (rs = [] → rs' = []) → edges P rs'.
Proof.
  intros [Hh Hl] Kh Kl Kn. destruct (head rs) as [a|] eqn:Ha; [|destruct rs; [rewrite Kn by done; by split|done]].
  destruct (last rs) as [b|] eqn:Hb; [|destruct rs; [done|by rewrite last_cons in Hb; case_match]].
  split; intros r Hr; [rewrite (Kh a) in Hr by auto|rewrite (Kl b) in Hr by auto]; injection Hr as <-; auto.
Qed.
Lemma tidy_runes_shape rs : Forall is_rune rs →
  no_double (tidy_runes rs) ∧ edges plain_edge (tidy_runes rs) ∧ nbsp ∉ tidy_runes rs.
Proof.
  intros Hr. assert (Forall is_rune (trim_set edge_set rs)) as H1 by by apply trim_set_rune. unfold tidy_runes.
  set (t := trim_set edge_set rs) in *. assert (edges plain_edge t) as E1 by apply trim_set_edges.
  assert (∀ r, plain_edge r → r ≠ space) as Ns by (intros r Hn ->; apply Hn; left).
  assert (∀ r, plain_edge r → plain_nbsp r = r) as Nb.
  { intros r Hn. unfold plain_nbsp. rewrite decide_False; [done|]. intros ->. apply Hn. by eapply bool_decide_eq_true_1; vm_compute. }
  assert (Forall is_rune (collapse_runs false t)) as H2 by by apply collapse_rune. set (c := collapse_runs false t) in *.
  assert (edges plain_edge c) as E2.
  { apply (edges_keep _ t); [done|intros r ??; apply collapse_head; auto|intros r ??; apply collapse_last; auto|unfold c; by intros ->]. }
  assert (Forall is_rune (drop_joins None c)) as H3 by by apply joins_rune. set (j := drop_joins None c) in *.
  assert (edges plain_edge j) as E3.
  { apply (edges_keep _ c); [done|intros r Hh _; unfold j; by rewrite joins_head|intros r Hl _; unfold j; by rewrite joins_last|unfold j; by intros ->]. }
  assert (Forall is_rune (plain_nbsp <$> j)) as H4 by by apply nbsp_rune.
  assert (edges plain_edge (plain_nbsp <$> j)) as E4.
  { apply (edges_keep _ j); [done|intros r Hh Hp|intros r Hl Hp|by intros ->].
    - destruct j; [done|]. injection Hh as ->. simpl. by rewrite Nb.
    - rewrite fmap_last, Hl. simpl. by rewrite Nb. }
  split; [by apply collapse_no_double|split].
  - apply (edges_keep _ (plain_nbsp <$> j)); [done|intros r ??; apply collapse_head; auto|intros r ??; apply collapse_last; auto|by intros ->].
  - intros Hin. apply collapse_subset in Hin; [|done]. apply list_elem_of_fmap in Hin as (r & E & _). unfold plain_nbsp in E.
    case_decide as D; [by vm_compute in E|by apply D].
Qed.
Lemma tidy_runes_subset rs r : Forall is_rune rs → r ∈ tidy_runes rs → r = space ∨ r ∈ rs.
Proof.
  intros Hr Hin. assert (Forall is_rune (trim_set edge_set rs)) as H1 by by apply trim_set_rune. unfold tidy_runes in Hin.
  apply collapse_subset in Hin; [|by apply nbsp_rune, joins_rune, collapse_rune]. apply list_elem_of_fmap in Hin as (x & -> & Hin).
  unfold plain_nbsp. case_decide; [by left|right]. apply joins_subset in Hin; [|by apply collapse_rune]. apply collapse_subset in Hin; [|done].
  destruct (trim_set_split edge_set rs) as (a & b & E & _). rewrite E. set_solver.
Qed.

(** ** Lines *)
Record tidy_line (l : bytes) : Prop := {
  line_single_spaces : no_double (Utf8.runes l);
  line_edges : edges plain_edge (Utf8.runes l);
  line_no_nbsp : nbsp ∉ Utf8.runes l;
  line_one : newline ∉ l }.
(** No blank line first, last or after another *)
Definition tidy_blanks (l : list bytes) : Prop :=
  head l ≠ Some [] ∧ last l ≠ Some [] ∧ ∀ i, l !! i = Some [] → l !! S i ≠ Some [].
Lemma newline_free s : encoded s → newline ∉ s → newline ∉ normalizeLine s.
Proof.
  intros Hs Hn Hin. destruct (normalizeLine_runes s Hs) as [E _]. rewrite <-(Utf8.runes_concat (normalizeLine s)), E in Hin.
  apply list_elem_of_In, in_concat in Hin as (r & Hr & Hin). apply list_elem_of_In in Hr, Hin.
  apply tidy_runes_subset in Hr as [->|Hr]; [by apply list_elem_of_singleton in Hin| |done].
  apply Hn. rewrite <-(Utf8.runes_concat s). apply list_elem_of_In, in_concat. exists r. by rewrite <-!list_elem_of_In.
Qed.
Lemma normalizeLine_tidy s : encoded s → newline ∉ s → tidy_line (normalizeLine s).
Proof.
  intros Hs Hn. destruct (normalizeLine_runes s Hs) as [E _]. pose proof (tidy_runes_shape _ Hs) as (A & B & C).
  split; [by rewrite E..|by apply newline_free].
Qed.

Lemma blanks_snoc l w : tidy_blanks l → w ≠ [] → tidy_blanks (l ++ [w]) ∧ (l ≠ [] → tidy_blanks ((l ++ [[]]) ++ [w])).
Proof.
  intros (Hh & Hl & Hi) Hw. split; [|intros Hne]; (split; [|split; [rewrite last_snoc; by intros [= ?]|]]).
  - destruct l; [simpl; by intros [= ?]|done].
  - intros i H1 H2. destruct (decide (S i < length l)).
    + rewrite lookup_app_l in H1, H2 by lia. by apply (Hi i).
    + apply lookup_lt_Some in H2 as L. rewrite length_app in L. simpl in L. rewrite lookup_app_r in H2 by lia.
      assert (S i - length l = 0) as Z by lia. rewrite Z in H2. by injection H2.
  - by destruct l.
  - intros i H1 H2. rewrite <-app_assoc in H1, H2. destruct (decide (S i < length l)).
    + rewrite lookup_app_l in H1, H2 by lia. by apply (Hi i).
    + apply lookup_lt_Some in H2 as L. rewrite length_app in L. simpl in L. rewrite lookup_app_r in H2 by lia.
      destruct (decide (S i = length l)) as [E|E].
      * rewrite lookup_app_l in H1 by lia. apply Hl. rewrite last_lookup, <-E. done.
      * assert (S i - length l = 1) as Z by lia. rewrite Z in H2. by injection H2.
Qed.
Lemma lines_shape (P : bytes → Prop) norm lines : (∀ l, l ∈ lines → P (norm l)) → P [] →
  ∀ p out, tidy_blanks out → Forall P out → tidy_blanks (tidy_lines norm p out lines) ∧ Forall P (tidy_lines norm p out lines).
Proof.
  intros Hn HP. induction lines as [|l lines IH]; intros p out Hb Ho; [done|]. simpl. specialize (IH (λ l Hl, Hn l (list_elem_of_further _ _ _ Hl))).
  case_decide as E; [by apply IH|]. destruct (blanks_snoc out (norm l) Hb E) as [K1 K2]. specialize (Hn l (list_elem_of_here _ _)).
  destruct (p && negb (bool_decide (out = []))) eqn:B.
  - apply andb_prop in B as [_ B]. apply negb_true_iff, bool_decide_eq_false in B. apply IH; [by apply K2|]. by rewrite !Forall_app, !Forall_singleton.
  - apply IH; [done|]. by rewrite Forall_app, Forall_singleton.
Qed.
Lemma lines_ink norm lines : (∀ l, l ∈ lines → ink (norm l) = ink l) →
  ∀ p out, mjoin (ink <$> tidy_lines norm p out lines) = mjoin (ink <$> out) ++ mjoin (ink <$> lines).
Proof.
  intros Hn. induction lines as [|l lines IH]; intros p out; [simpl; by rewrite app_nil_r|]. simpl. specialize (IH (λ l Hl, Hn l (list_elem_of_further _ _ _ Hl))).
  specialize (Hn l (list_elem_of_here _ _)). case_decide as E; [rewrite IH, <-Hn, E; done|]. rewrite IH.
  destruct (p && _); rewrite !fmap_app, !join_app; simpl; by rewrite ?app_nil_r, Hn, <-app_assoc.
Qed.
Lemma ink_app a b : encoded a → encoded b → ink (a ++ b) = ink a ++ ink b.
Proof. intros. unfold ink. by rewrite runes_app, filter_app. Qed.
Lemma ink_newline w s : encoded w → encoded s → ink (w ++ newline :: s) = ink w ++ ink s.
Proof.
  intros Hw Hs. unfold ink. destruct (encoded_cons w s Hw Hs) as [_ ->]. rewrite filter_app, filter_cons_False; [done|].
  intros X. apply X. by eapply bool_decide_eq_true_1; vm_compute.
Qed.
Lemma Join_encoded l : Forall encoded l → encoded (Join l [newline]) ∧ ink (Join l [newline]) = mjoin (ink <$> l).
Proof.
  induction 1 as [|w l Hw Hl [IH IHi]]; [split; [constructor|done]|]. destruct l as [|w' l]; [split; [done|symmetry; apply app_nil_r]|].
  change (Join (w :: w' :: l) [newline]) with (w ++ newline :: Join (w' :: l) [newline]).
  split; [by apply encoded_cons|]. rewrite ink_newline by done. rewrite IHi. done.
Qed.
(** The pieces of a text that is well encoded are well encoded. *)
Lemma Split_encoded s : encoded s → Forall encoded (Split s newline).
Proof.
  rewrite <-(Join_Split s newline) at 1. pose proof (Split_nonempty s newline) as Hne. pose proof (Split_no_sep s newline) as Hns. revert Hne Hns.
  generalize (Split s newline). intros l. induction l as [|w l IH]; [done|]. intros _ [Hw Hns]%Forall_cons Hs. destruct l as [|w' l]; [by constructor|].
  change (Join (w :: w' :: l) [newline]) with (w ++ newline :: Join (w' :: l) [newline]) in Hs. unfold encoded in Hs.
  rewrite Utf8.runes_app_start in Hs by by vm_compute. apply Forall_app in Hs as [H1 H2]. rewrite Utf8.runes_cons in H2. apply Forall_cons in H2 as [_ H2].
  constructor; [done|]. by apply IH.
Qed.
Lemma normalizeText_tidy s : encoded s →
  (∃ lines, normalizeText s = Join lines [newline] ∧ Forall tidy_line lines ∧ tidy_blanks lines) ∧ ink (normalizeText s) = ink s ∧ encoded (normalizeText s).
Proof.
  intros Hs. pose proof (Split_encoded s Hs) as He. rewrite Forall_forall in He. pose proof (Split_no_sep s newline) as Hn. rewrite Forall_forall in Hn.
  destruct (lines_shape (λ l, tidy_line l ∧ encoded l) normalizeLine (Split s newline)) with (p := false) (out := @nil bytes) as [Hb Hf].
  - intros l Hl. split; [apply normalizeLine_tidy; auto|]. apply normalizeLine_runes; auto.
  - split; [|constructor]. split; [done|by split|by apply not_elem_of_nil|by apply not_elem_of_nil].
  - split; [done|]. by split; [|intros i ?].
  - done.
  - apply Forall_and in Hf as [Hf Hfe]. split; [by exists (tidy_lines normalizeLine false [] (Split s newline))|]. unfold normalizeText.
    destruct (Join_encoded _ Hfe) as [Je Ji]. split; [|done]. rewrite Ji, lines_ink.
    + simpl. rewrite <-(proj2 (Join_encoded _ (Split_encoded s Hs))). by rewrite Join_Split.
    + intros l Hl. unfold ink. rewrite (proj1 (normalizeLine_runes l (He l Hl))). by apply tidy_runes_ink, He.
Qed.
End lines.

(** ** What is written *)
#[local] Arguments in_set : simpl never.
Lemma Node_nested_ind (P : Node → Prop) : (∀ d, P (Text d)) → (∀ t a cs, Forall P cs → P (Element t a cs)) → (∀ cs, Forall P cs → P (Other cs)) → ∀ n, P n.
Proof.
  intros HT HE HO. fix IH 1. intros [d|t a cs|cs]; [apply HT|apply HE|apply HO]; (induction cs as [|c cs IHc]; constructor; [apply IH|apply IHc]).
Qed.
Lemma encoded_rune r : is_rune r → encoded r.
Proof. intros Hr. unfold encoded. rewrite (proj1 Hr). by constructor. Qed.
Lemma encoded_literal s : forallb (λ r, bool_decide (Utf8.runes r = [r]) && Utf8.valid_rune r) (Utf8.runes s) = true → encoded s.
Proof. intros Hs. apply Is_true_eq_left, forallb_True in Hs. eapply Forall_impl; [by apply Hs|]. intros r Hr. apply andb_True in Hr as [Hr V]. split; [by apply bool_decide_unpack in Hr|by apply Is_true_eq_true]. Qed.
Lemma encoded_plain : encoded [] ∧ encoded space ∧ encoded [newline].
Proof. split; [by apply (encoded_concat [])|split]; apply encoded_rune; by vm_compute. Qed.
Lemma inline_encoded s : encoded (collapseInlineSpaces s).
Proof.
  unfold collapseInlineSpaces. assert (∀ r, r ∈ Utf8.runes s → is_rune (Similar.written_rune r)) as Hr by apply is_rune_written.
  generalize false as p. induction (Utf8.runes s) as [|r rs IH]; intros p; simpl; [destruct p; apply encoded_plain|].
  specialize (IH (λ r Hi, Hr r (list_elem_of_further _ _ _ Hi))). destruct (inline_space r); [apply IH|].
  apply encoded_app; [destruct p; apply encoded_plain|]. apply encoded_app; [|apply IH]. apply encoded_rune, Hr. left.
Qed.
Lemma runs_encoded s : encoded s → encoded (collapseSpaceRuns s).
Proof. intros Hs. unfold encoded. rewrite collapseSpaceRuns_runes by done. by apply collapse_rune. Qed.
Lemma Trim_encoded set s : encoded s → encoded (Trim set s).
Proof. intros Hs. by apply encoded_concat, trim_set_rune. Qed.
Lemma TrimSpace_encoded s : encoded s → encoded (TrimSpace s).
Proof.
  intros Hs. unfold encoded. rewrite runes_TrimSpace. unfold trim_runes. apply Forall_reverse.
  assert (∀ rs, Forall is_rune rs → Forall is_rune (drop_spaces rs)) as K.
  { intros rs Hr. destruct (drop_spaces_suffix rs) as [k ->]. by apply Forall_drop. }
  by apply K, Forall_reverse, K.
Qed.
Lemma collapseSpaces_encoded s : encoded (collapseSpaces s).
Proof. apply TrimSpace_encoded, runs_encoded, inline_encoded. Qed.
Lemma emphasis_encoded opts tag s : encoded s → encoded (match emphasisMarker opts tag with [] => s | marker => emphasis marker s end).
Proof.
  intros Hs. assert (∀ m, encoded m → encoded (emphasis m s)) as K.
  { intros m Hm. unfold emphasis. case_decide; [done|]. repeat (apply encoded_app || apply Trim_encoded || done || case_match || apply encoded_plain). }
  unfold emphasisMarker. destruct (negb _); [done|]. destruct (in_set _ tag); [|destruct (in_set _ tag); [|done]]; apply K;
    by apply encoded_literal; vm_compute.
Qed.
Section write_encoded.
Context {St : Type} (resolveImage : option (bytes → St → bytes * St)) (opts : Options) (I : St → Prop).
(** What resolving an image keeps of the state *)
Context (targets : ∀ resolve href st, resolveImage = Some resolve → I st → encoded (resolve href st).1 ∧ I (resolve href st).2).
Lemma children_encoded (write : Node → St → bytes * St) l : Forall (λ c, ∀ st, I st → encoded (write c st).1 ∧ I (write c st).2) l →
  ∀ st, I st → encoded (writeChildren write l st).1 ∧ I (writeChildren write l st).2.
Proof.
  induction 1 as [|c l Hc Hl IH]; intros st Hi; simpl; [split; [apply encoded_plain|done]|].
  destruct (Hc st Hi) as [Hc1 Hc2]. destruct (write c st) as [a st']. destruct (IH st' Hc2) as [IH1 IH2].
  destruct (writeChildren write l st') as [b st'']. split; [by apply encoded_app|done].
Qed.
Lemma writeNode_encoded n : ∀ st, I st → encoded (writeNode resolveImage opts n st).1 ∧ I (writeNode resolveImage opts n st).2.
Proof.
  destruct encoded_plain as (En & Es & El). induction n as [d|t a cs IH|cs IH] using Node_nested_ind; intros st Hi; simpl;
    [split; [apply inline_encoded|done]| |by apply children_encoded].
  destruct (in_set skipTags t); [by split|]. case_decide; [by split|]. case_decide.
  - destruct resolveImage as [resolve|]; [|by split]. destruct (targets resolve (attr a (str "src")) st eq_refl Hi) as [Ht Hi'].
    destruct (resolve _ st) as [target st']. case_decide; [by split|]. split; [simpl|done].
    change (encoded ([newline] ++ str "![" ++ sanitizeImageAlt (attr a (str "alt")) ++ str "](" ++ target ++ str ")" ++ [newline])).
    apply encoded_app; [done|]. apply encoded_app; [by apply encoded_literal; vm_compute|]. apply encoded_app; [apply collapseSpaces_encoded|].
    apply encoded_app; [by apply encoded_literal; vm_compute|]. apply encoded_app; [done|]. by apply encoded_literal; vm_compute.
  - case_decide; [by split|]. destruct (children_encoded _ _ IH st Hi) as [K Hi']. destruct (writeChildren _ cs st) as [inner st']. simpl in *.
    pose proof (emphasis_encoded opts t _ K) as K2. set (x := match emphasisMarker opts t with [] => _ | _ => _ end) in *.
    split; [|done]. destruct (in_set blockTags t); [|done]. apply (encoded_app [newline]); [done|]. by apply encoded_app.
Qed.
(** The lines of a text in order *)
Definition tidy_text (text : bytes) : Prop := ∃ lines, text = Join lines [newline] ∧ Forall tidy_line lines ∧ tidy_blanks lines.
Lemma extractText_kept `{Scripts} root st : I st →
  tidy_text (extractText resolveImage opts root st).1 ∧ ink (extractText resolveImage opts root st).1 = ink (writeNode resolveImage opts root st).1 ∧
  I (extractText resolveImage opts root st).2.
Proof.
  intros Hi. unfold extractText. destruct (writeNode_encoded root st Hi) as [E Hi']. destruct (writeNode _ _ root st) as [written st'].
  destruct (normalizeText_tidy written E) as (Hl & Hk & _). by split_and!.
Qed.

End write_encoded.


(** ** The layout *)
Lemma last_byte s : s ≠ [] → ∃ l r c, Utf8.runes s = l ++ [r] ∧ last r = Some c ∧ last s = Some c.
Proof.
  intros Hs. pose proof (Utf8.runes_nonempty s) as Hn. pose proof (Utf8.runes_concat s) as E.
  destruct (exists_last (l := Utf8.runes s)) as (l & r & Er).
  { intros X. rewrite X in E. by subst. }
  rewrite Er in E, Hn. rewrite concat_app in E. simpl in E. rewrite app_nil_r in E. apply Forall_app in Hn as [_ Hn]. apply Forall_inv in Hn.
  destruct (exists_last (l := r) Hn) as (q & c & ->). exists l, (q ++ [c]), c. rewrite !last_snoc. split_and!; [done..|].
  by rewrite <-E, app_assoc, last_snoc.
Qed.
Lemma head_byte s : s ≠ [] → ∃ r l c, Utf8.runes s = r :: l ∧ head r = Some c ∧ head s = Some c.
Proof.
  destruct s as [|c s]; [done|]. intros _. rewrite Utf8.runes_cons. pose proof (Utf8.rune_width_bounds (c :: s) ltac:(done)).
  destruct (Utf8.rune_width (c :: s)) eqn:W; [lia|]. by eexists _, _, c.
Qed.
(** A text that neither starts nor ends with a line break *)
Definition no_breaks (s : bytes) : Prop := s ≠ [] ∧ head s ≠ Some newline ∧ last s ≠ Some newline.
Lemma Trim_newline s : no_breaks s → Trim [[newline]] s = s.
Proof.
  intros (Hs & Hh & Hl). destruct (head_byte s Hs) as (r & l & c & E & Hr & Hc). destruct (last_byte s Hs) as (l' & r' & c' & E' & Hr' & Hc').
  assert (r ∉ [[newline]]) as N by (intros ->%list_elem_of_singleton; simpl in Hr; congruence).
  assert (r' ∉ [[newline]]) as N' by (intros ->%list_elem_of_singleton; simpl in Hr'; congruence).
  unfold Trim, trim_set. rewrite E. simpl. rewrite decide_False by done. rewrite <-E, E'. rewrite reverse_snoc. simpl. rewrite decide_False by done.
  rewrite <-reverse_snoc, reverse_involutive, <-E'. apply Utf8.runes_concat.
Qed.
Lemma TrimRight_prefix set w : TrimRight set w `prefix_of` w.
Proof.
  unfold TrimRight. destruct (drop_set_split set (reverse (Utf8.runes w))) as (l & E & _). exists (concat (reverse l)).
  rewrite <-concat_app, <-reverse_app, <-E, reverse_involutive. by rewrite Utf8.runes_concat.
Qed.
Lemma TrimRight_keeps set w r : head (Utf8.runes w) = Some r → r ∉ set → TrimRight set w ≠ [].
Proof.
  intros Hh Hr. unfold TrimRight. destruct (drop_set_split set (reverse (Utf8.runes w))) as (l & E & Hl). destruct (drop_set set _) as [|x m] eqn:D.
  - rewrite app_nil_r in E. apply (f_equal reverse) in E. rewrite reverse_involutive in E. exfalso. apply Hr. rewrite Forall_forall in Hl. apply Hl.
    rewrite <-elem_of_reverse, <-E. destruct (Utf8.runes w); [done|]. injection Hh as ->. left.
  - intros X. apply (f_equal reverse) in E. rewrite reverse_involutive, reverse_app, reverse_cons in E. rewrite reverse_cons, concat_app in X.
    apply app_nil in X as [_ X]. simpl in X. rewrite app_nil_r in X. pose proof (Utf8.runes_nonempty w) as Hn. rewrite E in Hn. by decompose_Forall.
Qed.
Lemma Join_ends l : Forall (λ w, newline ∉ w) l → l ≠ [] → head l ≠ Some [] → last l ≠ Some [] → no_breaks (Join l [newline]).
Proof.
  intros Hn Hne Hh Hl. destruct l as [|w l]; [done|]. assert (w ≠ []) as Hw by (intros ->; by apply Hh).
  assert (head (Join (w :: l) [newline]) = head w) as E by (destruct w; [done|]; by destruct l).
  split; [intros X; rewrite X in E; by destruct w|]. split.
  - rewrite E. destruct w; [done|]. intros [= ->]. apply Forall_cons in Hn as [Hn _]. apply Hn. left.
  - destruct (exists_last (l := w :: l) ltac:(done)) as (l0 & z & E0). rewrite E0, last_snoc in *.
    assert (∃ p, Join (l0 ++ [z]) [newline] = p ++ z) as [p ->].
    { clear. induction l0 as [|y l0 [p IH]]; [by exists []|]. exists (y ++ newline :: p). rewrite <-app_assoc. simpl. rewrite <-IH.
      by destruct l0. }
    rewrite last_app. destruct (last z) eqn:Z; [|by destruct z; [|rewrite last_cons in Z; case_match]].
    intros [= ->]. apply Forall_app in Hn as [_ Hn]. apply Forall_inv in Hn. apply Hn. by apply last_Some_elem_of.
Qed.

Definition visible (s : bytes) : Prop := ∃ r l, Utf8.runes s = r :: l ∧ is_space r = false.
Lemma visible_app u t : visible u → (∀ c, head t = Some c → Utf8.RuneStart c = true) → visible (u ++ t).
Proof.
  intros (r & l & E & Hr) Ht. destruct t as [|c t]; [rewrite app_nil_r; by exists r, l|].
  exists r, (l ++ Utf8.runes (c :: t)). rewrite Utf8.runes_app_start by by apply Ht. by rewrite E.
Qed.
Lemma tidy_lines_prefix norm lines : ∀ p out, out `prefix_of` tidy_lines norm p out lines.
Proof.
  induction lines as [|l lines IH]; intros p out; [done|]. simpl. case_decide; [apply IH|]. etransitivity; [|apply IH].
  destruct (p && _); rewrite <-?app_assoc; by eexists.
Qed.
Lemma normalizeBlock_visible x : visible x → no_breaks (normalizeBlock x).
Proof.
  intros (r & l & E & Hr). unfold normalizeBlock. pose proof (Split_no_sep x newline) as Hn. pose proof (Join_Split x newline) as J.
  set (norm := TrimRight [space; tab; cr]). destruct (Split x newline) as [|w ws] eqn:Sp; [by apply Split_nonempty in Sp|].
  assert (head (Utf8.runes w) = Some r) as Hw.
  { destruct ws as [|w' ws]; [simpl in J; subst; by rewrite E|].
    change (w ++ newline :: Join (w' :: ws) [newline] = x) in J. rewrite <-J in E. rewrite Utf8.runes_app_start in E by done.
    destruct w; [rewrite Utf8.runes_cons in E; by injection E as <- _|]. rewrite Utf8.runes_cons in E |- *. by injection E as <- _. }
  assert (norm w ≠ []) as Hne.
  { apply (TrimRight_keeps _ _ r); [done|]. intros Hin. assert (Forall (λ r, is_space r = true) [space; tab; cr]) as F by (repeat constructor).
    rewrite Forall_forall in F. rewrite (F r Hin) in Hr. done. }
  rewrite Forall_forall in Hn. destruct (lines_shape (λ l, newline ∉ l) norm (w :: ws)) with (p := false) (out := @nil bytes) as [(Hh & Hl & _) Hf].
  - intros y Hy Hin. apply (Hn y Hy). destruct (TrimRight_prefix [space; tab; cr] y) as [k ->]. apply elem_of_app. by left.
  - by apply not_elem_of_nil.
  - split; [done|]. by split; [|intros i ?].
  - done.
  - apply Join_ends; [done| |done..]. cbn [tidy_lines]. rewrite decide_False by done. simpl.
    destruct (tidy_lines_prefix norm ws false [norm w]) as [k ->]. done.
Qed.
Lemma trim_runes_head rs r l : trim_runes rs = r :: l → is_space r = false.
Proof.
  unfold trim_runes. set (m := drop_spaces rs). destruct (drop_spaces_split (reverse m)) as (b & Eb & _). intros E.
  assert (m = (r :: l) ++ reverse b) as Em. { rewrite <-E, <-reverse_app, <-Eb. by rewrite reverse_involutive. }
  pose proof (drop_spaces_idem rs) as I. fold m in I. rewrite Em in I. simpl in I. destruct (is_space r); [|done].
  destruct (drop_spaces_suffix (l ++ reverse b)) as [k Hk]. rewrite Hk in I. apply (f_equal length) in I. rewrite length_drop in I. simpl in I. lia.
Qed.
Lemma chapter_title_visible i c : visible (chapter_title i c).
Proof.
  unfold chapter_title. case_decide as E; [eexists _, _; split; [apply Utf8.runes_cons|reflexivity]|].
  destruct (Utf8.runes (TrimSpace (CTitle c))) as [|r l] eqn:R.
  - apply (f_equal (@concat _)) in R. by rewrite Utf8.runes_concat in R.
  - exists r, l. split; [done|]. rewrite runes_TrimSpace in R. by apply trim_runes_head in R.
Qed.

(** The blocks of the text, written directly *)
Definition is_plain (s : Strategy) : bool := bool_decide (Preset (Normalized s) = PresetPlain).
Definition header_text (book : BookText) (s : Strategy) : bytes :=
  (if is_plain s then [] else str "# ") ++ BTitle book ++ (if IncludeDescription s then break2 ++ BDescription book else []).
Definition chapter_text (s : Strategy) (i : nat) (c : Chapter) : bytes :=
  (if is_plain s then [] else str "## ") ++ chapter_title i c ++ break2 ++ CText c.
Definition header_blocks (book : BookText) (s : Strategy) : list bytes :=
  match Trim [[newline]] (header_text book s) with [] => [] | block => [block] end.
Definition chapter_blocks (s : Strategy) (chapters : list Chapter) : list bytes :=
  imap (λ i c, normalizeBlock (chapter_text s i c)) chapters.
Lemma Normalized_idem s : Normalized (Normalized s) = Normalized s.
Proof. destruct s as [p d k]. unfold Normalized. simpl. f_equal. destruct (decide (p = [])); [done|by rewrite decide_False]. Qed.
Definition header_vars (book : BookText) (count : bytes) : list (bytes * bytes) :=
  [(str "book_title", BTitle book); (str "author", Join (BAuthors book) (str ", ")); (str "description", BDescription book);
   (str "language", BLanguage book); (str "chapter_count", count)].
Definition chapter_vars (i : nat) (c : Chapter) (count : bytes) : list (bytes * bytes) :=
  [(str "chapter_title", chapter_title i c); (str "chapter_content", CText c);
   (str "chapter_index", Itoa (Z.of_nat (S i))); (str "chapter_count", count)].
Lemma layout_header book s count : substitute (layout (Normalized s)).1 (header_vars book count) = header_text book s.
Proof.
  unfold layout, header_text, is_plain. rewrite Normalized_idem. change (IncludeDescription (Normalized s)) with (IncludeDescription s).
  destruct (decide (Preset (Normalized s) = PresetPlain)); [rewrite bool_decide_true by done|rewrite bool_decide_false by done];
    destruct (IncludeDescription s); cbn [fst]; rewrite ?app_nil_r.
  - rewrite <-(app_nil_r (BDescription book)). reflexivity.
  - rewrite <-(app_nil_r (BTitle book)). reflexivity.
  - rewrite <-(app_nil_r (BDescription book)). reflexivity.
  - rewrite <-(app_nil_r (BTitle book)). reflexivity.
Qed.
Lemma layout_chapter i c s count : substitute (layout (Normalized s)).2 (chapter_vars i c count) = chapter_text s i c.
Proof.
  unfold layout, chapter_text, is_plain. rewrite Normalized_idem. rewrite <-(app_nil_r (CText c)).
  destruct (decide (Preset (Normalized s) = PresetPlain)); [rewrite bool_decide_true by done|rewrite bool_decide_false by done];
    destruct (IncludeDescription (Normalized s)); reflexivity.
Qed.
Lemma chapter_visible s i c : visible (chapter_text s i c).
Proof.
  unfold chapter_text. destruct (is_plain s).
  - rewrite app_nil_l. apply visible_app; [apply chapter_title_visible|]. simpl. by intros d [= <-].
  - eexists _, _. split; [apply Utf8.runes_cons|reflexivity].
Qed.
Lemma append_blocks s count chapters : ∀ i doc,
  append_chapters (layout (Normalized s)).2 count i chapters doc =
  Join ((if decide (doc = []) then [] else [doc]) ++ imap (λ k c, normalizeBlock (chapter_text s (i + k) c)) chapters) break2.
Proof.
  induction chapters as [|c chapters IH]; intros i doc; [simpl; by case_decide|]. cbn [append_chapters]. fold (chapter_vars i c count).
  rewrite layout_chapter. pose proof (normalizeBlock_visible _ (chapter_visible s i c)) as Nb. rewrite decide_False by apply Nb.
  rewrite IH. unfold appendBlock. rewrite Trim_newline by done. set (b := normalizeBlock _) in *. rewrite (decide_False (P := b = [])) by apply Nb.
  simpl imap. rewrite Nat.add_0_r. fold b. rewrite (imap_ext _ ((λ k c, normalizeBlock (chapter_text s (i + k) c)) ∘ S)) by (intros; simpl; do 2 f_equal; lia).
  set (l := imap _ chapters). destruct (decide (doc = [])) as [->|Hd]; simpl.
  - rewrite decide_False by apply Nb. done.
  - rewrite decide_False by (intros X; by destruct doc). destruct l; simpl; by rewrite <-?app_assoc.
Qed.

(** Claim C30: the text a book is laid out as is, whatever its titles and
    texts hold, the title (and the description) followed by one block for
    every chapter, in order, with a blank line between blocks; a block is
    never empty and has no line break at an end. *)
Theorem Render_reference book s :
  Render book s = (Join (header_blocks book s ++ chapter_blocks s (BChapters book)) break2, if is_plain s then str "txt" else str "md") ∧
  Forall no_breaks (chapter_blocks s (BChapters book)) ∧ length (chapter_blocks s (BChapters book)) = length (BChapters book).
Proof.
  split_and!; [|apply Forall_lookup; intros i b Hb; unfold chapter_blocks in Hb; apply list_lookup_imap_Some in Hb as (c & _ & ->); apply normalizeBlock_visible, chapter_visible|apply length_imap].
  unfold Render. pose proof (layout_header book s (Itoa (Z.of_nat (length (BChapters book))))) as Hh.
  pose proof (append_blocks s (Itoa (Z.of_nat (length (BChapters book)))) (BChapters book) 0) as Hc.
  destruct (layout (Normalized s)) as [header chapter]. simpl in Hh, Hc. fold (header_vars book (Itoa (Z.of_nat (length (BChapters book))))). rewrite Hh, Hc. f_equal.
  - f_equal. unfold header_blocks, appendBlock. destruct (Trim _ _) eqn:T; [by rewrite decide_True by done|]. by rewrite decide_False.
  - unfold Format, is_plain. rewrite Normalized_idem. case_decide; [by rewrite bool_decide_true|by rewrite bool_decide_false].
Qed.
End EpubText.
