(* ===== verification/Epub.v ===== *)
(** * EPUB files: [src/internal/epub/epub.go] and [images.go]

    An archive is the list of its entries; an entry is opened and read as a
    stream that may fail. What [encoding/xml] and [html.Parse] make of a
    document are parameters, and so is the order a map is ranged over in. An
    entry is its position in the archive, as the code knows it by its pointer.
    [errors] are told apart as far as the code tells them apart.

    [Parse_book] says what a book that is read has: chapters, in tidy text,
    and pictures within the limits, under names of their own. *)

From S2P Require Import Prelude Utf8 Strings Fs ShelfUtil Source FolderMeta Http CacheExport DavClient Security Similar EpubText.

Module Epub.
Import EpubText.

(** ** The archive *)
Record File := mkFile { FName : bytes; IsDir : bool; FOpen : result error (bytes * option error) }.
Definition maxDocumentBytes : Z := 32 * 2 ^ 20.
Definition maxTotalBytes : Z := 256 * 2 ^ 20.
Definition maxImageBytes : Z := 8 * 2 ^ 20.
Definition maxTotalImageBytes : Z := 64 * 2 ^ 20.
Definition errZipEntryTooLarge : error := Msg "zip entry exceeds the maximum supported size".
Definition ImageFolder : bytes := str "assets".
Definition imageExtensions : list bytes := [str ".jpg"; str ".jpeg"; str ".png"; str ".webp"; str ".gif"].
(** [io.ReadAll] of an [io.LimitReader] over a stream that ends with an error
    or without *)
Definition read_limit (limit : Z) (stream : bytes * option error) : result error bytes :=
  let '(data, failure) := stream in
  if (limit <? Z.of_nat (length data))%Z then Ok (take (Z.to_nat (limit + 1)) data) else
  match failure with Some e => Err e | None => Ok data end.

Class MapRange := {
  range : gmap bytes bytes → list (bytes * bytes);
  range_all m : range m ≡ₚ map_to_list m;
  range_names : gmap bytes nat → list bytes;
  range_names_all m : range_names m ≡ₚ (map_to_list m).*1;
}.
Record opfIdentifier := mkIdentifier { Scheme : bytes; Value : bytes }.
Record opfMeta := mkMeta { MName : bytes; MContent : bytes }.
Record opfItem := mkItem { IID : bytes; IHref : bytes; MediaType : bytes; Properties : bytes }.
Record opfPackage := mkPackage {
  Titles : list bytes; Creators : list bytes; Languages : list bytes; Descriptions : list bytes; Dates : list bytes;
  Identifiers : list opfIdentifier; Metas : list opfMeta; Items : list opfItem; TOC : bytes; ItemRefs : list bytes }.
Inductive ncxNavPoint := mkNav (Label Src : bytes) (Children : list ncxNavPoint).
Class Markup := {
  (** the paths [container.xml] names *)
  xml_container : bytes → option (list bytes);
  xml_package : bytes → option opfPackage;
  xml_ncx : bytes → option (list ncxNavPoint);
  html_parse : bytes → option Node;
}.

Record Image := mkImage { IName : bytes; IData : bytes }.
Record Book := mkBook {
  Title : bytes; Authors : list bytes; Language : bytes; Description : bytes; BookIdentifiers : gmap bytes bytes;
  PublishedAt : bytes; Cover : bytes; CoverExt : bytes; Images : list Image; DroppedImages : nat; Chapters : list Chapter }.

Section epub.
Context `{UnicodeCase, Scripts, MapRange, Markup}.
(** [path.Ext], [path.Join] of two names *)
Definition Ext (p : bytes) : bytes := Source.Ext (default [] (last (Split p "/"%char))).
Definition PathJoin (a b : bytes) : bytes := CacheFile.Clean (a ++ str "/" ++ b).
(** [strings.Cut], the part in front *)
Fixpoint before_byte (c : Stdlib.Strings.Ascii.ascii) (s : bytes) : option (bytes * bytes) :=
  match s with
  | [] => None
  | d :: s => if decide (d = c) then Some ([], s) else match before_byte c s with Some (a, b) => Some (d :: a, b) | None => None end
  end.

(** [func indexZip] *)
Definition index_entry (files : gmap bytes nat) (i : nat) (f : File) : gmap bytes nat :=
  if IsDir f then files else
  let name := CacheFile.Clean (FName f) in
  let files := <[name := i]> files in
  let lower := ShelfUtil.lower name in
  match files !! lower with Some _ => files | None => <[lower := i]> files end.
Definition indexZip (zr : list File) : gmap bytes nat := foldl (λ files '(i, f), index_entry files i f) ∅ (imap pair zr).

Section archive.
Context (zr : list File).
(** [func lookupZipEntry] *)
Definition lookupZipEntry (files : gmap bytes nat) (name : bytes) : option nat :=
  if decide (name = []) then None else
  match files !! CacheFile.Clean name with
  | Some f => Some f
  | None => files !! ShelfUtil.lower (CacheFile.Clean name)
  end.
(** [func readZipEntryLimit], [readZipEntry] *)
Definition readZipEntryLimit (files : gmap bytes nat) (name : bytes) (limit : Z) : result error bytes :=
  match lookupZipEntry files name with
  | None => Err (Msg "entry not found")
  | Some i =>
      match zr !! i with
      | None => Err (Msg "entry not found")
      | Some f =>
          match FOpen f with
          | Err e => Err e
          | Ok stream =>
              match read_limit limit stream with
              | Err e => Err e
              | Ok data => if (Z.of_nat (length data) >? limit)%Z then Err errZipEntryTooLarge else Ok data
              end
          end
      end
  end.
Definition readZipEntry (files : gmap bytes nat) (name : bytes) : result error bytes := readZipEntryLimit files name maxDocumentBytes.
(** [func findPackagePath] *)
Definition findPackagePath (files : gmap bytes nat) : result error bytes :=
  let named :=
    match readZipEntry files (str "META-INF/container.xml") with
    | Err _ => None
    | Ok data =>
        match xml_container data with
        | None => None
        | Some paths => List.find (λ full, negb (bool_decide (full = [])) && bool_decide (is_Some (lookupZipEntry files full))) (TrimSpace <$> paths)
        end
    end in
  match named with
  | Some full => Ok (CacheFile.Clean full)
  | None =>
      match List.find (λ name, HasSuffix (ShelfUtil.lower name) (str ".opf")) (range_names files) with
      | Some name => Ok name
      | None => Err (Msg "epub has no package document")
      end
  end.

(** [func resolveHref], [hasProperty], [isDocumentMediaType], [firstNonEmpty],
    [nonEmpty], [collectIdentifiers] *)
Definition resolveHref (baseDir href : bytes) : bytes :=
  let href := TrimSpace href in
  if decide (href = []) then [] else
  let href := match before_byte "#"%char href with Some (a, _) => a | None => href end in
  if decide (href = []) then [] else
  let href := default href (Http.PathUnescape href) in
  match Security.CutPrefix href (str "/") with
  | Some after => CacheFile.Clean after
  | None =>
      if decide (baseDir = [] ∨ baseDir = str ".") then CacheFile.Clean href
      else CacheFile.Clean (PathJoin baseDir href)
  end.
Definition hasProperty (properties want : bytes) : bool := existsb (λ p, FolderMeta.EqualFold p want) (Fields properties).
Definition isDocumentMediaType (mediaType : bytes) : bool :=
  let mediaType := ShelfUtil.lower (TrimSpace mediaType) in
  bool_decide (mediaType = []) || Contains mediaType (str "xhtml") || Contains mediaType (str "text/html").
Definition nonEmpty (values : list bytes) : list bytes := List.filter (λ v, negb (bool_decide (v = []))) (TrimSpace <$> values).
Definition firstNonEmpty (values : list bytes) : bytes := default [] (head (nonEmpty values)).
Definition identifier_key (id : opfIdentifier) : bytes :=
  let key := ShelfUtil.lower (TrimSpace (Scheme id)) in
  let key := if decide (key = []) then
      match Security.CutPrefix (ShelfUtil.lower (TrimSpace (Value id))) (str "urn:") with
      | Some rest => match before_byte ":"%char rest with Some (scheme, _) => scheme | None => [] end
      | None => []
      end else key in
  if decide (key = []) then str "identifier" else key.
Definition collectIdentifiers (ids : list opfIdentifier) : gmap bytes bytes :=
  foldl (λ out id, let value := TrimSpace (Value id) in
    if decide (value = []) then out else
    match out !! identifier_key id with Some _ => out | None => <[identifier_key id := value]> out end) ∅ ids.

(** [func readCover] *)
Definition manifest_of (items : list opfItem) : gmap bytes opfItem := foldl (λ m item, <[IID item := item]> m) ∅ items.
Definition cover_candidates (manifest : gmap bytes opfItem) (pkg : opfPackage) : list bytes :=
  (IHref <$> List.filter (λ item, hasProperty (Properties item) (str "cover-image")) (Items pkg)) ++
  omap (λ meta, if FolderMeta.EqualFold (TrimSpace (MName meta)) (str "cover") then IHref <$> manifest !! TrimSpace (MContent meta) else None) (Metas pkg) ++
  (IHref <$> List.filter (λ item, HasPrefix (MediaType item) (str "image/") &&
    (Contains (ShelfUtil.lower (IID item)) (str "cover") || Contains (ShelfUtil.lower (IHref item)) (str "cover"))) (Items pkg)).
Fixpoint first_cover (files : gmap bytes nat) (baseDir : bytes) (candidates : list bytes) : bytes * bytes * bytes :=
  match candidates with
  | [] => ([], [], [])
  | href :: candidates =>
      let coverPath := resolveHref baseDir href in
      match readZipEntry files coverPath with
      | Ok ((_ :: _) as data) => (data, ShelfUtil.lower (Ext coverPath), coverPath)
      | _ => first_cover files baseDir candidates
      end
  end.
Definition readCover (files : gmap bytes nat) (manifest : gmap bytes opfItem) (pkg : opfPackage) (baseDir : bytes) : bytes * bytes * bytes :=
  first_cover files baseDir (cover_candidates manifest pkg).

(** [func readTOCTitles] *)
Definition nav_item (files : gmap bytes nat) (baseDir : bytes) (titles : gmap bytes bytes) (item : opfItem) : gmap bytes bytes :=
  if negb (hasProperty (Properties item) (str "nav")) then titles else
  let navPath := resolveHref baseDir (IHref item) in
  match readZipEntry files navPath with
  | Err _ => titles
  | Ok data => foldl (λ titles '(href, title), <[resolveHref (DavClient.Dir navPath) href := title]> titles) titles (range (parseNavDocument (html_parse data)))
  end.
Fixpoint nav_point (ncxDir : bytes) (titles : gmap bytes bytes) (p : ncxNavPoint) : gmap bytes bytes :=
  let '(mkNav label src children) := p in
  let title := TrimSpace label in
  let src := TrimSpace src in
  let key := resolveHref ncxDir src in
  let titles := if decide (title = [] ∨ src = []) then titles else
    match titles !! key with Some _ => titles | None => <[key := title]> titles end in
  foldl (nav_point ncxDir) titles children.
Definition ncx_item (manifest : gmap bytes opfItem) (pkg : opfPackage) : option opfItem :=
  match manifest !! TrimSpace (TOC pkg) with
  | Some item => Some item
  | None => List.find (λ item, Contains (MediaType item) (str "dtbncx") || HasSuffix (ShelfUtil.lower (IHref item)) (str ".ncx")) (Items pkg)
  end.
Definition readTOCTitles (files : gmap bytes nat) (manifest : gmap bytes opfItem) (pkg : opfPackage) (baseDir : bytes) : gmap bytes bytes :=
  let titles := foldl (nav_item files baseDir) ∅ (Items pkg) in
  if decide (titles ≠ ∅) then titles else
  match ncx_item manifest pkg with
  | None => titles
  | Some item =>
      let ncxPath := resolveHref baseDir (IHref item) in
      match readZipEntry files ncxPath with
      | Err _ => titles
      | Ok data =>
          match xml_ncx data with
          | None => titles
          | Some points => foldl (nav_point (DavClient.Dir ncxPath)) titles points
          end
      end
  end.

(** ** Pictures: [type imageCollector] *)
Record imageCollector := mkCollector { kept : gmap nat bytes; dropped : gset nat; images : list Image; totalBytes : Z }.
Definition newImageCollector : imageCollector := mkCollector ∅ ∅ [] 0.
Definition markDropped (entry : nat) (c : imageCollector) : imageCollector := mkCollector (kept c) ({[entry]} ∪ dropped c) (images c) (totalBytes c).
(** [fmt.Sprintf("img-%04d%s")] *)
Definition pad4 (n : nat) : bytes := let d := Itoa (Z.of_nat n) in replicate (4 - length d) "0"%char ++ d.
Definition image_name (n : nat) (ext : bytes) : bytes := str "img-" ++ pad4 n ++ ext.
(** [func (c *imageCollector) keep] *)
Definition keep (files : gmap bytes nat) (docDir href : bytes) (c : imageCollector) : bytes * imageCollector :=
  match lookupZipEntry files (resolveHref docDir href) with
  | None => ([], c)
  | Some entry =>
      match kept c !! entry with
      | Some name => (PathJoin ImageFolder name, c)
      | None =>
          if decide (entry ∈ dropped c) then ([], c) else
          let name := match zr !! entry with Some f => FName f | None => [] end in
          let ext := ShelfUtil.lower (Ext name) in
          if negb (bool_decide (ext ∈ imageExtensions)) then ([], markDropped entry c) else
          match readZipEntryLimit files name maxImageBytes with
          | Err _ => ([], markDropped entry c)
          | Ok data =>
              if (totalBytes c + Z.of_nat (length data) >? maxTotalImageBytes)%Z then ([], markDropped entry c) else
              let name := image_name (length (images c) + 1) ext in
              (PathJoin ImageFolder name,
               mkCollector (<[entry := name]> (kept c)) (dropped c) (images c ++ [mkImage name data]) (totalBytes c + Z.of_nat (length data)))
          end
      end
  end.
(** [func (c *imageCollector) recordUnflattenedRefs] *)
Definition recordUnflattenedRefs (files : gmap bytes nat) (docDir : bytes) (hrefs : list bytes) (c : imageCollector) : imageCollector :=
  foldl (λ c href,
    match lookupZipEntry files (resolveHref docDir href) with
    | Some image => match kept c !! image with Some _ => c | None => markDropped image c end
    | None => c
    end) c hrefs.

(** ** [func Parse] *)
Definition errTooLarge : error := Msg "epub content exceeds the maximum supported size".
Definition spine_item (files : gmap bytes nat) (opts : Options) (manifest : gmap bytes opfItem) (baseDir : bytes) (titles : gmap bytes bytes)
    (ref : bytes) (st : imageCollector * Z * list Chapter) : result error (imageCollector * Z * list Chapter) :=
  let '(c, total, chapters) := st in
  match manifest !! ref with
  | None => Ok st
  | Some item =>
      if negb (isDocumentMediaType (MediaType item)) || hasProperty (Properties item) (str "nav") then Ok st else
      let docPath := resolveHref baseDir (IHref item) in
      match readZipEntryLimit files docPath maxDocumentBytes with
      | Err e => if decide (e = errZipEntryTooLarge) then Err e else Ok st
      | Ok data =>
          let total := (total + Z.of_nat (length data))%Z in
          if (total >? maxTotalBytes)%Z then Err errTooLarge else
          let docDir := DavClient.Dir docPath in
          let resolveImage := if KeepImages opts then Some (keep files docDir) else None in
          let '((headingTitle, text, hrefs), c) := documentToChapter (html_parse data) opts resolveImage c in
          let c := recordUnflattenedRefs files docDir hrefs c in
          let title := match default [] (titles !! docPath) with [] => headingTitle | title => title end in
          if decide (TrimSpace text = [] ∧ TrimSpace title = []) then Ok (c, total, chapters)
          else Ok (c, total, chapters ++ [mkChapter title text])
      end
  end.
Fixpoint read_spine (files : gmap bytes nat) (opts : Options) (manifest : gmap bytes opfItem) (baseDir : bytes) (titles : gmap bytes bytes)
    (refs : list bytes) (st : imageCollector * Z * list Chapter) : result error (imageCollector * Z * list Chapter) :=
  match refs with
  | [] => Ok st
  | ref :: refs =>
      match spine_item files opts manifest baseDir titles ref st with
      | Err e => Err e
      | Ok st => read_spine files opts manifest baseDir titles refs st
      end
  end.
Definition Parse (opts : Options) : result error Book :=
  let files := indexZip zr in
  match findPackagePath files with
  | Err e => Err e
  | Ok opfPath =>
      match readZipEntry files opfPath with
      | Err e => Err e
      | Ok opfData =>
          match xml_package opfData with
          | None => Err (Msg "failed to parse package document")
          | Some pkg =>
              let baseDir := if decide (DavClient.Dir opfPath = str ".") then [] else DavClient.Dir opfPath in
              let manifest := manifest_of (Items pkg) in
              let '(cover, coverExt, coverPath) := readCover files manifest pkg baseDir in
              let titles := readTOCTitles files manifest pkg baseDir in
              match read_spine files opts manifest baseDir titles (ItemRefs pkg) (newImageCollector, 0%Z, []) with
              | Err e => Err e
              | Ok (c, _, chapters) =>
                  if decide (chapters = []) then Err (Msg "epub contains no readable chapters") else
                  let dropped := match lookupZipEntry files coverPath with Some e => dropped c ∖ {[e]} | None => dropped c end in
                  Ok (mkBook (firstNonEmpty (Titles pkg)) (nonEmpty (Creators pkg)) (firstNonEmpty (Languages pkg)) (firstNonEmpty (Descriptions pkg))
                        (collectIdentifiers (Identifiers pkg)) (firstNonEmpty (Dates pkg)) cover coverExt (images c) (size dropped) chapters)
              end
          end
      end
  end.
End archive.
End epub.

(** ** Names of pictures *)
Definition ascii_byte (c : Stdlib.Strings.Ascii.ascii) : Prop := (byte_val c < 128)%Z.
Definition digit (c : Stdlib.Strings.Ascii.ascii) : Prop := (48 ≤ byte_val c ≤ 57)%Z.
Lemma digits_digit f n acc : Forall digit acc → Forall digit (digits_fuel f n acc).
Proof.
  revert n acc. induction f as [|f IH]; intros n acc Ha; [done|]. cbn [digits_fuel].
  assert (Forall digit (Stdlib.Strings.Ascii.ascii_of_N (48 + n mod 10) :: acc)) as K.
  { constructor; [|done]. unfold digit, byte_val. pose proof (N.mod_lt n 10 ltac:(done)) as L. revert L. generalize (n mod 10)%N. intros m L. rewrite Stdlib.Strings.Ascii.N_ascii_embedding by lia. lia. }
  destruct (n <? 10)%N; [done|by apply IH].
Qed.
Lemma Itoa_digits n : Forall digit (Itoa (Z.of_nat n)).
Proof. unfold Itoa. destruct (Z.ltb_spec (Z.of_nat n) 0); [lia|]. by apply digits_digit. Qed.
Lemma pad4_digits n : Forall digit (pad4 n).
Proof. unfold pad4. apply Forall_app. split; [|apply Itoa_digits]. apply Forall_replicate. by vm_compute. Qed.
Lemma pad4_val n : digits_val 0 (pad4 n) = N.of_nat n.
Proof.
  unfold pad4, digits_val. rewrite foldl_app. assert (∀ k, foldl (λ v c, v * 10 + (Stdlib.Strings.Ascii.N_of_ascii c - 48))%N 0%N (replicate k "0"%char) = 0%N) as ->.
  { induction k as [|k IH]; [done|]. exact IH. }
  fold (digits_val 0 (Itoa (Z.of_nat n))). unfold Itoa. destruct (Z.ltb_spec (Z.of_nat n) 0); [lia|]. unfold Itoa_nat.
  rewrite digits_fuel_val by apply size_nat_bound. unfold digits_val. simpl. lia.
Qed.
Lemma digits_then a b x y : Forall digit a → Forall digit b → a ++ "."%char :: x = b ++ "."%char :: y → a = b.
Proof.
  assert (¬ digit "."%char) as N by (unfold digit; by vm_compute; intros []). intros Ha. revert b. induction Ha as [|c a Hc Ha IH]; intros b Hb E.
  - destruct b as [|c b]; [done|]. injection E as <- _. by apply Forall_inv in Hb.
  - destruct b as [|d b]; [injection E as -> _; done|]. injection E as -> E. f_equal. apply (IH b); [by apply Forall_inv_tail in Hb|done].
Qed.
Lemma ext_dot ext : ext ∈ imageExtensions → ∃ e, ext = ("."%char :: e) ∧ ("/"%char ∉ ext) ∧ Forall ascii_byte ext.
Proof.
  assert (Forall (λ ext, ∃ e, ext = ("."%char :: e) ∧ ("/"%char ∉ ext) ∧ Forall ascii_byte ext) imageExtensions) as F.
  { repeat constructor; (eexists; split; [reflexivity|split; [by eapply bool_decide_eq_true_1; vm_compute|repeat constructor]]). }
  rewrite Forall_forall in F. apply F.
Qed.
Lemma image_name_inj n m e e' : e ∈ imageExtensions → e' ∈ imageExtensions → image_name n e = image_name m e' → n = m.
Proof.
  intros He He' E. destruct (ext_dot e He) as (x & -> & _). destruct (ext_dot e' He') as (y & -> & _).
  unfold image_name in E. apply app_inv_head in E. apply digits_then in E; [|apply pad4_digits..].
  apply (f_equal (digits_val 0)) in E. rewrite !pad4_val in E. lia.
Qed.
Lemma ascii_encoded l : Forall ascii_byte l → encoded l.
Proof.
  induction 1 as [|c l Hc Hl IH]; [apply encoded_plain|]. apply (encoded_app [c]); [|done]. apply encoded_rune.
  assert (Utf8.decode_rune [c] = (byte_val c, 1)) as D.
  { unfold Utf8.decode_rune. simpl. destruct (Z.ltb_spec (byte_val c) 0x80); [done|]. unfold ascii_byte in Hc. lia. }
  split; [by rewrite Utf8.runes_cons; unfold Utf8.rune_width; rewrite D|]. unfold Utf8.valid_rune. rewrite D. simpl.
  apply negb_true_iff, andb_false_iff. left. apply Z.eqb_neq. unfold ascii_byte, Utf8.RuneError in *. lia.
Qed.
Lemma image_name_plain n ext : ext ∈ imageExtensions → segment (image_name n ext) ∧ Forall ascii_byte (image_name n ext).
Proof.
  intros He. destruct (ext_dot ext He) as (e & E & Hs & Ha). pose proof (pad4_digits n) as Hd. unfold image_name. split.
  - split_and!; [done|simpl; congruence..|]. intros Hin. apply elem_of_app in Hin as [Hin|Hin]; [revert Hin; by eapply bool_decide_eq_true_1; vm_compute|].
    apply elem_of_app in Hin as [Hin|Hin]; [|done]. rewrite Forall_forall in Hd. apply Hd in Hin. by destruct Hin as [? _].
  - apply Forall_app. split; [repeat constructor|]. apply Forall_app. split; [|done]. eapply Forall_impl; [exact Hd|].
    intros c [_ ?]. unfold ascii_byte. lia.
Qed.
Lemma PathJoin_image n ext : ext ∈ imageExtensions → PathJoin ImageFolder (image_name n ext) = ImageFolder ++ str "/" ++ image_name n ext.
Proof.
  intros He. destruct (image_name_plain n ext He) as [Hs _]. unfold PathJoin, CacheFile.Clean.
  set (p := ImageFolder ++ str "/" ++ image_name n ext). assert (CacheFile.IsAbs p = false) as -> by done.
  assert (Split p "/"%char = [ImageFolder; image_name n ext]) as ->.
  { unfold p. change (str "/" ++ image_name n ext) with ("/"%char :: image_name n ext). rewrite Split_app by (by eapply bool_decide_eq_true_1; vm_compute).
    rewrite Split_word by apply Hs. done. }
  rewrite CacheFile.clean_segments; [done|]. repeat constructor; [..|done|apply Hs]; by eapply bool_decide_eq_true_1; vm_compute.
Qed.

(** ** What the collector keeps true *)
Definition data_size (l : list Image) : Z := foldr (λ img n, Z.of_nat (length (IData img)) + n)%Z 0%Z l.
Record collector_ok (c : imageCollector) : Prop := {
  ok_names : ∀ i img, images c !! i = Some img → (∃ ext, ext ∈ imageExtensions ∧ IName img = image_name (i + 1) ext) ∧
    (Z.of_nat (length (IData img)) ≤ maxImageBytes)%Z;
  ok_total : totalBytes c = data_size (images c) ∧ (totalBytes c ≤ maxTotalImageBytes)%Z;
  ok_kept : ∀ k n, kept c !! k = Some n → ∃ img, img ∈ images c ∧ IName img = n;
  ok_apart : ∀ k, k ∈ dropped c → kept c !! k = None;
  ok_count : size (kept c) = length (images c) }.
Lemma data_size_app a b : data_size (a ++ b) = (data_size a + data_size b)%Z.
Proof. induction a as [|x a IH]; simpl; [done|]. rewrite IH. lia. Qed.
Lemma collector_new : collector_ok newImageCollector.
Proof. split; [done|done|done|set_solver|done]. Qed.
Lemma collector_drop c e : collector_ok c → kept c !! e = None → collector_ok (markDropped e c).
Proof. intros [A B C D E] He. split; [done..| |done]. intros k. simpl. intros [->%elem_of_singleton|Hk]%elem_of_union; [done|by apply D]. Qed.

Section kept.
Context `{UnicodeCase, Scripts, MapRange, Markup} (zr : list File) (files : gmap bytes nat).
Lemma read_limit_size name limit data : readZipEntryLimit zr files name limit = Ok data → (Z.of_nat (length data) ≤ limit)%Z.
Proof.
  unfold readZipEntryLimit. destruct (lookupZipEntry files name); [|done]. destruct (zr !! _); [|done]. destruct (FOpen _); [|done].
  destruct (read_limit limit _); [|done]. destruct (Z.gtb_spec (Z.of_nat (length a0)) limit); [done|]. intros [= <-]. done.
Qed.
Lemma keep_ok docDir href c : collector_ok c →
  encoded (keep zr files docDir href c).1 ∧ collector_ok (keep zr files docDir href c).2.
Proof.
  intros Hok. pose proof Hok as [A [B1 B2] C D E]. unfold keep. destruct (lookupZipEntry files _) as [entry|]; [|by split; [apply encoded_plain|]].
  assert (∀ n, (∃ i ext, ext ∈ imageExtensions ∧ n = image_name i ext) → encoded (PathJoin ImageFolder n)) as K.
  { intros n (i & ext & He & ->). rewrite PathJoin_image by done. apply ascii_encoded. apply Forall_app. split; [repeat constructor|].
    apply Forall_app. split; [repeat constructor|]. by apply image_name_plain. }
  destruct (kept c !! entry) as [name|] eqn:Kp.
  - split; [|done]. apply K. destruct (C _ _ Kp) as (img & Hin & <-). apply list_elem_of_lookup in Hin as [i Hi].
    destruct (A _ _ Hi) as [(ext & He & ->) _]. by exists (i + 1), ext.
  - case_decide as Dr; [by split; [apply encoded_plain|]|]. set (name := match zr !! entry with Some f => FName f | None => [] end).
    pose proof (collector_drop c entry Hok Kp) as Hd. destruct (bool_decide _) eqn:X; simpl; [|by split; [apply encoded_plain|]].
    apply bool_decide_eq_true in X. destruct (readZipEntryLimit zr files name maxImageBytes) as [data|] eqn:R; [|by split; [apply encoded_plain|]].
    apply read_limit_size in R. destruct (Z.gtb_spec (totalBytes c + Z.of_nat (length data)) maxTotalImageBytes); [by split; [apply encoded_plain|]|].
    split; [simpl; apply K; by eauto|]. split; simpl.
    + intros i img Hi. apply lookup_app_Some in Hi as [Hi|[Hl Hi]]; [by apply A|]. apply list_lookup_singleton_Some in Hi as [Hi <-].
      simpl. split; [|done]. eexists. split; [exact X|]. f_equal. lia.
    + rewrite data_size_app. simpl. split; [lia|done].
    + intros k n. destruct (decide (k = entry)) as [->|Hne]; [rewrite lookup_insert_eq; intros [= <-]|rewrite lookup_insert_ne by done].
      * eexists. split; [apply elem_of_app; right; by apply list_elem_of_singleton|done].
      * intros Hk. destruct (C _ _ Hk) as (img & ? & ?). exists img. split; [apply elem_of_app; by left|done].
    + intros k Hk. destruct (decide (k = entry)) as [->|Hne]; [done|]. rewrite lookup_insert_ne by done. by apply D.
    + rewrite map_size_insert_None by done. rewrite length_app. simpl. lia.
Qed.
Lemma record_ok docDir hrefs c : collector_ok c →
  collector_ok (recordUnflattenedRefs files docDir hrefs c) ∧ images (recordUnflattenedRefs files docDir hrefs c) = images c.
Proof.
  unfold recordUnflattenedRefs. revert c. induction hrefs as [|h l IH]; intros c Hc; [done|]. simpl.
  destruct (lookupZipEntry files _) as [i|]; [|by apply IH]. destruct (kept c !! i) eqn:K; [by apply IH|].
  destruct (IH (markDropped i c)) as [A B]; [by apply collector_drop|]. by rewrite B.
Qed.

(** What the chapters read so far keep true *)
Definition chapter_ok (ch : Chapter) : Prop := tidy_text (CText ch) ∧ (TrimSpace (CText ch) ≠ [] ∨ TrimSpace (CTitle ch) ≠ []).
Definition spine_ok (opts : Options) (st : imageCollector * Z * list Chapter) : Prop :=
  collector_ok st.1.1 ∧ Forall chapter_ok st.2 ∧ (KeepImages opts = false → images st.1.1 = []) ∧ (st.1.2 ≤ maxTotalBytes)%Z.
Lemma document_ok opts docDir doc c : collector_ok c → (KeepImages opts = false → images c = []) →
  let '(_, text, _, c') := documentToChapter doc opts (if KeepImages opts then Some (keep zr files docDir) else None) c in
  tidy_text text ∧ collector_ok c' ∧ (KeepImages opts = false → images c' = []).
Proof.
  intros Hc Hk. unfold documentToChapter. destruct doc as [doc|].
  - destruct (takeFirstHeading _) as [title root].
    set (I := λ c, collector_ok c ∧ (KeepImages opts = false → images c = [])).
    set (resolveImage := if KeepImages opts then Some (keep zr files docDir) else None).
    assert (∀ resolve href st, resolveImage = Some resolve → I st → encoded (resolve href st).1 ∧ I (resolve href st).2) as K.
    { intros resolve href st E [Ho Hn]. unfold resolveImage in E. destruct (KeepImages opts) eqn:Ki; [|done]. injection E as <-.
      destruct (keep_ok docDir href st Ho) as [Ke Ko]. split; [done|]. unfold I. by split. }
    destruct (extractText_kept resolveImage opts I K root c) as (T & _ & Hi); [by split|].
    destruct (extractText _ opts root c) as [text c']. by destruct Hi.
  - split; [|by split]. exists []. by split_and!; [| |split_and!; [..|intros i ?]].
Qed.
Lemma spine_item_ok opts manifest baseDir titles ref st :
  spine_ok opts st → match spine_item zr files opts manifest baseDir titles ref st with Ok st' => spine_ok opts st' | Err _ => True end.
Proof.
  destruct st as [[c total] chapters]. intros (Hc & Hch & Hk & Ht). unfold spine_item. destruct (manifest !! ref) as [item|]; [|by split_and!].
  destruct (_ || _); [by split_and!|]. set (docPath := resolveHref _ _). destruct (readZipEntryLimit _ _ _ _) as [data|e]; [|case_decide; [done|by split_and!]].
  destruct (Z.gtb_spec (total + Z.of_nat (length data)) maxTotalBytes); [done|].
  pose proof (document_ok opts (DavClient.Dir docPath) (html_parse data) c Hc Hk) as Hd. destruct (documentToChapter _ _ _ c) as [[[heading text] hrefs] c'].
  destruct Hd as (T & Hc' & Hk'). destruct (record_ok (DavClient.Dir docPath) hrefs c' Hc') as [R1 R2].
  set (title := match default [] _ with [] => _ | _ => _ end). case_decide as B; (split_and!; simpl; [done| |by rewrite R2|done]); [done|].
  apply Forall_app. split; [done|]. apply Forall_singleton. split; [done|]. simpl. destruct (decide (TrimSpace text = [])); [right|by left]. tauto.
Qed.
Lemma read_spine_ok opts manifest baseDir titles refs : ∀ st,
  spine_ok opts st → match read_spine zr files opts manifest baseDir titles refs st with Ok st' => spine_ok opts st' | Err _ => True end.
Proof.
  induction refs as [|ref refs IH]; intros st Hs; [done|]. simpl. pose proof (spine_item_ok opts manifest baseDir titles ref st Hs) as K.
  destruct (spine_item _ _ _ _ _ _ _ _); [by apply IH|done].
Qed.

(** A picture that is asked for again is answered the same way, and stored
    only once. *)
Lemma keep_again docDir href c : let '(target, c') := keep zr files docDir href c in keep zr files docDir href c' = (target, c').
Proof.
  unfold keep. destruct (lookupZipEntry files _) as [entry|]; [|done]. destruct (kept c !! entry) as [name|] eqn:Kp; [by rewrite Kp|].
  destruct (decide (entry ∈ dropped c)) as [Dr|Dr]; [by rewrite Kp, decide_True|].
  assert (entry ∈ {[entry]} ∪ dropped c) as Hin by set_solver.
  destruct (negb _); [simpl; by rewrite Kp, decide_True|]. destruct (readZipEntryLimit _ _ _ _) as [data|]; [|simpl; by rewrite Kp, decide_True].
  destruct (_ >? _)%Z; simpl; [by rewrite Kp, decide_True|]. by rewrite lookup_insert_eq.
Qed.
End kept.

Definition picture_ok (img : Image) : Prop :=
  segment (IName img) ∧ (∃ n ext, ext ∈ imageExtensions ∧ IName img = image_name n ext) ∧ (Z.of_nat (length (IData img)) ≤ maxImageBytes)%Z.
Lemma collector_names c : collector_ok c → NoDup (IName <$> images c) ∧ Forall picture_ok (images c).
Proof.
  intros Hc. pose proof (ok_names c Hc) as A. split.
  - apply NoDup_alt. intros i j n Hi Hj. apply list_lookup_fmap_Some in Hi as (x & -> & Hx), Hj as (y & E & Hy).
    destruct (A _ _ Hx) as [(e & He & E1) _]. destruct (A _ _ Hy) as [(e' & He' & E2) _]. rewrite E1, E2 in E. apply image_name_inj in E; [lia|done..].
  - apply Forall_lookup. intros i img Hi. destruct (A _ _ Hi) as [(e & He & E) Hs]. split_and!; [rewrite E; by apply image_name_plain|by eauto|done].
Qed.

(** Claim C12: a book that is read from an EPUB has a chapter at least, each
    with something to read and its text in tidy lines; its pictures have names
    of their own, which are single path segments with the extension of a
    picture, and stay within the limits of one picture and of all; and there
    are none when pictures are not asked for. *)
Theorem Parse_book `{UnicodeCase, Scripts, MapRange, Markup} zr opts :
  match Parse zr opts with
  | Ok b => Chapters b ≠ [] ∧ Forall chapter_ok (Chapters b) ∧ NoDup (IName <$> Images b) ∧ Forall picture_ok (Images b) ∧
      (data_size (Images b) ≤ maxTotalImageBytes)%Z ∧ (KeepImages opts = false → Images b = [])
  | Err _ => True
  end.
Proof.
  unfold Parse. set (files := indexZip zr). destruct (findPackagePath _ _) as [opfPath|]; [|done]. destruct (readZipEntry _ _ _) as [opfData|]; [|done].
  destruct (xml_package opfData) as [pkg|]; [|done]. set (baseDir := if decide _ then _ else _). destruct (readCover _ _ _ _ _) as [[cover coverExt] coverPath].
  set (manifest := manifest_of _). set (titles := readTOCTitles _ _ _ _ _).
  pose proof (read_spine_ok zr files opts manifest baseDir titles (ItemRefs pkg) (newImageCollector, 0%Z, [])) as K.
  destruct (read_spine _ _ _ _ _ _ _ _) as [[[c total] chapters]|]; [|done]. destruct K as (Hc & Hch & Hk & _).
  { split_and!; [apply collector_new|done|done|done]. }
  simpl in *. case_decide as Hn; [done|]. simpl. destruct (collector_names c Hc) as [Nd Fp]. destruct (ok_total c Hc) as [T1 T2].
  split_and!; [done|done|done|done|by rewrite <-T1|done].
Qed.

(** ** A book, and a table of contents *)
Module example.
#[local] Instance case : UnicodeCase := ShelfUtil.AsciiCase.
#[local] Instance scripts : Scripts := λ z, (0x4E00 <=? z)%Z && (z <=? 0x9FFF)%Z.
#[local] Instance forward : MapRange.
Proof. by refine {| range := map_to_list; range_names := λ m, (map_to_list m).*1 |}. Defined.
#[local] Instance backward : MapRange.
Proof.
  refine {| range := λ m, reverse (map_to_list m); range_names := λ m, reverse (map_to_list m).*1 |};
    intros m; by rewrite reverse_Permutation.
Defined.
Definition link (href title : string) : Node := Element (str "a") [mkAttribute [] (str "href") (str href)] [Text (str title)].
Definition nav_doc : Node :=
  Element (str "body") [] [Element (str "nav") [mkAttribute [] (str "epub:type") (str "toc")] [link "one.xhtml#a" "Morning"; link "one.xhtml#b" "Evening"]].
Definition one_doc : Node :=
  Element (str "body") []
    [Element (str "p") [] [Text (str "It  was "); Element (str "em") [] [Text (str "late")]; Text (str ".")];
     Element (str "img") [mkAttribute [] (str "src") (str "../pics/A.PNG"); mkAttribute [] (str "alt") (str "a [map]")] [];
     Element (str "p") [] [Element (str "img") [mkAttribute [] (str "src") (str "map.tiff")] []; Text (str "End")]].
#[local] Instance markup : Markup := {|
  xml_container _ := Some [str " OEBPS/book.opf "];
  xml_package _ := Some (mkPackage [str " The Book "] [str "A. Author"] [str "en"] [] [] [] []
    [mkItem (str "n") (str "text/nav.xhtml") (str "application/xhtml+xml") (str "nav");
     mkItem (str "c") (str "text/one.xhtml") (str "application/xhtml+xml") []] [] [str "c"; str "missing"]);
  xml_ncx _ := None;
  html_parse data := Some (if decide (data = str "nav") then nav_doc else one_doc) |}.
Definition entry (name data : string) : File := mkFile (str name) false (Ok (str data, None)).
Definition archive : list File :=
  [entry "META-INF/container.xml" "c"; entry "OEBPS/book.opf" "p"; entry "OEBPS/text/nav.xhtml" "nav"; entry "OEBPS/text/one.xhtml" "one";
   entry "OEBPS/pics/A.PNG" "data"; entry "OEBPS/text/map.tiff" "tiff"].
Definition seen (r : result error Book) : option (list (bytes * bytes) * list bytes * nat) :=
  match r with Ok b => Some ((λ c, (CTitle c, CText c)) <$> Chapters b, IName <$> Images b, DroppedImages b) | Err _ => None end.
Definition read_with (r : MapRange) : option (list (bytes * bytes) * list bytes * nat) :=
  seen (@Parse case scripts r markup archive (mkOptions true true)).
Definition one_text : bytes := str "It was *late*." ++ break2 ++ str "![a map](assets/img-0001.png)" ++ break2 ++ str "End".
(** The picture the text refers to is kept under a name of its own, the one
    of another format is counted. *)
Lemma parsed_example : read_with forward = Some ([(str "Morning", one_text)], [str "img-0001.png"], 1).
Proof. by vm_compute. Qed.
(** The entries of a table of contents that point into one document: which of
    them names the chapter depends on the order the map is ranged over in. *)
Lemma chapter_title_by_order : read_with backward = Some ([(str "Evening", one_text)], [str "img-0001.png"], 1).
Proof. by vm_compute. Qed.
End example.
End Epub.
