(* ===== verification/Imports.v ===== *)
(** * Imports: [src/internal/cbz/cbz.go], [src/server/import_cbz.go],
    [src/server/import_epub.go], [src/server/handle_import.go]

    [Module Cbz] reads a comic book archive: the checks on its entries, the
    natural order of names, and the pages. What decodes an image's header, an
    XML document and the random names is a parameter; an archive is the list
    of its entries, as in [Epub].

    [naturalCompare_key] says what the natural order of names is, and
    [Open_by_name] that a book does not depend on the order of the archive;
    [Open_pages] says which pages it has and [Read_bounded] how large a page
    can be. *)

From S2P Require Import Prelude Utf8 Strings Float64 Json Fs FsSpec Atomic ShelfUtil BookMeta Source Frame ScanCache FolderMeta Book ShelfState Trash Folder ShelfBook Listing Visibility Http TaskQueue Server ServerBooks ServerSources BookSpec ServerSpec CacheExport ShelfFrame ShelfInv BookMoveSpec Sample Witnesses ShelfWitnesses HandlerWitnesses DavClient EpubText Epub.

Module Cbz.

(** ** The natural order of names *)
Definition digit (c : Stdlib.Strings.Ascii.ascii) : bool := ((48 <=? byte_val c) && (byte_val c <=? 57))%Z.
Fixpoint span_digits (s : bytes) : bytes * bytes :=
  match s with
  | [] => ([], [])
  | c :: s' => if digit c then let '(d, rest) := span_digits s' in (c :: d, rest) else ([], s)
  end.
(** [strings.TrimLeft] of zeros *)
Fixpoint trim_zeros (s : bytes) : bytes :=
  match s with
  | [] => []
  | c :: s' => if decide (c = "0"%char) then trim_zeros s' else s
  end.
(** The loop of [func naturalCompare], on the names in lower case *)
Fixpoint natural_loop (fuel : nat) (a b : bytes) : comparison :=
  match fuel, a, b with
  | S fuel, c :: a', d :: b' =>
      if digit c && digit d then
        let '(da, ra) := span_digits a in
        let '(db, rb) := span_digits b in
        let x := trim_zeros da in
        let y := trim_zeros db in
        if decide (length x ≠ length y) then Nat.compare (length x) (length y) else
        match Compare x y with Eq => natural_loop fuel ra rb | r => r end
      else if decide (c ≠ d) then Z.compare (byte_val c) (byte_val d)
      else natural_loop fuel a' b'
  | _, _, _ => Compare a b
  end.

Class CbzEnv := {
  (** [xml.Unmarshal] of a [comicInfo]: title, writer, manga *)
  comic_info : bytes → option (bytes * bytes * bytes);
  (** [image.DecodeConfig]: width and height *)
  decode_config : bytes → option (Z * Z);
  (** the answers of [rand.Text] *)
  rand_text : nat → bytes;
}.
Section cbz.
Context `{UnicodeCase, CbzEnv}.
Definition naturalCompare (a b : bytes) : comparison :=
  match natural_loop (S (length (ShelfUtil.lower a))) (ShelfUtil.lower a) (ShelfUtil.lower b) with
  | Eq => Compare a b
  | r => r
  end.

(** ** Archives *)
Definition maxEntryBytes : N := 20 * 2 ^ 20.
Definition maxTotalBytes : N := 2 * 2 ^ 30.
Definition maxEntries : nat := 2000.
Definition maxPixels : Z := 100000000.
Record Entry := mkEntry { EName : bytes; Regular : bool; EDir : bool; UncompressedSize64 : N; EOpen : result error (bytes * option error) }.
Record Page := mkPage { PName : bytes; entry : Entry }.
Record Book := mkBook { Title : bytes; Authors : list bytes; Direction : bytes; Pages : list Page }.
(** [strings.ReplaceAll] of backslashes *)
Definition slashes (name : bytes) : bytes := (λ c : Stdlib.Strings.Ascii.ascii, if decide (c = "\"%char) then "/"%char else c) <$> name.
(** [func safePath], [func hiddenPath] *)
Definition safePath (name : bytes) : bool :=
  let name := slashes name in
  if HasPrefix name (str "/") || Contains name (str ":") then false else
  negb (existsb (λ part, bool_decide (part = str "..")) (Split name "/"%char)).
Definition hiddenPath (name : bytes) : bool :=
  existsb (λ part, HasPrefix part (str ".") || bool_decide (part = str "__MACOSX")) (Split (slashes name) "/"%char).
(** [func readEntry]: what is read past the limit counts before an error *)
Definition readEntry (e : Entry) : result error bytes :=
  match EOpen e with
  | Err err => Err err
  | Ok (data, failure) =>
      if (maxEntryBytes <? N.of_nat (length data))%N then Err (Msg "cbz entry exceeds 20 MiB limit") else
      match failure with Some err => Err err | None => Ok data end
  end.
(** The checks at the start of [func Open] *)
Fixpoint check_entries (total : N) (l : list Entry) : option error :=
  match l with
  | [] => None
  | e :: l =>
      if negb (safePath (EName e)) then Some (Msg "cbz path traversal or absolute path") else
      if negb (Regular e) && negb (EDir e) then Some (Msg "cbz entry is not a regular file") else
      if (maxEntryBytes <? UncompressedSize64 e)%N then Some (Msg "cbz entry exceeds 20 MiB limit") else
      let total := ((total + UncompressedSize64 e) mod 2 ^ 64)%N in
      if (maxTotalBytes <? total)%N then Some (Msg "cbz exceeds 2 GiB total uncompressed size limit") else
      check_entries total l
  end.
(** [slices.SortStableFunc]: an entry comes before the later ones that are
    not less than it *)
Fixpoint insert_entry (e : Entry) (l : list Entry) : list Entry :=
  match l with
  | [] => [e]
  | x :: l' => match naturalCompare (EName x) (EName e) with Lt => x :: insert_entry e l' | _ => e :: l end
  end.
Definition sort_entries (l : list Entry) : list Entry := foldr insert_entry [] l.
Definition page_ext (ext : bytes) : bool := bool_decide (ShelfUtil.lower ext ∈ Epub.imageExtensions).
(** The loop of [func Open] over the sorted entries *)
Fixpoint collect (book : Book) (l : list Entry) : result error Book :=
  match l with
  | [] => Ok book
  | e :: l =>
      if EDir e || hiddenPath (EName e) then collect book l else
      if FolderMeta.EqualFold (DavClient.Base (EName e)) (str "ComicInfo.xml") then
        match readEntry e with
        | Err err => Err err
        | Ok data =>
            match comic_info data with
            | None => Err (Msg "invalid ComicInfo.xml")
            | Some (title, writer, manga) =>
                collect (mkBook (TrimSpace title)
                  (Authors book ++ List.filter (λ a, negb (bool_decide (a = []))) (TrimSpace <$> Split writer ","%char))
                  (if decide (TrimSpace manga = str "YesAndRightToLeft") then str "rtl" else Direction book) (Pages book)) l
            end
        end
      else
        let ext := Epub.Ext (EName e) in
        if page_ext ext
        then collect (mkBook (Title book) (Authors book) (Direction book) (Pages book ++ [mkPage (rand_text (length (Pages book)) ++ ext) e])) l
        else collect book l
  end.
(** [func Open]; no archive stands for one that cannot be read *)
Definition Open (zr : option (list Entry)) : result error Book :=
  match zr with
  | None => Err (Msg "not a readable cbz archive")
  | Some zr =>
      if decide (maxEntries < length zr) then Err (Msg "cbz exceeds 2000 entry limit") else
      match check_entries 0 zr with
      | Some err => Err err
      | None =>
          match collect (mkBook [] [] [] []) (sort_entries zr) with
          | Err err => Err err
          | Ok book => if decide (Pages book = []) then Err (Msg "cbz contains no supported images") else Ok book
          end
      end
  end.
(** [func (p Page) Read]; the quotient is of unsigned integers *)
Definition Read (p : Page) : result error bytes :=
  match readEntry (entry p) with
  | Err err => Err err
  | Ok data =>
      match decode_config data with
      | None => Err (Msg "invalid cbz image")
      | Some (w, h) =>
          if ((w <=? 0) || (h <=? 0) || (maxPixels / h <? w))%Z then Err (Msg "cbz image exceeds 100 MP pixel limit") else Ok data
      end
  end.
End cbz.

(** ** What the natural order is *)
(** A name as the numbers it is compared by: a byte is its value; a run of
    digits stands for the digit zero, its length and its digits, without the
    zeros in front. *)
Fixpoint natural_key (fuel : nat) (s : bytes) : list Z :=
  match fuel, s with
  | S fuel, c :: s' =>
      if digit c then
        let '(d, rest) := span_digits s in
        let x := trim_zeros d in
        48%Z :: Z.of_nat (length x) :: (byte_val <$> x) ++ natural_key fuel rest
      else byte_val c :: natural_key fuel s'
  | _, _ => []
  end.
Definition key_of (s : bytes) : list Z := natural_key (length s) s.
(** The lexicographic order *)
Fixpoint lex (a b : list Z) : comparison :=
  match a, b with
  | [], [] => Eq
  | [], _ :: _ => Lt
  | _ :: _, [] => Gt
  | x :: a, y :: b => match Z.compare x y with Eq => lex a b | c => c end
  end.
Lemma lex_eq a b : lex a b = Eq ↔ a = b.
Proof.
  revert b. induction a as [|x a IH]; intros [|y b]; simpl; [done..|]. destruct (Z.compare_spec x y).
  - subst. rewrite IH. split; [by intros ->|by intros [= ->]].
  - split; [done|]. intros [= -> ?]. lia.
  - split; [done|]. intros [= -> ?]. lia.
Qed.
Lemma lex_antisym a b : lex b a = CompOpp (lex a b).
Proof. revert b. induction a as [|x a IH]; intros [|y b]; simpl; [done..|]. rewrite (Z.compare_antisym x y). by destruct (Z.compare x y); simpl. Qed.
Lemma lex_trans a b c : lex a b = Lt → lex b c = Lt → lex a c = Lt.
Proof.
  revert b c. induction a as [|x a IH]; intros [|y b] [|z c]; simpl; try done.
  destruct (Z.compare_spec x y), (Z.compare_spec y z); subst; try done; intros; repeat match goal with |- context[(?x ?= ?y)%Z] => destruct (Z.compare_spec x y) end; try lia; try done; by eapply IH.
Qed.
Lemma lex_app_same a x y : lex (a ++ x) (a ++ y) = lex x y.
Proof. induction a as [|z a IH]; [done|]. simpl. by rewrite Z.compare_refl. Qed.
Lemma span_digits_spec s : s = (span_digits s).1 ++ (span_digits s).2 ∧ (span_digits s).2 = drop (length (span_digits s).1) s.
Proof.
  induction s as [|c s [IH1 IH2]]; [done|]. simpl. destruct (digit c); [|done]. destruct (span_digits s) as [d r]. simpl in *.
  split; [by rewrite IH1 at 1|done].
Qed.
Lemma natural_key_fuel f s : length s ≤ f → natural_key f s = key_of s.
Proof.
  unfold key_of. revert f s. assert (∀ n f g s, length s ≤ n → length s ≤ f → length s ≤ g → natural_key f s = natural_key g s) as K.
  { induction n as [|n IH]; intros f g s Hn Hf Hg; [destruct s; [by destruct f, g|simpl in Hn; lia]|].
    destruct s as [|c s]; [by destruct f, g|]. destruct f as [|f]; [simpl in Hf; lia|]. destruct g as [|g]; [simpl in Hg; lia|].
    cbn [natural_key]. destruct (digit c) eqn:D.
    - pose proof (span_digits_spec (c :: s)) as [E _]. destruct (span_digits (c :: s)) as [d r] eqn:S. simpl in S, E.
      assert (length r ≤ length s) as L. { destruct d; [rewrite D in S; by destruct (span_digits s)|]. apply (f_equal length) in E. rewrite length_app in E. simpl in E. lia. }
      do 3 f_equal. apply IH; simpl in *; lia.
    - f_equal. apply IH; simpl in *; lia. }
  intros f s Hf. by apply (K (length s)).
Qed.
Lemma lex_digits x y a b : length x = length y →
  lex ((byte_val <$> x) ++ a) ((byte_val <$> y) ++ b) = match Compare x y with Eq => lex a b | c => c end.
Proof. revert y. induction x as [|c x IH]; intros [|d y]; simpl; try done. intros [= L]. destruct (byte_val c ?= byte_val d)%Z; [by apply IH|done..]. Qed.
Lemma key_cons c s : key_of (c :: s) =
  if digit c then let '(d, rest) := span_digits (c :: s) in
    48%Z :: Z.of_nat (length (trim_zeros d)) :: (byte_val <$> trim_zeros d) ++ key_of rest
  else byte_val c :: key_of s.
Proof.
  unfold key_of at 1. cbn [length natural_key]. destruct (digit c) eqn:D; [|done].
  pose proof (span_digits_spec (c :: s)) as [E _]. destruct (span_digits (c :: s)) as [d r] eqn:S. simpl in E.
  do 3 f_equal. apply natural_key_fuel. destruct d; [simpl in S; rewrite D in S; by destruct (span_digits s)|].
  apply (f_equal length) in E. rewrite length_app in E. simpl in E. lia.
Qed.
Lemma digit_outside c d : digit c = true → digit d = false → (byte_val c ?= byte_val d)%Z = (48 ?= byte_val d)%Z.
Proof.
  unfold digit. intros Hc Hd. destruct (Z.leb_spec 48 (byte_val c)), (Z.leb_spec (byte_val c) 57), (Z.leb_spec 48 (byte_val d)), (Z.leb_spec (byte_val d) 57); try done;
    repeat match goal with |- context[(?x ?= ?y)%Z] => destruct (Z.compare_spec x y) end; lia || done.
Qed.
Lemma natural_loop_key fuel a b : length a < fuel → natural_loop fuel a b = lex (key_of a) (key_of b).
Proof.
  revert a b. induction fuel as [|fuel IH]; intros a b Hf; [lia|]. destruct a as [|c a]; [destruct b as [|d b]; [done|rewrite key_cons; simpl; repeat case_match; done]|].
  destruct b as [|d b]; [rewrite key_cons; simpl; repeat case_match; done|].
  change (natural_loop (S fuel) (c :: a) (d :: b)) with
    (if digit c && digit d then
        let '(da, ra) := span_digits (c :: a) in let '(db, rb) := span_digits (d :: b) in
        let x := trim_zeros da in let y := trim_zeros db in
        if decide (length x ≠ length y) then Nat.compare (length x) (length y) else
        match Compare x y with Eq => natural_loop fuel ra rb | r => r end
      else if decide (c ≠ d) then Z.compare (byte_val c) (byte_val d) else natural_loop fuel a b).
  rewrite !key_cons. simpl in Hf. destruct (digit c) eqn:Dc, (digit d) eqn:Dd; cbn [andb].
  - pose proof (span_digits_spec (c :: a)) as [E _]. destruct (span_digits (c :: a)) as [da ra] eqn:Sa. destruct (span_digits (d :: b)) as [db rb]. simpl in E.
    assert (length ra < fuel) as L. { destruct da; [simpl in Sa; rewrite Dc in Sa; by destruct (span_digits a)|]. apply (f_equal length) in E. rewrite length_app in E. simpl in E. lia. }
    cbn [lex]. rewrite Z.compare_refl, Nat2Z.inj_compare. case_decide as Hl.
    + destruct (Nat.compare_spec (length (trim_zeros da)) (length (trim_zeros db))); [lia|done..].
    + rewrite Hl, Nat.compare_refl, lex_digits by done. by rewrite IH.
  - rewrite decide_True by congruence. destruct (span_digits (c :: a)) as [da ra]. cbn [lex]. rewrite (digit_outside c d Dc Dd).
    destruct (Z.compare_spec 48 (byte_val d)) as [E| |]; [|done..]. unfold digit in Dd. rewrite <-E in Dd. done.
  - rewrite decide_True by congruence. destruct (span_digits (d :: b)) as [db rb]. cbn [lex].
    rewrite (Z.compare_antisym (byte_val d)), (Z.compare_antisym 48), (digit_outside d c Dd Dc).
    destruct (Z.compare_spec 48 (byte_val c)) as [E| |]; [|done..]. unfold digit in Dc. rewrite <-E in Dc. done.
  - cbn [lex]. case_decide as Hcd.
    + destruct (Z.compare_spec (byte_val c) (byte_val d)) as [E| |]; [|done..]. by apply byte_val_inj in E.
    + rewrite Hcd, Z.compare_refl. apply IH. lia.
Qed.

Section order.
Context `{UnicodeCase}.
(** The order as it is meant: the keys of the names in lower case decide, and
    the names themselves between two with the same key. *)
Definition natural_order (a b : bytes) : comparison :=
  match lex (key_of (ShelfUtil.lower a)) (key_of (ShelfUtil.lower b)) with Eq => Compare a b | c => c end.
Lemma natural_spec a b : naturalCompare a b = natural_order a b.
Proof. unfold naturalCompare, natural_order. by rewrite natural_loop_key by lia. Qed.
Lemma natural_eq a b : naturalCompare a b = Eq ↔ a = b.
Proof.
  rewrite natural_spec. unfold natural_order. split.
  - destruct (lex _ _); [|done..]. apply Compare_eq.
  - intros ->. rewrite (proj2 (lex_eq _ _)) by done. by apply Compare_eq.
Qed.
Lemma natural_antisym a b : naturalCompare b a = CompOpp (naturalCompare a b).
Proof. rewrite !natural_spec. unfold natural_order. rewrite (lex_antisym (key_of (ShelfUtil.lower a))). destruct (lex _ _); [apply Compare_antisym|done..]. Qed.
Lemma natural_trans a b c : naturalCompare a b = Lt → naturalCompare b c = Lt → naturalCompare a c = Lt.
Proof.
  rewrite !natural_spec. unfold natural_order. destruct (lex (key_of (ShelfUtil.lower a)) (key_of (ShelfUtil.lower b))) eqn:E1; [|intros _|done].
  - apply lex_eq in E1. rewrite E1. destruct (lex _ _) eqn:E2; [|done..]. apply Compare_lt_trans.
  - destruct (lex (key_of (ShelfUtil.lower b)) _) eqn:E2; [|intros _|done].
    + apply lex_eq in E2. rewrite <-E2, E1. done.
    + by rewrite (lex_trans _ _ _ E1 E2).
Qed.

(** the natural order of names is the one of their keys, where a
    run of digits counts as the number it denotes and case does not count; and
    it tells any two names apart, so that it is a total order. *)
Theorem naturalCompare_key a b :
  naturalCompare a b = natural_order a b ∧ (naturalCompare a b = Eq ↔ a = b) ∧ naturalCompare b a = CompOpp (naturalCompare a b) ∧
  ∀ c, naturalCompare a b = Lt → naturalCompare b c = Lt → naturalCompare a c = Lt.
Proof. split_and!; [apply natural_spec|apply natural_eq|apply natural_antisym|intros c; apply natural_trans]. Qed.

(** ** Sorting *)
Definition before (x y : Entry) : Prop := naturalCompare (EName x) (EName y) ≠ Gt.
Lemma before_trans x y z : before x y → before y z → before x z.
Proof.
  unfold before. intros H1 H2. destruct (naturalCompare (EName x) (EName y)) eqn:E1; [|destruct (naturalCompare (EName y) (EName z)) eqn:E2|done].
  - apply natural_eq in E1. by rewrite E1.
  - apply natural_eq in E2. rewrite <-E2, E1. done.
  - by rewrite (natural_trans _ _ _ E1 E2).
  - done.
Qed.
Lemma insert_perm e l : insert_entry e l ≡ₚ e :: l.
Proof. induction l as [|x l IH]; simpl; [done|]. destruct (naturalCompare _ _); [done| |done]. rewrite IH. apply Permutation_swap. Qed.
Lemma sort_perm l : sort_entries l ≡ₚ l.
Proof. induction l as [|x l IH]; [done|]. cbn [sort_entries foldr]. rewrite insert_perm. by constructor. Qed.
Lemma insert_sorted e l : StronglySorted before l → StronglySorted before (insert_entry e l).
Proof.
  induction 1 as [|x l Hs IH Hx]; simpl; [repeat constructor|]. assert (naturalCompare (EName x) (EName e) ≠ Lt → StronglySorted before (e :: x :: l)) as K.
  { intros N. assert (before e x) as B by (unfold before; rewrite natural_antisym; by destruct (naturalCompare (EName x) (EName e))).
    constructor; [by constructor|]. constructor; [done|]. eapply Forall_impl; [exact Hx|]. intros y Hy. by apply (before_trans _ x). }
  destruct (naturalCompare (EName x) (EName e)) eqn:E; [by apply K| |by apply K]. constructor; [done|].
  rewrite insert_perm. constructor; [|done]. unfold before. by rewrite E.
Qed.
Lemma sort_sorted l : StronglySorted before (sort_entries l).
Proof. induction l as [|x l IH]; [constructor|]. by apply insert_sorted. Qed.
(** Different names leave one order only. *)
Lemma sort_unique l k : NoDup (EName <$> l) → l ≡ₚ k → sort_entries l = sort_entries k.
Proof.
  intros Hn Hp. apply (StronglySorted_unique_strong before); [|apply sort_sorted..|by rewrite !sort_perm].
  intros x y Hx Hy Hxy Hyx. rewrite sort_perm in Hx. rewrite sort_perm, <-Hp in Hy.
  assert (EName x = EName y) as E.
  { apply natural_eq. unfold before in *. rewrite natural_antisym in Hyx. by destruct (naturalCompare (EName x) (EName y)). }
  apply list_elem_of_lookup in Hx as [i Hi], Hy as [j Hj]. assert (i = j) as ->; [|congruence].
  apply (NoDup_lookup (EName <$> l) i j (EName x)); [done|by rewrite list_lookup_fmap, Hi|by rewrite list_lookup_fmap, Hj, E].
Qed.
End order.

(** ** What is accepted *)
Definition fine (e : Entry) : Prop := safePath (EName e) = true ∧ (Regular e = true ∨ EDir e = true) ∧ (UncompressedSize64 e ≤ maxEntryBytes)%N.
Definition total_size (l : list Entry) : N := foldr (λ e n, UncompressedSize64 e + n)%N 0%N l.
(** The total does not wrap around before it is refused. *)
Lemma check_spec l : ∀ total, (total ≤ maxTotalBytes)%N →
  check_entries total l = None ↔ Forall fine l ∧ (total + total_size l ≤ maxTotalBytes)%N.
Proof.
  assert (maxTotalBytes = 2147483648%N) as EM by done. assert (maxEntryBytes = 20971520%N) as EE by done.
  induction l as [|e l IH]; intros total Ht; simpl.
  - split; [|done]. intros _. split; [done|lia].
  - rewrite Forall_cons. unfold fine at 1. destruct (safePath (EName e)); simpl; [|naive_solver].
    destruct (Regular e) eqn:R, (EDir e) eqn:D; simpl; [..|naive_solver];
    (destruct (N.ltb_spec maxEntryBytes (UncompressedSize64 e)); [split; [done|intros [[(_ & _ & ?) _] _]; lia]|]);
    rewrite N.mod_small by (change (2 ^ 64)%N with 18446744073709551616%N; lia);
    (destruct (N.ltb_spec maxTotalBytes (total + UncompressedSize64 e)); [split; [done|intros [_ ?]; lia]|]);
    rewrite IH by done; (assert ((total + UncompressedSize64 e + total_size l)%N = (total + (UncompressedSize64 e + total_size l))%N) as -> by lia); tauto.
Qed.
Lemma total_perm l k : l ≡ₚ k → total_size l = total_size k.
Proof. induction 1; simpl; lia. Qed.

Section open.
Context `{UnicodeCase, CbzEnv}.
Lemma check_perm l k : l ≡ₚ k → check_entries 0 l = None → check_entries 0 k = None.
Proof. intros Hp. rewrite !check_spec by done. rewrite (total_perm _ _ Hp). intros [Hf Ht]. split; [by rewrite <-Hp|done]. Qed.

(** Claim C31: the book does not depend on the order of the archive: entries
    with names of their own give the same book, in whatever order they are
    stored, and are refused in every order or in none. *)
Theorem Open_by_name zr zr' : NoDup (EName <$> zr) → zr ≡ₚ zr' →
  match Open (Some zr), Open (Some zr') with
  | Ok b, Ok b' => b = b'
  | Err _, Err _ => True
  | _, _ => False
  end.
Proof.
  intros Hn Hp. unfold Open. rewrite <-(Permutation_length Hp), <-(sort_unique zr zr' Hn Hp). case_decide; [done|].
  destruct (check_entries 0 zr) eqn:C.
  - destruct (check_entries 0 zr') eqn:C'; [done|]. rewrite (check_perm zr' zr) in C by done. done.
  - rewrite (check_perm zr zr') by done. destruct (collect _ _) as [b|]; [|done]. by case_decide.
Qed.

(** A page of the book *)
Definition page_entry (e : Entry) : Prop :=
  EDir e = false ∧ hiddenPath (EName e) = false ∧ FolderMeta.EqualFold (DavClient.Base (EName e)) (str "ComicInfo.xml") = false ∧ page_ext (Epub.Ext (EName e)) = true.
#[local] Instance page_entry_dec e : Decision (page_entry e).
Proof. unfold page_entry. apply _. Defined.
Lemma collect_pages l : ∀ book, match collect book l with
  | Ok b => entry <$> Pages b = (entry <$> Pages book) ++ filter page_entry l ∧
      ((∀ i p, Pages book !! i = Some p → PName p = rand_text i ++ Epub.Ext (EName (entry p))) →
       ∀ i p, Pages b !! i = Some p → PName p = rand_text i ++ Epub.Ext (EName (entry p)))
  | Err _ => True end.
Proof.
  induction l as [|e l IH]; intros book; cbn [collect]; [split; [by rewrite app_nil_r|done]|]. rewrite filter_cons.
  destruct (decide (page_entry e)) as [(D & Hh & F & X)|N].
  - rewrite D, Hh, F, X. simpl. specialize (IH (mkBook (Title book) (Authors book) (Direction book) (Pages book ++ [mkPage (rand_text (length (Pages book)) ++ Epub.Ext (EName e)) e]))).
    destruct (collect _ l) as [b|]; [|done]. destruct IH as [-> IH]. split; [simpl; rewrite fmap_app, <-app_assoc; done|].
    intros Hb. apply IH. intros i p Hi. simpl in Hi. apply lookup_app_Some in Hi as [Hi|[Hl Hi]]; [by apply Hb|].
    apply list_lookup_singleton_Some in Hi as [Hi <-]. simpl. do 2 f_equal. lia.
  - destruct (EDir e || hiddenPath (EName e)) eqn:DH; [apply IH|]. apply orb_false_iff in DH as [D Hh].
    destruct (FolderMeta.EqualFold _ _) eqn:F.
    + destruct (readEntry e) as [data|]; [|done]. destruct (comic_info data) as [[[t w] m]|]; [|done]. apply (IH (mkBook _ _ _ (Pages book))).
    + destruct (page_ext _) eqn:X; [destruct N; by split_and!|apply IH].
Qed.
Theorem Open_pages zr :
  match Open (Some zr) with
  | Ok b => Pages b ≠ [] ∧ entry <$> Pages b = filter page_entry (sort_entries zr) ∧ StronglySorted before (entry <$> Pages b) ∧
      Forall fine zr ∧ (total_size zr ≤ maxTotalBytes)%N ∧ ∀ i p, Pages b !! i = Some p → PName p = rand_text i ++ Epub.Ext (EName (entry p))
  | Err _ => True
  end.
Proof.
  unfold Open. case_decide; [done|]. destruct (check_entries 0 zr) eqn:C; [done|]. apply check_spec in C as [Hf Ht]; [|done].
  pose proof (collect_pages (sort_entries zr) (mkBook [] [] [] [])) as K. destruct (collect _ _) as [b|]; [|done]. case_decide; [done|].
  destruct K as [E Hp]. simpl in E. split_and!; [done|done| |done|done|].
  - rewrite E. apply filter_sorted, sort_sorted.
  - apply Hp. intros i p Hi. done.
Qed.
(** A page that is read is within the limits, of bytes and of pixels. *)
Theorem Read_bounded p :
  match Read p with
  | Ok data => (N.of_nat (length data) ≤ maxEntryBytes)%N ∧ ∃ w h, decode_config data = Some (w, h) ∧ (0 < w ∧ 0 < h ∧ w * h ≤ maxPixels)%Z
  | Err _ => True
  end.
Proof.
  unfold Read, readEntry. destruct (EOpen (entry p)) as [[data failure]|]; [|done]. destruct (N.ltb_spec maxEntryBytes (N.of_nat (length data))); [done|].
  destruct failure; [done|]. destruct (decode_config data) as [[w h]|] eqn:D; [|done]. destruct (Z.leb_spec w 0); [done|]. destruct (Z.leb_spec h 0); [done|].
  destruct (Z.ltb_spec (maxPixels / h) w); [done|]. split; [done|]. exists w, h. split_and!; [done..|]. simpl.
  pose proof (Z.mul_div_le maxPixels h). nia.
Qed.
End open.
End Cbz.

(** ** What the handlers do with a file *)
Record importForm := mkForm {
  (** name, content type and data of the file, if there is one *)
  FormFile : option (bytes * bytes * bytes); FormTitle : bytes; FormFolder : bytes; FormStrategy : content }.
Class ImportEnv := {
  import_form : content → option importForm;
  ParseMediaType : bytes → option bytes;
  zip_epub : bytes → option (list Epub.File);
  zip_cbz : bytes → option (list Cbz.Entry);
  IsLetter : Z → bool;
  (** the date that [time.Parse] reads with a layout *)
  time_Parse : bytes → bytes → option Z;
  (** whether an error is an [UnsupportedEncodingError] *)
  unsupported_encoding : error → bool;
  (** what making a temporary directory fails with, and writing a page to it
      and reading it back *)
  mkdir_temp : option error;
  write_temp : nat → option error;
  read_temp : nat → option error;
  conf_strategy : option EpubText.Strategy;
  (** a file of the machine: whether it is a regular one, and its data *)
  stat_local : bytes → result error bool;
  open_local : bytes → result error bytes;
}.

Module Imports.
Import Json ShelfUtil Atomic BookMeta Book FolderMeta Shelf ShelfBook Listing Visibility Http Server.

(** ** [src/internal/util/detect_lang.go] *)
Definition hantChars : bytes := str "後臺萬與為國會時來對開關個這裏著麼說見體點學實發經過還當".
Definition hansChars : bytes := str "后台万与为国会时来对开关个这里着么说见体点学实发经过还当".
Definition runes_of_text (s : bytes) : list Z := (λ r, (Utf8.decode_rune r).1) <$> Utf8.runes s.
Definition maxRunes : nat := Z.to_nat 20000.
Definition isCJK (r : Z) : bool := ((0x4E00 <=? r) && (r <=? 0x9FFF))%Z.
Definition ContainsRune (s : bytes) (r : Z) : bool := bool_decide (r ∈ runes_of_text s).
Definition count (test : Z → bool) (l : list Z) : nat := length (List.filter test l).

Section imports.
Context `{UnicodeCase, TimeText, Machine, Digest, ShelfEnv, AppEnv, Images, SourceInput, ImportEnv}.
Context `{EpubText.Scripts, Epub.MapRange, Epub.Markup, Cbz.CbzEnv}.
Definition DetectLanguage (text : bytes) : bytes :=
  let runes := take maxRunes (runes_of_text text) in
  let cjk := count isCJK runes in
  let latin := count (λ r, negb (isCJK r) && IsLetter r) runes in
  let hantScore := count (λ r, isCJK r && ContainsRune hantChars r) runes in
  let hansScore := count (λ r, isCJK r && ContainsRune hansChars r) runes in
  let total := length runes in
  if decide (total = 0) then [] else
  if decide (latin < cjk ∧ total `div` 20 < cjk) then
    if decide (hansScore < hantScore) then str "zh-Hant" else
    if decide (hantScore < hansScore) then str "zh-Hans" else str "zh-Hant"
  else if decide (cjk < latin ∧ total `div` 20 < latin) then str "en" else [].
(** [func detectBookLang] *)
Definition detectBookLang (b : Book) : M world bytes :=
  r ← try (source ← GetSource b (CurrentSource (meta b)); Source.ReadContent source);
  mret (match r with Ok text => DetectLanguage text | Err _ => [] end).

(** ** Names *)
Definition str_newline : bytes := [EpubText.newline].
Definition filepath_Ext : bytes → bytes := Epub.Ext.
(** [func parseImportFolderParts] *)
Definition parseImportFolderParts (rawFolder : bytes) : FolderPath :=
  let trimmed := EpubText.Trim [str "/"] (TrimSpace rawFolder) in
  List.filter (λ p, negb (bool_decide (p = []))) (TrimSpace <$> Split trimmed "/"%char).
Definition isSupportedImportExt (ext : bytes) : bool := bool_decide (ext ∈ [str ".txt"; str ".md"; str ".epub"; str ".cbz"]).
Definition isEPUBExt (ext : bytes) : bool := bool_decide (ext = str ".epub").
Definition isCBZExt (ext : bytes) : bool := FolderMeta.EqualFold ext (str ".cbz").
(** [func deriveTitleFromFilename], [bookFormatFromFilename] *)
Definition deriveTitleFromFilename (filename : bytes) : bytes :=
  let base := DavClient.Base filename in
  let title := TrimSuffix base (filepath_Ext base) in
  if decide (title = []) then base else title.
Definition bookFormatFromFilename (filename : bytes) : bytes :=
  if decide (lower (filepath_Ext filename) = str ".md") then BookFormatMarkdown else BookFormatText.
(** [func validateImportFileHeader]: whether the upload is refused *)
Definition accepts_type (contentType : bytes) (missing : bool) (types : list string) : bool :=
  if decide (contentType = []) then missing else
  match ParseMediaType contentType with
  | Some mediaType => existsb (λ t, bool_decide (lower mediaType = str t)) types
  | None => false
  end.
Definition validateImportFileHeader (filename contentType : bytes) : bool :=
  let ext := lower (filepath_Ext (TrimSpace filename)) in
  let contentType := TrimSpace contentType in
  if negb (isSupportedImportExt ext) then false else
  if decide (ext = str ".cbz") then
    accepts_type contentType true ["application/vnd.comicbook+zip"; "application/x-cbz"; "application/zip"; "application/octet-stream"]%string
  else if decide (ext = str ".epub") then
    accepts_type contentType true ["application/epub+zip"; "application/zip"; "application/octet-stream"]%string
  else if decide (ext = str ".txt") then accepts_type contentType false ["text/plain"]%string
  else accepts_type contentType true ["text/plain"; "text/markdown"; "text/x-markdown"; "application/octet-stream"]%string.

(** ** A text: [func newPlainTextBook] *)
Definition with_text (format language : bytes) (m : BookMeta) : BookMeta :=
  mkBookMeta (SchemaVersion m) (ID m) (Title m) format (Tags m) (Identifiers m) (Cover m) (Authors m) language (Comments m)
    (Star m) (NSFW m) (CreatedAt m) (UpdatedAt m) (PublishedAt m) (CurrentSource m).
Definition init_text (text : bytes) (filename : bytes) (b : Book) : M world Book :=
  let format := bookFormatFromFilename filename in
  source ← NewSourceWithOptions b (Some (mkReader text None)) (Source.mkNewSourceOptions format [] []);
  b ← SetCurrentSource b (source_id source);
  language ← detectBookLang b;
  SetMeta b (with_text format language (meta b)).
Definition newPlainTextBook (text : bytes) (folderParts : FolderPath) (title filename : bytes) : M Shelf Book :=
  NewBookWith folderParts title (Some (init_text text filename)).

(** Input that cannot be imported, told apart from what the shelf answers
    ([epubInputError], [cbzInputError]) *)
Inductive importError := InputError (e : error) | ShelfError (e : error).

(** ** A comic book: [func importCBZ] *)
(** The pages written to the temporary directory, with their data *)
Fixpoint spool_pages (i : nat) (pages : list Cbz.Page) : result importError (list (bytes * bytes)) :=
  match pages with
  | [] => Ok []
  | p :: pages =>
      match Cbz.Read p with
      | Err e => Err (InputError e)
      | Ok image =>
          match write_temp i with
          | Some e => Err (ShelfError e)
          | None => match spool_pages (S i) pages with Ok l => Ok ((Cbz.PName p, image) :: l) | Err e => Err e end
          end
      end
  end.
Definition cbz_title (title filename parsed : bytes) : bytes :=
  let title := TrimSpace title in
  if bool_decide (title = []) || FolderMeta.EqualFold title filename || FolderMeta.EqualFold title (deriveTitleFromFilename filename)
  then (if decide (parsed = []) then deriveTitleFromFilename filename else parsed) else title.
Fixpoint write_pages (b : Book) (source : Source.Source) (i : nat) (pages : list (bytes * bytes)) : M world Book :=
  match pages with
  | [] => mret b
  | (name, image) :: pages =>
      guard_err (bool_decide (is_Some (read_temp i))) (default EIO (read_temp i));;
      Source.WriteAsset source name image;;
      b ← (if decide (i = 0) then SetCover b image (filepath_Ext name) else mret b);
      write_pages b source (S i) pages
  end.
Definition with_authors (authors : list bytes) (m : BookMeta) : BookMeta :=
  mkBookMeta (SchemaVersion m) (ID m) (Title m) (Format m) (Tags m) (Identifiers m) (Cover m) authors (Language m) (Comments m)
    (Star m) (NSFW m) (CreatedAt m) (UpdatedAt m) (PublishedAt m) (CurrentSource m).
Definition init_cbz (parsed : Cbz.Book) (pages : list (bytes * bytes)) (b : Book) : M world Book :=
  source ← NewSourceWithOptions b (Some (mkReader (Join (fst <$> pages) str_newline ++ str_newline) None))
    (Source.mkNewSourceOptions BookFormatImages [] (Cbz.Direction parsed));
  b ← write_pages b source 0 pages;
  b ← SetCurrentSource b (source_id source);
  SetMeta b (with_authors (Cbz.Authors parsed) (meta b)).
Definition on_input {A B : Type} (r : result error A) (k : A → M Shelf (result importError B)) : M Shelf (result importError B) :=
  match r with Ok a => k a | Err e => mret (Err (InputError e)) end.
Definition on_shelf_book (m : M Shelf Book) : M Shelf (result importError Book) :=
  r ← try m; mret (match r with Ok b => Ok b | Err e => Err (ShelfError e) end).
Definition importCBZ (data filename title : bytes) (folders : FolderPath) : M Shelf (result importError Book) :=
  on_input (Cbz.Open (zip_cbz data)) (λ parsed,
    match mkdir_temp with
    | Some e => mret (Err (ShelfError e))
    | None =>
        match spool_pages 0 (Cbz.Pages parsed) with
        | Err e => mret (Err e)
        | Ok pages => on_shelf_book (NewBookWith folders (cbz_title title filename (Cbz.Title parsed)) (Some (init_cbz parsed pages)))
        end
    end).

(** ** An EPUB: [func importEPUB] *)
(** [func parseEPUBDate] *)
Definition epubDateLayouts : list bytes := [str "2006-01-02T15:04:05"; str "2006-01-02"; str "2006-01"; str "2006"].
Definition parseEPUBDate (raw : bytes) : option Z :=
  let raw := TrimSpace raw in
  if decide (raw = []) then None else
  match parse_rfc3339_date raw with Some t => Some t | None => head (omap (λ layout, time_Parse layout raw) epubDateLayouts) end.
(** [func titleLooksLikeFilename], [epubBookTitle], [epubImportComment] *)
Definition titleLooksLikeFilename (title filename : bytes) : bool :=
  bool_decide (title = []) || FolderMeta.EqualFold title filename || FolderMeta.EqualFold title (TrimSuffix filename (str ".epub")) ||
  FolderMeta.EqualFold title (TrimSuffix filename (str ".EPUB")).
Definition epubBookTitle (supplied filename parsed : bytes) : bytes :=
  let supplied := TrimSpace supplied in
  if negb (titleLooksLikeFilename supplied filename) then supplied else
  if decide (TrimSpace parsed ≠ []) then TrimSpace parsed else
  if decide (supplied ≠ []) then supplied else filename.
Definition epubImportComment (dropped : nat) : bytes :=
  match dropped with
  | 0 => []
  | 1 => str "Converted from EPUB. 1 embedded image was dropped."
  | n => str "Converted from EPUB. " ++ Itoa (Z.of_nat n) ++ str " embedded images were dropped."
  end.
(** [func writeEPUBImagesBestEffort], [setEPUBCoverBestEffort] *)
Fixpoint writeEPUBImagesBestEffort (source : Source.Source) (images : list Epub.Image) : M world unit :=
  match images with
  | [] => mret tt
  | img :: images => ignore (Source.WriteAsset source (Epub.IName img) (Epub.IData img));; writeEPUBImagesBestEffort source images
  end.
Definition epub_cover (toJPG : bool) (data ext : bytes) : option (bytes * bytes) :=
  if decide (data = []) then None else
  if toJPG || negb (Source.IsSupportedImageExt ext) then
    match AnyToJPG data with Ok converted => Some (converted, str ".jpg") | Err _ => None end
  else Some (data, ext).
Definition setEPUBCoverBestEffort (toJPG : bool) (b : Book) (parsed : Epub.Book) : M world Book :=
  match epub_cover toJPG (Epub.Cover parsed) (Epub.CoverExt parsed) with
  | None => mret b
  | Some (data, ext) => r ← try (SetCover b data ext); mret (match r with Ok b' => b' | Err _ => b end)
  end.
Definition epub_meta (parsed : Epub.Book) (format language : bytes) (m : BookMeta) : BookMeta :=
  mkBookMeta (SchemaVersion m) (ID m) (Title m) format (Tags m) (Epub.BookIdentifiers parsed) (Cover m) (Epub.Authors parsed) language
    (Epub.Description parsed) (Star m) (NSFW m) (CreatedAt m) (UpdatedAt m) (default (PublishedAt m) (parseEPUBDate (Epub.PublishedAt parsed))) (CurrentSource m).
(** [func initEPUBBook]; [toJPG] is the setting *)
Definition initEPUBBook (toJPG : bool) (parsed : Epub.Book) (text format : bytes) (b : Book) : M world Book :=
  source ← NewSourceWithOptions b (Some (mkReader text None)) (Source.mkNewSourceOptions format [] []);
  writeEPUBImagesBestEffort source (Epub.Images parsed);;
  b ← SetCurrentSource b (source_id source);
  let comment := epubImportComment (Epub.DroppedImages parsed) in
  (if decide (comment = []) then mret tt else _ ← Source.UpdateComment source comment; mret tt);;
  b ← setEPUBCoverBestEffort toJPG b parsed;
  language ← (if decide (TrimSpace (Epub.Language parsed) = []) then detectBookLang b else mret (TrimSpace (Epub.Language parsed)));
  SetMeta b (epub_meta parsed format language (meta b)).
Definition text_of_book (b : Epub.Book) : EpubText.BookText :=
  EpubText.mkBookText (Epub.Title b) (Epub.Authors b) (Epub.Language b) (Epub.Description b) (Epub.Chapters b).
Definition parse_epub (data : bytes) (opts : EpubText.Options) : result error Epub.Book :=
  match zip_epub data with None => Err (Msg "not a readable epub archive") | Some zr => Epub.Parse zr opts end.
Definition importEPUB (toJPG : bool) (data filename suppliedTitle : bytes) (folderParts : FolderPath) (strategy : EpubText.Strategy) :
    M Shelf (result importError Book) :=
  on_input (parse_epub data (EpubText.ParseOptions strategy)) (λ parsed,
    let '(text, format) := EpubText.Render (text_of_book parsed) strategy in
    on_shelf_book (NewBookWith folderParts (epubBookTitle suppliedTitle filename (Epub.Title parsed)) (Some (initEPUBBook toJPG parsed text format)))).

(** ** The strategy of the layout *)
Definition strategy_names : list bytes := [str "preset"; str "include_description"; str "keep_images"].
Definition dec_strategy (j : json) : option EpubText.Strategy :=
  o ← dec_object j;
  preset ← dec_string (member (str "preset") o);
  description ← dec_bool (member (str "include_description") o);
  keep ← ServerBooks.dec_opt dec_bool (member (str "keep_images") o);
  Some (EpubText.mkStrategy preset description keep).
(** [func parseImportStrategy], [inheritOptionalImportFields] *)
Definition inheritOptionalImportFields (strategy fallback : EpubText.Strategy) : EpubText.Strategy :=
  EpubText.mkStrategy (EpubText.Preset strategy) (EpubText.IncludeDescription strategy)
    (match EpubText.SKeepImages strategy with Some k => Some k | None => EpubText.SKeepImages fallback end).
Definition parseImportStrategy (raw : content) (fallback : EpubText.Strategy) : option EpubText.Strategy :=
  match raw with
  | Raw s => if decide (TrimSpace s = []) then Some fallback else None
  | _ =>
      match decodeRequestJSON strategy_names dec_strategy raw with
      | None => None
      | Some strategy => match EpubText.Validate strategy with Some _ => None | None => Some (inheritOptionalImportFields strategy fallback) end
      end
  end.
(** [func (s *settings) epubImportStrategy] *)
Definition settingKeyEPUBImportStrategy : bytes := str "epub_import_strategy".
Definition usable_strategy (s : option EpubText.Strategy) : option EpubText.Strategy :=
  match s with
  | Some s => match EpubText.Validate (EpubText.Normalized s) with None => Some (EpubText.Normalized s) | Some _ => None end
  | None => None
  end.
Definition epubImportStrategy : H EpubText.Strategy :=
  r ← GetSetting settingKeyEPUBImportStrategy;
  let stored := match r with Ok (Some c) => usable_strategy (unmarshal dec_strategy c) | _ => None end in
  mret (match stored, usable_strategy conf_strategy with
        | Some s, _ | None, Some s => s
        | None, None => EpubText.Normalized EpubText.DefaultStrategy
        end).

(** ** [func (h *importHandlers) importBook] *)
Definition writeImportedBook (shelfID : bytes) (b : Book) (folderParts : FolderPath) : handler :=
  resp ← newBookResponse shelfID (meta b) folderParts 0;
  mret (writeJSON StatusCreated (PBook resp)).
Definition write_imported (shelfID : bytes) (folderParts : FolderPath) (r : result importError Book) : handler :=
  match r with
  | Ok b => writeImportedBook shelfID b folderParts
  | Err (InputError _) => mret (http_Error StatusBadRequest)
  | Err (ShelfError e) => mret (writeErr e)
  end.
Definition import_file (shelfID : bytes) (form : importForm) (filename data : bytes) : handler :=
  let folderParts := parseImportFolderParts (FormFolder form) in
  if isEPUBExt (lower (filepath_Ext filename)) then
    fallback ← epubImportStrategy;
    match parseImportStrategy (FormStrategy form) fallback with
    | None => mret (http_Error StatusBadRequest)
    | Some strategy =>
        toJPG ← coverToJPG;
        r ← on_shelf shelfID (importEPUB toJPG data filename (FormTitle form) folderParts strategy);
        match r with Ok r => write_imported shelfID folderParts r | Err e => mret (writeErr e) end
    end
  else if isCBZExt (filepath_Ext filename) then
    r ← on_shelf shelfID (importCBZ data filename (FormTitle form) folderParts);
    match r with Ok r => write_imported shelfID folderParts r | Err e => mret (writeErr e) end
  else
    match ReEncodeToUTF8 data with
    | Err e => mret (http_Error (if unsupported_encoding e then StatusBadRequest else StatusInternalServerError))
    | Ok text =>
        let title := if decide (FormTitle form = []) then filename else FormTitle form in
        r ← on_shelf shelfID (newPlainTextBook text folderParts title filename);
        match r with Ok b => writeImportedBook shelfID b folderParts | Err e => mret (writeErr e) end
    end.
Definition importBook (r : Request) (shelf_id : bytes) : handler :=
  shelfID ← resolveShelf shelf_id;
  match RBody r with
  | TooLarge => mret (http_Error StatusRequestEntityTooLarge)
  | Broken => mret (http_Error StatusBadRequest)
  | Body c =>
      match import_form c with
      | None => mret (http_Error StatusBadRequest)
      | Some form =>
          match FormFile form with
          | None => mret (http_Error StatusBadRequest)
          | Some (filename, contentType, data) =>
              if validateImportFileHeader filename contentType then import_file shelfID form filename data
              else mret (http_Error StatusBadRequest)
          end
      end
  end.

(** ** [func validateLocalImportPath], [func (h *importHandlers) fromLocalPath] *)
Definition validateLocalImportPath (localPath : bytes) : result error bytes :=
  let cleanPath := CacheFile.Clean (TrimSpace localPath) in
  if decide (cleanPath = str ".") then Err (Msg "book file path is required") else
  if negb (isSupportedImportExt (lower (filepath_Ext cleanPath))) then Err (Msg "book file must be a .txt, .md, .epub or .cbz file") else
  match stat_local cleanPath with
  | Err e => Err e
  | Ok regular => if negb regular then Err (Msg "book file must be a regular file") else Ok cleanPath
  end.
Definition flat_import (r : result error (result importError Book)) : result error Book :=
  match r with
  | Ok (Ok b) => Ok b
  | Ok (Err (InputError e)) | Ok (Err (ShelfError e)) | Err e => Err e
  end.
Definition fromLocalPath (shelfID localPath : bytes) (folderParts : FolderPath) : H (result error Book) := λ a,
  match validateLocalImportPath localPath with
  | Err e => (Ok (Err e), a)
  | Ok cleanPath =>
      let target := TrimSpace shelfID in
      if decide (target = []) then (Ok (Err (Msg "shelf ID cannot be empty")), a) else
      match shelves a !! target with
      | None => (Ok (Err (Msg "shelf not found")), a)
      | Some _ =>
          match open_local cleanPath with
          | Err e => (Ok (Err e), a)
          | Ok data =>
              (if isEPUBExt (lower (filepath_Ext cleanPath)) then
                 strategy ← epubImportStrategy;
                 toJPG ← coverToJPG;
                 r ← on_shelf target (importEPUB toJPG data (DavClient.Base cleanPath) [] folderParts strategy);
                 mret (flat_import r)
               else if isCBZExt (filepath_Ext cleanPath) then
                 r ← on_shelf target (importCBZ data (DavClient.Base cleanPath) [] folderParts);
                 mret (flat_import r)
               else
                 match ReEncodeToUTF8 data with
                 | Err e => mret (Err e)
                 | Ok text => on_shelf target (newPlainTextBook text folderParts (deriveTitleFromFilename cleanPath) cleanPath)
                 end) a
          end
      end
  end.
End imports.

(** ** Imports work inside the package they are given *)
Section frames.
Context `{UnicodeCase, TimeText, Machine, Digest}.
Definition inside {A : Type} (p : path) (m : M world A) : Prop := keeps (under p) (λ _, True) m.
(** [filepath.Ext] of any name has no separator. *)
Lemma Ext_no_slash name : "/"%char ∉ Epub.Ext name.
Proof.
  unfold Epub.Ext. assert (∀ w, "/"%char ∉ w → "/"%char ∉ Source.Ext w) as K.
  { induction w as [|c w IH]; simpl; [done|]. intros Hn. case_decide; [done|]. apply IH. set_solver. }
  destruct (last (Split name "/"%char)) as [w|] eqn:E; [|apply K, not_elem_of_nil]. apply K.
  pose proof (Split_no_sep name "/"%char) as F. rewrite Forall_forall in F. apply F. by apply last_Some_elem_of.
Qed.
Lemma inside_app p (r : path) q : under (p ++ r) q → under p q.
Proof. intros [k ->]. exists (r ++ k). by rewrite app_assoc. Qed.
Lemma temp_inside p r f q : temp_of ((p ++ r) ++ [f]) q → under p q.
Proof. intros Hq. apply temp_of_under in Hq as [Hq _]. by eapply inside_app. Qed.
Lemma inside_file p r f data : f ≠ [] → inside p (WriteFileAtomic ((p ++ r) ++ [f]) data).
Proof.
  intros Hf. destruct (Source.file_path_ok (p ++ r) f Hf). apply keeps_WriteFileAtomic; [done..| |intros q; apply temp_inside].
  rewrite <-app_assoc. by eexists.
Qed.
Lemma inside_here p f data : f ≠ [] → inside p (WriteFileAtomic (p ++ [f]) data).
Proof. intros Hf. rewrite <-(app_nil_r p) at 2. by apply inside_file. Qed.
Lemma inside_deeper {A : Type} p r (m : M world A) : inside (p ++ r) m → inside p m.
Proof. intros Hm. eapply keeps_mono; [|done|exact Hm]. intros q. apply inside_app. Qed.
Lemma keeps_WriteAsset src name data : inside (Source.folderPath src) (Source.WriteAsset src name data).
Proof.
  unfold inside, Source.WriteAsset, Source.EnsureWritable, Source.writeRoot.
  apply keeps_bind; [frame|intros _]. apply keeps_bind; [frame|intros _].
  apply (keeps_bind_returns _ _ (λ p, ∃ f, f ≠ [] ∧ p = Source.assets_path src ++ [f])); [frame| |].
  - apply returns_of_result. intros p. unfold Source.AssetPath. destruct (Source.validateAssetName name) as [[]|] eqn:V; [|done]. simpl. intros [= <-].
    unfold Source.validateAssetName in V. destruct (HasPrefix name _); [done|]. destruct (ValidatePathSegment name) as [[]|] eqn:P; [|done].
    apply ValidatePathSegment_ok in P as [P _]. apply ValidateFolderSegment_ok in P as [P _]. exists name. split; [apply P|]. by apply pjoin_segment.
  - intros p (f & Hf & ->). apply keeps_bind; [by apply keeps_MkdirAll|]. intros _. by apply inside_file.
Qed.
Lemma keeps_UpdateComment src comment : inside (Source.folderPath src) (Source.UpdateComment src comment).
Proof. unfold inside, Source.UpdateComment, Source.EnsureWritable, Source.writeRoot, Source.writebackMeta. frame. by apply inside_here. Qed.
Lemma keeps_setMeta_inside b m : inside (folderPath b) (setMeta b m).
Proof. eapply keeps_mono; [|done|apply BookSpec.keeps_setMeta]. intros q (n & -> & _). by eexists. Qed.
Lemma keeps_SetMeta_inside b m : inside (folderPath b) (SetMeta b m).
Proof. unfold inside, SetMeta. apply keeps_bind; [frame|]. intros _. apply keeps_setMeta_inside. Qed.
(** What a book that is made has while its package is filled: its path, and
    its cover in the metadata *)
Definition at_with (p : path) (cover : bytes) (b : Book) : Prop := folderPath b = p ∧ Cover (meta b) = cover.
Lemma returns_setMeta b m : returns (at_with (folderPath b) (Cover m)) (setMeta b m).
Proof. unfold setMeta. repeat (eapply returns_bind; [apply returns_any|intros ? _]). by apply returns_ret. Qed.
Lemma returns_SetMeta b m : returns (at_with (folderPath b) (Cover m)) (SetMeta b m).
Proof. unfold SetMeta. eapply returns_bind; [apply returns_any|intros _ _]. apply returns_setMeta. Qed.
Lemma keeps_SetCover b data ext : "/"%char ∉ ext → Cover (meta b) = [] → inside (folderPath b) (SetCover b data ext).
Proof.
  intros He Hc. unfold inside, SetCover, EnsureWritable, Book.writeRoot. apply keeps_bind; [frame|intros _]. apply keeps_bind; [frame|intros _].
  assert (segment (str "cover" ++ ext)) as Hs.
  { split_and!; [done..|]. intros Hin. apply elem_of_app in Hin as [Hin|Hin]; [|done]. revert Hin. by eapply bool_decide_eq_true_1; vm_compute. }
  cbv zeta. rewrite pjoin_segment by done. apply keeps_bind; [by apply inside_here|intros _].
  apply keeps_bind; [apply keeps_SetMeta_inside|]. intros b'. rewrite decide_False by (rewrite Hc; naive_solver). frame.
Qed.
Lemma returns_SetCover b data ext : returns (λ b', folderPath b' = folderPath b) (SetCover b data ext).
Proof.
  unfold SetCover. do 3 (eapply returns_bind; [apply returns_any|intros ? _]). eapply returns_bind; [apply returns_SetMeta|]. intros b' [Hb _].
  eapply returns_bind; [apply returns_any|intros ? _]. by apply returns_ret.
Qed.
Lemma keeps_SetCurrentSource b sid : inside (folderPath b) (SetCurrentSource b sid).
Proof.
  unfold inside, SetCurrentSource, EnsureWritable. apply keeps_bind; [frame|intros _]. apply keeps_bind; [apply ServerSpec.keeps_GetSource|intros source].
  eapply keeps_bind_returns; [apply keeps_setMeta_inside|apply returns_setMeta|]. intros b' [Hb _]. apply keeps_bind; [|frame]. apply keeps_ignore.
  eapply keeps_mono; [|done|apply BookSpec.keeps_hint]. intros q (f & -> & _). rewrite Hb. by eexists.
Qed.
Lemma returns_SetCurrentSource b sid : returns (at_with (folderPath b) (Cover (meta b))) (SetCurrentSource b sid).
Proof.
  unfold SetCurrentSource. eapply returns_bind; [apply returns_any|intros ? _]. eapply returns_bind; [apply returns_any|intros source _].
  eapply returns_bind; [apply returns_setMeta|]. intros b' [Hb Hc]. eapply returns_bind; [apply returns_any|intros ? _]. apply returns_ret.
  split; [done|]. rewrite Hc. unfold mirrorSourceFormatIntoBookMeta. by case_decide.
Qed.
Lemma keeps_freeSourceID P D b base : keeps P D (freeSourceID b base).
Proof.
  unfold freeSourceID. apply keeps_bind; [frame|]. intros n. generalize 1%Z as i. generalize base at 2 as sid. induction (S n) as [|m IH]; intros sid i; simpl; frame.
Qed.
Lemma keeps_NewSourceWithOptions b src opts : inside (folderPath b) (NewSourceWithOptions b src opts).
Proof.
  unfold inside, NewSourceWithOptions, EnsureWritable, Book.writeRoot. do 3 (apply keeps_bind; [frame|intros _]). apply keeps_bind; [frame|intros t].
  apply keeps_bind; [apply keeps_freeSourceID|intros sid]. cbv zeta. apply keeps_bind; [frame|intros temp].
  assert (∀ n q, under (sources_path (folderPath b) ++ [n]) q → under (folderPath b) q) as Hu.
  { intros n q Hq. unfold sources_path in Hq. rewrite <-app_assoc in Hq. by eapply inside_app. }
  apply keeps_deferred; [|apply keeps_RemoveAll; intros q; apply Hu]. apply keeps_bind.
  - eapply keeps_mono; [| |apply BookSpec.keeps_createSource]; [intros q; apply Hu|done].
  - intros src'. apply keeps_bind; [apply keeps_Rename; intros q; apply Hu|frame].
Qed.
Lemma returns_NewSourceWithOptions b src opts : returns (λ s, under (folderPath b) (Source.folderPath s)) (NewSourceWithOptions b src opts).
Proof.
  unfold NewSourceWithOptions. do 6 (eapply returns_bind; [apply returns_any|intros ? _]). apply returns_deferred.
  do 2 (eapply returns_bind; [apply returns_any|intros ? _]). apply returns_ret. simpl. unfold sources_path. rewrite <-app_assoc. by eexists.
Qed.
End frames.

Import ShelfInv BookMoveSpec.
Section safe.
Context `{UnicodeCase, TimeText, Machine, Digest, ShelfEnv, AppEnv, Images, SourceInput, ImportEnv}.
Context `{EpubText.Scripts, Epub.MapRange, Epub.Markup, Cbz.CbzEnv}.
(** A slash has no other case. *)
Definition slash_kept : Prop := ∀ s, "/"%char ∈ s → "/"%char ∈ lower s.

Lemma keeps_detectBookLang P D b : keeps P D (detectBookLang b).
Proof. unfold detectBookLang, Source.ReadContent. frame. apply ServerSpec.keeps_GetSource. Qed.
Lemma init_text_inside text filename : init_inside (Some (init_text text filename)).
Proof.
  intros f b [= <-] Hc. unfold init_text. cbv zeta. apply keeps_bind; [apply keeps_NewSourceWithOptions|intros source].
  eapply keeps_bind_returns; [apply keeps_SetCurrentSource|apply returns_SetCurrentSource|]. intros b' [Hb _].
  apply keeps_bind; [apply keeps_detectBookLang|intros language]. rewrite <-Hb. apply keeps_SetMeta_inside.
Qed.
(** The first page becomes the cover, the others leave the book as it is. *)
Lemma write_pages_inside source p : under p (Source.folderPath source) → ∀ pages i b,
  folderPath b = p → (i = 0 → Cover (meta b) = []) →
  keeps (under p) (λ _, True) (write_pages b source i pages) ∧ returns (λ b', folderPath b' = p) (write_pages b source i pages).
Proof.
  intros [k Hk] pages. induction pages as [|[name image] pages IH]; intros i b Hb Hc; cbn [write_pages]; [by split; [frame|apply returns_ret]|].
  assert (keeps (under p) (λ _, True) (Source.WriteAsset source name image)) as Kw.
  { eapply keeps_mono; [|done|apply keeps_WriteAsset]. intros q Hq. rewrite Hk in Hq. by eapply inside_app. }
  assert (keeps (under p) (λ _, True) (if decide (i = 0) then SetCover b image (filepath_Ext name) else mret b) ∧
    returns (λ b', folderPath b' = p) (if decide (i = 0) then SetCover b image (filepath_Ext name) else mret b)) as [Kc Rc].
  { case_decide as Hi; [|split; [frame|by apply returns_ret]]. rewrite <-Hb. split; [apply keeps_SetCover; [apply Ext_no_slash|auto]|apply returns_SetCover]. }
  split.
  - apply keeps_bind; [frame|intros _]. apply keeps_bind; [done|intros _]. eapply keeps_bind_returns; [done|exact Rc|]. intros b' Hb'. by apply (IH (S i)).
  - do 2 (eapply returns_bind; [apply returns_any|intros ? _]). eapply returns_bind; [exact Rc|]. intros b' Hb'. by apply (IH (S i)).
Qed.
Lemma init_cbz_inside parsed pages : init_inside (Some (init_cbz parsed pages)).
Proof.
  intros f b [= <-] Hc. unfold init_cbz. eapply keeps_bind_returns; [apply keeps_NewSourceWithOptions|apply returns_NewSourceWithOptions|]. intros source Hs.
  destruct (write_pages_inside source (folderPath b) Hs pages 0 b eq_refl (λ _, Hc)) as [K R].
  eapply keeps_bind_returns; [exact K|exact R|]. intros b1 H1'. rewrite <-H1'.
  eapply keeps_bind_returns; [apply keeps_SetCurrentSource|apply returns_SetCurrentSource|]. intros b2 [H2' _]. rewrite <-H2'. apply keeps_SetMeta_inside.
Qed.
Lemma epub_images_inside source p images : under p (Source.folderPath source) → keeps (under p) (λ _, True) (writeEPUBImagesBestEffort source images).
Proof.
  intros [k Hk]. induction images as [|img l IH]; simpl; [frame|]. apply keeps_bind; [|done]. apply keeps_ignore.
  eapply keeps_mono; [|done|apply keeps_WriteAsset]. intros q Hq. rewrite Hk in Hq. by eapply inside_app.
Qed.
Lemma epub_cover_inside toJPG parsed b : slash_kept → Cover (meta b) = [] →
  keeps (under (folderPath b)) (λ _, True) (setEPUBCoverBestEffort toJPG b parsed) ∧ returns (λ b', folderPath b' = folderPath b) (setEPUBCoverBestEffort toJPG b parsed).
Proof.
  intros Hl Hc. unfold setEPUBCoverBestEffort. destruct (epub_cover _ _ _) as [[data ext]|] eqn:E; [|by split; [frame|apply returns_ret]].
  assert ("/"%char ∉ ext) as He.
  { unfold epub_cover in E. case_decide; [done|]. destruct (toJPG || negb _) eqn:J.
    - destruct (AnyToJPG _); [|done]. injection E as _ <-. by eapply bool_decide_eq_true_1; vm_compute.
    - injection E as _ <-. apply orb_false_iff in J as [_ J]. apply negb_false_iff, bool_decide_eq_true in J. intros Hin. apply Hl in Hin.
      assert (Forall (λ ext, "/"%char ∉ ext) Source.imageExtensions) as F by (repeat constructor; by eapply bool_decide_eq_true_1; vm_compute).
      rewrite Forall_forall in F. by eapply F. }
  split.
  - apply keeps_bind; [|intros r; frame]. apply keeps_try. by apply keeps_SetCover.
  - eapply (returns_bind (λ r, match r with Ok b' => folderPath b' = folderPath b | Err _ => True end)).
    + intros w r. pose proof (returns_SetCover b data ext w) as K. unfold try. destruct (SetCover b data ext w) as [[b'|e] w']; simpl; intros [= <-]; [by apply K|done].
    + intros [b'|e] Hr; by apply returns_ret.
Qed.
Lemma initEPUBBook_inside toJPG parsed text format : slash_kept → init_inside (Some (initEPUBBook toJPG parsed text format)).
Proof.
  intros Hl f b [= <-] Hc. unfold initEPUBBook. eapply keeps_bind_returns; [apply keeps_NewSourceWithOptions|apply returns_NewSourceWithOptions|]. intros source Hs.
  apply keeps_bind; [by apply epub_images_inside|intros _]. eapply keeps_bind_returns; [apply keeps_SetCurrentSource|apply returns_SetCurrentSource|]. intros b1 [Hb1 Hc1].
  cbv zeta. apply keeps_bind; [|intros _].
  { case_decide; [frame|]. apply keeps_bind; [|frame]. destruct Hs as [k Hk]. eapply keeps_mono; [|done|apply keeps_UpdateComment]. intros q Hq. rewrite Hk in Hq. by eapply inside_app. }
  rewrite Hc in Hc1. destruct (epub_cover_inside toJPG parsed b1 Hl Hc1) as [K R]. rewrite Hb1 in K, R. eapply keeps_bind_returns; [exact K|exact R|]. intros b2 Hb2.
  apply keeps_bind; [case_decide; [apply keeps_detectBookLang|frame]|intros language]. rewrite <-Hb2. apply keeps_SetMeta_inside.
Qed.

Lemma wp_on_shelf_book fs (m : M Shelf Book) s : wp m (λ r s', published fs (stree s) r (stree s')) s →
  wp (on_shelf_book m) (λ r s', published fs (stree s) (flat_import r) (stree s')) s.
Proof. unfold wp, on_shelf_book, mbind, M_bind, try. destruct (m s) as [[b|e] s']; simpl; done. Qed.
Lemma wp_import_none fs e s : wf_tree (stree s) → wp (mret (Err e)) (λ r s', published fs (stree s) (flat_import r) (stree s')) s.
Proof. intros Hw. unfold wp. simpl. destruct e; by apply published_err; [|apply outside_refl]. Qed.

(** Claim C11: an import loses and overwrites nothing. Whatever the file holds
    and whatever fails, everything outside [app/tmp] is still there as it
    was; a success returns a book of the target folder whose package was
    published, with its [book.json], at a path that was free. This holds for
    texts, EPUB files and comic books. *)
Theorem imports_add_a_book toJPG text data filename title fs strategy s :
  slug_plain → slash_kept → wf_tree (stree s) →
  wp (newPlainTextBook text fs title filename) (λ r s', published fs (stree s) r (stree s')) s ∧
  wp (importEPUB toJPG data filename title fs strategy) (λ r s', published fs (stree s) (flat_import r) (stree s')) s ∧
  wp (importCBZ data filename title fs) (λ r s', published fs (stree s) (flat_import r) (stree s')) s.
Proof.
  intros Hslug Hl Hw. split; [|split].
  - apply wp_NewBookWith; [done|apply init_text_inside|done].
  - unfold importEPUB, on_input. destruct (parse_epub _ _) as [parsed|e]; [|by apply wp_import_none]. destruct (EpubText.Render _ _) as [rtext format].
    apply wp_on_shelf_book, wp_NewBookWith; [done|by apply initEPUBBook_inside|done].
  - unfold importCBZ, on_input. destruct (Cbz.Open _) as [parsed|e]; [|by apply wp_import_none]. destruct mkdir_temp; [by apply wp_import_none|].
    destruct (spool_pages _ _) as [pages|e]; [|by apply wp_import_none]. apply wp_on_shelf_book, wp_NewBookWith; [done|apply init_cbz_inside|done].
Qed.

(** The language that is found is one a book can have. *)
Lemma DetectLanguage_valid text : ValidateBCP47 (DetectLanguage text) = true.
Proof. unfold DetectLanguage. repeat case_decide; by vm_compute. Qed.
End safe.

(** ** Imports that are carried out *)
Module example.
Import Sample Witnesses ShelfWitnesses HandlerWitnesses.
#[local] Existing Instance ShelfUtil.AsciiCase.
Lemma ascii_slash_kept : slash_kept.
Proof.
  intros s Hs. apply list_elem_of_split in Hs as (a & b & ->). unfold lower, map_runes.
  rewrite Utf8.runes_app_start, Utf8.runes_cons, fmap_app, concat_app, fmap_cons by done.
  apply elem_of_app. right. left.
Qed.
Definition package (language : string) : Epub.Markup := {|
  Epub.xml_container := @Epub.xml_container Epub.example.markup;
  Epub.xml_package _ := Some (Epub.mkPackage [str "The Book"] [str "A. Author"] [str language] [] [str "2020-01-02"] [] []
    [Epub.mkItem (str "c") (str "text/one.xhtml") (str "application/xhtml+xml") []] [] [str "c"]);
  Epub.xml_ncx _ := None;
  Epub.html_parse := @Epub.html_parse Epub.example.markup |}.
#[local] Instance images : Images := {| AnyToJPG b := Ok b; DecodeConfig _ := None |}.
#[local] Instance source_input : SourceInput :=
  {| ReEncodeToUTF8 b := Ok b; rand_Text n := Itoa (Z.of_nat n); Atoi _ := Some 0%Z; read_form _ := Err 400%Z |}.
#[local] Instance scripts : EpubText.Scripts := Epub.example.scripts.
#[local] Instance ranges : Epub.MapRange := Epub.example.forward.
#[local] Instance cbz_env : Cbz.CbzEnv := {|
  Cbz.comic_info _ := Some (str "Comic", str "Ann, Bob", str "YesAndRightToLeft"); Cbz.decode_config _ := Some (800, 600)%Z;
  Cbz.rand_text n := str "PAGE" ++ Itoa (Z.of_nat n) |}.
Definition page (name data : string) : Cbz.Entry := Cbz.mkEntry (str name) true false (N.of_nat (Stdlib.Strings.String.length data)) (Ok (str data, None)).
Definition comic : list Cbz.Entry :=
  [page "p10.jpg" "ten"; page "P2.png" "two"; page "ComicInfo.xml" "info"; page ".hidden.png" "no"; page "p1.jpg" "one"; page "notes.txt" "no"].
#[local] Instance import_env : ImportEnv := {|
  import_form _ := None; ParseMediaType s := Some s; zip_epub _ := Some Epub.example.archive; zip_cbz _ := Some comic; IsLetter r := (r <? 128)%Z;
  time_Parse _ _ := None; unsupported_encoding _ := false; mkdir_temp := None; write_temp _ := None; read_temp _ := None; conf_strategy := None;
  stat_local _ := Ok true; open_local _ := Ok [] |}.
Definition epub (language : string) : M Shelf (result importError Book) :=
  let _ : Epub.Markup := package language in importEPUB false [] (str "book.epub") [] [name_a] EpubText.DefaultStrategy.
Definition cbz : M Shelf (result importError Book) := importCBZ [] (str "comic.cbz") [] [name_a].
Definition shown (r : result error (result importError Book)) : result error (bytes * list bytes * bytes) :=
  match flat_import r with Ok b => Ok (Title (meta b), Authors (meta b), Cover (meta b)) | Err e => Err e end.
Lemma epub_imported : shown (epub "en" fshelf).1 = Ok (str "The Book", [str "A. Author"], []).
Proof. by vm_compute. Qed.
(** The pages come in the natural order, and the first is the cover. *)
Lemma comic_imported : shown (cbz fshelf).1 = Ok (str "Comic", [str "Ann"; str "Bob"], str "cover.jpg") ∧
  (match Cbz.Open (Some comic) with Ok b => (λ p, Cbz.EName (Cbz.entry p)) <$> Cbz.Pages b | Err _ => [] end) = [str "p1.jpg"; str "P2.png"; str "p10.jpg"].
Proof. split; by vm_compute. Qed.
Lemma Open_by_name_witness :
  is_ok (Cbz.Open (Some comic)) = true ∧
  match Cbz.Open (Some comic), Cbz.Open (Some (rev comic)) with Ok b, Ok b' => b = b' | Err _, Err _ => True | _, _ => False end.
Proof.
  split; [vm_compute; reflexivity|]. apply (Cbz.Open_by_name comic (rev comic)).
  - apply (bool_decide_unpack _). vm_compute. exact I.
  - apply Permutation_rev.
Defined.
(** A language that no tag of a book can be makes the import fail as a whole. *)
Lemma odd_language_refused : shown (epub "en_US" fshelf).1 = Err ErrInvalidLanguageTag.
Proof. by vm_compute. Qed.
(** A name with white space behind it passes the check as an EPUB, and is then
    imported as a text. *)
Lemma padded_name_is_text : validateImportFileHeader (str "book.epub ") (str "application/epub+zip") = true ∧
  isEPUBExt (lower (filepath_Ext (str "book.epub "))) = false ∧ isCBZExt (filepath_Ext (str "book.epub ")) = false.
Proof. split_and!; by vm_compute. Qed.
Lemma imports_add_a_book_witness :
  let _ : Epub.Markup := package "en" in
  wp (newPlainTextBook (str "Once.") [name_a] [] (str "book.epub")) (λ r s', published [name_a] (stree fshelf) r (stree s')) fshelf ∧
  wp (importEPUB false [] (str "book.epub") [] [name_a] EpubText.DefaultStrategy) (λ r s', published [name_a] (stree fshelf) (flat_import r) (stree s')) fshelf ∧
  wp (importCBZ [] (str "book.epub") [] [name_a]) (λ r s', published [name_a] (stree fshelf) (flat_import r) (stree s')) fshelf.
Proof.
  intros m. destruct (imports_add_a_book false (str "Once.") [] (str "book.epub") [] [name_a] EpubText.DefaultStrategy fshelf) as (A & B & C).
  - apply slugs_plain.
  - apply ascii_slash_kept.
  - apply foldered_wf.
  - exact (conj A (conj B C)).
Defined.
End example.
End Imports.
